(* ===== verification/_CoqProject ===== *)
-Q . S2P
Prelude.v
Text.v
Float64.v
DecimalMath.v
OrderAmounts.v
ArbSizing.v
Orderbook.v
MarketPrice.v
EvmBytes.v
Crypto.v
EvmAbi.v
EvmTransaction.v
OrderSigner.v
OrderAuth.v
Sdk.v
BoundedWorkers.v
Pagination.v
MarketTime.v
HttpDate.v
TradeSettlement.v
TrackerSettlement.v
RestParsing.v
Query.v
RestPaging.v
GammaQueries.v
ClobRows.v
ClobClient.v
ClobOrders.v
ClobMarkets.v
ClobAccount.v
PositionCalls.v
PositionPages.v
JsonFields.v
GammaRows.v
GammaClient.v
RtdsEvents.v
RtdsStream.v
DataParsing.v
DataPortfolio.v
DataQueries.v
DataClient.v
Positions.v
WebsocketStream.v
Tunnel.v
HttpClient.v
Geoblock.v
EvmCursor.v
EvmCursorIo.v
JsonRpc.v
JsonRpcWs.v
WebsocketLifecycle.v
WebsocketOptions.v
CursorJson.v
EvmTransport.v
UserEvents.v
UserSubscription.v
UserStream.v
SafeRelayer.v
PositionClient.v
PositionSends.v
EvmIndexer.v
EvmLive.v
EvmReorg.v
PolymarketEvents.v
OracleWatcher.v
BookEvents.v
OrderbookStream.v
MarketDiscovery.v
OrderbookRuntime.v
