(* ===== verification/Prelude.v ===== *)
(** * A verified model of polymarket-cpp-client

    polymarket-cpp-client is a C++20 SDK for a prediction-market exchange.  Its
    core is the path from what a caller asks ("buy 25 dollars of this token, at
    0.53 or better") to the bytes an exchange contract and a REST server accept;
    the live order books of the websocket stream, with the callbacks that trade on
    them; and the indexing of contract events from an EVM node.  This library is a
    shallow embedding of that core: every operation is an executable function, or,
    where threads interleave, a step relation over such functions, and the theorems
    are about those functions.

    ** How the parts interact

    A limit or market order goes through [ClobOrders]/[ClobClient]: the tick size
    and the neg-risk flag come from caches filled over REST ([Sdk] retries and
    classifies answers, [RestParsing] reads them), a market order's limit comes from
    a walk of a book ([MarketPrice] on [Orderbook]), the two integer amounts come
    from [OrderAmounts] on [DecimalMath] and [Float64], and [OrderSigner] hashes and
    signs them through [EvmAbi]-style words ([EvmBytes], [Crypto]).  [OrderAuth]
    makes the headers of the request.  [TradeSettlement] then waits for the trades
    of the order; [Pagination] runs the multi-page requests.
    Books arrive over a websocket: [WebsocketStream] keeps frames of one generation
    gap-free, [BookEvents] validates and applies them, [OrderbookStream] routes them
    to markets, and [OrderbookRuntime] is the manager whose threads subscribe,
    update, reset and call back.
    [UserStream] is the same protocol for the orders and trades of an account, with
    its subscription ([UserSubscription]) and events ([UserEvents]); [RtdsStream] is
    the shared public stream with prices, comments and sports results
    ([RtdsEvents]).  [MarketDiscovery] finds the markets to watch and [ArbSizing]
    sizes the trades on them.
    Under all of them are the HTTP client ([HttpClient], through a [Tunnel] when a
    websocket needs a proxy) and the websocket client, whose connections
    [WebsocketLifecycle] starts and tears down.
    Contract events come from a node: [JsonRpc] and [JsonRpcWs] talk to it,
    [EvmTransport] connects the two to the indexer, [EvmCursor] splits block
    intervals and keeps the durable cursor, [EvmIndexer] scans and delivers,
    [EvmLive] adds the live stream, its queues and the handoff between the two,
    [EvmReorg] repairs what a reorganisation undid.  [PolymarketEvents] decodes the
    logs and [OracleWatcher] keeps the state of questions they amount to.
    Positions are managed by contract calls ([PositionCalls], [Positions]), sent as
    [EvmTransaction]s or through a Safe and its relayer ([SafeRelayer]), one batch
    at a time ([PositionClient], [PositionSends]).
    The read-only APIs are paths and queries ([Query], [DataQueries],
    [GammaQueries]), rows read from JSON ([JsonFields], [ClobRows], [GammaRows],
    [DataParsing], [DataPortfolio]) and pages of them ([RestPaging] on [Pagination]), put together by
    the clients ([ClobMarkets], [ClobAccount], [PositionPages], [GammaClient],
    [DataClient]).

    ** Files, and the sources they follow

    - [Prelude]: exceptions as the result type [res], [size_t] and [uint64_t]
      arithmetic, tactics, lemmas shared by all files.
    - [Text]: characters, numerals in any base, [std::to_string].
    - [Float64]: [double] and [long double] as [spec_float], and <cmath>.
    - [DecimalMath]: decimal_math.cpp.  [OrderAmounts]: order_amounts.cpp.
    - [ArbSizing]: arb_sizing.cpp.
    - [Orderbook]: types.hpp.  [MarketPrice]: market_price.cpp.
    - [EvmBytes]: hex in order_signer.cpp, evm_uint.cpp, evm_rlp.cpp.
    - [Crypto]: the interfaces of Keccak-256 and of recoverable ECDSA.
    - [EvmAbi]: evm_abi.cpp, evm_utils.cpp.  [EvmTransaction]: evm_transaction.cpp.
    - [OrderSigner]: order_signer.cpp, order_signer_v2.cpp, order_signer_domain.cpp.
    - [OrderAuth]: order_signer_auth.cpp.
    - [Sdk]: sdk_error.hpp/.cpp, rate_limit.cpp.  [Pagination]: pagination.hpp.
    - [BoundedWorkers]: bounded_workers.cpp.  [MarketTime]: market_time.cpp.
    - [HttpDate]: the dates of rate_limit.cpp.
    - [TradeSettlement], [TrackerSettlement]: trade_status_tracker.cpp,
      clob_order_settlement.cpp.
    - [RestParsing]: rest_numeric.hpp, rest_orderbook_parsing.hpp,
      clob_mutation_parsing.cpp.
    - [Query]: query_encoding.hpp, query_builder.cpp.  [RestPaging]: rest_paging.hpp,
      data_client_internal.hpp, gamma_client_internal.hpp.
    - [ClobRows]: clob_parsing.cpp, clob_trade_parsing.cpp, clob_market_parsing.cpp,
      market_fee_parsing.hpp, clob_rewards_parsing.cpp.
    - [ClobClient], [ClobOrders]: clob_market_metadata.cpp, clob_books.cpp,
      market_price_client.cpp, order_execution.cpp, clob_order_execution.cpp,
      clob_order_placement.cpp, clob_order_submission.cpp.
    - [ClobMarkets]: the public reads of clob_books.cpp, clob_market_metadata.cpp and
      clob_client.cpp.  [ClobAccount]: clob_account.cpp, clob_activity.cpp,
      clob_activity_pagination.cpp.  [PositionPages]: clob_positions.cpp,
      clob_position_pages.cpp, environment.cpp.
    - [JsonFields]: json_fields.cpp.  [GammaQueries], [GammaRows], [GammaClient]: the
      gamma_ files.  [DataQueries], [DataParsing], [DataPortfolio], [DataClient]: the data_
      files.
    - [RtdsEvents]: rtds_parsing.cpp, rtds_price_parsing.cpp, sports_parsing.cpp,
      stream_time.cpp.  [RtdsStream]: public_stream.cpp, rtds_stream.cpp,
      sports_stream.cpp.
    - [WebsocketStream]: websocket_resilience.cpp, websocket_client_resilience.cpp.
    - [WebsocketLifecycle]: websocket_client_transport.cpp,
      websocket_client_teardown.cpp.  [Tunnel]: websocket_tunnel.cpp,
      network_route.cpp.  [HttpClient]: the http_client files, http_global.cpp.
      [WebsocketOptions]: the options and subscriptions of
      websocket_client_resilience.cpp, websocket_resilience.cpp.  [Geoblock]:
      geoblock.cpp.
    - [JsonRpc]: json_rpc_client.cpp, json_rpc_transactions.cpp.  [JsonRpcWs]:
      json_rpc_ws_dispatch.cpp, json_rpc_ws_runtime.cpp.
    - [EvmCursor]: evm_cursor_store.cpp, evm_log_identity.hpp,
      evm_transport_epoch.hpp.  [EvmCursorIo]: evm_cursor_io.cpp.
      [CursorJson]: the JSON of evm_cursor_store.cpp.  [EvmTransport]: evm_indexer_transport.cpp.
    - [EvmIndexer]: evm_event_indexer.cpp, evm_event_dispatch.cpp.
    - [EvmLive]: evm_live_handoff.cpp, evm_event_dispatch.cpp,
      evm_indexer_lifecycle.cpp.  [EvmReorg]: evm_reorg_reconciliation.cpp.
    - [PolymarketEvents]: polymarket_events.cpp.  [OracleWatcher]:
      oracle_watcher.cpp, oracle_event_history.cpp.
    - [UserEvents]: websocket_user_data.cpp.  [UserSubscription]:
      user_stream_subscription.cpp.  [UserStream]: the user_stream_runtime files.
    - [PositionCalls], [Positions]: polymarket_contracts.cpp, position_calls.cpp,
      approval_calls.cpp, and the parts of position_client.cpp and
      trading_approvals.cpp that make calls from answers.
    - [SafeRelayer]: safe_relayer.cpp.  [PositionClient], [PositionSends]:
      position_client.cpp, position_senders.cpp, position_gamma.cpp,
      transaction_handle.cpp.
    - [BookEvents]: websocket_market_data.cpp.
    - [OrderbookStream]: orderbook_stream.cpp.
    - [OrderbookRuntime]: orderbook_runtime.hpp and the orderbook_runtime files.
    - [MarketDiscovery]: market_fetcher.cpp, market_discovery.cpp,
      gamma_market_fetcher.cpp, arb_runtime.cpp.

    Definitions carry the names of the functions they translate; a function of the
    C++ that is split here has its parts next to it.  An exception is [Throw e], a
    moved-from or out-parameter is a component of the result, a mutex-protected
    section is one function on the protected record.

    ** What the theorems show

    - Orders: a limit order that reaches the server is the order asked for
      ([limit_order_as_asked]) and a market order keeps to its budget and to a price
      of a book the server gave ([market_order_as_asked]); a reported cancellation
      happened ([cancellations_confirmed]) and placing always answers
      ([placement_always_answers]).  Below them: amounts of market buys are exact
      ([market_buy_exact]), the walk of a book stops at the first level that covers
      the order ([find_depth_limit_first_cover]), fills are sound
      ([estimate_fill_sound]), what is signed is what the order says
      ([signed_order_matches_signature]) and two orders with the same preimage are
      equal ([order_preimage_injective]).
    - Books: applying a stream delta refines the map from price to size
      ([delta_refines_price_map]), and parsing keeps books sorted
      ([parsed_events_keep_books_sorted]).
    - The manager, under every interleaving of its threads: its invariant
      ([runtime_invariant]), callbacks only on fresh and admissible quotes
      ([arb_callbacks_admissible]), no quote of a deactivated market
      ([deactivation_clears_quotes]), quotes that match the books
      ([calls_keep_quotes_matching]).
    - The stream: frames dispatched in one generation are consecutive frames of the
      connection ([generation_frames_contiguous]).  The account stream delivers at
      most one event of a message begun before a gap ([user_callbacks_ordered]) and
      keeps its subscription in line with the markets tracked
      ([subscription_kept_in_line]); its events parse back ([user_events_roundtrip]).
      A client is not left closing ([never_left_closing]), the relay of a tunnel
      delivers both directions intact ([tunnel_relays_intact]), and no HTTP request
      carries what belongs to another ([http_requests_isolated]).
      A node is asked for every subscription ([subscriptions_asked]).
    - The indexer: every accepted log is delivered, queued or answered for by a
      pending recovery ([accepted_logs_answered_for]), queues are bounded
      ([live_queues_bounded]), delivery is once per identity
      ([logs_delivered_once]), catch-up ends at the target over any number of
      restarts ([catch_up_survives_restarts]), the cursor file refines a counter
      ([cursor_documents_refine_counter]) and survives a loss of power
      ([cursor_write_crash_safe]), a gap is repaired to what the chain holds
      ([reconcile_gap_converges]), and the dashboard shows what the chain's events
      make ([dashboard_shows_chain]).
    - Positions: granting what the approval check reports completes it
      ([approvals_granted]); a merge never asks for more than is held
      ([merge_within_balances]); batches are broadcast in order
      ([eoa_batch_in_order]), what the relayer is given is signed for its call and
      nonce ([safe_submissions_signed]) and decodes to the calls asked for
      ([safe_batch_decodes]).
    - The arbitrage program: a plan stays within its budget, depth and edge
      ([arb_plan_within_budget]).
    - Reads: a listing asks for what its filter says ([activity_listing_sound]) and
      its rows are well formed ([activity_page_well_formed]); a price in units of
      10^-18 keeps every digit ([scaled_decimal_exact]); a date is read as the
      calendar counts it ([parse_iso8601_calendar], [http_dates_calendar]).
    - Codecs: [abi_roundtrip].
    - Loops and pools that end: [collect_terminates], [bounded_tasks_run_once].
    - Behaviour worth knowing: [invalid_exchange_cached_as_zeros],
      [change_after_snapshot_lost], [stale_book_survives_disconnect],
      [stale_handoff_drops_logs], [overtaken_request_loses_frames],
      [late_disconnect_sticks], [connect_in_callback_deadlocks] exhibit inputs or
      schedules on which the code departs from what its comments or names promise.

    ** Parameters and hypotheses

    Keccak-256 and secp256k1 are the classes [Keccak] and [RecoverableSigner] of
    [Crypto], with output sizes as their only laws; HMAC-SHA256 is a function
    argument.  The JSON library is a record of functions (parse and dump); so is
    [strtod].  [long double] is any format at least as wide as [double].
    [std::sort] is any sorting permutation where its order of equal elements could
    matter.  Servers, nodes, clocks, sleeps, salts and user callbacks are functions
    or lists of answers over which the theorems quantify.  Allocation does not fail
    and a container has at most [size_t] elements.

    ** Fuel and bounds

    Loops over data are structural.  Loops that wait have fuel, and each has a
    theorem that some fuel gives the result: [Pagination] ends because a page limit,
    an item limit or a repeated cursor stops it ([collect_terminates]); settlement
    because each poll sleeps at least one clock tick before a deadline
    ([settlement_returns], [tracked_settlement_returns]); a rate-limited request
    because retries are counted
    ([retry_rate_limited_bounded]); the sizing of a trade because each turn takes
    shares off ([arb_plan_within_budget]).  Digit loops take [Z.log2] of the number
    or the carry itself as fuel.  64-bit arithmetic wraps ([u64]) where the code lets it,
    and is checked where the code checks it; doubles round after every operation.

    ** Not modelled

    Sockets, TLS, HTTP and websocket framing, threads' start and join, files: I/O,
    or the work of libcurl and IXWebSocket, whose answers are arguments here.  The
    reconnect policy of the websocket library; the sockets a tunnel opens and the
    connections it accepts; moving an HTTP client and the thread of its heartbeat.
    The command line, the test programs and the setters of callbacks and options: they
    store a value or print one. *)
From Stdlib Require Export ZArith Lia Bool.
From stdpp Require Export base gmap sets list strings.

#[local] Open Scope Z_scope.

(** ** C++ exceptions

    A function of the client that may throw is a function into [res]: either it
    returns a value or it leaves with one of the [<stdexcept>] exceptions the
    sources use, carrying its [what()] text. *)

Inductive exn :=
  | invalid_argument (what : string)
  | out_of_range (what : string)
  | logic_error (what : string)
  | runtime_error (what : string).

#[export] Instance exn_eq_dec : EqDecision exn.
Proof. solve_decision. Defined.

Inductive res (A : Type) :=
  | Ok (a : A)
  | Throw (e : exn).
Arguments Ok {_} _.
Arguments Throw {_} _.

#[export] Instance res_eq_dec `{EqDecision A} : EqDecision (res A).
Proof. solve_decision. Defined.

#[export] Instance res_ret : MRet res := @Ok.
#[export] Instance res_bind : MBind res := λ A B f m,
  match m with Ok a => f a | Throw e => Throw e end.
#[export] Instance res_fmap : FMap res := λ A B f m,
  match m with Ok a => Ok (f a) | Throw e => Throw e end.

(** [require b e] is the guard [if (!b) throw e;]. *)
Definition require (b : bool) (e : exn) : res unit :=
  if b then Ok tt else Throw e.

(** [try { m } catch (const std::invalid_argument &) { throw e; }] *)
Definition rethrow_invalid {A} (m : res A) (e : exn) : res A :=
  match m with
  | Throw (invalid_argument _) => Throw e
  | _ => m
  end.

Definition is_ok {A} (m : res A) : bool :=
  match m with Ok _ => true | Throw _ => false end.

Lemma Ok_inj {A} (a b : A) : Ok a = Ok b → a = b.
Proof. congruence. Qed.

Lemma bind_Ok {A B} (m : res A) (f : A → res B) (b : B) :
  m ≫= f = Ok b ↔ ∃ a, m = Ok a ∧ f a = Ok b.
Proof. destruct m; cbn; naive_solver. Qed.

Lemma fmap_Ok {A B} (m : res A) (f : A → B) (b : B) :
  f <$> m = Ok b ↔ ∃ a, m = Ok a ∧ f a = b.
Proof. destruct m; cbn; naive_solver. Qed.

Lemma require_Ok (b : bool) (e : exn) (u : unit) :
  require b e = Ok u ↔ b = true.
Proof. destruct b, u; cbn; naive_solver. Qed.

Lemma rethrow_invalid_Ok {A} (m : res A) (e : exn) (a : A) :
  rethrow_invalid m e = Ok a ↔ m = Ok a.
Proof. destruct m as [|[]]; cbn; naive_solver. Qed.

(** Takes apart every hypothesis that says a computation returned. *)
Ltac res_inv :=
  repeat match goal with
  | H : _ ≫= _ = Ok _ |- _ =>
      let a := fresh "a" in let H1 := fresh "H" in let H2 := fresh "H" in
      apply bind_Ok in H as (a & H1 & H2)
  | H : _ <$> _ = Ok _ |- _ =>
      let a := fresh "a" in let H1 := fresh "H" in let H2 := fresh "H" in
      apply fmap_Ok in H as (a & H1 & H2)
  | H : require _ _ = Ok _ |- _ => apply require_Ok in H
  | H : rethrow_invalid _ _ = Ok _ |- _ => apply rethrow_invalid_Ok in H
  | H : mret _ = Ok _ |- _ => unfold mret, res_ret in H
  | H : Ok _ = Ok _ |- _ => injection H; clear H; intros; subst
  | H : Throw _ = Ok _ |- _ => discriminate H
  end.

(** ** Booleans as the conditions of the code *)

Create Rewrite HintDb code_bool.
#[export] Hint Rewrite andb_true_iff andb_false_iff orb_true_iff orb_false_iff
  negb_true_iff negb_false_iff Z.leb_le Z.ltb_lt Z.eqb_eq Z.leb_gt Z.ltb_ge
  Z.eqb_neq bool_decide_eq_true bool_decide_eq_false : code_bool.

(** Turns the boolean conditions of the hypotheses into propositions. *)
Ltac bools :=
  repeat match goal with
  | H : @eq bool _ _ |- _ => progress autorewrite with code_bool in H
  | H : _ ∧ _ |- _ => destruct H
  end.

(** Splits on the [if] the code branches on, keeping its condition. *)
Ltac case_if :=
  match goal with
  | |- context [if ?b then _ else _] =>
      match type of b with bool => destruct b eqn:? end
  | H : context [if ?b then _ else _] |- _ =>
      match type of b with bool => destruct b eqn:? end
  end.

(** ** Unsigned 64-bit integers

    A [std::uint64_t] (or a [size_t] of the 64-bit targets) is a [Z] in range;
    arithmetic that may wrap in the code is followed by [u64]. *)

Definition u64_max : Z := 18446744073709551615.
Definition u64 (z : Z) : Z := z mod 2 ^ 64.
Definition is_u64 (z : Z) : Prop := 0 ≤ z ≤ u64_max.

#[export] Instance is_u64_dec z : Decision (is_u64 z).
Proof. unfold is_u64. apply _. Defined.

Lemma u64_max_pow : u64_max = 2 ^ 64 - 1.
Proof. reflexivity. Qed.

Lemma u64_id z : is_u64 z → u64 z = z.
Proof. unfold is_u64, u64, u64_max. intros. apply Z.mod_small. lia. Qed.

Lemma u64_range z : is_u64 (u64 z).
Proof.
  unfold is_u64, u64, u64_max.
  pose proof (Z.mod_pos_bound z (2 ^ 64)). lia.
Qed.

Create HintDb u64_db.
#[export] Hint Resolve u64_range : u64_db.

(** ** Division facts the arithmetic components share *)

(** [a / b] for a positive divisor, as the only integer with its defining bounds. *)
Lemma div_bounds a b : 0 < b → b * (a / b) ≤ a < b * (a / b) + b.
Proof. intros. pose proof (Z.div_mod a b). pose proof (Z.mod_pos_bound a b). lia. Qed.

Lemma div_unique_bounds a b q : 0 < b → b * q ≤ a < b * q + b → q = a / b.
Proof. intros. apply Z.div_unique with (r := a - b * q); lia. Qed.

(** Overflow test of the code: [left > max / right] iff the product overflows. *)
Lemma mul_overflow_test l r m :
  0 ≤ l → 0 < r → (m / r < l ↔ m < l * r).
Proof.
  intros. pose proof (div_bounds m r). nia.
Qed.

(** ** Lists *)

Lemma Forall_snoc {A} (P : A → Prop) l x :
  Forall P (l ++ [x]) ↔ Forall P l ∧ P x.
Proof. rewrite Forall_app, Forall_singleton. done. Qed.

Lemma lookup_nil_Some {A} (i : nat) (x : A) : ([] : list A) !! i = Some x → False.
Proof. by rewrite lookup_nil. Qed.

(** A left fold keeps what each of its steps keeps. *)
Lemma foldl_inv {A B} (P : A → Prop) (f : A → B → A) (a : A) (l : list B) :
  P a → (∀ a b, b ∈ l → P a → P (f a b)) → P (foldl f a l).
Proof.
  revert a. induction l as [|b l IH]; intros a Ha Hf; [done|].
  simpl. apply IH; [apply Hf; set_solver|]. intros; apply Hf; set_solver.
Qed.

(** [Forall] over a finite integer interval, decided by computation. *)
Fixpoint forall_below (n : nat) (p : Z → bool) : bool :=
  match n with
  | O => true
  | S n' => p (Z.of_nat n') && forall_below n' p
  end.

Lemma forall_below_spec n p :
  forall_below n p = true ↔ ∀ z, 0 ≤ z < Z.of_nat n → p z = true.
Proof.
  induction n as [|n IH]; cbn [forall_below].
  - split; [intros _ z Hz; lia | done].
  - rewrite andb_true_iff, IH. split.
    + intros [H1 H2] z Hz. destruct (decide (z = Z.of_nat n)) as [->|]; [done|].
      apply H2. lia.
    + intros H. split; [apply H; lia|]. intros z Hz. apply H. lia.
Qed.
