(* ===== verification/Text.v ===== *)
(** * Digits, characters and numerals

    A [std::string] is a list of bytes; it is a [string] here, and its characters
    a [list ascii] where the code walks over them.  This file holds positional
    notation in any base (the value of a digit list, the digits of a value), the
    character tests the parsers share, hexadecimal digits, and the decimal
    numerals of [std::to_string]. *)
From Stdlib Require Import Ascii String.
From S2P Require Import Prelude.

#[local] Open Scope Z_scope.

(** ** Positional notation *)

(** Value of a list of digits, most significant first. *)
Definition val (base : Z) (ds : list Z) : Z := foldl (λ a d, a * base + d) 0 ds.

Definition is_digit_of (base d : Z) : Prop := 0 ≤ d < base.

Fixpoint digits_loop (base : Z) (fuel : nat) (n : Z) (acc : list Z) : list Z :=
  match fuel with
  | O => acc
  | S fuel =>
      if n <? base then n mod base :: acc
      else digits_loop base fuel (n / base) (n mod base :: acc)
  end.

(** Digits of [n], without leading zeros. *)
Definition digits (base n : Z) : list Z :=
  digits_loop base (S (Z.to_nat (Z.log2 n))) n [].

(** The [n] low digits of [z], most significant first. *)
Fixpoint be (base : Z) (n : nat) (z : Z) : list Z :=
  match n with
  | O => []
  | S n => be base n (z / base) ++ [z mod base]
  end.

(** ** Characters *)

Definition code (c : ascii) : Z := Z.of_N (N_of_ascii c).
Definition chr (z : Z) : ascii := ascii_of_N (Z.to_N z).
Definition chars : string → list ascii := list_ascii_of_string.
Definition str : list ascii → string := string_of_list_ascii.

Definition in_range (lo hi : ascii) (c : ascii) : bool :=
  (code lo <=? code c) && (code c <=? code hi).

Definition is_decimal (c : ascii) : bool := in_range "0" "9" c.
Definition decimal_digit (c : ascii) : Z := code c - code "0".

(** Value of a hexadecimal digit of either case. *)
Definition nibble (c : ascii) : option Z :=
  if in_range "0" "9" c then Some (code c - code "0")
  else if in_range "a" "f" c then Some (code c - code "a" + 10)
  else if in_range "A" "F" c then Some (code c - code "A" + 10)
  else None.

(** Lower-case hexadecimal digit of [0..15]; decimal digits for [0..9]. *)
Definition digit_char (d : Z) : ascii :=
  if d <? 10 then chr (code "0" + d) else chr (code "a" + d - 10).

(** [std::to_string] of a non-negative integer. *)
Definition decimal_chars (n : Z) : list ascii := map digit_char (digits 10 n).
Definition to_string (n : Z) : string := str (decimal_chars n).

(** Value of a decimal numeral. *)
Definition decimal_val (cs : list ascii) : Z := val 10 (map decimal_digit cs).

(** ** Lemmas on positional notation *)

Section Digits.
Context (base : Z) (Hbase : 2 ≤ base).

Lemma val_foldl a ds :
  foldl (λ a d, a * base + d) a ds = a * base ^ Z.of_nat (length ds) + val base ds.
Proof using Hbase.
  unfold val. revert a. induction ds as [|d ds IH]; intros a; [cbn; lia|].
  cbn [foldl length]. rewrite IH, (IH (0 * base + d)), Nat2Z.inj_succ, Z.pow_succ_r; lia.
Qed.

Lemma val_app l1 l2 :
  val base (l1 ++ l2) = val base l1 * base ^ Z.of_nat (length l2) + val base l2.
Proof using Hbase. unfold val at 1. rewrite foldl_app. apply val_foldl. Qed.

Lemma val_cons d ds : val base (d :: ds) = d * base ^ Z.of_nat (length ds) + val base ds.
Proof using Hbase. change (d :: ds) with ([d] ++ ds). rewrite val_app. cbn. lia. Qed.

Lemma val_snoc ds d : val base (ds ++ [d]) = val base ds * base + d.
Proof using Type. unfold val. by rewrite foldl_app. Qed.

Lemma val_bounds ds :
  Forall (is_digit_of base) ds → 0 ≤ val base ds < base ^ Z.of_nat (length ds).
Proof using Hbase.
  induction 1 as [|d ds [Hd0 Hd] _ IH]; [done|]. rewrite val_cons. cbn [length].
  rewrite Nat2Z.inj_succ, Z.pow_succ_r by lia. nia.
Qed.

Lemma val_inj l1 l2 :
  Forall (is_digit_of base) l1 → Forall (is_digit_of base) l2 →
  length l1 = length l2 → val base l1 = val base l2 → l1 = l2.
Proof using Hbase.
  intros H1 H2. revert l2 H2. induction H1 as [|d1 l1 Hd1 H1 IH];
    intros [|d2 l2] H2 Hlen Hval; try done.
  apply Forall_cons in H2 as [Hd2 H2]. injection Hlen as Hlen.
  rewrite !val_cons, Hlen in Hval.
  pose proof (val_bounds l1 H1) as B1. pose proof (val_bounds l2 H2) as B2.
  rewrite Hlen in B1. unfold is_digit_of in *.
  assert (d1 = d2) as -> by nia. f_equal. apply IH; [done|done|lia].
Qed.

Lemma val_zeros n ds : val base (replicate n 0 ++ ds) = val base ds.
Proof using Hbase.
  rewrite val_app. assert (val base (replicate n 0) = 0) as ->; [|lia].
  induction n as [|n IH]; [done|]. cbn [replicate]. rewrite val_cons, IH. lia.
Qed.

Lemma be_length n z : length (be base n z) = n.
Proof using Type.
  revert z. induction n as [|n IH]; intros z; [done|]. cbn. rewrite length_app, IH. cbn. lia.
Qed.

Lemma be_digits n z : Forall (is_digit_of base) (be base n z).
Proof using Hbase.
  revert z. induction n as [|n IH]; intros z; [constructor|]. cbn. apply Forall_app. split; [done|].
  constructor; [|constructor]. apply Z.mod_pos_bound. lia.
Qed.

Lemma val_be n z : val base (be base n z) = z mod base ^ Z.of_nat n.
Proof using Hbase.
  revert z. induction n as [|n IH]; intros z; [by rewrite Z.mod_1_r|]. cbn [be].
  rewrite val_snoc, IH, Nat2Z.inj_succ, Z.pow_succ_r by lia.
  rewrite Z.rem_mul_r by lia. lia.
Qed.

Lemma val_be_small n z : 0 ≤ z < base ^ Z.of_nat n → val base (be base n z) = z.
Proof using Hbase. intros. rewrite val_be. by apply Z.mod_small. Qed.

Lemma be_val ds : Forall (is_digit_of base) ds → be base (length ds) (val base ds) = ds.
Proof using Hbase.
  intros H. apply val_inj; [apply be_digits|done|apply be_length|].
  apply val_be_small. by apply val_bounds.
Qed.

Lemma digits_loop_acc fuel n acc :
  digits_loop base fuel n acc = digits_loop base fuel n [] ++ acc.
Proof using Type.
  revert n acc. induction fuel as [|fuel IH]; intros n acc; [done|]. cbn.
  destruct (n <? base); [done|]. rewrite IH, (IH _ [_]). by rewrite <- app_assoc.
Qed.

Lemma digits_fuel_step n : base ≤ n → (Z.to_nat (Z.log2 (n / base)) < Z.to_nat (Z.log2 n))%nat.
Proof using Hbase.
  intros Hn. assert (n / base ≤ n / 2) as Hle.
  { apply Z.div_le_compat_l; lia. }
  assert (Z.log2 (n / 2) = Z.log2 n - 1) as Hl.
  { change (n / 2) with (n / 2 ^ 1). rewrite <- Z.shiftr_div_pow2, Z.log2_shiftr by lia. pose proof (Z.log2_le_mono 2 n ltac:(lia)) as H2.
    change (Z.log2 2) with 1 in H2. lia. }
  pose proof (Z.log2_le_mono _ _ Hle). pose proof (Z.log2_nonneg (n / base)).
  pose proof (Z.log2_le_mono 2 n ltac:(lia)) as H2. change (Z.log2 2) with 1 in H2. lia.
Qed.

Lemma digits_loop_fuel fuel n acc :
  0 ≤ n → (Z.to_nat (Z.log2 n) < fuel)%nat →
  digits_loop base fuel n acc = digits_loop base (S (Z.to_nat (Z.log2 n))) n acc.
Proof using Hbase.
  revert n acc. induction fuel as [fuel IH] using lt_wf_ind. intros n acc Hn Hf.
  destruct fuel as [|fuel]; [lia|]. cbn [digits_loop].
  destruct (Z.ltb_spec n base) as [|Hge]; [done|].
  pose proof (digits_fuel_step n Hge). assert (0 ≤ n / base) by (apply Z.div_pos; lia).
  rewrite (IH fuel) by lia.
  destruct (decide (Z.to_nat (Z.log2 n) = fuel)) as [->|]; [|rewrite (IH (Z.to_nat (Z.log2 n))) by lia; done].
  symmetry. apply IH; lia.
Qed.

(** The digits of a number end in its remainder. *)
Lemma digits_unfold n :
  0 ≤ n → digits base n = (if n <? base then [] else digits base (n / base)) ++ [n mod base].
Proof using Hbase.
  intros Hn. unfold digits at 1. cbn [digits_loop]. destruct (Z.ltb_spec n base) as [|Hge]; [done|].
  rewrite digits_loop_acc. f_equal. unfold digits.
  pose proof (digits_fuel_step n Hge). apply digits_loop_fuel; [apply Z.div_pos; lia|lia].
Qed.

(** Induction on the digits of a number. *)
Lemma digits_ind (P : Z → Prop) :
  (∀ n, 0 ≤ n < base → P n) → (∀ n, base ≤ n → P (n / base) → P n) → ∀ n, 0 ≤ n → P n.
Proof using Hbase.
  intros H0 Hs. apply Zlt_0_ind. intros n IH Hn.
  destruct (decide (n < base)); [apply H0; lia|].
  apply Hs; [lia|]. apply IH. split; [apply Z.div_pos; lia|].
  apply Z.div_lt; lia.
Qed.

Lemma digits_in_base n : 0 ≤ n → Forall (is_digit_of base) (digits base n).
Proof using Hbase.
  revert n. refine (digits_ind _ _ _); intros n Hn; [|intros IH];
    rewrite digits_unfold by lia.
  - destruct (Z.ltb_spec n base); [|lia]. constructor; [|constructor].
    apply Z.mod_pos_bound; lia.
  - destruct (Z.ltb_spec n base); [lia|]. apply Forall_app. split; [done|].
    constructor; [|constructor]. apply Z.mod_pos_bound; lia.
Qed.

Lemma val_digits n : 0 ≤ n → val base (digits base n) = n.
Proof using Hbase.
  revert n. refine (digits_ind _ _ _); intros n Hn; [|intros IH];
    rewrite digits_unfold, val_snoc by lia.
  - destruct (Z.ltb_spec n base); [|lia]. cbn. rewrite Z.mod_small; lia.
  - destruct (Z.ltb_spec n base); [lia|]. rewrite IH.
    pose proof (Z.div_mod n base ltac:(lia)). lia.
Qed.

(** A numeral without leading zeros is the digits of its value. *)
Lemma digits_val d ds :
  Forall (is_digit_of base) (d :: ds) → (d = 0 → ds = []) →
  digits base (val base (d :: ds)) = d :: ds.
Proof using Hbase.
  revert d. induction ds as [|e ds IH] using rev_ind; intros d Hds Hz.
  { apply Forall_cons in Hds as [Hd _]. change (val base [d]) with d.
    unfold is_digit_of in Hd. rewrite digits_unfold by lia.
    destruct (Z.ltb_spec d base); [|lia]. cbn. f_equal. by apply Z.mod_small. }
  change (d :: ds ++ [e]) with ((d :: ds) ++ [e]) in *.
  apply Forall_app in Hds as [Hds He]. apply Forall_cons in He as [He _].
  rewrite val_snoc. pose proof (val_bounds _ Hds). unfold is_digit_of in He.
  assert (d ≠ 0) as Hd by (intros ->; destruct ds; discriminate (Hz eq_refl)).
  assert (1 ≤ val base (d :: ds)).
  { rewrite val_cons. apply Forall_cons in Hds as [[Hd0 _] Hds'].
    pose proof (val_bounds _ Hds').
    pose proof (Z.pow_pos_nonneg base (Z.of_nat (length ds)) ltac:(lia) ltac:(lia)). nia. }
  assert (base ≤ val base (d :: ds) * base) by nia.
  rewrite digits_unfold by lia.
  destruct (Z.ltb_spec (val base (d :: ds) * base + e) base); [lia|].
  rewrite Z.div_add_l, (Z.div_small e), Z.add_0_r by lia.
  rewrite IH by (done || lia). f_equal. f_equal.
  rewrite Z.add_comm, Z.mod_add by lia. by apply Z.mod_small.
Qed.

Lemma digits_nonempty n : 0 ≤ n → digits base n ≠ [].
Proof using Hbase.
  intros Hn. rewrite digits_unfold by done. by intros [_ ?]%app_nil.
Qed.

Lemma digits_head n : 0 < n → ∃ d ds, digits base n = d :: ds ∧ 0 < d.
Proof using Hbase.
  intros Hn. assert (0 ≤ n) as Hn' by lia. revert Hn. revert n Hn'.
  refine (digits_ind _ _ _); intros n Hn; [|intros IH]; intros Hpos; rewrite digits_unfold by lia.
  - destruct (Z.ltb_spec n base); [|lia]. exists (n mod base), [].
    rewrite Z.mod_small by lia. split; [done|lia].
  - destruct (Z.ltb_spec n base); [lia|]. destruct IH as (d & ds & -> & ?).
    + apply Z.div_str_pos. lia.
    + by exists d, (ds ++ [n mod base]).
Qed.

Lemma digits_length n k :
  0 ≤ n < base ^ Z.of_nat k → (0 < k)%nat → (length (digits base n) ≤ k)%nat.
Proof using Hbase.
  intros [Hn Hk]. revert k Hk. revert n Hn.
  refine (digits_ind _ _ _); intros n Hn; [|intros IH]; intros k Hk Hpos; rewrite digits_unfold by lia.
  - destruct (Z.ltb_spec n base); [|lia]. cbn. lia.
  - destruct (Z.ltb_spec n base); [lia|]. destruct k as [|[|k]]; [lia|lia|].
    rewrite length_app. cbn [length]. specialize (IH (S k)).
    rewrite Nat2Z.inj_succ, Z.pow_succ_r in Hk by lia.
    assert (n / base < base ^ Z.of_nat (S k)) by (apply Z.div_lt_upper_bound; lia). lia.
Qed.

Lemma digits_inj n m : 0 ≤ n → 0 ≤ m → digits base n = digits base m → n = m.
Proof using Hbase. intros Hn Hm E. rewrite <- (val_digits n Hn), E. by apply val_digits. Qed.
End Digits.

#[global] Arguments be : simpl never.
#[global] Arguments digits : simpl never.

(** ** Lemmas on characters *)

Lemma code_range c : 0 ≤ code c < 256.
Proof. unfold code. pose proof (N_ascii_bounded c). lia. Qed.

Lemma chr_code c : chr (code c) = c.
Proof. unfold chr, code. rewrite N2Z.id. apply ascii_N_embedding. Qed.

Lemma code_chr z : 0 ≤ z < 256 → code (chr z) = z.
Proof. intros. unfold chr, code. rewrite N_ascii_embedding; lia. Qed.

Lemma code_inj c d : code c = code d → c = d.
Proof. intros E. by rewrite <- (chr_code c), E, chr_code. Qed.

Lemma chars_str cs : chars (str cs) = cs.
Proof. apply list_ascii_of_string_of_list_ascii. Qed.

Lemma str_chars s : str (chars s) = s.
Proof. apply string_of_list_ascii_of_string. Qed.

Lemma chars_inj s t : chars s = chars t → s = t.
Proof. intros E. by rewrite <- (str_chars s), E, str_chars. Qed.

Lemma chars_app s t : chars (s +:+ t) = chars s ++ chars t.
Proof.
  induction s as [|c s IH]; [done|].
  change (c :: chars (s +:+ t) = c :: (chars s ++ chars t)). by rewrite IH.
Qed.

Lemma str_app s t : str (s ++ t) = str s +:+ str t.
Proof.
  induction s as [|c s IH]; [done|].
  change (String c (str (s ++ t)) = String c (str s +:+ str t)). by rewrite IH.
Qed.

(** A statement about every character is checked on the 256 of them. *)
Definition all_chars (p : ascii → bool) : bool := forall_below 256 (λ z, p (chr z)).

Lemma all_chars_spec p : all_chars p = true → ∀ c, p c = true.
Proof.
  intros H c. unfold all_chars in H. rewrite forall_below_spec in H.
  rewrite <- (chr_code c). apply H, code_range.
Qed.

Lemma below_spec n p : forall_below n p = true → ∀ z, 0 ≤ z < Z.of_nat n → p z = true.
Proof. by rewrite forall_below_spec. Qed.

Lemma digit_char_decimal d :
  0 ≤ d < 10 → is_decimal (digit_char d) = true ∧ decimal_digit (digit_char d) = d.
Proof.
  intros Hd.
  pose proof (below_spec 10 (λ d, is_decimal (digit_char d) && (decimal_digit (digit_char d) =? d))
    ltac:(by vm_compute) d Hd) as H.
  by apply andb_true_iff in H as [? ?%Z.eqb_eq].
Qed.

Lemma nibble_digit_char d : 0 ≤ d < 16 → nibble (digit_char d) = Some d.
Proof.
  intros Hd.
  pose proof (below_spec 16 (λ d, bool_decide (nibble (digit_char d) = Some d))
    ltac:(by vm_compute) d Hd) as H. by apply bool_decide_eq_true in H.
Qed.

Lemma nibble_range c d : nibble c = Some d → 0 ≤ d < 16.
Proof.
  pose proof (all_chars_spec (λ c, match nibble c with Some d => (0 <=? d) && (d <? 16) | None => true end)
    ltac:(by vm_compute) c) as H. cbv beta in H. intros E. rewrite E in H. bools. lia.
Qed.

Lemma decimal_digit_range c : is_decimal c = true → 0 ≤ decimal_digit c < 10.
Proof.
  unfold is_decimal, in_range, decimal_digit. intros H. bools.
  change (code "0") with 48 in *. change (code "9") with 57 in *. lia.
Qed.

Lemma digit_char_of_decimal c : is_decimal c = true → digit_char (decimal_digit c) = c.
Proof.
  pose proof (all_chars_spec
    (λ c, negb (is_decimal c) || bool_decide (digit_char (decimal_digit c) = c))
    ltac:(by vm_compute) c) as H. cbv beta in H. intros E. rewrite E in H. by apply bool_decide_eq_true in H.
Qed.

(** ** Decimal numerals *)

Definition all_decimal (cs : list ascii) : bool := forallb is_decimal cs.

Lemma all_decimal_digits cs :
  all_decimal cs = true → Forall (is_digit_of 10) (map decimal_digit cs).
Proof.
  unfold all_decimal. rewrite forallb_forall.
  intros H. apply Forall_map, Forall_forall. intros c Hc. apply decimal_digit_range, H.
  by apply list_elem_of_In.
Qed.

Lemma decimal_chars_decimal n : 0 ≤ n → all_decimal (decimal_chars n) = true.
Proof.
  intros Hn. unfold all_decimal, decimal_chars. apply forallb_forall. intros c Hc.
  apply in_map_iff in Hc as (d & <- & Hd). apply digit_char_decimal.
  pose proof (digits_in_base 10 ltac:(lia) n Hn) as Hf. rewrite Forall_forall in Hf.
  apply Hf. by apply list_elem_of_In.
Qed.

Lemma decimal_val_chars n : 0 ≤ n → decimal_val (decimal_chars n) = n.
Proof.
  intros Hn. unfold decimal_val, decimal_chars. rewrite map_map.
  rewrite (map_ext_in _ id); [rewrite map_id; by apply val_digits|].
  intros d Hd. apply digit_char_decimal.
  pose proof (digits_in_base 10 ltac:(lia) n Hn) as Hf. rewrite Forall_forall in Hf.
  apply Hf. by apply list_elem_of_In.
Qed.

Lemma decimal_chars_inj n m : 0 ≤ n → 0 ≤ m → decimal_chars n = decimal_chars m → n = m.
Proof. intros Hn Hm E. rewrite <- (decimal_val_chars n), E by done. by apply decimal_val_chars. Qed.

(** A numeral without leading zeros is the one [to_string] prints. *)
Lemma decimal_chars_val c cs :
  all_decimal (c :: cs) = true → (c = "0"%char → cs = []) →
  decimal_chars (decimal_val (c :: cs)) = c :: cs.
Proof.
  intros Hd Hz. pose proof (all_decimal_digits _ Hd) as Hf.
  unfold decimal_val, decimal_chars. cbn [map] in *. rewrite digits_val; [|lia|done|].
  - cbn [map]. assert (∀ c', c' ∈ c :: cs → digit_char (decimal_digit c') = c') as Hid.
    { intros c' Hc'. apply digit_char_of_decimal. unfold all_decimal in Hd.
      rewrite forallb_forall in Hd. apply Hd. by apply list_elem_of_In. }
    rewrite Hid by set_solver. f_equal. rewrite map_map.
    rewrite (map_ext_in _ id); [apply map_id|].
    intros c' Hc'. apply Hid. apply list_elem_of_In. by right.
  - intros H0. unfold decimal_digit in H0. rewrite Hz; [done|]. apply code_inj. lia.
Qed.
