(* ===== verification/Float64.v ===== *)
(** * IEEE-754 arithmetic of the client

    [double] values are the [spec_float] data of the Standard Library with 53
    bits of precision; [long double] is a parameter, because the two supported
    targets differ: 64 bits of precision (x87) on Linux x86-64, the 53 bits of
    [double] on macOS arm64.  Every operation below is executable and rounds to
    nearest even, as the targets do; [<cmath>] functions are modelled on top of
    the same data.  The second half relates the data to the exact integers the
    order code reads off it. *)
From Stdlib Require Import Floats.SpecFloat.
From S2P Require Import Prelude.

#[local] Open Scope Z_scope.

Abbreviation double := spec_float (only parsing).
Abbreviation longdouble := spec_float (only parsing).

Record float_format := Format { f_prec : Z; f_emax : Z }.

Definition binary64 : float_format := Format 53 1024.

(** The [long double] of the target. *)
Class LongDouble := long_double : float_format.
Definition x86_64_long_double : LongDouble := Format 64 16384.
Definition arm64_long_double : LongDouble := binary64.

(** ** Operations *)
Section Ops.
Context (F : float_format).

Definition fadd := SFadd (f_prec F) (f_emax F).
Definition fsub := SFsub (f_prec F) (f_emax F).
Definition fmul := SFmul (f_prec F) (f_emax F).
Definition fdiv := SFdiv (f_prec F) (f_emax F).

(** The float nearest to an integer, and to the quotient of two integers (a
    decimal literal [m / 10 ^ k]). *)
Definition of_Z (z : Z) : spec_float :=
  binary_normalize (f_prec F) (f_emax F) z 0 false.
Definition of_ratio (n d : positive) : spec_float :=
  fdiv (S754_finite false n 0) (S754_finite false d 0).

(** [static_cast] between formats. *)
Definition fcast (x : spec_float) : spec_float :=
  match x with
  | S754_finite s m e => binary_round (f_prec F) (f_emax F) s m e
  | _ => x
  end.

(** [std::nextafter] towards an infinity. *)
Definition next_up := SFsucc (f_prec F) (f_emax F).
Definition next_down := SFpred (f_prec F) (f_emax F).

Definition valid (x : spec_float) : bool :=
  valid_binary (f_prec F) (f_emax F) x.
End Ops.

#[export] Instance spec_float_eq_dec : EqDecision spec_float.
Proof. solve_decision. Defined.

Definition is_finite (x : spec_float) : bool :=
  match x with S754_zero _ | S754_finite _ _ _ => true | _ => false end.

Definition fabs := SFabs.
Definition feq := SFeqb.
Definition flt := SFltb.
Definition fle := SFleb.

Definition fzero : spec_float := S754_zero false.

(** [std::max] and [std::min] of [<algorithm>]: the first argument wins ties and
    unordered comparisons. *)
Definition fmax (a b : spec_float) : spec_float := if flt a b then b else a.
Definition fmin (a b : spec_float) : spec_float := if flt b a then b else a.

(** Exact integer parts of the value [(-1)^s * m * 2^e]. *)
Definition signed (s : bool) (m : positive) : Z := if s then Zneg m else Zpos m.

Definition floorZ (x : spec_float) : Z :=
  match x with
  | S754_finite s m e =>
      if 0 <=? e then signed s m * 2 ^ e else signed s m / 2 ^ (- e)
  | _ => 0
  end.

Definition truncZ (x : spec_float) : Z :=
  match x with
  | S754_finite s m e =>
      if 0 <=? e then signed s m * 2 ^ e else Z.quot (signed s m) (2 ^ (- e))
  | _ => 0
  end.

(** [std::floor] and [std::ceil]: integers of the format are exact, and the sign
    of a zero result is the sign of the argument. *)
Definition ffloor (F : float_format) (x : spec_float) : spec_float :=
  match x with
  | S754_finite s _ _ => binary_normalize (f_prec F) (f_emax F) (floorZ x) 0 s
  | _ => x
  end.

Definition fceil (F : float_format) (x : spec_float) : spec_float :=
  match x with
  | S754_finite s m e =>
      binary_normalize (f_prec F) (f_emax F)
        (- floorZ (S754_finite (negb s) m e)) 0 s
  | _ => x
  end.

(** [std::fmod]: the exact remainder of the truncated quotient. *)
Definition ffmod (F : float_format) (x y : spec_float) : spec_float :=
  match x, y with
  | S754_finite sx mx ex, S754_finite _ my ey =>
      let ez := Z.min ex ey in
      binary_normalize (f_prec F) (f_emax F)
        (Z.rem (signed sx mx * 2 ^ (ex - ez)) (Zpos my * 2 ^ (ey - ez))) ez sx
  | S754_zero _, S754_finite _ _ _ => x
  | S754_zero _, S754_infinity _ | S754_finite _ _ _, S754_infinity _ => x
  | _, _ => S754_nan
  end.

(** ** Digits and shifts *)

Lemma digits2_pos_bounds (p : positive) :
  2 ^ (Zpos (digits2_pos p) - 1) ≤ Zpos p < 2 ^ Zpos (digits2_pos p).
Proof.
  induction p as [p IH|p IH|]; cbn [digits2_pos]; [| |done].
  all: rewrite Pos2Z.inj_succ; replace (Z.succ _ - 1) with (Z.succ (Zpos (digits2_pos p) - 1)) by lia.
  all: rewrite !Z.pow_succ_r by lia; lia.
Qed.

Lemma digits2_pos_le (p : positive) (k : Z) :
  0 ≤ k → Zpos p < 2 ^ k → Zpos (digits2_pos p) ≤ k.
Proof.
  intros Hk Hp. pose proof (digits2_pos_bounds p) as [H _].
  destruct (Z.le_gt_cases (Zpos (digits2_pos p)) k); [done|].
  pose proof (Z.pow_le_mono_r 2 k (Zpos (digits2_pos p) - 1)). lia.
Qed.

Lemma iter_pos_iter {A} (f : A → A) (p : positive) (x : A) :
  SpecFloat.iter_pos f p x = Nat.iter (Pos.to_nat p) f x.
Proof.
  revert x. induction p as [p IH|p IH|]; intros x; cbn [SpecFloat.iter_pos]; [| |done].
  - rewrite !IH, Pos2Nat.inj_xI, <- Nat.iter_add. replace (_ + _)%nat with (2 * Pos.to_nat p)%nat by lia.
    by rewrite <- Nat.iter_succ_r.
  - rewrite !IH, Pos2Nat.inj_xO, <- Nat.iter_add. f_equal. lia.
Qed.

Lemma shr_1_m (r : shr_record) : 0 ≤ shr_m r → shr_m (shr_1 r) = shr_m r / 2.
Proof.
  destruct r as [m r s]; cbn. destruct m as [|[p|p|]|p]; cbn; intros; try lia; try done.
  - apply div_unique_bounds; lia.
  - apply div_unique_bounds; lia.
Qed.

(** A shifted record is exact when no one bit has been shifted out. *)
Definition exact_rec (r : shr_record) : Prop := shr_r r = false ∧ shr_s r = false.

Lemma shr_1_exact (r : shr_record) :
  0 ≤ shr_m r → exact_rec r → shr_m r mod 2 = 0 → exact_rec (shr_1 r).
Proof.
  unfold exact_rec. destruct r as [m r s]; cbn. intros Hm [-> ->] H.
  destruct m as [|p|p]; [done| |lia].
  destruct p as [p|p|]; [|done|done].
  rewrite Pos2Z.inj_xI, Z.add_comm, Z.mul_comm, Z.mod_add in H; done.
Qed.

Lemma iter_shr_m n (r : shr_record) :
  0 ≤ shr_m r → shr_m (Nat.iter n shr_1 r) = shr_m r / 2 ^ Z.of_nat n.
Proof.
  intros Hm. induction n as [|n IH]; [by rewrite Z.div_1_r|].
  rewrite Nat.iter_succ, shr_1_m; rewrite IH.
  - rewrite Nat2Z.inj_succ, Z.pow_succ_r, Z.mul_comm, Z.div_div by lia. done.
  - apply Z.div_pos; lia.
Qed.

Lemma iter_shr_exact n (r : shr_record) :
  0 ≤ shr_m r → exact_rec r → shr_m r mod 2 ^ Z.of_nat n = 0 →
  exact_rec (Nat.iter n shr_1 r).
Proof.
  intros Hm He. induction n as [|n IH]; [done|].
  rewrite Nat2Z.inj_succ, Z.pow_succ_r by lia. intros Hmod.
  apply Z.mod_divide in Hmod as [k Hk]; [|lia].
  assert (shr_m r = k * 2 * 2 ^ Z.of_nat n) as E by lia.
  rewrite Nat.iter_succ. apply shr_1_exact.
  - rewrite iter_shr_m by done. apply Z.div_pos; lia.
  - apply IH. rewrite E. apply Z.mod_mul. lia.
  - rewrite iter_shr_m, E, Z.div_mul by lia. by apply Z.mod_mul.
Qed.

Section Rounding.
Context (prec emax : Z) (Hprec : 1 < prec).

Lemma shr_fexp_m m e :
  0 ≤ m →
  let '(r, e') := shr_fexp prec emax m e loc_Exact in
  let n := Z.max 0 (fexp prec emax (Zdigits2 m + e) - e) in
  shr_m r = m / 2 ^ n ∧ e' = e + n ∧ (m mod 2 ^ n = 0 → exact_rec r).
Proof.
  intros Hm. unfold shr_fexp, shr, shr_record_of_loc.
  destruct (fexp prec emax (Zdigits2 m + e) - e) as [|p|p] eqn:E.
  - cbn. rewrite Z.div_1_r. repeat split; lia.
  - rewrite iter_pos_iter.
    replace (Z.max 0 (Zpos p)) with (Z.of_nat (Pos.to_nat p)) by lia.
    split_and!; [by apply iter_shr_m|lia|].
    intros; by apply iter_shr_exact.
  - cbn. rewrite Z.div_1_r. repeat split; lia.
Qed.

Lemma round_nearest_even_bounds m r :
  shr_m r = m → m ≤ round_nearest_even m (loc_of_shr_record r) ≤ m + 1.
Proof.
  intros _. destruct r as [? [] []]; cbn; try lia. case_match; lia.
Qed.

Lemma shr_fexp_small m e :
  0 ≤ m → 0 ≤ shr_m (fst (shr_fexp prec emax m e loc_Exact)) < 2 ^ prec.
Proof.
  intros Hm. pose proof (shr_fexp_m m e Hm) as H.
  destruct (shr_fexp _ _ _ _ _) as [r e']. cbn. cbv zeta in H. destruct H as (-> & _ & _).
  set (n := Z.max 0 _). split; [apply Z.div_pos; lia|].
  apply Z.div_lt_upper_bound; [lia|].
  rewrite <- Z.pow_add_r by lia.
  destruct m as [|p|p]; [lia| |lia].
  pose proof (digits2_pos_bounds p) as [_ Hd]. cbn [Zdigits2] in n.
  eapply Z.lt_le_trans; [done|]. apply Z.pow_le_mono_r; [lia|].
  subst n. unfold fexp. lia.
Qed.

(** The mantissa of a rounded result has at most [prec] bits. *)
Definition small_mantissa (x : spec_float) : Prop :=
  match x with S754_finite _ m _ => Zpos m < 2 ^ prec | _ => True end.

Lemma binary_round_aux_small s m e :
  0 ≤ m → small_mantissa (binary_round_aux prec emax s m e loc_Exact).
Proof.
  intros Hm. unfold binary_round_aux.
  destruct (shr_fexp prec emax m e loc_Exact) as [r e'] eqn:E1.
  pose proof (shr_fexp_small m e Hm) as H1. rewrite E1 in H1; cbn in H1.
  pose proof (round_nearest_even_bounds (shr_m r) r eq_refl) as H2.
  pose proof (shr_fexp_small (round_nearest_even (shr_m r) (loc_of_shr_record r)) e')
    as H3.
  destruct (shr_fexp prec emax (round_nearest_even _ _) e' loc_Exact) as [r2 e2].
  cbn in H3. destruct (shr_m r2) as [|p|p] eqn:Er; [done| |done].
  case_match; [|done]. cbn. lia.
Qed.

Lemma binary_round_aux_sign s m e s' m' e' :
  binary_round_aux prec emax s m e loc_Exact = S754_finite s' m' e' → s' = s.
Proof.
  unfold binary_round_aux. repeat case_match; intros; simplify_eq; done.
Qed.

Lemma iter_xO (m d : positive) : Zpos (Pos.iter xO m d) = Zpos m * 2 ^ Zpos d.
Proof.
  induction d as [|d IH] using Pos.peano_ind; [cbn; lia|].
  rewrite Pos.iter_succ, Pos2Z.inj_xO, IH, Pos2Z.inj_succ, Z.pow_succ_r; lia.
Qed.

Lemma shl_align_spec mx ex ex' :
  let '(mz, ez) := shl_align mx ex ex' in
  ez = Z.min ex ex' ∧ Zpos mz = Zpos mx * 2 ^ (ex - ez).
Proof.
  unfold shl_align. destruct (ex' - ex) as [|d|d] eqn:E.
  - split; [lia|]. rewrite Z.sub_diag. lia.
  - split; [lia|]. rewrite Z.sub_diag. lia.
  - split; [lia|]. rewrite iter_xO. do 2 f_equal. lia.
Qed.

(** [x] is a float whose value is the non-negative integer [n]. *)
Definition int_value (x : spec_float) (n : Z) : Prop :=
  match x with
  | S754_zero _ => n = 0
  | S754_finite s m e =>
      s = false ∧ ∃ z, z ≤ 0 ∧ z ≤ e ∧ Zpos m * 2 ^ (e - z) = n * 2 ^ (- z)
  | _ => False
  end.

Lemma int_value_floor x n : int_value x n → floorZ x = n ∧ truncZ x = n.
Proof.
  destruct x as [s|s| |s m e]; cbn; try done.
  intros [-> (z & Hz & He & E)].
  destruct (Z.leb_spec 0 e) as [He0|He0]; cbn [signed].
  - assert (Zpos m * 2 ^ e = n); [|done].
    apply (Z.mul_reg_r _ _ (2 ^ (- z))); [lia|].
    rewrite <- E, <- Z.mul_assoc, <- Z.pow_add_r by lia. f_equal; f_equal; lia.
  - assert (Zpos m = n * 2 ^ (- e)) as ->.
    { apply (Z.mul_reg_r _ _ (2 ^ (e - z))); [lia|].
      rewrite E, <- Z.mul_assoc, <- Z.pow_add_r by lia. f_equal; f_equal; lia. }
    rewrite Z.quot_mul, Z.div_mul by lia. done.
Qed.

(** A number with a factor [2 ^ j] that covers the shift is rounded exactly. *)
Lemma shr_fexp_exact m e q j :
  0 < q < 2 ^ prec → 0 ≤ j → m = q * 2 ^ j → emin prec emax ≤ e + j →
  let '(r, e') := shr_fexp prec emax m e loc_Exact in
  exact_rec r ∧ ∃ j', 0 ≤ j' ∧ shr_m r = q * 2 ^ j' ∧ e' + j' = e + j ∧ e ≤ e'.
Proof.
  intros Hq Hj Hm He. assert (0 < m) as Hm0 by nia.
  pose proof (shr_fexp_m m e ltac:(lia)) as H.
  destruct (shr_fexp prec emax m e loc_Exact) as [r e']. cbv zeta in H.
  set (n := Z.max 0 (fexp prec emax (Zdigits2 m + e) - e)) in *.
  destruct H as (Hr & -> & Hex).
  assert (n ≤ j) as Hn.
  { assert (Zdigits2 m ≤ prec + j).
    { destruct m as [|p|p]; [lia| |lia]. apply digits2_pos_le; [lia|].
      rewrite Hm, Z.pow_add_r by lia. nia. }
    subst n. unfold fexp. lia. }
  assert (m = q * 2 ^ (j - n) * 2 ^ n) as Hmn.
  { rewrite <- Z.mul_assoc, <- Z.pow_add_r by lia. rewrite Hm. do 2 f_equal. lia. }
  split; [apply Hex; rewrite Hmn; apply Z.mod_mul; lia|].
  exists (j - n). rewrite Hr, Hmn, Z.div_mul by lia. repeat split; lia.
Qed.

Lemma binary_round_aux_exact s m e q j :
  0 < q < 2 ^ prec → 0 ≤ j → m = q * 2 ^ j → emin prec emax ≤ e + j →
  match binary_round_aux prec emax s m e loc_Exact with
  | S754_finite s' m' e' =>
      s' = s ∧ e ≤ e' ∧ ∃ j', 0 ≤ j' ∧ Zpos m' = q * 2 ^ j' ∧ e' + j' = e + j
  | S754_infinity _ => emax - prec < e + j
  | _ => False
  end.
Proof.
  intros Hq Hj Hm He. unfold binary_round_aux.
  pose proof (shr_fexp_exact m e q j Hq Hj Hm He) as H1.
  destruct (shr_fexp prec emax m e loc_Exact) as [r e1].
  destruct H1 as ([Hr Hs] & j1 & Hj1 & Hm1 & He1 & Hle1).
  assert (round_nearest_even (shr_m r) (loc_of_shr_record r) = shr_m r) as ->.
  { destruct r as [m0 r0 s0]; cbn in *; by subst. }
  pose proof (shr_fexp_exact (shr_m r) e1 q j1 Hq Hj1 Hm1 ltac:(lia)) as H2.
  destruct (shr_fexp prec emax (shr_m r) e1 loc_Exact) as [r2 e2].
  destruct H2 as (_ & j2 & Hj2 & Hm2 & He2 & Hle2).
  assert (0 < shr_m r2) by (rewrite Hm2; nia).
  destruct (shr_m r2) as [|p|p]; [lia| |lia].
  destruct (Z.leb_spec e2 (emax - prec)); [|lia].
  split_and!; [done|lia|]. exists j2. repeat split; lia.
Qed.

Context (Hemax : 2 * prec ≤ emax).

Lemma emin_neg : emin prec emax ≤ 0.
Proof using Hprec Hemax. unfold emin. lia. Qed.

(** Rounding a float whose value is an integer with at most [prec] significant
    bits changes nothing. *)
Lemma binary_round_int m e n q k :
  int_value (S754_finite false m e) n → n = q * 2 ^ k → 0 ≤ k → 0 < q < 2 ^ prec →
  match binary_round prec emax false m e with
  | S754_infinity _ => emax - prec < k ∨ emax - prec < e
  | x => int_value x n
  end.
Proof using Hprec Hemax.
  intros [_ (z & Hz & Hze & E)] Hn Hk Hq. unfold binary_round.
  pose proof (shl_align_spec m e (fexp prec emax (Zpos (digits2_pos m) + e))) as Hs.
  destruct (shl_align m e _) as [mz ez]. destruct Hs as [Hez Hmz].
  pose proof emin_neg.
  assert (∃ q' j, 0 < q' < 2 ^ prec ∧ 0 ≤ j ∧ Zpos mz = q' * 2 ^ j ∧
            (ez + j = k ∨ ez + j = e ∧ 0 ≤ e)) as (q' & j & Hq' & Hj & Hm' & Hej).
  { destruct (Z.le_gt_cases e k) as [Hke|Hke].
    - exists q, (k - ez). split_and!; [lia|lia|lia| |left; lia].
      apply (Z.mul_reg_r _ _ (2 ^ (ez - Z.min z ez))); [lia|].
      rewrite Hmz, <- !Z.mul_assoc, <- !Z.pow_add_r by lia.
      replace (e - ez + (ez - Z.min z ez)) with ((e - z) + (z - Z.min z ez)) by lia.
      rewrite Z.pow_add_r, Z.mul_assoc, E, Hn by lia.
      rewrite <- !Z.mul_assoc, <- !Z.pow_add_r by lia. f_equal; f_equal; lia.
    - assert (Zpos m * 2 ^ (e - k) = q) as Hmq.
      { apply (Z.mul_reg_r _ _ (2 ^ (k - z))); [lia|].
        rewrite <- Z.mul_assoc, <- Z.pow_add_r by lia.
        replace (e - k + (k - z)) with (e - z) by lia.
        rewrite E, Hn, <- Z.mul_assoc, <- Z.pow_add_r by lia. f_equal; f_equal; lia. }
      exists (Zpos m), (e - ez). split_and!; [lia|nia|lia|done|right; lia]. }
  pose proof (binary_round_aux_exact false (Zpos mz) ez q' j Hq' Hj Hm' ltac:(lia)) as R.
  destruct (binary_round_aux _ _ _ _ _ _) as [s'|s'| |s' m' e']; [done|lia|done|].
  destruct R as (-> & Hle & j' & Hj' & Hm2 & He2). cbn. split; [done|].
  exists (Z.min z ez). split_and!; [lia|lia|].
  rewrite Hm2, <- Z.mul_assoc, <- Z.pow_add_r by lia.
  replace (j' + (e' - Z.min z ez)) with (j + (ez - Z.min z ez)) by lia.
  rewrite Z.pow_add_r, Z.mul_assoc, <- Hm', Hmz, <- Z.mul_assoc, <- Z.pow_add_r by lia.
  replace (e - ez + (ez - Z.min z ez)) with ((e - z) + (z - Z.min z ez)) by lia.
  rewrite Z.pow_add_r, Z.mul_assoc, E, <- Z.mul_assoc, <- Z.pow_add_r by lia.
  f_equal; f_equal; lia.
Qed.

(** Every positive integer up to [2 ^ prec] has [prec] significant bits. *)
Lemma int_factor n : 0 < n ≤ 2 ^ prec → ∃ q k, n = q * 2 ^ k ∧ 0 ≤ k ≤ prec ∧ 0 < q < 2 ^ prec.
Proof using Hprec Hemax.
  intros [H0 Hn]. destruct (decide (n = 2 ^ prec)) as [->|].
  - exists 1, prec. pose proof (Z.pow_gt_1 2 prec). lia.
  - exists n, 0. lia.
Qed.

Lemma int_value_small_exponent m e n :
  int_value (S754_finite false m e) n → n ≤ 2 ^ prec → e ≤ prec.
Proof using Hprec Hemax.
  intros [_ (z & Hz & Hze & E)] Hn.
  destruct (Z.le_gt_cases e prec); [done|].
  assert (n * 2 ^ (- z) < Zpos m * 2 ^ (e - z)); [|lia].
  apply Z.le_lt_trans with (2 ^ (prec - z)).
  { replace (prec - z) with (prec + - z) by lia. rewrite Z.pow_add_r by lia. nia. }
  pose proof (Z.pow_lt_mono_r 2 (prec - z) (e - z)). nia.
Qed.

Lemma int_value_pos m e n : int_value (S754_finite false m e) n → 0 < n.
Proof.
  intros [_ (z & Hz & Hze & E)].
  pose proof (Z.pow_pos_nonneg 2 (e - z)). pose proof (Z.pow_pos_nonneg 2 (- z)). nia.
Qed.

Lemma binary_normalize_int m e n :
  0 ≤ m → 0 ≤ n ≤ 2 ^ prec → (∃ z, z ≤ 0 ∧ z ≤ e ∧ m * 2 ^ (e - z) = n * 2 ^ (- z)) →
  int_value (binary_normalize prec emax m e false) n.
Proof using Hprec Hemax.
  intros Hm Hn (z & Hz & Hze & E). destruct m as [|p|p]; [|clear Hm|lia].
  { cbn. pose proof (Z.pow_pos_nonneg 2 (- z)). nia. }
  cbn [binary_normalize].
  assert (int_value (S754_finite false p e) n) as Hv by (split; eauto).
  pose proof (int_value_pos _ _ _ Hv).
  destruct (int_factor n) as (q & k & Hqk & Hk & Hq); [lia|].
  pose proof (binary_round_int p e n q k Hv Hqk ltac:(lia) Hq) as R.
  pose proof (int_value_small_exponent p e n Hv ltac:(lia)).
  destruct (binary_round prec emax false p e); try done. lia.
Qed.

(** A power of two below the largest exponent is a float. *)
Lemma of_pow2 k : 0 ≤ k ≤ emax - prec → int_value (binary_normalize prec emax (2 ^ k) 0 false) (2 ^ k).
Proof using Hprec Hemax.
  intros Hk. destruct (2 ^ k) as [|p|p] eqn:Ek; [lia| |lia]. rewrite <- Ek at 2.
  assert (int_value (S754_finite false p 0) (2 ^ k)) as Hv.
  { split; [done|]. exists 0. cbn. lia. }
  assert (1 < 2 ^ prec) by (apply Z.pow_gt_1; lia).
  pose proof (binary_round_int p 0 (2 ^ k) 1 k Hv ltac:(lia) ltac:(lia) ltac:(lia)) as R.
  cbn [binary_normalize]. destruct (binary_round prec emax false p 0); try done. lia.
Qed.

Lemma int_value_add x y a b :
  int_value x a → int_value y b → 0 ≤ a → 0 ≤ b → a + b ≤ 2 ^ prec →
  int_value (SFadd prec emax x y) (a + b).
Proof using Hprec Hemax.
  intros Hx Hy Ha Hb Hab.
  destruct x as [sx|sx| |sx mx ex], y as [sy|sy| |sy my ey]; try done.
  - cbn in *. subst. by destruct sx, sy.
  - cbn in Hx. subst a. by rewrite Z.add_0_l.
  - cbn in Hy. subst b. by rewrite Z.add_0_r.
  - destruct Hx as [-> (zx & Hzx & Hex & Ex)], Hy as [-> (zy & Hzy & Hey & Ey)].
    cbn [SFadd]. set (ez := Z.min ex ey).
    pose proof (shl_align_spec mx ex ez) as Sx. pose proof (shl_align_spec my ey ez) as Sy.
    destruct (shl_align mx ex ez) as [mx' ex'], (shl_align my ey ez) as [my' ey'].
    destruct Sx as [Hex' Hmx], Sy as [Hey' Hmy]. cbn [fst cond_Zopp].
    assert (ex' = ez) as -> by lia. assert (ey' = ez) as -> by lia.
    set (z := Z.min zx zy).
    apply binary_normalize_int; [lia|lia|]. exists z. split_and!; [lia|lia|].
    assert (∀ m e c z', z' ≤ e → z ≤ z' → z' ≤ 0 → ez ≤ e →
              Zpos m * 2 ^ (e - z') = c * 2 ^ (- z') →
              Zpos m * 2 ^ (e - ez) * 2 ^ (ez - z) = c * 2 ^ (- z)) as Hsc.
    { intros m e c z' ?????. rewrite <- Z.mul_assoc, <- Z.pow_add_r by lia.
      replace (e - ez + (ez - z)) with ((e - z') + (z' - z)) by lia.
      rewrite Z.pow_add_r, Z.mul_assoc, H3, <- Z.mul_assoc, <- Z.pow_add_r by lia.
      f_equal; f_equal; lia. }
    rewrite Z.mul_add_distr_r, Z.mul_add_distr_r, Hmx, Hmy.
    f_equal; eapply Hsc; eauto; lia.
Qed.

(** ** Canonical floats

    A float of the format has at most [prec] bits of mantissa, and exactly
    [prec] unless its exponent is the smallest one. *)
Definition canonical (x : spec_float) : Prop :=
  match x with
  | S754_finite _ m e =>
      Zpos m < 2 ^ prec ∧ emin prec emax ≤ e ≤ emax - prec ∧
      (e = emin prec emax ∨ 2 ^ (prec - 1) ≤ Zpos m)
  | _ => True
  end.

Lemma valid_canonical x : valid_binary prec emax x = true → canonical x.
Proof using Hprec Hemax.
  destruct x as [|?| |s m e]; try done. cbn.
  unfold bounded, canonical_mantissa, fexp. intros H; bools.
  pose proof (digits2_pos_bounds m) as [Hl Hu].
  assert (Zpos (digits2_pos m) ≤ prec) by lia.
  pose proof (Z.pow_le_mono_r 2 (Zpos (digits2_pos m)) prec).
  split_and!; [lia|lia|lia|].
  destruct (decide (e = emin prec emax)); [by left|right].
  assert (Zpos (digits2_pos m) = prec) by lia. congruence.
Qed.

(** Rounding returns canonical floats when the exponent of its argument is not
    above the canonical one. *)
Lemma binary_round_aux_canonical s m e :
  0 ≤ m → e ≤ fexp prec emax (Zdigits2 m + e) →
  canonical (binary_round_aux prec emax s m e loc_Exact).
Proof using Hprec Hemax.
  intros Hm He. unfold binary_round_aux.
  pose proof (shr_fexp_m m e Hm) as H1. pose proof (shr_fexp_small m e Hm) as S1.
  destruct (shr_fexp prec emax m e loc_Exact) as [r e1].
  cbv zeta in H1. cbn in S1. rewrite Z.max_r in H1 by lia.
  destruct H1 as (Hr & He1 & _).
  pose proof (round_nearest_even_bounds (shr_m r) r eq_refl) as HR.
  set (R := round_nearest_even _ _) in *.
  pose proof (shr_fexp_m R e1 ltac:(lia)) as H2.
  destruct (shr_fexp prec emax R e1 loc_Exact) as [r2 e2].
  cbv zeta in H2. destruct H2 as (Hr2 & He2 & _).
  destruct (shr_m r2) as [|p|p] eqn:Ep; [done| |done].
  destruct (Z.leb_spec e2 (emax - prec)) as [Hle|]; [|done]. cbn [canonical].
  assert (e1 = fexp prec emax (Zdigits2 m + e)) as Ee1 by lia.
  assert (R ≤ 2 ^ prec) as HRle by lia.
  assert (e1 = emin prec emax ∨ 2 ^ (prec - 1) ≤ shr_m r) as Hfull.
  { destruct m as [|q|q]; [|clear Hm|lia].
    { rewrite Hr in S1, HR. rewrite Z.div_0_l in * by lia.
      rewrite Hr2 in Ep. destruct (decide (e1 = emin prec emax)); [by left|].
      exfalso. unfold fexp, Zdigits2 in *. lia. }
    pose proof (digits2_pos_bounds q) as [Hl _]. cbn [Zdigits2] in *.
    destruct (decide (e1 = emin prec emax)); [by left|right].
    rewrite Hr. apply Z.div_le_lower_bound; [lia|].
    rewrite <- Z.pow_add_r by (unfold fexp in *; lia).
    etrans; [|exact Hl]. apply Z.pow_le_mono_r; [lia|]. unfold fexp in *. lia. }
  assert (emin prec emax ≤ e1) as Hmin by (unfold fexp in Ee1; lia).
  destruct (decide (R = 2 ^ prec)) as [ER|NR].
  - assert (Zdigits2 R = prec + 1) as HdR.
    { rewrite ER in *. destruct (2 ^ prec) as [|q|q] eqn:Eq; [lia| |lia].
      cbn [Zdigits2]. pose proof (digits2_pos_bounds q) as [Hl Hu]. rewrite <- Eq in Hl, Hu.
      apply Z.pow_lt_mono_r_iff in Hu; [|lia|lia].
      apply Z.pow_le_mono_r_iff in Hl; lia. }
    assert (Z.max 0 (fexp prec emax (Zdigits2 R + e1) - e1) = 1) as En
      by (rewrite HdR; unfold fexp; lia).
    rewrite En in Hr2, He2.
    assert (Zpos p = 2 ^ (prec - 1)) as E2.
    { rewrite Hr2, ER. symmetry. apply div_unique_bounds; [lia|].
      replace prec with (Z.succ (prec - 1)) at 2 3 by lia. rewrite Z.pow_succ_r by lia. lia. }
    rewrite E2. pose proof (Z.pow_lt_mono_r 2 (prec - 1) prec).
    split_and!; [lia|lia|lia|right; lia].
  - assert (Zdigits2 R ≤ prec) as HdR.
    { destruct R as [|q|q]; [cbn; lia| |lia]. apply digits2_pos_le; lia. }
    assert (Z.max 0 (fexp prec emax (Zdigits2 R + e1) - e1) = 0) as En.
    { destruct Hfull as [->|Hf]; [unfold fexp; lia|]. unfold fexp. lia. }
    rewrite En in Hr2, He2. rewrite Z.div_1_r in Hr2.
    rewrite Hr2. split_and!; [lia|lia|lia|].
    destruct Hfull; [left; lia|right; lia].
Qed.

Lemma digits_shl (m : positive) (d : Z) (q : positive) :
  0 ≤ d → Zpos q = Zpos m * 2 ^ d → Zpos (digits2_pos q) = Zpos (digits2_pos m) + d.
Proof using Hprec Hemax.
  intros Hd E. pose proof (digits2_pos_bounds m) as [Hl Hu].
  pose proof (digits2_pos_bounds q) as [Hl' Hu']. rewrite E in Hl', Hu'.
  set (a := Zpos (digits2_pos m)) in *. set (b := Zpos (digits2_pos q)) in *.
  assert (2 ^ (a - 1 + d) < 2 ^ b).
  { rewrite Z.pow_add_r by lia. nia. }
  assert (2 ^ (b - 1) < 2 ^ (a + d)).
  { rewrite (Z.pow_add_r 2 a d) by lia. nia. }
  apply Z.pow_lt_mono_r_iff in H; [|lia|lia].
  apply Z.pow_lt_mono_r_iff in H0; [|lia|lia]. lia.
Qed.

Lemma binary_round_canonical s m e : canonical (binary_round prec emax s m e).
Proof using Hprec Hemax.
  unfold binary_round.
  pose proof (shl_align_spec m e (fexp prec emax (Zpos (digits2_pos m) + e))) as Hs.
  destruct (shl_align m e _) as [mz ez]. destruct Hs as [Hez Hmz].
  apply binary_round_aux_canonical; [lia|]. cbn [Zdigits2].
  rewrite (digits_shl m (e - ez) mz) by (done || lia).
  replace (Zpos (digits2_pos m) + (e - ez) + ez) with (Zpos (digits2_pos m) + e); lia.
Qed.

Lemma binary_normalize_canonical m e s : canonical (binary_normalize prec emax m e s).
Proof using Hprec Hemax. destruct m; [done|apply binary_round_canonical..]. Qed.

Lemma SFmul_canonical x y :
  canonical x → canonical y → canonical (SFmul prec emax x y).
Proof using Hprec Hemax.
  destruct x as [|?| |sx mx ex], y as [|?| |sy my ey]; try done.
  intros (Hmx & Hex & Hx) (Hmy & Hey & Hy). cbn [SFmul].
  apply binary_round_aux_canonical; [lia|]. cbn [Zdigits2].
  pose proof emin_neg as Hn. unfold fexp.
  destruct Hx as [->|Hx]; [destruct Hy as [->|Hy]; [lia|]|].
  all: pose proof (digits2_pos_bounds (mx * my)) as [_ Hu].
  all: assert (2 ^ (prec - 1) < 2 ^ Zpos (digits2_pos (mx * my))) as Hd by nia.
  all: apply Z.pow_lt_mono_r_iff in Hd; lia.
Qed.

Lemma SFadd_canonical x y :
  canonical x → canonical y → canonical (SFadd prec emax x y).
Proof using Hprec Hemax.
  destruct x as [[]|[]| |sx mx ex], y as [[]|[]| |sy my ey]; try done.
  intros _ _. cbn [SFadd]. apply binary_normalize_canonical.
Qed.

(** Comparison of canonical positive floats is comparison of their values. *)
Lemma SFcompare_pos m1 e1 m2 e2 :
  canonical (S754_finite false m1 e1) → canonical (S754_finite false m2 e2) →
  let z := Z.min e1 e2 in
  SFcompare (S754_finite false m1 e1) (S754_finite false m2 e2) =
    Some (Zpos m1 * 2 ^ (e1 - z) ?= Zpos m2 * 2 ^ (e2 - z)).
Proof using Hprec Hemax.
  intros (Hm1 & He1 & H1) (Hm2 & He2 & H2) z. cbn [SFcompare]. f_equal.
  assert (∀ ma ea mb eb, Zpos ma < 2 ^ prec → emin prec emax ≤ ea → ea < eb →
            eb = emin prec emax ∨ 2 ^ (prec - 1) ≤ Zpos mb →
            Zpos ma < Zpos mb * 2 ^ (eb - ea)) as Hlt.
  { intros ma ea mb eb ??? [|Hb]; [lia|].
    replace prec with (Z.succ (prec - 1)) in H by lia. rewrite Z.pow_succ_r in H by lia.
    pose proof (Z.pow_le_mono_r 2 1 (eb - ea)). nia. }
  destruct (Z.compare_spec e1 e2) as [->|Hlt12|Hlt12]; subst z.
  - rewrite Z.min_id, Z.sub_diag, !Z.mul_1_r. done.
  - rewrite Z.min_l, Z.sub_diag, Z.mul_1_r by lia. symmetry.
    apply Z.compare_lt_iff. apply Hlt; [done|lia|done|done].
  - rewrite Z.min_r, Z.sub_diag, Z.mul_1_r by lia. symmetry.
    apply Z.compare_gt_iff. apply Hlt; [done|lia|done|done].
Qed.

(** ** Floors of canonical floats *)
Lemma ffloor_int (F : float_format) m e :
  f_prec F = prec → f_emax F = emax →
  Zpos m < 2 ^ prec → floorZ (S754_finite false m e) ≤ 2 ^ prec →
  int_value (ffloor F (S754_finite false m e)) (floorZ (S754_finite false m e)).
Proof using Hprec Hemax.
  intros EF1 EF2 Hm Hn. unfold ffloor. rewrite EF1, EF2.
  set (n := floorZ _) in *.
  assert (0 ≤ n).
  { subst n. cbn [floorZ signed]. case_match; [nia|]. apply Z.div_pos; lia. }
  apply binary_normalize_int; [done|lia|]. exists 0. repeat split; lia.
Qed.

Lemma binary_round_same m e :
  Zpos m < 2 ^ prec → emin prec emax ≤ e ≤ emax - prec →
  ∃ m' e' z, binary_round prec emax false m e = S754_finite false m' e' ∧
    z ≤ e ∧ z ≤ e' ∧ Zpos m' * 2 ^ (e' - z) = Zpos m * 2 ^ (e - z).
Proof using Hprec Hemax.
  intros Hm He. unfold binary_round.
  pose proof (shl_align_spec m e (fexp prec emax (Zpos (digits2_pos m) + e))) as Hs.
  destruct (shl_align m e _) as [mz ez]. destruct Hs as [Hez Hmz].
  assert (ez + (e - ez) = e) as Hee by lia.
  pose proof (binary_round_aux_exact false (Zpos mz) ez (Zpos m) (e - ez)
                ltac:(lia) ltac:(lia) Hmz ltac:(lia)) as R.
  destruct (binary_round_aux _ _ _ _ _ _) as [s'|s'| |s' m' e']; [done|lia|done|].
  destruct R as (-> & Hle & j & Hj & Hm' & Hej). exists m', e', ez.
  split_and!; [done|lia|lia|].
  rewrite Hm', <- Z.mul_assoc, <- Z.pow_add_r by lia. f_equal; f_equal; lia.
Qed.
End Rounding.

(** Comparing two scaled mantissas does not depend on the common exponent. *)
Lemma scaled_shift a e w y : y ≤ w → w ≤ e → a * 2 ^ (e - y) = a * 2 ^ (e - w) * 2 ^ (w - y).
Proof. intros. rewrite <- Z.mul_assoc, <- Z.pow_add_r by lia. f_equal; f_equal; lia. Qed.

Lemma scaled_le_shift a ea b eb w y :
  y ≤ w → w ≤ ea → w ≤ eb →
  (a * 2 ^ (ea - w) ≤ b * 2 ^ (eb - w) ↔ a * 2 ^ (ea - y) ≤ b * 2 ^ (eb - y)).
Proof.
  intros. rewrite (scaled_shift a ea w y), (scaled_shift b eb w y) by lia.
  apply Z.mul_le_mono_pos_r, Z.pow_pos_nonneg; lia.
Qed.

Lemma floorZ_shift m e z :
  z ≤ e → z ≤ 0 → floorZ (S754_finite false m e) = Zpos m * 2 ^ (e - z) / 2 ^ (- z).
Proof.
  intros Hz Hz0. cbn [floorZ signed]. destruct (Z.leb_spec 0 e).
  - replace (e - z) with (e + - z) by lia.
    rewrite Z.pow_add_r, Z.mul_assoc, Z.div_mul by lia. done.
  - replace (- z) with (- e + (e - z)) by lia.
    rewrite Z.pow_add_r by lia. rewrite Z.div_mul_cancel_r; lia.
Qed.

(** The floor depends on the value only. *)
Lemma floorZ_same m e m' e' z :
  z ≤ e → z ≤ e' → Zpos m' * 2 ^ (e' - z) = Zpos m * 2 ^ (e - z) →
  floorZ (S754_finite false m' e') = floorZ (S754_finite false m e).
Proof.
  intros He He' E. set (y := Z.min z 0).
  rewrite (floorZ_shift m' e' y), (floorZ_shift m e y) by lia.
  replace (e' - y) with ((e' - z) + (z - y)) by lia.
  replace (e - y) with ((e - z) + (z - y)) by lia.
  by rewrite !Z.pow_add_r, !Z.mul_assoc, E by lia.
Qed.
