(* ===== verification/DecimalMath.v ===== *)
(** * Decimal scaling of doubles (src/decimal_math.cpp)

    Prices, sizes and amounts enter the client as [double]s and leave it as
    unsigned 64-bit integers of base units.  This file models the three rounding
    modes of [decimal_to_scaled_uint64] and the exact variant
    [exact_decimal_to_scaled_uint64], with the [double] products and the
    [long double] corrections written out in the order the code performs them. *)
From Stdlib Require Import Floats.SpecFloat.
From S2P Require Import Prelude Float64.

#[local] Open Scope Z_scope.

Inductive DecimalRoundingMode := Down | Nearest | HalfEven.

#[export] Instance rounding_mode_eq_dec : EqDecision DecimalRoundingMode.
Proof. solve_decision. Defined.

Section DecimalMath.
Context `{L : LongDouble}.

Definition ld_of_Z (z : Z) : longdouble := of_Z L z.
(** [0.5L] *)
Definition ld_half : longdouble := of_ratio L 1 2.

(** [for (i < decimals) scale *= 10.0L] *)
Fixpoint scale_loop (n : nat) (scale : longdouble) : longdouble :=
  match n with
  | O => scale
  | S n' => scale_loop n' (fmul L scale (ld_of_Z 10))
  end.

Definition decimal_scale (decimals : Z) : res longdouble :=
  if (decimals <? 0) || (18 <? decimals)
  then Throw (invalid_argument "decimals must be between 0 and 18")
  else Ok (scale_loop (Z.to_nat decimals) (ld_of_Z 1)).

(** [amount * static_cast<double>(scale)], a [double] product widened to
    [long double]. *)
Definition scaled_product (amount : double) (scale : longdouble) : longdouble :=
  fcast L (fmul binary64 amount (fcast binary64 scale)).

Definition round_down_with_ulp_correction
    (amount : double) (scaled scale : longdouble) : longdouble :=
  let lower := ffloor L scaled in
  if feq scaled lower then lower
  else
    let next := next_up binary64 amount in
    if negb (is_finite next) then lower
    else
      let next_scaled := scaled_product next scale in
      let above := fadd L lower (ld_of_Z 1) in
      if fle above next_scaled then above else lower.

Definition scaled_input_ulp (amount : double) (scale : longdouble) : longdouble :=
  let above := next_up binary64 amount in
  let below := next_down binary64 amount in
  let above_distance :=
    if is_finite above then fcast L (fsub binary64 above amount) else fzero in
  let below_distance :=
    if is_finite below then fcast L (fsub binary64 amount below) else fzero in
  fmul L (fmax above_distance below_distance) scale.

Definition round_half_even (amount : double) (scaled scale : longdouble)
    : longdouble :=
  let lower := ffloor L scaled in
  let fraction := fsub L scaled lower in
  let tolerance := scaled_input_ulp amount scale in
  if fle (fabs (fsub L fraction ld_half)) tolerance then
    if feq (ffmod L lower (ld_of_Z 2)) fzero then lower
    else fadd L lower (ld_of_Z 1)
  else if flt fraction ld_half then lower
  else fadd L lower (ld_of_Z 1).

(** [std::ldexp(1.0L, 64)] *)
Definition exclusive_upper_bound : longdouble := ld_of_Z (2 ^ 64).

(** The cast [static_cast<std::uint64_t>] truncates; it is undefined outside
    the range, which the guard excludes. *)
Definition checked_uint64 (integer_value : longdouble) : res Z :=
  if negb (is_finite integer_value) || flt integer_value fzero
     || fle exclusive_upper_bound integer_value
  then Throw (out_of_range "scaled amount exceeds uint64 range")
  else Ok (truncZ integer_value).

Definition check_amount (amount : double) : res unit :=
  require (is_finite amount && negb (flt amount fzero))
    (invalid_argument "amount must be finite and non-negative").

Definition decimal_to_scaled_uint64
    (amount : double) (decimals : Z) (rounding_mode : DecimalRoundingMode) : res Z :=
  check_amount amount;;
  scale ← decimal_scale decimals;
  let scaled := scaled_product amount scale in
  let integer_value :=
    match rounding_mode with
    | Nearest => ffloor L (fadd L scaled ld_half)
    | HalfEven => round_half_even amount scaled scale
    | Down => round_down_with_ulp_correction amount scaled scale
    end in
  checked_uint64 integer_value.

Definition exact_decimal_to_scaled_uint64 (amount : double) (decimals : Z) : res Z :=
  check_amount amount;;
  scale ← decimal_scale decimals;
  let scaled := scaled_product amount scale in
  let nearest := ffloor L (fadd L scaled ld_half) in
  if negb (is_finite scaled)
     || flt (fmul L (ld_of_Z 2) (scaled_input_ulp amount scale))
            (fabs (fsub L scaled nearest))
  then Throw (invalid_argument "amount has excess decimal precision")
  else checked_uint64 nearest.
End DecimalMath.

(** ** What the two targets guarantee of [long double] *)
Class LongDoubleLaws (L : LongDouble) : Prop := {
  ld_prec_range : 53 ≤ f_prec L ≤ 64;
  ld_emax_range : 1024 ≤ f_emax L }.

#[export] Instance x86_64_laws : LongDoubleLaws x86_64_long_double.
Proof. by split. Qed.
#[export] Instance arm64_laws : LongDoubleLaws arm64_long_double.
Proof. by split. Qed.

Section Facts.
Context {L : LongDouble} {Laws : LongDoubleLaws L}.

Lemma ld_facts : 1 < f_prec L ∧ 2 * f_prec L ≤ f_emax L ∧ 64 ≤ f_emax L - f_prec L.
Proof. destruct Laws. lia. Qed.

Lemma exclusive_upper_bound_spec :
  ∃ m e, exclusive_upper_bound = S754_finite false m e ∧
    canonical (f_prec L) (f_emax L) (S754_finite false m e) ∧
    int_value (S754_finite false m e) (2 ^ 64).
Proof using Laws.
  destruct ld_facts as (H1 & H2 & H3).
  pose proof (of_pow2 _ _ H1 H2 64 ltac:(lia)) as Hv.
  pose proof (binary_normalize_canonical _ _ H1 H2 (2 ^ 64) 0 false) as Hc.
  unfold exclusive_upper_bound, ld_of_Z, of_Z.
  destruct (binary_normalize _ _ _ _ _) as [s|s| |s m e]; try done.
  destruct Hv as [-> Hv]. by exists m, e.
Qed.

(** A canonical non-negative float below [2 ^ 64] truncates below [2 ^ 64]. *)
Lemma upper_bound_guard m e :
  canonical (f_prec L) (f_emax L) (S754_finite false m e) →
  fle exclusive_upper_bound (S754_finite false m e) = false →
  floorZ (S754_finite false m e) < 2 ^ 64.
Proof using Laws.
  intros Hc Hle. destruct ld_facts as (H1 & H2 & H3).
  destruct exclusive_upper_bound_spec as (mb & eb & Hb & Hcb & [_ (z & Hz & Hze & E)]).
  rewrite Hb in Hle. unfold fle, SFleb in Hle.
  rewrite (SFcompare_pos _ _ H1 H2) in Hle by done. cbv zeta in Hle.
  destruct (Z.compare_spec (Zpos mb * 2 ^ (eb - Z.min eb e)) (Zpos m * 2 ^ (e - Z.min eb e)));
    try done.
  set (y := Z.min z (Z.min eb e)).
  rewrite (floorZ_shift m e y) by lia.
  apply Z.div_lt_upper_bound; [lia|].
  rewrite Z.mul_comm. apply Z.lt_nge. intros Hge. apply Z.lt_nge in H. apply H.
  apply (scaled_le_shift _ _ _ _ _ y); [lia..|].
  rewrite (scaled_shift _ eb z y), E by lia.
  replace (- y) with (- z + (z - y)) in Hge by lia.
  rewrite Z.pow_add_r in Hge by lia. lia.
Qed.

Lemma truncZ_floorZ m e :
  truncZ (S754_finite false m e) = floorZ (S754_finite false m e).
Proof.
  cbn [truncZ floorZ signed]. case_match; [done|]. by rewrite Z.quot_div_nonneg by lia.
Qed.

Lemma floorZ_nonneg m e : 0 ≤ floorZ (S754_finite false m e).
Proof. cbn [floorZ signed]. case_match; [nia|]. apply Z.div_pos; lia. Qed.

(** The cast to [std::uint64_t] is never undefined: whatever passes the guard
    is a number of the target type. *)
Lemma checked_uint64_range v r :
  canonical (f_prec L) (f_emax L) v → checked_uint64 v = Ok r → is_u64 r.
Proof using Laws.
  unfold checked_uint64. intros Hc H. case_if; [done|]. res_inv. bools.
  destruct v as [s|s| |s m e]; try done.
  destruct s; [done|]. apply upper_bound_guard in H0; [|done].
  pose proof (floorZ_nonneg m e). rewrite truncZ_floorZ.
  unfold is_u64, u64_max. lia.
Qed.

(** Every integer of the target type passes the guard unchanged. *)
Lemma checked_uint64_int v n :
  canonical (f_prec L) (f_emax L) v → int_value v n → is_u64 n →
  checked_uint64 v = Ok n.
Proof using Laws.
  intros Hc Hv Hn. unfold is_u64, u64_max in Hn. destruct ld_facts as (H1 & H2 & H3).
  destruct v as [s|s| |s m e]; try done.
  - cbn in Hv. subst. unfold checked_uint64.
    destruct exclusive_upper_bound_spec as (mb & eb & -> & _). by destruct s.
  - pose proof Hv as [Hs _]. subst s. unfold checked_uint64.
    destruct (int_value_floor _ _ Hv) as [Hf ->].
    destruct exclusive_upper_bound_spec as (mb & eb & Hb & Hcb & [_ (zb & Hzb & Hzeb & Eb)]).
    destruct Hv as [_ (z & Hz & Hze & E)].
    rewrite Hb. cbn [is_finite negb orb flt fzero SFltb SFcompare].
    unfold fle, SFleb. rewrite (SFcompare_pos _ _ H1 H2) by done. cbv zeta.
    destruct (Z.compare_spec (Zpos mb * 2 ^ (eb - Z.min eb e)) (Zpos m * 2 ^ (e - Z.min eb e)))
      as [Hcmp|Hcmp|Hcmp]; try done; exfalso.
    all: set (y := Z.min (Z.min eb e) (Z.min z zb)).
    all: assert (Zpos mb * 2 ^ (eb - y) ≤ Zpos m * 2 ^ (e - y)) as Hle
      by (apply (scaled_le_shift _ _ _ _ (Z.min eb e)); lia).
    all: rewrite (scaled_shift _ eb zb y), (scaled_shift _ e z y), Eb, E in Hle by lia.
    all: rewrite <- !Z.mul_assoc in Hle.
    all: rewrite <- (Z.pow_add_r 2 (- zb)), <- (Z.pow_add_r 2 (- z)) in Hle by lia.
    all: replace (- zb + (zb - y)) with (- y) in Hle by lia.
    all: replace (- z + (z - y)) with (- y) in Hle by lia.
    all: apply Z.mul_le_mono_pos_r in Hle; [lia|apply Z.pow_pos_nonneg; lia].
Qed.

Lemma ffloor_canonical x : canonical (f_prec L) (f_emax L) (ffloor L x).
Proof using Laws.
  destruct ld_facts as (H1 & H2 & _).
  destruct x; try done. by apply binary_normalize_canonical.
Qed.

Lemma add_one_canonical x :
  canonical (f_prec L) (f_emax L) x →
  canonical (f_prec L) (f_emax L) (fadd L x (ld_of_Z 1)).
Proof using Laws.
  destruct ld_facts as (H1 & H2 & _). intros Hx. apply SFadd_canonical; [done..|].
  by apply binary_normalize_canonical.
Qed.
Hint Resolve ffloor_canonical add_one_canonical : core.

Lemma check_amount_Ok amount u :
  check_amount amount = Ok u → is_finite amount = true ∧ flt amount fzero = false.
Proof. unfold check_amount. intros. res_inv. bools. done. Qed.

Lemma decimal_scale_Ok decimals scale :
  decimal_scale decimals = Ok scale → 0 ≤ decimals ≤ 18.
Proof.
  unfold decimal_scale. case_if; [done|]. bools. lia.
Qed.

(** Whatever the rounding mode, a returned number is a [std::uint64_t]. *)
Lemma decimal_to_scaled_u64 amount decimals mode r :
  decimal_to_scaled_uint64 amount decimals mode = Ok r →
  is_finite amount = true ∧ flt amount fzero = false ∧ 0 ≤ decimals ≤ 18 ∧ is_u64 r.
Proof using Laws.
  unfold decimal_to_scaled_uint64.
  intros (u & [Hfin Hneg]%check_amount_Ok & (scale & Hd%decimal_scale_Ok & H)%bind_Ok)%bind_Ok.
  split_and!; try done; try lia.
  all: eapply checked_uint64_range in H; [apply H|].
  all: destruct mode; unfold round_down_with_ulp_correction, round_half_even;
    repeat case_if; auto.
Qed.

Lemma exact_decimal_to_scaled_u64 amount decimals r :
  exact_decimal_to_scaled_uint64 amount decimals = Ok r →
  is_finite amount = true ∧ flt amount fzero = false ∧ 0 ≤ decimals ≤ 18 ∧ is_u64 r.
Proof using Laws.
  unfold exact_decimal_to_scaled_uint64.
  intros (u & [Hfin Hneg]%check_amount_Ok & (scale & Hd%decimal_scale_Ok & H)%bind_Ok)%bind_Ok.
  case_if; [done|].
  split_and!; try done; try lia. all: eapply checked_uint64_range in H; [apply H|auto].
Qed.
End Facts.

(** ** The x86-64 target, exactly *)

Lemma x86_64_scale :
  forall_below 19 (λ d,
    match decimal_scale (L := x86_64_long_double) d with
    | Ok scale => bool_decide (fcast binary64 scale = of_Z binary64 (10 ^ d)) &&
                  flt fzero (of_Z binary64 (10 ^ d))
    | Throw _ => false
    end) = true.
Proof. by vm_compute. Qed.

Lemma x86_64_decimal_scale d :
  0 ≤ d ≤ 18 →
  ∃ scale, decimal_scale (L := x86_64_long_double) d = Ok scale ∧
           fcast binary64 scale = of_Z binary64 (10 ^ d) ∧
           flt fzero (of_Z binary64 (10 ^ d)) = true.
Proof.
  intros Hd. pose proof (proj1 (forall_below_spec _ _) x86_64_scale d ltac:(lia)) as H.
  cbv beta in H. destruct (decimal_scale d) as [scale|]; [|done].
  exists scale. bools. done.
Qed.

Section X86_64.
#[local] Existing Instance x86_64_long_double.

(** The [double] product widens without changing its floor, and the floor is
    computed exactly. *)
Lemma x86_64_floor m e :
  canonical 53 1024 (S754_finite false m e) →
  floorZ (S754_finite false m e) ≤ 2 ^ 64 →
  int_value (ffloor x86_64_long_double (fcast x86_64_long_double (S754_finite false m e)))
    (floorZ (S754_finite false m e)).
Proof.
  intros (Hm & He & _) Hn. unfold emin in He.
  destruct (binary_round_same 64 16384 ltac:(lia) ltac:(lia) m e ltac:(lia))
    as (m' & e' & z & E & Hz & Hz' & Hv); [unfold emin; lia|].
  pose proof (binary_round_canonical 64 16384 ltac:(lia) ltac:(lia) false m e) as Hc.
  cbn [fcast]. cbn [f_prec f_emax x86_64_long_double]. rewrite E in Hc |- *.
  rewrite <- (floorZ_same m e m' e' z Hz Hz' Hv) in Hn |- *.
  destruct Hc as (Hm' & _). by apply (ffloor_int 64 16384).
Qed.

Lemma x86_64_lower_or_next v n :
  int_value v n → 0 ≤ n < u64_max → canonical 64 16384 v →
  checked_uint64 v = Ok n ∧ checked_uint64 (fadd x86_64_long_double v (ld_of_Z 1)) = Ok (n + 1).
Proof.
  intros Hv Hn Hc. unfold u64_max in *. split.
  - apply checked_uint64_int; [done|done|unfold is_u64, u64_max; lia].
  - apply checked_uint64_int; [|apply int_value_add; try done; try lia|unfold is_u64, u64_max; lia].
    + by apply (add_one_canonical (L := x86_64_long_double)).
    + replace (ld_of_Z 1) with (S754_finite false 9223372036854775808 (-63))
        by (by vm_compute).
      split; [done|]. exists (-63). split_and!; [lia|lia|done].
    + cbn. lia.
Qed.
End X86_64.

Lemma product_sign x y :
  is_finite x = true → flt x fzero = false → flt fzero y = true →
  match fmul binary64 x y with S754_finite s _ _ => s = false | _ => True end.
Proof.
  destruct x as [|?| |[] mx ex], y as [|[]| |[] my ey]; try done. intros _ _ _.
  unfold fmul. cbn [SFmul]. case_match eqn:E; try done.
  by apply binary_round_aux_sign in E.
Qed.

(** On x86-64, rounding down or half-even returns the floor of the [double]
    product or its successor, for every product below the last 64-bit integer. *)
Lemma x86_64_decimal_floor amount d mode :
  let p := fmul binary64 amount (of_Z binary64 (10 ^ d)) in
  valid binary64 amount = true → is_finite amount = true → flt amount fzero = false →
  0 ≤ d ≤ 18 → mode ≠ Nearest → is_finite p = true → floorZ p < u64_max →
  ∃ r, decimal_to_scaled_uint64 (L := x86_64_long_double) amount d mode = Ok r ∧
       floorZ p ≤ r ≤ floorZ p + 1.
Proof.
  intros p Hv Hf Hs Hd Hmode Hp Hn.
  destruct (x86_64_decimal_scale d Hd) as (scale & Escale & Ecast & Hpos).
  unfold decimal_to_scaled_uint64, check_amount. rewrite Hf, Hs, Escale. cbn [negb andb require mbind res_bind].
  set (scaled := scaled_product amount scale).
  assert (scaled = fcast x86_64_long_double p) as Es.
  { unfold scaled, scaled_product. by rewrite Ecast. }
  set (lower := ffloor x86_64_long_double scaled).
  assert (int_value lower (floorZ p) ∧ 0 ≤ floorZ p) as [Hl H0].
  { assert (canonical 53 1024 p) as Hc.
    { apply (SFmul_canonical 53 1024); [lia|lia|by apply valid_canonical|].
      by apply (binary_normalize_canonical 53 1024). }
    pose proof (product_sign _ _ Hf Hs Hpos : match p with S754_finite s _ _ => s = false | _ => True end) as Hsign.
    unfold lower. rewrite Es.
    destruct p as [s|s| |s m e]; [done..|subst s].
    split; [apply x86_64_floor; [done|]|apply floorZ_nonneg].
    etrans; [apply Z.lt_le_incl, Hn|done]. }
  assert (canonical 64 16384 lower) as Hcl by apply (ffloor_canonical (L := x86_64_long_double)).
  destruct (x86_64_lower_or_next lower (floorZ p) Hl ltac:(lia) Hcl) as [E0 E1].
  destruct mode; [|done|].
  - unfold round_down_with_ulp_correction. fold lower. repeat case_if; eauto with lia.
  - unfold round_half_even. fold lower. repeat case_if; eauto with lia.
Qed.
