(* ===== verification/OrderAmounts.v ===== *)
(** * Maker and taker amounts of an order (src/order_amounts.cpp)

    An order is signed for two integers of base units.  This file models the
    tick-size table, the validation of a price against a tick, and the exact
    integer arithmetic that turns a price and a size (or a budget) into the
    maker and taker amounts. *)
From Stdlib Require Import Floats.SpecFloat.
From S2P Require Import Prelude Float64 DecimalMath.

#[local] Open Scope Z_scope.

Inductive OrderSide := BUY | SELL.

#[export] Instance order_side_eq_dec : EqDecision OrderSide.
Proof. solve_decision. Defined.

Record OrderAmounts := MkOrderAmounts { maker : Z; taker : Z }.

Record OrderRoundingConfig := MkOrderRoundingConfig {
  price_decimals : Z;
  size_decimals : Z;
  amount_decimals : Z;
  tick_units : Z }.

Record ValidatedOrderPrice := MkValidatedOrderPrice {
  units : Z;
  scale : Z;
  rounding : OrderRoundingConfig }.

#[export] Instance order_amounts_eq_dec : EqDecision OrderAmounts.
Proof. solve_decision. Defined.
#[export] Instance order_rounding_config_eq_dec : EqDecision OrderRoundingConfig.
Proof. solve_decision. Defined.
#[export] Instance validated_order_price_eq_dec : EqDecision ValidatedOrderPrice.
Proof. solve_decision. Defined.

(** ** Integer helpers *)

Definition token_decimals : Z := 6.

Fixpoint power_loop (n : nat) (scale : Z) : Z :=
  match n with
  | O => scale
  | S n' => power_loop n' (u64 (scale * 10))
  end.

Definition power_of_ten (decimals : Z) : res Z :=
  if (decimals <? 0) || (18 <? decimals)
  then Throw (invalid_argument "decimal scale is out of range")
  else Ok (power_loop (Z.to_nat decimals) 1).

Definition checked_multiply (left right : Z) : res Z :=
  if negb (right =? 0) && (u64_max / right <? left)
  then Throw (out_of_range "order amount exceeds uint64 range")
  else Ok (u64 (left * right)).

Definition exact_multiply_divide (value numerator denominator : Z) : res Z :=
  let value_factor := Z.gcd value denominator in
  let value := value / value_factor in
  let denominator := denominator / value_factor in
  let numerator_factor := Z.gcd numerator denominator in
  let numerator := numerator / numerator_factor in
  let denominator := denominator / numerator_factor in
  if negb (denominator =? 1)
  then Throw (logic_error "order amount cannot represent the price exactly")
  else checked_multiply value numerator.

(** ** Prices and ticks *)

Definition rounding_config_for_tick_size (tick_size : string) : res OrderRoundingConfig :=
  if String.eqb tick_size "0.1" then Ok (MkOrderRoundingConfig 1 2 3 1)
  else if String.eqb tick_size "0.01" then Ok (MkOrderRoundingConfig 2 2 4 1)
  else if String.eqb tick_size "0.005" then Ok (MkOrderRoundingConfig 3 2 5 5)
  else if String.eqb tick_size "0.0025" then Ok (MkOrderRoundingConfig 4 2 6 25)
  else if String.eqb tick_size "0.001" then Ok (MkOrderRoundingConfig 3 2 5 1)
  else if String.eqb tick_size "0.0001" then Ok (MkOrderRoundingConfig 4 2 6 1)
  else Throw (invalid_argument ("unsupported tick size: " +:+ tick_size)).

Section OrderAmounts.
Context `{L : LongDouble}.

Definition amount_to_micro_units (amount : double) (decimals : Z) : res Z :=
  require (is_finite amount && negb (fle amount fzero)
           && negb (token_decimals <? decimals))
    (invalid_argument "order amount must be finite and positive");;
  units ← decimal_to_scaled_uint64 amount decimals Down;
  factor ← power_of_ten (token_decimals - decimals);
  micro_units ← checked_multiply units factor;
  require (negb (micro_units =? 0))
    (invalid_argument "order amount rounds to zero");;
  Ok micro_units.

Definition quantized_price (price : double) (rounding : OrderRoundingConfig)
    (mode : DecimalRoundingMode) : res ValidatedOrderPrice :=
  require (is_finite price && negb (fle price fzero))
    (invalid_argument "order price must be finite and positive");;
  scale ← power_of_ten (price_decimals rounding);
  units ← decimal_to_scaled_uint64 price (price_decimals rounding) mode;
  require (negb ((units =? 0) || (scale <=? units)))
    (invalid_argument "order price is outside the market range");;
  Ok (MkValidatedOrderPrice units scale rounding).

Definition amounts_for_shares (side : OrderSide) (size : double)
    (price : ValidatedOrderPrice) : res OrderAmounts :=
  shares ← amount_to_micro_units size (size_decimals (rounding price));
  cost ← exact_multiply_divide shares (units price) (scale price);
  Ok (match side with
      | BUY => MkOrderAmounts cost shares
      | SELL => MkOrderAmounts shares cost
      end).

Definition validate_order_price (price : double) (tick_size : string)
    : res ValidatedOrderPrice :=
  rounding ← rounding_config_for_tick_size tick_size;
  scale ← power_of_ten (price_decimals rounding);
  units ← exact_decimal_to_scaled_uint64 price (price_decimals rounding);
  require (negb ((units <? tick_units rounding)
                 || (u64 (scale - tick_units rounding) <? units)))
    (invalid_argument "order price is outside the market tick range");;
  require (units mod tick_units rounding =? 0)
    (invalid_argument "order price is not an exact tick multiple");;
  Ok (MkValidatedOrderPrice units scale rounding).

(** ** The exported overloads *)

Definition calculate_limit_order_amounts (side : OrderSide) (size : double)
    (price : ValidatedOrderPrice) : res OrderAmounts :=
  amounts_for_shares side size price.

Definition calculate_limit_order_amounts_rounded (side : OrderSide)
    (price size : double) (rounding : OrderRoundingConfig) : res OrderAmounts :=
  quantized ← quantized_price price rounding HalfEven;
  amounts_for_shares side size quantized.

Definition calculate_limit_order_amounts_default (side : OrderSide)
    (price size : double) : res OrderAmounts :=
  rounding ← rounding_config_for_tick_size "0.01";
  calculate_limit_order_amounts_rounded side price size rounding.

Definition calculate_market_order_amounts (side : OrderSide) (amount : double)
    (price : ValidatedOrderPrice) : res OrderAmounts :=
  match side with
  | SELL => amounts_for_shares side amount price
  | BUY =>
      budget ← amount_to_micro_units amount (size_decimals (rounding price));
      let maker_step := units price / Z.gcd (units price) (scale price) in
      let maker := budget - budget mod maker_step in
      require (negb (maker =? 0))
        (invalid_argument "market BUY budget is below one exact price unit");;
      taker ← exact_multiply_divide maker (scale price) (units price);
      Ok (MkOrderAmounts maker taker)
  end.

Definition calculate_market_order_amounts_rounded (side : OrderSide)
    (amount price : double) (rounding : OrderRoundingConfig) : res OrderAmounts :=
  quantized ← quantized_price price rounding Down;
  calculate_market_order_amounts side amount quantized.
End OrderAmounts.

(** ** Lemmas on the integer helpers *)

Lemma power_loop_spec n s :
  1 ≤ s → s * 10 ^ Z.of_nat n ≤ u64_max → power_loop n s = s * 10 ^ Z.of_nat n.
Proof.
  revert s. induction n as [|n IH]; intros s Hs Hb; [cbn; lia|].
  rewrite Nat2Z.inj_succ, Z.pow_succ_r in Hb |- * by lia.
  pose proof (Z.pow_pos_nonneg 10 (Z.of_nat n)).
  cbn [power_loop]. rewrite u64_id by (unfold is_u64; nia).
  rewrite IH; lia.
Qed.

Lemma power_of_ten_spec d :
  power_of_ten d =
    if (0 <=? d) && (d <=? 18) then Ok (10 ^ d)
    else Throw (invalid_argument "decimal scale is out of range").
Proof.
  unfold power_of_ten.
  destruct (Z.ltb_spec d 0), (Z.ltb_spec 18 d), (Z.leb_spec 0 d), (Z.leb_spec d 18);
    cbn [orb andb]; try lia; try done.
  rewrite power_loop_spec, Z2Nat.id; [f_equal; lia|lia|lia|].
  rewrite Z2Nat.id by lia.
  pose proof (Z.pow_le_mono_r 10 d 18). unfold u64_max. lia.
Qed.

Lemma checked_multiply_spec l r :
  0 ≤ l → 0 ≤ r →
  checked_multiply l r =
    if l * r <=? u64_max then Ok (l * r)
    else Throw (out_of_range "order amount exceeds uint64 range").
Proof.
  intros Hl Hr. unfold checked_multiply.
  destruct (decide (r = 0)) as [->|Hr0]; [by rewrite Z.mul_0_r|].
  pose proof (mul_overflow_test l r u64_max) as Ht.
  assert ((r =? 0) = false) as -> by (apply Z.eqb_neq; lia). cbn [negb andb].
  destruct (Z.leb_spec (l * r) u64_max), (Z.ltb_spec (u64_max / r) l);
    [lia| |done|lia].
  rewrite u64_id; [done|unfold is_u64; nia].
Qed.

(** The two reductions by [gcd] leave the denominator 1 exactly when it divides
    the product. *)
Lemma gcd_reduction v n d :
  0 ≤ v → 0 ≤ n → 0 < d →
  let g1 := Z.gcd v d in
  let g2 := Z.gcd n (d / g1) in
  ∃ v' n' d', v = g1 * v' ∧ n = g2 * n' ∧ d / g1 = g2 * d' ∧ d = g1 * (g2 * d') ∧ v * n = g1 * g2 * (v' * n') ∧
    v / g1 = v' ∧ n / g2 = n' ∧ d / g1 / g2 = d' ∧
    0 < g1 ∧ 0 < g2 ∧ 0 ≤ v' ∧ 0 ≤ n' ∧ 0 < d' ∧ ((d | v * n) ↔ d' = 1).
Proof.
  intros Hv Hn Hd g1 g2.
  assert (0 < g1) as Hg1.
  { pose proof (Z.gcd_nonneg v d). destruct (decide (g1 = 0)) as [E|]; [|lia].
    apply Z.gcd_eq_0_r in E. lia. }
  destruct (Z.gcd_divide_l v d) as [v' Ev], (Z.gcd_divide_r v d) as [dd Ed].
  fold g1 in Ev, Ed.
  assert (d / g1 = dd) as Edd by (rewrite Ed; apply Z.div_mul; lia).
  assert (0 < dd) by nia.
  assert (0 < g2) as Hg2.
  { unfold g2. rewrite Edd. pose proof (Z.gcd_nonneg n dd).
    destruct (decide (Z.gcd n dd = 0)) as [E|]; [|lia]. apply Z.gcd_eq_0_r in E. lia. }
  destruct (Z.gcd_divide_l n dd) as [n' En], (Z.gcd_divide_r n dd) as [d' Ed'].
  assert (g2 = Z.gcd n dd) as Eg2 by (unfold g2; by rewrite Edd).
  rewrite <- Eg2 in En, Ed'.
  assert (v / g1 = v') by (rewrite Ev; apply Z.div_mul; lia).
  assert (n / g2 = n') by (rewrite En; apply Z.div_mul; lia).
  assert (dd / g2 = d') by (rewrite Ed'; apply Z.div_mul; lia).
  exists v', n', d'. rewrite Edd.
  assert (Z.gcd v' dd = 1) as Hc1.
  { subst v' dd. apply Z.gcd_div_gcd; [lia|done]. }
  assert (Z.gcd n' d' = 1) as Hc2.
  { subst n' d'. apply Z.gcd_div_gcd; [lia|done]. }
  clearbody g1 g2.
  assert (v * n = g1 * g2 * (v' * n')) as Hvn by (rewrite Ev, En; ring).
  assert (d = g1 * g2 * d') as Hdd by (rewrite Ed, Ed'; ring).
  repeat split; try nia.
  - intros [k Hk].
    assert (v' * n' = k * d') as Hk'.
    { apply (Z.mul_reg_l _ _ (g1 * g2)); [nia|]. rewrite <- Hvn, Hk, Hdd. ring. }
    assert ((d' | n' * v')) as Hdiv by (exists k; lia).
    apply Z.gauss in Hdiv; [|by rewrite Z.gcd_comm].
    assert ((d' | Z.gcd v' dd)) as Hone by (apply Z.gcd_greatest; [done|exists g2; lia]).
    rewrite Hc1 in Hone. apply Z.divide_1_r_nonneg in Hone; lia.
  - intros ->. exists (v' * n'). rewrite Hvn, Hdd. ring.
Qed.

(** [exact_multiply_divide] is multiplication followed by an exact division: it
    never loses precision, and refuses exactly the inexact or oversized results. *)
Lemma exact_multiply_divide_spec v n d :
  0 ≤ v → 0 ≤ n → 0 < d →
  exact_multiply_divide v n d =
    if (v * n) mod d =? 0 then
      if v * n / d <=? u64_max then Ok (v * n / d)
      else Throw (out_of_range "order amount exceeds uint64 range")
    else Throw (logic_error "order amount cannot represent the price exactly").
Proof.
  intros Hv Hn Hd. unfold exact_multiply_divide.
  destruct (gcd_reduction v n d) as
    (v' & n' & d' & _ & _ & _ & Ed & Hvn & -> & -> & -> & ? & ? & ? & ? & ? & Hdiv);
    [done..|].
  destruct (Z.eqb_spec d' 1) as [Hd1|Hd1]; cbn [negb].
  - assert ((v * n) mod d = 0) as -> by (apply Z.mod_divide; [lia|by apply Hdiv]).
    assert (v * n / d = v' * n') as ->.
    { assert (v * n = v' * n' * d) as ->; [|apply Z.div_mul; lia].
      subst d'. rewrite Hvn. revert Ed. generalize (Z.gcd n (d / Z.gcd v d)).
      generalize (Z.gcd v d). intros g1 g2 ->. ring. }
    cbn. by apply checked_multiply_spec.
  - destruct (Z.eqb_spec ((v * n) mod d) 0) as [E|]; [|done].
    apply Z.mod_divide, Hdiv in E; lia.
Qed.

Lemma exact_multiply_divide_Ok v n d r :
  0 ≤ v → 0 ≤ n → 0 < d →
  exact_multiply_divide v n d = Ok r → r * d = v * n ∧ is_u64 r.
Proof.
  intros Hv Hn Hd. rewrite exact_multiply_divide_spec by done.
  repeat case_if; intros [= <-]; bools.
  pose proof (Z.div_mod (v * n) d). pose proof (Z.div_pos (v * n) d).
  unfold is_u64. split; nia.
Qed.

(** ** Well-formed prices *)

(** What every price returned by this component satisfies. *)
Record price_wf (p : ValidatedOrderPrice) : Prop := {
  price_units_range : 0 < units p < scale p;
  price_scale : scale p = 10 ^ price_decimals (rounding p);
  price_decimals_range : 0 ≤ price_decimals (rounding p) ≤ 18 }.

Lemma rounding_config_Ok tick_size r :
  rounding_config_for_tick_size tick_size = Ok r →
  1 ≤ price_decimals r ≤ 4 ∧ size_decimals r = 2 ∧
  amount_decimals r = price_decimals r + size_decimals r ∧
  0 < tick_units r ∧ 2 * tick_units r < 10 ^ price_decimals r.
Proof.
  unfold rounding_config_for_tick_size. repeat case_if; intros; res_inv; cbn; lia.
Qed.

Section Facts.
Context {L : LongDouble} {Laws : LongDoubleLaws L}.

Lemma amount_to_micro_units_Ok amount decimals m :
  amount_to_micro_units amount decimals = Ok m →
  0 ≤ decimals ≤ 6 ∧ 0 < m ≤ u64_max ∧
  ∃ n, decimal_to_scaled_uint64 amount decimals Down = Ok n ∧ 0 ≤ n ∧
       m = n * 10 ^ (6 - decimals).
Proof using Laws.
  unfold amount_to_micro_units, token_decimals.
  intros (? & H1%require_Ok & H)%bind_Ok. apply bind_Ok in H as (n & Hn & H).
  apply bind_Ok in H as (f & Hf & H). apply bind_Ok in H as (k & Hk & H).
  apply bind_Ok in H as (? & Hnz%require_Ok & [= <-]).
  bools.
  destruct (decimal_to_scaled_u64 _ _ _ _ Hn) as (_ & _ & Hd & Hr).
  unfold is_u64 in Hr. rewrite power_of_ten_spec in Hf. case_if; [|done].
  injection Hf as <-. pose proof (Z.pow_pos_nonneg 10 (6 - decimals)).
  rewrite checked_multiply_spec in Hk by lia. case_if; [|done]. injection Hk as <-. bools.
  split_and!; [lia|lia|nia|lia|]. exists n. split_and!; [done|lia|done].
Qed.

Lemma validate_order_price_Ok price tick_size p :
  validate_order_price price tick_size = Ok p →
  price_wf p ∧ rounding_config_for_tick_size tick_size = Ok (rounding p) ∧
  tick_units (rounding p) ≤ units p ≤ scale p - tick_units (rounding p) ∧
  (tick_units (rounding p) | units p).
Proof using Laws.
  unfold validate_order_price.
  intros (r & Hr & H)%bind_Ok. apply bind_Ok in H as (s & Hs & H).
  apply bind_Ok in H as (u & Hu & H). apply bind_Ok in H as (? & Hrange%require_Ok & H).
  apply bind_Ok in H as (? & Hmod%require_Ok & [= <-]). cbn.
  destruct (rounding_config_Ok _ _ Hr) as (Hpd & _ & _ & Ht & Ht2).
  rewrite power_of_ten_spec in Hs. case_if; [|done]. injection Hs as <-. bools.
  pose proof (Z.pow_le_mono_r 10 (price_decimals r) 18).
  rewrite u64_id in * by (unfold is_u64, u64_max; lia).
  split_and!; [|done|lia|lia|].
  - split; cbn; lia.
  - by apply Z.mod_divide; [lia|].
Qed.

Lemma quantized_price_Ok price r mode p :
  quantized_price price r mode = Ok p → price_wf p ∧ rounding p = r.
Proof using Laws.
  unfold quantized_price.
  intros (? & _ & H)%bind_Ok. apply bind_Ok in H as (s & Hs & H).
  apply bind_Ok in H as (u & Hu & H). apply bind_Ok in H as (? & Hrange%require_Ok & [= <-]).
  destruct (decimal_to_scaled_u64 _ _ _ _ Hu) as (_ & _ & Hd & Hn).
  rewrite power_of_ten_spec in Hs. case_if; [|done]. injection Hs as <-.
  unfold is_u64 in Hn. bools. split; [|done]. split; cbn; lia.
Qed.

(** A pair of amounts trades at exactly the price [p]. *)
Definition exact_at (p : ValidatedOrderPrice) (collateral shares : Z) : Prop :=
  collateral * scale p = shares * units p.

Lemma amounts_for_shares_spec side size p :
  price_wf p →
  amounts_for_shares side size p =
    (shares ← amount_to_micro_units size (size_decimals (rounding p));
     if (shares * units p) mod scale p =? 0 then
       let cost := shares * units p / scale p in
       Ok (match side with
           | BUY => MkOrderAmounts cost shares
           | SELL => MkOrderAmounts shares cost
           end)
     else Throw (logic_error "order amount cannot represent the price exactly")).
Proof using Laws.
  intros [Hu _ _]. unfold amounts_for_shares.
  destruct (amount_to_micro_units size _) as [m|] eqn:Em; [|done].
  apply amount_to_micro_units_Ok in Em as (_ & Hm & _). cbn.
  rewrite exact_multiply_divide_spec by lia. case_if; [|done].
  assert (m * units p / scale p ≤ u64_max) as Hle.
  { etrans; [|apply Hm]. apply Z.div_le_upper_bound; [lia|nia]. }
  apply Z.leb_le in Hle. by rewrite Hle.
Qed.

(** Sizes have two decimals and tick prices at most four, so the cost of a
    tick-priced limit order is always a whole number of base units. *)
Lemma tick_cost_exact price tick_size p size m :
  validate_order_price price tick_size = Ok p →
  amount_to_micro_units size (size_decimals (rounding p)) = Ok m →
  (m * units p) mod scale p = 0.
Proof using Laws.
  intros Hp Hm.
  apply validate_order_price_Ok in Hp as ([Hu Hs _] & Hr & _).
  apply rounding_config_Ok in Hr as (Hpd & Hsd & _).
  apply amount_to_micro_units_Ok in Hm as (_ & _ & n & _ & _ & ->).
  rewrite Hsd, Hs. apply Z.mod_divide; [lia|].
  exists (n * units p * 10 ^ (4 - price_decimals (rounding p))).
  rewrite <- (Z.mul_assoc (n * units p)), <- Z.pow_add_r by lia.
  replace (4 - _ + _) with 4 by lia. cbn. lia.
Qed.
End Facts.

(** ** Properties *)

Section Properties.
Context {L : LongDouble} {Laws : LongDoubleLaws L}.

(** A price in lowest terms. *)
Lemma price_lowest_terms p :
  price_wf p → ∃ u s g, 0 < g ∧ 0 < u ∧ 0 < s ∧ Z.gcd u s = 1 ∧
    units p = u * g ∧ scale p = s * g ∧ units p / Z.gcd (units p) (scale p) = u.
Proof.
  intros [Hu _ _].
  assert (Z.gcd (units p) (scale p) ≠ 0) as Hg by (intros E%Z.gcd_eq_0_l; lia).
  pose proof (Z.gcd_nonneg (units p) (scale p)).
  destruct (Z.gcd_divide_l (units p) (scale p)) as [u Eu].
  destruct (Z.gcd_divide_r (units p) (scale p)) as [s Es].
  set (g := Z.gcd (units p) (scale p)) in *.
  assert (units p / g = u) as Hdu by (symmetry; apply Z.div_unique_exact; lia).
  assert (scale p / g = s) as Hds by (symmetry; apply Z.div_unique_exact; lia).
  exists u, s, g. split_and!; try done; try nia.
  rewrite <- Hdu, <- Hds. by apply Z.gcd_div_gcd.
Qed.

(** The step of a market BUY divides every collateral that trades exactly. *)
Lemma maker_step_divides p m t :
  price_wf p → exact_at p m t → (units p / Z.gcd (units p) (scale p) | m).
Proof.
  intros Hp He. unfold exact_at in He.
  destruct (price_lowest_terms p Hp) as (u & s & g & Hg & Hu & Hs & Hc & Eu & Es & ->).
  apply Z.gauss with s; [|done]. exists t.
  apply (Z.mul_reg_l _ _ g); [lia|]. rewrite Eu, Es in He. lia.
Qed.

Lemma market_buy_taker p budget :
  price_wf p → 0 ≤ budget →
  let step := units p / Z.gcd (units p) (scale p) in
  let maker := budget - budget mod step in
  0 < step ∧ 0 ≤ maker ≤ budget ∧ (maker * scale p) mod units p = 0 ∧
  (∀ m, (step | m) → m ≤ budget → m ≤ maker).
Proof.
  intros Hp Hb.
  destruct (price_lowest_terms p Hp) as (u & s & g & Hg & Hu & Hs & Hc & Eu & Es & ->).
  pose proof (Z.div_mod budget u ltac:(lia)) as Hdm.
  pose proof (Z.mod_pos_bound budget u ltac:(lia)).
  cbv zeta. assert (budget - budget mod u = u * (budget / u)) as -> by lia.
  pose proof (Z.div_pos budget u).
  split_and!; [done|nia|lia| |].
  - apply Z.mod_divide; [nia|]. exists (budget / u * s). rewrite Eu, Es. ring.
  - intros m [k ->] Hm.
    assert (k ≤ budget / u) by (apply Z.div_le_lower_bound; lia). nia.
Qed.

Lemma market_buy_amounts amount p a :
  price_wf p →
  calculate_market_order_amounts BUY amount p = Ok a →
  ∃ budget, amount_to_micro_units amount (size_decimals (rounding p)) = Ok budget ∧
    exact_at p (maker a) (taker a) ∧
    0 < maker a ≤ budget ∧ 0 < taker a ≤ u64_max ∧
    (∀ m t, m ≤ budget → exact_at p m t → m ≤ maker a).
Proof using Laws.
  intros Hp. cbn [calculate_market_order_amounts].
  intros (budget & Hb & H)%bind_Ok. apply bind_Ok in H as (? & Hnz%require_Ok & H).
  apply bind_Ok in H as (t & Ht & [= <-]). exists budget. split; [done|]. cbn.
  apply amount_to_micro_units_Ok in Hb as (_ & Hb & _).
  destruct (market_buy_taker p budget Hp ltac:(lia)) as (Hs & Hm & _ & Hmax).
  pose proof Hp as [Hu _ _]. bools.
  apply exact_multiply_divide_Ok in Ht as [Ht Hr]; [|lia..].
  unfold exact_at, is_u64 in *.
  split_and!; [nia|lia|lia|nia|lia|].
  intros m' t' Hm' He. apply Hmax; [|done]. by eapply maker_step_divides.
Qed.

(** C4: a market BUY never signs for an inexact price and never exceeds its
    budget: the maker amount is the largest collateral within the budget that
    buys a whole number of share units at exactly the validated price, and the
    taker amount is that number. *)
Theorem market_buy_exact amount p a :
  price_wf p →
  calculate_market_order_amounts BUY amount p = Ok a →
  ∃ budget, amount_to_micro_units amount (size_decimals (rounding p)) = Ok budget ∧
    exact_at p (maker a) (taker a) ∧
    0 < maker a ≤ budget ∧ 0 < taker a ≤ u64_max ∧
    (∀ m t, m ≤ budget → exact_at p m t → m ≤ maker a).
Proof using Laws. apply market_buy_amounts. Qed.

(** A market BUY at a well-formed price fails only for its amount: the
    conversion of the amount, a budget below one exact price unit, or a share
    count beyond 64 bits.  The inexact-price branch is unreachable. *)
Lemma market_buy_outcomes amount p :
  price_wf p →
  calculate_market_order_amounts BUY amount p =
    (budget ← amount_to_micro_units amount (size_decimals (rounding p));
     let maker := budget - budget mod (units p / Z.gcd (units p) (scale p)) in
     if maker =? 0
     then Throw (invalid_argument "market BUY budget is below one exact price unit")
     else if maker * scale p / units p <=? u64_max
     then Ok (MkOrderAmounts maker (maker * scale p / units p))
     else Throw (out_of_range "order amount exceeds uint64 range")).
Proof using Laws.
  intros Hp. cbn [calculate_market_order_amounts].
  destruct (amount_to_micro_units amount _) as [budget|] eqn:Hb; [|done].
  apply amount_to_micro_units_Ok in Hb as (_ & Hb & _). cbn.
  destruct (market_buy_taker p budget Hp ltac:(lia)) as (_ & Hm & Hmod & _).
  pose proof Hp as [Hu _ _]. cbv zeta in Hm, Hmod.
  rewrite exact_multiply_divide_spec, Hmod by lia. cbn.
  destruct (_ - _ =? 0); [done|]. cbn. by destruct (_ <=? u64_max).
Qed.

(** A limit order at a validated tick price trades at exactly that price,
    collateral and shares on the sides the order says, and fails only when its
    size does not convert. *)
Lemma limit_order_exact price tick_size p side size :
  validate_order_price price tick_size = Ok p →
  match calculate_limit_order_amounts side size p with
  | Ok a =>
      amount_to_micro_units size 2 = Ok (match side with BUY => taker a | SELL => maker a end) ∧
      exact_at p (match side with BUY => maker a | SELL => taker a end)
        (match side with BUY => taker a | SELL => maker a end)
  | Throw e => amount_to_micro_units size 2 = Throw e
  end.
Proof using Laws.
  intros Hp. unfold calculate_limit_order_amounts.
  pose proof (validate_order_price_Ok _ _ _ Hp) as (Hwf & Hr & _).
  apply rounding_config_Ok in Hr as (_ & Hsd & _).
  rewrite amounts_for_shares_spec by done.
  destruct (amount_to_micro_units size _) as [m|e] eqn:Em; rewrite Hsd in Em; [|done].
  cbn. rewrite (tick_cost_exact price tick_size p size m) by (congruence || done).
  cbn. destruct Hwf as [Hu _ _].
  pose proof (Z.div_mod (m * units p) (scale p) ltac:(lia)) as Hdm.
  rewrite (tick_cost_exact price tick_size p size m) in Hdm by (congruence || done).
  unfold exact_at. destruct side; cbn; (split; [done|lia]).
Qed.

(** A price accepted for a market is a multiple of the market's tick,
    strictly inside the market range by at least one tick. *)
Lemma validated_price_on_tick price tick_size p :
  validate_order_price price tick_size = Ok p →
  rounding_config_for_tick_size tick_size = Ok (rounding p) ∧
  scale p = 10 ^ price_decimals (rounding p) ∧
  tick_units (rounding p) ≤ units p ≤ scale p - tick_units (rounding p) ∧
  units p mod tick_units (rounding p) = 0.
Proof using Laws.
  intros H. apply validate_order_price_Ok in H as ([Hu Hs _] & Hr & Ht & Hd).
  apply rounding_config_Ok in Hr as Hrc.
  split_and!; try done; try lia. apply Z.mod_divide; [lia|done].
Qed.
End Properties.

(** ** The tick grid, exhaustively *)

(** The [double] closest to [k] ticks. *)
Definition tick_price (r : OrderRoundingConfig) (k : Z) : double :=
  of_ratio binary64 (Z.to_pos (k * tick_units r)) (Z.to_pos (10 ^ price_decimals r)).

Definition tick_accepted (L : LongDouble) (tick_size : string) (r : OrderRoundingConfig)
    (k : Z) : bool :=
  let scale := 10 ^ price_decimals r in
  negb (k * tick_units r <? scale) ||
  (k =? 0) ||
  bool_decide (validate_order_price (tick_price r k) tick_size =
               Ok (MkValidatedOrderPrice (k * tick_units r) scale r)).

Definition grid_accepted (L : LongDouble) (tick_size : string) (n : nat) : bool :=
  match rounding_config_for_tick_size tick_size with
  | Ok r => bool_decide (10 ^ price_decimals r = Z.of_nat n * tick_units r) &&
            forall_below n (tick_accepted L tick_size r)
  | Throw _ => false
  end.

Definition checked_ticks : list (string * nat) :=
  [("0.1", 10%nat); ("0.01", 100%nat); ("0.005", 200%nat); ("0.0025", 400%nat);
   ("0.001", 1000%nat)].

Lemma grids_accepted :
  forallb (λ '(tick_size, n), grid_accepted x86_64_long_double tick_size n)
    checked_ticks = true.
Proof. by vm_compute. Qed.

(** Every price on the grid of a tick from 0.1 to 0.001 is accepted: the
    [double] nearest to [k] ticks validates to exactly [k] ticks, for every [k]
    inside the market range, with the x86-64 [long double]. *)
Lemma tick_grid_accepted tick_size n r k :
  (tick_size, n) ∈ checked_ticks →
  rounding_config_for_tick_size tick_size = Ok r →
  0 < k → k * tick_units r < 10 ^ price_decimals r →
  validate_order_price (L := x86_64_long_double) (tick_price r k) tick_size =
    Ok (MkValidatedOrderPrice (k * tick_units r) (10 ^ price_decimals r) r).
Proof.
  intros Hin Hr Hk Hlt.
  pose proof (proj1 (forallb_forall _ _) grids_accepted (tick_size, n)
                (proj1 (list_elem_of_In _ _) Hin)) as Hg.
  cbv beta iota in Hg. unfold grid_accepted in Hg. rewrite Hr in Hg.
  apply andb_true_iff in Hg as [Hn Hg]. apply bool_decide_eq_true in Hn.
  destruct (rounding_config_Ok _ _ Hr) as (_ & _ & _ & Ht & _).
  pose proof (proj1 (forall_below_spec _ _) Hg k ltac:(nia)) as Ha.
  unfold tick_accepted in Ha. cbv zeta in Ha.
  apply orb_true_iff in Ha as [Ha|Ha]; [bools; destruct Ha; bools; lia|].
  by apply bool_decide_eq_true in Ha.
Qed.

(** ** Witnesses *)

Definition price_57 : ValidatedOrderPrice :=
  MkValidatedOrderPrice 57 100 (MkOrderRoundingConfig 2 2 4 1).

Lemma market_buy_exact_witness :
  ∃ budget, amount_to_micro_units (L := x86_64_long_double) (of_Z binary64 10) 2 = Ok budget ∧
    exact_at price_57 9999966 17543800 ∧ 0 < 9999966 ≤ budget ∧ 0 < 17543800 ≤ u64_max ∧
    (∀ m t, m ≤ budget → exact_at price_57 m t → m ≤ 9999966).
Proof.
  exact (market_buy_exact (L := x86_64_long_double) (of_Z binary64 10) price_57
           (MkOrderAmounts 9999966 17543800)
           ltac:(split; cbn; lia) ltac:(by vm_compute)).
Defined.

Lemma market_buy_outcomes_witness :
  calculate_market_order_amounts (L := x86_64_long_double) BUY (of_Z binary64 10) price_57 =
    Ok (MkOrderAmounts 9999966 17543800).
Proof.
  rewrite (market_buy_outcomes (L := x86_64_long_double) (of_Z binary64 10) price_57)
    by (split; cbn; lia).
  by vm_compute.
Defined.

Lemma limit_order_exact_witness :
  match calculate_limit_order_amounts (L := x86_64_long_double) SELL (of_Z binary64 3) price_57 with
  | Ok a => amount_to_micro_units (L := x86_64_long_double) (of_Z binary64 3) 2 = Ok (maker a) ∧
            exact_at price_57 (taker a) (maker a)
  | Throw e => amount_to_micro_units (L := x86_64_long_double) (of_Z binary64 3) 2 = Throw e
  end.
Proof.
  exact (limit_order_exact (L := x86_64_long_double) (of_ratio binary64 57 100) "0.01"
           price_57 SELL (of_Z binary64 3) ltac:(by vm_compute)).
Defined.

Lemma validated_price_on_tick_witness :
  rounding_config_for_tick_size "0.01" = Ok (rounding price_57) ∧ 100 = 10 ^ 2 ∧
  1 ≤ 57 ≤ 100 - 1 ∧ 57 mod 1 = 0.
Proof.
  exact (validated_price_on_tick (L := x86_64_long_double) (of_ratio binary64 57 100) "0.01"
           price_57 ltac:(by vm_compute)).
Defined.

