(* ===== verification/ArbSizing.v ===== *)
(** * Sizing of a two-legged arbitrage (src/arb_sizing.cpp,
    include/polymarket/orderbook.hpp)

    How many YES and NO shares a budget per leg buys at the limit prices of both
    legs, fees included.  [std::pow] is a parameter: the C++ standard does not
    say how it rounds. *)
From Stdlib Require Import Floats.SpecFloat.
From S2P Require Import Prelude Float64.

#[local] Open Scope Z_scope.

#[local] Abbreviation F := binary64.

Record ArbSizingInput := MkSizingInput {
  yes_ask : double; no_ask : double; yes_available : double; no_available : double; max_usdc_per_leg : double;
  slippage : double; tick_size : double; minimum_order_size : double; fee_rate : double; fee_exponent : Z }.

Record ArbExecutionPlan := MkPlan {
  executable : bool; reason : string; yes_limit_price : double; no_limit_price : double; yes_shares : double;
  no_shares : double; yes_fee : double; no_fee : double; total_cost : double; edge : double }.

(** ** Literals and helpers *)

Definition share_step : double := of_ratio F 1 100.
Definition minimum_edge_usdc : double := of_ratio F 1 100.
Definition rounding_slack : double := of_ratio F 1 1000000000000.
Definition one : double := of_Z F 1.
Definition half : double := of_ratio F 1 2.
Definition hundred : double := of_Z F 100.
Definition fee_units : double := of_Z F 100000.

Definition round_up_to_tick (value tick : double) : double :=
  fmul F (fceil F (fsub F (fdiv F value tick) rounding_slack)) tick.

(** [std::clamp] *)
Definition clamp (v lo hi : double) : double := if flt v lo then lo else if flt hi v then hi else v.

Definition worst_fee_price (ask limit : double) (exponent : Z) : double :=
  if exponent =? 0 then ask else clamp half ask limit.

Definition conservative_fee (shares per_share : double) : double :=
  fdiv F (fceil F (fsub F (fmul F (fmul F shares per_share) fee_units) rounding_slack)) fee_units.

(** What one leg costs with its fee. *)
Definition leg_cost (shares limit per_share : double) : double :=
  fadd F (fmul F shares limit) (conservative_fee shares per_share).

Definition no_plan (why : string) : ArbExecutionPlan :=
  MkPlan false why fzero fzero fzero fzero fzero fzero fzero fzero.

Section Sizing.
Context (pow : double → Z → double).

Definition fee_per_share (ask limit rate : double) (exponent : Z) : double :=
  let price := worst_fee_price ask limit exponent in
  fmul F rate (pow (fmul F price (fsub F one price)) exponent).

Definition finite_input (i : ArbSizingInput) : bool :=
  is_finite (yes_ask i) && is_finite (no_ask i) && is_finite (yes_available i) && is_finite (no_available i) &&
  is_finite (max_usdc_per_leg i) && is_finite (slippage i) && is_finite (tick_size i) &&
  is_finite (minimum_order_size i) && is_finite (fee_rate i).

Definition invalid_input (i : ArbSizingInput) : bool :=
  negb (finite_input i) || fle (yes_ask i) fzero || fle one (yes_ask i) || fle (no_ask i) fzero || fle one (no_ask i) ||
  flt (yes_available i) fzero || flt (no_available i) fzero || flt (minimum_order_size i) fzero ||
  fle (max_usdc_per_leg i) fzero || fle (tick_size i) fzero || flt (slippage i) fzero || flt (fee_rate i) fzero ||
  (fee_exponent i <? 0).

(** The loop that takes shares off until both legs fit the budget: their number,
    or [None] for an overflow. *)
Definition reduce_shares (shares : double) : double := fmax fzero (fsub F shares share_step).

Definition within_budget (budget yes_limit no_limit yes_fee no_fee shares : double) : bool :=
  fle (leg_cost shares yes_limit yes_fee) (fadd F budget rounding_slack) &&
  fle (leg_cost shares no_limit no_fee) (fadd F budget rounding_slack).

Fixpoint size_loop (fuel : nat) (budget yes_limit no_limit yes_fee no_fee shares : double) : option (option double) :=
  match fuel with
  | O => None
  | S fuel =>
      if negb (flt fzero shares) then Some (Some shares)
      else if negb (is_finite (leg_cost shares yes_limit yes_fee)) || negb (is_finite (leg_cost shares no_limit no_fee))
      then Some None
      else if within_budget budget yes_limit no_limit yes_fee no_fee shares then Some (Some shares)
      else if negb (flt (reduce_shares shares) shares) then Some None
      else size_loop fuel budget yes_limit no_limit yes_fee no_fee (reduce_shares shares)
  end.

(** The first number of shares tried. *)
Definition raw_share_steps (i : ArbSizingInput) (max_unit_cost : double) : double :=
  fmul F (fdiv F (max_usdc_per_leg i) max_unit_cost) hundred.
Definition first_shares (steps : double) : double := fdiv F (ffloor F (fadd F steps rounding_slack)) hundred.

(** After the loop. *)
Definition finish_plan (i : ArbSizingInput) (yes_limit no_limit yes_per_share no_per_share shares : double) :
    ArbExecutionPlan :=
  let sized why := MkPlan false why yes_limit no_limit shares shares fzero fzero fzero fzero in
  if fle shares fzero || flt shares (minimum_order_size i) then sized "below minimum order size"
  else if flt (yes_available i) shares || flt (no_available i) shares then sized "insufficient top-level depth"
  else
    let yes_fee := conservative_fee shares yes_per_share in
    let no_fee := conservative_fee shares no_per_share in
    let total := fadd F (fadd F (fmul F shares (fadd F yes_limit no_limit)) yes_fee) no_fee in
    let edge := fsub F shares total in
    if negb (is_finite yes_fee) || negb (is_finite no_fee) || negb (is_finite total) || negb (is_finite edge)
    then no_plan "sizing overflow"
    else
      let executable := flt minimum_edge_usdc edge in
      MkPlan executable (if executable then "" else "executable edge does not clear safety buffer") yes_limit no_limit
        shares shares yes_fee no_fee total edge.

Definition size_complementary_arb (fuel : nat) (i : ArbSizingInput) : option ArbExecutionPlan :=
  if invalid_input i then Some (no_plan "invalid sizing input")
  else
    let yes_limit := round_up_to_tick (fadd F (yes_ask i) (slippage i)) (tick_size i) in
    let no_limit := round_up_to_tick (fadd F (no_ask i) (slippage i)) (tick_size i) in
    let limits why := MkPlan false why yes_limit no_limit fzero fzero fzero fzero fzero fzero in
    if negb (is_finite yes_limit) || negb (is_finite no_limit) || fle one yes_limit || fle one no_limit
    then Some (limits "limit price outside market range")
    else
      let yes_per_share := fee_per_share (yes_ask i) yes_limit (fee_rate i) (fee_exponent i) in
      let no_per_share := fee_per_share (no_ask i) no_limit (fee_rate i) (fee_exponent i) in
      let max_unit_cost := fmax (fadd F yes_limit yes_per_share) (fadd F no_limit no_per_share) in
      let steps := raw_share_steps i max_unit_cost in
      if negb (is_finite yes_per_share) || negb (is_finite no_per_share) || negb (is_finite max_unit_cost) ||
         fle max_unit_cost fzero || negb (is_finite steps)
      then Some (limits "sizing overflow")
      else
        match size_loop fuel (max_usdc_per_leg i) yes_limit no_limit yes_per_share no_per_share (first_shares steps) with
        | None => None
        | Some None => Some (limits "sizing overflow")
        | Some (Some shares) => Some (finish_plan i yes_limit no_limit yes_per_share no_per_share shares)
        end.
End Sizing.

(** ** Examples *)
Definition linear_pow (x : double) (n : Z) : double := if n =? 0 then one else x.
Definition sample_input : ArbSizingInput :=
  MkSizingInput (of_ratio F 45 100) (of_ratio F 48 100) hundred hundred (of_Z F 10) fzero (of_ratio F 1 100) (of_Z F 5)
    (of_ratio F 25 1000) 1.

(** ** The loop ends

    Each round makes the number of shares strictly smaller, and there are only
    finitely many doubles below it. *)
Definition canonical64 : double → Prop := canonical (f_prec F) (f_emax F).

(** The value of a positive double in units of the smallest one. *)
Definition rank (x : double) : nat :=
  match x with
  | S754_finite false m e => Z.to_nat (Zpos m * 2 ^ (e - emin (f_prec F) (f_emax F)))
  | _ => 0
  end.

Lemma flt_rank x y :
  canonical64 x → canonical64 y → flt fzero x = true → flt x y = true → is_finite y = true → (rank x < rank y)%nat.
Proof.
  intros Hx Hy Hpos Hlt Hfin. destruct y as [sy|sy| |sy my ey]; [|done|done|].
  { destruct x as [|[]| |[]]; done. }
  destruct sy; [destruct x as [|[]| |[]]; done|]. destruct x as [|[]| |[] mx ex]; try done.
  unfold flt, SFltb in Hlt. rewrite (SFcompare_pos (f_prec F) (f_emax F) eq_refl ltac:(by cbn)) in Hlt by done. cbv zeta in Hlt.
  destruct Hx as (_ & Ex & _), Hy as (_ & Ey & _).
  set (z := Z.min ex ey) in *. destruct (Zpos mx * 2 ^ (ex - z) ?= Zpos my * 2 ^ (ey - z)) eqn:Ec; try done.
  unfold rank. set (y0 := emin _ _) in *.
  rewrite (scaled_shift (Zpos mx) ex z y0), (scaled_shift (Zpos my) ey z y0) by (subst z; lia).
  assert (0 < 2 ^ (z - y0)) by (apply Z.pow_pos_nonneg; subst z; lia).
  assert (0 ≤ Zpos mx * 2 ^ (ex - z)) by (apply Z.mul_nonneg_nonneg; [lia|apply Z.pow_nonneg; lia]).
  rewrite Z.compare_lt_iff in Ec. apply Z2Nat.inj_lt; [apply Z.mul_nonneg_nonneg; lia| |by apply Z.mul_lt_mono_pos_r].
  apply Z.mul_nonneg_nonneg; lia.
Qed.

Lemma reduced_canonical x : canonical64 (reduce_shares x).
Proof.
  unfold reduce_shares, fmax. case_if; [|done]. unfold fsub, share_step.
  set (step := of_ratio F 1 100) in *. vm_compute in step. subst step.
  destruct x as [[]|[]| |s m e]; try done; [by vm_compute..|].
  apply (binary_normalize_canonical (f_prec F) (f_emax F)); [done|by cbn].
Qed.

Lemma fadd_finite x y : is_finite (fadd F x y) = true → is_finite x = true.
Proof. destruct x as [|s| |], y as [|s'| |]; try done. by destruct s, s'. Qed.

Lemma fmul_finite x y : is_finite (fmul F x y) = true → is_finite x = true.
Proof. by destruct x, y. Qed.

Lemma leg_cost_finite shares limit fee : is_finite (leg_cost shares limit fee) = true → is_finite shares = true.
Proof. unfold leg_cost. intros H%fadd_finite. by eapply fmul_finite. Qed.

(** What one round does when it goes on. *)
Lemma size_loop_round n budget yes_limit no_limit yes_fee no_fee shares :
  (∃ r, ∀ n, size_loop (S n) budget yes_limit no_limit yes_fee no_fee shares = Some r) ∨
  flt fzero shares = true ∧ is_finite shares = true ∧ flt (reduce_shares shares) shares = true ∧
  size_loop (S n) budget yes_limit no_limit yes_fee no_fee shares =
    size_loop n budget yes_limit no_limit yes_fee no_fee (reduce_shares shares).
Proof.
  cbn [size_loop].
  destruct (flt fzero shares) eqn:Hpos; cbn [negb]; [|left; by eexists].
  destruct (is_finite (leg_cost shares yes_limit yes_fee)) eqn:Hy; cbn [negb orb]; [|left; by eexists].
  destruct (is_finite (leg_cost shares no_limit no_fee)); cbn [negb]; [|left; by eexists].
  destruct (within_budget _ _ _ _ _ _); [left; by eexists|].
  destruct (flt (reduce_shares shares) shares) eqn:Hlt; cbn [negb]; [|left; by eexists].
  right. split_and!; [done|by eapply leg_cost_finite|done|done].
Qed.

Lemma size_loop_ends_canonical budget yes_limit no_limit yes_fee no_fee n shares :
  (rank shares < n)%nat → canonical64 shares → is_Some (size_loop n budget yes_limit no_limit yes_fee no_fee shares).
Proof.
  revert shares. induction n as [|n IH]; intros shares Hn Hc; [lia|].
  destruct (size_loop_round n budget yes_limit no_limit yes_fee no_fee shares) as [(r & Hr)|(Hpos & Hfin & Hlt & ->)].
  { by rewrite Hr. }
  pose proof (reduced_canonical shares) as Hrc.
  destruct (flt fzero (reduce_shares shares)) eqn:Hp.
  - apply IH; [|done]. pose proof (flt_rank _ _ Hrc Hc Hp Hlt Hfin). lia.
  - destruct n as [|n]; [|cbn [size_loop]; by rewrite Hp].
    exfalso. clear IH. assert (rank shares = 0)%nat as H0 by lia. destruct shares as [|[]| |[] m e]; try done.
    unfold rank in H0. destruct Hc as (_ & He & _).
    pose proof (Z.pow_pos_nonneg 2 (e - emin (f_prec F) (f_emax F)) ltac:(lia) ltac:(lia)). nia.
Qed.

Lemma size_loop_ends budget yes_limit no_limit yes_fee no_fee shares :
  ∃ n, is_Some (size_loop n budget yes_limit no_limit yes_fee no_fee shares).
Proof.
  set (n := S (rank (reduce_shares shares))). exists (S n).
  destruct (size_loop_round n budget yes_limit no_limit yes_fee no_fee shares) as [(r & ->)|(_ & _ & _ & ->)]; [done|].
  apply size_loop_ends_canonical; [lia|apply reduced_canonical].
Qed.

(** The number of shares the loop ends with: the first one in steps of a cent
    that fits the budget. *)
Lemma size_loop_first n budget yes_limit no_limit yes_fee no_fee shares result :
  size_loop n budget yes_limit no_limit yes_fee no_fee shares = Some (Some result) →
  ∃ k, result = Nat.iter k reduce_shares shares ∧
    (flt fzero result = true → within_budget budget yes_limit no_limit yes_fee no_fee result = true) ∧
    (∀ j, (j < k)%nat → within_budget budget yes_limit no_limit yes_fee no_fee (Nat.iter j reduce_shares shares) = false).
Proof.
  revert shares. induction n as [|n IH]; intros shares; [done|]. cbn [size_loop]. case_if.
  { intros [= <-]. exists 0%nat. split_and!; [done|intros Hp; bools; cbn in *; congruence|lia]. }
  case_if; [done|]. case_if.
  { intros [= <-]. exists 0%nat. split_and!; [done|done|lia]. }
  case_if; [done|]. intros Hs. apply IH in Hs as (k & -> & Hw & Hj). exists (S k).
  split_and!; [by rewrite Nat.iter_succ_r|done|].
  intros [|j] Hlt; [done|]. rewrite Nat.iter_succ_r. apply Hj. lia.
Qed.

(** ** The plan *)

Section Plan.
Context (pow : double → Z → double).

(** What an executable plan promises about its numbers. *)
Record plan_sound (i : ArbSizingInput) (yes_per_share no_per_share : double) (plan : ArbExecutionPlan) : Prop := {
  sound_paired : yes_shares plan = no_shares plan;
  sound_positive : flt fzero (yes_shares plan) = true;
  sound_minimum : flt (yes_shares plan) (minimum_order_size i) = false;
  sound_depth : flt (yes_available i) (yes_shares plan) = false ∧ flt (no_available i) (yes_shares plan) = false;
  sound_limits : fle one (yes_limit_price plan) = false ∧ fle one (no_limit_price plan) = false;
  sound_fees : yes_fee plan = conservative_fee (yes_shares plan) yes_per_share ∧
    no_fee plan = conservative_fee (yes_shares plan) no_per_share;
  sound_budget :
    fle (fadd F (fmul F (yes_shares plan) (yes_limit_price plan)) (yes_fee plan)) (fadd F (max_usdc_per_leg i) rounding_slack) = true ∧
    fle (fadd F (fmul F (yes_shares plan) (no_limit_price plan)) (no_fee plan)) (fadd F (max_usdc_per_leg i) rounding_slack) = true;
  sound_edge : edge plan = fsub F (yes_shares plan) (total_cost plan) ∧ flt minimum_edge_usdc (edge plan) = true }.

Lemma fsub_finite x y : is_finite (fsub F x y) = true → is_finite x = true.
Proof. destruct x as [|s| |], y as [|s'| |]; try done. by destruct s, s'. Qed.

Lemma finish_plan_sound i yes_limit no_limit yes_per_share no_per_share shares :
  fle one yes_limit = false → fle one no_limit = false →
  (flt fzero shares = true → within_budget (max_usdc_per_leg i) yes_limit no_limit yes_per_share no_per_share shares = true) →
  let plan := finish_plan i yes_limit no_limit yes_per_share no_per_share shares in
  executable plan = bool_decide (reason plan = "") ∧
  (executable plan = true → yes_shares plan = shares ∧ plan_sound i yes_per_share no_per_share plan).
Proof.
  intros Hyl Hnl Hw. cbv zeta. unfold finish_plan. case_if; [done|]. case_if; [done|]. case_if; [done|]. bools. cbn.
  split; [by case_if|]. intros Hedge.
  assert (Hpos : flt fzero shares = true).
  { assert (Hfin : is_finite shares = true) by (by eapply fsub_finite). by destruct shares as [|[]| |[] m e]. }
  specialize (Hw Hpos). unfold within_budget in Hw. bools. by split.
Qed.

(** C30: sizing always ends, and a plan says it is executable exactly when it
    gives no reason against.  An executable plan buys the same positive number of
    both tokens, not below the minimum and not above the depth of either, at
    limits below one, each leg with its fee within the budget, with an edge above
    the buffer; the number is the first, in steps of a cent down from what the
    dearer leg would allow, that fits the budget. *)
Theorem arb_plan_within_budget (i : ArbSizingInput) :
  (∃ fuel plan, size_complementary_arb pow fuel i = Some plan) ∧
  (∀ fuel plan, size_complementary_arb pow fuel i = Some plan →
     executable plan = bool_decide (reason plan = "") ∧
     (executable plan = true →
      let yes_per_share := fee_per_share pow (yes_ask i) (yes_limit_price plan) (fee_rate i) (fee_exponent i) in
      let no_per_share := fee_per_share pow (no_ask i) (no_limit_price plan) (fee_rate i) (fee_exponent i) in
      let start := first_shares (raw_share_steps i
        (fmax (fadd F (yes_limit_price plan) yes_per_share) (fadd F (no_limit_price plan) no_per_share))) in
      plan_sound i yes_per_share no_per_share plan ∧
      ∃ k, yes_shares plan = Nat.iter k reduce_shares start ∧
        ∀ j, (j < k)%nat → within_budget (max_usdc_per_leg i) (yes_limit_price plan) (no_limit_price plan)
          yes_per_share no_per_share (Nat.iter j reduce_shares start) = false)).
Proof.
  unfold size_complementary_arb. destruct (invalid_input i).
  { split; [by exists 0%nat; eexists|]. by intros _ plan [= <-]. }
  cbv zeta. set (yes_limit := round_up_to_tick _ _). set (no_limit := round_up_to_tick _ _). case_if.
  { split; [by exists 0%nat; eexists|]. by intros _ plan [= <-]. }
  set (yps := fee_per_share pow (yes_ask i) yes_limit _ _). set (nps := fee_per_share pow (no_ask i) no_limit _ _). case_if.
  { split; [by exists 0%nat; eexists|]. by intros _ plan [= <-]. }
  clear Heqb0. bools. split.
  - edestruct size_loop_ends as (n & r & Hr). exists n. rewrite Hr. destruct r; by eexists.
  - intros fuel plan. destruct (size_loop _ _ _ _ _ _ _) as [[shares|]|] eqn:Es; [| |done]; intros [= <-]; [|done].
    apply size_loop_first in Es as (k & Hk & Hw & Hj).
    destruct (finish_plan_sound i yes_limit no_limit yps nps shares) as [He Hs]; [done..|].
    split; [exact He|]. intros Hx. destruct (Hs Hx) as [Hsh Hsound].
    assert (Hlim : yes_limit_price (finish_plan i yes_limit no_limit yps nps shares) = yes_limit ∧
      no_limit_price (finish_plan i yes_limit no_limit yps nps shares) = no_limit).
    { revert Hx. unfold finish_plan. repeat case_if; done. }
    destruct Hlim as [-> ->]. fold yps nps. split; [done|]. exists k. by rewrite Hsh.
Qed.
End Plan.

Example sample_plan_executable :
  option_map executable (size_complementary_arb linear_pow 10 sample_input) = Some true.
Proof. vm_compute. reflexivity. Qed.
