(* ===== verification/Orderbook.v ===== *)
(** * Order books (include/polymarket/types.hpp)

    Price levels, one token's book and its best prices, and the ordering of
    levels by price that the matching and streaming components share. *)
From Stdlib Require Import Floats.SpecFloat.
From stdpp Require Import sorting.
From S2P Require Import Prelude Float64.

#[local] Open Scope Z_scope.

Record PriceLevel := MkPriceLevel { price : double; size : double }.

#[export] Instance price_level_eq_dec : EqDecision PriceLevel.
Proof. solve_decision. Defined.

Record Orderbook := MkOrderbook {
  asset_id : string;
  bids : list PriceLevel;
  asks : list PriceLevel;
  timestamp_ns : Z }.

#[export] Instance orderbook_eq_dec : EqDecision Orderbook.
Proof. solve_decision. Defined.

(** The value-initialised book [books[event.asset_id]] starts from. *)
Definition empty_orderbook : Orderbook := MkOrderbook "" [] [] 0.

Definition fone : double := of_Z binary64 1.

(** ** Best prices *)

Definition best_bid (book : Orderbook) : double :=
  match bids book with
  | [] => fzero
  | b0 :: _ =>
      foldl (λ max_bid b, if flt max_bid (price b) then price b else max_bid)
        (price b0) (bids book)
  end.

Definition best_ask (book : Orderbook) : double :=
  match asks book with
  | [] => fone
  | a0 :: _ =>
      foldl (λ min_ask a, if flt (price a) min_ask then price a else min_ask)
        (price a0) (asks book)
  end.

Definition best_bid_size (book : Orderbook) : double :=
  match bids book with
  | [] => fzero
  | b0 :: _ =>
      size (foldl (λ best b, if flt (price best) (price b) then b else best) b0 (bids book))
  end.

Definition best_ask_size (book : Orderbook) : double :=
  match asks book with
  | [] => fzero
  | a0 :: _ =>
      size (foldl (λ best a, if flt (price a) (price best) then a else best) a0 (asks book))
  end.

(** ** Orders on levels *)

(** [std::is_sorted]: no element is [better] than the one before it. *)
Fixpoint is_sorted {A} (better : A → A → bool) (l : list A) : bool :=
  match l with
  | x :: ((y :: _) as l') => negb (better y x) && is_sorted better l'
  | _ => true
  end.

(** [std::sort] promises a sorted permutation, and nothing about the order of
    equivalent elements. *)
Class StdSort := {
  std_sort : ∀ {A}, (A → A → bool) → list A → list A;
  std_sort_perm : ∀ {A} (better : A → A → bool) l, std_sort better l ≡ₚ l;
  std_sort_sorted : ∀ {A} (better : A → A → bool) l,
    (∀ x y z, x ∈ l → y ∈ l → z ∈ l →
       better x y = false → better y z = false → better x z = false) →
    (∀ x y, x ∈ l → y ∈ l → better x y = true → better y x = false) →
    is_sorted better (std_sort better l) = true }.

(** ** The order of finite floats *)

(** Position of a number on the line: sign, exponent and mantissa compare in
    this order. *)
Definition float_key (x : spec_float) : Z * (Z * Z) :=
  match x with
  | S754_finite false m e => (1, (e, Zpos m))
  | S754_finite true m e => (-1, (- e, Zneg m))
  | _ => (0, (0, 0))
  end.

Definition key_lt (a b : Z * (Z * Z)) : Prop :=
  a.1 < b.1 ∨ a.1 = b.1 ∧ (a.2.1 < b.2.1 ∨ a.2.1 = b.2.1 ∧ a.2.2 < b.2.2).

Lemma flt_key x y :
  is_finite x = true → is_finite y = true →
  flt x y = true ↔ key_lt (float_key x) (float_key y).
Proof.
  unfold key_lt, flt, SFltb.
  destruct x as [|?| |[] mx ex], y as [|?| |[] my ey]; try done; intros _ _; cbn;
    try (split; [done|lia]); try (split; [intros; lia|done]).
  all: destruct (Z.compare_spec ex ey); cbn; try (split; [done|lia]); try (split; [intros; lia|done]).
  all: change (Pos.compare_cont Eq mx my) with (Pos.compare mx my).
  all: destruct (Pos.compare_spec mx my); cbn; try (split; [done|lia]); split; [intros; lia|done].
Qed.

Lemma feq_key x y :
  is_finite x = true → is_finite y = true →
  feq x y = true ↔ float_key x = float_key y.
Proof.
  unfold feq, SFeqb.
  destruct x as [|?| |[] mx ex], y as [|?| |[] my ey]; try done; intros _ _; cbn;
    try (split; [done|congruence]).
  all: destruct (Z.compare_spec ex ey); cbn; try (split; [done|intros [=]; lia]).
  all: change (Pos.compare_cont Eq mx my) with (Pos.compare mx my).
  all: destruct (Pos.compare_spec mx my); cbn; try (split; [done|intros [=]; lia]).
  all: subst; done.
Qed.

Section FiniteOrder.
Context (x y z : spec_float).
Context (Hx : is_finite x = true) (Hy : is_finite y = true) (Hz : is_finite z = true).

Lemma flt_asym : flt x y = true → flt y x = false.
Proof using Hx Hy.
  rewrite flt_key by done. intros H. apply not_true_iff_false. rewrite flt_key by done.
  unfold key_lt in *. lia.
Qed.

Lemma flt_trans : flt x y = true → flt y z = true → flt x z = true.
Proof using Hx Hy Hz. rewrite !flt_key by done. unfold key_lt. lia. Qed.

Lemma nlt_trans : flt x y = false → flt y z = false → flt x z = false.
Proof using Hx Hy Hz.
  rewrite <- !not_true_iff_false, !flt_key by done. unfold key_lt. lia.
Qed.

Lemma flt_total : flt x y = false → flt y x = false → feq x y = true.
Proof using Hx Hy.
  rewrite <- !not_true_iff_false, !flt_key, feq_key by done. unfold key_lt.
  destruct (float_key x) as [? [??]], (float_key y) as [? [??]]; cbn. intros.
  repeat f_equal; lia.
Qed.

Lemma nle_flt : fle x y = false → flt y x = true.
Proof using Hx Hy.
  intros Hle. apply not_false_iff_true. intros Hyx.
  assert (flt x y = false ∧ feq x y = false) as [H1 H2].
  { revert Hle. unfold fle, flt, feq, SFleb, SFltb, SFeqb. by destruct (SFcompare x y) as [[]|]. }
  apply flt_total in H1; [congruence|done].
Qed.
End FiniteOrder.

(** ** Sorting a side *)

(** Insertion sort keeps the promise of [std::sort]. *)
Fixpoint insert_sorted {A} (better : A → A → bool) (x : A) (l : list A) : list A :=
  match l with
  | [] => [x]
  | y :: l' => if better x y then x :: l else y :: insert_sorted better x l'
  end.

Definition insertion_sort {A} (better : A → A → bool) (l : list A) : list A :=
  foldr (insert_sorted better) [] l.

Lemma insert_sorted_perm {A} (better : A → A → bool) x l :
  insert_sorted better x l ≡ₚ x :: l.
Proof.
  induction l as [|y l IH]; [done|]. cbn. case_match; [done|]. rewrite IH.
  apply Permutation_swap.
Qed.

Lemma insertion_sort_perm {A} (better : A → A → bool) l : insertion_sort better l ≡ₚ l.
Proof. induction l as [|x l IH]; [done|]. cbn. by rewrite insert_sorted_perm, IH. Qed.

Lemma insert_sorted_sorted {A} (better : A → A → bool) x l :
  (∀ y, y ∈ l → better x y = true → better y x = false) →
  is_sorted better l = true → is_sorted better (insert_sorted better x l) = true.
Proof.
  induction l as [|y l IH]; intros Has Hs; [done|]. cbn [insert_sorted].
  destruct (better x y) eqn:E.
  { cbn [is_sorted]. rewrite (Has y) by (set_solver || done). done. }
  destruct l as [|z l]; cbn [insert_sorted is_sorted] in *; [by rewrite E|].
  apply andb_true_iff in Hs as [Hz Hs].
  specialize (IH ltac:(set_solver) Hs). cbn [insert_sorted] in IH.
  destruct (better x z); [by rewrite E, IH|by rewrite Hz, IH].
Qed.

#[export] Instance insertion_std_sort : StdSort.
Proof.
  refine {| std_sort := @insertion_sort |}.
  - intros. apply insertion_sort_perm.
  - intros A better l _ Has. induction l as [|x l IH]; [done|]. cbn.
    apply insert_sorted_sorted; [|apply IH; set_solver].
    intros y Hy. assert (y ∈ l) by (by rewrite <- (insertion_sort_perm better l)).
    apply Has; set_solver.
Defined.

(** Neighbouring order is global order when "not better" is transitive. *)
Lemma is_sorted_strongly {A} (better : A → A → bool) l :
  (∀ x y z, x ∈ l → y ∈ l → z ∈ l →
     better x y = false → better y z = false → better x z = false) →
  is_sorted better l = true → StronglySorted (λ x y, better y x = false) l.
Proof.
  induction l as [|x l IH]; intros Htr Hs; [constructor|].
  assert (StronglySorted (λ x y, better y x = false) l) as Hl.
  { apply IH; [intros ??????; apply Htr; set_solver|].
    destruct l; [done|]. by apply andb_true_iff in Hs as [_ Hs]. }
  constructor; [done|]. destruct l as [|y l]; [constructor|].
  apply andb_true_iff in Hs as [Hxy%negb_true_iff _].
  constructor; [done|]. inversion_clear Hl as [|? ? _ Hf].
  rewrite Forall_forall in Hf |- *. intros z Hz. apply (Htr z y x); set_solver.
Qed.
