(* ===== verification/MarketPrice.v ===== *)
(** * Book walks and simulated fills (src/market_price.cpp)

    A market order is priced by walking one side of a book from its best level,
    accumulating depth in exact 64-bit arithmetic until the order that would be
    signed at the level's price is covered.  [find_depth_limit] finds that level,
    [calculate_market_price] decides FOK orders, [estimate_market_depth] also
    simulates the fill level by level. *)
From Stdlib Require Import Floats.SpecFloat.
From stdpp Require Import sorting.
From S2P Require Import Prelude Float64 DecimalMath OrderAmounts Orderbook.

#[local] Open Scope Z_scope.

Inductive OrderType := GTC | GTD | FOK | FAK.

#[export] Instance order_type_eq_dec : EqDecision OrderType.
Proof. solve_decision. Defined.

Definition depth_decimals : Z := 6.
Definition depth_scale : Z := 1000000.

(** ** Accumulated depth *)

Record AccumulatedNotional := MkNotional {
  notional_units : Z;
  fractional_units : Z;
  notional_saturated : bool }.

Record AccumulatedSize := MkSize { size_units : Z; size_saturated : bool }.

Record LevelUnits := MkLevelUnits { lu_price : Z; lu_size : Z }.

Record DepthLimit := MkDepthLimit { limit_price : double; fully_fillable : bool }.

Definition notional_covers (n : AccumulatedNotional) (target : Z) : bool :=
  notional_saturated n || (target <=? notional_units n).

Definition size_covers (n : AccumulatedSize) (target : Z) : bool :=
  size_saturated n || (target <=? size_units n).

Definition saturate_notional (t : AccumulatedNotional) : AccumulatedNotional :=
  MkNotional (notional_units t) (fractional_units t) true.

Definition add_notional (total : AccumulatedNotional) (size_units price_units : Z)
    : AccumulatedNotional :=
  if notional_saturated total then total
  else
    let size_whole := size_units / depth_scale in
    let size_fraction := size_units mod depth_scale in
    let fractional_product := u64 (size_fraction * price_units) in
    let fractional_whole := fractional_product / depth_scale in
    let contribution_fraction := fractional_product mod depth_scale in
    if negb (price_units =? 0) &&
       ((u64_max - fractional_whole) / price_units <? size_whole)
    then saturate_notional total
    else
      let contribution_units := u64 (u64 (size_whole * price_units) + fractional_whole) in
      if u64_max - notional_units total <? contribution_units
      then saturate_notional total
      else
        let units := u64 (notional_units total + contribution_units) in
        let fraction := u64 (fractional_units total + contribution_fraction) in
        if fraction <? depth_scale then MkNotional units fraction false
        else
          let fraction := u64 (fraction - depth_scale) in
          if units =? u64_max then MkNotional units fraction true
          else MkNotional (u64 (units + 1)) fraction false.

Definition add_size (total : AccumulatedSize) (units : Z) : AccumulatedSize :=
  if size_saturated total then total
  else if u64_max - size_units total <? units then MkSize (size_units total) true
  else MkSize (u64 (size_units total + units)) false.

Definition checked_add (left right : Z) : res Z :=
  if u64_max - left <? right
  then Throw (out_of_range "simulated fill exceeds uint64 range")
  else Ok (u64 (left + right)).

(** Collateral for [share_units] at one price. *)
Definition collateral_for (share_units price_units : Z) (round_up : bool) : res Z :=
  let whole := share_units / depth_scale in
  let fractional_product := u64 (share_units mod depth_scale * price_units) in
  if (u64_max - depth_scale) / price_units <? whole
  then Throw (out_of_range "simulated fill exceeds uint64 range")
  else
    let units := u64 (u64 (whole * price_units) + fractional_product / depth_scale) in
    Ok (if round_up && negb (fractional_product mod depth_scale =? 0)
        then u64 (units + 1) else units).

(** Shares that [collateral_units] buys at one price, rounded down. *)
Definition shares_for (collateral_units price_units : Z) : res Z :=
  let whole := collateral_units / price_units in
  let remainder := collateral_units mod price_units in
  if (u64_max - depth_scale) / depth_scale <? whole
  then Throw (out_of_range "simulated fill exceeds uint64 range")
  else Ok (u64 (u64 (whole * depth_scale) + u64 (remainder * depth_scale) / price_units)).

(** ** Walking a side *)

Definition better (side : OrderSide) (left right : PriceLevel) : bool :=
  match side with
  | BUY => flt (price left) (price right)
  | SELL => flt (price right) (price left)
  end.

(** [for (level : levels) if (visit(level)) return;] *)
Fixpoint visit_levels {S} (visit : S → PriceLevel → res (S * bool))
    (levels : list PriceLevel) (s : S) : res S :=
  match levels with
  | [] => Ok s
  | level :: rest =>
      '(s', stop) ← visit s level;
      if (stop : bool) then Ok s' else visit_levels visit rest s'
  end.

Definition check_finite_prices (levels : list PriceLevel) : res unit :=
  require (forallb (λ level, is_finite (price level)) levels)
    (invalid_argument "orderbook level is invalid").

Section MarketPrice.
Context `{L : LongDouble} `{Sort : StdSort}.

Definition best_first (levels : list PriceLevel) (side : OrderSide) : list PriceLevel :=
  if is_sorted (better side) levels then levels
  else if is_sorted (better side) (reverse levels) then reverse levels
  else std_sort (better side) levels.

Definition visit_best_first {S} (levels : list PriceLevel) (side : OrderSide)
    (visit : S → PriceLevel → res (S * bool)) (s : S) : res S :=
  check_finite_prices levels;;
  visit_levels visit (best_first levels side) s.

Definition exact_depth_units (value : double) : res Z :=
  exact_decimal_to_scaled_uint64 value depth_decimals.

Definition level_units (level : PriceLevel) : res LevelUnits :=
  require (negb (negb (is_finite (price level)) || negb (is_finite (size level))
                 || fle (price level) fzero || fle fone (price level)
                 || flt (size level) fzero))
    (invalid_argument "orderbook level is invalid");;
  size_units ← exact_depth_units (size level);
  price_units ← exact_depth_units (price level);
  require (negb ((price_units =? 0) || (depth_scale <=? price_units)))
    (invalid_argument "orderbook level is invalid");;
  Ok (MkLevelUnits price_units size_units).

Definition book_side (book : Orderbook) (side : OrderSide) : list PriceLevel :=
  match side with BUY => asks book | SELL => bids book end.

(** *** find_depth_limit *)

Record DepthState := MkDepthState {
  available_notional : AccumulatedNotional;
  available_size : AccumulatedSize;
  limit : DepthLimit }.

Definition depth_visit (side : OrderSide) (amount : double) (tick_size : string)
    (s : DepthState) (level : PriceLevel) : res (DepthState * bool) :=
  units ← level_units level;
  validated ← validate_order_price (price level) tick_size;
  candidate_amounts ← calculate_market_order_amounts side amount validated;
  let notional :=
    match side with
    | BUY => add_notional (available_notional s) (lu_size units) (lu_price units)
    | SELL => available_notional s
    end in
  let sz :=
    match side with
    | BUY => available_size s
    | SELL => add_size (available_size s) (lu_size units)
    end in
  let fillable :=
    match side with
    | BUY => notional_covers notional (maker candidate_amounts)
    | SELL => size_covers sz (maker candidate_amounts)
    end in
  Ok (MkDepthState notional sz (MkDepthLimit (price level) fillable), fillable).

Definition depth_start : DepthState :=
  MkDepthState (MkNotional 0 0 false) (MkSize 0 false) (MkDepthLimit fzero false).

Definition find_depth_limit (book : Orderbook) (side : OrderSide) (amount : double)
    (tick_size : string) : res DepthLimit :=
  require (is_finite amount && negb (fle amount fzero))
    (invalid_argument "market order amount must be finite and positive");;
  require (match book_side book side with [] => false | _ => true end)
    (runtime_error "no matching orders");;
  s ← visit_best_first (book_side book side) side (depth_visit side amount tick_size)
        depth_start;
  Ok (limit s).

Definition calculate_market_price (book : Orderbook) (side : OrderSide)
    (amount : double) (order_type : OrderType) (tick_size : string) : res double :=
  limit ← find_depth_limit book side amount tick_size;
  require (fully_fillable limit || negb (bool_decide (order_type = FOK)))
    (runtime_error "insufficient orderbook depth for FOK order");;
  Ok (limit_price limit).

(** *** estimate_market_depth *)

Record MarketPriceEstimate := MkEstimate {
  est_price : double;
  average_price : double;
  share_units : Z;
  collateral_units : Z;
  levels : Z;
  est_fully_fillable : bool }.

Record FillState := MkFillState {
  remaining : Z;
  fill_shares : Z;
  fill_collateral : Z;
  fill_levels : Z }.

(** The shares and collateral one level contributes, and whether it ends the
    fill. *)
Definition level_fill (side : OrderSide) (remaining : Z) (units : LevelUnits)
    : res (Z * Z * bool) :=
  match side with
  | BUY =>
      level_cost ← collateral_for (lu_size units) (lu_price units) true;
      let partial := remaining <? level_cost in
      if partial then
        shares ← shares_for remaining (lu_price units);
        collateral ← collateral_for shares (lu_price units) true;
        Ok (shares, collateral, true)
      else Ok (lu_size units, level_cost, false)
  | SELL =>
      let shares := Z.min remaining (lu_size units) in
      collateral ← collateral_for shares (lu_price units) false;
      Ok (shares, collateral, false)
  end.

Definition beyond_limit (side : OrderSide) (p lim : double) : bool :=
  match side with BUY => flt lim p | SELL => flt p lim end.

Definition fill_visit (side : OrderSide) (lim : double)
    (s : FillState) (level : PriceLevel) : res (FillState * bool) :=
  if beyond_limit side (price level) lim then Ok (s, true)
  else
    units ← level_units level;
    '(shares, collateral, partial) ← level_fill side (remaining s) units;
    let remaining :=
      u64 (remaining s - match side with BUY => collateral | SELL => shares end) in
    '(total_shares, total_collateral, levels) ←
      (if negb (shares =? 0) then
         total_shares ← checked_add (fill_shares s) shares;
         total_collateral ← checked_add (fill_collateral s) collateral;
         Ok (total_shares, total_collateral, fill_levels s + 1)
       else Ok (fill_shares s, fill_collateral s, fill_levels s));
    Ok (MkFillState remaining total_shares total_collateral levels,
        partial || (remaining =? 0)).

Definition estimate_market_depth (book : Orderbook) (side : OrderSide)
    (amount : double) (tick_size : string) : res MarketPriceEstimate :=
  limit ← find_depth_limit book side amount tick_size;
  validated ← validate_order_price (limit_price limit) tick_size;
  order ← calculate_market_order_amounts side amount validated;
  s ← visit_best_first (book_side book side) side
        (fill_visit side (limit_price limit)) (MkFillState (maker order) 0 0 0);
  let average :=
    if negb (fill_shares s =? 0)
    then fdiv binary64 (of_Z binary64 (fill_collateral s)) (of_Z binary64 (fill_shares s))
    else fzero in
  Ok (MkEstimate (limit_price limit) average (fill_shares s) (fill_collateral s)
        (fill_levels s) (fully_fillable limit)).
End MarketPrice.

(** ** Exact values of the accumulators *)

(** Depth in millionths of a base unit: what the code would compute with
    unbounded integers. *)
Definition exact_notional (us : list LevelUnits) : Z :=
  foldr (λ u acc, lu_size u * lu_price u + acc) 0 us.
Definition exact_size (us : list LevelUnits) : Z :=
  foldr (λ u acc, lu_size u + acc) 0 us.

Record level_units_wf (u : LevelUnits) : Prop := {
  lu_price_range : 0 < lu_price u < depth_scale;
  lu_size_range : is_u64 (lu_size u) }.

(** The accumulator stands for the exact total [t]. *)
Definition notional_is (n : AccumulatedNotional) (t : Z) : Prop :=
  0 ≤ fractional_units n < depth_scale ∧ is_u64 (notional_units n) ∧
  if notional_saturated n then (u64_max + 1) * depth_scale ≤ t
  else notional_units n * depth_scale + fractional_units n = t.

Definition size_is (n : AccumulatedSize) (t : Z) : Prop :=
  is_u64 (size_units n) ∧
  if size_saturated n then u64_max < t else size_units n = t.

Ltac u64_lia := unfold is_u64, u64_max, depth_scale in *; lia.

Lemma add_notional_spec n t u :
  level_units_wf u → notional_is n t →
  notional_is (add_notional n (lu_size u) (lu_price u)) (t + lu_size u * lu_price u).
Proof.
  intros [Hp Hs] (Hf & Hu & Ht). unfold add_notional.
  destruct (notional_saturated n) eqn:Esat.
  { unfold notional_is. rewrite Esat. u64_lia. }
  pose proof (Z.div_mod (lu_size u) depth_scale ltac:(done)) as Hdm.
  pose proof (Z.mod_pos_bound (lu_size u) depth_scale ltac:(done)) as Hmod.
  set (w := lu_size u / depth_scale) in *. set (f := lu_size u mod depth_scale) in *.
  assert (0 ≤ w) by (apply Z.div_pos; u64_lia).
  rewrite (u64_id (f * lu_price u)) by (unfold is_u64, u64_max, depth_scale in *; nia).
  pose proof (Z.div_mod (f * lu_price u) depth_scale ltac:(done)) as Hdp.
  pose proof (Z.mod_pos_bound (f * lu_price u) depth_scale ltac:(done)) as Hmp.
  set (fw := f * lu_price u / depth_scale) in *.
  set (cf := (f * lu_price u) mod depth_scale) in *.
  assert (0 ≤ fw < depth_scale) as Hfw.
  { split; [apply Z.div_pos; nia|]. apply Z.div_lt_upper_bound; nia. }
  assert (lu_size u * lu_price u = (w * lu_price u + fw) * depth_scale + cf) as Etot.
  { rewrite Hdm at 1. lia. }
  assert ((lu_price u =? 0) = false) as -> by (apply Z.eqb_neq; lia). cbn [negb andb].
  assert (0 ≤ w * lu_price u) by nia.
  pose proof (mul_overflow_test w (lu_price u) (u64_max - fw) ltac:(lia) ltac:(lia)) as Hov.
  destruct (Z.ltb_spec ((u64_max - fw) / lu_price u) w).
  { split_and!; cbn; u64_lia. }
  rewrite (u64_id (w * lu_price u)) by u64_lia.
  rewrite (u64_id (w * lu_price u + fw)) by u64_lia.
  destruct (Z.ltb_spec (u64_max - notional_units n) (w * lu_price u + fw)).
  { split_and!; cbn; u64_lia. }
  rewrite (u64_id (notional_units n + _)) by u64_lia.
  rewrite (u64_id (fractional_units n + cf)) by u64_lia.
  destruct (Z.ltb_spec (fractional_units n + cf) depth_scale).
  { split_and!; cbn; u64_lia. }
  rewrite (u64_id (fractional_units n + cf - depth_scale)) by u64_lia.
  destruct (Z.eqb_spec (notional_units n + (w * lu_price u + fw)) u64_max).
  { split_and!; cbn; u64_lia. }
  rewrite u64_id by u64_lia. split_and!; cbn; u64_lia.
Qed.

Lemma add_size_spec n t u :
  level_units_wf u → size_is n t → size_is (add_size n (lu_size u)) (t + lu_size u).
Proof.
  intros [_ Hs] (Hu & Ht). unfold add_size.
  destruct (size_saturated n) eqn:Esat.
  { split; [done|]. rewrite Esat. u64_lia. }
  destruct (Z.ltb_spec (u64_max - size_units n) (lu_size u)).
  { split; cbn; u64_lia. }
  rewrite u64_id by u64_lia. split; cbn; u64_lia.
Qed.

Lemma notional_covers_spec n t target :
  notional_is n t → is_u64 target → notional_covers n target = (target * depth_scale <=? t).
Proof.
  intros (Hf & Hu & Ht) Hr. unfold notional_covers.
  destruct (notional_saturated n); cbn; symmetry.
  - apply Z.leb_le. u64_lia.
  - destruct (Z.leb_spec target (notional_units n)); [apply Z.leb_le|apply Z.leb_gt]; u64_lia.
Qed.

Lemma size_covers_spec n t target :
  size_is n t → is_u64 target → size_covers n target = (target <=? t).
Proof.
  intros (Hu & Ht) Hr. unfold size_covers.
  destruct (size_saturated n); cbn; [symmetry; apply Z.leb_le; u64_lia|by subst].
Qed.

(** Rounded division by the depth scale. *)
Definition scale_down (x : Z) (round_up : bool) : Z :=
  (if round_up then x + (depth_scale - 1) else x) / depth_scale.

Lemma scale_down_bounds (x : Z) (up : bool) :
  if up then x ≤ scale_down x up * depth_scale < x + depth_scale
  else scale_down x up * depth_scale ≤ x < scale_down x up * depth_scale + depth_scale.
Proof.
  unfold scale_down, depth_scale. destruct up;
    [pose proof (div_bounds (x + (1000000 - 1)) 1000000)|pose proof (div_bounds x 1000000)]; lia.
Qed.

Lemma collateral_for_spec s p up :
  is_u64 s → 0 < p < depth_scale → collateral_for s p up = Ok (scale_down (s * p) up).
Proof.
  intros Hs Hp. unfold collateral_for.
  pose proof (Z.div_mod s depth_scale ltac:(done)) as Hdm.
  pose proof (Z.mod_pos_bound s depth_scale ltac:(done)) as Hmod.
  set (w := s / depth_scale) in *. set (f := s mod depth_scale) in *.
  assert (0 ≤ w ≤ 18446744073709) as Hw by u64_lia.
  rewrite (u64_id (f * p)) by (unfold is_u64, u64_max, depth_scale in *; nia).
  assert (((u64_max - depth_scale) / p <? w) = false) as ->.
  { apply Z.ltb_ge. apply Z.div_le_lower_bound; [lia|]. unfold u64_max, depth_scale in *. nia. }
  pose proof (Z.div_mod (f * p) depth_scale ltac:(done)) as Hdp.
  pose proof (Z.mod_pos_bound (f * p) depth_scale ltac:(done)) as Hmp.
  set (fw := f * p / depth_scale) in *. set (cf := (f * p) mod depth_scale) in *.
  assert (0 ≤ fw < depth_scale).
  { split; [apply Z.div_pos; nia|]. apply Z.div_lt_upper_bound; nia. }
  assert (0 ≤ w * p ≤ 18446744073709 * 999999) by (unfold depth_scale in *; nia).
  rewrite (u64_id (w * p)) by u64_lia. rewrite (u64_id (w * p + fw)) by u64_lia.
  assert (s * p = (w * p + fw) * depth_scale + cf) as E by (rewrite Hdm at 1; lia).
  f_equal. rewrite E. unfold scale_down.
  destruct up; cbn [andb]; [|apply div_unique_bounds; u64_lia].
  destruct (Z.eqb_spec cf 0); cbn [negb]; [apply div_unique_bounds; u64_lia|].
  rewrite u64_id by u64_lia. apply div_unique_bounds; u64_lia.
Qed.

Lemma shares_for_spec c p :
  is_u64 c → 0 < p < depth_scale →
  shares_for c p =
    if (u64_max - depth_scale) / depth_scale <? c / p
    then Throw (out_of_range "simulated fill exceeds uint64 range")
    else Ok (c * depth_scale / p).
Proof.
  intros Hc Hp. unfold shares_for.
  pose proof (Z.div_mod c p ltac:(lia)) as Hdm.
  pose proof (Z.mod_pos_bound c p ltac:(lia)) as Hmod.
  destruct (Z.ltb_spec ((u64_max - depth_scale) / depth_scale) (c / p)) as [|Hle]; [done|].
  set (w := c / p) in *. set (r := c mod p) in *.
  assert (0 ≤ w) by (apply Z.div_pos; u64_lia).
  assert (w * depth_scale ≤ u64_max - depth_scale).
  { pose proof (div_bounds (u64_max - depth_scale) depth_scale ltac:(done)). nia. }
  rewrite (u64_id (w * depth_scale)) by u64_lia.
  rewrite (u64_id (r * depth_scale)) by u64_lia.
  pose proof (div_bounds (r * depth_scale) p ltac:(lia)) as Hb.
  assert (0 ≤ r * depth_scale / p) by (apply Z.div_pos; u64_lia).
  assert (r * depth_scale / p < depth_scale).
  { apply Z.div_lt_upper_bound; [lia|]. unfold depth_scale in *. nia. }
  rewrite u64_id by u64_lia. f_equal.
  assert (c * depth_scale = (w * depth_scale) * p + r * depth_scale) as ->
    by (rewrite Hdm at 1; ring).
  by rewrite Z.div_add_l by lia.
Qed.

(** ** Levels and walks *)

Section Facts.
Context {L : LongDouble} {Laws : LongDoubleLaws L} {Sort : StdSort}.

Lemma level_units_Ok level u : level_units level = Ok u → level_units_wf u.
Proof using Laws.
  unfold level_units, exact_depth_units. intros (? & _ & H)%bind_Ok.
  apply bind_Ok in H as (s & Hs & H). apply bind_Ok in H as (p & Hp & H).
  apply bind_Ok in H as (? & Hr%require_Ok & [= <-]).
  apply exact_decimal_to_scaled_u64 in Hs as (_ & _ & _ & Hs).
  apply exact_decimal_to_scaled_u64 in Hp as (_ & _ & _ & Hp). bools.
  unfold is_u64 in Hp. split; cbn; [lia|done].
Qed.

(** What one visited side adds up to. *)
Definition side_total (side : OrderSide) (us : list LevelUnits) : Z :=
  match side with BUY => exact_notional us | SELL => exact_size us end.

(** What an order of [m] base units needs on that side. *)
Definition side_target (side : OrderSide) (m : Z) : Z :=
  match side with BUY => m * depth_scale | SELL => m end.

Definition state_is (side : OrderSide) (s : DepthState) (t : Z) : Prop :=
  match side with
  | BUY => notional_is (available_notional s) t
  | SELL => size_is (available_size s) t
  end.

Lemma market_maker_u64 side amount p a :
  price_wf p → calculate_market_order_amounts side amount p = Ok a →
  0 < maker a ≤ u64_max.
Proof using Laws.
  intros Hp. destruct side; cbn [calculate_market_order_amounts].
  - intros (b & Hb & H)%bind_Ok. apply bind_Ok in H as (? & Hnz%require_Ok & H).
    apply bind_Ok in H as (t & _ & [= <-]). cbn.
    apply amount_to_micro_units_Ok in Hb as (_ & Hb & _).
    pose proof (market_buy_taker p b Hp ltac:(lia)) as (_ & Hm & _). cbv zeta in Hm. bools. lia.
  - rewrite amounts_for_shares_spec by done. intros (m & Hm & H)%bind_Ok.
    apply amount_to_micro_units_Ok in Hm as (_ & Hm & _). case_if; [|done].
    injection H as <-. cbn. lia.
Qed.

Lemma depth_visit_Ok side amount tick s level s' stop t :
  state_is side s t → depth_visit side amount tick s level = Ok (s', stop) →
  ∃ u p order, level_units level = Ok u ∧ validate_order_price (price level) tick = Ok p ∧
    calculate_market_order_amounts side amount p = Ok order ∧
    state_is side s' (t + side_total side [u]) ∧
    stop = (side_target side (maker order) <=? t + side_total side [u]) ∧
    limit s' = MkDepthLimit (price level) stop.
Proof using Laws.
  intros Hs (u & Hu & H)%bind_Ok. apply bind_Ok in H as (p & Hp & H).
  apply bind_Ok in H as (o & Ho & [= <- <-]).
  exists u, p, o. split_and!; try done.
  all: apply level_units_Ok in Hu.
  all: apply validate_order_price_Ok in Hp as (Hp & _); apply market_maker_u64 in Ho; [|done].
  all: destruct side; cbn [side_total exact_notional exact_size foldr] in *; rewrite Z.add_0_r.
  - by apply add_notional_spec.
  - by apply add_size_spec.
  - apply notional_covers_spec; [by apply add_notional_spec|unfold is_u64; lia].
  - apply size_covers_spec; [by apply add_size_spec|unfold is_u64; cbn; lia].
Qed.

(** A finished walk has visited a prefix of the levels and stopped at the first
    one whose cumulative depth covers the order priced there, or at the last. *)
Lemma depth_walk side amount tick ls s s' t :
  state_is side s t → ls ≠ [] →
  visit_levels (depth_visit side amount tick) ls s = Ok s' →
  ∃ pre level post us p order,
    ls = pre ++ level :: post ∧
    Forall2 (λ lv u, level_units lv = Ok u) (pre ++ [level]) us ∧
    validate_order_price (price level) tick = Ok p ∧
    calculate_market_order_amounts side amount p = Ok order ∧
    limit s' = MkDepthLimit (price level)
      (side_target side (maker order) <=? t + side_total side us) ∧
    (fully_fillable (limit s') = false → post = []).
Proof using Laws.
  revert s t. induction ls as [|lv ls IH]; intros s t Hs Hne H; [done|].
  cbn [visit_levels] in H. apply bind_Ok in H as ([s1 stop] & Hv & H).
  destruct (depth_visit_Ok _ _ _ _ _ _ _ _ Hs Hv) as (u & p & o & Hu & Hp & Ho & Hs1 & Hstop & Hlim).
  destruct stop.
  - injection H as <-. exists [], lv, ls, [u], p, o.
    split_and!; try done; [by constructor|congruence|by rewrite Hlim].
  - destruct ls as [|lv2 ls].
    + injection H as <-. exists [], lv, [], [u], p, o.
      split_and!; try done; [by constructor|congruence].
    + destruct (IH _ _ Hs1 ltac:(done) H) as
        (pre & level & post & us & p' & o' & -> & Hus & Hp' & Ho' & Hlim' & Hpost).
      exists (lv :: pre), level, post, (u :: us), p', o'.
      split_and!; try done; [by constructor|].
      rewrite Hlim'. do 2 f_equal.
      unfold side_total, exact_notional, exact_size. destruct side; cbn [foldr]; lia.
Qed.

(** *** The simulated fill *)

(** A fill is the list of (shares, price) pairs taken level by level. *)
Definition fill_total_shares (f : list (Z * Z)) : Z := foldr (λ '(s, _) acc, s + acc) 0 f.
Definition fill_value (f : list (Z * Z)) : Z := foldr (λ '(s, p) acc, s * p + acc) 0 f.

(** Rounding of the collateral of [k] levels against the caller. *)
Definition rounded_against (side : OrderSide) (value collateral k : Z) : Prop :=
  match side with
  | BUY => value ≤ collateral * depth_scale ≤ value + k * (depth_scale - 1)
  | SELL => collateral * depth_scale ≤ value ≤ collateral * depth_scale + k * (depth_scale - 1)
  end.

Lemma level_fill_spec side r u shares collateral partial :
  level_units_wf u → is_u64 r →
  level_fill side r u = Ok (shares, collateral, partial) →
  0 ≤ shares ≤ lu_size u ∧ 0 ≤ collateral ∧
  rounded_against side (shares * lu_price u) collateral 1 ∧
  match side with BUY => collateral | SELL => shares end ≤ r.
Proof.
  intros [Hp Hs] Hr. unfold level_fill. destruct side.
  - rewrite (collateral_for_spec (lu_size u)) by done. cbn [mbind res_bind].
    pose proof (scale_down_bounds (lu_size u * lu_price u) true) as Hc. cbn iota in Hc.
    destruct (Z.ltb_spec r (scale_down (lu_size u * lu_price u) true)) as [Hlt|Hge].
    + rewrite shares_for_spec by done. case_if; [done|]. cbn [mbind res_bind].
      pose proof (div_bounds (r * depth_scale) (lu_price u) ltac:(lia)) as Hd.
      set (q := r * depth_scale / lu_price u) in *.
      assert (0 ≤ q) by (apply Z.div_pos; u64_lia).
      assert (q * lu_price u < lu_size u * lu_price u) as Hq by (unfold depth_scale in *; lia).
      apply Z.mul_lt_mono_pos_r in Hq; [|lia].
      rewrite collateral_for_spec by (done || u64_lia). cbn [mbind res_bind].
      intros [= <- <- <-].
      pose proof (scale_down_bounds (q * lu_price u) true) as Hc'. cbn iota in Hc'.
      assert (0 ≤ q * lu_price u) by nia.
      cbn [rounded_against]. unfold depth_scale in *. repeat split; lia.
    + intros [= <- <- <-]. assert (0 ≤ lu_size u * lu_price u) by (destruct Hs; nia).
      cbn [rounded_against]. unfold depth_scale in *. repeat split; u64_lia.
  - assert (is_u64 (Z.min r (lu_size u))) by u64_lia.
    rewrite collateral_for_spec by done. intros [= <- <- <-].
    pose proof (scale_down_bounds (Z.min r (lu_size u) * lu_price u) false) as Hc. cbn iota in Hc.
    assert (0 ≤ Z.min r (lu_size u) * lu_price u) by (destruct H; nia).
    cbn [rounded_against]. unfold depth_scale in *. repeat split; u64_lia.
Qed.

(** The running state of a fill of an order of [m] base units. *)
Definition fill_is (side : OrderSide) (m : Z) (s : FillState) (f : list (Z * Z)) : Prop :=
  is_u64 (remaining s) ∧ 0 ≤ fill_shares s ≤ u64_max ∧ 0 ≤ fill_collateral s ≤ u64_max ∧
  fill_shares s = fill_total_shares f ∧ fill_levels s = Z.of_nat (length f) ∧
  rounded_against side (fill_value f) (fill_collateral s) (Z.of_nat (length f)) ∧
  Forall (λ '(sh, p), 0 < sh ∧ 0 < p < depth_scale) f ∧
  match side with BUY => fill_collateral s | SELL => fill_shares s end ≤ m - remaining s.

Lemma checked_add_Ok a b r :
  0 ≤ a ≤ u64_max → 0 ≤ b → checked_add a b = Ok r → r = a + b ∧ r ≤ u64_max.
Proof.
  unfold checked_add. intros Ha Hb. case_if; [done|]. intros [= <-]. bools.
  rewrite u64_id by u64_lia. lia.
Qed.

Lemma rounded_against_add side v c k v' c' :
  rounded_against side v c k → rounded_against side v' c' 1 →
  rounded_against side (v' + v) (c + c') (k + 1).
Proof. unfold rounded_against. destruct side; lia. Qed.

Lemma rounded_against_zero side p c : rounded_against side (0 * p) c 1 → c ≤ 0.
Proof. unfold rounded_against, depth_scale. destruct side; lia. Qed.

Lemma fill_visit_step side lim m s f level s' stop :
  fill_is side m s f → fill_visit side lim s level = Ok (s', stop) →
  ∃ f', fill_is side m s' f'.
Proof using Laws.
  intros (Hr & Hsh & Hco & Es & El & Hv & Hf & Hm). unfold fill_visit.
  destruct (beyond_limit side (price level) lim); [intros [= <- <-]; by exists f|].
  intros (u & Hu%level_units_Ok & H)%bind_Ok.
  apply bind_Ok in H as ([[sh co] partial] & Hfill & H).
  destruct (level_fill_spec _ _ _ _ _ _ Hu Hr Hfill) as (Hsz & Hc0 & Hra & Hle).
  destruct (Z.eqb_spec sh 0) as [->|Hnz]; cbn [negb] in H.
  - cbn in H. injection H as <- <-. exists f.
    apply rounded_against_zero in Hra. assert (co = 0) as -> by lia.
    assert (match side with BUY => 0 | SELL => 0 end = 0) as -> by (by destruct side).
    rewrite Z.sub_0_r, u64_id by done. unfold fill_is; cbn; tauto.
  - apply bind_Ok in H as ([[ts tc] n] & Hadd & [= <- <-]).
    apply bind_Ok in Hadd as (ts' & Hts & Hadd). apply bind_Ok in Hadd as (tc' & Htc & [= <- <- <-]).
    apply checked_add_Ok in Hts as [-> Hts]; [|lia|lia].
    apply checked_add_Ok in Htc as [-> Htc]; [|lia|lia].
    exists ((sh, lu_price u) :: f). destruct Hu as [Hp _].
    rewrite u64_id by (destruct side; u64_lia).
    unfold fill_is. cbn [remaining fill_shares fill_collateral fill_levels length fill_total_shares fill_value foldr].
    rewrite Nat2Z.inj_succ, <- Z.add_1_r.
    split_and!; try lia; try (destruct side; u64_lia).
    + unfold fill_total_shares in Es. lia.
    + by apply rounded_against_add.
    + constructor; [lia|done].
Qed.

Lemma visit_levels_inv {S} (P : S → Prop) (visit : S → PriceLevel → res (S * bool)) ls s s' :
  P s → (∀ s level s' stop, P s → visit s level = Ok (s', stop) → P s') →
  visit_levels visit ls s = Ok s' → P s'.
Proof.
  intros Hs Hstep. revert s Hs. induction ls as [|lv ls IH]; intros s Hs H; cbn in H.
  { by injection H as <-. }
  apply bind_Ok in H as ([s1 stop] & Hv & H).
  destruct stop; [injection H as <-; eauto|eauto].
Qed.
End Facts.

(** ** Properties *)

Section Properties.
Context {L : LongDouble} {Laws : LongDoubleLaws L} {Sort : StdSort}.

(** The accumulated depth decides coverage exactly: after any sequence of
    valid levels, the 64-bit accumulator covers a target if and only if the
    unbounded sum of size times price does, saturation and carries included. *)
Lemma notional_refines_exact_depth us target :
  Forall level_units_wf us → is_u64 target →
  notional_covers
    (foldl (λ n u, add_notional n (lu_size u) (lu_price u)) (MkNotional 0 0 false) us) target =
  (target * depth_scale <=? exact_notional us).
Proof using Type.
  intros Hus Ht. apply notional_covers_spec; [|done].
  assert (∀ n t, notional_is n t →
    notional_is (foldl (λ n u, add_notional n (lu_size u) (lu_price u)) n us)
      (t + exact_notional us)) as Hgen.
  { induction Hus as [|u us Hu _ IH]; intros n t Hn; cbn [foldl exact_notional foldr].
    - by rewrite Z.add_0_r.
    - rewrite Z.add_assoc. by apply IH, add_notional_spec. }
  specialize (Hgen (MkNotional 0 0 false) 0). rewrite Z.add_0_l in Hgen.
  apply Hgen. split_and!; cbn; unfold depth_scale; unfold is_u64, u64_max; lia.
Qed.


(** A simulated fill never spends more than the order would sign for, and
    each level is rounded against the caller by less than one base unit: there
    are per-level fills of positive shares that add up to the reported shares,
    as many as the reported levels, whose exact value brackets the reported
    collateral. *)
Lemma estimate_fill_sound book side amount tick est :
  estimate_market_depth book side amount tick = Ok est →
  ∃ p order fills,
    validate_order_price (est_price est) tick = Ok p ∧
    calculate_market_order_amounts side amount p = Ok order ∧
    Forall (λ '(sh, pr), 0 < sh ∧ 0 < pr < depth_scale) fills ∧
    share_units est = fill_total_shares fills ∧
    levels est = Z.of_nat (length fills) ∧
    rounded_against side (fill_value fills) (collateral_units est) (levels est) ∧
    match side with BUY => collateral_units est | SELL => share_units est end ≤ maker order.
Proof using Laws.
  unfold estimate_market_depth. intros (lim & Hlim & H)%bind_Ok.
  apply bind_Ok in H as (p & Hp & H). apply bind_Ok in H as (o & Ho & H).
  apply bind_Ok in H as (s & Hv & [= <-]).
  unfold visit_best_first in Hv. apply bind_Ok in Hv as (? & _ & Hv).
  pose proof (validate_order_price_Ok _ _ _ Hp) as (Hwf & _).
  pose proof (market_maker_u64 _ _ _ _ Hwf Ho) as Hm.
  assert (∃ f, fill_is side (maker o) s f) as (f & Hr & _ & _ & Es & El & Hra & Hf & Hle).
  { eapply (visit_levels_inv (λ s, ∃ f, fill_is side (maker o) s f)); [| |exact Hv].
    - exists []. unfold fill_is. cbn.
      split_and!; try done; unfold is_u64, u64_max in *; try lia; destruct side; cbn; lia.
    - intros s1 lv s2 stop [f1 Hf1] Hstep. by eapply fill_visit_step. }
  exists p, o, f. cbn. rewrite El. unfold is_u64 in Hr.
  split_and!; try done. destruct side; lia.
Qed.

(** The order in which a book lists a side does not matter: two listings of
    the same levels with finite, pairwise different prices are walked in the
    same order. *)
Lemma walk_ignores_listing ls1 ls2 side :
  ls1 ≡ₚ ls2 →
  Forall (λ lv, is_finite (price lv) = true) ls1 →
  (∀ l1 l2, l1 ∈ ls1 → l2 ∈ ls1 → feq (price l1) (price l2) = true → l1 = l2) →
  best_first ls1 side = best_first ls2 side.
Proof using Type.
  intros Hp Hfin Hdist. rewrite Forall_forall in Hfin.
  assert (∀ x y z, x ∈ ls1 → y ∈ ls1 → z ∈ ls1 → better side x y = false →
            better side y z = false → better side x z = false) as Htr.
  { intros x y z Hx%Hfin Hy%Hfin Hz%Hfin. destruct side; cbn; [by apply nlt_trans|].
    intros ??. by apply (nlt_trans _ (price y)). }
  assert (∀ x y, x ∈ ls1 → y ∈ ls1 → better side x y = true → better side y x = false) as Has.
  { intros x y Hx%Hfin Hy%Hfin. destruct side; cbn; by apply flt_asym. }
  assert (∀ ls, ls ≡ₚ ls1 → best_first ls side ≡ₚ ls1 ∧
            StronglySorted (λ x y, better side y x = false) (best_first ls side)) as Hbf.
  { intros ls Hls. assert (∀ x, x ∈ ls ↔ x ∈ ls1) as Hin by (intros; by rewrite Hls).
    assert (best_first ls side ≡ₚ ls ∧ is_sorted (better side) (best_first ls side) = true)
      as [Hperm Hs].
    { unfold best_first. repeat case_if; [done|split; [apply reverse_Permutation|done]|].
      split; [apply std_sort_perm|]. apply std_sort_sorted.
      - intros x y z. rewrite !Hin. apply Htr.
      - intros x y. rewrite !Hin. apply Has. }
    split; [by rewrite Hperm|]. apply is_sorted_strongly; [|done].
    intros x y z. rewrite !Hperm, !Hin. apply Htr. }
  destruct (Hbf ls1 ltac:(done)) as [Hp1 Hs1]. destruct (Hbf ls2 ltac:(done)) as [Hp2 Hs2].
  apply (StronglySorted_unique_strong (λ x y, better side y x = false)); [|done|done|by rewrite Hp1, Hp2].
  intros x y Hx Hy. rewrite Hp1 in Hx. rewrite Hp2 in Hy. cbn. intros H1 H2.
  apply Hdist; [done|done|].
  pose proof (Hfin _ Hx). pose proof (Hfin _ Hy).
  destruct side; cbn in H1, H2; by apply flt_total.
Qed.
End Properties.

(** ** Witnesses *)

Definition cents (p s : positive) : PriceLevel :=
  MkPriceLevel (of_ratio binary64 p 100) (of_Z binary64 (Zpos s)).

(** A book listed worst ask first. *)
Definition sample_book : Orderbook :=
  MkOrderbook "token" [cents 45 100; cents 44 10] [cents 57 200; cents 56 20; cents 55 30] 0.

Lemma notional_refines_exact_depth_witness :
  notional_covers
    (foldl (λ n u, add_notional n (lu_size u) (lu_price u)) (MkNotional 0 0 false)
       [MkLevelUnits 999999 u64_max; MkLevelUnits 550000 u64_max]) u64_max = true.
Proof.
  rewrite notional_refines_exact_depth; [by vm_compute| |by vm_compute].
  repeat constructor; cbn; unfold u64_max, depth_scale; lia.
Defined.


Lemma estimate_fill_sound_witness :
  match estimate_market_depth (L := x86_64_long_double) sample_book BUY (of_Z binary64 40) "0.01" with
  | Throw _ => False
  | Ok est => ∃ p order fills,
      validate_order_price (L := x86_64_long_double) (est_price est) "0.01" = Ok p ∧
      calculate_market_order_amounts (L := x86_64_long_double) BUY (of_Z binary64 40) p = Ok order ∧
      Forall (λ '(sh, pr), 0 < sh ∧ 0 < pr < depth_scale) fills ∧
      share_units est = fill_total_shares fills ∧
      levels est = Z.of_nat (length fills) ∧
      rounded_against BUY (fill_value fills) (collateral_units est) (levels est) ∧
      collateral_units est ≤ maker order
  end.
Proof.
  destruct (estimate_market_depth sample_book BUY _ _) as [est|e] eqn:E;
    [|vm_compute in E; discriminate E].
  exact (estimate_fill_sound (L := x86_64_long_double) sample_book BUY
           (of_Z binary64 40) "0.01" est E).
Defined.

Lemma walk_ignores_listing_witness :
  best_first [cents 55 30; cents 57 200; cents 56 20] BUY = best_first (asks sample_book) BUY.
Proof.
  apply walk_ignores_listing.
  - apply (bool_decide_unpack _). by vm_compute.
  - repeat constructor.
  - intros l1 l2 H1 H2. rewrite !list_elem_of_In in H1, H2. cbn in H1, H2.
    destruct H1 as [<-|[<-|[<-|[]]]], H2 as [<-|[<-|[<-|[]]]]; vm_compute; congruence.
Defined.
