(* ===== verification/EvmBytes.v ===== *)
(** * Hex, 32-byte words and RLP (src/order_signer.cpp, src/evm_uint.cpp,
    src/evm_rlp.cpp)

    Byte vectors are lists of integers below 256.  [from_hex]/[to_hex] are the
    client's only conversions between text and bytes, [parse_uint256_word] reads
    the unsigned integers users pass as text, and the [rlp_*] functions serialise
    transactions.  [rlp_decode] is a reference decoder, used to state that the
    serialisation is unambiguous. *)
From Stdlib Require Import Ascii String.
From S2P Require Import Prelude Text.

#[local] Open Scope Z_scope.

(** ** Hexadecimal text *)

Definition strip_0x (cs : list ascii) : list ascii :=
  match cs with
  | c :: x :: rest =>
      if bool_decide (c = "0"%char) && (bool_decide (x = "x"%char) || bool_decide (x = "X"%char))
      then rest else cs
  | _ => cs
  end.

Definition has_0x (cs : list ascii) : bool :=
  match cs with
  | c :: x :: _ =>
      bool_decide (c = "0"%char) && (bool_decide (x = "x"%char) || bool_decide (x = "X"%char))
  | _ => false
  end.

Definition checked_nibble (c : ascii) : res Z :=
  match nibble c with
  | Some d => Ok d
  | None => Throw (invalid_argument "hex input contains a non-hexadecimal character")
  end.

(** The loop over pairs of characters; the length is even. *)
Fixpoint hex_pairs (cs : list ascii) : res (list Z) :=
  match cs with
  | high :: low :: rest =>
      h ← checked_nibble high;
      l ← checked_nibble low;
      bytes ← hex_pairs rest;
      Ok (Z.lor (Z.shiftl h 4) l :: bytes)
  | _ => Ok []
  end.

Definition from_hex_chars (cs : list ascii) : res (list Z) :=
  let h := strip_0x cs in
  require (Nat.even (length h)) (invalid_argument "hex input must contain complete bytes");;
  hex_pairs h.

Definition from_hex (hex : string) : res (list Z) := from_hex_chars (chars hex).

Definition hex_chars (bytes : list Z) : list ascii :=
  flat_map (λ b, [digit_char (Z.shiftr b 4); digit_char (Z.land b 15)]) bytes.

Definition to_hex (bytes : list Z) : string := str ("0"%char :: "x"%char :: hex_chars bytes).

(** ** 32-byte words *)

Definition kWordSize : nat := 32.

(** One step of the schoolbook base conversion: [word * 10 + carry]. *)
Definition word_mul_add (word : list Z) (carry : Z) : list Z * Z :=
  foldr (λ b '(out, carry),
           let next := b * 10 + carry in (Z.land next 255 :: out, Z.shiftr next 8))
    ([], carry) word.

Fixpoint decimal_loop (cs : list ascii) (word : list Z) : res (list Z) :=
  match cs with
  | [] => Ok word
  | c :: cs =>
      require (is_decimal c)
        (invalid_argument "unsigned integer must be base-10 digits or 0x-hex");;
      let '(word, carry) := word_mul_add word (decimal_digit c) in
      require (carry =? 0) (invalid_argument "unsigned integer exceeds uint256");;
      decimal_loop cs word
  end.

Definition decimal_to_word (decimal : list ascii) : res (list Z) :=
  decimal_loop decimal (replicate kWordSize 0).

(** [digits.substr(digits.find_first_not_of('0'))] *)
Fixpoint skip_zeros (cs : list ascii) : list ascii :=
  match cs with
  | [] => []
  | c :: rest => if bool_decide (c = "0"%char) then skip_zeros rest else cs
  end.

Definition hex_to_word (digits : list ascii) : res (list Z) :=
  let digits := skip_zeros digits in
  require (bool_decide (length digits ≤ 2 * kWordSize)%nat)
    (invalid_argument "unsigned integer exceeds uint256");;
  let digits := if Nat.even (length digits) then digits else "0"%char :: digits in
  bytes ← rethrow_invalid (from_hex_chars digits)
            (invalid_argument "unsigned integer is not valid hex");
  Ok (replicate (kWordSize - length bytes) 0 ++ bytes).

Definition parse_uint256_word (text : string) : res (list Z) :=
  let cs := chars text in
  let is_hex := has_0x cs in
  require (negb (bool_decide (cs = []) || (is_hex && bool_decide (length cs = 2%nat))))
    (invalid_argument "unsigned integer is empty");;
  if is_hex then hex_to_word (drop 2 cs) else decimal_to_word cs.

Definition uint256_word (value : Z) : list Z :=
  replicate (kWordSize - 8) 0 ++
  map (λ i, Z.land (Z.shiftr value (8 * i)) 255) [7; 6; 5; 4; 3; 2; 1; 0].

(** ** RLP *)

(** [for (; length != 0; length >>= 8)]: a size has at most eight bytes. *)
Fixpoint length_bytes_loop (fuel : nat) (length : Z) (bytes : list Z) : list Z :=
  match fuel with
  | O => bytes
  | S fuel =>
      if length =? 0 then bytes
      else length_bytes_loop fuel (Z.shiftr length 8) (Z.land length 255 :: bytes)
  end.

Definition minimal_length_bytes (length : Z) : list Z := length_bytes_loop 8 length [].

Definition with_header (short_base long_base : Z) (payload : list Z) : list Z :=
  let size := Z.of_nat (length payload) in
  if size <? 56 then (short_base + size) mod 256 :: payload
  else
    let length_bytes := minimal_length_bytes size in
    (long_base + Z.of_nat (length length_bytes)) mod 256 :: length_bytes ++ payload.

Definition rlp_encode_bytes (bytes : list Z) : list Z :=
  match bytes with
  | [b] => if b <? 128 then [b] else with_header 128 183 bytes
  | _ => with_header 128 183 bytes
  end.

Fixpoint skip_zero_bytes (bytes : list Z) : list Z :=
  match bytes with
  | [] => []
  | b :: rest => if b =? 0 then skip_zero_bytes rest else bytes
  end.

Definition rlp_encode_uint (big_endian : list Z) : list Z :=
  rlp_encode_bytes (skip_zero_bytes big_endian).

Definition rlp_encode_list (encoded_items : list (list Z)) : list Z :=
  with_header 192 247 (concat encoded_items).

(** ** Specifications *)

Definition is_byte (b : Z) : Prop := 0 ≤ b < 256.
Abbreviation word_of := (be 256 32).
Abbreviation word_val := (val 256).

(** Value of a hexadecimal numeral. *)
Definition hex_val (cs : list ascii) : option Z :=
  val 16 <$> mapM nibble cs.

#[local] Set Warnings "-register-all".

(** What an RLP item stands for. *)
Inductive rlp_item :=
  | RlpBytes (bytes : list Z)
  | RlpList (items : list rlp_item).

Fixpoint rlp_encode (item : rlp_item) : list Z :=
  match item with
  | RlpBytes bytes => rlp_encode_bytes bytes
  | RlpList items => rlp_encode_list (map rlp_encode items)
  end.

(** The reference decoder reads one header and splits the payload off. *)
Definition rlp_take (n : Z) (bytes : list Z) : option (list Z * list Z) :=
  if n <=? Z.of_nat (length bytes)
  then Some (take (Z.to_nat n) bytes, drop (Z.to_nat n) bytes) else None.

Definition rlp_header (bytes : list Z) : option (bool * list Z * list Z) :=
  match bytes with
  | [] => None
  | b :: rest =>
      if b <? 128 then Some (false, [b], rest)
      else
        let '(is_list, base) := if b <? 192 then (false, 128) else (true, 192) in
        if b - base <? 56 then '(p, r) ← rlp_take (b - base) rest; Some (is_list, p, r)
        else
          '(l, rest) ← rlp_take (b - base - 55) rest;
          '(p, r) ← rlp_take (word_val l) rest; Some (is_list, p, r)
  end.

Fixpoint rlp_decode (fuel : nat) (bytes : list Z) : option (rlp_item * list Z) :=
  match fuel with
  | O => None
  | S fuel =>
      '(is_list, payload, rest) ← rlp_header bytes;
      if (is_list : bool) then items ← rlp_decode_items fuel payload; Some (RlpList items, rest)
      else Some (RlpBytes payload, rest)
  end
with rlp_decode_items (fuel : nat) (bytes : list Z) : option (list rlp_item) :=
  match fuel with
  | O => None
  | S fuel =>
      match bytes with
      | [] => Some []
      | _ =>
          '(item, rest) ← rlp_decode fuel bytes;
          items ← rlp_decode_items fuel rest;
          Some (item :: items)
      end
  end.

(** ** Lemmas on bytes and hex *)

Lemma byte_split b : is_byte b → Z.lor (Z.shiftl (Z.shiftr b 4) 4) (Z.land b 15) = b.
Proof.
  intros Hb. pose proof (below_spec 256
    (λ b, Z.lor (Z.shiftl (Z.shiftr b 4) 4) (Z.land b 15) =? b) ltac:(by vm_compute) b Hb) as H.
  by apply Z.eqb_eq in H.
Qed.

Lemma byte_nibbles b : is_byte b → 0 ≤ Z.shiftr b 4 < 16 ∧ 0 ≤ Z.land b 15 < 16.
Proof.
  intros Hb. rewrite Z.shiftr_div_pow2 by lia. change 15 with (Z.ones 4).
  rewrite Z.land_ones by lia. unfold is_byte in Hb.
  split; [split; [apply Z.div_pos; lia|apply Z.div_lt_upper_bound; lia]|apply Z.mod_pos_bound; lia].
Qed.

Lemma checked_nibble_digit d : 0 ≤ d < 16 → checked_nibble (digit_char d) = Ok d.
Proof. intros. unfold checked_nibble. by rewrite nibble_digit_char. Qed.

Lemma checked_nibble_Ok c d : checked_nibble c = Ok d ↔ nibble c = Some d.
Proof. unfold checked_nibble. destruct (nibble c); naive_solver. Qed.

Lemma hex_pairs_chars bytes : Forall is_byte bytes → hex_pairs (hex_chars bytes) = Ok bytes.
Proof.
  induction 1 as [|b bytes Hb _ IH]; [done|].
  cbn [hex_chars flat_map app hex_pairs]. destruct (byte_nibbles b Hb).
  rewrite !checked_nibble_digit by done. cbn [mbind res_bind].
  change (flat_map _ bytes) with (hex_chars bytes). rewrite IH. cbn. by rewrite byte_split.
Qed.

Lemma hex_chars_length bytes : length (hex_chars bytes) = (2 * length bytes)%nat.
Proof.
  induction bytes as [|b bytes IH]; [done|].
  change (S (S (length (hex_chars bytes))) = (2 * S (length bytes))%nat). rewrite IH. lia.
Qed.

Lemma hex_chars_app a b : hex_chars (a ++ b) = hex_chars a ++ hex_chars b.
Proof. apply flat_map_app. Qed.

Lemma even_double n : Nat.even (2 * n) = true.
Proof. apply Nat.even_spec. by exists n. Qed.

Lemma from_hex_to_hex bytes : Forall is_byte bytes → from_hex (to_hex bytes) = Ok bytes.
Proof.
  intros H. unfold from_hex, to_hex. rewrite chars_str. unfold from_hex_chars.
  change (strip_0x ("0"%char :: "x"%char :: hex_chars bytes)) with (hex_chars bytes).
  cbv zeta. rewrite hex_chars_length, even_double. by apply hex_pairs_chars.
Qed.

(** Every byte read from text is a byte, one per two characters. *)
Lemma hex_pairs_Ok n cs bytes :
  (length cs ≤ n)%nat → Nat.even (length cs) = true → hex_pairs cs = Ok bytes →
  Forall is_byte bytes ∧ length cs = (2 * length bytes)%nat ∧
  hex_val cs = Some (word_val bytes).
Proof.
  revert cs bytes. induction n as [|n IH]; intros cs bytes Hn He H.
  { destruct cs; [|cbn in Hn; lia]. injection H as <-. done. }
  destruct cs as [|h [|l cs]]; [by injection H as <-|done|]. cbn [hex_pairs] in H.
  apply bind_Ok in H as (a & Ha%checked_nibble_Ok & H).
  apply bind_Ok in H as (b & Hb%checked_nibble_Ok & H).
  apply bind_Ok in H as (bs & Hbs & [= <-]).
  destruct (IH cs bs ltac:(cbn in Hn; lia) He Hbs) as (Hf & Hl & Hv).
  pose proof (nibble_range _ _ Ha). pose proof (nibble_range _ _ Hb).
  assert (Z.lor (Z.shiftl a 4) b = a * 16 + b) as E.
  { rewrite Z.shiftl_mul_pow2 by lia. change (2 ^ 4) with 16.
    rewrite <- Z.add_nocarry_lor; [done|].
    apply Z.bits_inj'. intros i Hi. rewrite Z.land_spec, Z.bits_0.
    destruct (Z.ltb_spec i 4).
    - change 16 with (2 ^ 4). by rewrite Z.mul_pow2_bits_low.
    - rewrite (Z.bits_above_log2 b), andb_false_r; [done|lia|].
      destruct (decide (b = 0)) as [->|]; [cbn; lia|].
      apply Z.log2_lt_pow2; [lia|]. pose proof (Z.pow_le_mono_r 2 4 i ltac:(lia) ltac:(lia)). lia. }
  rewrite E. repeat split.
  - constructor; [unfold is_byte; lia|done].
  - cbn [length]. lia.
  - unfold hex_val in *. cbn [mapM]. rewrite Ha, Hb. cbn [mbind option_bind mret option_ret].
    destruct (mapM nibble cs) as [ds|] eqn:Eds; [|done]. cbn in Hv |- *. f_equal.
    injection Hv as Hv. apply length_mapM in Eds.
    rewrite (val_foldl 256), (val_foldl 16), Hv by lia.
    rewrite <- Eds, Hl, Nat2Z.inj_mul, Z.pow_mul_r by lia.
    change (16 ^ Z.of_nat 2) with 256. lia.
Qed.

(** ** Lemmas on words *)

Lemma word_of_length z : length (word_of z) = 32%nat.
Proof. apply be_length. Qed.

Lemma word_of_bytes z : Forall is_byte (word_of z).
Proof. by apply be_digits. Qed.

Lemma word_val_of z : 0 ≤ z < 2 ^ 256 → word_val (word_of z) = z.
Proof. intros. by apply val_be_small. Qed.

Lemma word_of_val w : Forall is_byte w → length w = 32%nat → word_of (word_val w) = w.
Proof. intros Hw Hl.  rewrite <- Hl. by apply be_val. Qed.

Lemma uint256_word_spec v : is_u64 v → uint256_word v = word_of v.
Proof.
  intros Hv. apply (val_inj 256); [lia| | |by rewrite be_length|].
  - apply Forall_app. split.
    + apply Forall_replicate. unfold is_digit_of. lia.
    + apply Forall_map, Forall_forall. intros i _. change 255 with (Z.ones 8).
      unfold compose. rewrite Z.land_ones by lia. apply Z.mod_pos_bound. lia.
  - by apply be_digits.
  - rewrite val_be_small; [|lia|unfold is_u64, u64_max in Hv; lia].
    unfold uint256_word. rewrite val_zeros by lia. cbn [map]. change 255 with (Z.ones 8).
    rewrite !Z.land_ones, !Z.shiftr_div_pow2 by lia.
    unfold val. cbn [foldl]. unfold is_u64, u64_max in Hv.
    Z.div_mod_to_equations. lia.
Qed.

Lemma word_mul_add_spec w c w' c' :
  Forall is_byte w → 0 ≤ c < 10 → word_mul_add w c = (w', c') →
  Forall is_byte w' ∧ length w' = length w ∧ 0 ≤ c' < 10 ∧
  c' * 256 ^ Z.of_nat (length w) + word_val w' = word_val w * 10 + c.
Proof.
  intros Hw Hc. revert w' c'. unfold word_mul_add.
  induction Hw as [|b w Hb _ IH]; intros w' c' H; cbn in H.
  { injection H as <- <-. change (word_val []) with 0. cbn. repeat split; [constructor|lia..]. }
  destruct (foldr _ _ w) as [w1 c1]. destruct (IH _ _ eq_refl) as (Hf & Hl & Hc1 & Hv).
  injection H as <- <-. unfold is_byte in Hb. rewrite Z.shiftr_div_pow2 by lia.
  change 255 with (Z.ones 8). rewrite Z.land_ones by lia. change (2 ^ 8) with 256.
  pose proof (Z.mod_pos_bound (b * 10 + c1) 256 ltac:(lia)).
  pose proof (Z.div_mod (b * 10 + c1) 256 ltac:(lia)) as Hdm.
  split_and!; [constructor; done|cbn; lia|apply Z.div_pos; lia|apply Z.div_lt_upper_bound; lia|].
  rewrite !(val_cons 256) by lia. rewrite Hl. cbn [length].
  rewrite Nat2Z.inj_succ, Z.pow_succ_r by lia.
  set (p := 256 ^ Z.of_nat (length w)) in *. nia.
Qed.

Lemma word_val_bounds w : Forall is_byte w → 0 ≤ word_val w < 256 ^ Z.of_nat (length w).
Proof. apply val_bounds. lia. Qed.

Definition exceeds_uint256 {A} : res A :=
  Throw (invalid_argument "unsigned integer exceeds uint256").

Lemma decimal_loop_spec cs w :
  all_decimal cs = true → Forall is_byte w → length w = 32%nat →
  let v := word_val w * 10 ^ Z.of_nat (length cs) + decimal_val cs in
  decimal_loop cs w = if v <? 2 ^ 256 then Ok (word_of v) else exceeds_uint256.
Proof.
  revert w. induction cs as [|c cs IH]; intros w Hd Hw Hl; cbv zeta.
  { cbn [decimal_loop length]. change (decimal_val []) with 0. rewrite Z.mul_1_r, Z.add_0_r.
    pose proof (word_val_bounds w Hw) as B. rewrite Hl in B.
    destruct (Z.ltb_spec (word_val w) (2 ^ 256)); [|lia]. by rewrite word_of_val. }
  cbn in Hd. apply andb_true_iff in Hd as [Hc Hd]. cbn [decimal_loop]. rewrite Hc.
  cbn [require mbind res_bind].
  pose proof (decimal_digit_range c Hc) as Hr.
  destruct (word_mul_add w (decimal_digit c)) as [w1 c1] eqn:E.
  destruct (word_mul_add_spec _ _ _ _ Hw Hr E) as (Hw1 & Hl1 & Hc1 & Hv).
  pose proof (val_bounds 10 ltac:(lia) _ (all_decimal_digits _ Hd)) as Bd.
  assert (decimal_val (c :: cs) = decimal_digit c * 10 ^ Z.of_nat (length cs) + decimal_val cs) as Ed.
  { unfold decimal_val. cbn [map]. rewrite val_cons by lia. by rewrite length_map. }
  rewrite length_map in Bd. fold (decimal_val cs) in Bd.
  rewrite Ed. cbn [length]. rewrite Nat2Z.inj_succ, Z.pow_succ_r by lia.
  pose proof (word_val_bounds w1 Hw1) as B1. rewrite Hl1 in B1. rewrite Hl in B1, Hv.
  change (256 ^ Z.of_nat 32) with (2 ^ 256) in *.
  set (p := 10 ^ Z.of_nat (length cs)) in *. assert (1 ≤ p) by lia.
  assert (word_val w * (10 * p) + (decimal_digit c * p + decimal_val cs) =
          (c1 * 2 ^ 256 + word_val w1) * p + decimal_val cs) as -> by (rewrite Hv; ring).
  destruct (Z.eqb_spec c1 0) as [->|Hnz]; cbn [require mbind res_bind].
  - rewrite IH by (done || lia). by rewrite Z.mul_0_l, Z.add_0_l.
  - destruct (Z.ltb_spec ((c1 * 2 ^ 256 + word_val w1) * p + decimal_val cs) (2 ^ 256)); [nia|done].
Qed.

(** What a text denotes as an unsigned integer: [0x] and hexadecimal digits, or
    decimal digits. *)
Definition numeral_value (text : string) : option Z :=
  let cs := chars text in
  if has_0x cs then if bool_decide (drop 2 cs = []) then None else hex_val (drop 2 cs)
  else if bool_decide (cs = []) || negb (all_decimal cs) then None else Some (decimal_val cs).

Lemma hex_val_digits cs v :
  hex_val cs = Some v → ∃ ds, mapM nibble cs = Some ds ∧ val 16 ds = v ∧
    Forall (is_digit_of 16) ds ∧ length ds = length cs.
Proof.
  unfold hex_val. intros (ds & Hds & ->)%fmap_Some. exists ds.
  pose proof (length_mapM _ _ _ Hds). split_and!; [done|done| |by symmetry].
  apply mapM_Some in Hds. induction Hds as [|c d cs ds Hc _ IH]; [constructor|].
  constructor; [by apply nibble_range in Hc|]. apply IH. by injection H.
Qed.

Lemma hex_val_cons c cs v :
  hex_val (c :: cs) = Some v ↔
  ∃ d w, nibble c = Some d ∧ hex_val cs = Some w ∧ v = d * 16 ^ Z.of_nat (length cs) + w.
Proof.
  unfold hex_val. cbn [mapM]. destruct (nibble c) as [d|]; [|cbn; naive_solver].
  destruct (mapM nibble cs) as [ds|] eqn:E; [|cbn; naive_solver].
  apply length_mapM in E. rewrite E.
  cbn [mbind option_bind mret option_ret fmap option_fmap option_map].
  rewrite (val_cons 16) by lia. naive_solver.
Qed.

Lemma nibble_zero c : nibble c = Some 0 → c = "0"%char.
Proof.
  pose proof (all_chars_spec (λ c, negb (bool_decide (nibble c = Some 0)) || bool_decide (c = "0"%char))
    ltac:(by vm_compute) c) as H. cbv beta in H. intros E. rewrite E in H.
  by apply bool_decide_eq_true in H.
Qed.

(** Skipping leading zeros keeps the value and leaves a non-zero leading digit. *)
Lemma skip_zeros_spec cs v :
  hex_val cs = Some v →
  hex_val (skip_zeros cs) = Some v ∧ (skip_zeros cs = [] ∨ 16 ^ (Z.of_nat (length (skip_zeros cs)) - 1) ≤ v).
Proof.
  revert v. induction cs as [|c cs IH]; intros v Hv; [by split; [|left]|].
  pose proof Hv as (d & w & Hd & Hw & ->)%hex_val_cons. cbn [skip_zeros].
  case_bool_decide as Hc.
  { subst c. injection Hd as <-. rewrite Z.mul_0_l, Z.add_0_l. by apply IH. }
  split; [done|]. right. cbn [length]. rewrite Nat2Z.inj_succ.
  assert (d ≠ 0) by (intros ->; by apply nibble_zero in Hd).
  pose proof (nibble_range _ _ Hd).
  destruct (hex_val_digits _ _ Hw) as (ds & _ & <- & Hf & Hl).
  pose proof (val_bounds 16 ltac:(lia) _ Hf). rewrite Hl in *.
  replace (Z.succ (Z.of_nat (length cs)) - 1) with (Z.of_nat (length cs)) by lia. nia.
Qed.

Lemma hex_pairs_total n cs v :
  (length cs ≤ n)%nat → Nat.even (length cs) = true → hex_val cs = Some v →
  ∃ bytes, hex_pairs cs = Ok bytes.
Proof.
  revert cs v. induction n as [|n IH]; intros cs v Hn He Hv.
  { destruct cs; [by exists []|cbn in Hn; lia]. }
  destruct cs as [|h [|l cs]]; [by exists []|done|].
  apply hex_val_cons in Hv as (a & w & Ha & Hw & _). apply hex_val_cons in Hw as (b & w' & Hb & Hw' & _).
  destruct (IH cs w' ltac:(cbn in Hn; lia) He Hw') as [bs Hbs].
  cbn [hex_pairs]. apply checked_nibble_Ok in Ha, Hb. rewrite Ha, Hb, Hbs. cbn. by eexists.
Qed.

Lemma strip_0x_nibble c cs : nibble c ≠ None → strip_0x ("0"%char :: c :: cs) = "0"%char :: c :: cs.
Proof.
  intros Hc. cbn [strip_0x]. repeat case_bool_decide; try done; subst; by vm_compute in Hc.
Qed.

Lemma strip_0x_nonzero c cs : c ≠ "0"%char → strip_0x (c :: cs) = c :: cs.
Proof. intros Hc. destruct cs as [|x cs]; [done|]. cbn. by rewrite bool_decide_false. Qed.

Lemma skip_zeros_head c cs ds : skip_zeros cs = c :: ds → c ≠ "0"%char.
Proof.
  induction cs as [|d cs IH]; [done|]. cbn. case_bool_decide; [done|]. by intros [= <- <-].
Qed.

(** The digits as [from_hex] receives them are an even number of valid digits. *)
Lemma from_hex_padded cs v :
  hex_val cs = Some v → match cs with c :: _ => c ≠ "0"%char | [] => True end →
  ∃ bytes,
    from_hex_chars (if Nat.even (length cs) then cs else "0"%char :: cs) = Ok bytes ∧
    Forall is_byte bytes ∧ word_val bytes = v ∧ (2 * length bytes ≤ S (length cs))%nat.
Proof.
  intros Hv Hc. unfold from_hex_chars.
  set (ds := if Nat.even (length cs) then cs else "0"%char :: cs).
  assert (strip_0x ds = ds ∧ Nat.even (length ds) = true ∧ hex_val ds = Some v ∧
          (length ds ≤ S (length cs))%nat) as (-> & He & Hv' & Hl).
  { subst ds. destruct (Nat.even (length cs)) eqn:E.
    - split_and!; [|done|done|lia]. destruct cs; [done|]. by apply strip_0x_nonzero.
    - destruct cs as [|c cs]; [done|]. split_and!.
      + apply strip_0x_nibble. apply hex_val_cons in Hv as (? & ? & -> & _). done.
      + cbn [length] in *. by rewrite Nat.even_succ, <- Nat.negb_even, E.
      + apply hex_val_cons. exists 0, v. done.
      + cbn. lia. }
  rewrite He. destruct (hex_pairs_total (length ds) ds v ltac:(lia) He Hv') as [bytes Hb].
  exists bytes. destruct (hex_pairs_Ok (length ds) ds bytes ltac:(lia) He Hb) as (Hf & Hlen & Hw).
  rewrite Hb. split_and!; [done|done| |lia]. rewrite Hw in Hv'. by injection Hv'.
Qed.

Lemma hex_to_word_spec cs v :
  hex_val cs = Some v →
  hex_to_word cs = if v <? 2 ^ 256 then Ok (word_of v) else exceeds_uint256.
Proof.
  intros [Hv Hlow]%skip_zeros_spec. unfold hex_to_word.
  pose proof (skip_zeros_head) as Hh. specialize (λ c ds, Hh c cs ds).
  destruct (hex_val_digits _ _ Hv) as (ds & _ & Ev & Hf & Hl).
  pose proof (val_bounds 16 ltac:(lia) _ Hf) as Hb. rewrite Ev, Hl in Hb.
  set (l := skip_zeros cs) in *. cbv zeta. unfold kWordSize.
  assert (bool_decide (length l ≤ 2 * 32)%nat = (v <? 2 ^ 256)) as ->.
  { destruct (Z.ltb_spec v (2 ^ 256)) as [H|H]; case_bool_decide as Hle; try done; exfalso.
    - destruct Hlow as [E|Hlow]; [rewrite E in Hle; cbn in Hle; lia|].
      assert (16 ^ 64 ≤ 16 ^ (Z.of_nat (length l) - 1)) by (apply Z.pow_le_mono_r; lia).
      change (2 ^ 256) with (16 ^ 64) in H. lia.
    - assert (16 ^ Z.of_nat (length l) ≤ 16 ^ 64) by (apply Z.pow_le_mono_r; lia).
      change (2 ^ 256) with (16 ^ 64) in H. lia. }
  destruct (Z.ltb_spec v (2 ^ 256)) as [Hlt|]; [|done]. cbn [require mbind res_bind].
  destruct (from_hex_padded l v Hv) as (bytes & -> & Hbytes & Hval & Hlen).
  { destruct l eqn:E; [done|]. by eapply Hh. }
  cbn [rethrow_invalid mbind res_bind]. f_equal. rewrite <- Hval.
  apply (val_inj 256); [lia| | | |].
  - apply Forall_app. split; [|done]. apply Forall_replicate. unfold is_digit_of. lia.
  - apply word_of_bytes.
  - rewrite length_app, length_replicate, word_of_length.
    assert (length l ≤ 64)%nat; [|lia].
    destruct Hlow as [->|Hlow]; [cbn; lia|].
    destruct (decide (length l ≤ 64)%nat); [done|exfalso].
    assert (16 ^ 64 ≤ 16 ^ (Z.of_nat (length l) - 1)) by (apply Z.pow_le_mono_r; lia).
    change (2 ^ 256) with (16 ^ 64) in Hlt. lia.
  - rewrite val_zeros by lia. symmetry. apply (word_val_of (word_val bytes)). lia.
Qed.

Lemma parse_decimal cs :
  cs ≠ [] → all_decimal cs = true →
  parse_uint256_word (str cs) =
    if decimal_val cs <? 2 ^ 256 then Ok (word_of (decimal_val cs)) else exceeds_uint256.
Proof.
  intros Hne Hd. unfold parse_uint256_word. rewrite chars_str.
  assert (has_0x cs = false) as ->.
  { destruct cs as [|c [|x cs]]; try done. cbn in Hd. apply andb_true_iff in Hd as [_ Hd].
    apply andb_true_iff in Hd as [Hx _]. cbn.
    apply andb_false_iff. right. apply orb_false_iff.
    split; apply bool_decide_eq_false; intros ->; by vm_compute in Hx. }
  rewrite bool_decide_false by done. cbn [andb orb negb require mbind res_bind].
  unfold decimal_to_word. rewrite decimal_loop_spec; [|done| |by rewrite length_replicate].
  - rewrite <- (app_nil_r (replicate _ _)), val_zeros by lia. done.
  - apply Forall_replicate. unfold is_byte. lia.
Qed.

(** Whatever is read is a 32-byte word. *)
Lemma decimal_loop_wf cs w r :
  Forall is_byte w → decimal_loop cs w = Ok r → Forall is_byte r ∧ length r = length w.
Proof.
  revert w. induction cs as [|c cs IH]; intros w Hw H; [by injection H as <-|].
  cbn [decimal_loop] in H. apply bind_Ok in H as (? & Hc%require_Ok & H).
  destruct (word_mul_add w (decimal_digit c)) as [w1 c1] eqn:E.
  apply bind_Ok in H as (? & _ & H).
  destruct (word_mul_add_spec _ _ _ _ Hw (decimal_digit_range c Hc) E) as (Hw1 & Hl1 & _).
  destruct (IH w1 Hw1 H). split; [done|lia].
Qed.

Lemma parse_uint256_word_wf text w :
  parse_uint256_word text = Ok w → Forall is_byte w ∧ length w = 32%nat.
Proof.
  unfold parse_uint256_word. intros (? & _ & H)%bind_Ok. destruct (has_0x _).
  - unfold hex_to_word in H. apply bind_Ok in H as (? & Hl%require_Ok & H).
    apply bool_decide_eq_true in Hl.
    apply bind_Ok in H as (bytes & Hb%rethrow_invalid_Ok & [= <-]).
    set (ds := skip_zeros _) in *. unfold from_hex_chars in Hb.
    set (es := if Nat.even (length ds) then ds else "0"%char :: ds) in *.
    apply bind_Ok in Hb as (? & He%require_Ok & Hb).
    destruct (hex_pairs_Ok _ _ _ (le_n _) He Hb) as (Hf & Hlen & _).
    assert (length (strip_0x es) ≤ length es)%nat as Hs.
    { destruct es as [|c0 [|c1 es']]; [done|done|]. cbn [strip_0x]. case_if; cbn; lia. }
    assert (length es ≤ 64)%nat as Hes.
    { subst es. unfold kWordSize in Hl. destruct (Nat.even (length ds)) eqn:E; [lia|].
      cbn [length]. destruct (decide (length ds = 64%nat)) as [E'|]; [by rewrite E' in E|lia]. }
    split; [|rewrite length_app, length_replicate; unfold kWordSize; lia].
    apply Forall_app. split; [|done]. apply Forall_replicate. unfold is_byte. lia.
  - apply decimal_loop_wf in H as [? Hl]; [by rewrite length_replicate in Hl|].
    apply Forall_replicate. unfold is_byte. lia.
Qed.

(** Unsigned integers are read exactly: a decimal numeral, or hexadecimal
    digits after [0x], gives the big-endian 32-byte word of its value, however
    many leading zeros it has, and the "exceeds uint256" error from 2^256 on. *)
Lemma parse_uint256_word_exact text v :
  numeral_value text = Some v →
  parse_uint256_word text =
    if v <? 2 ^ 256 then Ok (word_of v)
    else Throw (invalid_argument "unsigned integer exceeds uint256").
Proof.
  unfold numeral_value. rewrite <- (str_chars text). set (cs := chars text).
  rewrite chars_str. destruct (has_0x cs) eqn:Ex.
  - case_bool_decide as Hne; [done|]. intros Hv. unfold parse_uint256_word.
    rewrite chars_str, Ex. destruct cs as [|c [|x [|d cs]]]; try done.
    cbn [drop] in *. rewrite bool_decide_false by done.
    cbn [andb orb negb require mbind res_bind length drop].
    rewrite bool_decide_false by done. cbn [negb require mbind res_bind].
    by apply hex_to_word_spec.
  - case_bool_decide as Hne; [done|]. cbn [orb]. destruct (all_decimal cs) eqn:Ed; [|done].
    intros [= <-]. by apply parse_decimal.
Qed.

(** Text that is no numeral can be accepted: a second [x] after the prefix is
    stripped again by [from_hex] once the digits are padded to an even count, so
    [0xx12] reads as 0x12. *)
Lemma parse_uint256_word_accepts_double_x cs v :
  hex_val cs = Some v → Nat.even (length cs) = true → (length cs ≤ 62)%nat →
  numeral_value (str ("0" :: "x" :: "x" :: cs)%char) = None ∧
  parse_uint256_word (str ("0" :: "x" :: "x" :: cs)%char) = Ok (word_of v).
Proof.
  intros Hv He Hl. split.
  { unfold numeral_value. by rewrite chars_str. }
  unfold parse_uint256_word. rewrite chars_str.
  assert (has_0x ("0" :: "x" :: "x" :: cs)%char = true) as -> by done.
  rewrite (bool_decide_false (_ = [])) by done. cbn [length].
  rewrite (bool_decide_false (_ = 2%nat)) by lia. cbn [orb andb negb require mbind res_bind drop].
  unfold hex_to_word.
  assert (skip_zeros ("x"%char :: cs) = "x"%char :: cs) as -> by done. cbv zeta. cbn [length].
  unfold kWordSize. rewrite bool_decide_true by lia. cbn [require mbind res_bind].
  rewrite Nat.even_succ, <- Nat.negb_even, He. cbn [negb].
  unfold from_hex_chars.
  assert (strip_0x ("0" :: "x" :: cs)%char = cs) as -> by done. cbv zeta.
  rewrite He. cbn [require mbind res_bind].
  destruct (hex_pairs_total (length cs) cs v ltac:(lia) He Hv) as [bytes Hb]. rewrite Hb.
  destruct (hex_pairs_Ok (length cs) cs bytes ltac:(lia) He Hb) as (Hf & Hlen & Hw).
  rewrite Hv in Hw. injection Hw as ->. cbn [rethrow_invalid mbind res_bind]. f_equal.
  apply (val_inj 256); [lia| |apply word_of_bytes| |].
  - apply Forall_app. split; [|done]. apply Forall_replicate. unfold is_digit_of. lia.
  - rewrite length_app, length_replicate, word_of_length. lia.
  - rewrite val_zeros by lia. symmetry. apply (word_val_of (word_val bytes)). pose proof (word_val_bounds bytes Hf) as B.
    assert (256 ^ Z.of_nat (length bytes) ≤ 256 ^ 32) by (apply Z.pow_le_mono_r; lia).
    change (2 ^ 256) with (256 ^ 32). lia.
Qed.

(** ** Lemmas on RLP *)

Lemma shiftr8_div n : Z.shiftr n 8 = n / 256.
Proof. by rewrite Z.shiftr_div_pow2. Qed.

Lemma land255_mod n : Z.land n 255 = n mod 256.
Proof. change 255 with (Z.ones 8). by rewrite Z.land_ones. Qed.

Lemma length_bytes_loop_spec fuel n acc :
  0 < n < 256 ^ Z.of_nat fuel → length_bytes_loop fuel n acc = digits 256 n ++ acc.
Proof.
  revert n acc. induction fuel as [|fuel IH]; intros n acc Hn; [cbn in Hn; lia|].
  cbn [length_bytes_loop]. destruct (Z.eqb_spec n 0); [lia|].
  rewrite shiftr8_div, land255_mod, (digits_unfold 256) by lia.
  rewrite Nat2Z.inj_succ, Z.pow_succ_r in Hn by lia.
  destruct (Z.ltb_spec n 256).
  - rewrite Z.div_small by lia. by destruct fuel.
  - rewrite IH, <- app_assoc; [done|]. split; [apply Z.div_str_pos; lia|].
    apply Z.div_lt_upper_bound; lia.
Qed.

Lemma minimal_length_bytes_spec n :
  0 < n < 2 ^ 64 →
  minimal_length_bytes n = digits 256 n ∧ (1 ≤ length (digits 256 n) ≤ 8)%nat.
Proof.
  intros Hn. unfold minimal_length_bytes. rewrite length_bytes_loop_spec by (cbn; lia).
  rewrite app_nil_r. split; [done|]. split.
  - destruct (digits_head 256 ltac:(lia) n ltac:(lia)) as (d & ds & -> & _). cbn. lia.
  - apply (digits_length 256); [lia|cbn; lia|lia].
Qed.

Lemma rlp_take_app p rest : rlp_take (Z.of_nat (length p)) (p ++ rest) = Some (p, rest).
Proof.
  unfold rlp_take. rewrite length_app, Nat2Z.inj_add.
  destruct (Z.leb_spec (Z.of_nat (length p)) (Z.of_nat (length p) + Z.of_nat (length rest))); [|lia].
  by rewrite Nat2Z.id, take_app_length, drop_app_length.
Qed.

(** The reader takes back what [with_header] wrote. *)
Lemma rlp_header_with_header is_list payload rest :
  Z.of_nat (length payload) < 2 ^ 64 →
  (if is_list : bool then True else ∀ b, payload = [b] → 128 ≤ b) →
  rlp_header ((if is_list : bool then with_header 192 247 payload
               else with_header 128 183 payload) ++ rest) = Some (is_list, payload, rest).
Proof.
  intros Hlen Hsingle.
  assert (∀ base, base = (if is_list : bool then 192 else 128) →
    rlp_header (with_header base (base + 55) payload ++ rest) = Some (is_list, payload, rest)) as H.
  { intros base Hbase. unfold with_header.
    set (n := Z.of_nat (length payload)) in *.
    assert (∀ b, base ≤ b < base + 64 → (b <? 128) = false ∧
      (if b <? 192 then (false, 128) else (true, 192)) = (is_list, base)) as Hb.
    { intros b Hb. destruct (Z.ltb_spec b 128); [destruct is_list; lia|]. split; [done|].
      destruct (Z.ltb_spec b 192), is_list; subst base; done || lia. }
    destruct (Z.ltb_spec n 56) as [Hs|Hs].
    - cbn [app rlp_header]. rewrite Z.mod_small by (destruct is_list; lia).
      destruct (Hb (base + n) ltac:(lia)) as [-> ->].
      replace (base + n - base) with n by lia. destruct (Z.ltb_spec n 56); [|lia].
      subst n. by rewrite rlp_take_app.
    - destruct (minimal_length_bytes_spec n ltac:(lia)) as [-> Hl].
      set (k := Z.of_nat (length (digits 256 n))) in *. cbn [app rlp_header].
      rewrite Z.mod_small by (destruct is_list; lia).
      destruct (Hb (base + 55 + k) ltac:(lia)) as [-> ->].
      replace (base + 55 + k - base) with (55 + k) by lia.
      destruct (Z.ltb_spec (55 + k) 56); [lia|]. replace (55 + k - 55) with k by lia.
      subst k. rewrite <- app_assoc, rlp_take_app. cbn [mbind option_bind].
      rewrite val_digits by lia. subst n. by rewrite rlp_take_app. }
  destruct is_list; [by apply (H 192)|by apply (H 128)].
Qed.

Lemma rlp_header_bytes bytes rest :
  Forall is_byte bytes → Z.of_nat (length bytes) < 2 ^ 64 →
  rlp_header (rlp_encode_bytes bytes ++ rest) = Some (false, bytes, rest).
Proof.
  intros Hb Hl. unfold rlp_encode_bytes.
  assert ((∀ b, bytes = [b] → 128 ≤ b) →
          rlp_header (with_header 128 183 bytes ++ rest) = Some (false, bytes, rest)) as H.
  { intros. by apply (rlp_header_with_header false). }
  destruct bytes as [|b [|c bytes]]; [by apply H| |by apply H].
  destruct (Z.ltb_spec b 128) as [Hlt|Hge].
  - cbn. by rewrite (proj2 (Z.ltb_lt b 128)).
  - apply H. by intros ? [= <-].
Qed.

Lemma with_header_length sb lb p : (length p < length (with_header sb lb p))%nat.
Proof. unfold with_header. case_if; cbn; rewrite ?length_app; lia. Qed.

Lemma rlp_encode_bytes_length p : (length p ≤ length (rlp_encode_bytes p) ∧ 0 < length (rlp_encode_bytes p))%nat.
Proof.
  unfold rlp_encode_bytes. pose proof (with_header_length 128 183 p).
  destruct p as [|b [|c p]]; [lia| |lia]. case_if; [cbn; lia|lia].
Qed.

(** ** Items *)

Fixpoint rlp_bytes (item : rlp_item) : Prop :=
  match item with
  | RlpBytes bytes => Forall is_byte bytes
  | RlpList items => foldr (λ i P, rlp_bytes i ∧ P) True items
  end.

(** Fuel that suffices to decode an item. *)
Fixpoint rlp_weight (item : rlp_item) : nat :=
  match item with
  | RlpBytes _ => 1
  | RlpList items => 2 + foldr (λ i n, (1 + rlp_weight i + n)%nat) O items
  end.

Lemma rlp_item_induction (P : rlp_item → Prop) :
  (∀ bytes, P (RlpBytes bytes)) →
  (∀ items, Forall P items → P (RlpList items)) → ∀ item, P item.
Proof.
  intros Hb Hl. fix IH 1. intros [bytes|items]; [apply Hb|]. apply Hl.
  induction items as [|item items IHitems]; constructor; [apply IH|apply IHitems].
Qed.

Lemma rlp_encode_nonempty item : (0 < length (rlp_encode item))%nat.
Proof.
  destruct item as [bytes|items]; cbn; [apply rlp_encode_bytes_length|].
  unfold rlp_encode_list. pose proof (with_header_length 192 247 (concat (map rlp_encode items))). lia.
Qed.

Lemma rlp_decode_encode item fuel rest :
  rlp_bytes item → Z.of_nat (length (rlp_encode item)) < 2 ^ 64 → (rlp_weight item ≤ fuel)%nat →
  rlp_decode fuel (rlp_encode item ++ rest) = Some (item, rest).
Proof.
  revert fuel rest. induction item as [bytes|items IH] using rlp_item_induction;
    intros [|fuel] rest Hb Hl Hw; try (cbn in Hw; lia).
  { cbn [rlp_decode rlp_encode]. cbn in Hl. destruct (rlp_encode_bytes_length bytes) as [? _].
    rewrite rlp_header_bytes; [done|exact Hb|lia]. }
  cbn [rlp_decode rlp_encode]. cbn [rlp_encode] in Hl. unfold rlp_encode_list in *.
  set (payload := concat (map rlp_encode items)) in *.
  pose proof (with_header_length 192 247 payload) as Hpl.
  rewrite (rlp_header_with_header true) by (done || lia). cbn [mbind option_bind].
  assert (∀ fuel, (1 + foldr (λ i n, (1 + rlp_weight i + n)%nat) O items ≤ fuel)%nat →
    rlp_decode_items fuel payload = Some items) as ->; [|done|cbn [rlp_weight] in Hw; lia].
  clear fuel Hw. subst payload. cbn in Hb.
  assert (Z.of_nat (length (concat (map rlp_encode items))) < 2 ^ 64) as Hc by lia. clear Hl Hpl.
  induction IH as [|item items Hitem _ IHl]; intros [|fuel] Hw; try (cbn in Hw; lia); [done|].
  cbn [foldr] in Hb, Hw. destruct Hb as [Hb1 Hb2]. cbn [map concat] in Hc |- *.
  rewrite length_app in Hc. pose proof (rlp_encode_nonempty item).
  cbn [rlp_decode_items]. destruct (rlp_encode item ++ _) eqn:E.
  { apply app_eq_nil in E as [E _]. rewrite E in *. cbn in *. lia. }
  rewrite <- E, Hitem by (done || lia). cbn [mbind option_bind].
  by rewrite IHl by (done || lia).
Qed.

(** Shortest big-endian bytes of a number, none for zero. *)
Definition minimal_bytes (n : Z) : list Z := if n =? 0 then [] else digits 256 n.

Lemma skip_zero_bytes_spec bytes :
  Forall is_byte bytes → skip_zero_bytes bytes = minimal_bytes (word_val bytes).
Proof.
  induction 1 as [|b bytes Hb Hf IH]; [done|]. cbn [skip_zero_bytes].
  rewrite (val_cons 256) by lia. pose proof (word_val_bounds bytes Hf) as B.
  destruct (Z.eqb_spec b 0) as [->|Hnz]; [by rewrite IH|].
  unfold is_byte in Hb. unfold minimal_bytes.
  destruct (Z.eqb_spec (b * 256 ^ Z.of_nat (length bytes) + word_val bytes) 0); [nia|].
  rewrite <- (val_cons 256), (digits_val 256) by (lia || by constructor). done.
Qed.

Lemma rlp_encode_uint_spec bytes :
  Forall is_byte bytes → rlp_encode_uint bytes = rlp_encode (RlpBytes (minimal_bytes (word_val bytes))).
Proof. intros H. unfold rlp_encode_uint. by rewrite skip_zero_bytes_spec. Qed.

Lemma minimal_bytes_bytes n : 0 ≤ n → Forall is_byte (minimal_bytes n).
Proof. intros. unfold minimal_bytes. case_if; [constructor|by apply digits_in_base]. Qed.

Lemma with_header_bytes sb lb p :
  Forall is_byte p → Z.of_nat (length p) < 2 ^ 64 → Forall is_byte (with_header sb lb p).
Proof.
  intros Hp Hl. unfold with_header. case_if; bools.
  - constructor; [apply Z.mod_pos_bound; lia|done].
  - constructor; [apply Z.mod_pos_bound; lia|]. apply Forall_app. split; [|done].
    destruct (minimal_length_bytes_spec (Z.of_nat (length p)) ltac:(lia)) as [-> _].
    apply digits_in_base; lia.
Qed.

Lemma rlp_encode_is_bytes item :
  rlp_bytes item → Z.of_nat (length (rlp_encode item)) < 2 ^ 64 → Forall is_byte (rlp_encode item).
Proof.
  induction item as [bytes|items IH] using rlp_item_induction; intros Hb Hl.
  - cbn [rlp_encode rlp_bytes] in *. pose proof (rlp_encode_bytes_length bytes) as [? _].
    assert (Forall is_byte (with_header 128 183 bytes)) by (apply with_header_bytes; [done|lia]).
    unfold rlp_encode_bytes. destruct bytes as [|b [|c bytes]]; try done. by case_if.
  - cbn [rlp_encode] in *. unfold rlp_encode_list in *.
    set (payload := concat (map rlp_encode items)) in *.
    pose proof (with_header_length 192 247 payload). apply with_header_bytes; [|lia].
    assert (Z.of_nat (length payload) < 2 ^ 64) as Hp by lia. clear Hl H. subst payload.
    cbn in Hb. induction IH as [|item items Hi _ IHl]; [constructor|].
    cbn [map concat foldr] in *. rewrite length_app in Hp. destruct Hb.
    apply Forall_app. split; [apply Hi; [done|lia]|apply IHl; [done|lia]].
Qed.

(** RLP is decodable: whatever follows it, the serialisation of an item of
    fewer than 2^64 bytes reads back as that item, so no two items share a
    serialisation and none is a proper prefix of another. *)
Lemma rlp_roundtrip item rest fuel :
  rlp_bytes item → Z.of_nat (length (rlp_encode item)) < 2 ^ 64 → (rlp_weight item ≤ fuel)%nat →
  rlp_decode fuel (rlp_encode item ++ rest) = Some (item, rest).
Proof. intros. by apply rlp_decode_encode. Qed.

(** ** Witnesses *)

Lemma parse_uint256_word_exact_witness :
  parse_uint256_word "0x00fF" = Ok (word_of 255) ∧
  parse_uint256_word "115792089237316195423570985008687907853269984665640564039457584007913129639936" =
    Throw (invalid_argument "unsigned integer exceeds uint256").
Proof.
  split.
  - by rewrite (parse_uint256_word_exact "0x00fF" 255) by (by vm_compute).
  - by rewrite (parse_uint256_word_exact _ (2 ^ 256)) by (by vm_compute).
Defined.

Lemma parse_uint256_word_accepts_double_x_witness :
  numeral_value "0xx12" = None ∧ parse_uint256_word "0xx12" = Ok (word_of 18).
Proof.
  exact (parse_uint256_word_accepts_double_x ["1"; "2"]%char 18
           ltac:(by vm_compute) ltac:(by vm_compute) ltac:(cbn; lia)).
Defined.

Lemma rlp_roundtrip_witness :
  let item := RlpList [RlpBytes [127]; RlpBytes [128]; RlpList []; RlpBytes (replicate 60 7)] in
  rlp_decode 20 (rlp_encode item ++ [1; 2]) = Some (item, [1; 2]).
Proof.
  intros item. apply rlp_roundtrip; [|by vm_compute|cbn; lia].
  cbn. repeat split; repeat constructor; unfold is_byte; lia.
Defined.
