(* ===== verification/Crypto.v ===== *)
(** * The cryptographic primitives the client calls

    Keccak-256 (ethash) and recoverable ECDSA signatures (libsecp256k1) are
    third-party code: they are interfaces here, with the facts their
    documentation gives about sizes.  The [toy_*] instances show that the
    interfaces can be implemented, and let examples evaluate. *)
From S2P Require Import Prelude Text EvmBytes.

#[local] Open Scope Z_scope.

(** [ethash::keccak256]: 32 bytes from any byte string. *)
Class Keccak := {
  keccak256 : list Z → list Z;
  keccak256_length : ∀ data, length (keccak256 data) = 32%nat;
  keccak256_bytes : ∀ data, Forall is_byte (keccak256 data) }.

(** [secp256k1_ecdsa_sign_recoverable] with its compact serialisation: 64 bytes
    [r || s] and a recovery id, or a failure; and the uncompressed public key of
    a private key without its leading byte. *)
Class RecoverableSigner := {
  sign_recoverable : list Z → list Z → option (list Z * Z);
  sign_length : ∀ hash key sig recid,
    sign_recoverable hash key = Some (sig, recid) → length sig = 64%nat;
  sign_bytes : ∀ hash key sig recid,
    sign_recoverable hash key = Some (sig, recid) → Forall is_byte sig;
  sign_recid : ∀ hash key sig recid,
    sign_recoverable hash key = Some (sig, recid) → 0 ≤ recid ≤ 3;
  public_key : list Z → option (list Z) }.

(** [keccak256(const std::string &)] *)
Definition bytes_of_string (s : string) : list Z := map code (chars s).

Lemma bytes_of_string_bytes s : Forall is_byte (bytes_of_string s).
Proof. apply Forall_map, Forall_forall. intros c _. apply code_range. Qed.

#[export] Instance toy_keccak : Keccak.
Proof.
  refine {| keccak256 := λ data, word_of (val 257 data) |}.
  - intros. apply word_of_length.
  - intros. apply word_of_bytes.
Defined.

#[export] Instance toy_signer : RecoverableSigner.
Proof.
  refine {| sign_recoverable := λ hash key,
              Some (word_of (val 257 hash) ++ word_of (val 257 key), 1);
            public_key := λ key, Some (key ++ key) |}.
  - intros hash key sig recid H.
    assert (sig = word_of (val 257 hash) ++ word_of (val 257 key)) as -> by congruence.
    by rewrite length_app, !word_of_length.
  - intros hash key sig recid H.
    assert (sig = word_of (val 257 hash) ++ word_of (val 257 key)) as -> by congruence.
    apply Forall_app. split; apply word_of_bytes.
  - intros hash key sig recid H. assert (recid = 1) as -> by congruence. lia.
Defined.
