(* ===== verification/EvmAbi.v ===== *)
(** * Solidity ABI (src/evm_abi.cpp, src/evm_utils.cpp)

    [EvmAbiValue] and its head/tail encoding, and the readers of event data:
    words, signed and unsigned decimals, addresses and dynamic arrays of
    unsigned integers.  [decode] is a reference decoder directed by types, for
    the round trip of the encoding. *)
From Stdlib Require Import Ascii String.
From S2P Require Import Prelude Text EvmBytes Crypto.

#[local] Open Scope Z_scope.

#[local] Set Warnings "-register-all".

(** ** Values *)

Inductive EvmAbiValue :=
  | Word (data : list Z)
  | Bytes (data : list Z)
  | Array (children : list EvmAbiValue)
  | Tuple (children : list EvmAbiValue).

Definition parse_hex_bytes (hex label : string) : res (list Z) :=
  rethrow_invalid (from_hex hex) (invalid_argument (label +:+ " is not valid hex")).

Definition word_from_bytes (bytes : list Z) (left_pad : bool) : list Z :=
  if left_pad then replicate (kWordSize - length bytes) 0 ++ bytes
  else bytes ++ replicate (kWordSize - length bytes) 0.

Definition check_bits (bits : Z) : res unit :=
  require (negb ((bits =? 0) || (256 <? bits) || negb (bits mod 8 =? 0)))
    (invalid_argument "unsigned integer width must be 8..256 in steps of 8").

Definition check_fits (word : list Z) (bits : Z) : res unit :=
  let high_bytes := (kWordSize - Z.to_nat (bits / 8))%nat in
  require (forallb (λ b, b =? 0) (take high_bytes word))
    (invalid_argument ("unsigned integer exceeds uint" +:+ to_string bits)).

Definition address (hex : string) : res EvmAbiValue :=
  bytes ← parse_hex_bytes hex "address";
  require (bool_decide (length bytes = 20%nat)) (invalid_argument "address must be 20 bytes");;
  Ok (Word (word_from_bytes bytes true)).

Definition unsigned_integer (text : string) (bits : Z) : res EvmAbiValue :=
  check_bits bits;;
  data ← parse_uint256_word text;
  check_fits data bits;;
  Ok (Word data).

Definition unsigned_integer_u64 (number bits : Z) : res EvmAbiValue :=
  check_bits bits;;
  let data := uint256_word number in
  check_fits data bits;;
  Ok (Word data).

Definition uint256 (value : string) : res EvmAbiValue := unsigned_integer value 256.

Definition boolean (flag : bool) : res EvmAbiValue :=
  unsigned_integer_u64 (if flag then 1 else 0) 8.

Definition fixed_bytes (hex : string) (size : Z) : res EvmAbiValue :=
  require (negb ((size =? 0) || (Z.of_nat kWordSize <? size)))
    (invalid_argument "fixed bytes size must be 1..32");;
  bytes ← parse_hex_bytes hex "fixed bytes";
  require (Z.of_nat (length bytes) =? size)
    (invalid_argument ("bytes" +:+ to_string size +:+ " value must be " +:+
                       to_string size +:+ " bytes"));;
  Ok (Word (word_from_bytes bytes false)).

Definition bytes_from_hex (hex : string) : res EvmAbiValue :=
  Bytes <$> parse_hex_bytes hex "bytes".

(** ** Encoding *)

Fixpoint is_dynamic (v : EvmAbiValue) : bool :=
  match v with
  | Word _ => false
  | Bytes _ | Array _ => true
  | Tuple children => existsb is_dynamic children
  end.

(** [data] and zeros up to a whole number of words. *)
Definition append_padded (data : list Z) : list Z :=
  let remainder := (length data mod kWordSize)%nat in
  if bool_decide (remainder = O) then data else data ++ replicate (kWordSize - remainder) 0.

(** The head of a sequence: each static member in place, each dynamic one as the
    offset of its encoding in the tail. *)
Fixpoint sequence_heads (encoded : list (bool * list Z)) (tail_offset : Z) : list Z :=
  match encoded with
  | [] => []
  | (dynamic, bytes) :: rest =>
      if (dynamic : bool)
      then uint256_word tail_offset ++ sequence_heads rest (tail_offset + Z.of_nat (length bytes))
      else bytes ++ sequence_heads rest tail_offset
  end.

Definition head_size (encoded : list (bool * list Z)) : Z :=
  foldl (λ n '(dynamic, bytes),
           n + if (dynamic : bool) then Z.of_nat kWordSize else Z.of_nat (length bytes)) 0 encoded.

Definition sequence_tails (encoded : list (bool * list Z)) : list Z :=
  flat_map (λ '(dynamic, bytes), if (dynamic : bool) then bytes else []) encoded.

Definition append_sequence (encoded : list (bool * list Z)) : list Z :=
  sequence_heads encoded (head_size encoded) ++ sequence_tails encoded.

Fixpoint append_encoding (v : EvmAbiValue) : list Z :=
  match v with
  | Word data => data
  | Bytes data => uint256_word (Z.of_nat (length data)) ++ append_padded data
  | Array children =>
      uint256_word (Z.of_nat (length children)) ++
      append_sequence (map (λ c, (is_dynamic c, append_encoding c)) children)
  | Tuple children => append_sequence (map (λ c, (is_dynamic c, append_encoding c)) children)
  end.

Definition evm_abi_encode (values : list EvmAbiValue) : list Z :=
  append_sequence (map (λ v, (is_dynamic v, append_encoding v)) values).

Definition evm_function_selector `{Keccak} (signature : string) : string :=
  to_hex (take 4 (keccak256 (bytes_of_string signature))).

Definition evm_abi_encode_call `{Keccak} (signature : string) (arguments : list EvmAbiValue)
    : string :=
  evm_function_selector signature +:+ str (drop 2 (chars (to_hex (evm_abi_encode arguments)))).

(** ** Reading words (evm_utils.cpp) *)

Definition hex_value (c : ascii) : res Z :=
  match nibble c with
  | Some d => Ok d
  | None => Throw (invalid_argument "invalid hex character")
  end.

(** [for (const auto character : hex) (void)hex_value(character);] *)
Fixpoint check_hex (cs : list ascii) : res unit :=
  match cs with
  | [] => Ok tt
  | c :: cs => hex_value c;; check_hex cs
  end.

Definition canonical_abi_word_hex (word : list ascii) : res (list ascii) :=
  let hex := strip_0x word in
  require (bool_decide (length hex = 64%nat))
    (invalid_argument "ABI value must occupy one word");;
  check_hex hex;;
  Ok hex.

(** The digit loop of [decimal_mul_add], from the last character. *)
Definition mul_add_digits (decimal : list ascii) (mul add : Z) : list ascii * Z :=
  foldr (λ c '(out, carry),
           let next := (code c - code "0") * mul + carry in
           (chr (code "0" + next mod 10) :: out, next / 10)) ([], add) decimal.

(** [while (carry > 0) decimal.insert(decimal.begin(), ...);] *)
Fixpoint push_carry (fuel : nat) (carry : Z) (decimal : list ascii) : list ascii :=
  match fuel with
  | O => decimal
  | S fuel =>
      if 0 <? carry
      then push_carry fuel (carry / 10) (chr (code "0" + carry mod 10) :: decimal)
      else decimal
  end.

Definition decimal_mul_add (decimal : list ascii) (mul add : Z) : list ascii :=
  let '(decimal, carry) := mul_add_digits decimal mul add in
  match skip_zeros (push_carry (Z.to_nat carry) carry decimal) with
  | [] => ["0"%char]
  | stripped => stripped
  end.

Fixpoint hex_to_decimal_loop (hex result : list ascii) : res (list ascii) :=
  match hex with
  | [] => Ok result
  | c :: hex =>
      d ← hex_value c;
      hex_to_decimal_loop hex (decimal_mul_add result 16 d)
  end.

Definition positive_hex_to_decimal (hex : list ascii) : res (list ascii) :=
  hex_to_decimal_loop (strip_0x hex) ["0"%char].

Fixpoint invert_hex (hex : list ascii) : res (list ascii) :=
  match hex with
  | [] => Ok []
  | c :: hex =>
      d ← hex_value c;
      rest ← invert_hex hex;
      Ok (digit_char (15 - d) :: rest)
  end.

(** The increment loop, from the last character while there is a carry. *)
Fixpoint increment_hex (hex : list ascii) : res (list ascii * Z) :=
  match hex with
  | [] => Ok ([], 1)
  | c :: hex =>
      '(rest, carry) ← increment_hex hex;
      if carry =? 0 then Ok (c :: rest, 0)
      else
        d ← hex_value c;
        let next := d + carry in
        Ok (digit_char (Z.land next 15) :: rest, Z.shiftr next 4)
  end.

Definition twos_complement_abs (hex : list ascii) : res (list ascii) :=
  let hex := strip_0x hex in
  let hex := replicate (64 - length hex) "0"%char ++ hex in
  inverted ← invert_hex hex;
  fst <$> increment_hex inverted.

Fixpoint size_loop (hex : list ascii) (value : Z) : res Z :=
  match hex with
  | [] => Ok value
  | c :: hex =>
      digit ← hex_value c;
      require (negb ((u64_max - digit) / 16 <? value))
        (invalid_argument "ABI integer exceeds host size");;
      size_loop hex (value * 16 + digit)
  end.

Definition abi_word_to_size (word : list ascii) : res Z :=
  hex ← canonical_abi_word_hex word;
  size_loop hex 0.

Definition tolower (c : ascii) : ascii :=
  if in_range "A" "Z" c then chr (code c + 32) else c.

Definition evm_normalize_hex (value : string) : string :=
  str ("0"%char :: "x"%char :: map tolower (strip_0x (chars value))).

Definition evm_event_topic `{Keccak} (event_signature : string) : string :=
  evm_normalize_hex (to_hex (keccak256 (bytes_of_string event_signature))).

(** [for (i = 0; i < hex.size(); i += 64)] over a whole number of words. *)
Fixpoint chunks (n : nat) (hex : list ascii) : list (list ascii) :=
  match n with
  | O => []
  | S n => ("0"%char :: "x"%char :: take 64 hex) :: chunks n (drop 64 hex)
  end.

Definition evm_data_words (data : string) : res (list (list ascii)) :=
  let hex := strip_0x (chars data) in
  require (bool_decide (length hex mod 64 = 0)%nat)
    (invalid_argument "ABI data is not word-aligned");;
  Ok (chunks (length hex / 64) hex).

Definition evm_uint_word_to_decimal (word : list ascii) : res (list ascii) :=
  hex ← canonical_abi_word_hex word;
  positive_hex_to_decimal hex.

Definition evm_int_word_to_decimal (word : list ascii) : res (list ascii) :=
  hex ← canonical_abi_word_hex word;
  front ← match hex with
          | c :: _ => hex_value c
          | [] => Ok 0
          end;
  if negb (8 <=? front) then positive_hex_to_decimal hex
  else
    absolute ← twos_complement_abs hex;
    decimal ← positive_hex_to_decimal absolute;
    Ok ("-"%char :: decimal).

Definition evm_word_to_address (word : list ascii) : res string :=
  hex ← canonical_abi_word_hex word;
  require (bool_decide (skip_zeros (take 24 hex) = []))
    (invalid_argument "ABI address has nonzero high padding");;
  Ok (evm_normalize_hex (str (drop 24 hex))).

(** [words[i]] behind a bounds check of the code. *)
Definition word_at (words : list (list ascii)) (i : Z) : list ascii :=
  default [] (words !! Z.to_nat i).

Fixpoint uint_words (words : list (list ascii)) : res (list (list ascii)) :=
  match words with
  | [] => Ok []
  | w :: words =>
      v ← evm_uint_word_to_decimal w;
      vs ← uint_words words;
      Ok (v :: vs)
  end.

Definition evm_decode_uint_array_head (data : string) (offset_word_index head_word_count : Z)
    : res (list (list ascii)) :=
  words ← evm_data_words data;
  let count := Z.of_nat (length words) in
  require (offset_word_index <? count) (invalid_argument "array offset word is missing");;
  require (negb ((head_word_count <=? offset_word_index) || (count <? head_word_count)))
    (invalid_argument "ABI static head is invalid");;
  offset_bytes ← abi_word_to_size (word_at words offset_word_index);
  require (offset_bytes mod 32 =? 0) (invalid_argument "array offset is not word-aligned");;
  require (negb (offset_bytes / 32 <? head_word_count))
    (invalid_argument "array offset points into ABI static head");;
  let length_index := offset_bytes / 32 in
  require (length_index <? count) (invalid_argument "array length word is missing");;
  length ← abi_word_to_size (word_at words length_index);
  let available := count - length_index - 1 in
  require (negb (available <? length)) (invalid_argument "array data is truncated");;
  uint_words (take (Z.to_nat length) (drop (Z.to_nat (length_index + 1)) words)).

Definition evm_decode_uint_array (data : string) (offset_word_index : Z)
    : res (list (list ascii)) :=
  require (negb (offset_word_index =? u64_max))
    (invalid_argument "array offset word index is too large");;
  evm_decode_uint_array_head data offset_word_index (offset_word_index + 1).

(** ** Lemmas on decimal conversion *)

Lemma code_0 : code "0" = 48.
Proof. reflexivity. Qed.

Lemma decimal_char_of d : 0 ≤ d < 10 → chr (code "0" + d) = digit_char d.
Proof. intros. unfold digit_char. destruct (Z.ltb_spec d 10); [done|lia]. Qed.

Lemma decimal_val_cons c cs :
  decimal_val (c :: cs) = decimal_digit c * 10 ^ Z.of_nat (length cs) + decimal_val cs.
Proof. unfold decimal_val. cbn [map]. by rewrite (val_cons 10), length_map by lia. Qed.

Lemma decimal_val_nonneg cs : all_decimal cs = true → 0 ≤ decimal_val cs.
Proof. intros H%all_decimal_digits. pose proof (val_bounds 10 ltac:(lia) _ H). unfold decimal_val. lia. Qed.

Lemma mul_add_digits_spec cs mul add out carry :
  all_decimal cs = true → 0 ≤ mul → 0 ≤ add → mul_add_digits cs mul add = (out, carry) →
  all_decimal out = true ∧ length out = length cs ∧ 0 ≤ carry ∧
  carry * 10 ^ Z.of_nat (length cs) + decimal_val out = decimal_val cs * mul + add.
Proof.
  intros Hd Hm Ha. revert out carry. unfold mul_add_digits.
  induction cs as [|c cs IH]; intros out carry H.
  { injection H as <- <-. change (decimal_val []) with 0. cbn. split_and!; [done|done|lia|lia]. }
  cbn in Hd. apply andb_true_iff in Hd as [Hc Hd]. cbn [foldr] in H.
  destruct (foldr _ _ cs) as [out1 c1]. destruct (IH Hd _ _ eq_refl) as (Hd1 & Hl & Hc1 & Hv).
  cbv zeta in H. injection H as <- <-. pose proof (decimal_digit_range c Hc) as Hr.
  change (code c - code "0") with (decimal_digit c).
  set (next := decimal_digit c * mul + c1) in *. assert (0 ≤ next) by (subst next; nia).
  pose proof (Z.mod_pos_bound next 10 ltac:(lia)) as Hmod.
  pose proof (Z.div_mod next 10 ltac:(lia)) as Hdm.
  rewrite decimal_char_of by done. destruct (digit_char_decimal _ Hmod) as [Hdc Hdv].
  split_and!; [cbn; by rewrite Hdc|cbn; lia|apply Z.div_pos; lia|].
  rewrite !decimal_val_cons, Hdv, Hl. cbn [length].
  rewrite Nat2Z.inj_succ, Z.pow_succ_r by lia. subst next.
  set (p := 10 ^ Z.of_nat (length cs)) in *. nia.
Qed.

Lemma push_carry_spec fuel carry cs :
  all_decimal cs = true → 0 ≤ carry ≤ Z.of_nat fuel →
  all_decimal (push_carry fuel carry cs) = true ∧
  decimal_val (push_carry fuel carry cs) = carry * 10 ^ Z.of_nat (length cs) + decimal_val cs.
Proof.
  revert carry cs. induction fuel as [|fuel IH]; intros carry cs Hd Hc; cbn [push_carry].
  { split; [done|]. assert (carry = 0) as -> by lia. lia. }
  destruct (Z.ltb_spec 0 carry) as [Hpos|]; [|split; [done|]; assert (carry = 0) as -> by lia; lia].
  pose proof (Z.mod_pos_bound carry 10 ltac:(lia)) as Hmod.
  pose proof (Z.div_mod carry 10 ltac:(lia)) as Hdm.
  rewrite decimal_char_of by done. destruct (digit_char_decimal _ Hmod) as [Hdc Hdv].
  destruct (IH (carry / 10) (digit_char (carry mod 10) :: cs)) as [H1 H2].
  { cbn. by rewrite Hdc. }
  { split; [apply Z.div_pos; lia|]. assert (carry / 10 < carry) by (apply Z.div_lt; lia). lia. }
  split; [done|]. rewrite H2, decimal_val_cons, Hdv. cbn [length].
  rewrite Nat2Z.inj_succ, Z.pow_succ_r by lia. nia.
Qed.

Lemma skip_zeros_decimal cs :
  all_decimal cs = true →
  all_decimal (skip_zeros cs) = true ∧ decimal_val (skip_zeros cs) = decimal_val cs.
Proof.
  induction cs as [|c cs IH]; intros Hd; [done|]. cbn [skip_zeros].
  case_bool_decide as Hc; [|done]. subst c. cbn in Hd.
  destruct (IH Hd) as [? ->]. split; [done|]. rewrite decimal_val_cons. change (decimal_digit "0") with 0. lia.
Qed.

Lemma decimal_mul_add_spec cs mul add :
  all_decimal cs = true → 0 ≤ mul → 0 ≤ add →
  decimal_mul_add cs mul add = decimal_chars (decimal_val cs * mul + add).
Proof.
  intros Hd Hm Ha. unfold decimal_mul_add. destruct (mul_add_digits cs mul add) as [out carry] eqn:E.
  destruct (mul_add_digits_spec _ _ _ _ _ Hd Hm Ha E) as (Ho & Hl & Hc & Hv).
  destruct (push_carry_spec (Z.to_nat carry) carry out Ho ltac:(lia)) as [Hp Hpv].
  destruct (skip_zeros_decimal _ Hp) as [Hs Hsv]. rewrite Hpv, Hl, Hv in Hsv.
  rewrite <- Hsv. destruct (skip_zeros _) as [|c l] eqn:Ez; [done|].
  symmetry. apply decimal_chars_val; [done|]. intros ->. by apply skip_zeros_head in Ez.
Qed.

Lemma hex_value_nibble c d : nibble c = Some d → hex_value c = Ok d.
Proof. unfold hex_value. by intros ->. Qed.

Lemma hex_to_decimal_loop_spec hex n v :
  hex_val hex = Some v → 0 ≤ n →
  hex_to_decimal_loop hex (decimal_chars n) =
    Ok (decimal_chars (n * 16 ^ Z.of_nat (length hex) + v)).
Proof.
  revert n v. induction hex as [|c hex IH]; intros n v Hv Hn.
  { injection Hv as <-. cbn [hex_to_decimal_loop length]. do 2 f_equal. cbn. lia. }
  apply hex_val_cons in Hv as (d & w & Hd & Hw & ->). pose proof (nibble_range _ _ Hd).
  cbn [hex_to_decimal_loop]. rewrite (hex_value_nibble _ _ Hd). cbn [mbind res_bind].
  rewrite decimal_mul_add_spec, decimal_val_chars by (try apply decimal_chars_decimal; lia).
  rewrite (IH _ w) by (done || lia). do 2 f_equal. cbn [length].
  rewrite Nat2Z.inj_succ, Z.pow_succ_r by lia. lia.
Qed.

Lemma hex_val_no_prefix hex v : hex_val hex = Some v → strip_0x hex = hex.
Proof.
  destruct hex as [|c [|x hex]]; [done|done|]. intros (d & w & _ & Hw & _)%hex_val_cons.
  apply hex_val_cons in Hw as (e & w' & He & _ & _).
  destruct (decide (c = "0"%char)) as [->|]; [|by apply strip_0x_nonzero].
  apply strip_0x_nibble. by rewrite He.
Qed.

Lemma positive_hex_to_decimal_spec hex v :
  hex_val hex = Some v → positive_hex_to_decimal hex = Ok (decimal_chars v).
Proof.
  intros Hv. unfold positive_hex_to_decimal. rewrite (hex_val_no_prefix _ _ Hv).
  change ["0"%char] with (decimal_chars 0).
  by rewrite (hex_to_decimal_loop_spec _ _ v) by (done || lia).
Qed.

Lemma check_hex_ok hex v : hex_val hex = Some v → check_hex hex = Ok tt.
Proof.
  revert v. induction hex as [|c hex IH]; intros v Hv; [done|].
  apply hex_val_cons in Hv as (d & w & Hd & Hw & _). cbn [check_hex].
  rewrite (hex_value_nibble _ _ Hd). cbn [mbind res_bind]. by eapply IH.
Qed.

Lemma canonical_word hex v :
  hex_val hex = Some v → length hex = 64%nat →
  canonical_abi_word_hex ("0"%char :: "x"%char :: hex) = Ok hex.
Proof.
  intros Hv Hl. unfold canonical_abi_word_hex.
  assert (strip_0x ("0" :: "x" :: hex)%char = hex) as -> by done. cbv zeta.
  rewrite bool_decide_true by done. cbn [require mbind res_bind]. by rewrite (check_hex_ok _ v).
Qed.

(** ** Lemmas on two's complement *)

Lemma hex_val_digit_cons d cs v :
  0 ≤ d < 16 → hex_val cs = Some v →
  hex_val (digit_char d :: cs) = Some (d * 16 ^ Z.of_nat (length cs) + v).
Proof.
  intros Hd Hv. apply hex_val_cons. exists d, v. by rewrite nibble_digit_char.
Qed.

Lemma invert_hex_spec hex v :
  hex_val hex = Some v →
  ∃ inv, invert_hex hex = Ok inv ∧ length inv = length hex ∧
    hex_val inv = Some (16 ^ Z.of_nat (length hex) - 1 - v).
Proof.
  revert v. induction hex as [|c hex IH]; intros v Hv.
  { injection Hv as <-. by exists []. }
  apply hex_val_cons in Hv as (d & w & Hd & Hw & ->). pose proof (nibble_range _ _ Hd).
  destruct (IH w Hw) as (inv & Hi & Hl & Hiv). exists (digit_char (15 - d) :: inv).
  cbn [invert_hex]. rewrite (hex_value_nibble _ _ Hd), Hi. cbn [mbind res_bind length].
  rewrite (hex_val_digit_cons (15 - d) inv _ ltac:(lia) Hiv), Hl.
  split_and!; [done|done|]. f_equal. rewrite Nat2Z.inj_succ, Z.pow_succ_r by lia. lia.
Qed.

Lemma increment_hex_spec hex v :
  hex_val hex = Some v →
  ∃ out carry w, increment_hex hex = Ok (out, carry) ∧ length out = length hex ∧
    hex_val out = Some w ∧ 0 ≤ carry ≤ 1 ∧ carry * 16 ^ Z.of_nat (length hex) + w = v + 1.
Proof.
  revert v. induction hex as [|c hex IH]; intros v Hv.
  { injection Hv as <-. exists [], 1, 0. split_and!; done || lia. }
  apply hex_val_cons in Hv as (d & u & Hd & Hu & ->). pose proof (nibble_range _ _ Hd).
  destruct (IH u Hu) as (out & carry & w & Hi & Hl & Hw & Hc & Hsum).
  cbn [increment_hex]. rewrite Hi. cbn [mbind res_bind length].
  rewrite Nat2Z.inj_succ, Z.pow_succ_r by lia. set (p := 16 ^ Z.of_nat (length hex)) in *.
  destruct (Z.eqb_spec carry 0) as [->|Hnz].
  { exists (c :: out), 0, (d * p + w). cbn [length].
    rewrite Hl. split_and!; [done|done| |lia|lia|lia].
    apply hex_val_cons. exists d, w. by rewrite Hl. }
  assert (carry = 1) as -> by lia. rewrite (hex_value_nibble _ _ Hd). cbn [mbind res_bind].
  rewrite Z.shiftr_div_pow2 by lia. change 15 with (Z.ones 4). rewrite Z.land_ones by lia.
  change (2 ^ 4) with 16.
  pose proof (Z.mod_pos_bound (d + 1) 16 ltac:(lia)) as Hmod.
  pose proof (Z.div_mod (d + 1) 16 ltac:(lia)) as Hdm.
  exists (digit_char ((d + 1) mod 16) :: out), ((d + 1) / 16), ((d + 1) mod 16 * p + w).
  cbn [length]. rewrite Hl. split_and!; [done|done| |apply Z.div_pos; lia|lia|nia].
  rewrite (hex_val_digit_cons _ out w) by done. by rewrite Hl.
Qed.

Lemma twos_complement_abs_spec hex v :
  hex_val hex = Some v → length hex = 64%nat → 0 < v →
  ∃ out, twos_complement_abs hex = Ok out ∧ hex_val out = Some (2 ^ 256 - v).
Proof.
  intros Hv Hl Hpos. unfold twos_complement_abs. rewrite (hex_val_no_prefix _ _ Hv). cbv zeta.
  rewrite Hl, Nat.sub_diag. cbn [replicate app].
  destruct (invert_hex_spec _ _ Hv) as (inv & -> & Hil & Hiv). cbn [mbind res_bind].
  destruct (increment_hex_spec _ _ Hiv) as (out & carry & w & -> & _ & Hw & Hc & Hsum).
  exists out. split; [done|]. rewrite Hw. f_equal. rewrite Hil, Hl in Hsum.
  change (16 ^ Z.of_nat 64) with (2 ^ 256) in Hsum.
  destruct (hex_val_digits _ _ Hw) as (ds & _ & Ew & Hf & _).
  pose proof (val_bounds 16 ltac:(lia) _ Hf). rewrite Ew in *.
  destruct (hex_val_digits _ _ Hv) as (ds' & _ & Ev & Hf' & Hl').
  pose proof (val_bounds 16 ltac:(lia) _ Hf') as Bv. rewrite Ev, Hl', Hl in Bv.
  assert (carry = 0 ∨ carry = 1) as [->| ->] by lia; lia.
Qed.

Lemma hex_val_front c hex v :
  hex_val (c :: hex) = Some v → length hex = 63%nat →
  ∃ d, hex_value c = Ok d ∧ (8 <=? d) = (2 ^ 255 <=? v).
Proof.
  intros (d & w & Hd & Hw & ->)%hex_val_cons Hl. exists d. split; [by apply hex_value_nibble|].
  destruct (hex_val_digits _ _ Hw) as (ds & _ & <- & Hf & Hl').
  pose proof (val_bounds 16 ltac:(lia) _ Hf) as B. rewrite Hl', Hl in B. rewrite Hl.
  change (Z.of_nat 63) with 63 in *. change (2 ^ 255) with (8 * 16 ^ 63).
  destruct (Z.leb_spec 8 d), (Z.leb_spec (8 * 16 ^ 63) (d * 16 ^ 63 + val 16 ds)); nia.
Qed.

(** Decimal text of a signed integer. *)
Definition signed_decimal (z : Z) : list ascii :=
  if z <? 0 then "-"%char :: decimal_chars (- z) else decimal_chars z.

(** The signed integer a 256-bit pattern stands for. *)
Definition int256_of (v : Z) : Z := if v <? 2 ^ 255 then v else v - 2 ^ 256.

Lemma word_decimals hex v :
  hex_val hex = Some v → length hex = 64%nat →
  evm_uint_word_to_decimal ("0"%char :: "x"%char :: hex) = Ok (decimal_chars v) ∧
  evm_int_word_to_decimal ("0"%char :: "x"%char :: hex) = Ok (signed_decimal (int256_of v)).
Proof.
  intros Hv Hl. unfold evm_uint_word_to_decimal, evm_int_word_to_decimal.
  rewrite (canonical_word _ _ Hv Hl). cbn [mbind res_bind].
  split; [by apply positive_hex_to_decimal_spec|].
  destruct hex as [|c hex]; [done|]. injection Hl as Hl.
  destruct (hex_val_front _ _ _ Hv Hl) as (d & -> & Hd). cbn [mbind res_bind]. rewrite Hd.
  unfold int256_of, signed_decimal.
  destruct (hex_val_digits _ _ Hv) as (ds & _ & Ev & Hf & Hl').
  pose proof (val_bounds 16 ltac:(lia) _ Hf) as Bv. rewrite Ev, Hl' in Bv. cbn [length] in Bv.
  rewrite Hl in Bv. change (16 ^ Z.of_nat 64) with (2 ^ 256) in Bv.
  destruct (Z.leb_spec (2 ^ 255) v), (Z.ltb_spec v (2 ^ 255)); try lia; cbn [negb].
  - destruct (twos_complement_abs_spec _ _ Hv ltac:(cbn; by rewrite Hl) ltac:(lia)) as (out & -> & Ho).
    cbn [mbind res_bind]. rewrite (positive_hex_to_decimal_spec _ _ Ho). cbn [mbind res_bind].
    destruct (Z.ltb_spec (v - 2 ^ 256) 0); [|lia]. do 3 f_equal. lia.
  - rewrite (positive_hex_to_decimal_spec _ _ Hv). destruct (Z.ltb_spec v 0); [lia|done].
Qed.

(** The text of a word of bytes. *)
Definition word_text (v : Z) : list ascii := "0"%char :: "x"%char :: hex_chars (word_of v).

Lemma hex_chars_val bytes : Forall is_byte bytes → hex_val (hex_chars bytes) = Some (word_val bytes).
Proof.
  intros Hb. pose proof (hex_pairs_chars _ Hb) as Hp.
  eapply hex_pairs_Ok; [reflexivity| |exact Hp]. rewrite hex_chars_length. apply even_double.
Qed.

Lemma word_text_val v :
  0 ≤ v < 2 ^ 256 → hex_val (hex_chars (word_of v)) = Some v ∧ length (hex_chars (word_of v)) = 64%nat.
Proof.
  intros Hv. rewrite hex_chars_val, word_val_of, hex_chars_length, word_of_length by
    (done || apply word_of_bytes). done.
Qed.

(** Every signed 256-bit integer reads back from its two's-complement word as
    its decimal numeral, the most negative one included, and every unsigned one
    likewise. *)
Lemma word_to_decimal_exact z :
  (- 2 ^ 255 ≤ z < 2 ^ 255 →
     evm_int_word_to_decimal (chars (to_hex (word_of (z mod 2 ^ 256)))) = Ok (signed_decimal z)) ∧
  (0 ≤ z < 2 ^ 256 →
     evm_uint_word_to_decimal (chars (to_hex (word_of z))) = Ok (decimal_chars z)).
Proof.
  unfold to_hex. rewrite !chars_str. split; intros Hz.
  - pose proof (Z.mod_pos_bound z (2 ^ 256) ltac:(lia)) as Hm.
    destruct (word_text_val _ Hm) as [Hv Hl]. destruct (word_decimals _ _ Hv Hl) as [_ ->].
    do 2 f_equal. unfold int256_of. destruct (Z.ltb_spec z 0).
    + assert (z mod 2 ^ 256 = z + 2 ^ 256) as ->.
      { symmetry. apply Z.mod_unique with (q := -1); lia. }
      destruct (Z.ltb_spec (z + 2 ^ 256) (2 ^ 255)); lia.
    + rewrite Z.mod_small by lia. destruct (Z.ltb_spec z (2 ^ 255)); lia.
  - destruct (word_text_val _ Hz) as [Hv Hl]. by destruct (word_decimals _ _ Hv Hl) as [-> _].
Qed.

(** ** The reference decoder *)

Inductive AbiType :=
  | TWord
  | TBytes
  | TArray (element : AbiType)
  | TTuple (members : list AbiType).

(** How a type sits in a sequence and how its encoding is read. *)
Record reader := MkReader {
  r_dynamic : bool;
  r_size : nat;
  r_read : list Z → option EvmAbiValue }.

Definition read_size (data : list Z) : option Z :=
  if bool_decide (32 ≤ length data)%nat then Some (word_val (take 32 data)) else None.

Fixpoint read_sequence (rs : list reader) (pos : nat) (data : list Z)
    : option (list EvmAbiValue) :=
  match rs with
  | [] => Some []
  | r :: rs =>
      if r_dynamic r then
        offset ← read_size (drop pos data);
        v ← r_read r (drop (Z.to_nat offset) data);
        vs ← read_sequence rs (pos + 32) data;
        Some (v :: vs)
      else
        v ← r_read r (drop pos data);
        vs ← read_sequence rs (pos + r_size r) data;
        Some (v :: vs)
  end.

Fixpoint read_type (t : AbiType) : reader :=
  match t with
  | TWord =>
      MkReader false 32
        (λ data, if bool_decide (32 ≤ length data)%nat then Some (Word (take 32 data)) else None)
  | TBytes =>
      MkReader true 32
        (λ data,
           n ← read_size data;
           if n <=? Z.of_nat (length data) - 32
           then Some (Bytes (take (Z.to_nat n) (drop 32 data))) else None)
  | TArray t =>
      MkReader true 32
        (λ data,
           n ← read_size data;
           Array <$> read_sequence (replicate (Z.to_nat n) (read_type t)) 0 (drop 32 data))
  | TTuple ts =>
      let rs := map read_type ts in
      MkReader (existsb r_dynamic rs)
        (foldr (λ r n, ((if r_dynamic r then 32 else r_size r) + n)%nat) O rs)
        (λ data, Tuple <$> read_sequence rs 0 data)
  end.

Definition abi_decode (ts : list AbiType) (data : list Z) : option (list EvmAbiValue) :=
  read_sequence (map read_type ts) 0 data.

(** A value of a type: words have 32 bytes, and a vector has a [size_t] of
    elements. *)
Fixpoint has_type (t : AbiType) (v : EvmAbiValue) : Prop :=
  match t, v with
  | TWord, Word data => length data = 32%nat
  | TBytes, Bytes data => True
  | TArray t, Array vs => Z.of_nat (length vs) < 2 ^ 64 ∧ Forall (has_type t) vs
  | TTuple ts, Tuple vs =>
      (fix go ts vs := match ts, vs with
        | [], [] => True
        | t :: ts, v :: vs => has_type t v ∧ go ts vs
        | _, _ => False
        end) ts vs
  | _, _ => False
  end.

Lemma AbiType_induction (P : AbiType → Prop) :
  P TWord → P TBytes → (∀ t, P t → P (TArray t)) →
  (∀ ts, Forall P ts → P (TTuple ts)) → ∀ t, P t.
Proof.
  intros Hw Hb Ha Ht. fix IH 1. intros [| |t|ts]; [done|done|by apply Ha|].
  apply Ht. induction ts as [|t ts IHts]; constructor; [apply IH|apply IHts].
Qed.

Lemma has_type_tuple ts vs : has_type (TTuple ts) (Tuple vs) ↔ Forall2 has_type ts vs.
Proof.
  cbn. revert vs. induction ts as [|t ts IH]; intros [|v vs];
    rewrite ?Forall2_nil, ?Forall2_cons; try done.
  - split; [done|]. by intros ?%Forall2_nil_inv_l.
  - split; [done|]. by intros ?%Forall2_nil_inv_r.
  - by rewrite IH.
Qed.

(** *** Sequences *)

Abbreviation encode_all := (map (λ c, (is_dynamic c, append_encoding c))).

(** The head's length does not depend on the offsets in it. *)
Fixpoint heads_length (encoded : list (bool * list Z)) : nat :=
  match encoded with
  | [] => O
  | (dynamic, bytes) :: rest =>
      ((if (dynamic : bool) then kWordSize else length bytes) + heads_length rest)%nat
  end.

Lemma uint256_word_length v : length (uint256_word v) = 32%nat.
Proof. reflexivity. Qed.

Lemma sequence_heads_length encoded offset :
  length (sequence_heads encoded offset) = heads_length encoded.
Proof.
  revert offset. induction encoded as [|[[] bytes] rest IH]; intros offset; [done| |];
    cbn [sequence_heads heads_length]; rewrite length_app, IH; done.
Qed.

Lemma head_size_spec encoded : head_size encoded = Z.of_nat (heads_length encoded).
Proof.
  unfold head_size. set (f := λ (n : Z) '((dynamic, bytes) : bool * list Z), _).
  enough (∀ n, foldl f n encoded = n + Z.of_nat (heads_length encoded)) as H by apply H.
  induction encoded as [|[d bytes] rest IH]; intros n; cbn [foldl heads_length]; [lia|].
  rewrite IH. subst f. destruct d; lia.
Qed.

(** A reader agrees with an encoded value. *)
Definition reads (r : reader) (v : EvmAbiValue) : Prop :=
  r_dynamic r = is_dynamic v ∧
  (is_dynamic v = false → r_size r = length (append_encoding v)) ∧
  (Z.of_nat (length (append_encoding v)) < 2 ^ 64 →
   ∀ rest, r_read r (append_encoding v ++ rest) = Some v).

Lemma read_size_word n rest : is_u64 n → read_size (uint256_word n ++ rest) = Some n.
Proof.
  intros Hn. unfold read_size. rewrite bool_decide_true by (rewrite length_app, uint256_word_length; lia).
  rewrite uint256_word_spec, take_app_length' by (done || apply word_of_length).
  rewrite word_val_of; [done|]. unfold is_u64, u64_max in Hn. lia.
Qed.

Lemma sequence_tails_cons d bytes rest :
  sequence_tails ((d, bytes) :: rest) = (if (d : bool) then bytes else []) ++ sequence_tails rest.
Proof. done. Qed.

Lemma read_sequence_spec rs vs pre tails junk offset :
  Forall2 reads rs vs →
  offset = Z.of_nat (length pre + heads_length (encode_all vs) + length tails) →
  offset + Z.of_nat (length (sequence_tails (encode_all vs))) < 2 ^ 64 →
  read_sequence rs (length pre)
    (pre ++ sequence_heads (encode_all vs) offset ++
     tails ++ sequence_tails (encode_all vs) ++ junk) = Some vs.
Proof.
  intros Hrv. revert pre tails offset. induction Hrv as [|r v rs vs Hr Hrv IH];
    intros pre tails offset Ho Hlt; [done|].
  destruct Hr as (Hdyn & Hsize & Hread). cbn [read_sequence map] in *. rewrite Hdyn.
  rewrite sequence_tails_cons in Hlt |- *. cbn [sequence_heads heads_length] in *.
  set (bytes := append_encoding v) in *. set (enc := encode_all vs) in *.
  rewrite drop_app_length. destruct (is_dynamic v) eqn:Ed.
  - rewrite length_app in Hlt. rewrite <- !(app_assoc (uint256_word _)).
    rewrite read_size_word by (unfold is_u64, u64_max; lia). cbn [mbind option_bind].
    assert (drop (Z.to_nat offset)
      (pre ++ uint256_word offset ++ sequence_heads enc (offset + Z.of_nat (length bytes)) ++
       tails ++ (bytes ++ sequence_tails enc) ++ junk) = bytes ++ sequence_tails enc ++ junk) as E.
    { rewrite <- (app_assoc bytes). rewrite !(app_assoc _ _ (bytes ++ _)).
      apply drop_app_length'. rewrite !length_app, uint256_word_length, sequence_heads_length.
      unfold kWordSize in Ho. lia. }
    rewrite E, Hread by lia. cbn [mbind option_bind].
    specialize (IH (pre ++ uint256_word offset) (tails ++ bytes) (offset + Z.of_nat (length bytes))).
    rewrite length_app, uint256_word_length, <- !app_assoc in IH.
    rewrite <- (app_assoc bytes), IH; [done| |lia].
    rewrite !length_app. unfold kWordSize in Ho. lia.
  - specialize (IH (pre ++ bytes) tails offset). rewrite length_app, <- !app_assoc in IH.
    rewrite <- !(app_assoc bytes), Hread by lia. cbn [mbind option_bind].
    rewrite Hsize by done. cbn [app]. rewrite IH; [done|lia|].
    cbn [app length] in Hlt. lia.
Qed.

(** *** Types *)

(** Every member's encoding is part of its sequence. *)
Lemma append_sequence_length vs :
  length (append_sequence (encode_all vs)) =
    (heads_length (encode_all vs) + length (sequence_tails (encode_all vs)))%nat.
Proof. unfold append_sequence. by rewrite length_app, sequence_heads_length. Qed.

Lemma member_length v vs :
  v ∈ vs → (length (append_encoding v) ≤ length (append_sequence (encode_all vs)))%nat.
Proof.
  rewrite append_sequence_length. induction vs as [|w vs IH]; [by intros ?%not_elem_of_nil|].
  cbn [map heads_length]. rewrite sequence_tails_cons, length_app.
  intros [->|Hin]%elem_of_cons; [destruct (is_dynamic w); cbn; lia|].
  specialize (IH Hin). lia.
Qed.

(** A sequence of typed members reads back when each member does. *)
Lemma read_members rs vs rest :
  Forall2 reads rs vs → Z.of_nat (length (append_sequence (encode_all vs))) < 2 ^ 64 →
  read_sequence rs 0 (append_sequence (encode_all vs) ++ rest) = Some vs.
Proof.
  intros Hrv Hlt. rewrite append_sequence_length in Hlt.
  unfold append_sequence. rewrite head_size_spec, <- app_assoc.
  apply (read_sequence_spec rs vs [] [] rest); [done|cbn; lia|lia].
Qed.

Lemma reads_dynamic rs vs :
  Forall2 reads rs vs → existsb r_dynamic rs = existsb is_dynamic vs.
Proof. induction 1 as [|r v rs vs [Hr _] _ IH]; [done|]. cbn. by rewrite Hr, IH. Qed.

Lemma reads_size rs vs :
  Forall2 reads rs vs →
  foldr (λ r n, ((if r_dynamic r then 32 else r_size r) + n)%nat) O rs = heads_length (encode_all vs).
Proof.
  induction 1 as [|r v rs vs (Hd & Hs & _) _ IH]; [done|]. cbn [foldr map heads_length].
  rewrite IH, Hd. destruct (is_dynamic v); [done|]. by rewrite Hs.
Qed.

Lemma static_no_tails vs :
  existsb is_dynamic vs = false → sequence_tails (encode_all vs) = [].
Proof.
  induction vs as [|v vs IH]; [done|]. cbn [existsb map].
  intros [Hv Hvs]%orb_false_iff. by rewrite sequence_tails_cons, Hv, IH.
Qed.

Lemma append_padded_prefix data : ∃ pad, append_padded data = data ++ pad.
Proof. unfold append_padded. case_bool_decide; [exists []; by rewrite app_nil_r|by eexists]. Qed.

Lemma read_type_reads t v : has_type t v → reads (read_type t) v.
Proof.
  revert v. induction t as [| |t IH|ts IH] using AbiType_induction;
    intros [data|data|vs|vs] Ht; try done.
  - cbn in Ht. split_and!; [done|by intros _|]. intros _ rest. cbn [read_type r_read append_encoding].
    rewrite bool_decide_true by (rewrite length_app; lia).
    by rewrite take_app_length'.
  - split_and!; [done|done|]. intros Hlt rest. cbn [read_type r_read append_encoding] in *.
    destruct (append_padded_prefix data) as [pad Hp]. rewrite Hp in *.
    rewrite !length_app, uint256_word_length in Hlt. rewrite <- !app_assoc.
    rewrite read_size_word by (unfold is_u64, u64_max; lia). cbn [mbind option_bind].
    rewrite !length_app, uint256_word_length, drop_app_length' by done.
    destruct (Z.leb_spec (Z.of_nat (length data))
      (Z.of_nat (32 + (length data + (length pad + length rest))) - 32)); [|lia].
    by rewrite Nat2Z.id, take_app_length.
  - destruct Ht as [Hn Hvs]. split_and!; [done|done|]. intros Hlt rest.
    cbn [read_type r_read append_encoding] in *.
    rewrite length_app, uint256_word_length in Hlt. rewrite <- app_assoc.
    rewrite read_size_word by (unfold is_u64, u64_max; lia). cbn [mbind option_bind].
    rewrite drop_app_length', Nat2Z.id by done. rewrite read_members; [done| |lia].
    clear Hlt Hn. induction Hvs as [|v vs Hv Hvs IHvs]; constructor; auto.
  - rewrite has_type_tuple in Ht.
    assert (Forall2 reads (map read_type ts) vs) as Hrv.
    { clear -IH Ht. revert vs Ht. induction IH as [|t ts Ht1 _ IH]; intros vs Ht.
      - apply Forall2_nil_inv_l in Ht as ->. constructor.
      - apply Forall2_cons_inv_l in Ht as (v & vs' & Hv & Hvs & ->). constructor; auto. }
    cbn [read_type]. cbv zeta. split_and!; cbn [r_dynamic r_size r_read is_dynamic append_encoding].
    + by apply reads_dynamic.
    + intros Hs. rewrite (reads_size _ _ Hrv), append_sequence_length, static_no_tails by done.
      cbn. lia.
    + intros Hlt rest. by rewrite read_members.
Qed.

(** C22: the ABI encoding of any typed argument list, however nested and whatever
    follows it, decodes to the same values: every offset the encoder writes in a
    head is where the decoder finds the member. *)
Theorem abi_roundtrip ts vs rest :
  Forall2 has_type ts vs → Z.of_nat (length (evm_abi_encode vs)) < 2 ^ 64 →
  abi_decode ts (evm_abi_encode vs ++ rest) = Some vs.
Proof.
  intros Ht Hlt. apply read_members; [|done].
  induction Ht as [|t v ts vs Hv _ IH]; constructor; [by apply read_type_reads|].
  apply IH. revert Hlt. unfold evm_abi_encode. rewrite !append_sequence_length.
  cbn [map heads_length]. rewrite sequence_tails_cons, length_app. lia.
Qed.

(** ** The client's array decoder reads the client's encoding *)

(** *** Alignment *)

Definition whole_words (n : nat) : Prop := Nat.divide kWordSize n.

Lemma whole_words_add a b : whole_words a → whole_words b → whole_words (a + b).
Proof. apply Nat.divide_add_r. Qed.

Lemma append_padded_aligned data : whole_words (length (append_padded data)).
Proof.
  unfold append_padded, whole_words, kWordSize. set (n := length data).
  pose proof (Nat.div_mod_eq n 32) as Hn. pose proof (Nat.mod_upper_bound n 32 ltac:(lia)).
  case_bool_decide as Hr.
  - exists (n / 32)%nat. subst n. lia.
  - exists (n / 32 + 1)%nat. rewrite length_app, length_replicate. subst n. lia.
Qed.

Lemma sequence_aligned vs :
  Forall (λ v, whole_words (length (append_encoding v))) vs →
  whole_words (heads_length (encode_all vs)) ∧
  whole_words (length (sequence_tails (encode_all vs))).
Proof.
  induction 1 as [|v vs Hv _ [IH1 IH2]]; [by split; exists O|].
  cbn [map heads_length]. rewrite sequence_tails_cons, length_app. destruct (is_dynamic v).
  - split; [apply whole_words_add; [by exists 1%nat|done]|by apply whole_words_add].
  - split; [by apply whole_words_add|done].
Qed.

Lemma encoding_aligned t v : has_type t v → whole_words (length (append_encoding v)).
Proof.
  revert v. induction t as [| |t IH|ts IH] using AbiType_induction;
    intros [data|data|vs|vs] Ht; try done.
  - exists 1%nat. cbn in Ht |- *. by rewrite Ht.
  - cbn [append_encoding]. rewrite length_app.
    apply whole_words_add; [by exists 1%nat|apply append_padded_aligned].
  - destruct Ht as [_ Hvs]. cbn [append_encoding]. rewrite length_app, append_sequence_length.
    destruct (sequence_aligned vs) as [H1 H2].
    { rewrite Forall_forall in Hvs |- *. intros v Hv. by apply IH, Hvs. }
    apply whole_words_add; [by exists 1%nat|by apply whole_words_add].
  - rewrite has_type_tuple in Ht. cbn [append_encoding]. rewrite append_sequence_length.
    destruct (sequence_aligned vs) as [H1 H2]; [|by apply whole_words_add].
    clear -IH Ht. revert vs Ht. induction IH as [|t ts Ht1 _ IH]; intros vs Ht.
    + apply Forall2_nil_inv_l in Ht as ->. constructor.
    + apply Forall2_cons_inv_l in Ht as (v & vs' & Hv & Hvs & ->). constructor; auto.
Qed.

Lemma typed_aligned ts vs :
  Forall2 has_type ts vs → Forall (λ v, whole_words (length (append_encoding v))) vs.
Proof. induction 1; constructor; [by eapply encoding_aligned|done]. Qed.

(** *** Layout *)

Lemma sequence_tails_app a b : sequence_tails (a ++ b) = sequence_tails a ++ sequence_tails b.
Proof. apply flat_map_app. Qed.

Lemma sequence_heads_app a b offset :
  sequence_heads (a ++ b) offset =
    sequence_heads a offset ++ sequence_heads b (offset + Z.of_nat (length (sequence_tails a))).
Proof.
  revert offset. induction a as [|[[] bytes] a IH]; intros offset; cbn [app sequence_heads].
  - f_equal. cbn. lia.
  - rewrite IH, sequence_tails_cons, <- app_assoc, length_app. do 3 f_equal. lia.
  - rewrite IH, sequence_tails_cons, <- app_assoc. done.
Qed.

Lemma heads_length_app a b : heads_length (a ++ b) = (heads_length a + heads_length b)%nat.
Proof. induction a as [|[d bytes] a IH]; [done|]. cbn. rewrite IH. lia. Qed.

Definition uint_array (ns : list Z) : EvmAbiValue := Array (map (λ n, Word (word_of n)) ns).

Lemma uint_array_encoding ns :
  append_encoding (uint_array ns) =
    uint256_word (Z.of_nat (length ns)) ++ concat (map word_of ns).
Proof.
  unfold uint_array. cbn [append_encoding]. rewrite length_map, map_map. f_equal.
  unfold append_sequence. generalize (head_size (map (λ n, (is_dynamic (Word (word_of n)), append_encoding (Word (word_of n)))) ns)).
  intros offset. induction ns as [|n ns IH]; [done|].
  cbn [map sequence_heads is_dynamic append_encoding concat] in *.
  rewrite sequence_tails_cons, <- app_assoc. f_equal. exact IH.
Qed.

(** *** Words of the text *)

Lemma chunks_length n hex : length (chunks n hex) = n.
Proof. revert hex. induction n as [|n IH]; intros hex; [done|]. cbn. by rewrite IH. Qed.

Lemma chunks_app a m x y :
  length x = (64 * a)%nat → chunks (a + m) (x ++ y) = chunks a x ++ chunks m y.
Proof.
  revert x. induction a as [|a IH]; intros x Hx; [by destruct x|].
  cbn [chunks Nat.add app]. rewrite take_app_le, drop_app_le by lia.
  rewrite IH by (rewrite length_drop; lia). done.
Qed.

Lemma chunks_word n rest m :
  chunks (S m) (hex_chars (word_of n) ++ rest) = word_text n :: chunks m rest.
Proof.
  assert (length (hex_chars (word_of n)) = 64%nat) as Hl.
  { by rewrite hex_chars_length, word_of_length. }
  cbn [chunks]. by rewrite take_app_length', drop_app_length' by done.
Qed.

Lemma chunks_words ns rest m :
  chunks (length ns + m) (hex_chars (concat (map word_of ns)) ++ rest) =
    map word_text ns ++ chunks m rest.
Proof.
  induction ns as [|n ns IH]; [done|]. cbn [map concat length Nat.add app].
  by rewrite hex_chars_app, <- app_assoc, chunks_word, IH.
Qed.

Lemma size_loop_spec hex v value :
  hex_val hex = Some v → 0 ≤ value → is_u64 (value * 16 ^ Z.of_nat (length hex) + v) →
  size_loop hex value = Ok (value * 16 ^ Z.of_nat (length hex) + v).
Proof.
  revert v value. induction hex as [|c hex IH]; intros v value Hv Hpos Hu.
  { injection Hv as <-. cbn [size_loop length]. f_equal. cbn. lia. }
  apply hex_val_cons in Hv as (d & w & Hd & Hw & ->). pose proof (nibble_range _ _ Hd).
  destruct (hex_val_digits _ _ Hw) as (ds & _ & Ew & Hf & Hl).
  pose proof (val_bounds 16 ltac:(lia) _ Hf) as B. rewrite Ew, Hl in B.
  cbn [length] in *. rewrite Nat2Z.inj_succ, Z.pow_succ_r in * by lia.
  set (p := 16 ^ Z.of_nat (length hex)) in *. assert (1 ≤ p) by lia.
  cbn [size_loop]. rewrite (hex_value_nibble _ _ Hd). cbn [mbind res_bind].
  unfold is_u64, u64_max in *.
  pose proof (mul_overflow_test value 16 (18446744073709551615 - d) Hpos ltac:(lia)) as Ht.
  assert (value * 16 + d ≤ 18446744073709551615) by nia.
  destruct (Z.ltb_spec ((18446744073709551615 - d) / 16) value); [lia|].
  cbn [negb require mbind res_bind]. rewrite (IH w) by (done || lia). f_equal. lia.
Qed.

Lemma word_to_size n : is_u64 n → abi_word_to_size (word_text n) = Ok n.
Proof.
  intros Hn. destruct (word_text_val n) as [Hv Hl]; [unfold is_u64, u64_max in Hn; lia|].
  unfold abi_word_to_size, word_text. rewrite (canonical_word _ _ Hv Hl). cbn [mbind res_bind].
  by rewrite (size_loop_spec _ n) by (done || lia).
Qed.

Lemma uint_words_spec ns :
  Forall (λ n, 0 ≤ n < 2 ^ 256) ns → uint_words (map word_text ns) = Ok (map decimal_chars ns).
Proof.
  induction 1 as [|n ns Hn _ IH]; [done|]. cbn [map uint_words].
  destruct (word_text_val n Hn) as [Hv Hl]. destruct (word_decimals _ _ Hv Hl) as [Hu _].
  change (evm_uint_word_to_decimal (word_text n)) with
    (evm_uint_word_to_decimal ("0" :: "x" :: hex_chars (word_of n))%char).
  rewrite Hu. cbn [mbind res_bind]. by rewrite IH.
Qed.

Lemma data_words_text bytes n :
  length bytes = (32 * n)%nat → evm_data_words (to_hex bytes) = Ok (chunks n (hex_chars bytes)).
Proof.
  intros Hn. unfold evm_data_words, to_hex. rewrite chars_str.
  assert (strip_0x ("0" :: "x" :: hex_chars bytes)%char = hex_chars bytes) as -> by done.
  cbv zeta. rewrite hex_chars_length, Hn.
  replace (2 * (32 * n))%nat with (n * 64)%nat by lia.
  by rewrite Nat.div_mul, Nat.Div0.mod_mul by lia.
Qed.

(** The text of an encoding, cut at an array argument. *)
Lemma encoded_array_words pre ns post :
  let vs := pre ++ uint_array ns :: post in
  Forall (λ v, whole_words (length (append_encoding v))) vs →
  Z.of_nat (length (evm_abi_encode vs)) < 2 ^ 64 →
  ∃ head offset mid rest,
    evm_data_words (to_hex (evm_abi_encode vs)) =
      Ok (head ++ word_text (32 * offset) :: mid ++ word_text (Z.of_nat (length ns)) ::
          map word_text ns ++ rest) ∧
    length head = (heads_length (encode_all pre) / 32)%nat ∧
    offset = Z.of_nat (length head + 1 + length mid) ∧ is_u64 (32 * offset) ∧
    (heads_length (encode_all vs) / 32 ≤ length head + 1 + length mid)%nat.
Proof.
  intros vs Hal Hlt. subst vs. unfold evm_abi_encode in *. rewrite append_sequence_length in Hlt.
  unfold append_sequence. rewrite map_app in *. cbn [map] in *.
  set (P := encode_all pre) in *. set (Q := encode_all post) in *.
  assert (is_dynamic (uint_array ns) = true) as Hdyn by done. rewrite Hdyn in *.
  set (A := append_encoding (uint_array ns)) in *.
  apply Forall_app in Hal as [Hpre Hal]. apply Forall_cons in Hal as [_ Hpost].
  destruct (sequence_aligned _ Hpre) as [[hp Hhp] [tp Htp]].
  destruct (sequence_aligned _ Hpost) as [[hq Hhq] [tq Htq]].
  fold P in Hhp, Htp. fold Q in Hhq, Htq. unfold kWordSize in *.
  rewrite heads_length_app, sequence_tails_app, sequence_tails_cons, !length_app in Hlt.
  rewrite head_size_spec, heads_length_app, sequence_heads_app, sequence_tails_app, sequence_tails_cons.
  cbn [sequence_heads heads_length] in *. unfold kWordSize in *.
  rewrite uint256_word_spec by (unfold is_u64, u64_max; lia).
  set (off := Z.of_nat (heads_length P + (32 + heads_length Q)) + Z.of_nat (length (sequence_tails P))).
  set (H1 := sequence_heads P _). set (H2 := sequence_heads Q _).
  assert (length H1 = (hp * 32)%nat) as HH1 by (subst H1; by rewrite sequence_heads_length).
  assert (length H2 = (hq * 32)%nat) as HH2 by (subst H2; by rewrite sequence_heads_length).
  subst A. rewrite uint_array_encoding in Hlt |- *. rewrite length_app, uint256_word_length in Hlt.
  assert (length (concat (map word_of ns)) = (length ns * 32)%nat) as Hns.
  { clear. induction ns as [|n ns IH]; [done|]. cbn [map concat length].
    rewrite length_app, word_of_length, IH. lia. }
  rewrite uint256_word_spec by (unfold is_u64, u64_max; lia).
  set (T1 := sequence_tails P) in *. set (T2 := sequence_tails Q) in *.
  exists (chunks hp (hex_chars H1)), (Z.of_nat (hp + 1 + (hq + tp))),
    (chunks (hq + tp) (hex_chars (H2 ++ T1))), (chunks tq (hex_chars T2)).
  rewrite !chunks_length. split_and!; [|rewrite Hhp; by rewrite Nat.div_mul|done| |].
  - rewrite (data_words_text _ (hp + (1 + ((hq + tp) + (1 + (length ns + tq)))))).
    + rewrite <- !app_assoc, hex_chars_app, chunks_app by (rewrite hex_chars_length; lia).
      rewrite hex_chars_app. cbn [Nat.add]. rewrite chunks_word.
      rewrite (app_assoc H2), hex_chars_app, chunks_app
        by (rewrite hex_chars_length, length_app; lia).
      rewrite (hex_chars_app (word_of _)). cbn [Nat.add]. rewrite chunks_word.
      rewrite (hex_chars_app (concat _)), chunks_words.
      assert (off = 32 * Z.of_nat (hp + 1 + (hq + tp))) as -> by (subst off; lia). done.
    + rewrite !length_app, !word_of_length, Hns. lia.
  - unfold is_u64, u64_max. subst off. lia.
  - rewrite Hhp, Hhq.
    replace (hp * 32 + (32 + hq * 32))%nat with ((hp + 1 + hq) * 32)%nat by lia.
    rewrite Nat.div_mul; lia.
Qed.

Lemma tolower_idem c : tolower (tolower c) = tolower c.
Proof.
  pose proof (all_chars_spec (λ c, bool_decide (tolower (tolower c) = tolower c)) ltac:(by vm_compute) c) as Ht. by bools.
Qed.

Lemma uint_array_typed ns : Z.of_nat (length ns) < 2 ^ 64 → has_type (TArray TWord) (uint_array ns).
Proof. intros Hl. split; [by rewrite length_map|]. apply Forall_map, Forall_forall. intros n _. apply word_of_length. Qed.

Lemma uint_array_length ns : length (append_encoding (uint_array ns)) = (32 + 32 * length ns)%nat.
Proof.
  rewrite uint_array_encoding, length_app, uint256_word_length. f_equal.
  induction ns as [|n ns IH]; [done|]. cbn [map concat length]. rewrite length_app, word_of_length, IH. lia.
Qed.

(** What the encoder writes, the event decoder reads: in any typed argument
    list the decoder, pointed at the head slot of a dynamic array of unsigned
    integers, returns the decimal numerals of its elements. *)
Lemma decode_encoded_uint_array ts pre ns post :
  let vs := pre ++ uint_array ns :: post in
  Forall2 has_type ts vs → Forall (λ n, 0 ≤ n < 2 ^ 256) ns →
  Z.of_nat (length (evm_abi_encode vs)) < 2 ^ 64 →
  evm_decode_uint_array_head (to_hex (evm_abi_encode vs))
    (Z.of_nat (heads_length (encode_all pre) / 32))
    (Z.of_nat (heads_length (encode_all vs) / 32)) = Ok (map decimal_chars ns).
Proof.
  intros vs Ht Hns Hlt.
  assert (Z.of_nat (length ns) < 2 ^ 64) as Hn.
  { apply Forall2_app_inv_r in Ht as (ts1 & ts2 & _ & Ht & _).
    apply Forall2_cons_inv_r in Ht as (t & ts' & Ht & _). destruct t; try done.
    destruct Ht as [Ht _]. by rewrite length_map in Ht. }
  destruct (encoded_array_words pre ns post (typed_aligned _ _ Ht) Hlt)
    as (head & offset & mid & rest & Hw & Hh & Ho & Hu & Hle). fold vs in Hw, Hle.
  unfold evm_decode_uint_array_head. rewrite Hw. cbn [mbind res_bind]. rewrite <- Hh.
  assert (heads_length (encode_all vs) / 32 > length head)%nat as Hgt.
  { rewrite Hh. subst vs. rewrite map_app, heads_length_app. cbn [map heads_length].
    unfold kWordSize. cbn [is_dynamic uint_array].
    set (a := heads_length _). set (b := heads_length _).
    replace (a + (32 + b))%nat with (a + b + 1 * 32)%nat by lia. rewrite Nat.div_add by lia.
    pose proof (Nat.Div0.div_le_mono a (a + b) 32). lia. }
  set (k := (heads_length (encode_all vs) / 32)%nat) in *.
  unfold word_at. rewrite Nat2Z.id.
  rewrite (list_lookup_middle head _ _ _ eq_refl). cbn [from_option id].
  rewrite word_to_size by done. cbn [mbind res_bind].
  assert (32 * offset / 32 = offset) as E by (rewrite Z.mul_comm; by apply Z.div_mul). rewrite E.
  assert (32 * offset mod 32 = 0) as Em by (rewrite Z.mul_comm; by apply Z.mod_mul). rewrite Em.
  set (before := head ++ word_text (32 * offset) :: mid).
  assert (offset = Z.of_nat (length before)) as Hob.
  { subst before. rewrite length_app. cbn [length]. lia. }
  set (n := Z.of_nat (length ns)) in *.
  assert (head ++ word_text (32 * offset) :: mid ++ word_text n :: map word_text ns ++ rest =
          before ++ word_text n :: map word_text ns ++ rest) as ->.
  { subst before. by rewrite <- app_assoc. }
  rewrite Hob, Nat2Z.id, (list_lookup_middle before _ _ _ eq_refl). cbn [from_option id].
  rewrite word_to_size by (unfold is_u64, u64_max; lia).
  rewrite length_app. cbn [length]. rewrite length_app, length_map. fold n.
  destruct (Z.ltb_spec (Z.of_nat (length head)) (Z.of_nat (length before + S (length ns + length rest)))); [|lia].
  destruct (Z.leb_spec (Z.of_nat k) (Z.of_nat (length head))); [lia|].
  destruct (Z.ltb_spec (Z.of_nat (length before + S (length ns + length rest))) (Z.of_nat k)); [lia|].
  destruct (Z.ltb_spec (Z.of_nat (length before)) (Z.of_nat k)); [lia|].
  destruct (Z.ltb_spec (Z.of_nat (length before)) (Z.of_nat (length before + S (length ns + length rest)))); [|lia].
  cbn [negb orb Z.eqb require mbind res_bind]. subst n.
  match goal with |- context [?a <? ?b] => destruct (Z.ltb_spec a b); [lia|] end.
  cbn [negb require mbind res_bind].
  replace (Z.to_nat (Z.of_nat (length before) + 1)) with (S (length before)) by lia.
  rewrite Nat2Z.id, (cons_middle _ before), app_assoc.
  rewrite drop_app_length' by (rewrite length_app; cbn; lia).
  rewrite take_app_length' by (by rewrite length_map). by apply uint_words_spec.
Qed.

(** ** Witnesses *)

Lemma word_to_decimal_exact_witness :
  evm_int_word_to_decimal (chars (to_hex (word_of ((- 2 ^ 255) mod 2 ^ 256)))) =
    Ok (signed_decimal (- 2 ^ 255)) ∧
  evm_uint_word_to_decimal (chars (to_hex (word_of (2 ^ 256 - 1)))) =
    Ok (decimal_chars (2 ^ 256 - 1)).
Proof.
  split; [apply (proj1 (word_to_decimal_exact (- 2 ^ 255)))|
          apply (proj2 (word_to_decimal_exact (2 ^ 256 - 1)))]; lia.
Defined.

(** [f(bytes, (uint256, uint256[])[], uint256)] *)
Definition sample_types : list AbiType :=
  [TBytes; TArray (TTuple [TWord; TArray TWord]); TWord].
Definition sample_values : list EvmAbiValue :=
  [Bytes [1; 2; 3]; Array [Tuple [Word (word_of 7); uint_array [8; 9]];
                           Tuple [Word (word_of 1); uint_array []]]; Word (word_of 5)].

Lemma abi_roundtrip_witness :
  abi_decode sample_types (evm_abi_encode sample_values ++ [255]) = Some sample_values.
Proof.
  apply abi_roundtrip; [|by vm_compute].
  repeat constructor; try done; by vm_compute.
Defined.

Lemma decode_encoded_uint_array_witness :
  evm_decode_uint_array_head
    (to_hex (evm_abi_encode [Word (word_of 3); Bytes [1; 2]; uint_array [10; 2 ^ 255]])) 2 3 =
  Ok (map decimal_chars [10; 2 ^ 255]).
Proof.
  apply (decode_encoded_uint_array [TWord; TBytes; TArray TWord]
           [Word (word_of 3); Bytes [1; 2]] [10; 2 ^ 255] []); [| |by vm_compute].
  - repeat constructor; try done; by vm_compute.
  - repeat constructor; lia.
Defined.
