(* ===== verification/EvmTransaction.v ===== *)
(** * Legacy transactions (src/evm_transaction.cpp, OrderSigner::sign_hash)

    EIP-155 transactions: the signing hash over nine RLP fields, and the signed
    transaction with [v = 2 * chain_id + 35 + recovery id]. *)
From Stdlib Require Import Ascii String.
From S2P Require Import Prelude Text EvmBytes Crypto.

#[local] Open Scope Z_scope.

Record EvmLegacyTransaction := MkTransaction {
  nonce : string;
  gas_price : string;
  gas_limit : string;
  to : string;
  value : string;
  data : string;
  chain_id : Z }.

Record EvmSignedTransaction := MkSigned {
  raw_transaction : string;
  transaction_hash : string }.

Definition parse_hex_field (hex label : string) : res (list Z) :=
  rethrow_invalid (from_hex hex)
    (invalid_argument ("transaction " +:+ label +:+ " is not valid hex")).

(** [catch (const std::invalid_argument &error)]: the message is extended. *)
Definition encode_uint_field (text label : string) : res (list Z) :=
  match rlp_encode_uint <$> parse_uint256_word text with
  | Throw (invalid_argument what) =>
      Throw (invalid_argument ("transaction " +:+ label +:+ ": " +:+ what))
  | r => r
  end.

Definition unsigned_fields (tx : EvmLegacyTransaction) : res (list (list Z)) :=
  require (negb ((chain_id tx =? 0) || ((u64_max - 36) / 2 <? chain_id tx)))
    (invalid_argument "transaction chain_id is out of range");;
  to ← parse_hex_field (to tx) "to";
  require (bool_decide (length to = 20%nat))
    (invalid_argument "transaction to must be a 20-byte address");;
  nonce ← encode_uint_field (nonce tx) "nonce";
  gas_price ← encode_uint_field (gas_price tx) "gas_price";
  gas_limit ← encode_uint_field (gas_limit tx) "gas_limit";
  value ← encode_uint_field (value tx) "value";
  data ← parse_hex_field (data tx) "data";
  Ok [nonce; gas_price; gas_limit; rlp_encode_bytes to; value; rlp_encode_bytes data].

Section Signing.
Context `{K : Keccak} `{S : RecoverableSigner}.

(** The bytes whose hash is signed. *)
Definition signing_preimage (tx : EvmLegacyTransaction) : res (list Z) :=
  fields ← unsigned_fields tx;
  Ok (rlp_encode_list
        (fields ++ [rlp_encode_uint (uint256_word (chain_id tx));
                    rlp_encode_uint []; rlp_encode_uint []])).

Definition evm_legacy_transaction_signing_hash (tx : EvmLegacyTransaction) : res (list Z) :=
  keccak256 <$> signing_preimage tx.

(** [OrderSigner::sign_hash]: r || s || (27 + recovery id), as hex. *)
Definition sign_hash (private_key hash : list Z) : res string :=
  match sign_recoverable hash private_key with
  | None => Throw (runtime_error "Failed to sign")
  | Some (sig_serialized, recid) => Ok (to_hex (sig_serialized ++ [(recid + 27) mod 256]))
  end.

Definition evm_sign_legacy_transaction (private_key : list Z) (tx : EvmLegacyTransaction)
    : res EvmSignedTransaction :=
  hash ← evm_legacy_transaction_signing_hash tx;
  signature_text ← sign_hash private_key hash;
  signature ← from_hex signature_text;
  let last := nth 64 signature 0 in
  require (bool_decide (length signature = 65%nat) && ((last =? 27) || (last =? 28)))
    (runtime_error "signer returned an unexpected signature layout");;
  let recovery_id := last - 27 in
  let v := u64 (u64 (u64 (chain_id tx * 2) + 35) + recovery_id) in
  fields ← unsigned_fields tx;
  let raw :=
    rlp_encode_list
      (fields ++ [rlp_encode_uint (uint256_word v);
                  rlp_encode_uint (take 32 signature);
                  rlp_encode_uint (take 32 (drop 32 signature))]) in
  Ok (MkSigned (to_hex raw) (to_hex (keccak256 raw))).
End Signing.

(** ** Lemmas *)

Definition rlp_uint (n : Z) : rlp_item := RlpBytes (minimal_bytes n).

Lemma encode_uint_field_Ok text label bytes :
  encode_uint_field text label = Ok bytes →
  ∃ w, parse_uint256_word text = Ok w ∧ 0 ≤ word_val w < 2 ^ 256 ∧
    bytes = rlp_encode (rlp_uint (word_val w)).
Proof.
  unfold encode_uint_field. destruct (parse_uint256_word text) as [w|[]] eqn:E; try done.
  intros [= <-]. destruct (parse_uint256_word_wf _ _ E) as [Hw Hl]. exists w.
  pose proof (word_val_bounds w Hw) as B. rewrite Hl in B.
  split; [done|]. split; [done|]. by rewrite rlp_encode_uint_spec.
Qed.

Lemma parse_hex_field_Ok hex label bytes :
  parse_hex_field hex label = Ok bytes → from_hex hex = Ok bytes ∧ Forall is_byte bytes.
Proof.
  unfold parse_hex_field. intros H%rethrow_invalid_Ok. split; [done|].
  unfold from_hex, from_hex_chars in H. apply bind_Ok in H as (? & He%require_Ok & H).
  by eapply hex_pairs_Ok.
Qed.

Lemma uint_word_item n : is_u64 n → rlp_encode_uint (uint256_word n) = rlp_encode (rlp_uint n).
Proof.
  intros Hn. rewrite uint256_word_spec by done.
  rewrite rlp_encode_uint_spec by apply word_of_bytes.
  rewrite word_val_of; [done|]. unfold is_u64, u64_max in Hn. lia.
Qed.

(** The six fields common to both serialisations, by their numbers. *)
Record tx_numbers := MkNumbers {
  n_nonce : Z; n_gas_price : Z; n_gas_limit : Z; n_to : list Z; n_value : Z; n_data : list Z }.

Definition tx_reads (tx : EvmLegacyTransaction) (n : tx_numbers) : Prop :=
  (word_val <$> parse_uint256_word (nonce tx)) = Ok (n_nonce n) ∧
  (word_val <$> parse_uint256_word (gas_price tx)) = Ok (n_gas_price n) ∧
  (word_val <$> parse_uint256_word (gas_limit tx)) = Ok (n_gas_limit n) ∧
  from_hex (to tx) = Ok (n_to n) ∧
  (word_val <$> parse_uint256_word (value tx)) = Ok (n_value n) ∧
  from_hex (data tx) = Ok (n_data n).

Definition tx_item (n : tx_numbers) (last : list Z) : rlp_item :=
  RlpList ([rlp_uint (n_nonce n); rlp_uint (n_gas_price n); rlp_uint (n_gas_limit n);
            RlpBytes (n_to n); rlp_uint (n_value n); RlpBytes (n_data n)] ++ map rlp_uint last).

Lemma unsigned_fields_Ok tx fields :
  unsigned_fields tx = Ok fields → is_u64 (chain_id tx) →
  ∃ n, tx_reads tx n ∧ 0 < chain_id tx ≤ (u64_max - 36) / 2 ∧ length (n_to n) = 20%nat ∧
    ∀ last, Forall (λ z, 0 ≤ z) last →
      rlp_encode_list (fields ++ map (λ z, rlp_encode (rlp_uint z)) last) =
        rlp_encode (tx_item n last) ∧ rlp_bytes (tx_item n last).
Proof.
  intros H Hc. unfold unsigned_fields in H.
  apply bind_Ok in H as (? & Hchain%require_Ok & H). apply bind_Ok in H as (a & Ha & H).
  apply bind_Ok in H as (? & Hlen%require_Ok & H). bools.
  apply parse_hex_field_Ok in Ha as [Ha Hab].
  apply bind_Ok in H as (b1 & (w1 & E1 & V1 & ->)%encode_uint_field_Ok & H).
  apply bind_Ok in H as (b2 & (w2 & E2 & V2 & ->)%encode_uint_field_Ok & H).
  apply bind_Ok in H as (b3 & (w3 & E3 & V3 & ->)%encode_uint_field_Ok & H).
  apply bind_Ok in H as (b4 & (w4 & E4 & V4 & ->)%encode_uint_field_Ok & H).
  apply bind_Ok in H as (d & [Hd Hdb]%parse_hex_field_Ok & [= <-]).
  exists (MkNumbers (word_val w1) (word_val w2) (word_val w3) a (word_val w4) d).
  unfold is_u64 in Hc. split; [by unfold tx_reads; rewrite E1, E2, E3, E4|].
  split; [lia|]. split; [done|].
  intros last Hlast. unfold tx_item. cbn [n_nonce n_gas_price n_gas_limit n_to n_value n_data].
  split; [cbn [rlp_encode]; by rewrite map_app, map_map|].
  cbn. split_and!; try (apply minimal_bytes_bytes; lia); try done.
  induction Hlast; [done|]. cbn. split; [by apply minimal_bytes_bytes|done].
Qed.

Lemma rlp_weight_item n last : rlp_weight (tx_item n last) = (14 + 2 * length last)%nat.
Proof.
  unfold tx_item. cbn [app rlp_weight foldr rlp_uint].
  enough (foldr (λ i k, (1 + rlp_weight i + k)%nat) O (map rlp_uint last) = (2 * length last)%nat) as ->
    by lia.
  induction last as [|z last IH]; [done|]. cbn [map foldr length rlp_weight rlp_uint]. rewrite IH. lia.
Qed.

(** Reading a serialised transaction back. *)
Lemma tx_item_decodes n last :
  rlp_bytes (tx_item n last) → Z.of_nat (length (rlp_encode (tx_item n last))) < 2 ^ 64 →
  rlp_decode (14 + 2 * length last) (rlp_encode (tx_item n last)) = Some (tx_item n last, []).
Proof.
  intros Hb Hl. rewrite <- (app_nil_r (rlp_encode _)).
  apply rlp_decode_encode; [done|done|]. by rewrite rlp_weight_item.
Qed.

Lemma from_hex_length cs bytes : from_hex cs = Ok bytes → Forall is_byte bytes.
Proof.
  unfold from_hex, from_hex_chars. intros (? & He%require_Ok & H)%bind_Ok. by eapply hex_pairs_Ok.
Qed.

Lemma to_hex_item item raw :
  from_hex (to_hex (rlp_encode item)) = Ok raw → rlp_bytes item →
  Z.of_nat (length raw) < 2 ^ 64 → raw = rlp_encode item.
Proof.
  intros H Hb Hl. set (bytes := rlp_encode item) in *.
  assert (length raw = length bytes) as E.
  { unfold from_hex, to_hex in H. rewrite chars_str in H. unfold from_hex_chars in H.
    change (strip_0x ("0" :: "x" :: hex_chars bytes)%char) with (hex_chars bytes) in H.
    cbv zeta in H. apply bind_Ok in H as (? & He%require_Ok & H).
    destruct (hex_pairs_Ok _ _ _ (le_n _) He H) as (_ & E & _). rewrite hex_chars_length in E. lia. }
  rewrite from_hex_to_hex in H; [by injection H|].
  apply rlp_encode_is_bytes; [done|]. subst bytes. lia.
Qed.

Section Properties.
Context `{K : Keccak} `{S : RecoverableSigner}.

Lemma sign_hash_Ok key hash text :
  sign_hash key hash = Ok text →
  ∃ sig recid, sign_recoverable hash key = Some (sig, recid) ∧
    from_hex text = Ok (sig ++ [recid + 27]) ∧ Forall is_byte sig ∧ length sig = 64%nat ∧
    0 ≤ recid ≤ 3.
Proof using Type.
  unfold sign_hash. destruct (sign_recoverable hash key) as [[sig recid]|] eqn:E; [|done].
  intros [= <-]. exists sig, recid. pose proof (sign_length _ _ _ _ E) as Hl.
  pose proof (sign_bytes _ _ _ _ E) as Hb. pose proof (sign_recid _ _ _ _ E) as Hr.
  rewrite Z.mod_small by lia. split_and!; try done; try lia.
  apply from_hex_to_hex, Forall_snoc. split; [done|]. unfold is_byte. lia.
Qed.

(** The signing hash commits to the nine EIP-155 fields: the hashed bytes
    read back as [nonce, gasPrice, gas, to, value, data, chainId, 0, 0] with the
    integers the text fields denote. *)
Lemma signing_preimage_decodes tx preimage :
  signing_preimage tx = Ok preimage → is_u64 (chain_id tx) →
  Z.of_nat (length preimage) < 2 ^ 64 →
  ∃ n, tx_reads tx n ∧
    rlp_decode 20 preimage = Some (tx_item n [chain_id tx; 0; 0], []) ∧
    evm_legacy_transaction_signing_hash tx = Ok (keccak256 preimage).
Proof using Type.
  intros H Hc Hl. unfold evm_legacy_transaction_signing_hash. rewrite H.
  unfold signing_preimage in H. apply bind_Ok in H as (fields & Hf & [= <-]).
  destruct (unsigned_fields_Ok _ _ Hf Hc) as (n & Hn & _ & _ & Hi). exists n.
  split; [done|]. split; [|done].
  destruct (Hi [chain_id tx; 0; 0]) as [E Hb].
  { unfold is_u64 in Hc. repeat constructor; lia. }
  rewrite uint_word_item in * by done. change (rlp_encode_uint []) with (rlp_encode (rlp_uint 0)) in *.
  cbn [map] in E. rewrite E in *. by apply (tx_item_decodes n [chain_id tx; 0; 0]).
Qed.

(** A signed transaction carries the same six fields, the EIP-155 value
    [v = 2 * chain_id + 35 + recovery id] computed without overflow, and the
    signature of the signing hash; its hash is the hash of the raw bytes. *)
Lemma signed_transaction_decodes key tx signed raw :
  evm_sign_legacy_transaction key tx = Ok signed → is_u64 (chain_id tx) →
  from_hex (raw_transaction signed) = Ok raw → Z.of_nat (length raw) < 2 ^ 64 →
  ∃ n hash r s recid,
    tx_reads tx n ∧ evm_legacy_transaction_signing_hash tx = Ok hash ∧
    sign_recoverable hash key = Some (r ++ s, recid) ∧ 0 ≤ recid ≤ 1 ∧
    2 * chain_id tx + 35 + recid ≤ u64_max ∧
    rlp_decode 20 raw =
      Some (tx_item n [2 * chain_id tx + 35 + recid; word_val r; word_val s], []) ∧
    transaction_hash signed = to_hex (keccak256 raw).
Proof using Type.
  intros H Hc Hraw Hlen. unfold evm_sign_legacy_transaction in H.
  apply bind_Ok in H as (hash & Hhash & H). apply bind_Ok in H as (text & Htext & H).
  apply sign_hash_Ok in Htext as (sig & recid & Hsign & Hfrom & Hsb & Hsl & Hr).
  rewrite Hfrom in H. cbn [mbind res_bind] in H.
  apply bind_Ok in H as (? & Hg%require_Ok & H). apply bind_Ok in H as (fields & Hf & [= <-]).
  destruct (unsigned_fields_Ok _ _ Hf Hc) as (n & Hn & Hchain & _ & Hi).
  rewrite app_nth2, Hsl in Hg, Hraw |- * by (rewrite Hsl; lia). cbn [nth Nat.sub] in Hg, Hraw |- *.
  assert (recid = 0 ∨ recid = 1) as Hrecid by (bools; lia).
  assert (2 * chain_id tx + 35 + recid ≤ u64_max) as Hv.
  { pose proof (Z.mul_div_le (u64_max - 36) 2 ltac:(lia)). lia. }
  assert (u64 (u64 (u64 (chain_id tx * 2) + 35) + (recid + 27 - 27)) =
          2 * chain_id tx + 35 + recid) as Ev.
  { unfold is_u64 in Hc. rewrite (u64_id (chain_id tx * 2)) by (unfold is_u64; lia).
    rewrite (u64_id (_ + 35)) by (unfold is_u64; lia). rewrite u64_id by (unfold is_u64; lia). lia. }
  rewrite Ev in *. clear Ev. set (v := 2 * chain_id tx + 35 + recid) in *.
  rewrite take_app_le, drop_app_le in Hraw |- * by lia.
  rewrite take_app_le in Hraw |- * by (rewrite length_drop; lia).
  set (r := take 32 sig) in *. set (s := drop 32 sig) in *.
  assert (take 32 s = s) as Es by (apply take_ge; subst s; rewrite length_drop; lia).
  rewrite Es in *.
  assert (sig = r ++ s) as Esig by (symmetry; apply take_drop).
  rewrite Esig in Hsb. apply Forall_app in Hsb as [Hrb Hsb].
  destruct (Hi [v; word_val r; word_val s]) as [E Hb].
  { pose proof (word_val_bounds r Hrb). pose proof (word_val_bounds s Hsb).
    unfold is_u64 in Hc. repeat constructor; lia. }
  rewrite uint_word_item, !rlp_encode_uint_spec in Hraw |- * by (done || subst v; unfold is_u64, u64_max in *; lia).
  cbn [map] in E. unfold rlp_uint in E at 2 3. rewrite E in Hraw |- *.
  cbn [raw_transaction transaction_hash] in *.
  set (item := tx_item n [v; word_val r; word_val s]) in *.
  assert (raw = rlp_encode item) as ->.
  { by apply to_hex_item. }
  exists n, hash, r, s, recid. rewrite <- Esig.
  split_and!; try done; try lia. by apply (tx_item_decodes n [v; word_val r; word_val s]).
Qed.
End Properties.

(** ** Witnesses *)

Definition sample_transaction : EvmLegacyTransaction :=
  MkTransaction "9" "0x4a817c800" "21000" "0x3535353535353535353535353535353535353535"
    "1000000000000000000" "0x" 137.

Definition sample_key : list Z := word_of 70.

Definition signed_raw : res (list Z) :=
  signed ← evm_sign_legacy_transaction sample_key sample_transaction;
  from_hex (raw_transaction signed).

Lemma signed_transaction_decodes_witness :
  match evm_sign_legacy_transaction sample_key sample_transaction with
  | Throw _ => False
  | Ok signed =>
      match from_hex (raw_transaction signed) with
      | Throw _ => False
      | Ok raw => ∃ n hash r s recid,
          tx_reads sample_transaction n ∧
          evm_legacy_transaction_signing_hash sample_transaction = Ok hash ∧
          sign_recoverable hash sample_key = Some (r ++ s, recid) ∧ 0 ≤ recid ≤ 1 ∧
          2 * chain_id sample_transaction + 35 + recid ≤ u64_max ∧
          rlp_decode 20 raw = Some (tx_item n [2 * chain_id sample_transaction + 35 + recid; word_val r; word_val s], []) ∧
          transaction_hash signed = to_hex (keccak256 raw)
      end
  end.
Proof.
  assert (is_u64 (chain_id sample_transaction)) as Hc by (by vm_compute).
  assert (match signed_raw with
          | Ok p => Z.of_nat (length p) <? 2 ^ 64 | Throw _ => false end = true) as H by (by vm_compute).
  unfold signed_raw in H.
  destruct (evm_sign_legacy_transaction sample_key sample_transaction) as [signed|] eqn:E;
    cbn [mbind res_bind] in H; [|discriminate H].
  destruct (from_hex (raw_transaction signed)) as [raw|] eqn:R; [|discriminate H].
  exact (signed_transaction_decodes sample_key sample_transaction signed raw E Hc R
           (proj1 (Z.ltb_lt _ _) H)).
Defined.
