(* ===== verification/OrderSigner.v ===== *)
(** * Order signing (src/order_signer.cpp, order_signer_v2.cpp,
    order_signer_domain.cpp)

    An order is hashed as an EIP-712 struct of twelve words, combined with the
    hash of its exchange's domain, and signed; deposit wallets (POLY_1271) sign a
    nested ERC-7739 envelope instead.  The signer keeps a cache of domain hashes,
    so signing is a step from one signer state to the next. *)
From Stdlib Require Import Ascii String.
From S2P Require Import Prelude Text EvmBytes Crypto EvmTransaction.

#[local] Open Scope Z_scope.

(** ** Data *)

(** [enum class SignatureType] and [enum class OrderSide] are integers that a cast
    can take outside their enumerators. *)
Definition EOA : Z := 0.
Definition POLY_PROXY : Z := 1.
Definition POLY_GNOSIS_SAFE : Z := 2.
Definition POLY_1271 : Z := 3.
Definition side_BUY : Z := 0.
Definition side_SELL : Z := 1.

Record OrderData := MkOrder {
  maker : string;
  taker : string;
  token_id : string;
  maker_amount : string;
  taker_amount : string;
  side : Z;
  fee_rate_bps : string;
  order_nonce : string;
  signer : string;
  expiration : string;
  timestamp : string;
  metadata : string;
  builder : string;
  signature_type : Z }.

(** [SignedOrder] repeats the order's fields next to the salt and signature. *)
Record SignedOrder := MkSignedOrder {
  salt : string;
  signed_fields : OrderData;
  signature : string }.

Record OrderSigner := MkOrderSigner {
  private_key_ : list Z;
  address_ : string;
  chain_id_ : Z;
  domain_cache_ : gmap string (list Z) }.

(** A call that may throw leaves the signer in a state either way. *)
Definition step (A : Type) : Type := OrderSigner * res A.

Definition zeros : list Z := replicate 32 0.
Definition ZERO_ADDRESS : string := to_hex (replicate 20 0).
Definition BYTES32_ZERO : string := to_hex zeros.

Definition V2_ORDER_TYPE : string :=
  "Order(uint256 salt,address maker,address signer,uint256 tokenId," +:+
  "uint256 makerAmount,uint256 takerAmount,uint8 side,uint8 signatureType," +:+
  "uint256 timestamp,bytes32 metadata,bytes32 builder)".

(** ** Words of the struct *)

(** The decimal loop of [encode_uint256]. *)
Fixpoint encode_decimal (digits : list ascii) (result : list Z) : res (list Z) :=
  match digits with
  | [] => Ok result
  | digit :: digits =>
      let '(result, carry) := word_mul_add result (decimal_digit digit) in
      require (carry =? 0) (invalid_argument "uint256 value exceeds 32 bytes");;
      encode_decimal digits result
  end.

Definition has_lower_0x (cs : list ascii) : bool :=
  match cs with
  | c :: x :: _ => bool_decide (c = "0"%char) && bool_decide (x = "x"%char)
  | _ => false
  end.

Definition encode_uint256 (value : string) : res (list Z) :=
  let cs := chars value in
  if bool_decide (cs = []) then Ok zeros
  else if has_lower_0x cs then
    bytes ← from_hex value;
    require (bool_decide (length bytes ≤ 32)%nat)
      (invalid_argument "uint256 value exceeds 32 bytes");;
    Ok (replicate (32 - length bytes) 0 ++ bytes)
  else
    require (all_decimal cs)
      (invalid_argument "uint256 value must be an unsigned decimal integer");;
    encode_decimal cs zeros.

Definition encode_address (addr : string) : res (list Z) :=
  bytes ← from_hex addr;
  require (bool_decide (length bytes = 20%nat))
    (invalid_argument "order address must be exactly 20 bytes");;
  Ok (replicate 12 0 ++ bytes).

Definition encode_bytes32 (value : string) : res (list Z) :=
  bytes ← from_hex (if bool_decide (value = "") then BYTES32_ZERO else value);
  require (bool_decide (length bytes = 32%nat))
    (invalid_argument "bytes32 value must be exactly 32 bytes");;
  Ok bytes.

(** [(chain_id >> (i * 8)) & 0xFF] in the last [n] bytes of a word. *)
Definition low_bytes (n : nat) (v : Z) : list Z :=
  replicate (32 - n) 0 ++ reverse (map (λ i, Z.land (Z.shiftr v (8 * Z.of_nat i)) 255) (seq 0 n)).

(** [side_enc[31] = static_cast<uint8_t>(v)] *)
Definition uint8_word (v : Z) : list Z := replicate 31 0 ++ [v mod 256].

Definition string_to_hex_no_prefix (text : string) : string :=
  str (hex_chars (bytes_of_string text)).

(** [std::setfill('0') << std::setw(4)] of a number in hex. *)
Definition hex_setw4 (n : Z) : string :=
  let ds := map digit_char (digits 16 n) in
  str (replicate (4 - length ds) "0"%char ++ ds).

Definition validate_order_enums (order : OrderData) : res unit :=
  require ((side order =? side_BUY) || (side order =? side_SELL))
    (invalid_argument "order side must be BUY or SELL");;
  require ((signature_type order =? EOA) || (signature_type order =? POLY_PROXY) ||
           (signature_type order =? POLY_GNOSIS_SAFE) || (signature_type order =? POLY_1271))
    (invalid_argument "unsupported order signature type").

Section Signer.
Context `{K : Keccak} `{S : RecoverableSigner}.

Definition hash_string (s : string) : list Z := keccak256 (bytes_of_string s).

(** ** Domains *)

Definition domain_preimage (name version : string) (chain_id : Z) (verifying_contract : string)
    : res (list Z) :=
  contract_bytes ← from_hex verifying_contract;
  require (bool_decide (length contract_bytes = 20%nat))
    (invalid_argument "verifying contract must be a 20-byte address");;
  Ok (hash_string ("EIP712Domain(string name,string version,uint256 chainId," +:+
                   "address verifyingContract)") ++
      hash_string name ++ hash_string version ++ low_bytes 4 chain_id ++
      replicate 12 0 ++ contract_bytes).

Definition hash_domain (name version : string) (chain_id : Z) (verifying_contract : string)
    : res (list Z) :=
  keccak256 <$> domain_preimage name version chain_id verifying_contract.

Definition fresh_domain_hash (self : OrderSigner) (exchange_address : string) : res (list Z) :=
  hash_domain "Polymarket CTF Exchange" "2" (chain_id_ self) exchange_address.

Definition with_cache (self : OrderSigner) (cache : gmap string (list Z)) : OrderSigner :=
  MkOrderSigner (private_key_ self) (address_ self) (chain_id_ self) cache.

(** [try_emplace] inserts a value-initialised array first, then the hash is
    assigned to it: a throw leaves the zeros in the cache. *)
Definition v2_domain_hash (self : OrderSigner) (exchange_address : string) : step (list Z) :=
  match domain_cache_ self !! exchange_address with
  | Some hash => (self, Ok hash)
  | None =>
      let emplaced := with_cache self (<[exchange_address := zeros]> (domain_cache_ self)) in
      match fresh_domain_hash self exchange_address with
      | Throw e => (emplaced, Throw e)
      | Ok hash =>
          (with_cache emplaced (<[exchange_address := hash]> (domain_cache_ emplaced)), Ok hash)
      end
  end.

Definition encode_eip712 (domain_hash struct_hash : list Z) : list Z :=
  keccak256 ([25; 1] ++ domain_hash ++ struct_hash).

(** ** Orders *)

(** The words after the type hash, in the order the code evaluates them. *)
Definition order_words (order : OrderData) (salt : string) : res (list (list Z)) :=
  salt ← encode_uint256 salt;
  maker ← encode_address (maker order);
  signer ← encode_address (signer order);
  token_id ← encode_uint256 (token_id order);
  maker_amount ← encode_uint256 (maker_amount order);
  taker_amount ← encode_uint256 (taker_amount order);
  timestamp ← encode_uint256 (timestamp order);
  metadata ← encode_bytes32 (metadata order);
  builder ← encode_bytes32 (builder order);
  Ok [salt; maker; signer; token_id; maker_amount; taker_amount;
      uint8_word (side order); uint8_word (signature_type order);
      timestamp; metadata; builder].

Definition order_preimage (order : OrderData) (salt : string) : res (list Z) :=
  words ← order_words order salt;
  Ok (hash_string V2_ORDER_TYPE ++ concat words).

Definition hash_order_v2 (order : OrderData) (salt : string) : res (list Z) :=
  keccak256 <$> order_preimage order salt.

Definition type_suffix : string :=
  string_to_hex_no_prefix V2_ORDER_TYPE +:+
  hex_setw4 (Z.of_nat (length (chars V2_ORDER_TYPE))).

Definition strip_prefix (hex : string) : string := str (strip_0x (chars hex)).

(** [std::to_string] of a signed integer. *)
Definition int_to_string (z : Z) : string :=
  if z <? 0 then str ("-"%char :: decimal_chars (- z)) else to_string z.

Definition sign_poly_1271 (self : OrderSigner) (domain_hash order_hash : list Z)
    (verifying_contract : string) : res string :=
  chain_id_enc ← encode_uint256 (int_to_string (chain_id_ self));
  verifying_contract_enc ← encode_address verifying_contract;
  salt_enc ← encode_bytes32 BYTES32_ZERO;
  let encoded :=
    hash_string ("TypedDataSign(Order contents,string name,string version,uint256 chainId," +:+
                 "address verifyingContract,bytes32 salt)" +:+ V2_ORDER_TYPE) ++
    order_hash ++ hash_string "DepositWallet" ++ hash_string "1" ++
    chain_id_enc ++ verifying_contract_enc ++ salt_enc in
  let solady_struct_hash := keccak256 encoded in
  inner_signature ← sign_hash (private_key_ self) (encode_eip712 domain_hash solady_struct_hash);
  Ok ("0x" +:+ strip_prefix inner_signature +:+ strip_prefix (to_hex domain_hash) +:+
      strip_prefix (to_hex order_hash) +:+ type_suffix).

(** [if (field.empty()) field = default;] *)
Definition or_default (field default : string) : string :=
  if bool_decide (field = "") then default else field.

Definition resolve_order (order : OrderData) (now_millis : string) : OrderData :=
  MkOrder (maker order) (or_default (taker order) ZERO_ADDRESS) (token_id order)
    (maker_amount order) (taker_amount order) (side order) (fee_rate_bps order)
    (order_nonce order) (or_default (signer order) (maker order))
    (or_default (expiration order) "0") (or_default (timestamp order) now_millis)
    (or_default (metadata order) BYTES32_ZERO) (or_default (builder order) BYTES32_ZERO)
    (signature_type order).

(** [now_millis] is the system clock's reading. *)
Definition sign_order_with_salt (self : OrderSigner) (now_millis : string)
    (order : OrderData) (exchange_address salt : string) : step SignedOrder :=
  match validate_order_enums order with
  | Throw e => (self, Throw e)
  | Ok _ =>
      let resolved := resolve_order order now_millis in
      match v2_domain_hash self exchange_address with
      | (self, Throw e) => (self, Throw e)
      | (self, Ok domain_hash) =>
          (self,
           order_hash ← hash_order_v2 resolved salt;
           signature ←
             (if signature_type resolved =? POLY_1271
              then sign_poly_1271 self domain_hash order_hash (signer resolved)
              else
                require (bool_decide (signer resolved = address_ self))
                  (runtime_error "signer does not match private key address");;
                sign_hash (private_key_ self) (encode_eip712 domain_hash order_hash));
           Ok (MkSignedOrder salt resolved signature))
      end
  end.

(** ** Construction *)

(** EIP-55: an address letter is upper case where the hash has a high nibble. *)
Definition checksum_char (addr_hash : list Z) (i : nat) (c : ascii) : ascii :=
  if in_range "a" "f" c then
    let hash_nibble :=
      Z.land (Z.shiftr (nth (i / 2) addr_hash 0) (if Nat.even i then 4 else 0)) 15 in
    if 8 <=? hash_nibble then chr (code c - 32) else c
  else c.

Definition derive_address (private_key : list Z) : res string :=
  match public_key private_key with
  | None => Throw (runtime_error "Failed to create public key")
  | Some pubkey_data =>
      let hash := keccak256 pubkey_data in
      let addr_lower := hex_chars (drop 12 hash) in
      let addr_hash := keccak256 (map code addr_lower) in
      Ok (str ("0"%char :: "x"%char :: imap (checksum_char addr_hash) addr_lower))
  end.

Definition make_signer (private_key : string) (chain_id : Z) : res OrderSigner :=
  private_key_bytes ← from_hex private_key;
  require (bool_decide (length private_key_bytes = 32%nat))
    (runtime_error "Invalid private key length");;
  address ← derive_address private_key_bytes;
  Ok (MkOrderSigner private_key_bytes address chain_id ∅).
End Signer.

(** ** Lemmas on words *)

Definition is_word (w : list Z) : Prop := Forall is_byte w ∧ length w = 32%nat.

Lemma zeros_bytes n : Forall is_byte (replicate n 0).
Proof. apply Forall_replicate. unfold is_byte. lia. Qed.

Lemma from_hex_bytes text bytes : from_hex text = Ok bytes → Forall is_byte bytes.
Proof. apply from_hex_length. Qed.

Lemma padded_word n bytes :
  Forall is_byte bytes → (n + length bytes = 32)%nat → is_word (replicate n 0 ++ bytes).
Proof.
  intros Hb Hl. split; [apply Forall_app; split; [apply zeros_bytes|done]|].
  by rewrite length_app, length_replicate.
Qed.

Lemma encode_decimal_word cs w r :
  all_decimal cs = true → is_word w → encode_decimal cs w = Ok r → is_word r.
Proof.
  revert w. induction cs as [|c cs IH]; intros w Hd [Hw Hl] H; [by injection H as <-|].
  cbn in Hd. apply andb_true_iff in Hd as [Hc Hd]. cbn [encode_decimal] in H.
  destruct (word_mul_add w (decimal_digit c)) as [w1 c1] eqn:E.
  destruct (word_mul_add_spec _ _ _ _ Hw (decimal_digit_range c Hc) E) as (Hw1 & Hl1 & _).
  apply bind_Ok in H as (? & _ & H). apply (IH w1); [done| |done]. split; [done|lia].
Qed.

Lemma encode_uint256_word value w : encode_uint256 value = Ok w → is_word w.
Proof.
  unfold encode_uint256. case_bool_decide; [|case_if].
  - intros [= <-]. split; [apply zeros_bytes|done].
  - intros (bytes & Hb%from_hex_bytes & H1)%bind_Ok.
    apply bind_Ok in H1 as (? & Hl%require_Ok & [= <-]). apply bool_decide_eq_true in Hl.
    apply padded_word; [done|lia].
  - intros (? & Hd%require_Ok & H1)%bind_Ok. apply (encode_decimal_word _ _ _ Hd) in H1; [done|].
    split; [apply zeros_bytes|done].
Qed.

Lemma encode_address_word addr w : encode_address addr = Ok w → is_word w.
Proof.
  unfold encode_address. intros (bytes & Hb%from_hex_bytes & H)%bind_Ok.
  apply bind_Ok in H as (? & Hl%require_Ok & <-%Ok_inj). apply bool_decide_eq_true in Hl.
  apply padded_word; [done|lia].
Qed.

Lemma encode_bytes32_word value w : encode_bytes32 value = Ok w → is_word w.
Proof.
  unfold encode_bytes32. intros (bytes & Hb%from_hex_bytes & H)%bind_Ok.
  apply bind_Ok in H as (? & Hl%require_Ok & [= <-]). by apply bool_decide_eq_true in Hl.
Qed.

Lemma uint8_word_word v : is_word (uint8_word v).
Proof.
  apply padded_word; [|done]. constructor; [|constructor]. apply Z.mod_pos_bound. lia.
Qed.

Create HintDb words_db.
#[export] Hint Resolve encode_uint256_word encode_address_word encode_bytes32_word
  uint8_word_word : words_db.

Lemma order_words_Ok order salt words :
  order_words order salt = Ok words → Forall is_word words ∧ length words = 11%nat.
Proof.
  unfold order_words. intros H. res_inv. split; [|done].
  repeat (apply Forall_cons_2; [by eauto with words_db|]). constructor.
Qed.

(** A concatenation of words determines them. *)
Lemma concat_words_inj ws1 ws2 :
  Forall is_word ws1 → Forall is_word ws2 → length ws1 = length ws2 →
  concat ws1 = concat ws2 → ws1 = ws2.
Proof.
  intros H1. revert ws2. induction H1 as [|w1 ws1 [_ Hl1] _ IH];
    intros [|w2 ws2] H2 Hlen E; try done.
  apply Forall_cons in H2 as [[_ Hl2] H2]. cbn in E. injection Hlen as Hlen.
  apply app_inj_1 in E as [-> E]; [|congruence]. f_equal. by apply IH.
Qed.

(** ** Domain cache *)

Section Properties.
Context `{K : Keccak} `{S : RecoverableSigner}.

(** What the cache may hold for an address: the right hash of a valid one, zeros
    for an invalid one. *)
Definition cache_entry_ok (self : OrderSigner) (a : string) (h : list Z) : Prop :=
  match fresh_domain_hash self a with Ok h' => h = h' | Throw _ => h = zeros end.

Definition cache_ok (self : OrderSigner) : Prop :=
  map_Forall (cache_entry_ok self) (domain_cache_ self).

Lemma v2_domain_hash_spec self a self' r :
  v2_domain_hash self a = (self', r) → cache_ok self →
  private_key_ self' = private_key_ self ∧ address_ self' = address_ self ∧
  chain_id_ self' = chain_id_ self ∧ cache_ok self' ∧
  (∀ h, fresh_domain_hash self a = Ok h → r = Ok h).
Proof using Type.
  unfold v2_domain_hash. destruct (domain_cache_ self !! a) as [h|] eqn:E.
  { intros [<- <-]%pair_equal_spec Hc. split_and!; try done. specialize (Hc _ _ E).
    unfold cache_entry_ok in Hc. intros h' Hh. by rewrite Hh in Hc; subst. }
  destruct (fresh_domain_hash self a) as [h|e] eqn:Ef; intros [<- <-]%pair_equal_spec Hc; split_and!; try done.
  - cbn. rewrite insert_insert_eq. apply map_Forall_insert_2; [|done].
    unfold cache_entry_ok. change (fresh_domain_hash _ a) with (fresh_domain_hash self a).
    by rewrite Ef.
  - apply map_Forall_insert_2; [|done].
    unfold cache_entry_ok. change (fresh_domain_hash _ a) with (fresh_domain_hash self a).
    by rewrite Ef.
Qed.

(** States a signer goes through: construction, then any calls. *)
Inductive reachable : OrderSigner → Prop :=
  | reachable_make key chain self : make_signer key chain = Ok self → reachable self
  | reachable_sign self now order exchange salt self' r :
      reachable self → sign_order_with_salt self now order exchange salt = (self', r) →
      reachable self'.

Lemma sign_order_cache self now order exchange salt self' r :
  sign_order_with_salt self now order exchange salt = (self', r) → cache_ok self → cache_ok self'.
Proof using Type.
  unfold sign_order_with_salt. destruct (validate_order_enums order) as [?|e].
  - destruct (v2_domain_hash self exchange) as [s' [dh|e]] eqn:E; intros [<- <-]%pair_equal_spec Hc;
      by apply (v2_domain_hash_spec _ _ _ _ E Hc).
  - by intros [<- <-]%pair_equal_spec.
Qed.

Lemma reachable_cache self : reachable self → cache_ok self.
Proof using Type.
  induction 1 as [key chain self H|self now order ex salt self' r _ IH H].
  - unfold make_signer in H. apply bind_Ok in H as (? & _ & H). apply bind_Ok in H as (? & _ & H).
    apply bind_Ok in H as (? & _ & [= <-]). apply map_Forall_empty.
  - by apply (sign_order_cache _ _ _ _ _ _ _ H).
Qed.

(** Whatever was signed before, whichever calls failed, the domain hash of a
    valid exchange address is the one a fresh signer computes. *)
Lemma domain_hash_history_independent self exchange hash :
  reachable self → fresh_domain_hash self exchange = Ok hash →
  snd (v2_domain_hash self exchange) = Ok hash.
Proof using Type.
  intros Hr Hf. destruct (v2_domain_hash self exchange) as [self' r] eqn:E.
  destruct (v2_domain_hash_spec _ _ _ _ E (reachable_cache _ Hr)) as (_ & _ & _ & _ & H).
  by apply H.
Qed.

(** An exchange address that is not a 20-byte address is refused once only:
    the first call throws, and every later one returns 32 zero bytes as its domain
    hash, because the failed call leaves its value-initialised cache entry. *)
Lemma invalid_exchange_cached_as_zeros self exchange e :
  domain_cache_ self !! exchange = None → fresh_domain_hash self exchange = Throw e →
  ∃ self', v2_domain_hash self exchange = (self', Throw e) ∧
    v2_domain_hash self' exchange = (self', Ok zeros).
Proof using Type.
  intros Hc Hf. eexists. unfold v2_domain_hash at 1. rewrite Hc, Hf. split; [done|].
  unfold v2_domain_hash. cbn. by rewrite lookup_insert_eq.
Qed.


(** *** Signatures *)

Definition order_type_bytes : list Z := bytes_of_string V2_ORDER_TYPE.

Lemma type_suffix_hex :
  type_suffix = str (hex_chars (order_type_bytes ++ be 256 2 (Z.of_nat (length order_type_bytes)))).
Proof using Type. by vm_compute. Qed.

Lemma strip_prefix_to_hex bytes : strip_prefix (to_hex bytes) = str (hex_chars bytes).
Proof using Type. unfold strip_prefix, to_hex. by rewrite chars_str. Qed.

Lemma hash_is_bytes (m : res (list Z)) h : keccak256 <$> m = Ok h → Forall is_byte h.
Proof using Type. intros (p & _ & <-)%fmap_Ok. apply keccak256_bytes. Qed.

Lemma sign_hash_text key hash text :
  sign_hash key hash = Ok text →
  ∃ sig recid, sign_recoverable hash key = Some (sig, recid) ∧ text = to_hex (sig ++ [27 + recid]) ∧
    Forall is_byte (sig ++ [27 + recid]).
Proof using Type.
  unfold sign_hash. destruct (sign_recoverable hash key) as [[sig recid]|] eqn:E; [|done].
  intros <-%Ok_inj. exists sig, recid. pose proof (sign_bytes _ _ _ _ E) as Hb.
  pose proof (sign_recid _ _ _ _ E). rewrite Z.mod_small, (Z.add_comm recid) by lia.
  split_and!; [done|done|]. apply Forall_snoc. split; [done|]. unfold is_byte. lia.
Qed.

(** The digest the ERC-7739 envelope signs. *)
Definition poly_1271_digest (self : OrderSigner) (domain_hash order_hash : list Z)
    (verifying_contract : string) : res (list Z) :=
  chain ← encode_uint256 (int_to_string (chain_id_ self));
  contract ← encode_address verifying_contract;
  Ok (encode_eip712 domain_hash (keccak256
    (hash_string ("TypedDataSign(Order contents,string name,string version,uint256 chainId," +:+
                  "address verifyingContract,bytes32 salt)" +:+ V2_ORDER_TYPE) ++
     order_hash ++ hash_string "DepositWallet" ++ hash_string "1" ++ chain ++ contract ++ zeros))).

Lemma sign_poly_1271_Ok self dh oh contract text :
  sign_poly_1271 self dh oh contract = Ok text → Forall is_byte dh → Forall is_byte oh →
  ∃ digest sig recid,
    poly_1271_digest self dh oh contract = Ok digest ∧
    sign_recoverable digest (private_key_ self) = Some (sig, recid) ∧
    from_hex text = Ok (sig ++ [27 + recid] ++ dh ++ oh ++ order_type_bytes ++
                        be 256 2 (Z.of_nat (length order_type_bytes))).
Proof using Type.
  unfold sign_poly_1271, poly_1271_digest. intros H Hd Ho.
  apply bind_Ok in H as (chain & -> & H). apply bind_Ok in H as (c & -> & H).
  cbn [mbind res_bind].
  assert (encode_bytes32 BYTES32_ZERO = Ok zeros) as E by (by vm_compute). rewrite E in H.
  cbn [mbind res_bind] in H. apply bind_Ok in H as (inner & Hi & <-%Ok_inj).
  apply sign_hash_text in Hi as (sig & recid & Hs & -> & Hb).
  eexists _, sig, recid. split; [done|]. split; [exact Hs|].
  rewrite !strip_prefix_to_hex, type_suffix_hex, <- !str_app, <- !hex_chars_app.
  change ("0x" +:+ str (hex_chars ?b)) with (to_hex b).
  rewrite from_hex_to_hex; [by rewrite <- !app_assoc|].
  apply Forall_app. split; [done|]. repeat (apply Forall_app; split; [done|]).
  apply Forall_app. split; [apply bytes_of_string_bytes|by apply be_digits].
Qed.

(** C3: a signed order carries exactly the fields that were hashed: hashing the
    returned fields and salt for the given exchange gives the digest the key
    signed, in the plain layout [r || s || v], or for a deposit wallet in the
    ERC-7739 envelope followed by domain hash, order hash, type string and its
    two-byte length. *)
Theorem signed_order_matches_signature self now order exchange s self' signed dh :
  reachable self → fresh_domain_hash self exchange = Ok dh →
  sign_order_with_salt self now order exchange s = (self', Ok signed) →
  salt signed = s ∧ signed_fields signed = resolve_order order now ∧
  validate_order_enums (signed_fields signed) = Ok tt ∧
  ∃ oh digest sig recid,
    hash_order_v2 (signed_fields signed) (salt signed) = Ok oh ∧
    sign_recoverable digest (private_key_ self) = Some (sig, recid) ∧
    if signature_type order =? POLY_1271 then
      poly_1271_digest self dh oh (signer (signed_fields signed)) = Ok digest ∧
      from_hex (signature signed) =
        Ok (sig ++ [27 + recid] ++ dh ++ oh ++ order_type_bytes ++
            be 256 2 (Z.of_nat (length order_type_bytes)))
    else
      signer (signed_fields signed) = address_ self ∧ digest = encode_eip712 dh oh ∧
      from_hex (signature signed) = Ok (sig ++ [27 + recid]).
Proof using Type.
  intros Hr Hf H. unfold sign_order_with_salt in H.
  destruct (validate_order_enums order) as [[]|] eqn:Hv; [|done].
  destruct (v2_domain_hash self exchange) as [s1 [dh'|]] eqn:Ev; [|done].
  destruct (v2_domain_hash_spec _ _ _ _ Ev (reachable_cache _ Hr)) as (Ek & Ea & Ec & _ & Hd).
  specialize (Hd _ Hf). apply Ok_inj in Hd as ->.
  apply pair_equal_spec in H as [<- H]. apply bind_Ok in H as (oh & Hoh & H).
  apply bind_Ok in H as (text & Ht & <-%Ok_inj). cbn [salt signed_fields signature].
  split; [done|]. split; [done|]. split; [done|]. exists oh.
  change (signature_type (resolve_order order now)) with (signature_type order) in Ht.
  destruct (signature_type order =? POLY_1271).
  - apply sign_poly_1271_Ok in Ht as (digest & sig & recid & Hdig & Hs & Hx);
      [|by apply hash_is_bytes in Hf|by apply hash_is_bytes in Hoh].
    exists digest, sig, recid. rewrite <- Ek. split_and!; try done.
    revert Hdig. unfold poly_1271_digest. by rewrite Ec.
  - apply bind_Ok in Ht as (? & Hs%require_Ok & Ht). apply bool_decide_eq_true in Hs.
    apply sign_hash_text in Ht as (sig & recid & Hsig & -> & Hb).
    exists (encode_eip712 dh oh), sig, recid. rewrite <- Ek.
    split_and!; try done; [congruence|by apply from_hex_to_hex].
Qed.

(** *** Addresses *)

Lemma checksum_nibble h i c : nibble (checksum_char h i c) = nibble c.
Proof using Type.
  unfold checksum_char. destruct (in_range "a" "f" c) eqn:E; [|done]. cbv zeta.
  case_if; [|done].
  pose proof (all_chars_spec
    (λ c, negb (in_range "a" "f" c) || bool_decide (nibble (chr (code c - 32)) = nibble c))
    ltac:(by vm_compute) c) as H. cbv beta in H. rewrite E in H. by apply bool_decide_eq_true in H.
Qed.

Lemma hex_pairs_nibbles n cs1 cs2 :
  (length cs1 ≤ n)%nat → Forall2 (λ c1 c2, nibble c1 = nibble c2) cs1 cs2 →
  hex_pairs cs1 = hex_pairs cs2.
Proof using Type.
  revert cs1 cs2. induction n as [|n IH]; intros cs1 cs2 Hn Hf.
  { destruct Hf; [done|cbn in Hn; lia]. }
  destruct Hf as [|a1 a2 ? ? Ha [|b1 b2 cs1' cs2' Hb Hf]]; [done|done|].
  cbn [hex_pairs]. unfold checked_nibble. rewrite Ha, Hb.
  rewrite (IH cs1' cs2') by (done || (cbn in Hn; lia)). done.
Qed.

(** The checksummed address of a signer still denotes its key: it reads back
    as the last 20 bytes of the public key's hash, so an order may name it. *)
Lemma derived_address_denotes_key key pubkey address :
  public_key key = Some pubkey → derive_address key = Ok address →
  from_hex address = Ok (drop 12 (keccak256 pubkey)) ∧
  encode_address address = Ok (replicate 12 0 ++ drop 12 (keccak256 pubkey)).
Proof using Type.
  intros Hp H. unfold derive_address in H. rewrite Hp in H. cbv zeta in H.
  apply Ok_inj in H as <-. set (a := drop 12 (keccak256 pubkey)).
  assert (length a = 20%nat) as Hl by (subst a; by rewrite length_drop, keccak256_length).
  assert (Forall is_byte a) as Hb by (apply Forall_drop, keccak256_bytes).
  assert (from_hex (str ("0"%char :: "x"%char ::
    imap (checksum_char (keccak256 (map code (hex_chars a)))) (hex_chars a))) = Ok a) as E.
  { unfold from_hex. rewrite chars_str. unfold from_hex_chars.
    set (cs := imap _ _).
    assert (strip_0x ("0" :: "x" :: cs)%char = cs) as -> by done. cbv zeta.
    assert (length cs = 40%nat) as -> by (subst cs; by rewrite length_imap, hex_chars_length, Hl).
    cbn [Nat.even require mbind res_bind].
    rewrite (hex_pairs_nibbles (length cs) cs (hex_chars a)); [by apply hex_pairs_chars|done|].
    subst cs. apply Forall2_same_length_lookup_2; [apply length_imap|].
    intros i c1 c2 H1 H2. rewrite list_lookup_imap, H2 in H1. injection H1 as <-.
    apply checksum_nibble. }
  split; [done|]. unfold encode_address. rewrite E. cbn [mbind res_bind].
  by rewrite bool_decide_true.
Qed.
End Properties.

(** ** Witnesses *)

Definition sample_signer_key : string := to_hex (word_of 70).
Definition sample_exchange : string := to_hex (replicate 20 17).

Definition sample_signer : OrderSigner :=
  match make_signer sample_signer_key 137 with
  | Ok self => self
  | Throw _ => MkOrderSigner [] "" 0 ∅
  end.

Definition sample_order (kind : Z) : OrderData :=
  MkOrder (address_ sample_signer) "" "123456" "5700000" "10000000" side_BUY "0" "0"
    "" "" "1700000000000" "" "" kind.

Lemma sample_signer_reachable : reachable sample_signer.
Proof.
  apply (reachable_make sample_signer_key 137). unfold sample_signer.
  assert (is_ok (make_signer sample_signer_key 137) = true) as H by (vm_compute; reflexivity).
  destruct (make_signer sample_signer_key 137); [reflexivity|discriminate H].
Qed.

Lemma domain_hash_history_independent_witness :
  match fresh_domain_hash sample_signer sample_exchange with
  | Ok hash => snd (v2_domain_hash sample_signer sample_exchange) = Ok hash
  | Throw _ => False
  end.
Proof.
  assert (is_ok (fresh_domain_hash sample_signer sample_exchange) = true) as H by (vm_compute; reflexivity).
  destruct (fresh_domain_hash sample_signer sample_exchange) as [hash|] eqn:E; [|discriminate H].
  exact (domain_hash_history_independent sample_signer sample_exchange hash sample_signer_reachable E).
Defined.

Lemma invalid_exchange_cached_as_zeros_witness :
  ∃ self', v2_domain_hash sample_signer "0x1234" =
      (self', Throw (invalid_argument "verifying contract must be a 20-byte address")) ∧
    v2_domain_hash self' "0x1234" = (self', Ok zeros).
Proof.
  assert (domain_cache_ sample_signer !! "0x1234" = None) as H1 by (vm_compute; reflexivity).
  assert (fresh_domain_hash sample_signer "0x1234" =
    Throw (invalid_argument "verifying contract must be a 20-byte address")) as H2 by (vm_compute; reflexivity).
  exact (invalid_exchange_cached_as_zeros _ _ _ H1 H2).
Defined.

Definition resolved_sample : OrderData := resolve_order (sample_order EOA) "0".


Lemma signed_order_matches_signature_witness :
  match fresh_domain_hash sample_signer sample_exchange,
        snd (sign_order_with_salt sample_signer "0" (sample_order POLY_1271) sample_exchange "42") with
  | Ok dh, Ok signed =>
      salt signed = "42" ∧ signed_fields signed = resolve_order (sample_order POLY_1271) "0" ∧
      validate_order_enums (signed_fields signed) = Ok tt ∧
      ∃ oh digest sig recid,
        hash_order_v2 (signed_fields signed) (salt signed) = Ok oh ∧
        sign_recoverable digest (private_key_ sample_signer) = Some (sig, recid) ∧
        if signature_type (sample_order POLY_1271) =? POLY_1271 then
          poly_1271_digest sample_signer dh oh (signer (signed_fields signed)) = Ok digest ∧
          from_hex (signature signed) =
            Ok (sig ++ [27 + recid] ++ dh ++ oh ++ order_type_bytes ++
                be 256 2 (Z.of_nat (length order_type_bytes)))
        else
          signer (signed_fields signed) = address_ sample_signer ∧
          digest = encode_eip712 dh oh ∧
          from_hex (signature signed) = Ok (sig ++ [27 + recid])
  | _, _ => False
  end.
Proof.
  assert (is_ok (fresh_domain_hash sample_signer sample_exchange) = true) as H by (vm_compute; reflexivity).
  assert (is_ok (snd (sign_order_with_salt sample_signer "0" (sample_order POLY_1271)
    sample_exchange "42")) = true) as H' by (vm_compute; reflexivity).
  destruct (fresh_domain_hash sample_signer sample_exchange) as [dh|] eqn:E; [|discriminate H].
  destruct (sign_order_with_salt sample_signer "0" (sample_order POLY_1271) sample_exchange "42")
    as [self' [signed|]] eqn:Es; [|discriminate H'].
  exact (signed_order_matches_signature _ _ _ _ _ self' signed dh sample_signer_reachable E Es).
Defined.

Lemma derived_address_denotes_key_witness :
  match derive_address (word_of 70) with
  | Ok address =>
      from_hex address = Ok (drop 12 (keccak256 (word_of 70 ++ word_of 70))) ∧
      encode_address address = Ok (replicate 12 0 ++ drop 12 (keccak256 (word_of 70 ++ word_of 70)))
  | Throw _ => False
  end.
Proof.
  assert (is_ok (derive_address (word_of 70)) = true) as H by (vm_compute; reflexivity).
  destruct (derive_address (word_of 70)) as [address|] eqn:E; [|discriminate H].
  exact (derived_address_denotes_key (word_of 70) _ address eq_refl E).
Defined.
