(* ===== verification/OrderAuth.v ===== *)
(** * API authentication (src/order_signer_auth.cpp)

    The ClobAuth EIP-712 message of L1 headers, the base64 codec of API secrets
    and signatures, and the HMAC of L2 headers.  HMAC-SHA256 is OpenSSL's: a
    parameter. *)
From Stdlib Require Import Ascii String.
From S2P Require Import Prelude Text EvmBytes Crypto EvmTransaction OrderSigner.

#[local] Open Scope Z_scope.

(** ** Base64 *)

(** Value of a character of either alphabet, -1 for the others. *)
Definition base64_value (c : ascii) : Z :=
  if in_range "A" "Z" c then code c - code "A"
  else if in_range "a" "z" c then code c - code "a" + 26
  else if in_range "0" "9" c then code c - code "0" + 52
  else if bool_decide (c = "+"%char) || bool_decide (c = "-"%char) then 62
  else if bool_decide (c = "/"%char) || bool_decide (c = "_"%char) then 63
  else -1.

Definition u32 (z : Z) : Z := z mod 2 ^ 32.

Record DecodeState := MkDecode {
  d_result : list Z;
  d_value : Z;
  d_bits : Z;
  data_characters : Z;
  padding : Z;
  saw_padding : bool }.

Definition not_base64 {A} : res A := Throw (invalid_argument "API secret is not valid base64").

(** [value = bits == 0 ? 0 : value & ((uint32_t{1} << bits) - 1)] *)
Definition keep_bits (value bits : Z) : Z :=
  if bits =? 0 then 0 else Z.land value (Z.shiftl 1 bits - 1).

Definition decode_char (s : DecodeState) (c : ascii) : res DecodeState :=
  if bool_decide (c = "="%char) then
    if 2 <? padding s + 1 then not_base64
    else Ok (MkDecode (d_result s) (d_value s) (d_bits s) (data_characters s) (padding s + 1) true)
  else
    let digit := base64_value c in
    if saw_padding s || (digit <? 0) then not_base64
    else
      let value := Z.lor (u32 (Z.shiftl (d_value s) 6)) digit in
      let bits := d_bits s + 6 in
      if 8 <=? bits then
        let bits := bits - 8 in
        Ok (MkDecode (d_result s ++ [Z.land (Z.shiftr value bits) 255]) (keep_bits value bits)
              bits (data_characters s + 1) (padding s) (saw_padding s))
      else Ok (MkDecode (d_result s) value bits (data_characters s + 1) (padding s) (saw_padding s)).

Fixpoint decode_chars (cs : list ascii) (s : DecodeState) : res DecodeState :=
  match cs with
  | [] => Ok s
  | c :: cs => s ← decode_char s c; decode_chars cs s
  end.

Definition base64_decode (encoded : string) : res (list Z) :=
  s ← decode_chars (chars encoded) (MkDecode [] 0 0 0 0 false);
  let remainder := data_characters s mod 4 in
  let expected_padding := if remainder =? 0 then 0 else 4 - remainder in
  if (remainder =? 1) ||
     (negb (padding s =? 0) &&
      (negb (padding s =? expected_padding) || negb ((data_characters s + padding s) mod 4 =? 0))) ||
     negb (d_value s =? 0)
  then not_base64
  else Ok (d_result s).

Definition alphabet : list ascii :=
  chars "ABCDEFGHIJKLMNOPQRSTUVWXYZabcdefghijklmnopqrstuvwxyz0123456789-_".

Definition alphabet_char (d : Z) : ascii := nth (Z.to_nat d) alphabet "A"%char.

(** [while (bits >= 6)]: fourteen bits give two characters at most. *)
Fixpoint flush_bits (fuel : nat) (result : list ascii) (value bits : Z) : list ascii * Z * Z :=
  match fuel with
  | O => (result, value, bits)
  | S fuel =>
      if 6 <=? bits then
        let bits := bits - 6 in
        flush_bits fuel (result ++ [alphabet_char (Z.land (Z.shiftr value bits) 63)])
          (keep_bits value bits) bits
      else (result, value, bits)
  end.

Definition encode_byte (s : list ascii * Z * Z) (character : Z) : list ascii * Z * Z :=
  let '(result, value, bits) := s in
  flush_bits 3 result (Z.lor (u32 (Z.shiftl value 8)) character) (bits + 8).

(** [while (result.size() % 4 != 0) result.push_back('=');] *)
Definition pad_to_quantum (result : list ascii) : list ascii :=
  result ++ replicate (Z.to_nat (- Z.of_nat (length result) mod 4)) "="%char.

Definition base64_url_encode (data : list Z) : string :=
  let '(result, value, bits) := foldl encode_byte ([], 0, 0) data in
  let result :=
    if 0 <? bits
    then result ++ [alphabet_char (Z.land (u32 (Z.shiftl value (6 - bits))) 63)] else result in
  str (pad_to_quantum result).

(** ** Credentials and headers *)

Record ApiCredentials := MkCredentials {
  api_key : string; api_secret : string; api_passphrase : string }.

Definition validate_api_credentials (credentials : ApiCredentials) : res unit :=
  let bad := Throw (invalid_argument
    "API key, secret, and passphrase must be non-empty and valid") in
  if bool_decide (api_key credentials = "") || bool_decide (api_secret credentials = "") ||
     bool_decide (api_passphrase credentials = "")
  then bad
  else
    secret ← base64_decode (api_secret credentials);
    if bool_decide (secret = []) then bad else Ok tt.

Record L1Headers := MkL1 {
  l1_address : string; l1_signature : string; l1_timestamp : string; l1_nonce : string }.

Record L2Headers := MkL2 {
  l2_address : string; l2_signature : string; l2_timestamp : string;
  l2_api_key : string; l2_passphrase : string; l2_secret : string }.

Section Auth.
Context `{K : Keccak} `{S : RecoverableSigner}.

(** [HMAC(EVP_sha256(), key, message)]: the digest, or a failure. *)
Variable hmac_sha256 : list Z → list Z → option (list Z).

Definition hash_clob_auth_domain (self : OrderSigner) : list Z :=
  keccak256 (hash_string "EIP712Domain(string name,string version,uint256 chainId)" ++
             hash_string "ClobAuthDomain" ++ hash_string "1" ++ low_bytes 4 (chain_id_ self)).

Definition clob_auth_preimage (address timestamp : string) (nonce : Z) : res (list Z) :=
  address_bytes ← from_hex address;
  require (bool_decide (length address_bytes = 20%nat))
    (invalid_argument "authentication address must be a 20-byte address");;
  Ok (hash_string "ClobAuth(address address,string timestamp,uint256 nonce,string message)" ++
      (replicate 12 0 ++ address_bytes) ++ hash_string timestamp ++ low_bytes 8 nonce ++
      hash_string "This message attests that I control the given wallet").

Definition hash_clob_auth (address timestamp : string) (nonce : Z) : res (list Z) :=
  keccak256 <$> clob_auth_preimage address timestamp nonce.

(** [seconds] is the system clock's reading. *)
Definition generate_l1_headers (self : OrderSigner) (seconds nonce : Z) : res L1Headers :=
  let timestamp_text := int_to_string seconds in
  auth ← hash_clob_auth (address_ self) timestamp_text nonce;
  signature ← sign_hash (private_key_ self) (encode_eip712 (hash_clob_auth_domain self) auth);
  Ok (MkL1 (address_ self) signature timestamp_text (to_string nonce)).

Definition generate_l2_headers (self : OrderSigner) (seconds : Z) (credentials : ApiCredentials)
    (method path body : string) : res L2Headers :=
  validate_api_credentials credentials;;
  let message := int_to_string seconds +:+ method +:+ path +:+ body in
  secret ← base64_decode (api_secret credentials);
  match hmac_sha256 secret (bytes_of_string message) with
  | None => Throw (runtime_error "failed to generate L2 authentication signature")
  | Some signature_bytes =>
      Ok (MkL2 (address_ self) (base64_url_encode signature_bytes) (int_to_string seconds)
            (api_key credentials) (api_passphrase credentials) (api_secret credentials))
  end.
End Auth.

(** ** Lemmas on the codec *)

Lemma lor_low v k d : 0 ≤ k → 0 ≤ d < 2 ^ k → Z.lor (Z.shiftl v k) d = v * 2 ^ k + d.
Proof.
  intros Hk Hd. rewrite Z.shiftl_mul_pow2 by lia. rewrite <- Z.add_nocarry_lor; [done|].
  apply Z.bits_inj'. intros i Hi. rewrite Z.land_spec, Z.bits_0.
  destruct (Z.ltb_spec i k); [by rewrite Z.mul_pow2_bits_low|].
  rewrite <- (Z.mod_small d (2 ^ k)) by done. rewrite Z.mod_pow2_bits_high by lia.
  apply andb_false_r.
Qed.

Lemma keep_bits_mod v b : 0 ≤ b → keep_bits v b = v mod 2 ^ b.
Proof.
  intros Hb. unfold keep_bits. destruct (Z.eqb_spec b 0) as [->|]; [by rewrite Z.mod_1_r|].
  rewrite Z.shiftl_1_l, Z.sub_1_r, <- Z.ones_equiv. by apply Z.land_ones.
Qed.

Lemma land63_mod v : Z.land v 63 = v mod 64.
Proof. change 63 with (Z.ones 6). by rewrite Z.land_ones. Qed.

Lemma u32_small v : 0 ≤ v < 2 ^ 32 → u32 v = v.
Proof. apply Z.mod_small. Qed.

Lemma alphabet_value d :
  0 ≤ d < 64 → base64_value (alphabet_char d) = d ∧ alphabet_char d ≠ "="%char.
Proof.
  intros Hd. pose proof (below_spec 64
    (λ d, (base64_value (alphabet_char d) =? d) && negb (bool_decide (alphabet_char d = "="%char)))
    ltac:(by vm_compute) d Hd) as H. cbv beta in H. bools. by split.
Qed.

(** Reading a data character: its six bits are appended, and a byte is taken when
    eight are there. *)
Lemma decode_digit res v b dc d :
  0 ≤ d < 64 → 0 ≤ v < 64 → 0 ≤ b ≤ 6 →
  decode_char (MkDecode res v b dc 0 false) (alphabet_char d) =
    Ok (if 8 <=? b + 6
        then MkDecode (res ++ [(v * 64 + d) / 2 ^ (b - 2) mod 256])
               ((v * 64 + d) mod 2 ^ (b - 2)) (b - 2) (dc + 1) 0 false
        else MkDecode res (v * 64 + d) (b + 6) (dc + 1) 0 false).
Proof.
  intros Hd Hv Hb. destruct (alphabet_value d Hd) as [Ev Eq]. unfold decode_char.
  rewrite bool_decide_false by done. cbn [saw_padding orb d_value d_bits d_result data_characters padding].
  rewrite Ev. destruct (Z.ltb_spec d 0); [lia|].
  rewrite u32_small by (rewrite Z.shiftl_mul_pow2; lia). rewrite lor_low by lia.
  change (2 ^ 6) with 64. destruct (Z.leb_spec 8 (b + 6)); [|done].
  replace (b + 6 - 8) with (b - 2) by lia.
  rewrite keep_bits_mod, land255_mod, Z.shiftr_div_pow2 by lia. done.
Qed.

(** The encoding as three-byte groups. *)
Fixpoint base64_spec (data : list Z) : list ascii :=
  match data with
  | [] => []
  | [a] => [alphabet_char (a / 4); alphabet_char (a mod 4 * 16); "="%char; "="%char]
  | [a; b] =>
      [alphabet_char (a / 4); alphabet_char (a mod 4 * 16 + b / 16);
       alphabet_char (b mod 16 * 4); "="%char]
  | a :: b :: c :: rest =>
      alphabet_char (a / 4) :: alphabet_char (a mod 4 * 16 + b / 16) ::
      alphabet_char (b mod 16 * 4 + c / 64) :: alphabet_char (c mod 64) :: base64_spec rest
  end.

Lemma list3_induction {A} (P : list A → Prop) :
  P [] → (∀ a, P [a]) → (∀ a b, P [a; b]) →
  (∀ a b c l, P l → P (a :: b :: c :: l)) → ∀ l, P l.
Proof.
  intros H0 H1 H2 H3. fix IH 1. intros [|a [|b [|c l]]]; [done|done|done|]. apply H3, IH.
Qed.

Lemma byte_bounds a : is_byte a → 0 ≤ a / 4 < 64 ∧ 0 ≤ a / 16 < 16 ∧ 0 ≤ a / 64 < 4 ∧
  0 ≤ a mod 4 < 4 ∧ 0 ≤ a mod 16 < 16 ∧ 0 ≤ a mod 64 < 64.
Proof. unfold is_byte. intros. Z.div_mod_to_equations. lia. Qed.

(** The first two characters of a group give its first byte. *)
Lemma decode_two res dc a d rest :
  is_byte a → 0 ≤ d < 16 →
  decode_chars (alphabet_char (a / 4) :: alphabet_char (a mod 4 * 16 + d) :: rest)
    (MkDecode res 0 0 dc 0 false) =
  decode_chars rest (MkDecode (res ++ [a]) d 4 (dc + 2) 0 false).
Proof.
  intros Ha Hd. destruct (byte_bounds a Ha) as (B1 & _ & _ & B2 & _). unfold is_byte in Ha.
  cbn [decode_chars]. rewrite decode_digit by lia. cbn [mbind res_bind].
  change (8 <=? 0 + 6) with false. cbv iota. rewrite decode_digit by lia.
  cbn [mbind res_bind]. change (8 <=? 0 + 6 + 6) with true. cbv iota.
  change (2 ^ (0 + 6 - 2)) with 16. change (0 + 6 - 2) with 4.
  set (v := (0 * 64 + a / 4) * 64 + (a mod 4 * 16 + d)).
  assert (v / 16 = a ∧ v mod 16 = d) as [-> ->] by (subst v; Z.div_mod_to_equations; lia).
  rewrite Z.mod_small by lia. do 2 f_equal. lia.
Qed.

(** The third character gives the second byte. *)
Lemma decode_third res dc b d rest :
  is_byte b → 0 ≤ d < 4 →
  decode_chars (alphabet_char (b mod 16 * 4 + d) :: rest) (MkDecode res (b / 16) 4 dc 0 false) =
  decode_chars rest (MkDecode (res ++ [b]) d 2 (dc + 1) 0 false).
Proof.
  intros Hb Hd. destruct (byte_bounds b Hb) as (_ & B1 & _ & _ & B2 & _). unfold is_byte in Hb.
  cbn [decode_chars]. rewrite decode_digit by lia. cbn [mbind res_bind].
  change (8 <=? 4 + 6) with true. cbv iota. change (2 ^ (4 - 2)) with 4. change (4 - 2) with 2.
  set (w := b / 16 * 64 + (b mod 16 * 4 + d)).
  assert (w / 4 = b ∧ w mod 4 = d) as [-> ->] by (subst w; Z.div_mod_to_equations; lia).
  by rewrite Z.mod_small by lia.
Qed.

(** And the fourth the last. *)
Lemma decode_fourth res dc c rest :
  is_byte c →
  decode_chars (alphabet_char (c mod 64) :: rest) (MkDecode res (c / 64) 2 dc 0 false) =
  decode_chars rest (MkDecode (res ++ [c]) 0 0 (dc + 1) 0 false).
Proof.
  intros Hc. destruct (byte_bounds c Hc) as (_ & _ & B1 & _ & _ & B2). unfold is_byte in Hc.
  cbn [decode_chars]. rewrite decode_digit by lia. cbn [mbind res_bind].
  change (8 <=? 2 + 6) with true. cbv iota. change (2 ^ (2 - 2)) with 1. change (2 - 2) with 0.
  assert (c / 64 * 64 + c mod 64 = c) as -> by (Z.div_mod_to_equations; lia).
  by rewrite Z.div_1_r, Z.mod_1_r, Z.mod_small by lia.
Qed.

Lemma decode_spec data res dc :
  Forall is_byte data → dc mod 4 = 0 →
  ∃ dc' p bits,
    decode_chars (base64_spec data) (MkDecode res 0 0 dc 0 false) =
      Ok (MkDecode (res ++ data) 0 bits dc' p (0 <? p)) ∧
    0 ≤ p ≤ 2 ∧ (dc' + p) mod 4 = 0.
Proof.
  intros Hd. revert res dc. induction data as [|a|a b|a b c l IH] using list3_induction;
    intros res dc Hdc; rewrite ?Forall_cons in Hd; cbn [base64_spec].
  - exists dc, 0, 0. rewrite app_nil_r, Z.add_0_r. by split_and!.
  - destruct Hd as [Ha _]. rewrite <- (Z.add_0_r (a mod 4 * 16)), decode_two by (done || lia).
    exists (dc + 2), 2, 4. split; [done|]. split; [done|]. Z.div_mod_to_equations; lia.
  - destruct Hd as (Ha & Hb & _). pose proof (byte_bounds b Hb).
    rewrite decode_two by (done || lia).
    rewrite <- (Z.add_0_r (b mod 16 * 4)), decode_third, <- app_assoc by (done || lia).
    exists (dc + 2 + 1), 1, 2. split; [done|]. split; [done|]. Z.div_mod_to_equations; lia.
  - destruct Hd as (Ha & Hb & Hc & Hl). pose proof (byte_bounds b Hb). pose proof (byte_bounds c Hc).
    rewrite decode_two, decode_third, decode_fourth by (done || lia).
    destruct (IH Hl (((res ++ [a]) ++ [b]) ++ [c]) (dc + 2 + 1 + 1)) as (dc' & p & bits & E & Hp & Hm).
    { Z.div_mod_to_equations; lia. }
    exists dc', p, bits. rewrite E, <- !app_assoc. by split.
Qed.

(** *** Encoding *)

Lemma encode_byte_spec result value bits c :
  0 ≤ value < 2 ^ bits → 0 ≤ bits < 6 → is_byte c →
  let v := value * 256 + c in
  encode_byte (result, value, bits) c =
    if bits <? 4
    then (result ++ [alphabet_char (v / 2 ^ (bits + 2) mod 64)], v mod 2 ^ (bits + 2), bits + 2)
    else (result ++ [alphabet_char (v / 2 ^ (bits + 2) mod 64);
                     alphabet_char (v mod 2 ^ (bits + 2) / 2 ^ (bits - 4) mod 64)],
          v mod 2 ^ (bits + 2) mod 2 ^ (bits - 4), bits - 4).
Proof.
  intros Hv Hb Hc v. unfold is_byte in Hc. unfold encode_byte.
  assert (2 ^ bits ≤ 2 ^ 5) by (apply Z.pow_le_mono_r; lia).
  rewrite u32_small by (rewrite Z.shiftl_mul_pow2; lia). rewrite lor_low by lia.
  change (value * 2 ^ 8 + c) with v. cbn [flush_bits].
  destruct (Z.leb_spec 6 (bits + 8)); [|lia]. cbv zeta.
  replace (bits + 8 - 6) with (bits + 2) by lia.
  rewrite land63_mod, keep_bits_mod, Z.shiftr_div_pow2 by lia.
  destruct (Z.leb_spec 6 (bits + 2)), (Z.ltb_spec bits 4); try lia; [|done].
  replace (bits + 2 - 6) with (bits - 4) by lia.
  rewrite land63_mod, keep_bits_mod, Z.shiftr_div_pow2 by lia.
  destruct (Z.leb_spec 6 (bits - 4)); [lia|]. by rewrite <- app_assoc.
Qed.

Definition finish_encoding (s : list ascii * Z * Z) : list ascii :=
  let '(result, value, bits) := s in
  pad_to_quantum
    (if 0 <? bits
     then result ++ [alphabet_char (Z.land (u32 (Z.shiftl value (6 - bits))) 63)] else result).

Lemma pad_to_quantum_exact cs n :
  (4 | Z.of_nat (length cs + n)) → (n < 4)%nat → pad_to_quantum cs = cs ++ replicate n "="%char.
Proof.
  intros [q Hq] Hn. unfold pad_to_quantum. do 2 f_equal.
  assert (- Z.of_nat (length cs) mod 4 = Z.of_nat n) as ->; [|lia].
  symmetry. apply Z.mod_unique with (q := - q); lia.
Qed.

Lemma encode_first result a :
  is_byte a → encode_byte (result, 0, 0) a = (result ++ [alphabet_char (a / 4)], a mod 4, 2).
Proof.
  intros Ha. pose proof (byte_bounds a Ha). rewrite encode_byte_spec by (done || lia). cbv zeta.
  change (0 <? 4) with true. cbv iota. change (2 ^ (0 + 2)) with 4.
  by rewrite Z.mul_0_l, Z.add_0_l, (Z.mod_small (a / 4)) by lia.
Qed.

Lemma encode_second result r b :
  0 ≤ r < 4 → is_byte b →
  encode_byte (result, r, 2) b = (result ++ [alphabet_char (r * 16 + b / 16)], b mod 16, 4).
Proof.
  intros Hr Hb. rewrite encode_byte_spec by (done || lia). cbv zeta.
  change (2 <? 4) with true. cbv iota. change (2 ^ (2 + 2)) with 16. unfold is_byte in Hb.
  assert ((r * 256 + b) / 16 mod 64 = r * 16 + b / 16 ∧ (r * 256 + b) mod 16 = b mod 16)
    as [-> ->] by (Z.div_mod_to_equations; lia). done.
Qed.

Lemma encode_third result r c :
  0 ≤ r < 16 → is_byte c →
  encode_byte (result, r, 4) c =
    (result ++ [alphabet_char (r * 4 + c / 64); alphabet_char (c mod 64)], 0, 0).
Proof.
  intros Hr Hc. rewrite encode_byte_spec by (done || lia). cbv zeta.
  change (4 <? 4) with false. cbv iota. change (2 ^ (4 + 2)) with 64. change (2 ^ (4 - 4)) with 1.
  rewrite Z.div_1_r, Z.mod_1_r, Z.mod_mod by lia. unfold is_byte in Hc.
  assert ((r * 256 + c) / 64 mod 64 = r * 4 + c / 64 ∧ (r * 256 + c) mod 64 = c mod 64)
    as [-> ->] by (Z.div_mod_to_equations; lia). done.
Qed.

(** The bits left over are padded to one more character. *)
Lemma finish_bits result r bits n :
  0 ≤ r < 2 ^ bits → 0 < bits < 6 → (4 | Z.of_nat (length result + 1 + n)) → (n < 4)%nat →
  finish_encoding (result, r, bits) =
    result ++ alphabet_char (r * 2 ^ (6 - bits)) :: replicate n "="%char.
Proof.
  intros Hr Hb Hl Hn. unfold finish_encoding. destruct (Z.ltb_spec 0 bits); [|lia].
  rewrite Z.shiftl_mul_pow2 by lia.
  assert (r * 2 ^ (6 - bits) < 64).
  { change 64 with (2 ^ 6). replace 6 with (bits + (6 - bits)) at 2 by lia.
    rewrite Z.pow_add_r by lia. apply Z.mul_lt_mono_pos_r; [lia|lia]. }
  rewrite u32_small, land63_mod, Z.mod_small by nia.
  rewrite (pad_to_quantum_exact _ n); [by rewrite <- app_assoc| |done].
  rewrite length_app. exact Hl.
Qed.

Lemma encode_spec data result :
  Forall is_byte data → (4 | Z.of_nat (length result)) →
  finish_encoding (foldl encode_byte (result, 0, 0) data) = result ++ base64_spec data.
Proof.
  intros Hd. revert result. induction data as [|a|a b|a b c l IH] using list3_induction;
    intros result [q Hq]; rewrite ?Forall_cons in Hd; cbn [foldl base64_spec].
  - apply (pad_to_quantum_exact result 0); [exists q; lia|lia].
  - destruct Hd as [Ha _]. pose proof (byte_bounds a Ha). rewrite encode_first by done.
    rewrite (finish_bits _ _ 2 2); [by rewrite <- app_assoc|cbn; lia|lia| |lia].
    exists (q + 1). rewrite length_app. cbn [length]. lia.
  - destruct Hd as (Ha & Hb & _). pose proof (byte_bounds a Ha). pose proof (byte_bounds b Hb).
    rewrite encode_first, encode_second by (done || lia).
    rewrite (finish_bits _ _ 4 1); [by rewrite <- !app_assoc|cbn; lia|lia| |lia].
    exists (q + 1). rewrite !length_app. cbn [length]. lia.
  - destruct Hd as (Ha & Hb & Hc & Hl). pose proof (byte_bounds a Ha). pose proof (byte_bounds b Hb).
    rewrite encode_first, encode_second, encode_third, IH by
      (done || lia || (exists (q + 1); rewrite !length_app; cbn [length]; lia)).
    by rewrite <- !app_assoc.
Qed.

(** The signature codec is exact: what [base64_url_encode] writes for any
    bytes, padding included, [base64_decode] accepts and reads back as the same
    bytes. *)
Lemma base64_roundtrip data :
  Forall is_byte data → base64_decode (base64_url_encode data) = Ok data.
Proof.
  intros Hd. pose proof (encode_spec data [] Hd ltac:(by exists 0)) as E. unfold finish_encoding in E.
  unfold base64_url_encode. destruct (foldl _ _ _) as [[result value] bits]. rewrite E.
  unfold base64_decode. rewrite chars_str. cbn [app].
  destruct (decode_spec data [] 0 Hd eq_refl) as (dc & p & b & -> & Hp & Hm).
  cbn [mbind res_bind data_characters padding d_value d_result app].
  assert (dc mod 4 = - p mod 4) as Er by (Z.div_mod_to_equations; lia). rewrite Er, Hm.
  assert (p = 0 ∨ p = 1 ∨ p = 2) as [->|[->| ->]] by lia; by cbn.
Qed.

Lemma base64_roundtrip_witness : base64_decode (base64_url_encode [0; 255; 128; 7]) = Ok [0; 255; 128; 7].
Proof. apply base64_roundtrip. repeat constructor; unfold is_byte; lia. Defined.
