(* ===== verification/Sdk.v ===== *)
(** * Responses, errors and rate limits
    (include/polymarket/sdk_error.hpp, src/sdk_error.cpp, src/rate_limit.cpp,
    src/rate_limit_internal.hpp)

    [Result] and [SdkError], how a response becomes an error, what the rate-limit
    headers say, and the loop that retries a rate-limited request.  The JSON
    library is a parameter: what a body parses to, and how a value is printed.
    Dates in Retry-After are read with [sscanf], whose reading of a text is a
    parameter as well; so is the result of the cast of a [double] that does not
    fit a [long long], which C++ leaves undefined. *)
From Stdlib Require Import Ascii String Floats.SpecFloat.
From S2P Require Import Prelude Text Float64.

#[local] Open Scope Z_scope.

(** ** Responses *)

Record HttpResponse := MkResponse {
  status_code : Z;
  body : string;
  error : string;
  headers : gmap string string }.

Definition response_ok (r : HttpResponse) : bool :=
  bool_decide (error r = "") && (200 <=? status_code r) && (status_code r <? 300).

Inductive Bucket := BucketNone | Order | Cancel.

Record RateLimitUpdate := MkUpdate {
  bucket : Bucket;
  remaining : option Z;
  reset : option Z;
  tier : option string;
  warning : bool }.

Record RateLimitRetry := MkRetry { retries : Z; max_delay : Z (** milliseconds *) }.

Inductive json :=
  | JNull
  | JBool (b : bool)
  | JInteger (z : Z)
  | JNumber (x : spec_float)
  | JString (s : string)
  | JArray (items : list json)
  | JObject (fields : list (string * json)).

Class JsonLibrary := { json_parse : string → option json; json_dump : json → string }.

(** [object.contains(key)] and [object[key]]. *)
Definition json_field (j : json) (key : string) : option json :=
  match j with
  | JObject fields => snd <$> find (λ p, bool_decide (p.1 = key)) fields
  | _ => None
  end.

(** A date of Retry-After as the seven numbers and the month of one of its forms. *)
Class DateReader := read_http_date : string → option Z.

(** The cast of a [double] outside [long long]. *)
Class UndefinedCast := undefined_cast : spec_float → Z.

(** ** Rate limits *)

Definition header (response : HttpResponse) (lowercase_key : string) : option string :=
  headers response !! lowercase_key.

Definition all_digits (cs : list ascii) : bool := negb (bool_decide (cs = [])) && forallb is_decimal cs.

(** The text before the first dot, and the text after it when there is one. *)
Fixpoint split_dot (cs : list ascii) : list ascii * option (list ascii) :=
  match cs with
  | [] => ([], None)
  | c :: cs' =>
      if bool_decide (c = "."%char) then ([], Some cs')
      else let '(w, f) := split_dot cs' in (c :: w, f)
  end.

Definition ten : spec_float := of_Z binary64 10.
Definition one_tenth : spec_float := of_ratio binary64 1 10.
Definition digit_value (c : ascii) : spec_float := of_Z binary64 (decimal_digit c).

Definition whole_seconds (cs : list ascii) : spec_float :=
  foldl (λ v c, fadd binary64 (fmul binary64 v ten) (digit_value c)) fzero cs.

Definition with_fraction (v : spec_float) (cs : list ascii) : spec_float :=
  (foldl (λ '(v, scale) c,
     (fadd binary64 v (fmul binary64 (digit_value c) scale), fdiv binary64 scale ten))
     (v, one_tenth) cs).1.

Definition parse_delay_seconds (text : string) : option spec_float :=
  let '(whole, fraction) := split_dot (chars text) in
  if negb (all_digits whole) ||
     match fraction with Some f => negb (all_digits f) | None => false end ||
     bool_decide (9 < length whole)%nat
  then None
  else Some (with_fraction (whole_seconds whole) (default [] fraction)).

Definition parse_integer (text : string) (allow_negative : bool) : option Z :=
  let cs := chars text in
  let negative := allow_negative && match cs with c :: _ => bool_decide (c = "-"%char) | [] => false end in
  let digits := if negative then drop 1 cs else cs in
  if negb (all_digits digits) || bool_decide (18 < length digits)%nat then None
  else Some (if negative then - decimal_val digits else decimal_val digits).

(** [std::tolower] of the C locale. *)
Definition to_lower (c : ascii) : ascii := if in_range "A" "Z" c then chr (code c + 32) else c.
Definition lower (s : string) : string := str (map to_lower (chars s)).

Section RateLimit.
Context `{JsonLibrary, DateReader, UndefinedCast}.

Definition retry_after_from_body (body : string) : option spec_float :=
  if bool_decide (body = "") then None
  else
    parsed ← json_parse body;
    value ← json_field parsed "retry_after_seconds";
    match value with
    | JNumber x => if fle fzero x then Some x else None
    | JInteger z => if 0 <=? z then Some (of_Z binary64 z) else None
    | _ => None
    end.

Definition parse_retry_after_seconds (response : HttpResponse) (now_unix_seconds : Z) : option spec_float :=
  let from_header :=
    value ← header response "retry-after";
    match parse_delay_seconds value with
    | Some seconds => Some seconds
    | None => date ← read_http_date value; Some (of_Z binary64 (Z.max 0 (date - now_unix_seconds)))
    end in
  match from_header with
  | Some seconds => Some seconds
  | None => retry_after_from_body (body response)
  end.

Definition parse_rate_limit_update (response : HttpResponse) (bucket : Bucket) : option RateLimitUpdate :=
  let remaining := value ← header response "poly-ratelimit-remaining"; parse_integer value true in
  let reset := value ← header response "poly-ratelimit-reset"; parse_integer value false in
  let tier :=
    value ← header response "poly-ratelimit-tier";
    if bool_decide (value = "") then None else Some value in
  let warning :=
    match header response "poly-ratelimit-warning" with
    | Some value => bool_decide (lower value = "true")
    | None => false
    end in
  match remaining, reset, tier, warning with
  | None, None, None, false => None
  | _, _, _, _ => Some (MkUpdate bucket remaining reset tier warning)
  end.

Definition to_long_long (x : spec_float) : Z :=
  if is_finite x && (- 2 ^ 63 <=? truncZ x) && (truncZ x <? 2 ^ 63) then truncZ x else undefined_cast x.

Definition rate_limit_delay (response : HttpResponse) (now_unix_seconds : Z) : Z :=
  let seconds := default (of_Z binary64 1) (parse_retry_after_seconds response now_unix_seconds) in
  to_long_long (fceil binary64 (fmul binary64 seconds (of_Z binary64 1000))).

Definition validate_rate_limit_retry (policy : RateLimitRetry) : res unit :=
  _ ← require (0 <=? retries policy) (invalid_argument "RateLimitRetry.retries must be non-negative");
  require (0 <=? max_delay policy) (invalid_argument "RateLimitRetry.max_delay must be non-negative").

(** The server and the clocks, by the number of requests sent so far: the
    response to the next one, the steady clock in milliseconds when it arrives,
    and the system clock in seconds. *)
Record attempts := MkAttempts { attempt : nat → HttpResponse; steady_now : nat → Z; unix_now : nat → Z }.

(** The last response and the delays slept, oldest first; [None] when the fuel
    runs out. *)
Fixpoint retry_loop (fuel : nat) (policy : option RateLimitRetry) (env : attempts)
    (deadline : option Z) (retry : Z) (sent : nat) : option (HttpResponse * list Z) :=
  match fuel with
  | O => None
  | S fuel =>
      let response := attempt env sent in
      match policy with
      | None => Some (response, [])
      | Some policy =>
          if negb (status_code response =? 429) || (retries policy <=? retry) then Some (response, [])
          else
            let delay := rate_limit_delay response (unix_now env sent) in
            if max_delay policy <? delay then Some (response, [])
            else if match deadline with Some d => d <? steady_now env sent + delay | None => false end
            then Some (response, [])
            else
              '(last, delays) ← retry_loop fuel (Some policy) env deadline (retry + 1) (S sent);
              Some (last, delay :: delays)
      end
  end.

Definition retry_rate_limited (fuel : nat) (policy : option RateLimitRetry) (env : attempts)
    (deadline : option Z) : option (HttpResponse * list Z) :=
  retry_loop fuel policy env deadline 0 0.
End RateLimit.

(** ** Errors *)

Inductive SdkErrorCode :=
  | HttpTransport | ApiResponse | Auth | DepositWalletSetup | RateLimit | Parse | Signing
  | InvalidArgument | InsufficientLiquidity | Timeout | TransactionFailed.

Record SdkError := MkError {
  error_code : SdkErrorCode;
  message : string;
  endpoint : string;
  http_status : Z;
  response_body_excerpt : string;
  request_id : string;
  retryable : bool;
  retry_after_seconds : option spec_float;
  rate_limit : option RateLimitUpdate }.

#[export] Instance bucket_eq_dec : EqDecision Bucket.
Proof. solve_decision. Defined.
#[export] Instance update_eq_dec : EqDecision RateLimitUpdate.
Proof. solve_decision. Defined.
#[export] Instance sdk_error_code_eq_dec : EqDecision SdkErrorCode.
Proof. solve_decision. Defined.
#[export] Instance sdk_error_eq_dec : EqDecision SdkError.
Proof. solve_decision. Defined.

Inductive Result (A : Type) := success (value : A) | failure (error : SdkError).
Arguments success {_} _.
Arguments failure {_} _.

Definition excerpt (body : string) : string := str (take 512 (chars body)).

(** [{code, message, endpoint, 0, excerpt, "", retryable}]. *)
Definition plain_error (code : SdkErrorCode) (message endpoint excerpt : string) (retryable : bool) : SdkError :=
  MkError code message endpoint 0 excerpt "" retryable None None.

Definition make_auth_error (message endpoint : string) : SdkError := plain_error Auth message endpoint "" false.
Definition make_parse_error (message endpoint body : string) : SdkError :=
  plain_error Parse message endpoint (excerpt body) false.
Definition invalid_argument_error (message endpoint : string) : SdkError :=
  plain_error InvalidArgument message endpoint "" false.

Definition sdk_error_code_to_string (code : SdkErrorCode) : string :=
  match code with
  | HttpTransport => "http_transport"
  | ApiResponse => "api_response"
  | Auth => "auth"
  | DepositWalletSetup => "deposit_wallet_setup"
  | RateLimit => "rate_limit"
  | Parse => "parse"
  | Signing => "signing"
  | InvalidArgument => "invalid_argument"
  | InsufficientLiquidity => "insufficient_liquidity"
  | Timeout => "timeout"
  | TransactionFailed => "transaction_failed"
  end.

Definition header_value (response : HttpResponse) (key : string) : string :=
  default "" (headers response !! lower key).

(** [text.find(pattern) != npos] *)
Definition contains (pattern text : string) : bool :=
  match String.index 0 pattern text with Some _ => true | None => false end.

Definition is_deposit_wallet_signer_mismatch (endpoint : string) (status : Z) (message : string) : bool :=
  let normalized := lower message in
  bool_decide (endpoint = "/order") && (status =? 400) &&
  contains "order signer address" normalized && contains "address of the api key" normalized.

Definition deposit_wallet_setup_message : string :=
  "POLY_1271 deposit wallet order was rejected because the order signer " +:+
  "does not match the CLOB API key address. Check that the funder is the " +:+
  "deployed deposit wallet/proxy address, the wallet contract has bytecode " +:+
  "on Polygon, approvals and pUSD balance are set on that wallet, and " +:+
  "update_balance_allowance was called with signature_type=3 before posting.".

Section Errors.
Context `{JsonLibrary, DateReader}.

(** The first of the keys the body has. *)
Fixpoint first_message (parsed : json) (keys : list string) : string :=
  match keys with
  | [] => ""
  | key :: keys' =>
      match json_field parsed key with
      | Some (JString s) => s
      | Some value => json_dump value
      | None => first_message parsed keys'
      end
  end.

Definition parse_api_error_message (body : string) : string :=
  if bool_decide (body = "") then ""
  else match json_parse body with
  | None => ""
  | Some (JString s) => s
  | Some parsed => first_message parsed ["error"; "errorMsg"; "message"; "detail"]
  end.

Definition request_id_of (response : HttpResponse) : string :=
  let id := header_value response "x-request-id" in
  if bool_decide (id = "") then header_value response "cf-ray" else id.

Definition make_sdk_error (response : HttpResponse) (endpoint : string) (now_unix_seconds : Z) : SdkError :=
  let base code message retryable :=
    MkError code message endpoint (status_code response) (excerpt (body response))
      (request_id_of response) retryable in
  if negb (bool_decide (error response = "")) then base HttpTransport (error response) true None None
  else
    let after := parse_retry_after_seconds response now_unix_seconds in
    let limit := parse_rate_limit_update response BucketNone in
    let api_message := parse_api_error_message (body response) in
    let message := if bool_decide (api_message = "") then "API request failed" else api_message in
    if is_deposit_wallet_signer_mismatch endpoint (status_code response) message then
      base DepositWalletSetup deposit_wallet_setup_message false after limit
    else if (status_code response =? 401) || (status_code response =? 403) then base Auth message false after limit
    else if status_code response =? 429 then base RateLimit message true after limit
    else base ApiResponse message (500 <=? status_code response) after limit.
End Errors.

(** ** Theorems *)

Section RetryFacts.
Context `{JsonLibrary, DateReader, UndefinedCast}.

(** What a run of the loop from its [retry]-th round did. *)
Definition retry_result (policy : RateLimitRetry) (env : attempts) (deadline : option Z) (retry : Z)
    (sent : nat) (last : HttpResponse) (delays : list Z) : Prop :=
  last = attempt env (sent + length delays) ∧
  Z.of_nat (length delays) ≤ Z.max 0 (retries policy - retry) ∧
  ∀ i delay, delays !! i = Some delay →
    status_code (attempt env (sent + i)) = 429 ∧
    delay = rate_limit_delay (attempt env (sent + i)) (unix_now env (sent + i)) ∧
    delay ≤ max_delay policy ∧
    match deadline with Some d => steady_now env (sent + i) + delay ≤ d | None => True end.

Lemma retry_loop_spec fuel policy env deadline retry sent :
  retries policy - retry < Z.of_nat fuel → (0 < fuel)%nat →
  ∃ last delays, retry_loop fuel (Some policy) env deadline retry sent = Some (last, delays) ∧
    retry_result policy env deadline retry sent last delays.
Proof.
  revert retry sent. induction fuel as [|fuel IH]; intros retry sent Hfuel Hpos; [lia|]. clear Hpos. cbn [retry_loop].
  assert (Hstop : ∃ last delays, Some (attempt env sent, []) = Some (last, delays) ∧
      retry_result policy env deadline retry sent last delays).
  { eexists _, []. split; [done|]. split; [by rewrite Nat.add_0_r|]. split; [cbn; lia|]. by intros i d ?%lookup_nil_Some. }
  destruct (_ || _) eqn:Est; [done|]. set (delay := rate_limit_delay _ _).
  destruct (max_delay policy <? delay) eqn:Emax; [done|].
  destruct (match deadline with Some _ => _ | None => _ end) eqn:Edl; [done|]. bools.
  destruct (IH (retry + 1) (S sent)) as (last & delays & -> & Hlast & Hlen & Hd); [lia|lia|]. cbn.
  eexists last, (delay :: delays). split; [done|]. split; [rewrite Hlast; f_equal; cbn; lia|].
  split; [cbn; lia|]. intros [|i] d' Hi.
  - injection Hi as <-. rewrite Nat.add_0_r. split_and!; [done..|lia|]. destruct deadline; [bools; lia|done].
  - replace (sent + S i)%nat with (S sent + i)%nat by lia. by apply Hd.
Qed.

(** Retries of a rate-limited request are bounded.  With a policy that passes
    validation the loop returns after at most [retries] waits, each the server's
    delay, none longer than [max_delay] or past the deadline, all after a 429; the
    response it returns is that of the last request. *)
Lemma retry_rate_limited_bounded policy env deadline :
  validate_rate_limit_retry policy = Ok tt →
  ∃ last delays,
    retry_rate_limited (S (Z.to_nat (retries policy))) (Some policy) env deadline = Some (last, delays) ∧
    retry_result policy env deadline 0 0 last delays ∧
    (length delays ≤ Z.to_nat (retries policy))%nat.
Proof.
  unfold validate_rate_limit_retry. intros Hv. res_inv. bools.
  destruct (retry_loop_spec (S (Z.to_nat (retries policy))) policy env deadline 0 0)
    as (last & delays & E & Hr); [lia|lia|]. exists last, delays. split; [done|]. split; [done|].
  destruct Hr as (_ & Hl & _). lia.
Qed.
End RetryFacts.

(** An error is retryable exactly when the transport failed or the server was
    rate limiting or failing.  The rejection of a deposit wallet's signer, a
    client error, is never retried. *)
Lemma sdk_error_retryable `{JsonLibrary, DateReader} response endpoint now :
  retryable (make_sdk_error response endpoint now) = true ↔
  error response ≠ "" ∨ status_code response = 429 ∨ 500 ≤ status_code response.
Proof.
  unfold make_sdk_error. case_bool_decide as Herr; cbn [negb]; [|cbn; naive_solver].
  unfold is_deposit_wallet_signer_mismatch.
  set (msg := if bool_decide _ then _ else _).
  destruct (_ && _ && _ && _) eqn:Edep; cbn [retryable].
  { bools. split; [done|]. intros [?|[?|?]]; congruence || lia. }
  destruct (_ || _) eqn:Eauth; cbn [retryable].
  { bools. split; [done|]. intros [?|?]; [congruence|]. destruct Eauth; bools; lia. }
  destruct (Z.eqb_spec (status_code response) 429); cbn [retryable]; [naive_solver|].
  rewrite Z.leb_le. naive_solver.
Qed.

(** ** Witnesses *)

Definition sample_json : JsonLibrary := {| json_parse _ := None; json_dump _ := "" |}.
Definition sample_dates : DateReader := λ _, None.
Definition sample_cast : UndefinedCast := λ _, - 2 ^ 63.

Definition limited : HttpResponse := MkResponse 429 "" "" {["retry-after" := "1.5"]}.
Definition served : HttpResponse := MkResponse 200 "ok" "" ∅.

(** Two rate-limited responses, then success. *)
Definition sample_env : attempts :=
  {| attempt n := if decide (n < 2)%nat then limited else served;
     steady_now n := 1600 * Z.of_nat n; unix_now n := 0 |}.

Definition sample_policy : RateLimitRetry := MkRetry 3 5000.
Definition sample_run : option (HttpResponse * list Z) :=
  @retry_rate_limited sample_json sample_dates sample_cast (S (Z.to_nat (retries sample_policy)))
    (Some sample_policy) sample_env (Some 10000).

Lemma retry_rate_limited_bounded_witness :
  (∃ last delays, sample_run = Some (last, delays) ∧
     @retry_result sample_json sample_dates sample_cast sample_policy sample_env (Some 10000) 0 0 last delays ∧
     (length delays ≤ Z.to_nat (retries sample_policy))%nat) ∧
  snd <$> sample_run = Some [1500; 1500].
Proof.
  split; [|by vm_compute].
  exact (@retry_rate_limited_bounded sample_json sample_dates sample_cast sample_policy sample_env
    (Some 10000) eq_refl).
Defined.
