(* ===== verification/BoundedWorkers.v ===== *)
(** * A bounded pool of workers (src/bounded_workers.cpp)

    [run_bounded_tasks] as a transition system: the calling thread starts the
    workers (starting one may fail), joins them and reports; each worker tests the
    flag, takes the next index, runs the task and records an exception, one atomic
    or locked access per step, in any interleaving.  Which tasks throw is a
    parameter. *)
From S2P Require Import Prelude.

(** ** State *)

Inductive worker :=
  | checking                       (** at the condition of the loop *)
  | taking                         (** [cancelled] was clear *)
  | running (index : nat)
  | recording (e : exn)            (** caught, [failure_mutex] not taken yet *)
  | cancelling                     (** recorded, [cancelled] not set yet *)
  | finished.

Inductive caller :=
  | launching (started : nat)
  | joining (launch_error : option exn)
  | returned (result : res unit).

Record pool := MkPool {
  calling : caller;
  workers : list worker;
  next_task : nat;
  cancelled : bool;
  failure : option exn;
  ran : list nat;                  (** the tasks called, oldest first *)
  ended : list nat;                (** those that returned without throwing *)
  threw : list nat }.

(** The guards before the pool is set up. *)
Definition start_bounded (task_count worker_limit : nat) : pool :=
  MkPool
    (if bool_decide (task_count = 0) then returned (Ok tt)
     else if bool_decide (worker_limit = 0) then
       returned (Throw (invalid_argument "worker limit must be positive"))
     else launching 0) [] 0 false None [] [] [].

Definition all_finished (ws : list worker) : bool := forallb (λ w, match w with finished => true | _ => false end) ws.

(** Membership after one worker moved. *)
Lemma elem_moved (l1 l2 : list worker) v w : v ∈ l1 ++ w :: l2 ↔ v = w ∨ v ∈ l1 ++ l2.
Proof. rewrite !elem_of_app, elem_of_cons. tauto. Qed.

Section Pool.
Context (task_count worker_limit : nat) (throws : nat → nat → option exn).

Definition worker_count : nat := Nat.min task_count worker_limit.

Definition set_calling (c : caller) (p : pool) : pool :=
  MkPool c (workers p) (next_task p) (cancelled p) (failure p) (ran p) (ended p) (threw p).
Definition set_worker (i : nat) (w : worker) (p : pool) : pool :=
  MkPool (calling p) (<[i := w]> (workers p)) (next_task p) (cancelled p) (failure p) (ran p) (ended p) (threw p).
Definition set_cancelled (p : pool) : pool :=
  MkPool (calling p) (workers p) (next_task p) true (failure p) (ran p) (ended p) (threw p).

(** One access of the thread of worker [i]. *)
Definition worker_step (i : nat) (w : worker) (p : pool) : option pool :=
  match w with
  | checking => Some (set_worker i (if cancelled p then finished else taking) p)
  | taking =>
      let index := next_task p in
      let p := MkPool (calling p) (workers p) (S index) (cancelled p) (failure p) (ran p) (ended p) (threw p) in
      Some (if bool_decide (task_count ≤ index) then set_worker i finished p
            else set_worker i (running index)
                   (MkPool (calling p) (workers p) (next_task p) (cancelled p) (failure p)
                      (ran p ++ [index]) (ended p) (threw p)))
  | running index =>
      Some match throws index i with
           | Some e => set_worker i (recording e)
                         (MkPool (calling p) (workers p) (next_task p) (cancelled p) (failure p) (ran p)
                            (ended p) (threw p ++ [index]))
           | None => set_worker i checking
                       (MkPool (calling p) (workers p) (next_task p) (cancelled p) (failure p) (ran p)
                          (ended p ++ [index]) (threw p))
           end
  | recording e =>
      Some (set_worker i cancelling
              (MkPool (calling p) (workers p) (next_task p) (cancelled p)
                 (match failure p with None => Some e | f => f end) (ran p) (ended p) (threw p)))
  | cancelling => Some (set_worker i checking (set_cancelled p))
  | finished => None
  end.

Inductive step : pool → pool → Prop :=
  | step_launch p k :
      calling p = launching k → k < worker_count →
      step p (MkPool (launching (S k)) (workers p ++ [checking]) (next_task p) (cancelled p) (failure p)
                (ran p) (ended p) (threw p))
  | step_launch_failed p k e :
      calling p = launching k → k < worker_count → step p (set_calling (joining (Some e)) (set_cancelled p))
  | step_launched p :
      calling p = launching worker_count → step p (set_calling (joining None) p)
  | step_worker p p' i w :
      workers p !! i = Some w → worker_step i w p = Some p' → step p p'
  | step_join p launch_error :
      calling p = joining launch_error → all_finished (workers p) = true →
      step p (set_calling (returned (match launch_error, failure p with
                                     | Some e, _ | None, Some e => Throw e
                                     | None, None => Ok tt
                                     end)) p).

Definition reachable (p : pool) : Prop := rtc step (start_bounded task_count worker_limit) p.

(** ** What holds in every state *)

Definition task_of (w : worker) : option nat := match w with running i => Some i | _ => None end.
Definition running_tasks (p : pool) : list nat := omap task_of (workers p).

(** The exception is one a called task threw. *)
Definition thrown (p : pool) (e : exn) : Prop := ∃ i w, i ∈ threw p ∧ throws i w = Some e.

(** What the position of a worker says of the pool. *)
Definition worker_ok (p : pool) (w : worker) : Prop :=
  match w with
  | recording e => thrown p e
  | cancelling => failure p ≠ None
  | finished => cancelled p = true ∨ task_count ≤ next_task p
  | _ => True
  end.

Record pool_ok (p : pool) : Prop := {
  ran_taken : ran p = seq 0 (Nat.min (next_task p) task_count);
  ran_accounted : ran p ≡ₚ ended p ++ threw p ++ running_tasks p;
  threw_recorded : threw p ≠ [] → failure p ≠ None ∨ ∃ e, recording e ∈ workers p;
  failure_thrown e : failure p = Some e → thrown p e;
  workers_ok w : w ∈ workers p → worker_ok p w;
  cancelled_why : cancelled p = true → failure p ≠ None ∨
    match calling p with joining (Some _) | returned (Throw _) => True | _ => False end;
  workers_launched : match calling p with
                     | launching k => length (workers p) = k ∧ k ≤ worker_count ∧ 0 < worker_count
                     | joining None => length (workers p) = worker_count ∧ 0 < worker_count
                     | joining (Some _) => length (workers p) < worker_count
                     | _ => True
                     end;
  returned_done r : calling p = returned r → all_finished (workers p) = true ∧
    match r with
    | Ok _ => ended p ≡ₚ seq 0 task_count
    | Throw e => task_count ≠ 0 ∧
        (worker_limit = 0 ∨ length (workers p) < worker_count ∨ failure p = Some e)
    end }.

Lemma start_ok : pool_ok (start_bounded task_count worker_limit).
Proof using Type.
  unfold start_bounded. split; cbn; try done; try (intros; set_solver).
  - destruct (bool_decide _) eqn:E0; bools; [done|]. destruct (bool_decide (worker_limit = 0)) eqn:E1; bools; [done|].
    unfold worker_count. lia.
  - destruct (bool_decide _) eqn:E0; bools; [|destruct (bool_decide (worker_limit = 0)) eqn:E1; bools];
      intros r [= <-]; (split; [done|]); [by rewrite E0|by auto].
Qed.

Lemma insert_split (l : list worker) i w :
  l !! i = Some w → ∃ l1 l2, l = l1 ++ w :: l2 ∧ ∀ w', <[i := w']> l = l1 ++ w' :: l2.
Proof using Type.
  intros Hi. exists (take i l), (drop (S i) l). split; [by rewrite take_drop_middle|].
  intros w'. apply insert_take_drop. by eapply lookup_lt_Some.
Qed.

Lemma all_finished_spec ws : all_finished ws = true ↔ ∀ w, w ∈ ws → w = finished.
Proof using Type.
  unfold all_finished. rewrite forallb_forall. split; intros H w Hw.
  - apply list_elem_of_In in Hw. specialize (H w Hw). by destruct w.
  - apply list_elem_of_In in Hw. by rewrite (H w Hw).
Qed.

(** The steps of a worker keep what is said of the calling thread. *)
Lemma worker_calling p i w p' :
  pool_ok p → workers p !! i = Some w → worker_step i w p = Some p' →
  calling p' = calling p ∧ length (workers p') = length (workers p) ∧ ∀ r, calling p ≠ returned r.
Proof using Type.
  intros Hp Hi Hs. split_and!.
  - destruct w; cbn in Hs; simplify_eq; try case_match; try done.
  - destruct w; cbn in Hs; simplify_eq; cbn; rewrite ?length_insert; try done;
      [case_bool_decide|case_match]; cbn; by rewrite length_insert.
  - intros r Hr. apply (returned_done _ Hp) in Hr as [Hf _].
    apply list_elem_of_lookup_2 in Hi. by rewrite (proj1 (all_finished_spec _) Hf w Hi) in Hs.
Qed.

(** What only grows. *)
Definition grows (p p' : pool) : Prop :=
  threw p ⊆ threw p' ∧ (failure p ≠ None → failure p' ≠ None) ∧ (cancelled p = true → cancelled p' = true) ∧
  next_task p ≤ next_task p'.

Lemma worker_ok_grows p p' w : grows p p' → worker_ok p w → worker_ok p' w.
Proof using Type. intros (H & ? & ? & ?). destruct w; cbn; try done; [intros (i & w & ? & ?); exists i, w; auto|intuition lia]. Qed.

(** A worker moves from [w] to [w'] while the shared counters grow. *)
Lemma moved_ok p p' l1 l2 w w' :
  pool_ok p → workers p = l1 ++ w :: l2 → workers p' = l1 ++ w' :: l2 → calling p' = calling p →
  (∀ r, calling p ≠ returned r) → grows p p' → worker_ok p' w' →
  ran p' = seq 0 (Nat.min (next_task p') task_count) →
  ran p' ≡ₚ ended p' ++ threw p' ++ running_tasks p' →
  (threw p' ≠ [] → failure p' ≠ None ∨ ∃ e, recording e ∈ workers p') →
  (∀ e, failure p' = Some e → thrown p' e) →
  (cancelled p' = true → cancelled p = true ∨ failure p' ≠ None) →
  pool_ok p'.
Proof using Type.
  intros Hp El El' Ec Hret Hg Hw HR HA HT HF HC.
  assert (length (workers p') = length (workers p)) as Elen by (rewrite El, El', !length_app; done).
  split; try done; rewrite ?Ec, ?Elen; [..|apply (workers_launched _ Hp)|by intros r ?%Hret].
  - intros v. rewrite El', elem_moved. intros [->|Hv]; [done|].
    apply (worker_ok_grows p), (workers_ok _ Hp); [done|]. rewrite El, elem_moved. by right.
  - intros [Hcp|Hf]%HC; [|by left].
    destruct (cancelled_why _ Hp Hcp) as [Hf|]; [left|by right]. by apply (proj1 (proj2 Hg)).
Qed.

Lemma recording_moved (l1 l2 : list worker) w w' (P : Prop) :
  (∀ e, w ≠ recording e) → (P ∨ ∃ e, recording e ∈ l1 ++ w :: l2) → P ∨ ∃ e, recording e ∈ l1 ++ w' :: l2.
Proof using Type.
  intros Hw [|[e He]]; [by left|right]. exists e. rewrite elem_moved in *. destruct He as [<-|He]; [by destruct (Hw e)|by right].
Qed.

Lemma worker_step_ok p p' i w :
  pool_ok p → workers p !! i = Some w → worker_step i w p = Some p' → pool_ok p'.
Proof using Type.
  intros Hp Hi Hstep. destruct (worker_calling _ _ _ _ Hp Hi Hstep) as (Ecall & _ & Hret).
  destruct (insert_split _ _ _ Hi) as (l1 & l2 & El & Eins).
  assert (Hw := workers_ok _ Hp w (list_elem_of_lookup_2 _ _ _ Hi)).
  pose proof Hp as [R A T F _ _ _ _].
  unfold running_tasks in A. rewrite El in A, T. rewrite omap_app in A. cbn [omap list_omap] in A.
  destruct w as [| |index|e| |]; cbn in Hstep; try discriminate;
    [destruct (cancelled p) eqn:Ec|case_bool_decide|destruct (throws index i) as [e|] eqn:Et|destruct (failure p) eqn:Ef|];
    injection Hstep as <-.
  all: eapply (moved_ok p _ l1 l2); [done|done|apply Eins|done|done|..].
  all: unfold running_tasks, grows, thrown;
    cbn [calling workers next_task cancelled failure ran ended threw set_worker set_cancelled worker_ok];
    rewrite ?Eins, ?omap_app, ?Ef; cbn [omap list_omap task_of] in *; try done; try (by auto); try (by right).
  all: try (intros HT%T; eapply recording_moved; [|exact HT]; done).
  all: try (by rewrite R; f_equal; lia).
  all: try (split_and!; (done || set_solver || lia)).
  all: try (rewrite A; solve_Permutation).
  all: try (by left).
  - rewrite R, (Nat.min_l (next_task p)), (Nat.min_l (S _)), seq_S by lia. done.
  - exists index, i. split; [set_solver|done].
  - intros _. right. exists e. apply elem_moved. by left.
  - intros e' (j & w & ? & ?)%F. exists j, w. split; [set_solver|done].
  - by intros e' [= <-].
Qed.

(** All workers finished without an exception: every task ran to its end. *)
Lemma workers_finished_ok p :
  pool_ok p → all_finished (workers p) = true → calling p = joining None → failure p = None →
  ended p ≡ₚ seq 0 task_count.
Proof using Type.
  intros [R A T _ W C L _] Hf Ej Ef. rewrite Ej in L, C. rewrite all_finished_spec in Hf.
  assert (threw p = []) as Et.
  { destruct (threw p) eqn:E; [done|]. destruct T as [|[e He%Hf]]; [done|done|done]. }
  assert (running_tasks p = []) as Er.
  { unfold running_tasks. destruct (omap task_of (workers p)) as [|j l] eqn:E; [done|].
    assert (j ∈ omap task_of (workers p)) as (w & Hw & Hj)%list_elem_of_omap by (rewrite E; set_solver). by rewrite (Hf w Hw) in Hj. }
  rewrite Et, Er, !app_nil_r in A. rewrite <- A, R.
  destruct (workers p) as [|w ws] eqn:Ew; [cbn in L; lia|].
  assert (w = finished) as -> by (apply Hf; set_solver).
  destruct (W finished) as [Hc|]; [set_solver|by destruct (C Hc)|]. by rewrite Nat.min_r.
Qed.

Lemma pool_step_ok p p' : pool_ok p → step p p' → pool_ok p'.
Proof using Type.
  intros Hp Hstep. revert Hp. destruct Hstep as [q k Ek Hk|q k e Ek Hk|q Ek|q q' i w Hi Hs|q le Ej Hf]; intros Hp; [| | |by eapply worker_step_ok|].
  all: pose proof Hp as [R A T F W C L _]; first [rewrite Ek in L, C|rewrite Ej in L, C]; split; try done; unfold running_tasks in *; cbn in *.
  - rewrite A, omap_app, app_nil_r. done.
  - intros [|[e He]]%T; [by left|right]. exists e. rewrite elem_of_app. by left.
  - intros w [Hw|Hw]%elem_of_app; [by apply (worker_ok_grows q), W|]. by apply list_elem_of_singleton in Hw as ->.
  - rewrite length_app. cbn. lia.
  - intros w Hw. apply (worker_ok_grows q), W; [|done]. by split_and!.
  - by right.
  - lia.
  - lia.
  - intros [|Hj]%C; [by left|right]. by destruct le.
  - intros r [= <-]. split; [done|]. unfold worker_count in *.
    destruct le as [e|]; [split; [lia|by right; left]|].
    destruct (failure q) eqn:Ef; [split; [lia|by right; right]|]. by apply workers_finished_ok.
Qed.

Lemma pool_reachable_ok p : reachable p → pool_ok p.
Proof using Type.
  revert p. apply rtc_ind_r; [apply start_ok|]. intros p p' _ Hs Hp. by apply (pool_step_ok p).
Qed.

(** ** Termination *)

Definition rank (w : worker) : nat :=
  match w with running _ => 5 | recording _ => 4 | cancelling => 3 | checking => 2 | taking => 1 | finished => 0 end.

Definition caller_rank (c : caller) : nat :=
  match c with launching k => 3 * (worker_count - k) + 2 | joining _ => 1 | returned _ => 0 end.

Definition measure (p : pool) : nat :=
  sum_list_with rank (workers p) + 5 * (task_count - next_task p) + caller_rank (calling p).

Lemma step_decreases p p' : step p p' → measure p' < measure p.
Proof using Type.
  unfold measure. intros [q k Ek Hk|q k e Ek Hk|q Ek|q q' i w Hi Hs|q le Ej Hf].
  - cbn. rewrite Ek, sum_list_with_app. cbn. lia.
  - cbn. rewrite Ek. cbn. lia.
  - cbn. rewrite Ek. cbn. lia.
  - destruct (insert_split _ _ _ Hi) as (l1 & l2 & El & Eins). rewrite El, sum_list_with_app.
    destruct w as [| |index|e| |]; cbn in Hs; try discriminate;
      [|case_bool_decide|destruct (throws index i)|..]; injection Hs as <-;
      cbn; rewrite Eins, sum_list_with_app; cbn; try destruct (cancelled q); cbn; lia.
  - cbn. rewrite Ej. cbn. lia.
Qed.

Lemma step_enabled p : (∀ r, calling p ≠ returned r) → pool_ok p → ∃ p', step p p'.
Proof using Type.
  intros Hret Hp. destruct (calling p) as [k|le|r] eqn:Ec; [|destruct (all_finished (workers p)) eqn:Ef|by destruct (Hret r)].
  - pose proof (workers_launched _ Hp) as L. rewrite Ec in L.
    destruct (decide (k = worker_count)) as [->|]; eexists; [by apply step_launched|]. eapply step_launch; [done|lia].
  - eexists. by eapply step_join.
  - assert (∃ i w, workers p !! i = Some w ∧ w ≠ finished) as (i & w & Hi & Hw).
    { clear -Ef. induction (workers p) as [|w l IH]; [done|]. destruct w; try by (exists 0; eexists; split; [done|]).
      destruct IH as (i & v & ? & ?); [done|]. by exists (S i), v. }
    destruct (worker_step i w p) as [p'|] eqn:Es; [exists p'; by eapply step_worker|].
    destruct w; cbn in Es; try case_bool_decide; done.
Qed.

(** C16: Whatever the interleaving of its threads, [run_bounded_tasks] ends: every step decreases a measure, and until it
    returns some thread can move.  No index is handed to two tasks, and every index handed out is below [task_count].
    When it returns all the workers have finished; a normal return means each task was called once and ended without
    throwing; an exception is the argument check, a worker thread that failed to start, or one thrown by a task that
    was called. *)
Theorem bounded_tasks_run_once p :
  reachable p →
  (∀ p', step p p' → measure p' < measure p) ∧
  NoDup (ran p) ∧ (∀ index, index ∈ ran p → index < task_count) ∧
  match calling p with
  | returned r =>
      all_finished (workers p) = true ∧
      match r with
      | Ok _ => ended p ≡ₚ seq 0 task_count
      | Throw e => task_count ≠ 0 ∧
          (worker_limit = 0 ∨ length (workers p) < worker_count ∨
           ∃ index worker, index ∈ threw p ∧ throws index worker = Some e)
      end
  | _ => ∃ p', step p p'
  end.
Proof using Type.
  intros Hp%pool_reachable_ok. split; [apply step_decreases|]. rewrite (ran_taken _ Hp).
  split; [apply NoDup_seq|]. split; [intros index; rewrite elem_of_seq; lia|].
  destruct (calling p) as [| |r] eqn:Ec.
  1,2: apply step_enabled; [intros r; congruence|done].
  destruct (returned_done _ Hp _ Ec) as [Hf Hr]. split; [done|].
  destruct r as [|e]; [done|]. destruct Hr as [? [?|[?|Hfail]]]; split; auto. right; right. by apply failure_thrown.
Qed.
End Pool.

(** Two tasks on one worker, the second throws. *)
Definition second_throws (index worker : nat) : option exn :=
  if bool_decide (index = 1) then Some (runtime_error "second") else None.

Definition run_of_two : pool :=
  MkPool (returned (Throw (runtime_error "second"))) [finished] 2 true (Some (runtime_error "second")) [0; 1] [0] [1].

Lemma run_of_two_reachable : reachable 2 1 second_throws run_of_two.
Proof.
  unfold reachable, run_of_two. vm_compute start_bounded.
  eapply rtc_l; [eapply (step_launch _ _ _ _ 0); [reflexivity|vm_compute; lia]|]. cbn [workers next_task cancelled failure ran ended threw app].
  eapply rtc_l; [by apply step_launched|]. vm_compute set_calling.
  do 9 (eapply rtc_l; [eapply (step_worker _ _ _ _ _ 0); [reflexivity|vm_compute; reflexivity]|]).
  eapply rtc_l; [by eapply step_join|]. apply rtc_refl.
Qed.

Lemma bounded_tasks_run_once_witness :
  reachable 2 1 second_throws run_of_two ∧ NoDup (ran run_of_two) ∧ all_finished (workers run_of_two) = true.
Proof.
  pose proof (bounded_tasks_run_once 2 1 second_throws run_of_two run_of_two_reachable) as (_ & H1 & _ & H2 & _).
  split; [exact run_of_two_reachable|]. split; [exact H1|exact H2].
Defined.
