(* ===== verification/Pagination.v ===== *)
(** * Pagination (include/polymarket/pagination.hpp)

    [OpaqueCursorPagination] and [Paginator]: the four strategies, one page at a
    time, the collection of items and the iteration over them.  The user's fetch
    is a parameter that answers from all requests so far, so a server may do
    anything.  A [Paginator] of the model also remembers the requests it sent. *)
From S2P Require Import Prelude Text Sdk.

#[local] Open Scope Z_scope.

(** ** Cursors *)

Record OpaqueCursorPagination := MkCursors {
  cursor_ : string;
  end_cursor_ : string;
  first_page_without_cursor_ : bool;
  pages_started : Z;
  seen_cursors_ : gset string }.

Definition max_pages : Z := 1000.

Definition new_cursors (initial_cursor end_cursor : string) (first_page_without_cursor : bool) :
    OpaqueCursorPagination :=
  MkCursors initial_cursor end_cursor
    (first_page_without_cursor && bool_decide (initial_cursor = "")) 0 ∅.

Definition at_end (c : OpaqueCursorPagination) : bool :=
  bool_decide (cursor_ c = "") || bool_decide (cursor_ c = end_cursor_ c).

Definition exhausted (c : OpaqueCursorPagination) : bool := negb (first_page_without_cursor_ c) && at_end c.

Definition begin_page (c : OpaqueCursorPagination) : OpaqueCursorPagination * res bool :=
  let first_page := first_page_without_cursor_ c in
  let c := MkCursors (cursor_ c) (end_cursor_ c) false (pages_started c) (seen_cursors_ c) in
  if negb first_page && at_end c then (c, Ok false)
  else if max_pages <=? pages_started c then
    (c, Throw (runtime_error "opaque cursor pagination exceeded 1000 pages"))
  else if negb first_page && bool_decide (cursor_ c ∈ seen_cursors_ c) then
    (c, Throw (runtime_error "opaque cursor pagination cycle detected"))
  else
    (MkCursors (cursor_ c) (end_cursor_ c) false (u64 (pages_started c + 1))
       (if first_page then seen_cursors_ c else {[cursor_ c]} ∪ seen_cursors_ c), Ok true).

Definition set_cursor (cursor : string) (c : OpaqueCursorPagination) : OpaqueCursorPagination :=
  MkCursors cursor (end_cursor_ c) (first_page_without_cursor_ c) (pages_started c) (seen_cursors_ c).

Definition advance (next_cursor : string) (c : OpaqueCursorPagination) : res OpaqueCursorPagination :=
  if bool_decide (next_cursor = "") || bool_decide (next_cursor = end_cursor_ c)
  then Ok (set_cursor (end_cursor_ c) c)
  else
    _ ← require (negb (bool_decide (next_cursor ∈ seen_cursors_ c)))
          (runtime_error "opaque cursor pagination cycle detected");
    Ok (set_cursor next_cursor c).

(** ** Requests and pages *)

Record PageRequest := MkRequest {
  r_cursor : string;
  r_offset : Z;
  r_limit : Z;
  r_page : Z;
  r_exhausted : bool }.

Record Page (T : Type) := MkPage {
  page_items : list T;
  next_cursor : string;
  counted : option nat;
  has_more : bool }.
Arguments MkPage {_} _ _ _ _.
Arguments page_items {_} _.
Arguments next_cursor {_} _.
Arguments counted {_} _.
Arguments has_more {_} _.

Class Fetch (T : Type) := fetch : list PageRequest → PageRequest → Result (Page T).

Inductive Strategy := by_cursor | by_keyset | by_offset | by_number.

Record Paginator (T : Type) := MkPaginator {
  p_endpoint : string;
  strategy_ : Strategy;
  cursors_ : OpaqueCursorPagination;   (** of the cursor and keyset strategies *)
  offset_ : Z;
  limit_ : Z;
  page_ : Z;
  numbered_started : Z;
  max_offset_ : Z;
  done_ : bool;
  truncated_ : bool;
  error_ : option SdkError;
  buffer_ : list T;
  buffer_index_ : Z;
  requests : list PageRequest }.
Arguments MkPaginator {_} _ _ _ _ _ _ _ _ _ _ _ _ _ _.
Arguments p_endpoint {_} _. Arguments strategy_ {_} _. Arguments cursors_ {_} _.
Arguments offset_ {_} _. Arguments limit_ {_} _. Arguments page_ {_} _.
Arguments numbered_started {_} _. Arguments max_offset_ {_} _. Arguments done_ {_} _.
Arguments truncated_ {_} _. Arguments error_ {_} _. Arguments buffer_ {_} _.
Arguments buffer_index_ {_} _. Arguments requests {_} _.

Section Paginator.
Context {T : Type}.

(** The private constructor; a fetch that is not set is not modelled. *)
Definition new_paginator (endpoint : string) (strategy : Strategy) (limit : Z) : res (Paginator T) :=
  _ ← require (match strategy with by_cursor => true | _ => negb (limit =? 0) end)
        (invalid_argument "pagination limit must be positive");
  Ok (MkPaginator endpoint strategy (new_cursors "" "" false) 0 limit 0 0 0 false false None [] 0 []).

Definition with_state (cursors : OpaqueCursorPagination) (offset page max_offset : Z) (done truncated : bool)
    (p : Paginator T) : Paginator T :=
  MkPaginator (p_endpoint p) (strategy_ p) cursors offset (limit_ p) page (numbered_started p) max_offset
    done truncated (error_ p) (buffer_ p) (buffer_index_ p) (requests p).

Definition cursor_pages (endpoint initial_cursor end_cursor : string) : res (Paginator T) :=
  p ← new_paginator endpoint by_cursor 0;
  Ok (with_state (new_cursors initial_cursor end_cursor false) 0 0 0 false false p).

Definition keyset_pages (endpoint : string) (limit : Z) (resume : PageRequest) : res (Paginator T) :=
  p ← new_paginator endpoint by_keyset limit;
  Ok (with_state (new_cursors (r_cursor resume) "" true) 0 0 0 (r_exhausted resume) false p).

Definition numbered_pages (endpoint : string) (limit : Z) (resume : PageRequest) : res (Paginator T) :=
  p ← new_paginator endpoint by_number limit;
  Ok (with_state (cursors_ p) 0 (if r_page resume =? 0 then 1 else r_page resume) 0 (r_exhausted resume) false p).

Definition offset_pages (endpoint : string) (limit max_offset start_offset : Z) : res (Paginator T) :=
  p ← new_paginator endpoint by_offset limit;
  let truncated := max_offset <? start_offset in
  Ok (with_state (cursors_ p) start_offset 0 max_offset truncated truncated p).

Definition set_cursors (c : OpaqueCursorPagination) (p : Paginator T) : Paginator T :=
  with_state c (offset_ p) (page_ p) (max_offset_ p) (done_ p) (truncated_ p) p.
Definition set_done (d t : bool) (p : Paginator T) : Paginator T :=
  with_state (cursors_ p) (offset_ p) (page_ p) (max_offset_ p) d t p.
Definition set_error (e : SdkError) (p : Paginator T) : Paginator T :=
  MkPaginator (p_endpoint p) (strategy_ p) (cursors_ p) (offset_ p) (limit_ p) (page_ p)
    (numbered_started p) (max_offset_ p) (done_ p) (truncated_ p) (Some e) (buffer_ p)
    (buffer_index_ p) (requests p).
Definition add_request (r : PageRequest) (p : Paginator T) : Paginator T :=
  MkPaginator (p_endpoint p) (strategy_ p) (cursors_ p) (offset_ p) (limit_ p) (page_ p)
    (numbered_started p) (max_offset_ p) (done_ p) (truncated_ p) (error_ p) (buffer_ p)
    (buffer_index_ p) (requests p ++ [r]).
Definition set_buffer (items : list T) (index : Z) (p : Paginator T) : Paginator T :=
  MkPaginator (p_endpoint p) (strategy_ p) (cursors_ p) (offset_ p) (limit_ p) (page_ p)
    (numbered_started p) (max_offset_ p) (done_ p) (truncated_ p) (error_ p) items index (requests p).
Definition set_numbered (page started : Z) (done : bool) (p : Paginator T) : Paginator T :=
  MkPaginator (p_endpoint p) (strategy_ p) (cursors_ p) (offset_ p) (limit_ p) page started
    (max_offset_ p) done (truncated_ p) (error_ p) (buffer_ p) (buffer_index_ p) (requests p).

Definition PageResult : Type := Result (option (list T)).

Definition fail (e : SdkError) (p : Paginator T) : Paginator T * PageResult := (set_error e p, failure e).

Definition what (e : exn) : string :=
  match e with invalid_argument w | out_of_range w | logic_error w | runtime_error w => w end.

Context `{Fetch T}.

Definition send (r : PageRequest) (p : Paginator T) : Paginator T * Result (Page T) :=
  (add_request r p, fetch (requests p) r).

Definition next_cursor_page (p : Paginator T) : Paginator T * PageResult :=
  let '(c, begun) := begin_page (cursors_ p) in
  let p := set_cursors c p in
  match begun with
  | Throw e => fail (make_parse_error (what e) (p_endpoint p) "") p
  | Ok false => (set_done true (truncated_ p) p, success None)
  | Ok true =>
      let '(p, page) := send (MkRequest (cursor_ c) 0 (limit_ p) 0 false) p in
      match page with
      | failure e => fail e p
      | success page =>
          match advance (next_cursor page) c with
          | Ok c => (set_done (exhausted c) (truncated_ p) (set_cursors c p), success (Some (page_items page)))
          | Throw e =>
              (set_error (make_parse_error (what e) (p_endpoint p) "") p, success (Some (page_items page)))
          end
      end
  end.

Definition next_offset_page (p : Paginator T) : Paginator T * PageResult :=
  let '(p, page) := send (MkRequest "" (offset_ p) (limit_ p) 0 false) p in
  match page with
  | failure e => fail e p
  | success page =>
      let n := Z.of_nat (length (page_items page)) in
      let c := Z.of_nat (default (length (page_items page)) (counted page)) in
      if (limit_ p <? c) || (n <? c) then
        fail (make_parse_error
                ("page counts " +:+ to_string c +:+ " of " +:+ to_string n +:+ " items against limit " +:+
                 to_string (limit_ p)) (p_endpoint p) "") p
      else
        let short_page := c <? limit_ p in
        let at_offset_cap := negb short_page && (u64 (max_offset_ p - offset_ p) <? limit_ p) in
        let offset := if u64_max - offset_ p <? c then u64_max else offset_ p + c in
        let p := with_state (cursors_ p) offset (page_ p) (max_offset_ p) (done_ p) (truncated_ p) p in
        let p :=
          if short_page then set_done true (truncated_ p) p
          else if at_offset_cap then set_done true true p else p in
        (p, success (Some (page_items page)))
  end.

Definition next_numbered_page (p : Paginator T) : Paginator T * PageResult :=
  if max_pages <=? numbered_started p then
    fail (make_parse_error "numbered pagination exceeded 1000 pages" (p_endpoint p) "") p
  else if page_ p =? u64_max then
    fail (make_parse_error "numbered pagination page overflow" (p_endpoint p) "") p
  else
    let p := set_numbered (page_ p) (numbered_started p + 1) (done_ p) p in
    let '(p, page) := send (MkRequest "" 0 (limit_ p) (page_ p) false) p in
    match page with
    | failure e => fail e p
    | success page =>
        (set_numbered (page_ p + 1) (numbered_started p) (negb (has_more page)) p,
         success (Some (page_items page)))
    end.

Definition next_page (p : Paginator T) : Paginator T * PageResult :=
  match error_ p with
  | Some e => (p, failure e)
  | None =>
      if done_ p then (p, success None)
      else match strategy_ p with
      | by_offset => next_offset_page p
      | by_number => next_numbered_page p
      | by_cursor | by_keyset => next_cursor_page p
      end
  end.

(** [collect]; [None] when the fuel runs out. *)
Fixpoint collect_loop (fuel : nat) (items : list T) (max_items : Z) (p : Paginator T) :
    option (Paginator T * Result (list T)) :=
  match fuel with
  | O => None
  | S fuel =>
      if Z.of_nat (length items) <? max_items then
        match next_page p with
        | (p, failure e) => Some (p, failure e)
        | (p, success None) => Some (p, success items)
        | (p, success (Some batch)) =>
            let keep := Z.min (Z.of_nat (length batch)) (max_items - Z.of_nat (length items)) in
            collect_loop fuel (items ++ take (Z.to_nat keep) batch) max_items p
        end
      else Some (p, success items)
  end.

Definition collect (fuel : nat) (max_items : Z) (p : Paginator T) : option (Paginator T * Result (list T)) :=
  collect_loop fuel [] max_items p.

(** ** Iteration *)

Fixpoint fill_loop (fuel : nat) (p : Paginator T) : option (Paginator T) :=
  match fuel with
  | O => None
  | S fuel =>
      match next_page p with
      | (p, success (Some [])) => fill_loop fuel p
      | (p, success (Some items)) => Some (set_buffer items (buffer_index_ p) p)
      | (p, _) => Some p
      end
  end.

Definition fill_buffer (fuel : nat) (p : Paginator T) : option (Paginator T) := fill_loop fuel (set_buffer [] 0 p).

(** [items().begin()], the test against [end()], [*it] and [++it]. *)
Definition iterator_begin (fuel : nat) (p : Paginator T) : option (Paginator T) :=
  if Z.of_nat (length (buffer_ p)) <=? buffer_index_ p then fill_buffer fuel p else Some p.
Definition iterator_at_end (p : Paginator T) : bool := Z.of_nat (length (buffer_ p)) <=? buffer_index_ p.
Definition iterator_item (p : Paginator T) : option T := buffer_ p !! Z.to_nat (buffer_index_ p).
Definition iterator_next (fuel : nat) (p : Paginator T) : option (Paginator T) :=
  let p := set_buffer (buffer_ p) (buffer_index_ p + 1) p in
  if Z.of_nat (length (buffer_ p)) <=? buffer_index_ p then fill_buffer fuel p else Some p.

Definition is_done (p : Paginator T) : bool := done_ p || bool_decide (is_Some (error_ p)).

Definition resume_token (p : Paginator T) : PageRequest :=
  let exhausted := done_ p && negb (bool_decide (is_Some (error_ p))) in
  match strategy_ p with
  | by_cursor => MkRequest (cursor_ (cursors_ p)) 0 0 0 false
  | by_keyset => MkRequest (cursor_ (cursors_ p)) 0 (limit_ p) 0 exhausted
  | by_number => MkRequest "" 0 (limit_ p) (page_ p) exhausted
  | by_offset => MkRequest "" (offset_ p) (limit_ p) 0 false
  end.
End Paginator.

(** ** Termination

    How many pages a paginator can still return, whatever the server answers. *)
Section Termination.
Context {T : Type} `{Fetch T}.
Implicit Types p : Paginator T.

Record pages_ok p : Prop := {
  ok_cursors : 0 ≤ pages_started (cursors_ p);
  ok_numbered : 0 ≤ numbered_started p;
  ok_offset : strategy_ p = by_offset →
    0 < limit_ p ∧ 0 ≤ offset_ p ∧ max_offset_ p ≤ u64_max ∧ (done_ p = false → offset_ p ≤ max_offset_ p) }.

Definition pages_left p : nat :=
  match error_ p with
  | Some _ => 0
  | None =>
      if done_ p then 0
      else match strategy_ p with
      | by_offset => S (Z.to_nat ((max_offset_ p - offset_ p) / limit_ p))
      | by_number => Z.to_nat (max_pages - numbered_started p)
      | by_cursor | by_keyset => Z.to_nat (max_pages - pages_started (cursors_ p))
      end
  end.

(** What one call of [next_page] sends, and that a page uses up the bound. *)
Definition page_progress p (p' : Paginator T) (r : @PageResult T) : Prop :=
  pages_ok p' ∧ strategy_ p' = strategy_ p ∧
  ∃ sent, requests p' = requests p ++ sent ∧ (length sent + pages_left p' ≤ pages_left p)%nat ∧
    match r with success (Some _) => length sent = 1%nat | _ => (length sent ≤ 1)%nat end.

Lemma begin_page_pages c :
  0 ≤ pages_started c →
  let '(c', r) := begin_page c in
  0 ≤ pages_started c' ∧ pages_started c ≤ pages_started c' ∧
  (r = Ok true → pages_started c < max_pages ∧ pages_started c' = pages_started c + 1).
Proof.
  intros Hc. unfold begin_page. destruct (_ && _); [cbn; split_and!; [lia|lia|done]|].
  cbn [pages_started]. destruct (Z.leb_spec max_pages (pages_started c)); [cbn; split_and!; [lia|lia|done]|].
  destruct (_ && _); [cbn; split_and!; [lia|lia|done]|].
  cbn. rewrite u64_id; [lia|]. unfold is_u64, u64_max, max_pages in *. lia.
Qed.

Lemma advance_pages next c c' : advance next c = Ok c' → pages_started c' = pages_started c.
Proof. unfold advance. destruct (_ || _); intros; res_inv; done. Qed.

Lemma next_page_progress p :
  pages_ok p → let '(p', r) := next_page p in page_progress p p' r.
Proof.
  intros Hok. unfold next_page. destruct (error_ p) as [e|] eqn:Ee.
  { split; [done|]. split; [done|]. exists []. rewrite app_nil_r. split; [done|]. split; [done|cbn; lia]. }
  destruct (done_ p) eqn:Ed.
  { split; [done|]. split; [done|]. exists []. rewrite app_nil_r. split; [done|]. split; [done|cbn; lia]. }
  destruct Hok as [Hc Hn Ho].
  assert (Hcur : strategy_ p = by_cursor ∨ strategy_ p = by_keyset →
    let '(p', r) := next_cursor_page p in page_progress p p' r).
  { intros Hs. unfold next_cursor_page. pose proof (begin_page_pages _ Hc) as Hb.
    assert (Hl : pages_left p = Z.to_nat (max_pages - pages_started (cursors_ p))).
    { unfold pages_left. rewrite Ee, Ed. by destruct Hs as [-> | ->]. }
    assert (Hno : strategy_ p = by_offset → False) by (by destruct Hs as [-> | ->]).
    destruct (begin_page (cursors_ p)) as [c [[|]|e]]; destruct Hb as (Hb0 & Hb1 & Hb2).
    - destruct (Hb2 eq_refl) as [Hlt Heq]. cbn. destruct (fetch _ _) as [page|e].
      + destruct (advance (next_cursor page) c) as [c'|e] eqn:Ea.
        * apply advance_pages in Ea. split; [by constructor; cbn; try lia; intros ?%Hno|]. split; [done|].
          eexists [_]. split; [done|]. split; [|done]. rewrite Hl. unfold pages_left. cbn. rewrite Ee.
          destruct (exhausted c'); [lia|]. destruct Hs as [-> | ->]; lia.
        * split; [by constructor; cbn; try lia; intros ?%Hno|]. split; [done|].
          eexists [_]. split; [done|]. split; [|done]. rewrite Hl. cbn. lia.
      + split; [by constructor; cbn; try lia; intros ?%Hno|]. split; [done|].
        eexists [_]. split; [done|]. split; [|cbn; lia]. rewrite Hl. cbn. lia.
    - split; [by constructor; cbn; try lia; intros ?%Hno|]. split; [done|].
      exists []. rewrite app_nil_r. split; [done|]. split; [|cbn; lia]. unfold pages_left at 1. cbn. rewrite Ee. cbn. lia.
    - split; [by constructor; cbn; try lia; intros ?%Hno|]. split; [done|].
      exists []. rewrite app_nil_r. split; [done|]. split; [cbn; lia|cbn; lia]. }
  destruct (strategy_ p) eqn:Es; [by apply Hcur; left|by apply Hcur; right| |].
  - clear Hcur. destruct (Ho eq_refl) as (Hlim & Hoff & Hmax & Hle). specialize (Hle Ed).
    assert (Hl : pages_left p = S (Z.to_nat ((max_offset_ p - offset_ p) / limit_ p))).
    { unfold pages_left. by rewrite Ee, Ed, Es. }
    unfold next_offset_page. cbn. destruct (fetch _ _) as [page|e]; cycle 1.
    { split; [constructor; cbn; try done|]. split; [done|]. eexists [_]. split; [done|]. rewrite Hl.
      split; [cbn; lia|cbn; lia]. }
    destruct (_ || _) eqn:Ebad.
    { split; [constructor; cbn; try done|]. split; [done|]. eexists [_]. split; [done|]. rewrite Hl.
      split; [cbn; lia|cbn; lia]. }
    apply orb_false_iff in Ebad as [Hc1%Z.ltb_ge Hc2%Z.ltb_ge].
    set (c := Z.of_nat (default _ _)) in *. assert (0 ≤ c) by lia.
    destruct (Z.ltb_spec c (limit_ p)) as [Hshort|Hfull]; cbn [negb andb].
    + split; [|split; [done|]]; cycle 1.
      { eexists [_]. split; [done|]. split; [|done]. rewrite Hl. unfold pages_left. cbn. rewrite Ee. cbn. lia. }
      constructor; cbn; try done. intros _. split; [done|]. split; [|done].
      destruct (Z.ltb_spec (u64_max - offset_ p) c); unfold u64_max in *; lia.
    + assert (Eu : u64 (max_offset_ p - offset_ p) = max_offset_ p - offset_ p).
      { apply u64_id. unfold is_u64. lia. }
      rewrite Eu. assert (c = limit_ p) as -> by lia.
      destruct (Z.ltb_spec (max_offset_ p - offset_ p) (limit_ p)) as [Hcap|Hmore].
      * split; [|split; [done|]]; cycle 1.
        { eexists [_]. split; [done|]. split; [|done]. rewrite Hl. unfold pages_left. cbn. rewrite Ee. cbn. lia. }
        constructor; cbn; try done. intros _. split; [done|]. split; [|done].
        destruct (Z.ltb_spec (u64_max - offset_ p) (limit_ p)); unfold u64_max in *; lia.
      * rewrite (proj2 (Z.ltb_ge (u64_max - offset_ p) (limit_ p))) by lia.
        split; [constructor; cbn; try done; intros _; lia|]. split; [done|].
        eexists [_]. split; [done|]. split; [|done]. rewrite Hl. unfold pages_left. cbn.
        rewrite Ee, Ed, Es.
        assert ((max_offset_ p - offset_ p) / limit_ p =
                (max_offset_ p - (offset_ p + limit_ p)) / limit_ p + 1) as ->.
        { rewrite <- Z.div_add by lia. f_equal. lia. }
        pose proof (Z.div_pos (max_offset_ p - (offset_ p + limit_ p)) (limit_ p)). lia.
  - assert (Hl : pages_left p = Z.to_nat (max_pages - numbered_started p)).
    { unfold pages_left. by rewrite Ee, Ed, Es. }
    assert (Hno : strategy_ p = by_offset → False) by congruence.
    unfold next_numbered_page. destruct (Z.leb_spec max_pages (numbered_started p)) as [|Hlt].
    { split; [by constructor; cbn; try done; intros ?%Hno|]. split; [done|]. exists [].
      rewrite app_nil_r. split; [done|]. split; [cbn; lia|cbn; lia]. }
    destruct (page_ p =? u64_max).
    { split; [by constructor; cbn; try done; intros ?%Hno|]. split; [done|]. exists [].
      rewrite app_nil_r. split; [done|]. split; [cbn; lia|cbn; lia]. }
    cbn. destruct (fetch _ _) as [page|e]; (split; [by constructor; cbn; try lia; intros ?%Hno|]; split; [done|];
      eexists [_]; split; [done|]; rewrite Hl; unfold pages_left; cbn; rewrite ?Ee, ?Es).
    + split; [|done]. destruct (has_more page); cbn; lia.
    + split; lia.
Qed.

Lemma collect_loop_returns items max_items p :
  pages_ok p → ∃ p' r, (∀ fuel, (pages_left p < fuel)%nat → collect_loop fuel items max_items p = Some (p', r)) ∧
    (length (requests p') ≤ length (requests p) + pages_left p)%nat.
Proof.
  remember (pages_left p) as n eqn:En. revert items p En.
  induction n as [n IH] using lt_wf_ind. intros items p -> Hok.
  destruct (Z.ltb_spec (Z.of_nat (length items)) max_items) as [Hmax|Hmax]; cycle 1.
  { exists p, (success items). split; [|lia]. intros [|fuel] ?; [lia|]. cbn.
    by rewrite (proj2 (Z.ltb_ge _ _) Hmax). }
  apply Z.ltb_lt in Hmax. pose proof (next_page_progress p Hok) as Hp.
  destruct (next_page p) as [p1 [[batch|]|e]] eqn:Ep; destruct Hp as (Hok1 & _ & sent & Hreq & Hle & Hlen).
  - destruct (IH (pages_left p1) ltac:(lia)
      (items ++ take (Z.to_nat (Z.min (Z.of_nat (length batch)) (max_items - Z.of_nat (length items)))) batch)
      p1 eq_refl Hok1) as (p' & r & Hrun & Hsent).
    exists p', r. split; [|rewrite Hreq, length_app in Hsent; lia].
    intros [|fuel] ?; [lia|]. cbn. rewrite Hmax, Ep. apply Hrun. lia.
  - exists p1, (success items). split; [|rewrite Hreq, length_app; lia].
    intros [|fuel] ?; [lia|]. cbn. by rewrite Hmax, Ep.
  - exists p1, (failure e). split; [|rewrite Hreq, length_app; lia].
    intros [|fuel] ?; [lia|]. cbn. by rewrite Hmax, Ep.
Qed.

(** The same bound on the loop that looks for a page with items. *)
Lemma fill_loop_returns p :
  pages_ok p → ∃ p', (∀ fuel, (pages_left p < fuel)%nat → fill_loop fuel p = Some p') ∧
    (length (requests p') ≤ length (requests p) + pages_left p)%nat ∧ pages_ok p'.
Proof.
  remember (pages_left p) as n eqn:En. revert p En.
  induction n as [n IH] using lt_wf_ind. intros p -> Hok.
  pose proof (next_page_progress p Hok) as Hp.
  destruct (next_page p) as [p1 [[[|x batch]|]|e]] eqn:Ep; destruct Hp as (Hok1 & Hs1 & sent & Hreq & Hle & Hlen).
  - destruct (IH (pages_left p1) ltac:(lia) p1 eq_refl Hok1) as (p' & Hrun & Hsent & Hok').
    exists p'. split; [|split; [rewrite Hreq, length_app in Hsent; lia|done]].
    intros [|fuel] ?; [lia|]. cbn. rewrite Ep. apply Hrun. lia.
  - eexists. split; [intros [|fuel] ?; [lia|]; cbn; by rewrite Ep|].
    cbn. split; [rewrite Hreq, length_app; lia|]. by destruct Hok1.
  - eexists. split; [intros [|fuel] ?; [lia|]; cbn; by rewrite Ep|].
    split; [rewrite Hreq, length_app; lia|done].
  - eexists. split; [intros [|fuel] ?; [lia|]; cbn; by rewrite Ep|].
    split; [rewrite Hreq, length_app; lia|done].
Qed.

(** A paginator as one of the four factories makes it. *)
Definition made p : Prop :=
  (∃ endpoint initial_cursor end_cursor, cursor_pages endpoint initial_cursor end_cursor = Ok p) ∨
  (∃ endpoint limit resume, keyset_pages endpoint limit resume = Ok p) ∨
  (∃ endpoint limit resume, numbered_pages endpoint limit resume = Ok p) ∨
  (∃ endpoint limit max_offset start_offset,
     0 ≤ limit ∧ is_u64 max_offset ∧ 0 ≤ start_offset ∧
     offset_pages endpoint limit max_offset start_offset = Ok p).

(** At most so many requests: 1000, or what fits below the offset's cap. *)
Definition page_bound p : nat :=
  match strategy_ p with
  | by_offset => S (Z.to_nat (max_offset_ p / limit_ p))
  | _ => 1000
  end.

Lemma made_ok p : made p → pages_ok p ∧ (pages_left p ≤ page_bound p)%nat ∧ requests p = [].
Proof.
  unfold made, cursor_pages, keyset_pages, numbered_pages, offset_pages, new_paginator.
  intros [(? & ? & ? & E)|[(? & ? & ? & E)|[(? & ? & resume & E)|(e & limit & max & start & Hl & Hm & Hs & E)]]];
    apply bind_Ok in E as (q & Hq & E); apply bind_Ok in Hq as ([] & Hr & Hq); injection Hq as <-;
    injection E as <-; cbn in Hr.
  - split; [by constructor|]. split; [|done]. unfold pages_left, page_bound, max_pages. cbn. lia.
  - split; [by constructor|]. split; [|done]. unfold pages_left, page_bound, max_pages. cbn.
    destruct (r_exhausted _); lia.
  - split; [by constructor|]. split; [|done]. unfold pages_left, page_bound, max_pages. cbn.
    destruct (r_exhausted resume); lia.
  - apply require_Ok in Hr. bools. unfold is_u64 in Hm. split; [|split; [|done]].
    + constructor; cbn; try done. intros _. split_and!; [lia|lia|lia|]. intros ?%Z.ltb_ge. lia.
    + unfold pages_left, page_bound. cbn. destruct (max <? start); [lia|].
      pose proof (Z.div_le_mono (max - start) max limit). lia.
Qed.

Lemma collect_returns p max_items :
  made p → ∃ p' r, ∀ fuel, (page_bound p < fuel)%nat → collect fuel max_items p = Some (p', r).
Proof.
  intros (Hok & Hle & _)%made_ok. destruct (collect_loop_returns [] max_items p Hok) as (p' & r & Hrun & _).
  exists p', r. intros fuel ?. apply Hrun. lia.
Qed.

(** Draining a paginator ends.  Whatever the server answers, [collect] on a
    paginator of any strategy returns, after at most 1000 requests, or for
    offsets one more than the pages that fit below the cap. *)
Lemma collect_terminates p max_items :
  made p → ∃ p' r,
    (∀ fuel, (page_bound p < fuel)%nat → collect fuel max_items p = Some (p', r)) ∧
    (length (requests p') ≤ page_bound p)%nat.
Proof.
  intros (Hok & Hle & Hr)%made_ok. destruct (collect_loop_returns [] max_items p Hok) as (p' & r & Hrun & Hsent).
  exists p', r. rewrite Hr in Hsent. split; [intros fuel ?; apply Hrun; lia|cbn in Hsent; lia].
Qed.
End Termination.

(** ** Cursors are requested once *)
Section Cursors.
Context {T : Type} `{Fetch T}.
Implicit Types p : Paginator T.

Definition next_pages (n : nat) p : Paginator T := Nat.iter n (λ p, (next_page p).1) p.

Definition by_cursors p : Prop := strategy_ p = by_cursor ∨ strategy_ p = by_keyset.

(** The cursors requested so far. *)
Definition sent_cursors p : list string := r_cursor <$> requests p.

Record cursors_ok (end_cursor : string) p : Prop := {
  cursors_strategy : by_cursors p;
  cursors_end : end_cursor_ (cursors_ p) = end_cursor;
  cursors_count : Z.of_nat (length (requests p)) = pages_started (cursors_ p);
  cursors_bound : pages_started (cursors_ p) ≤ max_pages;
  cursors_distinct : NoDup (sent_cursors p);
  cursors_seen i c : sent_cursors p !! i = Some c →
    (i = 0%nat ∧ c = "" ∧ strategy_ p = by_keyset) ∨ (c ≠ "" ∧ c ≠ end_cursor ∧ c ∈ seen_cursors_ (cursors_ p));
  cursors_first : first_page_without_cursor_ (cursors_ p) = true →
    requests p = [] ∧ cursor_ (cursors_ p) = "" ∧ strategy_ p = by_keyset }.

Definition page_begun (c : OpaqueCursorPagination) : OpaqueCursorPagination :=
  MkCursors (cursor_ c) (end_cursor_ c) false (pages_started c) (seen_cursors_ c).

(** The four ends of [begin_page]. *)
Lemma begin_page_cases c c' r :
  begin_page c = (c', r) →
  (r ≠ Ok true ∧ c' = page_begun c) ∨
  (r = Ok true ∧ pages_started c < max_pages ∧
   c' = MkCursors (cursor_ c) (end_cursor_ c) false (u64 (pages_started c + 1))
          (if first_page_without_cursor_ c then seen_cursors_ c else {[cursor_ c]} ∪ seen_cursors_ c) ∧
   (first_page_without_cursor_ c = false →
    cursor_ c ≠ "" ∧ cursor_ c ≠ end_cursor_ c ∧ cursor_ c ∉ seen_cursors_ c)).
Proof.
  intros E. change (begin_page c) with
    (if negb (first_page_without_cursor_ c) && at_end c then (page_begun c, Ok false)
     else if max_pages <=? pages_started c then
       (page_begun c, Throw (runtime_error "opaque cursor pagination exceeded 1000 pages"))
     else if negb (first_page_without_cursor_ c) && bool_decide (cursor_ c ∈ seen_cursors_ c) then
       (page_begun c, Throw (runtime_error "opaque cursor pagination cycle detected"))
     else (MkCursors (cursor_ c) (end_cursor_ c) false (u64 (pages_started c + 1))
       (if first_page_without_cursor_ c then seen_cursors_ c else {[cursor_ c]} ∪ seen_cursors_ c), Ok true)) in E.
  destruct (negb _ && at_end c) eqn:Eend; [injection E as <- <-; by left|].
  destruct (Z.leb_spec max_pages (pages_started c)); [injection E as <- <-; by left|].
  destruct (negb _ && bool_decide _) eqn:Ecyc; injection E as <- <-; [by left|right].
  split_and!; [done..|]. intros Hf. rewrite Hf in Eend, Ecyc. unfold at_end in Eend. cbn in *. by bools.
Qed.

Lemma begin_page_stops e p c r :
  cursors_ok e p → begin_page (cursors_ p) = (c, r) → r ≠ Ok true → cursors_ok e (set_cursors c p).
Proof.
  intros [Hs He Hn Hb Hd Hseen Hf] [[_ ->]|[? _]]%begin_page_cases Hr; [|done]. by constructor.
Qed.

(** The state after [begin_page] let a page begin, with the request it leads to. *)
Lemma begin_page_fresh e p c :
  cursors_ok e p → begin_page (cursors_ p) = (c, Ok true) →
  cursors_ok e (add_request (MkRequest (cursor_ c) 0 (limit_ p) 0 false) (set_cursors c p)).
Proof.
  intros [Hs He Hn Hb Hd Hseen Hf] [[? _]|(_ & Hlt & -> & Hnew)]%begin_page_cases; [done|].
  assert (Hu : u64 (pages_started (cursors_ p) + 1) = pages_started (cursors_ p) + 1).
  { apply u64_id. unfold is_u64, u64_max, max_pages in *. lia. }
  destruct (first_page_without_cursor_ (cursors_ p)) eqn:Eflag; cbn [negb andb] in *.
  - destruct (Hf eq_refl) as (Hreq & Hcur & Hkey).
    constructor; cbn; unfold sent_cursors; cbn; rewrite ?Hu, ?Hreq in *; cbn in *; try done; try lia.
    + apply NoDup_singleton.
    + intros [|i] c Hc; [injection Hc as <-; by left|done].
  - destruct (Hnew eq_refl) as (Hne & Hnend & Hnseen).
    assert (Hns : cursor_ (cursors_ p) ∉ sent_cursors p) 
      by (intros [i [(_ & ? & _)|(_ & _ & ?)]%Hseen]%list_elem_of_lookup; done).
    constructor; cbn; unfold sent_cursors; cbn; rewrite ?Hu, ?length_app, ?fmap_app; cbn; try done; try lia.
    + apply NoDup_app. split_and!; [done| |apply NoDup_singleton].
      intros x Hx ->%list_elem_of_singleton. done.
    + intros i x [Hx|[_ Hx]]%lookup_app_Some.
      * destruct (Hseen i x Hx) as [?|(? & ? & ?)]; [by left|right]. split_and!; [done..|set_solver].
      * apply list_elem_of_lookup_2, list_elem_of_singleton in Hx as ->.
        right. split_and!; [done|congruence|set_solver].
Qed.

Lemma advance_keeps e next p c c' :
  cursors_ok e (set_cursors c p) → first_page_without_cursor_ c = false → advance next c = Ok c' →
  cursors_ok e (set_cursors c' p).
Proof.
  intros [Hs He Hn Hb Hd Hseen Hf] Hfl Ha. unfold advance in Ha.
  destruct (_ || _); res_inv; constructor; cbn in *; try done; congruence.
Qed.

Lemma next_page_cursors e p : cursors_ok e p → cursors_ok e (next_page p).1.
Proof.
  intros Hok. unfold next_page. destruct (error_ p); [done|]. destruct (done_ p); [done|].
  assert (Hgoal : cursors_ok e (next_cursor_page p).1).
  { unfold next_cursor_page. destruct (begin_page (cursors_ p)) as [c r] eqn:Ebeg.
    destruct r as [[|]|ex].
    - pose proof (begin_page_fresh e p c Hok Ebeg) as Hf. cbn.
      assert (Hfl : first_page_without_cursor_ c = false).
      { by apply begin_page_cases in Ebeg as [[? _]|(_ & _ & -> & _)]. }
      destruct (fetch _ _) as [page|err]; [|by destruct Hf; constructor].
      destruct (advance _ c) as [c'|err] eqn:Ea; [|by destruct Hf; constructor].
      pose proof (advance_keeps e _ (add_request (MkRequest (cursor_ c) 0 (limit_ p) 0 false) (set_cursors c p))
        c c' ltac:(by destruct Hf; constructor) Hfl Ea) as [].
      by constructor.
    - pose proof (begin_page_stops e p c _ Hok Ebeg ltac:(done)) as []. by constructor.
    - pose proof (begin_page_stops e p c _ Hok Ebeg ltac:(done)) as []. by constructor. }
  by destruct (cursors_strategy _ _ Hok) as [-> | ->].
Qed.

(** No cursor is requested twice.  Whatever the server answers and however many
    pages are asked for, cursor and keyset pagination send at most 1000 requests,
    all with different cursors, and never the end cursor; only the first request
    of keyset pagination goes without a cursor. *)
Lemma cursors_requested_once n p e :
  (∃ endpoint initial_cursor, cursor_pages endpoint initial_cursor e = Ok p) ∨
  (∃ endpoint limit resume, keyset_pages endpoint limit resume = Ok p ∧ e = "") →
  let q := next_pages n p in
  NoDup (sent_cursors q) ∧ (length (requests q) ≤ 1000)%nat ∧
  ∀ i c, sent_cursors q !! i = Some c → c ≠ "" ∧ c ≠ e ∨ i = 0%nat ∧ c = "" ∧ strategy_ q = by_keyset.
Proof.
  intros Hp q.
  assert (Hok : cursors_ok e q).
  { unfold q, next_pages. induction n as [|n IH]; [|cbn; by apply next_page_cursors]. cbn.
    unfold cursor_pages, keyset_pages, new_paginator in Hp.
    destruct Hp as [(? & ? & Hp)|(? & ? & resume & Hp & ->)]; apply bind_Ok in Hp as (p0 & Hp0 & Hp);
      apply bind_Ok in Hp0 as (_ & _ & Hp0); injection Hp0 as <-; injection Hp as <-.
    - constructor; cbn; try done; [by left|apply NoDup_nil_2].
    - constructor; cbn; try done; [by right|apply NoDup_nil_2|].
      intros Hb%bool_decide_eq_true. done. }
  destruct Hok as [Hs He Hn Hb Hd Hseen Hf]. split; [done|]. split; [unfold max_pages in Hb; lia|].
  intros i c Hc. destruct (Hseen i c Hc) as [(? & ? & ?)|(? & ? & _)]; [by right|by left].
Qed.
End Cursors.

(** ** Offset pagination of a fixed list *)
Section Offsets.
Context {T : Type} (rows : list T).

(** A server that holds the rows and answers a request with those it asks for. *)
Definition row_server : Fetch T := λ _ r,
  success (MkPage (take (Z.to_nat (r_limit r)) (drop (Z.to_nat (r_offset r)) rows)) "" None false).

#[local] Existing Instance row_server.
Implicit Types p : Paginator T.

(** The rows the cap lets a paginator reach. *)
Definition reachable_rows (offset limit max_offset : Z) : nat :=
  Z.to_nat (limit * ((max_offset - offset) / limit + 1)).

Lemma offset_page p :
  strategy_ p = by_offset → error_ p = None → done_ p = false →
  0 < limit_ p → 0 ≤ offset_ p ≤ max_offset_ p → max_offset_ p ≤ u64_max →
  let page := take (Z.to_nat (limit_ p)) (drop (Z.to_nat (offset_ p)) rows) in
  let '(p', r) := next_page p in
  r = success (Some page) ∧ error_ p' = None ∧ strategy_ p' = by_offset ∧ limit_ p' = limit_ p ∧
  max_offset_ p' = max_offset_ p ∧
  (if bool_decide (Z.of_nat (length page) < limit_ p) then done_ p' = true ∧ truncated_ p' = truncated_ p
   else if bool_decide (max_offset_ p - offset_ p < limit_ p) then done_ p' = true ∧ truncated_ p' = true
   else done_ p' = false ∧ truncated_ p' = truncated_ p ∧ offset_ p' = offset_ p + limit_ p).
Proof.
  intros Hs He Hd Hl Ho Hm page. unfold next_page. rewrite He, Hd, Hs. unfold next_offset_page. cbn.
  fold page. assert (Hlen : Z.of_nat (length page) ≤ limit_ p).
  { unfold page. rewrite length_take. lia. }
  rewrite (proj2 (Z.ltb_ge _ _) Hlen), Z.ltb_irrefl. cbn [orb].
  rewrite u64_id by (unfold is_u64; lia).
  case_bool_decide as Hshort.
  - rewrite (proj2 (Z.ltb_lt _ _) Hshort). cbn. by split_and!.
  - rewrite (proj2 (Z.ltb_ge (Z.of_nat (length page)) (limit_ p))) by lia. cbn [negb andb].
    case_bool_decide as Hcap.
    + rewrite (proj2 (Z.ltb_lt _ _) Hcap). cbn. by split_and!.
    + rewrite (proj2 (Z.ltb_ge (max_offset_ p - offset_ p) (limit_ p))) by lia. cbn.
      rewrite (proj2 (Z.ltb_ge (u64_max - offset_ p) (Z.of_nat (length page)))) by lia.
      split_and!; try done. lia.
Qed.

Lemma collect_offset fuel items max_items p :
  strategy_ p = by_offset → error_ p = None → done_ p = false → truncated_ p = false →
  0 < limit_ p → 0 ≤ offset_ p ≤ max_offset_ p → max_offset_ p ≤ u64_max →
  Z.of_nat (length items + length (drop (Z.to_nat (offset_ p)) rows)) < max_items →
  (Z.to_nat ((max_offset_ p - offset_ p) / limit_ p) + 1 < fuel)%nat →
  let n := reachable_rows (offset_ p) (limit_ p) (max_offset_ p) in
  ∃ p', collect_loop fuel items max_items p =
          Some (p', success (items ++ take n (drop (Z.to_nat (offset_ p)) rows))) ∧
        done_ p' = true ∧ truncated_ p' = bool_decide (n ≤ length (drop (Z.to_nat (offset_ p)) rows))%nat.
Proof.
  remember (Z.to_nat ((max_offset_ p - offset_ p) / limit_ p)) as k eqn:Ek. revert fuel items p Ek.
  induction k as [k IH] using lt_wf_ind. intros fuel items p Ek Hs He Hd Ht Hl Ho Hm Hmax Hfuel n.
  destruct fuel as [|fuel]; [lia|]. cbn [collect_loop].
  rewrite (proj2 (Z.ltb_lt (Z.of_nat (length items)) max_items)) by lia.
  pose proof (offset_page p Hs He Hd Hl Ho Hm) as Hpage.
  set (left := drop (Z.to_nat (offset_ p)) rows) in *.
  pose proof (Z.div_pos (max_offset_ p - offset_ p) (limit_ p)) as Hdiv.
  assert (Hn : (Z.to_nat (limit_ p) ≤ n)%nat) by (unfold n, reachable_rows; nia).
  destruct (next_page p) as [p1 r]. destruct Hpage as (-> & He1 & Hs1 & Hl1 & Hm1 & Hcase).
  set (page := take (Z.to_nat (limit_ p)) left) in *.
  assert (Hplen : length page = Nat.min (Z.to_nat (limit_ p)) (length left)) by apply length_take.
  rewrite Z.min_l by lia. rewrite Nat2Z.id, (take_ge page) by lia.
  assert (Hstop : done_ p1 = true → ∀ out, collect_loop fuel out max_items p1 = Some (p1, success out)).
  { intros Hd1 out. destruct fuel as [|fuel]; [lia|]. cbn. destruct (_ <? _); [|done].
    unfold next_page. by rewrite He1, Hd1. }
  case_bool_decide as Hshort.
  - destruct Hcase as [Hd1 Ht1]. exists p1. rewrite Hstop by done. split_and!; [|done|].
    + do 3 f_equal. unfold page. rewrite !take_ge by lia. done.
    + rewrite Ht1, Ht. symmetry. apply bool_decide_eq_false. lia.
  - case_bool_decide as Hcap.
    + destruct Hcase as [Hd1 Ht1]. exists p1. rewrite Hstop by done.
      assert (n = Z.to_nat (limit_ p)) as ->.
      { unfold n, reachable_rows. rewrite Z.div_small by lia. f_equal. lia. }
      split_and!; [done..|]. rewrite Ht1. symmetry. apply bool_decide_eq_true. lia.
    + destruct Hcase as (Hd1 & Ht1 & Ho1).
      assert (Hk : (max_offset_ p - offset_ p) / limit_ p =
                   (max_offset_ p1 - offset_ p1) / limit_ p1 + 1).
      { rewrite Hm1, Hl1, Ho1, <- Z.div_add by lia. f_equal. lia. }
      assert (Hdrop : drop (Z.to_nat (offset_ p1)) rows = drop (Z.to_nat (limit_ p)) left).
      { unfold left. rewrite drop_drop, Ho1. f_equal. lia. }
      pose proof (Z.div_pos (max_offset_ p1 - offset_ p1) (limit_ p1) ltac:(lia) ltac:(lia)) as Hdiv1.
      edestruct (IH (Z.to_nat ((max_offset_ p1 - offset_ p1) / limit_ p1)) ltac:(lia) fuel (items ++ page) p1 eq_refl)
        as (p' & Hrun & Hd' & Ht'); try done; try lia; try congruence.
      { rewrite Hdrop, length_app, length_drop. rewrite Hplen. lia. }
      assert (Hsplit : n = (Z.to_nat (limit_ p) +
        reachable_rows (offset_ p1) (limit_ p1) (max_offset_ p1))%nat).
      { unfold n, reachable_rows. rewrite Hk. revert Hdiv1.
        generalize ((max_offset_ p1 - offset_ p1) / limit_ p1) as d. intros d Hd0. rewrite Hl1.
        rewrite <- Z2Nat.inj_add by nia. f_equal. nia. }
      exists p'. rewrite Hrun, <- app_assoc, Hdrop. split_and!; [|done|].
      * do 4 f_equal. rewrite Hsplit. unfold page. by rewrite <- take_take_drop.
      * rewrite Ht', Hdrop, length_drop. apply bool_decide_ext. lia.
Qed.

(** Offset pagination returns each row once, in order.  Against a server whose
    rows do not change, [collect] returns the rows from the start offset on, as
    far as the pages that start at or below the cap reach, and reports the rest
    as truncated. *)
Lemma offset_collects_rows endpoint limit max_offset start p :
  offset_pages endpoint limit max_offset start = Ok p →
  0 < limit → is_u64 max_offset → 0 ≤ start ≤ max_offset → Z.of_nat (length rows) < u64_max →
  let n := reachable_rows start limit max_offset in
  let rest := drop (Z.to_nat start) rows in
  ∃ p', (∀ fuel, (page_bound p + 1 < fuel)%nat → collect fuel u64_max p = Some (p', success (take n rest))) ∧
    truncated_ p' = bool_decide (n ≤ length rest)%nat.
Proof.
  intros Hp Hl [Hm0 Hm] Hs Hlen n rest. unfold offset_pages, new_paginator in Hp.
  apply bind_Ok in Hp as (p0 & Hp0 & Hp). apply bind_Ok in Hp0 as ([] & _ & Hp0).
  injection Hp0 as <-. rewrite (proj2 (Z.ltb_ge max_offset start)) in Hp by lia. injection Hp as <-.
  set (p := with_state _ _ _ _ _ _ _).
  pose proof (Z.div_le_mono (max_offset - start) max_offset limit ltac:(lia) ltac:(lia)) as Hmono.
  pose proof (Z.div_pos (max_offset - start) limit ltac:(lia) ltac:(lia)) as Hdiv.
  assert (Hb : page_bound p = S (Z.to_nat (max_offset / limit))) by done.
  assert (Hrun : ∀ fuel, (page_bound p + 1 < fuel)%nat → ∃ p', collect fuel u64_max p =
    Some (p', success (take n rest)) ∧ done_ p' = true ∧ truncated_ p' = bool_decide (n ≤ length rest)%nat).
  { intros fuel Hfuel. apply collect_offset; cbn; try done; try lia. rewrite length_drop. lia. }
  assert (Hmade : made p).
  { right. right. right. exists endpoint, limit, max_offset, start.
    split; [lia|]. split; [split; lia|]. split; [lia|]. unfold offset_pages, new_paginator.
    assert ((limit =? 0) = false) as -> by lia. cbn.
    by rewrite (proj2 (Z.ltb_ge max_offset start)) by lia. }
  destruct (made_ok p Hmade) as (Hok & Hle & _).
  destruct (collect_loop_returns [] u64_max p Hok) as (p' & r & Hret & _).
  destruct (Hrun (page_bound p + 2)%nat ltac:(lia)) as (p2 & E & _ & Ht).
  unfold collect in E. rewrite Hret in E by lia. injection E as -> ->.
  exists p2. split; [|done]. intros fuel Hfuel. unfold collect. apply Hret. lia.
Qed.
End Offsets.

(** ** Witnesses *)

(** A server that always has another page, with a fresh cursor and no items. *)
Definition endless : Fetch nat := λ sent _,
  success (MkPage [] ("c" +:+ to_string (Z.of_nat (length sent))) None true).

Definition sample_cursor_pages : Paginator nat :=
  match cursor_pages "/e" "c" "LTE=" with Ok p => p | Throw _ =>
    MkPaginator "" by_cursor (new_cursors "" "" false) 0 0 0 0 0 true false None [] 0 [] end.
Definition sample_offset_pages : Paginator nat :=
  match offset_pages "/e" 3 7 1 with Ok p => p | Throw _ => sample_cursor_pages end.

Definition result_error {A} (run : option (Paginator nat * Result A)) : option string :=
  match run with Some (_, failure e) => Some (message e) | _ => None end.
Definition endless_run (fuel : nat) := @collect nat endless fuel u64_max sample_cursor_pages.

Lemma collect_terminates_witness :
  (∃ p' r,
    (∀ fuel, (page_bound sample_cursor_pages < fuel)%nat →
       @collect nat endless fuel u64_max sample_cursor_pages = Some (p', r)) ∧
    (length (requests p') ≤ page_bound sample_cursor_pages)%nat) ∧
  result_error (endless_run (S (page_bound sample_cursor_pages))) =
    Some "opaque cursor pagination exceeded 1000 pages".
Proof.
  split; [|by vm_compute].
  apply (@collect_terminates nat endless sample_cursor_pages u64_max). left. by exists "/e", "c", "LTE=".
Defined.

(** A server that answers with a cursor it has already handed out. *)
Definition cycling : Fetch nat := λ sent _,
  success (MkPage [7%nat] (if decide (length sent < 2)%nat then to_string (Z.of_nat (length sent)) else "0") None true).

Lemma cursors_requested_once_witness :
  let q := @next_pages nat cycling 9 sample_cursor_pages in
  sent_cursors q = ["c"; "0"; "1"] ∧ NoDup (sent_cursors q).
Proof.
  intros q. split; [by vm_compute|].
  refine (proj1 (@cursors_requested_once nat cycling 9 sample_cursor_pages "LTE=" _)).
  left. by exists "/e", "c".
Defined.

Lemma offset_collects_rows_witness :
  let rows := seq 0 20 in
  ∃ p', (∀ fuel, (page_bound sample_offset_pages + 1 < fuel)%nat →
      @collect nat (row_server rows) fuel u64_max sample_offset_pages =
        Some (p', success [1; 2; 3; 4; 5; 6; 7; 8; 9]%nat)) ∧
    truncated_ p' = true.
Proof.
  intros rows.
  refine (@offset_collects_rows nat rows "/e" 3 7 1 sample_offset_pages _ _ _ _ _); by vm_compute.
Defined.
