(* ===== verification/MarketTime.v ===== *)
(** * Market times
    (src/market_time.cpp, market_time.hpp)

    Timestamps of the form 2024-01-31T23:59:59.123Z, the hours of New York by
    which hourly markets are named, and the aligned starts of interval markets.
    [gmtime_r] is the library function, for times whose year is an [int];
    arithmetic on [unsigned] wraps, that on [int] is exact for the years a
    timestamp of four digits or a clock can have. *)
From Stdlib Require Import Ascii String.
From S2P Require Import Prelude Text.

#[local] Open Scope Z_scope.

(** ** The calendar *)

Definition u32 (z : Z) : Z := z mod 2 ^ 32.

Definition days_from_civil (year month day : Z) : Z :=
  let year := if month <=? 2 then year - 1 else year in
  let era := Z.quot (if 0 <=? year then year else year - 399) 400 in
  let year_of_era := u32 (year - era * 400) in
  let day_of_year :=
    u32 (u32 (153 * u32 (month + (if 2 <? month then -3 else 9)) + 2) / 5 + day - 1) in
  let day_of_era := u32 (year_of_era * 365 + year_of_era / 4 - year_of_era / 100 + day_of_year) in
  era * 146097 + day_of_era - 719468.

Definition civil_epoch (year month day hour minute second : Z) : Z :=
  days_from_civil year month day * 86400 + u32 (hour * 3600) + u32 (minute * 60) + second.

Definition leap_year (year : Z) : bool :=
  (Z.rem year 4 =? 0) && (negb (Z.rem year 100 =? 0) || (Z.rem year 400 =? 0)).

Definition month_days : list Z := [0; 31; 28; 31; 30; 31; 30; 31; 31; 30; 31; 30; 31].
Definition days_in_month (year month : Z) : Z :=
  if (month =? 2) && leap_year year then 29 else nth (Z.to_nat month) month_days 0.

Definition weekday (year month day : Z) : Z :=
  let value := Z.rem (days_from_civil year month day + 4) 7 in
  if value <? 0 then value + 7 else value.

(** [gmtime_r] of the standard library: the civil date and hour of a number of
    seconds. *)
Record tm := MkTm { tm_year : Z; tm_mon : Z; tm_mday : Z; tm_hour : Z }.

Definition civil_from_days (days : Z) : Z * Z * Z :=
  let z := days + 719468 in
  let era := z / 146097 in
  let day_of_era := z mod 146097 in
  let year_of_era := (day_of_era - day_of_era / 1460 + day_of_era / 36524 - day_of_era / 146096) / 365 in
  let day_of_year := day_of_era - (365 * year_of_era + year_of_era / 4 - year_of_era / 100) in
  let mp := (5 * day_of_year + 2) / 153 in
  let month := if mp <? 10 then mp + 3 else mp - 9 in
  (year_of_era + era * 400 + (if month <=? 2 then 1 else 0), month, day_of_year - (153 * mp + 2) / 5 + 1).

Definition gmtime_r (seconds : Z) : tm :=
  let '(year, month, day) := civil_from_days (seconds / 86400) in
  MkTm (year - 1900) (month - 1) day (seconds mod 86400 / 3600).

(** [static_cast<int64_t>] *)
Definition i64 (z : Z) : Z := (z + 2 ^ 63) mod 2 ^ 64 - 2 ^ 63.

Definition new_york_utc_offset (unix_seconds : Z) : Z :=
  let year := tm_year (gmtime_r (i64 unix_seconds)) + 1900 in
  let second_sunday := 1 + Z.rem (7 - weekday year 3 1) 7 + 7 in
  let first_sunday := 1 + Z.rem (7 - weekday year 11 1) 7 in
  let dst_start := civil_epoch year 3 second_sunday 7 0 0 in
  let dst_end := civil_epoch year 11 first_sunday 6 0 0 in
  if (u64 dst_start <=? unix_seconds) && (unix_seconds <? u64 dst_end) then -4 * 3600 else -5 * 3600.

(** ** Timestamps *)

Fixpoint read_digits (cs : list ascii) (result : Z) : option Z :=
  match cs with
  | [] => Some result
  | c :: cs => if is_decimal c then read_digits cs (u32 (result * 10 + decimal_digit c)) else None
  end.

Definition parse_digits (value : list ascii) (offset count : nat) : option Z :=
  if bool_decide (length value < offset + count)%nat then None
  else read_digits (take count (drop offset value)) 0.

Definition char_is (value : list ascii) (i : nat) (c : ascii) : bool := bool_decide (value !! i = Some c).

Definition well_punctuated (value : list ascii) : bool :=
  negb (bool_decide (length value < 20)%nat) && char_is value 4 "-" && char_is value 7 "-" &&
  char_is value 10 "T" && char_is value 13 ":" && char_is value 16 ":" &&
  bool_decide (last value = Some "Z"%char).

(** The fraction of a second; [None] is the code's [return 0]. *)
Definition parse_fraction (value : list ascii) : option Z :=
  if char_is value 19 "." then
    let fraction_size := (length value - 21)%nat in
    if bool_decide (fraction_size = O) then None
    else if negb (forallb is_decimal (take fraction_size (drop 20 value))) then None
    else
      let parsed_digits := Nat.min 3 fraction_size in
      milliseconds ← parse_digits value 20 parsed_digits;
      Some (if bool_decide (parsed_digits = 1%nat) then milliseconds * 100
            else if bool_decide (parsed_digits = 2%nat) then milliseconds * 10 else milliseconds)
  else if negb (char_is value 19 "Z") || negb (bool_decide (length value = 20%nat)) then None
  else Some 0.

Definition parse_iso8601 (value : list ascii) : option Z :=
  if negb (well_punctuated value) then None else
  year ← parse_digits value 0 4;
  month ← parse_digits value 5 2;
  day ← parse_digits value 8 2;
  hour ← parse_digits value 11 2;
  minute ← parse_digits value 14 2;
  second ← parse_digits value 17 2;
  if (year <? 1970) || (month <? 1) || (12 <? month) || (day <? 1) ||
     (days_in_month year month <? day) || (23 <? hour) || (59 <? minute) || (59 <? second)
  then None else
  milliseconds ← parse_fraction value;
  let epoch := civil_epoch year month day hour minute second in
  if (epoch <? 0) || ((u64_max - milliseconds) / 1000 <? epoch) then None
  else Some (u64 (epoch * 1000 + milliseconds)).

Definition parse_iso8601_ms (value : string) : Z := default 0 (parse_iso8601 (chars value)).

(** ** Names and starts of markets *)

Definition months : list string :=
  ["january"; "february"; "march"; "april"; "may"; "june"; "july"; "august"; "september"; "october";
   "november"; "december"].

Definition format_new_york_hour_slug (asset_name : string) (unix_seconds : Z) : string :=
  let local := gmtime_r (i64 unix_seconds + new_york_utc_offset unix_seconds) in
  let hour := tm_hour local in
  let clock :=
    if hour =? 0 then "12am" else if hour =? 12 then "12pm"
    else if hour <? 12 then to_string hour +:+ "am" else to_string (hour - 12) +:+ "pm" in
  asset_name +:+ "-up-or-down-" +:+ nth (Z.to_nat (tm_mon local)) months "" +:+ "-" +:+
  to_string (tm_mday local) +:+ "-" +:+ clock +:+ "-et".

(** The loop over [offset]; [None] when the fuel runs out. *)
Fixpoint slug_loop (fuel : nat) (asset_name : string) (now : Z) (count : nat) (offset : Z)
    (slugs : list string) : option (list string) :=
  match fuel with
  | O => None
  | S fuel =>
      if bool_decide (length slugs < count)%nat then
        let timestamp := i64 now + offset * 3600 in
        if timestamp <? 0 then slug_loop fuel asset_name now count (offset + 1) slugs
        else
          let slug := format_new_york_hour_slug asset_name timestamp in
          slug_loop fuel asset_name now count (offset + 1)
            (if bool_decide (slug ∈ slugs) then slugs else slugs ++ [slug])
      else Some slugs
  end.

Definition generate_new_york_hour_slugs (fuel : nat) (asset_name : string) (now count : Z) : option (list string) :=
  if count <=? 0 then Some [] else slug_loop fuel asset_name now (Z.to_nat count) (-1) [].

Definition slug_names : list (string * string) :=
  [("bitcoin-", "btc"); ("ethereum-", "eth"); ("xrp-", "xrp"); ("solana-", "sol")].

Fixpoint first_name (names : list (string * string)) (slug : string) : string :=
  match names with
  | [] => ""
  | (prefix, ticker) :: names => if String.prefix prefix slug then ticker else first_name names slug
  end.

Definition ticker_from_hour_slug (slug : string) : string := first_name slug_names slug.

Definition aligned_market_timestamps (now interval count : Z) : list Z :=
  if (interval =? 0) || (count <=? 0) then []
  else
    let current := now / interval * interval in
    map (λ index, u64 (current + u64 (interval * Z.of_nat index))) (seq 0 (Z.to_nat count)).

(** ** The Gregorian calendar by counting *)

(** Days from 1970 to the start of a year, and of a month within a year. *)
Fixpoint days_of_years (years : nat) : Z :=
  match years with
  | O => 0
  | S years => days_of_years years + (if leap_year (1970 + Z.of_nat years) then 366 else 365)
  end.
Fixpoint days_of_months (year : Z) (months : nat) : Z :=
  match months with
  | O => 0
  | S months => days_of_months year months + days_in_month year (Z.of_nat (S months))
  end.
Definition calendar_day (year month day : Z) : Z :=
  days_of_years (Z.to_nat (year - 1970)) + days_of_months year (Z.to_nat (month - 1)) + (day - 1).

Definition valid_date (year month day : Z) : Prop :=
  1970 ≤ year ∧ 1 ≤ month ≤ 12 ∧ 1 ≤ day ≤ days_in_month year month.

Lemma u32_id z : 0 ≤ z < 2 ^ 32 → u32 z = z.
Proof. apply Z.mod_small. Qed.

(** Leap days up to a year that starts in March. *)
Definition march_days (y : Z) : Z := 365 * y + y / 4 - y / 100 + y / 400.
Definition march_month (month : Z) : Z := if 2 <? month then month - 3 else month + 9.

Lemma days_closed year month day :
  1 ≤ year → 1 ≤ month ≤ 12 → 1 ≤ day ≤ 31 →
  days_from_civil year month day =
    march_days (if month <=? 2 then year - 1 else year) + (153 * march_month month + 2) / 5 + day - 719469.
Proof.
  intros Hy Hm Hd. unfold days_from_civil, march_days, march_month.
  set (y := if month <=? 2 then year - 1 else year).
  assert (0 ≤ y) as H0 by (unfold y; destruct (Z.leb_spec month 2); lia).
  rewrite (proj2 (Z.leb_le 0 y)), Z.quot_div_nonneg by lia. cbv zeta.
  rewrite (u32_id (y - y / 400 * 400)) by (Z.to_euclidean_division_equations; lia).
  replace (month + (if 2 <? month then -3 else 9)) with (if 2 <? month then month - 3 else month + 9)
    by (destruct (2 <? month); lia).
  set (mp := if 2 <? month then month - 3 else month + 9).
  assert (0 ≤ mp ≤ 11) as Hmp by (unfold mp; destruct (Z.ltb_spec 2 month); lia).
  rewrite (u32_id mp) by lia. rewrite (u32_id (153 * mp + 2)) by lia.
  rewrite (u32_id ((153 * mp + 2) / 5 + day - 1)) by (Z.to_euclidean_division_equations; lia).
  rewrite u32_id by (Z.to_euclidean_division_equations; lia).
  Z.to_euclidean_division_equations; lia.
Qed.

Lemma leap_days y :
  1 ≤ y → march_days y - march_days (y - 1) = 365 + (if leap_year y then 1 else 0).
Proof.
  intros Hy. unfold march_days, leap_year. rewrite !Z.rem_mod_nonneg by lia.
  destruct (Z.eqb_spec (y mod 4) 0), (Z.eqb_spec (y mod 100) 0), (Z.eqb_spec (y mod 400) 0); cbn [negb andb orb];
    Z.to_euclidean_division_equations; lia.
Qed.

Lemma days_of_years_closed years :
  days_of_years years = march_days (1970 + Z.of_nat years - 1) - march_days 1969.
Proof.
  induction years as [|years IH]; [done|]. cbn [days_of_years]. rewrite IH.
  pose proof (leap_days (1970 + Z.of_nat years) ltac:(lia)) as H.
  replace (1970 + Z.of_nat (S years) - 1) with (1970 + Z.of_nat years) by lia.
  destruct (leap_year _); lia.
Qed.

Lemma days_of_months_closed year month :
  1 ≤ year → 1 ≤ month ≤ 12 →
  days_of_months year (Z.to_nat (month - 1)) =
    march_days (if month <=? 2 then year - 1 else year) - march_days (year - 1) +
    (153 * march_month month + 2) / 5 - (153 * march_month 1 + 2) / 5.
Proof.
  intros Hy Hm. pose proof (leap_days year Hy) as Hleap.
  assert (month = 1 ∨ month = 2 ∨ month = 3 ∨ month = 4 ∨ month = 5 ∨ month = 6 ∨ month = 7 ∨ month = 8 ∨
          month = 9 ∨ month = 10 ∨ month = 11 ∨ month = 12) as Hcases by lia.
  repeat destruct Hcases as [->|Hcases]; [..|subst month].
  all: unfold march_month; cbn [Z.leb Z.ltb Z.compare Pos.compare Pos.compare_cont].
  all: match goal with |- context [Z.to_nat ?n] => let v := eval vm_compute in (Z.to_nat n) in change (Z.to_nat n) with v end.
  all: cbn [days_of_months]; unfold days_in_month.
  all: repeat match goal with |- context [Z.of_nat ?n] => let v := eval vm_compute in (Z.of_nat n) in change (Z.of_nat n) with v end.
  all: cbn [Z.eqb Pos.eqb andb].
  all: repeat match goal with |- context [nth ?n month_days 0] => let v := eval vm_compute in (nth n month_days 0) in change (nth n month_days 0) with v end.
  all: repeat match goal with |- context [(153 * ?m + 2) / 5] => let v := eval vm_compute in ((153 * m + 2) / 5) in change ((153 * m + 2) / 5) with v end.
  all: destruct (leap_year year); lia.
Qed.

Lemma days_in_month_bound year month : 1 ≤ month ≤ 12 → 28 ≤ days_in_month year month ≤ 31.
Proof.
  intros Hm. unfold days_in_month. case_if; [lia|].
  assert (month = 1 ∨ month = 2 ∨ month = 3 ∨ month = 4 ∨ month = 5 ∨ month = 6 ∨ month = 7 ∨ month = 8 ∨
          month = 9 ∨ month = 10 ∨ month = 11 ∨ month = 12) as Hcases by lia.
  repeat destruct Hcases as [->|Hcases]; [..|subst month]; vm_compute; split; discriminate.
Qed.

(** The closed form of the code counts the days of the Gregorian calendar. *)
Lemma days_from_civil_calendar year month day :
  valid_date year month day → days_from_civil year month day = calendar_day year month day.
Proof.
  intros (Hy & Hm & Hd). pose proof (days_in_month_bound year month Hm).
  rewrite days_closed by lia. unfold calendar_day.
  rewrite days_of_years_closed, days_of_months_closed by lia.
  replace (1970 + Z.of_nat (Z.to_nat (year - 1970)) - 1) with (year - 1) by lia.
  change (march_month 1) with 10. change ((153 * 10 + 2) / 5) with 306.
  change (march_days 1969) with 719162. lia.
Qed.

(** ** Timestamps by their fields *)

Record timestamp := MkTimestamp {
  ts_year : Z; ts_month : Z; ts_day : Z; ts_hour : Z; ts_minute : Z; ts_second : Z;
  ts_fraction : option (list ascii) (** the digits after the point *) }.

Definition valid_timestamp (t : timestamp) : Prop :=
  valid_date (ts_year t) (ts_month t) (ts_day t) ∧ ts_year t ≤ 9999 ∧ 0 ≤ ts_hour t ≤ 23 ∧
  0 ≤ ts_minute t ≤ 59 ∧ 0 ≤ ts_second t ≤ 59 ∧
  match ts_fraction t with Some cs => cs ≠ [] ∧ all_decimal cs = true | None => True end.

Definition pad (n : nat) (z : Z) : list ascii := map digit_char (be 10 n z).

Definition fraction_text (fraction : option (list ascii)) : list ascii :=
  match fraction with Some cs => "."%char :: cs | None => [] end ++ ["Z"%char].

Definition render (t : timestamp) : list ascii :=
  pad 4 (ts_year t) ++ "-"%char :: pad 2 (ts_month t) ++ "-"%char :: pad 2 (ts_day t) ++
  "T"%char :: pad 2 (ts_hour t) ++ ":"%char :: pad 2 (ts_minute t) ++ ":"%char :: pad 2 (ts_second t) ++
  fraction_text (ts_fraction t).

(** The first three digits, as if zeros followed. *)
Definition fraction_ms (fraction : option (list ascii)) : Z :=
  match fraction with
  | Some cs => decimal_val (take 3 (cs ++ ["0"; "0"]%char))
  | None => 0
  end.

(** Milliseconds from the start of 1970, by the calendar. *)
Definition instant (t : timestamp) : Z :=
  (((calendar_day (ts_year t) (ts_month t) (ts_day t) * 24 + ts_hour t) * 60 + ts_minute t) * 60 +
   ts_second t) * 1000 + fraction_ms (ts_fraction t).

Lemma decimal_val_bounds cs : all_decimal cs = true → 0 ≤ decimal_val cs < 10 ^ Z.of_nat (length cs).
Proof.
  intros H%all_decimal_digits. unfold decimal_val. pose proof (val_bounds 10 ltac:(lia) _ H) as B.
  by rewrite length_map in B.
Qed.

Lemma digits_val_cons c cs :
  decimal_val (c :: cs) = decimal_digit c * 10 ^ Z.of_nat (length cs) + decimal_val cs.
Proof. unfold decimal_val. cbn [map]. by rewrite val_cons, length_map by lia. Qed.

Lemma read_digits_acc cs acc :
  0 ≤ acc → acc * 10 ^ Z.of_nat (length cs) + 10 ^ Z.of_nat (length cs) ≤ 2 ^ 32 →
  read_digits cs acc =
    if all_decimal cs then Some (acc * 10 ^ Z.of_nat (length cs) + decimal_val cs) else None.
Proof.
  revert acc. induction cs as [|c cs IH]; intros acc Ha Hb; cbn [read_digits].
  { cbn. f_equal. change (decimal_val []) with 0. lia. }
  unfold all_decimal. cbn [forallb]. destruct (is_decimal c) eqn:Ec; [|done]. cbn [andb].
  apply decimal_digit_range in Ec. cbn [length] in Hb. rewrite Nat2Z.inj_succ, Z.pow_succ_r in Hb by lia.
  assert (0 < 10 ^ Z.of_nat (length cs)) by (apply Z.pow_pos_nonneg; lia).
  rewrite u32_id by nia. rewrite IH by nia. fold (all_decimal cs). destruct (all_decimal cs); [|done].
  f_equal. rewrite digits_val_cons. cbn [length]. rewrite Nat2Z.inj_succ, Z.pow_succ_r by lia. lia.
Qed.

Lemma read_digits_val cs :
  (length cs ≤ 9)%nat → read_digits cs 0 = if all_decimal cs then Some (decimal_val cs) else None.
Proof.
  intros Hl. rewrite read_digits_acc; [by rewrite Z.mul_0_l|lia|].
  assert (10 ^ Z.of_nat (length cs) ≤ 10 ^ 9) by (apply Z.pow_le_mono_r; lia). lia.
Qed.

Lemma pad_decimal n z : all_decimal (pad n z) = true.
Proof.
  unfold all_decimal, pad. apply forallb_forall. intros c (d & <- & Hd)%in_map_iff.
  pose proof (be_digits 10 ltac:(lia) n z) as Hf. rewrite Forall_forall in Hf.
  apply list_elem_of_In in Hd. by destruct (digit_char_decimal d (Hf d Hd)).
Qed.

Lemma pad_length n z : length (pad n z) = n.
Proof. unfold pad. by rewrite length_map, be_length. Qed.

Lemma pad_value n z : 0 ≤ z < 10 ^ Z.of_nat n → decimal_val (pad n z) = z.
Proof.
  intros Hz. unfold decimal_val, pad. rewrite map_map.
  transitivity (val 10 (be 10 n z)); [|by apply val_be_small].
  f_equal. pose proof (be_digits 10 ltac:(lia) n z) as Hf. induction Hf as [|d ds Hd _ IH]; [done|].
  cbn. rewrite IH. by destruct (digit_char_decimal d Hd) as [_ ->].
Qed.

Lemma value_pad cs : all_decimal cs = true → pad (length cs) (decimal_val cs) = cs.
Proof.
  intros H. pose proof (all_decimal_digits cs H) as Hf. unfold pad, decimal_val.
  rewrite <- (length_map decimal_digit cs), be_val by (done || lia). rewrite map_map. clear Hf.
  induction cs as [|c cs IH]; [done|]. cbn in H |- *. apply andb_true_iff in H as [Hc H].
  by rewrite digit_char_of_decimal, IH.
Qed.

(** A field of a timestamp is its padded numeral. *)
Lemma read_field cs v :
  (length cs ≤ 9)%nat →
  read_digits cs 0 = Some v ↔ cs = pad (length cs) v ∧ 0 ≤ v < 10 ^ Z.of_nat (length cs).
Proof.
  intros Hl. rewrite read_digits_val by done. split.
  - destruct (all_decimal cs) eqn:E; [|done]. intros [= <-].
    split; [by rewrite value_pad|by apply decimal_val_bounds].
  - intros [-> Hv]. rewrite pad_length in *. by rewrite pad_decimal, pad_value.
Qed.

Lemma parse_digits_at pre cs rest n :
  length cs = n → parse_digits (pre ++ cs ++ rest) (length pre) n = read_digits cs 0.
Proof.
  intros <-. unfold parse_digits. rewrite bool_decide_false by (rewrite !length_app; lia).
  by rewrite drop_app_length, take_app_length.
Qed.

Lemma char_is_at n pre c rest d : length pre = n → char_is (pre ++ c :: rest) n d = bool_decide (c = d).
Proof.
  intros <-. unfold char_is. rewrite lookup_app_r, Nat.sub_diag by lia. cbn. apply bool_decide_ext. naive_solver.
Qed.

(** What the code accepts after the seconds. *)
Lemma parse_fraction_spec pre tail ms :
  length pre = 19%nat → last tail = Some "Z"%char →
  parse_fraction (pre ++ tail) = Some ms ↔
    ∃ fraction, tail = fraction_text fraction ∧ ms = fraction_ms fraction ∧
      match fraction with Some cs => cs ≠ [] ∧ all_decimal cs = true | None => True end.
Proof.
  intros Hpre Hlast. destruct tail as [|c rest]; [done|]. unfold parse_fraction.
  rewrite !char_is_at by done. case_bool_decide as Hc.
  - subst c. destruct rest as [|z cs _] using rev_ind; [done|].
    change ("."%char :: cs ++ [z]) with (("."%char :: cs) ++ [z]) in Hlast. rewrite last_snoc in Hlast.
    injection Hlast as ->.
    assert (length (pre ++ "."%char :: cs ++ ["Z"%char]) - 21 = length cs)%nat as ->.
    { rewrite length_app, Hpre. cbn [length]. rewrite length_app. cbn [length]. lia. }
    assert (drop 20 (pre ++ "."%char :: cs ++ ["Z"%char]) = cs ++ ["Z"%char]) as Hdrop.
    { change ("."%char :: cs ++ ["Z"%char]) with (["."%char] ++ (cs ++ ["Z"%char])). rewrite app_assoc.
      apply drop_app_length'. rewrite length_app, Hpre. done. }
    rewrite Hdrop, take_app_length. fold (all_decimal cs).
    assert (parse_digits (pre ++ "."%char :: cs ++ ["Z"%char]) 20 (Nat.min 3 (length cs)) =
            read_digits (take 3 cs) 0) as ->.
    { unfold parse_digits. rewrite Hdrop, bool_decide_false.
      - f_equal. rewrite take_app_le by lia. destruct (Nat.le_gt_cases 3 (length cs)).
        + by rewrite Nat.min_l.
        + by rewrite Nat.min_r, !take_ge by lia.
      - rewrite length_app, Hpre. cbn [length]. rewrite length_app. cbn [length]. lia. }
    rewrite read_digits_val by (rewrite length_take; lia).
    assert (∀ fraction, "."%char :: cs ++ ["Z"%char] = fraction_text fraction ↔ fraction = Some cs) as Htext.
    { intros [cs'|]; unfold fraction_text; cbn; [|naive_solver]. split; [|by intros [= ->]].
      intros [= E]. by apply app_inj_tail in E as [-> _]. }
    setoid_rewrite Htext.
    assert ((∃ fraction, fraction = Some cs ∧ ms = fraction_ms fraction ∧
      match fraction with Some cs => cs ≠ [] ∧ all_decimal cs = true | None => True end) ↔
      ms = fraction_ms (Some cs) ∧ cs ≠ [] ∧ all_decimal cs = true) as -> by naive_solver.
    destruct cs as [|c1 cs]; [cbn; naive_solver|]. cbn [length]. rewrite bool_decide_false by done.
    destruct (all_decimal (c1 :: cs)) eqn:Ed; [|cbn [negb]; naive_solver]. cbn [negb].
    assert (all_decimal (take 3 (c1 :: cs)) = true) as Ht.
    { unfold all_decimal in *. rewrite forallb_forall in *. intros x Hx. apply Ed.
      apply list_elem_of_In, elem_of_take in Hx as (i & Hx & _). apply list_elem_of_In.
      by eapply list_elem_of_lookup_2. }
    rewrite Ht. cbn [mbind option_bind].
    assert (∀ v, v = fraction_ms (Some (c1 :: cs)) →
      Some v = Some ms ↔ ms = fraction_ms (Some (c1 :: cs)) ∧ c1 :: cs ≠ [] ∧ true = true) as Hfin.
    { intros v ->. split; [by intros [= <-]|by intros (-> & _)]. }
    apply Hfin. unfold fraction_ms. destruct cs as [|c2 [|c3 cs]]; [| |done]; unfold decimal_val; cbn;
      change (decimal_digit "0") with 0; repeat case_bool_decide; lia.
  - destruct (bool_decide (c = "Z"%char)) eqn:Ez; bools; cbn [negb orb].
    + subst c. rewrite length_app, Hpre. cbn [length].
      destruct rest as [|c rest]; cbn [length].
      * rewrite bool_decide_true by done. cbn. split.
        -- intros [= <-]. by exists None.
        -- intros ([cs|] & Htail & -> & _); [by destruct cs|done].
      * rewrite bool_decide_false by lia. cbn. split; [done|]. intros ([cs|] & Htail & _); by simplify_eq.
    + split; [done|]. intros ([cs|] & Htail & _); unfold fraction_text in Htail; cbn in Htail; simplify_eq.
Qed.

Lemma calendar_day_bounds year month day :
  valid_date year month day → year ≤ 9999 → 0 ≤ calendar_day year month day < 4000000.
Proof.
  intros Hv Hle. rewrite <- days_from_civil_calendar by done. destruct Hv as (Hy & Hm & Hd).
  pose proof (days_in_month_bound year month Hm). rewrite days_closed by lia. unfold march_days, march_month.
  destruct (Z.leb_spec month 2), (Z.ltb_spec 2 month); try lia; Z.to_euclidean_division_equations; lia.
Qed.

Lemma fraction_ms_bounds fraction :
  match fraction with Some cs => cs ≠ [] ∧ all_decimal cs = true | None => True end →
  0 ≤ fraction_ms fraction < 1000.
Proof.
  destruct fraction as [cs|]; cbn [fraction_ms]; [|lia]. intros [Hne Hd].
  assert (all_decimal (take 3 (cs ++ ["0"; "0"]%char)) = true) as Ht.
  { unfold all_decimal in *. rewrite forallb_forall in *. intros x Hx.
    apply list_elem_of_In, elem_of_take in Hx as (i & Hx & _).
    apply list_elem_of_lookup_2, elem_of_app in Hx as [Hx|Hx]; [apply Hd; by apply list_elem_of_In|].
    set_unfold. by destruct Hx as [->|[->|[]]]. }
  pose proof (decimal_val_bounds _ Ht) as B. revert B.
  assert (length (take 3 (cs ++ ["0"; "0"]%char)) ≤ 3)%nat by (rewrite length_take; lia).
  assert (10 ^ Z.of_nat (length (take 3 (cs ++ ["0"; "0"]%char))) ≤ 10 ^ 3) by (apply Z.pow_le_mono_r; lia).
  lia.
Qed.

(** The parser on a punctuated value, field by field. *)
Definition parse_parts (y mo d h mi s : list ascii) (fraction : option Z) : option Z :=
  year ← read_digits y 0;
  month ← read_digits mo 0;
  day ← read_digits d 0;
  hour ← read_digits h 0;
  minute ← read_digits mi 0;
  second ← read_digits s 0;
  if (year <? 1970) || (month <? 1) || (12 <? month) || (day <? 1) ||
     (days_in_month year month <? day) || (23 <? hour) || (59 <? minute) || (59 <? second)
  then None else
  milliseconds ← fraction;
  let epoch := civil_epoch year month day hour minute second in
  if (epoch <? 0) || ((u64_max - milliseconds) / 1000 <? epoch) then None
  else Some (u64 (epoch * 1000 + milliseconds)).

Definition punctuated (y mo d h mi s tail : list ascii) : list ascii :=
  y ++ "-"%char :: mo ++ "-"%char :: d ++ "T"%char :: h ++ ":"%char :: mi ++ ":"%char :: s ++ tail.

Lemma parse_punctuated y1 y2 y3 y4 m1 m2 d1 d2 h1 h2 i1 i2 s1 s2 tail :
  last tail = Some "Z"%char →
  let value := punctuated [y1; y2; y3; y4] [m1; m2] [d1; d2] [h1; h2] [i1; i2] [s1; s2] tail in
  parse_iso8601 value =
    parse_parts [y1; y2; y3; y4] [m1; m2] [d1; d2] [h1; h2] [i1; i2] [s1; s2] (parse_fraction value).
Proof.
  intros Hlast value. unfold parse_iso8601.
  assert (well_punctuated value = true) as ->.
  { unfold well_punctuated. rewrite bool_decide_false.
    - assert (last value = Some "Z"%char) as ->.
      { unfold value, punctuated. destruct tail as [|c tail]; [done|].
        change (last (c :: tail) = Some "Z"%char) in Hlast. exact Hlast. }
      unfold char_is. cbn. by repeat (rewrite bool_decide_true by done).
    - unfold value, punctuated. destruct tail; [done|]. cbn. lia. }
  cbn [negb]. unfold parse_parts.
  assert (∀ pre cs rest, value = pre ++ cs ++ rest → parse_digits value (length pre) (length cs) = read_digits cs 0) as Hat.
  { intros pre cs rest ->. by apply parse_digits_at. }
  rewrite (Hat [] [y1; y2; y3; y4] _ eq_refl : parse_digits value 0 4 = _).
  rewrite (Hat [y1; y2; y3; y4; "-"%char] [m1; m2] _ eq_refl : parse_digits value 5 2 = _).
  rewrite (Hat [y1; y2; y3; y4; "-"%char; m1; m2; "-"%char] [d1; d2] _ eq_refl : parse_digits value 8 2 = _).
  rewrite (Hat [y1; y2; y3; y4; "-"%char; m1; m2; "-"%char; d1; d2; "T"%char] [h1; h2] _ eq_refl
    : parse_digits value 11 2 = _).
  rewrite (Hat [y1; y2; y3; y4; "-"%char; m1; m2; "-"%char; d1; d2; "T"%char; h1; h2; ":"%char] [i1; i2] _ eq_refl
    : parse_digits value 14 2 = _).
  rewrite (Hat [y1; y2; y3; y4; "-"%char; m1; m2; "-"%char; d1; d2; "T"%char; h1; h2; ":"%char; i1; i2; ":"%char]
    [s1; s2] _ eq_refl : parse_digits value 17 2 = _).
  done.
Qed.

Lemma punctuated_shape value :
  well_punctuated value = true →
  ∃ y1 y2 y3 y4 m1 m2 d1 d2 h1 h2 i1 i2 s1 s2 tail,
    value = punctuated [y1; y2; y3; y4] [m1; m2] [d1; d2] [h1; h2] [i1; i2] [s1; s2] tail ∧
    last tail = Some "Z"%char.
Proof.
  unfold well_punctuated. rewrite !andb_true_iff, negb_true_iff, bool_decide_eq_false, Nat.nlt_ge.
  intros ((((((Hl & H4) & H7) & H10) & H13) & H16) & Hz). apply bool_decide_eq_true in Hz.
  do 20 (destruct value as [|? value]; [cbn in Hl; lia|]).
  unfold char_is in *. cbn in H4, H7, H10, H13, H16.
  apply bool_decide_eq_true in H4, H7, H10, H13, H16. simplify_eq.
  do 14 eexists. exists (a18 :: value). split; [reflexivity|exact Hz].
Qed.

Lemma read_field_len n cs v :
  length cs = n → (n ≤ 9)%nat → read_digits cs 0 = Some v ↔ cs = pad n v ∧ 0 ≤ v < 10 ^ Z.of_nat n.
Proof. intros <-. apply read_field. Qed.

Lemma civil_epoch_calendar t :
  valid_timestamp t →
  let epoch := civil_epoch (ts_year t) (ts_month t) (ts_day t) (ts_hour t) (ts_minute t) (ts_second t) in
  0 ≤ epoch < 10 ^ 12 ∧ instant t = epoch * 1000 + fraction_ms (ts_fraction t).
Proof.
  intros (Hd & Hy & Hh & Hm & Hs & _). cbv zeta. unfold civil_epoch, instant.
  rewrite days_from_civil_calendar by done. pose proof (calendar_day_bounds _ _ _ Hd Hy).
  rewrite !u32_id by lia. lia.
Qed.

(** The ranges the code checks are those of a valid timestamp. *)
Lemma parse_parts_spec y mo d h mi s fraction ms :
  length y = 4%nat → length mo = 2%nat → length d = 2%nat → length h = 2%nat → length mi = 2%nat →
  length s = 2%nat →
  match fraction with Some cs => cs ≠ [] ∧ all_decimal cs = true | None => True end →
  parse_parts y mo d h mi s (Some (fraction_ms fraction)) = Some ms ↔
    ∃ t, valid_timestamp t ∧ ts_fraction t = fraction ∧ ms = instant t ∧
      y = pad 4 (ts_year t) ∧ mo = pad 2 (ts_month t) ∧ d = pad 2 (ts_day t) ∧ h = pad 2 (ts_hour t) ∧
      mi = pad 2 (ts_minute t) ∧ s = pad 2 (ts_second t).
Proof.
  intros Hy Hmo Hd Hh Hmi Hs Hf. pose proof (fraction_ms_bounds fraction Hf) as Hms. unfold parse_parts. split.
  - intros H.
    apply bind_Some in H as (year & [Ey By]%(read_field_len 4) & H); [|done|lia].
    apply bind_Some in H as (month & [Emo Bmo]%(read_field_len 2) & H); [|done|lia].
    apply bind_Some in H as (day & [Ed Bd]%(read_field_len 2) & H); [|done|lia].
    apply bind_Some in H as (hour & [Eh Bh]%(read_field_len 2) & H); [|done|lia].
    apply bind_Some in H as (minute & [Emi Bmi]%(read_field_len 2) & H); [|done|lia].
    apply bind_Some in H as (second & [Es Bs]%(read_field_len 2) & H); [|done|lia].
    match goal with H : (if ?b then _ else _) = _ |- _ => destruct b eqn:Hr; [done|] end.
    repeat (apply orb_false_iff in Hr as [Hr ?]). cbn [mbind option_bind] in H.
    set (t := MkTimestamp year month day hour minute second fraction).
    assert (valid_timestamp t) as Hv.
    { unfold valid_timestamp, valid_date. cbn. bools. split_and!; (done || lia). }
    destruct (civil_epoch_calendar t Hv) as [Hb Hi]. cbn in Hb, Hi.
    rewrite (proj2 (Z.ltb_ge _ 0)) in H by lia. cbn [orb] in H.
    rewrite (proj2 (Z.ltb_ge _ _)) in H.
    + injection H as <-. exists t. split; [done|]. split; [done|].
      split; [|done]. rewrite Hi. apply u64_id. unfold is_u64, u64_max. lia.
    + transitivity (10 ^ 12); [lia|]. apply Z.div_le_lower_bound; unfold u64_max; lia.
  - intros (t & Hv & Ef & -> & -> & -> & -> & -> & -> & ->).
    destruct (civil_epoch_calendar t Hv) as [Hb Hi].
    destruct Hv as (Hdate & Hy' & Hh' & Hm' & Hs' & _). pose proof Hdate as (Hyear & Hmonth & Hday).
    pose proof (days_in_month_bound (ts_year t) (ts_month t) Hmonth).
    assert (∀ n v, (n ≤ 9)%nat → 0 ≤ v < 10 ^ Z.of_nat n → read_digits (pad n v) 0 = Some v) as Hread.
    { intros n v Hn Hv. apply (read_field_len n); [apply pad_length|done|done]. }
    rewrite !Hread by (cbn; lia). cbn [mbind option_bind].
    rewrite !(proj2 (Z.ltb_ge _ _)) by lia. cbn [orb].
    rewrite (proj2 (Z.ltb_ge ((u64_max - fraction_ms fraction) / 1000) _)).
    + f_equal. rewrite Hi, Ef. apply u64_id. unfold is_u64, u64_max. lia.
    + transitivity (10 ^ 12); [lia|]. apply Z.div_le_lower_bound; unfold u64_max; lia.
Qed.

Lemma parse_iso8601_spec value ms :
  parse_iso8601 value = Some ms ↔ ∃ t, valid_timestamp t ∧ value = render t ∧ ms = instant t.
Proof.
  split.
  - intros H. destruct (well_punctuated value) eqn:Hp; [|by unfold parse_iso8601 in H; rewrite Hp in H].
    destruct (punctuated_shape value Hp) as (y1 & y2 & y3 & y4 & m1 & m2 & d1 & d2 & h1 & h2 & i1 & i2 & s1 & s2
      & tail & -> & Hlast).
    rewrite parse_punctuated in H by done.
    destruct (parse_fraction _) as [f|] eqn:Ef.
    + unfold punctuated in Ef.
      apply (parse_fraction_spec [y1; y2; y3; y4; "-"; m1; m2; "-"; d1; d2; "T"; h1; h2; ":"; i1; i2; ":"; s1; s2]%char
        tail f eq_refl Hlast) in Ef as (fraction & -> & -> & Hf).
      apply parse_parts_spec in H as (t & Hv & E & -> & Ey & Emo & Ed & Eh & Emi & Es); [|done..].
      exists t. split; [done|]. split; [|done]. unfold punctuated, render. by rewrite Ey, Emo, Ed, Eh, Emi, Es, E.
    + exfalso. unfold parse_parts in H. repeat (apply bind_Some in H as (? & _ & H)). by case_if.
  - intros (t & Hv & -> & ->). unfold render.
    assert (∀ n v, ∃ cs, pad n v = cs ∧ length cs = n) as Hpad by (intros; eexists; split; [done|apply pad_length]).
    destruct (Hpad 4%nat (ts_year t)) as (y & Ey & Hy), (Hpad 2%nat (ts_month t)) as (mo & Emo & Hmo),
      (Hpad 2%nat (ts_day t)) as (d & Ed & Hd), (Hpad 2%nat (ts_hour t)) as (h & Eh & Hh),
      (Hpad 2%nat (ts_minute t)) as (mi & Emi & Hmi), (Hpad 2%nat (ts_second t)) as (s & Es & Hs).
    rewrite Ey, Emo, Ed, Eh, Emi, Es.
    assert (parse_parts y mo d h mi s (Some (fraction_ms (ts_fraction t))) = Some (instant t)) as Hparts.
    { apply parse_parts_spec; [done..|by apply Hv|]. by exists t. }
    destruct y as [|y1 [|y2 [|y3 [|y4 []]]]]; try discriminate Hy. destruct mo as [|m1 [|m2 []]]; try discriminate Hmo.
    destruct d as [|d1 [|d2 []]]; try discriminate Hd. destruct h as [|h1 [|h2 []]]; try discriminate Hh.
    destruct mi as [|i1 [|i2 []]]; try discriminate Hmi. destruct s as [|s1 [|s2 []]]; try discriminate Hs.
    assert (last (fraction_text (ts_fraction t)) = Some "Z"%char) as Hlast.
    { unfold fraction_text. apply last_snoc. }
    pose proof (parse_punctuated y1 y2 y3 y4 m1 m2 d1 d2 h1 h2 i1 i2 s1 s2 _ Hlast) as H. cbv zeta in H.
    unfold punctuated in H at 1. rewrite H.
    assert (parse_fraction (punctuated [y1; y2; y3; y4] [m1; m2] [d1; d2] [h1; h2] [i1; i2] [s1; s2]
      (fraction_text (ts_fraction t))) = Some (fraction_ms (ts_fraction t))) as ->; [|done].
    apply (parse_fraction_spec [y1; y2; y3; y4; "-"; m1; m2; "-"; d1; d2; "T"; h1; h2; ":"; i1; i2; ":"; s1; s2]%char
        _ _ eq_refl Hlast). eexists. split; [done|]. split; [done|]. apply Hv.
Qed.

(** C17: Reading a timestamp is equivalent to the calendar: the closed form of the
    code gives, for every text YYYY-MM-DDThh:mm:ss[.fraction]Z of a real date from
    1970 to 9999, the number of milliseconds obtained by counting the days of the
    Gregorian calendar (leap years and the lengths of the months) and the first
    three digits of the fraction; every other text reads as 0. *)
Theorem parse_iso8601_calendar :
  (∀ t, valid_timestamp t → parse_iso8601_ms (str (render t)) = instant t) ∧
  (∀ value, (∀ t, valid_timestamp t → value ≠ str (render t)) → parse_iso8601_ms value = 0).
Proof.
  split.
  - intros t Hv. unfold parse_iso8601_ms. rewrite chars_str.
    by rewrite (proj2 (parse_iso8601_spec (render t) (instant t))) by (by exists t).
  - intros value Hno. unfold parse_iso8601_ms. destruct (parse_iso8601 (chars value)) as [ms|] eqn:E; [|done].
    apply parse_iso8601_spec in E as (t & Hv & E & _). destruct (Hno t Hv). by rewrite <- E, str_chars.
Qed.

(** ** Hours of New York *)

Lemma weekday_calendar year month day :
  valid_date year month day → weekday year month day = (calendar_day year month day + 4) mod 7.
Proof.
  intros Hv. unfold weekday. rewrite days_from_civil_calendar by done.
  assert (0 ≤ calendar_day year month day) as H0.
  { rewrite <- days_from_civil_calendar by done. destruct Hv as (Hy & Hm & Hd).
    pose proof (days_in_month_bound year month Hm). rewrite days_closed by lia. unfold march_days, march_month.
    destruct (Z.leb_spec month 2), (Z.ltb_spec 2 month); try lia; Z.to_euclidean_division_equations; lia. }
  rewrite Z.rem_mod_nonneg by lia. pose proof (Z.mod_pos_bound (calendar_day year month day + 4) 7 ltac:(lia)).
  by rewrite (proj2 (Z.ltb_ge _ 0)) by lia.
Qed.

(** The day the code takes for the first Sunday from the first of a month on is
    one (day 0 of the week; 1970 began on a Thursday). *)
Lemma first_sunday_is_sunday year month :
  1970 ≤ year → 1 ≤ month ≤ 12 →
  let day := 1 + Z.rem (7 - weekday year month 1) 7 in
  1 ≤ day ≤ 7 ∧ weekday year month day = 0 ∧ weekday year month (day + 7) = 0.
Proof.
  intros Hy Hm day. pose proof (days_in_month_bound year month Hm) as Hb.
  assert (valid_date year month 1) as H1 by (unfold valid_date; lia).
  pose proof (weekday_calendar year month 1 H1) as Hw.
  pose proof (Z.mod_pos_bound (calendar_day year month 1 + 4) 7 ltac:(lia)) as Hr. rewrite <- Hw in Hr.
  assert (1 ≤ day ≤ 7) as Hday.
  { unfold day. rewrite Z.rem_mod_nonneg by lia. pose proof (Z.mod_pos_bound (7 - weekday year month 1) 7). lia. }
  split; [done|]. rewrite !weekday_calendar by (unfold valid_date; lia).
  unfold calendar_day in *. unfold day in *. rewrite Z.rem_mod_nonneg in * by lia.
  Z.to_euclidean_division_equations; lia.
Qed.

Lemma offset_cases t : new_york_utc_offset t = -4 * 3600 ∨ new_york_utc_offset t = -5 * 3600.
Proof. unfold new_york_utc_offset. cbv zeta. case_if; auto. Qed.

(** The local hours since 1970. *)
Definition local_hours (t : Z) : Z := (t + new_york_utc_offset t) / 3600.

Definition clock_text (hour : Z) : string :=
  if hour =? 0 then "12am" else if hour =? 12 then "12pm"
  else if hour <? 12 then to_string hour +:+ "am" else to_string (hour - 12) +:+ "pm".

(** The last seven characters of a slug tell the hour of the day. *)
Definition hour_suffix (slug : string) : list ascii := drop (length (chars slug) - 7) (chars slug).
Definition clock_suffix (hour : Z) : list ascii := hour_suffix ("-" +:+ clock_text hour +:+ "-et").

Lemma clock_suffix_inj h1 h2 :
  0 ≤ h1 < 24 → 0 ≤ h2 < 24 → clock_suffix h1 = clock_suffix h2 → h1 = h2.
Proof.
  intros H1 H2.
  pose proof (proj1 (forall_below_spec 24 (λ a, forall_below 24 (λ b,
    (a =? b) || negb (bool_decide (clock_suffix a = clock_suffix b))))) ltac:(by vm_compute) h1 ltac:(lia)) as H.
  cbv beta in H. rewrite forall_below_spec in H. specialize (H h2 ltac:(lia)). intros E. bools. tauto.
Qed.

Lemma clock_long hour : 0 ≤ hour < 24 → (7 ≤ length (chars ("-" +:+ clock_text hour +:+ "-et")))%nat.
Proof.
  intros H.
  pose proof (proj1 (forall_below_spec 24 (λ a,
    bool_decide (7 ≤ length (chars ("-" +:+ clock_text a +:+ "-et")))%nat)) ltac:(by vm_compute) hour ltac:(lia)) as Hl.
  by apply bool_decide_eq_true in Hl.
Qed.

Lemma slug_hour asset t :
  0 ≤ t < 2 ^ 63 → hour_suffix (format_new_york_hour_slug asset t) = clock_suffix (local_hours t mod 24).
Proof.
  intros Ht. unfold format_new_york_hour_slug.
  assert (i64 t = t) as -> by (unfold i64; rewrite Z.mod_small; lia).
  set (local := gmtime_r _). set (h := local_hours t mod 24).
  assert (tm_hour local = h) as ->.
  { unfold local, h, local_hours, gmtime_r. destruct (civil_from_days _) as [[y m] d]. cbn.
    generalize (t + new_york_utc_offset t). intros x. Z.to_euclidean_division_equations; lia. }
  assert (0 ≤ h < 24) as Hh by (apply Z.mod_pos_bound; lia).
  fold (clock_text h). cbv zeta.
  set (front := asset +:+ "-up-or-down-" +:+ nth (Z.to_nat (tm_mon local)) months "" +:+ "-" +:+
    to_string (tm_mday local)).
  assert (asset +:+ "-up-or-down-" +:+ nth (Z.to_nat (tm_mon local)) months "" +:+ "-" +:+
    to_string (tm_mday local) +:+ "-" +:+ clock_text h +:+ "-et" = front +:+ ("-" +:+ clock_text h +:+ "-et")) as ->.
  { apply chars_inj. unfold front. by rewrite !chars_app, <- !app_assoc. }
  unfold clock_suffix, hour_suffix. rewrite chars_app, length_app.
  pose proof (clock_long h Hh). rewrite drop_app_ge by lia. f_equal. lia.
Qed.

(** ** The loop over hours ends *)

Section Slugs.
Context (asset : string) (now : Z) (Hnow : 0 ≤ now < 2 ^ 62).

#[local] Abbreviation hour_slug j := (format_new_york_hour_slug asset (now + j * 3600)).

(** Local hours advance with the clock but for the change of an hour. *)
Lemma local_hours_near j : now / 3600 + j - 5 ≤ local_hours (now + j * 3600) ≤ now / 3600 + j - 4.
Proof using Type.
  unfold local_hours. destruct (offset_cases (now + j * 3600)) as [-> | ->].
  - replace (now + j * 3600 + -4 * 3600) with (now + (j - 4) * 3600) by lia. rewrite Z.div_add by lia. lia.
  - replace (now + j * 3600 + -5 * 3600) with (now + (j - 5) * 3600) by lia. rewrite Z.div_add by lia. lia.
Qed.

Lemma slugs_differ i j :
  0 ≤ now + i * 3600 < 2 ^ 63 → 0 ≤ now + j * 3600 < 2 ^ 63 → i + 2 ≤ j ≤ i + 22 → hour_slug i ≠ hour_slug j.
Proof using Hnow.
  intros Hi Hj Hd E. apply (f_equal hour_suffix) in E. rewrite !slug_hour in E by done.
  apply clock_suffix_inj in E; [|apply Z.mod_pos_bound; lia..].
  pose proof (local_hours_near i). pose proof (local_hours_near j).
  Z.to_euclidean_division_equations; lia.
Qed.

Definition seen (o : Z) (slugs : list string) : Prop :=
  NoDup slugs ∧ ∀ s, s ∈ slugs → ∃ j, -1 ≤ j < o ∧ 0 ≤ now + j * 3600 ∧ s = hour_slug j.

Definition add_slug (o : Z) (slugs : list string) : list string :=
  if bool_decide (hour_slug o ∈ slugs) then slugs else slugs ++ [hour_slug o].

Lemma seen_add o slugs : 0 ≤ now + o * 3600 → -1 ≤ o → seen o slugs → seen (o + 1) (add_slug o slugs).
Proof using Type.
  intros Ho Hl [Hn Hs]. unfold add_slug. case_bool_decide as Hin.
  - split; [done|]. intros s Hx. destruct (Hs s Hx) as (j & ? & ? & ->). exists j. split_and!; [lia..|done].
  - split.
    + apply NoDup_app. split; [done|]. split; [|apply NoDup_singleton].
      intros s Hx ->%list_elem_of_singleton. done.
    + intros s [Hx| ->%list_elem_of_singleton]%elem_of_app.
      * destruct (Hs s Hx) as (j & ? & ? & ->). exists j. split_and!; [lia..|done].
      * exists o. split_and!; [lia..|done].
Qed.

Lemma add_slug_grows o slugs : (length slugs ≤ length (add_slug o slugs))%nat.
Proof using Type. unfold add_slug. case_bool_decide; rewrite ?length_app; lia. Qed.

(** Of two hours in a row one is new. *)
Lemma two_hours o slugs :
  0 ≤ now + o * 3600 → -1 ≤ o ≤ 20 → seen o slugs →
  (length slugs < length (add_slug (o + 1) (add_slug o slugs)))%nat.
Proof using Hnow.
  intros Hpos Ho [Hn Hs]. assert (hour_slug (o + 1) ∉ slugs) as Hnew.
  { intros (j & Hj & Hjpos & E)%Hs. symmetry in E. revert E. apply slugs_differ; lia. }
  unfold add_slug at 2. case_bool_decide as H1.
  - unfold add_slug. rewrite bool_decide_false by done. rewrite length_app. cbn. lia.
  - pose proof (add_slug_grows (o + 1) (slugs ++ [hour_slug o])) as H2. rewrite length_app in H2. cbn in H2. lia.
Qed.

Lemma slug_loop_add fuel count o slugs :
  0 ≤ now + o * 3600 → (length slugs < count)%nat →
  slug_loop (S fuel) asset now count o slugs = slug_loop fuel asset now count (o + 1) (add_slug o slugs).
Proof using Hnow.
  intros Ho Hl. cbn [slug_loop]. rewrite bool_decide_true by done.
  assert (i64 now = now) as -> by (unfold i64; rewrite Z.mod_small; lia). cbv zeta.
  by rewrite (proj2 (Z.ltb_ge _ 0)) by lia.
Qed.

Lemma slug_loop_skip fuel count o slugs :
  now + o * 3600 < 0 → (length slugs < count)%nat →
  slug_loop (S fuel) asset now count o slugs = slug_loop fuel asset now count (o + 1) slugs.
Proof using Hnow.
  intros Ho Hl. cbn [slug_loop]. rewrite bool_decide_true by done.
  assert (i64 now = now) as -> by (unfold i64; rewrite Z.mod_small; lia). cbv zeta.
  by rewrite (proj2 (Z.ltb_lt _ 0)) by lia.
Qed.

Lemma slug_loop_done fuel count o slugs :
  (count ≤ length slugs)%nat → slug_loop (S fuel) asset now count o slugs = Some slugs.
Proof using Type. intros Hl. cbn [slug_loop]. by rewrite bool_decide_false by lia. Qed.

Lemma slug_loop_ends missing count : ∀ fuel o slugs,
  count = (length slugs + missing)%nat → (2 * missing < fuel)%nat → 0 ≤ now + o * 3600 → -1 ≤ o →
  o + 2 * Z.of_nat missing ≤ 22 → seen o slugs →
  ∃ result, slug_loop fuel asset now count o slugs = Some result ∧ NoDup result ∧ length result = count.
Proof using Hnow.
  induction missing as [missing IH] using lt_wf_ind; intros fuel o slugs Hc Hf Ho Hl Hb Hs.
  destruct fuel as [|fuel]; [lia|]. destruct missing as [|missing].
  { rewrite slug_loop_done by lia. exists slugs. split; [done|]. split; [apply Hs|lia]. }
  rewrite slug_loop_add by lia. pose proof (seen_add o slugs Ho Hl Hs) as Hs1.
  assert (length (add_slug o slugs) ≤ S (length slugs))%nat as Hone.
  { unfold add_slug. case_bool_decide; rewrite ?length_app; cbn; lia. }
  destruct (decide (count ≤ length (add_slug o slugs))%nat) as [Hend|Hmore].
  { destruct fuel as [|fuel]; [lia|]. rewrite slug_loop_done by done. eexists. split; [done|].
    split; [apply Hs1|lia]. }
  destruct fuel as [|fuel]; [lia|]. rewrite slug_loop_add by lia.
  pose proof (seen_add (o + 1) _ ltac:(lia) ltac:(lia) Hs1) as Hs2.
  pose proof (two_hours o slugs Ho ltac:(lia) Hs) as Hgrow.
  set (slugs2 := add_slug (o + 1) (add_slug o slugs)) in *.
  assert (length slugs2 ≤ S (length (add_slug o slugs)))%nat as Htwo.
  { unfold slugs2. unfold add_slug at 1. case_bool_decide; rewrite ?length_app; cbn; lia. }
  apply (IH (count - length slugs2)%nat); [lia..|done].
Qed.

(** For up to ten slugs the loop ends, with that many different slugs; the client
    asks for three. *)
Lemma hour_slugs_end count :
  0 ≤ count ≤ 10 →
  ∃ slugs, generate_new_york_hour_slugs 24 asset now count = Some slugs ∧ NoDup slugs ∧
    length slugs = Z.to_nat count.
Proof using Hnow.
  intros Hc. unfold generate_new_york_hour_slugs. destruct (Z.leb_spec count 0).
  { exists []. split; [done|]. split; [constructor|cbn; lia]. }
  assert (∀ o, seen o []) as Hseen by (intros; split; [constructor|set_solver]).
  destruct (Z.le_gt_cases 3600 now) as [Hle|Hlt].
  - by apply (slug_loop_ends (Z.to_nat count)); [|lia..|].
  - change 24%nat with (S 23). rewrite slug_loop_skip by (cbn [length]; lia).
    by apply (slug_loop_ends (Z.to_nat count)); [|lia..|].
Qed.
End Slugs.

(** ** Witness *)

Lemma parse_iso8601_calendar_witness :
  parse_iso8601_ms "2024-02-29T23:59:59.5Z" = 1709251199500 ∧
  parse_iso8601_ms "2023-02-29T23:59:59.5Z" = 0.
Proof.
  split; [|by vm_compute].
  set (t := MkTimestamp 2024 2 29 23 59 59 (Some ["5"%char])).
  assert (valid_timestamp t) as Hv by (unfold valid_timestamp, valid_date; cbn; split_and!; (done || lia)).
  transitivity (instant t); [|by vm_compute].
  exact (proj1 parse_iso8601_calendar t Hv).
Defined.
