(* ===== verification/HttpDate.v ===== *)
(** * The dates of HTTP (src/rate_limit.cpp)

    [parse_http_date] reads the three forms of RFC 9110 with [sscanf]; the part of
    [sscanf] its formats use is a small interpreter of directives.  A [Retry-After]
    header holds such a date. *)
From Stdlib Require Import Ascii String.
From S2P Require Import Prelude Text Sdk MarketTime.

#[local] Open Scope Z_scope.

(** ** sscanf *)

(** [isspace] of the C locale. *)
Definition is_space (c : ascii) : bool := bool_decide (c = " "%char) || in_range (chr 9) (chr 13) c.
Definition is_letter (c : ascii) : bool := in_range "A" "Z" c || in_range "a" "z" c.

Fixpoint skip_space (cs : list ascii) : list ascii :=
  match cs with c :: cs' => if is_space c then skip_space cs' else cs | [] => [] end.

(** At most [n] characters that pass the test. *)
Fixpoint span (n : nat) (f : ascii → bool) (cs : list ascii) : list ascii :=
  match n, cs with S n, c :: cs => if f c then c :: span n f cs else [] | _, _ => [] end.

(** %ns, %nd, %n[A-Za-z], white space and any other character. *)
Inductive directive := d_text (n : nat) | d_int (n : nat) | d_letters (n : nat) | d_blank | d_char (c : ascii).
Inductive scanned := v_text (cs : list ascii) | v_int (z : Z).

Definition taken (v : list ascii) (cs : list ascii) : option (list ascii * list ascii) :=
  if bool_decide (v = []) then None else Some (v, drop (length v) cs).

(** An optional sign counts for the width. *)
Definition scan_int (n : nat) (cs : list ascii) : option (Z * list ascii) :=
  let '(sign, n, cs) :=
    match cs with
    | "-"%char :: rest => (-1, (n - 1)%nat, rest)
    | "+"%char :: rest => (1, (n - 1)%nat, rest)
    | _ => (1, n, cs)
    end in
  '(digits, rest) ← taken (span n is_decimal cs) cs; Some (sign * decimal_val digits, rest).

(** The values of a format all of whose directives match the whole text: as many
    values as conversions, and %n at the end of the text. *)
Fixpoint scan (ds : list directive) (cs : list ascii) : option (list scanned) :=
  match ds with
  | [] => if bool_decide (cs = []) then Some [] else None
  | d_blank :: ds => scan ds (skip_space cs)
  | d_char c :: ds => match cs with c' :: cs => if bool_decide (c' = c) then scan ds cs else None | [] => None end
  | d_text n :: ds =>
      let cs := skip_space cs in
      '(v, cs) ← taken (span n (λ c, negb (is_space c)) cs) cs; vs ← scan ds cs; Some (v_text v :: vs)
  | d_letters n :: ds => '(v, cs) ← taken (span n is_letter cs) cs; vs ← scan ds cs; Some (v_text v :: vs)
  | d_int n :: ds => '(z, cs) ← scan_int n (skip_space cs); vs ← scan ds cs; Some (v_int z :: vs)
  end.

(** ** Dates *)

Definition days_from_civil (year month day : Z) : Z :=
  let year := if month <=? 2 then year - 1 else year in
  let era := Z.quot (if 0 <=? year then year else year - 399) 400 in
  let year_of_era := u32 (year - era * 400) in
  let day_of_year :=
    u32 (u32 (153 * u32 (month + (if 2 <? month then -3 else 9)) + 2) / 5 + day - 1) in
  let day_of_era := u32 (year_of_era * 365 + year_of_era / 4 - year_of_era / 100 + day_of_year) in
  era * 146097 + day_of_era - 719468.

Definition months : list string := ["Jan"; "Feb"; "Mar"; "Apr"; "May"; "Jun"; "Jul"; "Aug"; "Sep"; "Oct"; "Nov"; "Dec"].

Fixpoint month_index (name : string) (names : list string) (i : Z) : Z :=
  match names with
  | [] => 0
  | m :: names => if bool_decide (name = m) then i + 1 else month_index name names (i + 1)
  end.
Definition month_number (name : string) : Z := month_index name months 0.

Definition clock_format : list directive := [d_int 2; d_char ":"; d_int 2; d_char ":"; d_int 2].
Definition gmt : list directive := [d_blank; d_char "G"; d_char "M"; d_char "T"].

Definition imf_format : list directive :=
  [d_text 3; d_char ","; d_blank; d_int 2; d_blank; d_text 3; d_blank; d_int 4; d_blank] ++ clock_format ++ gmt.
Definition rfc850_format : list directive :=
  [d_letters 15; d_char ","; d_blank; d_int 2; d_char "-"; d_text 3; d_char "-"; d_int 2; d_blank] ++ clock_format ++ gmt.
Definition asctime_format : list directive :=
  [d_text 3; d_blank; d_text 3; d_blank; d_int 2; d_blank] ++ clock_format ++ [d_blank; d_int 4].

Record http_date := MkDate { hd_year : Z; hd_month : list ascii; hd_day : Z; hd_hour : Z; hd_minute : Z; hd_second : Z }.

Definition read_date (cs : list ascii) : option http_date :=
  match scan imf_format cs with
  | Some [v_text _; v_int day; v_text month; v_int year; v_int hour; v_int minute; v_int second] =>
      Some (MkDate year month day hour minute second)
  | _ =>
      match scan rfc850_format cs with
      | Some [v_text _; v_int day; v_text month; v_int year; v_int hour; v_int minute; v_int second] =>
          Some (MkDate (year + (if year <? 70 then 2000 else 1900)) month day hour minute second)
      | _ =>
          match scan asctime_format cs with
          | Some [v_text _; v_text month; v_int day; v_int hour; v_int minute; v_int second; v_int year] =>
              Some (MkDate year month day hour minute second)
          | _ => None
          end
      end
  end.

(** A text with a NUL inside is longer than what [sscanf] reads of it. *)
Definition parse_http_date (text : string) : option Z :=
  if bool_decide (chr 0 ∈ chars text) then None
  else match read_date (chars text) with
  | None => None
  | Some t =>
      let month := month_number (str (hd_month t)) in
      if (month =? 0) || (hd_day t <? 1) || (31 <? hd_day t) || (23 <? hd_hour t) || (59 <? hd_minute t) || (60 <? hd_second t)
      then None
      else Some (days_from_civil (hd_year t) month (hd_day t) * 86400 + hd_hour t * 3600 + hd_minute t * 60 + hd_second t)
  end.

#[export] Instance http_dates : DateReader := parse_http_date.

(** ** What a date is written like *)

Definition month_text (month : Z) : list ascii := chars (nth (Z.to_nat (month - 1)) months "").
Definition clock_digits (hour minute second : Z) : list ascii :=
  pad 2 hour ++ ":"%char :: pad 2 minute ++ ":"%char :: pad 2 second.

(** The three forms of RFC 9110; [name] is the day of the week. *)
Definition imf_fixdate (name : list ascii) (year month day hour minute second : Z) : list ascii :=
  name ++ ","%char :: " "%char :: pad 2 day ++ " "%char :: month_text month ++ " "%char :: pad 4 year ++ " "%char ::
  clock_digits hour minute second ++ chars " GMT".
Definition rfc850_date (name : list ascii) (year month day hour minute second : Z) : list ascii :=
  name ++ ","%char :: " "%char :: pad 2 day ++ "-"%char :: month_text month ++ "-"%char :: pad 2 (year mod 100) ++ " "%char ::
  clock_digits hour minute second ++ chars " GMT".
Definition asctime_day (day : Z) : list ascii := if day <? 10 then " "%char :: pad 1 day else pad 2 day.
Definition asctime_date (name : list ascii) (year month day hour minute second : Z) : list ascii :=
  name ++ " "%char :: month_text month ++ " "%char :: asctime_day day ++ " "%char ::
  clock_digits hour minute second ++ " "%char :: pad 4 year.

Example imf_reads : parse_http_date "Sun, 06 Nov 1994 08:49:37 GMT" = Some 784111777.
Proof. by vm_compute. Qed.
Example rfc850_reads : parse_http_date "Sunday, 06-Nov-94 08:49:37 GMT" = Some 784111777.
Proof. by vm_compute. Qed.
Example asctime_reads : parse_http_date "Sun Nov  6 08:49:37 1994" = Some 784111777.
Proof. by vm_compute. Qed.

(** The sign of a number is read, and only upper bounds of a time of day are checked. *)
Example negative_hour_accepted : parse_http_date "Sun, 06 Nov 1994 -8:49:37 GMT" = Some (784111777 - 16 * 3600).
Proof. by vm_compute. Qed.

(** ** Every date is read as the calendar has it *)

Lemma span_all n f cs rest : forallb f cs = true → length cs = n → span n f (cs ++ rest) = cs.
Proof. revert n. induction cs as [|c cs IH]; intros n Hf <-; [done|]. cbn in *. apply andb_true_iff in Hf as [-> Hf]. by rewrite IH. Qed.

Lemma span_until n f cs c rest : forallb f cs = true → (length cs ≤ n)%nat → f c = false → span n f (cs ++ c :: rest) = cs.
Proof.
  revert n. induction cs as [|d cs IH]; intros n Hf Hl Hc; [destruct n; cbn; by rewrite ?Hc|].
  destruct n as [|n]; [cbn in Hl; lia|]. cbn in *. apply andb_true_iff in Hf as [-> Hf]. rewrite IH by (done || lia). done.
Qed.

Lemma taken_app v rest : v ≠ [] → taken v (v ++ rest) = Some (v, rest).
Proof. intros Hv. unfold taken. rewrite bool_decide_eq_false_2 by done. by rewrite drop_app_length. Qed.

Lemma decimal_plain c : is_decimal c = true → is_space c = false ∧ c ≠ "-"%char ∧ c ≠ "+"%char ∧ c ≠ chr 0.
Proof. destruct c as [[] [] [] [] [] [] [] []]; vm_compute; intros H; try discriminate H; by split_and!. Qed.

Lemma letter_plain c : is_letter c = true → is_space c = false ∧ c ≠ chr 0 ∧ c ≠ ","%char.
Proof. destruct c as [[] [] [] [] [] [] [] []]; vm_compute; intros H; try discriminate H; by split_and!. Qed.

Lemma scan_int_digits n cs rest :
  all_decimal cs = true → span n is_decimal (cs ++ rest) = cs → cs ≠ [] → scan_int n (cs ++ rest) = Some (decimal_val cs, rest).
Proof.
  intros Hd Hl Hn. destruct cs as [|c cs]; [done|]. pose proof Hd as Hc. cbn in Hc. apply andb_true_iff in Hc as [Hc _].
  destruct (decimal_plain c Hc) as (_ & Hminus & Hplus & _).
  assert (E : scan_int n ((c :: cs) ++ rest) = '(digits, rest) ← taken (span n is_decimal ((c :: cs) ++ rest)) ((c :: cs) ++ rest);
    Some (1 * decimal_val digits, rest)).
  { unfold scan_int. cbn [app]. clear -Hminus Hplus. by destruct c as [[] [] [] [] [] [] [] []]. }
  rewrite E, Hl, taken_app by done. cbn [mbind option_bind]. by rewrite Z.mul_1_l.
Qed.

Lemma skip_space_decimal cs rest : all_decimal cs = true → cs ≠ [] → skip_space (cs ++ rest) = cs ++ rest.
Proof.
  destruct cs as [|c cs]; [done|]. intros Hd _. cbn in Hd. apply andb_true_iff in Hd as [Hc _]. cbn.
  by destruct (decimal_plain c Hc) as [-> _].
Qed.

Lemma pad_nonempty n z : (0 < n)%nat → pad n z ≠ [].
Proof. intros Hn E. pose proof (pad_length n z) as Hl. rewrite E in Hl. cbn in Hl. lia. Qed.

(** A number of at most [n] digits, where no digit follows. *)
Lemma scan_number n m z ds rest :
  (0 < m)%nat → 0 ≤ z < 10 ^ Z.of_nat m → span n is_decimal (pad m z ++ rest) = pad m z →
  scan (d_int n :: ds) (pad m z ++ rest) = (vs ← scan ds rest; Some (v_int z :: vs)).
Proof.
  intros Hm Hz Hs. cbn [scan]. pose proof (pad_nonempty m z Hm) as Hp. rewrite skip_space_decimal by (apply pad_decimal || done).
  rewrite (scan_int_digits n (pad m z) rest (pad_decimal m z) Hs Hp). by rewrite pad_value.
Qed.

Lemma scan_pad n z ds rest :
  (0 < n)%nat → 0 ≤ z < 10 ^ Z.of_nat n → scan (d_int n :: ds) (pad n z ++ rest) = (vs ← scan ds rest; Some (v_int z :: vs)).
Proof. intros Hn Hz. apply scan_number; [done..|]. apply span_all; [apply pad_decimal|apply pad_length]. Qed.

Lemma skip_space_idem cs : skip_space (skip_space cs) = skip_space cs.
Proof. induction cs as [|c cs IH]; [done|]. cbn. destruct (is_space c) eqn:E; [done|]. cbn. by rewrite E. Qed.

(** Numbers and words skip white space themselves. *)
Lemma scan_blank_int n ds cs : scan (d_blank :: d_int n :: ds) (" "%char :: cs) = scan (d_int n :: ds) cs.
Proof. cbn [scan]. change (skip_space (" "%char :: cs)) with (skip_space cs). by rewrite skip_space_idem. Qed.
Lemma scan_blank_text n ds cs : scan (d_blank :: d_text n :: ds) (" "%char :: cs) = scan (d_text n :: ds) cs.
Proof. cbn [scan]. change (skip_space (" "%char :: cs)) with (skip_space cs). by rewrite skip_space_idem. Qed.

Lemma scan_text n cs ds rest :
  forallb is_letter cs = true → length cs = n → cs ≠ [] →
  scan (d_text n :: ds) (cs ++ rest) = (vs ← scan ds rest; Some (v_text cs :: vs)).
Proof.
  intros Hf Hl Hn. cbn [scan]. assert (skip_space (cs ++ rest) = cs ++ rest) as ->.
  { destruct cs as [|c cs]; [done|]. cbn in Hf |- *. apply andb_true_iff in Hf as [Hc _]. by destruct (letter_plain c Hc) as [-> _]. }
  rewrite span_all; [|clear -Hf|done].
  - by rewrite taken_app.
  - induction cs as [|c cs IH]; [done|]. cbn in *. apply andb_true_iff in Hf as [Hc Hf].
    by destruct (letter_plain c Hc) as [-> _]; apply IH.
Qed.

Lemma scan_char ds rest c : scan (d_char c :: ds) (c :: rest) = scan ds rest.
Proof. cbn [scan]. by rewrite bool_decide_eq_true_2. Qed.

Lemma scan_clock hour minute second ds rest :
  0 ≤ hour ≤ 99 → 0 ≤ minute ≤ 99 → 0 ≤ second ≤ 99 →
  scan (clock_format ++ ds) (clock_digits hour minute second ++ rest) =
    (vs ← scan ds rest; Some (v_int hour :: v_int minute :: v_int second :: vs)).
Proof.
  intros Hh Hm Hs. unfold clock_format, clock_digits. cbn [app]. rewrite <- app_assoc, scan_pad by (cbn; lia).
  cbn [app]. rewrite scan_char, <- app_assoc, scan_pad by (cbn; lia). cbn [app]. rewrite scan_char, scan_pad by (cbn; lia).
  by destruct (scan ds rest).
Qed.

Lemma month_text_plain month :
  1 ≤ month ≤ 12 → forallb is_letter (month_text month) = true ∧ length (month_text month) = 3%nat ∧
  month_number (str (month_text month)) = month.
Proof.
  intros Hm. assert (month ∈ seqZ 1 12) as Hin by (apply elem_of_seqZ; lia). revert Hin. generalize month. apply Forall_forall.
  by vm_compute; repeat constructor.
Qed.

Lemma letters_nonempty (cs : list ascii) n : length cs = S n → cs ≠ [].
Proof. by destruct cs. Qed.

Lemma scan_blank_clock ds cs : scan (d_blank :: clock_format ++ ds) (" "%char :: cs) = scan (clock_format ++ ds) cs.
Proof. apply scan_blank_int. Qed.

Lemma scan_name (cs : list ascii) c ds rest :
  forallb is_letter cs = true → cs ≠ [] → (length cs ≤ 15)%nat → is_letter c = false →
  scan (d_letters 15 :: ds) (cs ++ c :: rest) = (vs ← scan ds (c :: rest); Some (v_text cs :: vs)).
Proof. intros Hf Hn Hl Hc. cbn [scan]. by rewrite span_until, taken_app. Qed.

(** The day of the third form may have one digit. *)
Lemma scan_day day ds rest :
  1 ≤ day ≤ 31 → scan (d_blank :: d_int 2 :: ds) (" "%char :: asctime_day day ++ " "%char :: rest) =
    (vs ← scan ds (" "%char :: rest); Some (v_int day :: vs)).
Proof.
  intros Hd. rewrite scan_blank_int. unfold asctime_day. destruct (Z.ltb_spec day 10).
  - change (scan (d_int 2 :: ds) ((" "%char :: pad 1 day) ++ " "%char :: rest)) with (scan (d_int 2 :: ds) (pad 1 day ++ " "%char :: rest)).
    apply scan_number; [lia|cbn; lia|]. apply span_until; [apply pad_decimal|rewrite pad_length; lia|done].
  - apply scan_pad; [lia|cbn; lia].
Qed.

Section Dates.
Context (name : list ascii) (year month day hour minute second : Z).
Context (Hdate : valid_date year month day) (Hyear : year ≤ 9999).
Context (Hhour : 0 ≤ hour ≤ 23) (Hminute : 0 ≤ minute ≤ 59) (Hsecond : 0 ≤ second ≤ 60) (Hname : forallb is_letter name = true).

Lemma day_small : 1 ≤ day ≤ 31.
Proof using Hdate. destruct Hdate as (_ & Hm & Hd). pose proof (days_in_month_bound year month Hm). lia. Qed.

Lemma scan_imf :
  length name = 3%nat →
  scan imf_format (imf_fixdate name year month day hour minute second) =
    Some [v_text name; v_int day; v_text (month_text month); v_int year; v_int hour; v_int minute; v_int second].
Proof using All.
  intros Hl. pose proof day_small. destruct Hdate as (Hy & Hm & _). destruct (month_text_plain month Hm) as (Hml & Hmn & _).
  unfold imf_format, imf_fixdate. cbn [app]. rewrite scan_text by (done || by eapply letters_nonempty).
  rewrite scan_char, scan_blank_int, scan_pad by (cbn; lia). rewrite scan_blank_text, scan_text by (done || by eapply letters_nonempty).
  rewrite scan_blank_int, scan_pad, scan_blank_clock, scan_clock by (cbn; lia).
  by change (scan gmt (chars " GMT")) with (Some ([] : list scanned)).
Qed.

(** A name that is not three letters long is not taken for the first form. *)
Lemma imf_refuses rest c : (3 < length name)%nat ∨ length name = 3%nat ∧ c ≠ ","%char → scan imf_format (name ++ c :: rest) = None.
Proof using All.
  intros Hl. assert (∃ a b d e t, name ++ c :: rest = [a; b; d] ++ e :: t ∧ forallb is_letter [a; b; d] = true ∧ e ≠ ","%char)
    as (a & b & d & e & t & -> & Hf & He).
  { destruct name as [|a [|b [|d [|e t]]]]; cbn [length] in Hl; cbn [forallb] in Hname; try lia.
    - exists a, b, d, c, rest. split_and!; [done|exact Hname|]. destruct Hl; [lia|tauto].
    - apply andb_true_iff in Hname as [Ha Hn]. apply andb_true_iff in Hn as [Hb Hn]. apply andb_true_iff in Hn as [Hd Hn].
      apply andb_true_iff in Hn as [He _]. exists a, b, d, e, (t ++ c :: rest). split_and!; [done|cbn [forallb]; by rewrite Ha, Hb, Hd|].
      by apply letter_plain. }
  set (l := [a; b; d] ++ e :: t). unfold imf_format. cbn [app]. subst l. rewrite (scan_text 3 [a; b; d]) by done. cbn [scan]. by rewrite bool_decide_eq_false_2.
Qed.

Lemma scan_rfc850 :
  (4 ≤ length name ≤ 15)%nat →
  scan imf_format (rfc850_date name year month day hour minute second) = None ∧
  scan rfc850_format (rfc850_date name year month day hour minute second) =
    Some [v_text name; v_int day; v_text (month_text month); v_int (year mod 100); v_int hour; v_int minute; v_int second].
Proof using All.
  intros Hl. split; [apply imf_refuses; lia|].
  pose proof day_small. destruct Hdate as (Hy & Hm & _). destruct (month_text_plain month Hm) as (Hml & Hmn & _).
  pose proof (Z.mod_pos_bound year 100 ltac:(lia)).
  unfold rfc850_format, rfc850_date. cbn [app].
  assert (name ≠ []) by (intros E; rewrite E in Hl; cbn in Hl; lia).
  rewrite scan_name by (done || lia).
  rewrite scan_char, scan_blank_int, scan_pad, scan_char by (cbn; lia). rewrite scan_text by (done || by eapply letters_nonempty).
  rewrite scan_char, scan_pad, scan_blank_clock, scan_clock by (cbn; lia).
  by change (scan gmt (chars " GMT")) with (Some ([] : list scanned)).
Qed.

Lemma scan_asctime :
  length name = 3%nat →
  scan imf_format (asctime_date name year month day hour minute second) = None ∧
  scan rfc850_format (asctime_date name year month day hour minute second) = None ∧
  scan asctime_format (asctime_date name year month day hour minute second) =
    Some [v_text name; v_text (month_text month); v_int day; v_int hour; v_int minute; v_int second; v_int year].
Proof using All.
  intros Hl. split; [by apply imf_refuses; right|].
  pose proof day_small. destruct Hdate as (Hy & Hm & _). destruct (month_text_plain month Hm) as (Hml & Hmn & _).
  unfold asctime_date. split.
  { unfold rfc850_format. cbn [app]. rewrite scan_name by (done || lia || by eapply letters_nonempty). done. }
  unfold asctime_format. cbn [app]. rewrite scan_text by (done || by eapply letters_nonempty).
  rewrite scan_blank_text, scan_text by (done || by eapply letters_nonempty). rewrite scan_day by lia.
  rewrite scan_blank_clock, scan_clock by lia. rewrite scan_blank_int. rewrite <- (app_nil_r (pad 4 year)), scan_pad by (cbn; lia). done.
Qed.

(** Seconds from the start of 1970, by the calendar. *)
Definition calendar_seconds : Z := calendar_day year month day * 86400 + hour * 3600 + minute * 60 + second.

Lemma date_seconds cs :
  chr 0 ∉ cs → read_date cs = Some (MkDate year (month_text month) day hour minute second) →
  parse_http_date (str cs) = Some calendar_seconds.
Proof using All.
  intros Hn Hr. unfold parse_http_date. rewrite chars_str, bool_decide_eq_false_2, Hr by done.
  cbn [hd_year hd_month hd_day hd_hour hd_minute hd_second].
  pose proof day_small. destruct Hdate as (Hy & Hm & Hd). destruct (month_text_plain month Hm) as (_ & _ & ->).
  replace ((month =? 0) || (day <? 1) || (31 <? day) || (23 <? hour) || (59 <? minute) || (60 <? second)) with false by lia.
  change (days_from_civil year month day) with (MarketTime.days_from_civil year month day).
  by rewrite days_from_civil_calendar.
Qed.
End Dates.

(** ** No form has a NUL *)

Definition no_nul (cs : list ascii) : Prop := chr 0 ∉ cs.

Lemma no_nul_app cs ds : no_nul cs → no_nul ds → no_nul (cs ++ ds).
Proof. unfold no_nul. intros ? ? [?|?]%elem_of_app; done. Qed.
Lemma no_nul_cons c cs : c ≠ chr 0 → no_nul cs → no_nul (c :: cs).
Proof. unfold no_nul. intros ? ? [?|?]%elem_of_cons; done. Qed.
Lemma no_nul_of f cs : forallb f cs = true → (∀ c, f c = true → c ≠ chr 0) → no_nul cs.
Proof. rewrite forallb_forall. intros Hf Hc Hin. by apply (Hc (chr 0)); [apply Hf, list_elem_of_In|]. Qed.
Lemma no_nul_pad n z : no_nul (pad n z).
Proof. apply (no_nul_of is_decimal); [apply pad_decimal|]. intros c Hc. by apply decimal_plain. Qed.
Lemma no_nul_letters cs : forallb is_letter cs = true → no_nul cs.
Proof. intros Hl. apply (no_nul_of is_letter); [done|]. intros c Hc. by apply letter_plain. Qed.
Lemma no_nul_month month : 1 ≤ month ≤ 12 → no_nul (month_text month).
Proof. intros Hm. by apply no_nul_letters, month_text_plain. Qed.

Create HintDb no_nul.
#[export] Hint Resolve no_nul_app no_nul_cons no_nul_pad no_nul_letters no_nul_month : no_nul.
#[export] Hint Extern 1 (_ ≠ chr 0) => done : no_nul.

Lemma no_nul_clock hour minute second rest : no_nul rest → no_nul (clock_digits hour minute second ++ rest).
Proof. intros Hr. unfold clock_digits. auto 12 with no_nul. Qed.
Lemma no_nul_asctime_day day : no_nul (asctime_day day).
Proof. unfold asctime_day. destruct (day <? 10); auto with no_nul. Qed.
Lemma no_nul_gmt : no_nul (chars " GMT").
Proof. unfold no_nul. rewrite list_elem_of_In. vm_compute. naive_solver. Qed.
#[export] Hint Resolve no_nul_clock no_nul_asctime_day no_nul_gmt : no_nul.

(** C35: the dates of HTTP mean what the calendar says.  Every time of the years 1970 to
    9999 written in the preferred form of RFC 9110 or in that of asctime, whatever
    three letters name the day, and every one up to 2069 written in the form of
    RFC 850, is read as the seconds since 1970 of the Gregorian calendar. *)
Theorem http_dates_calendar name year month day hour minute second :
  valid_date year month day → year ≤ 9999 → 0 ≤ hour ≤ 23 → 0 ≤ minute ≤ 59 → 0 ≤ second ≤ 60 → forallb is_letter name = true →
  let seconds := calendar_seconds year month day hour minute second in
  (length name = 3%nat →
     parse_http_date (str (imf_fixdate name year month day hour minute second)) = Some seconds ∧
     parse_http_date (str (asctime_date name year month day hour minute second)) = Some seconds) ∧
  ((4 ≤ length name ≤ 15)%nat → year ≤ 2069 →
     parse_http_date (str (rfc850_date name year month day hour minute second)) = Some seconds).
Proof.
  intros Hdate Hyear Hh Hmi Hs Hname seconds. pose proof Hdate as (Hy & Hm & _).
  assert (∀ cs, no_nul cs → read_date cs = Some (MkDate year (month_text month) day hour minute second) →
    parse_http_date (str cs) = Some seconds) as Hread by (intros cs ? ?; by eapply (date_seconds name)).
  split; [intros Hl; split|intros Hl Hle]; apply Hread.
  - unfold imf_fixdate. auto 20 with no_nul.
  - unfold read_date. by rewrite scan_imf.
  - unfold asctime_date. auto 20 with no_nul.
  - unfold read_date. destruct (scan_asctime name year month day hour minute second) as (-> & -> & ->); try done.
  - unfold rfc850_date. auto 20 with no_nul.
  - unfold read_date. destruct (scan_rfc850 name year month day hour minute second) as (-> & ->); try done.
    f_equal. f_equal. destruct (Z.ltb_spec (year mod 100) 70); Z.to_euclidean_division_equations; lia.
Qed.

Lemma http_dates_calendar_witness :
  str (imf_fixdate (chars "Sun") 1994 11 6 8 49 37) = "Sun, 06 Nov 1994 08:49:37 GMT" ∧
  parse_http_date (str (imf_fixdate (chars "Sun") 1994 11 6 8 49 37)) = Some (calendar_seconds 1994 11 6 8 49 37).
Proof.
  split; [vm_compute; reflexivity|].
  assert (valid_date 1994 11 6) as Hv by (split; [lia|split; [lia|vm_compute; split; discriminate]]).
  destruct (http_dates_calendar (chars "Sun") 1994 11 6 8 49 37 Hv) as [Himf _]; [lia..|vm_compute; reflexivity|].
  apply Himf. vm_compute. reflexivity.
Defined.
