(* ===== verification/TradeSettlement.v ===== *)
(** * Trade status and order settlement
    (src/trade_status.hpp, trade_status_tracker.cpp, poll_deadline.hpp,
    clob_order_settlement.cpp)

    [TradeStatusTracker] as its state and operations, and
    [wait_for_order_fill_settlement] in its polling form.  Requests are a
    parameter: the page of trades each request gets and how long it takes.  So is
    how much longer than asked a sleep lasts.  Times are nanoseconds of the steady
    clock, intervals milliseconds. *)
From Stdlib Require Import Ascii String.
From S2P Require Import Prelude Text Sdk.

#[local] Open Scope Z_scope.

(** ** Trades *)

Record MakerOrder := MkMakerOrder {
  maker_order_id : string; maker_owner : string; maker_order_address : string;
  matched_amount : string; maker_price : string; maker_fee_rate_bps : string;
  maker_asset_id : string; maker_outcome : string; maker_side : string }.

Record Trade := MkTrade {
  trade_id : string; taker_order_id : string; market : string; asset_id : string; side : string;
  size : string; fee_rate_bps : string; price : string; status : string; match_time : string;
  last_update : string; outcome : string; bucket_index : Z; owner : string; maker_address : string;
  maker_orders : list MakerOrder; transaction_hash : string; trader_side : string;
  error_msg : option string }.

Record UserTradeEvent := MkUserTrade {
  ev_id : string; ev_taker_order_id : string; ev_market : string; ev_asset_id : string; ev_side : string;
  ev_size : string; ev_price : string; ev_status : string; ev_owner : string; ev_fee_rate_bps : string;
  ev_match_time : string; ev_last_update : string; ev_timestamp : string; ev_trade_owner : string;
  ev_maker_address : string; ev_transaction_hash : string; ev_bucket_index : option Z;
  ev_maker_orders : list MakerOrder; ev_trader_side : string; ev_outcome : string }.

Definition to_trade (e : UserTradeEvent) : Trade :=
  MkTrade (ev_id e) (ev_taker_order_id e) (ev_market e) (ev_asset_id e) (ev_side e) (ev_size e)
    (ev_fee_rate_bps e) (ev_price e) (ev_status e) (ev_match_time e) (ev_last_update e) (ev_outcome e)
    (default 0 (ev_bucket_index e)) (ev_owner e) (ev_maker_address e) (ev_maker_orders e)
    (ev_transaction_hash e) (ev_trader_side e) None.

(** [std::toupper] of the C locale. *)
Definition to_upper (c : ascii) : ascii := if in_range "a" "z" c then chr (code c - 32) else c.

Definition status_prefix : list ascii := chars "TRADE_STATUS_".

Definition normalized_trade_status (status : string) : string :=
  let normalized := map to_upper (chars status) in
  str (if bool_decide (take (length status_prefix) normalized = status_prefix)
       then drop (length status_prefix) normalized else normalized).

Definition is_settled_trade_status (status : string) : bool :=
  let normalized := normalized_trade_status status in
  bool_decide (normalized = "CONFIRMED") || bool_decide (normalized = "FAILED").

Definition is_failed_trade_status (status : string) : bool :=
  bool_decide (normalized_trade_status status = "FAILED").

(** ** The tracker *)

Record TradeStatusTracker := MkTracker {
  capacity_ : nat;
  trades_ : gmap string Trade;
  arrival_order_ : list string;
  version_ : Z;
  recoveries_ : Z }.

Definition new_tracker (capacity : nat) : res TradeStatusTracker :=
  _ ← require (negb (bool_decide (capacity = 0%nat)))
        (invalid_argument "trade status tracker capacity must be positive");
  Ok (MkTracker capacity ∅ [] 0 0).

Definition record (trade : UserTradeEvent) (t : TradeStatusTracker) : TradeStatusTracker :=
  if bool_decide (ev_id trade = "") then t
  else match trades_ t !! ev_id trade with
  | None =>
      let trades := <[ev_id trade := to_trade trade]> (trades_ t) in
      let order := arrival_order_ t ++ [ev_id trade] in
      match order with
      | oldest :: rest =>
          if bool_decide (capacity_ t < base.size trades)%nat
          then MkTracker (capacity_ t) (delete oldest trades) rest (u64 (version_ t + 1)) (recoveries_ t)
          else MkTracker (capacity_ t) trades order (u64 (version_ t + 1)) (recoveries_ t)
      | [] => t
      end
  | Some existing =>
      if is_settled_trade_status (status existing) && negb (is_settled_trade_status (ev_status trade)) then t
      else MkTracker (capacity_ t) (<[ev_id trade := to_trade trade]> (trades_ t)) (arrival_order_ t)
             (u64 (version_ t + 1)) (recoveries_ t)
  end.

Definition mark_recovered (t : TradeStatusTracker) : TradeStatusTracker :=
  MkTracker (capacity_ t) (trades_ t) (arrival_order_ t) (u64 (version_ t + 1)) (u64 (recoveries_ t + 1)).

Definition latest (id : string) (t : TradeStatusTracker) : option Trade := trades_ t !! id.

(** ** Settlement *)

Record OrderResponse := MkOrderResponse {
  order_success : bool;
  order_error_msg : string;
  order_id : string;
  order_hashes : list string;
  trade_ids : list string;
  order_status : string;
  taking_amount : string;
  making_amount : string }.

Record OrderSettlement := MkSettlement {
  transaction_hashes : list string;
  settled_trades : list Trade }.

Definition trades_endpoint : string := "/data/trades".

Definition has_settlement_details (trade : Trade) : bool :=
  let s := normalized_trade_status (status trade) in
  bool_decide (s = "FAILED") ||
  (bool_decide (s = "CONFIRMED") && negb (bool_decide (transaction_hash trade = ""))).

Definition is_failed (trade : Trade) : bool := is_failed_trade_status (status trade).

Definition append_unique (values : list string) (value : string) : list string :=
  if bool_decide (value = "") || bool_decide (value ∈ values) then values else values ++ [value].

Definition join (values : list string) : string :=
  foldl (λ result value, result +:+ (if bool_decide (result = "") then "" else ", ") +:+ value) "" values.

Definition settlement_error (code : SdkErrorCode) (message : string) (retryable : bool) : SdkError :=
  plain_error code message trades_endpoint "" retryable.

Definition unique_trade_ids (order : OrderResponse) : list string := foldl append_unique [] (trade_ids order).

Definition unfilled_settlement (order : OrderResponse) : OrderSettlement :=
  MkSettlement (foldl append_unique [] (order_hashes order)) [].

Definition settlement_hashes (trades : list Trade) : list string :=
  foldl (λ hashes t, if is_failed t then hashes else append_unique hashes (transaction_hash t)) [] trades.

Definition finish_settlement (order : OrderResponse) (ids : list string) (settled : list Trade) :
    Result OrderSettlement :=
  if forallb is_failed settled then
    failure (settlement_error TransactionFailed
      ("every fill of order " +:+ order_id order +:+ " failed execution: " +:+ join ids) false)
  else success (MkSettlement (settlement_hashes settled) settled).

(** The requests and the clock, by how many requests and sleeps there were. *)
Class World := {
  authenticated : bool;
  trade_page : nat → string → Result (list Trade);
  request_time : nat → Z;
  oversleep : nat → Z }.

Record clock := MkClock { now : Z; requests_sent : nat; sleeps : nat }.

Section Settlement.
Context `{World}.

Definition lookup_trade (trade_id_ : string) (w : clock) : clock * Result (option Trade) :=
  if negb authenticated then (w, failure (make_auth_error "Client not authenticated" trades_endpoint))
  else if bool_decide (trade_id_ = "") then
    (w, failure (settlement_error InvalidArgument "trade_id is required" false))
  else
    (MkClock (now w + request_time (requests_sent w)) (S (requests_sent w)) (sleeps w),
     match trade_page (requests_sent w) trade_id_ with
     | failure e => failure e
     | success trades => success (find (λ t, bool_decide (trade_id t = trade_id_)) trades)
     end).

Definition nanoseconds (ms : Z) : Z := ms * 1000000.

(** Milliseconds to the deadline, rounded up, not below zero. *)
Definition remaining (deadline : Z) (w : clock) : Z := Z.max 0 (- ((now w - deadline) / 1000000)).

Definition sleep_before_next_poll (deadline poll_interval : Z) (w : clock) : clock * bool :=
  if deadline <=? now w then (w, false)
  else (MkClock (now w + nanoseconds (Z.min poll_interval (remaining deadline w)) + oversleep (sleeps w))
          (requests_sent w) (S (sleeps w)), true).

(** One round of polls: the trades settled so far, or the first error. *)
Fixpoint poll_round (ids : list string) (settled : list (option Trade)) (w : clock) :
    clock * Result (list (option Trade)) :=
  match ids, settled with
  | id :: ids, s :: settled =>
      let here :=
        match s with
        | Some _ => (w, success s)
        | None =>
            match lookup_trade id w with
            | (w, failure e) => (w, failure e)
            | (w, success trade) =>
                (w, success (t ← trade; if has_settlement_details t then Some t else None))
            end
        end in
      match here with
      | (w, failure e) => (w, failure e)
      | (w, success s) =>
          match poll_round ids settled w with
          | (w, failure e) => (w, failure e)
          | (w, success rest) => (w, success (s :: rest))
          end
      end
  | _, _ => (w, success [])
  end.

Definition pending_ids (ids : list string) (settled : list (option Trade)) : list string :=
  (filter (λ p : string * option Trade, p.2 = None) (zip ids settled)).*1.

(** The polling loop; [None] when the fuel runs out. *)
Fixpoint settle_loop (fuel : nat) (order : OrderResponse) (ids : list string)
    (settled : list (option Trade)) (deadline poll_interval : Z) (w : clock) :
    option (clock * Result OrderSettlement) :=
  match fuel with
  | O => None
  | S fuel =>
      match poll_round ids settled w with
      | (w, failure e) => Some (w, failure e)
      | (w, success settled) =>
          let pending := pending_ids ids settled in
          match pending with
          | [] => Some (w, finish_settlement order ids (omap id settled))
          | _ =>
              match sleep_before_next_poll deadline poll_interval w with
              | (w, true) => settle_loop fuel order ids settled deadline poll_interval w
              | (w, false) =>
                  Some (w, failure (settlement_error Timeout
                    ("timed out waiting for trades to settle: " +:+ join pending) true))
              end
          end
      end
  end.

Definition wait_for_order_fill_settlement (fuel : nat) (order : OrderResponse) (timeout poll_interval : Z)
    (w : clock) : option (clock * Result OrderSettlement) :=
  if (timeout <? 0) || (poll_interval <=? 0) then
    Some (w, failure (settlement_error InvalidArgument
      "timeout must not be negative and poll_interval must be positive" false))
  else
    let ids := unique_trade_ids order in
    match ids with
    | [] => Some (w, success (unfilled_settlement order))
    | _ =>
        settle_loop fuel order ids (replicate (length ids) None) (now w + nanoseconds timeout) poll_interval w
    end.
End Settlement.

(** ** The tracker's invariant *)

Record tracker_ok (t : TradeStatusTracker) : Prop := {
  tracker_capacity : (base.size (trades_ t) ≤ capacity_ t)%nat;
  tracker_order : NoDup (arrival_order_ t);
  tracker_dom : list_to_set (arrival_order_ t) = dom (trades_ t);
  tracker_named : "" ∉ arrival_order_ t }.

Lemma tracker_length t : tracker_ok t → length (arrival_order_ t) = base.size (trades_ t).
Proof.
  intros [_ Hn Hd _]. by rewrite <- size_dom, <- Hd, size_list_to_set.
Qed.

Lemma record_ok trade t : (0 < capacity_ t)%nat → tracker_ok t → tracker_ok (record trade t).
Proof.
  intros Hcap Hok. pose proof (tracker_length t Hok) as Hlen. pose proof Hok as [Hc Hn Hd Hb].
  unfold record. case_bool_decide as Hid; [done|].
  destruct (trades_ t !! ev_id trade) as [existing|] eqn:El.
  - destruct (_ && _); [done|]. constructor; cbn; try done.
    + rewrite map_size_insert_Some by eauto. done.
    + by rewrite dom_insert_lookup_L by eauto.
  - assert (Hnew : ev_id trade ∉ arrival_order_ t).
    { intros Hin. apply not_elem_of_dom in El. rewrite <- Hd in El. set_solver. }
    assert (Hn' : NoDup (arrival_order_ t ++ [ev_id trade])).
    { apply NoDup_app. split_and!; [done| |apply NoDup_singleton].
      intros x Hx ->%list_elem_of_singleton. done. }
    assert (Hd' : list_to_set (arrival_order_ t ++ [ev_id trade]) =
                  dom (<[ev_id trade := to_trade trade]> (trades_ t))).
    { rewrite list_to_set_app_L, Hd, dom_insert_L. set_solver. }
    assert (Hs : base.size (<[ev_id trade := to_trade trade]> (trades_ t)) = S (base.size (trades_ t)))
      by (by apply map_size_insert_None).
    assert (Hb' : "" ∉ arrival_order_ t ++ [ev_id trade]) by set_solver.
    destruct (arrival_order_ t ++ [ev_id trade]) as [|oldest rest] eqn:Eo; [by destruct (arrival_order_ t)|].
    rewrite Hs. case_bool_decide as Hfull; [|constructor; cbn; try done; lia].
    apply NoDup_cons in Hn' as [Hold Hrest]. constructor; cbn.
    + rewrite map_size_delete_Some; [lia|]. apply elem_of_dom. rewrite <- Hd'. set_solver.
    + done.
    + rewrite dom_delete_L, <- Hd'. cbn. set_solver.
    + set_solver.
Qed.

Definition track (capacity : nat) (events : list UserTradeEvent) : TradeStatusTracker :=
  foldl (λ t e, record e t) (MkTracker capacity ∅ [] 0 0) events.

Lemma record_capacity e t : capacity_ (record e t) = capacity_ t.
Proof.
  unfold record. case_bool_decide; [done|]. destruct (trades_ t !! _).
  - by destruct (_ && _).
  - destruct (_ ++ _); [done|]. by case_bool_decide.
Qed.

Lemma track_capacity capacity events : capacity_ (track capacity events) = capacity.
Proof. unfold track. apply foldl_inv; [done|]. intros t e _ <-. apply record_capacity. Qed.

Lemma track_ok capacity events : (0 < capacity)%nat → tracker_ok (track capacity events).
Proof.
  intros Hc. induction events as [|e events IH] using rev_ind.
  - constructor; cbn; [rewrite map_size_empty; lia|apply NoDup_nil_2|set_solver|set_solver].
  - unfold track. rewrite foldl_app. cbn. apply record_ok; [|done].
    change (0 < capacity_ (track capacity events))%nat. by rewrite track_capacity.
Qed.

(** The trades a list of events reports. *)
Definition reported (events : list UserTradeEvent) : gset string :=
  list_to_set (filter (λ i, i ≠ "") (ev_id <$> events)).

(** Nothing is evicted while the trades reported fit the capacity. *)
Lemma track_dom capacity events :
  (base.size (reported events) ≤ capacity)%nat → dom (trades_ (track capacity events)) = reported events.
Proof.
  induction events as [|e events IH] using rev_ind; [set_solver|].
  intros Hs. assert (Hrep : reported (events ++ [e]) =
    reported events ∪ (if decide (ev_id e = "") then ∅ else {[ev_id e]})).
  { unfold reported. rewrite fmap_app, filter_app, list_to_set_app_L. f_equal. change (ev_id <$> [e]) with [ev_id e].
    rewrite filter_cons, filter_nil. destruct (decide (ev_id e ≠ "")), (decide (ev_id e = "")); set_solver. }
  rewrite Hrep in *. unfold track in *. rewrite foldl_app. cbn.
  set (t := foldl _ _ events) in *.
  assert (Hsub : (base.size (reported events) ≤ capacity)%nat).
  { etransitivity; [|exact Hs]. apply subseteq_size. set_solver. }
  specialize (IH Hsub). unfold record. case_bool_decide as Hid.
  { rewrite decide_True in * by done. rewrite IH. set_solver. }
  rewrite decide_False in * by done. destruct (trades_ t !! ev_id e) as [existing|] eqn:El.
  - assert (ev_id e ∈ reported events) by (rewrite <- IH; by apply elem_of_dom_2 in El).
    destruct (_ && _); [rewrite IH; set_solver|]. cbn. rewrite dom_insert_L, IH. set_solver.
  - destruct (arrival_order_ t ++ [ev_id e]) as [|oldest rest] eqn:Eo; [by destruct (arrival_order_ t)|].
    rewrite bool_decide_eq_false_2; [cbn; rewrite dom_insert_L, IH; set_solver|].
    assert (Hc : capacity_ t = capacity) by (apply (track_capacity capacity events)).
    rewrite Hc, <- size_dom, dom_insert_L, IH.
    rewrite (union_comm_L {[ev_id e]}). lia.
Qed.

Lemma record_settled e t id trade :
  latest id t = Some trade → is_settled_trade_status (status trade) = true →
  ∀ trade', latest id (record e t) = Some trade' → is_settled_trade_status (status trade') = true.
Proof.
  unfold latest. intros Hl Hs trade'. unfold record. case_bool_decide; [congruence|].
  destruct (trades_ t !! ev_id e) as [existing|] eqn:El.
  - destruct (_ && _) eqn:Ereg; [congruence|]. cbn. destruct (decide (ev_id e = id)) as [Heq|Hne].
    + rewrite Heq, lookup_insert_eq. intros [= <-]. cbn. rewrite Heq, Hl in El. injection El as ->.
      rewrite Hs in Ereg. by apply negb_false_iff in Ereg.
    + rewrite lookup_insert_ne by done. congruence.
  - assert (Hne : ev_id e ≠ id) by congruence.
    destruct (_ ++ _) as [|oldest rest]; [congruence|].
    case_bool_decide; cbn; [|rewrite lookup_insert_ne by done; congruence].
    intros [_ Ht]%lookup_delete_Some. rewrite lookup_insert_ne in Ht by done. congruence.
Qed.

(** The tracker is bounded, and a settled trade stays settled.  It never holds
    more trades than its capacity; and while the trades reported fit the capacity
    it knows every one of them, and one that was CONFIRMED or FAILED stays so
    whatever is reported after. *)
Lemma tracked_trades_final capacity before after id trade :
  (0 < capacity)%nat →
  latest id (track capacity before) = Some trade → is_settled_trade_status (status trade) = true →
  (base.size (trades_ (track capacity (before ++ after))) ≤ capacity)%nat ∧
  ((base.size (reported (before ++ after)) ≤ capacity)%nat →
   dom (trades_ (track capacity (before ++ after))) = reported (before ++ after) ∧
   ∃ trade', latest id (track capacity (before ++ after)) = Some trade' ∧
     is_settled_trade_status (status trade') = true).
Proof.
  intros Hc Hl Hs. split.
  { rewrite <- (track_capacity capacity (before ++ after)) at 2. by apply track_ok. }
  intros Hfit. split; [by apply track_dom|].
  assert (Hin : id ∈ reported before).
  { rewrite <- (track_dom capacity before).
    - apply elem_of_dom. by exists trade.
    - etransitivity; [|exact Hfit]. apply subseteq_size. unfold reported. rewrite fmap_app, filter_app. set_solver. }
  induction after as [|e after IH] using rev_ind; [rewrite app_nil_r; eauto|].
  rewrite app_assoc in *. set (es := before ++ after) in *.
  assert (Hmono : reported es ⊆ reported (es ++ [e])).
  { unfold reported. rewrite fmap_app, filter_app. set_solver. }
  destruct IH as (t1 & Hl1 & Hs1).
  { etransitivity; [|exact Hfit]. by apply subseteq_size. }
  assert (Hdom : id ∈ dom (trades_ (track capacity (es ++ [e])))).
  { rewrite track_dom by done. apply Hmono. unfold es, reported in *. rewrite fmap_app, filter_app. set_solver. }
  apply elem_of_dom in Hdom as [t2 Hl2]. exists t2. split; [done|].
  unfold track in *. rewrite foldl_app in Hl2. cbn in Hl2. exact (record_settled e _ id t1 Hl1 Hs1 t2 Hl2).
Qed.

(** ** Unique lists *)

Lemma append_unique_spec values value :
  NoDup values → "" ∉ values →
  NoDup (append_unique values value) ∧ ("" ∉ append_unique values value) ∧
  ∀ x, x ∈ append_unique values value ↔ x ∈ values ∨ (x = value ∧ value ≠ "").
Proof.
  intros Hn Hb. unfold append_unique. case_bool_decide as H1; cbn [orb].
  { split_and!; [done..|]. naive_solver. }
  case_bool_decide as H2; [split_and!; [done..|]; naive_solver|].
  split_and!; [|set_solver|set_solver].
  apply NoDup_app. split_and!; [done| |apply NoDup_singleton]. intros x Hx ->%list_elem_of_singleton. done.
Qed.

Lemma unique_list_spec values :
  NoDup (foldl append_unique [] values) ∧ ("" ∉ foldl append_unique [] values) ∧
  ∀ x, x ∈ foldl append_unique [] values ↔ x ∈ values ∧ x ≠ "".
Proof.
  induction values as [|v values IH] using rev_ind.
  { split_and!; [apply NoDup_nil_2|set_solver|set_solver]. }
  rewrite foldl_app. cbn. destruct IH as (Hn & Hb & Hx).
  destruct (append_unique_spec _ v Hn Hb) as (Hn' & Hb' & Hx'). split_and!; [done..|].
  intros x. rewrite Hx', Hx. set_solver.
Qed.

Lemma settlement_hashes_spec trades :
  NoDup (settlement_hashes trades) ∧ ("" ∉ settlement_hashes trades) ∧
  ∀ h, h ∈ settlement_hashes trades ↔
    h ≠ "" ∧ ∃ t, t ∈ trades ∧ is_failed t = false ∧ transaction_hash t = h.
Proof.
  unfold settlement_hashes. induction trades as [|t trades IH] using rev_ind.
  { split_and!; [apply NoDup_nil_2|set_solver|set_solver]. }
  rewrite foldl_app. cbn. destruct IH as (Hn & Hb & Hx). destruct (is_failed t) eqn:Ef.
  - split_and!; [done..|]. intros h. rewrite Hx. split; [set_solver|].
    intros (? & t' & [Ht'| ->%list_elem_of_singleton]%elem_of_app & ? & ?); [set_solver|congruence].
  - destruct (append_unique_spec _ (transaction_hash t) Hn Hb) as (Hn' & Hb' & Hx').
    split_and!; [done..|]. intros h. rewrite Hx', Hx. set_solver.
Qed.

(** ** Settlement *)

Section SettlementFacts.
Context `{World} (Hrequest : ∀ n, 0 ≤ request_time n) (Hoversleep : ∀ n, 0 ≤ oversleep n).

(** What is known of the trades settled so far. *)
Definition settled_ok (id : string) (s : option Trade) : Prop :=
  match s with Some t => trade_id t = id ∧ has_settlement_details t = true | None => True end.

Lemma lookup_trade_spec id w :
  let '(w', r) := lookup_trade id w in
  now w ≤ now w' ∧ sleeps w' = sleeps w ∧
  match r with success (Some t) => trade_id t = id | _ => True end.
Proof using Hrequest.
  unfold lookup_trade. destruct (negb authenticated); [by cbn; split_and!|].
  case_bool_decide; [by cbn; split_and!|]. cbn. pose proof (Hrequest (requests_sent w)).
  split; [lia|]. split; [done|]. destruct (trade_page _ _) as [trades|e]; [|done].
  destruct (find _ trades) as [t|] eqn:Ef; [|done]. apply find_some in Ef as [_ Ef].
  by apply bool_decide_eq_true in Ef.
Qed.

Lemma poll_round_spec ids settled w :
  Forall2 settled_ok ids settled →
  let '(w', r) := poll_round ids settled w in
  now w ≤ now w' ∧ sleeps w' = sleeps w ∧
  match r with success settled' => Forall2 settled_ok ids settled' | failure _ => True end.
Proof using Hrequest.
  intros Hf. revert w. induction Hf as [|id s ids settled Hs Hf IH]; intros w; [by split_and!; [cbn; lia|..]|].
  cbn [poll_round].
  assert (Hhere : let '(w1, r1) := match s with
      | Some _ => (w, success s)
      | None => match lookup_trade id w with
          | (w, failure e) => (w, failure e)
          | (w, success trade) => (w, success (t ← trade; if has_settlement_details t then Some t else None))
          end end in
      now w ≤ now w1 ∧ sleeps w1 = sleeps w ∧ match r1 with success s' => settled_ok id s' | _ => True end).
  { destruct s as [t|]; [by split_and!; [lia|..]|]. pose proof (lookup_trade_spec id w) as Hl.
    destruct (lookup_trade id w) as [w1 [trade|e]]; destruct Hl as (? & ? & Ht); split_and!; try done.
    destruct trade as [t|]; cbn; [|done]. destruct (has_settlement_details t) eqn:E; cbn; [done|done]. }
  destruct (match s with Some _ => _ | None => _ end) as [w1 [s1|e]]; destruct Hhere as (Ht1 & Hs1 & Hok1); [|done].
  specialize (IH w1). destruct (poll_round ids settled w1) as [w2 [rest|e]]; destruct IH as (Ht2 & Hs2 & Hok2).
  - split_and!; [lia|congruence|by constructor].
  - split_and!; [lia|congruence|done].
Qed.

Lemma sleep_spec deadline poll w :
  0 < poll →
  let '(w', slept) := sleep_before_next_poll deadline poll w in
  (slept = false → deadline ≤ now w ∧ w' = w) ∧
  (slept = true → now w < deadline ∧ sleeps w' = S (sleeps w) ∧
     (deadline ≤ now w' ∨ now w + nanoseconds poll ≤ now w')).
Proof using Hoversleep.
  intros Hp. unfold sleep_before_next_poll. destruct (Z.leb_spec deadline (now w)); [by split|].
  split; [done|]. intros _. cbn. split; [done|]. split; [done|]. pose proof (Hoversleep (sleeps w)).
  unfold remaining, nanoseconds. pose proof (div_bounds (now w - deadline) 1000000 ltac:(lia)). lia.
Qed.

(** What a finished wait has found. *)
Definition settle_result (order : OrderResponse) (ids : list string) (deadline : Z) (w' : clock)
    (r : Result OrderSettlement) : Prop :=
  match r with
  | success s =>
      trade_id <$> settled_trades s = ids ∧
      Forall (λ t, has_settlement_details t = true) (settled_trades s) ∧
      (∃ t, t ∈ settled_trades s ∧ is_failed t = false) ∧
      transaction_hashes s = settlement_hashes (settled_trades s)
  | failure e => error_code e = Timeout → retryable e = true → deadline ≤ now w' ∨
      ∃ n id, trade_page n id = failure e
  end.

Lemma pending_cons i s ids settled :
  pending_ids (i :: ids) (s :: settled) =
    match s with Some _ => pending_ids ids settled | None => i :: pending_ids ids settled end.
Proof. by destruct s. Qed.

Lemma all_settled ids settled :
  Forall2 settled_ok ids settled → pending_ids ids settled = [] →
  trade_id <$> omap id settled = ids ∧ Forall (λ t, has_settlement_details t = true) (omap id settled).
Proof using Type.
  induction 1 as [|i s ids settled Hs Hf IH]; [by split; [|constructor]|].
  rewrite pending_cons. destruct s as [t|]; [|done]. intros Hp. destruct (IH Hp) as [<- Hall].
  destruct Hs as [<- Ht]. split; [done|by constructor].
Qed.

Lemma poll_round_error ids settled w w' e :
  poll_round ids settled w = (w', failure e) →
  (∃ n id, trade_page n id = failure e) ∨ retryable e = false.
Proof.
  revert settled w. induction ids as [|i ids IH]; intros settled w; [done|].
  destruct settled as [|s settled]; [done|]. cbn [poll_round].
  destruct s as [t|].
  - destruct (poll_round ids settled w) as [w2 [rest|e2]] eqn:Er; [done|]. intros [= <- <-]. by eapply IH.
  - unfold lookup_trade. destruct (negb authenticated); [intros [= <- <-]; by right|].
    case_bool_decide; [intros [= <- <-]; by right|].
    destruct (trade_page (requests_sent w) i) as [trades|e1] eqn:Ep.
    + destruct (poll_round ids settled _) as [w2 [rest|e2]] eqn:Er; [done|]. intros [= <- <-]. by eapply IH.
    + intros [= <- <-]. left. eauto.
Qed.

(** How many more sleeps there can be. *)
Definition rounds_left (deadline poll : Z) (w : clock) : nat :=
  Z.to_nat ((deadline - now w + nanoseconds poll - 1) / nanoseconds poll).

Lemma rounds_left_mono deadline poll w w' :
  0 < poll → now w ≤ now w' → (rounds_left deadline poll w' ≤ rounds_left deadline poll w)%nat.
Proof using Type.
  intros Hp Hle. unfold rounds_left, nanoseconds.
  pose proof (Z.div_le_mono (deadline - now w' + poll * 1000000 - 1) (deadline - now w + poll * 1000000 - 1)
    (poll * 1000000) ltac:(lia) ltac:(lia)). lia.
Qed.

Lemma rounds_left_sleep deadline poll w w' :
  0 < poll → now w < deadline → deadline ≤ now w' ∨ now w + nanoseconds poll ≤ now w' →
  (rounds_left deadline poll w' < rounds_left deadline poll w)%nat.
Proof using Type.
  intros Hp Hlt Hs. unfold rounds_left, nanoseconds in *.
  set (P := poll * 1000000) in *. assert (0 < P) by lia.
  pose proof (div_bounds (deadline - now w + P - 1) P ltac:(lia)) as B.
  pose proof (div_bounds (deadline - now w' + P - 1) P ltac:(lia)) as B'.
  assert (1 ≤ (deadline - now w + P - 1) / P) by nia.
  assert ((deadline - now w' + P - 1) / P < (deadline - now w + P - 1) / P) by nia. lia.
Qed.

Lemma settle_loop_spec order ids settled deadline poll w :
  0 < poll → ids ≠ [] → Forall2 settled_ok ids settled →
  ∃ w' r,
    (∀ fuel, (rounds_left deadline poll w < fuel)%nat →
       settle_loop fuel order ids settled deadline poll w = Some (w', r)) ∧
    (sleeps w' ≤ sleeps w + rounds_left deadline poll w)%nat ∧
    settle_result order ids deadline w' r.
Proof using Hrequest Hoversleep.
  intros Hp Hids. remember (rounds_left deadline poll w) as k eqn:Ek. revert settled w Ek.
  induction k as [k IH] using lt_wf_ind. intros settled w -> Hf.
  pose proof (poll_round_spec ids settled w Hf) as Hround.
  destruct (poll_round ids settled w) as [w1 [settled1|e]] eqn:Er; destruct Hround as (Ht1 & Hs1 & Hf1); cycle 1.
  { exists w1, (failure e). split; [intros [|fuel] ?; [lia|]; cbn; by rewrite Er|]. split; [lia|].
    cbn. intros _ Hre. right. apply poll_round_error in Er as [?|?]; [done|congruence]. }
  destruct (pending_ids ids settled1) as [|p pending] eqn:Epend.
  { exists w1, (finish_settlement order ids (omap id settled1)).
    split; [intros [|fuel] ?; [lia|]; cbn; by rewrite Er, Epend|]. split; [lia|].
    destruct (all_settled _ _ Hf1 Epend) as [Hmap Hall]. unfold finish_settlement.
    destruct (forallb is_failed (omap id settled1)) eqn:Efail; [done|]. cbn. split_and!; try done.
    apply not_true_iff_false in Efail. rewrite forallb_forall in Efail.
    destruct (decide (Exists (λ t, is_failed t = false) (omap id settled1))) as [Hex|Hno].
    - apply Exists_exists in Hex as (t & ? & ?). eauto.
    - exfalso. apply Efail. intros t Ht. destruct (is_failed t) eqn:E; [done|]. exfalso. apply Hno.
      apply Exists_exists. exists t. by rewrite list_elem_of_In. }
  pose proof (sleep_spec deadline poll w1 Hp) as Hsl.
  destruct (sleep_before_next_poll deadline poll w1) as [w2 [|]] eqn:Esl; destruct Hsl as [Hno Hyes].
  - destruct (Hyes eq_refl) as (Hlt & Hs2 & Hadv).
    pose proof (rounds_left_sleep deadline poll w1 w2 Hp Hlt Hadv).
    pose proof (rounds_left_mono deadline poll w w1 Hp Ht1).
    destruct (IH (rounds_left deadline poll w2) ltac:(lia) settled1 w2 eq_refl Hf1) as (w' & r & Hrun & Hsl' & Hres).
    exists w', r. split; [|split; [lia|done]]. intros [|fuel] ?; [lia|]. cbn. rewrite Er, Epend, Esl.
    apply Hrun. lia.
  - destruct (Hno eq_refl) as (Hdl & ->). eexists w1, _.
    split; [intros [|fuel] ?; [lia|]; cbn; rewrite Er, Epend, Esl; reflexivity|]. split; [lia|].
    cbn. intros _ _. by left.
Qed.

(** Waiting for settlement ends and tells the truth.  With sane arguments the
    wait returns, after at most as many sleeps as poll intervals fit the timeout;
    a success lists, in order, every fill of the order with its final status, at
    least one of which did not fail, and the transaction hashes are exactly the
    hashes of those; its own timeout error comes only after the deadline. *)
Lemma settlement_returns order timeout poll w :
  0 ≤ timeout → 0 < poll → unique_trade_ids order ≠ [] →
  let ids := unique_trade_ids order in
  let deadline := now w + nanoseconds timeout in
  ∃ w' r,
    (∀ fuel, (Z.to_nat (timeout / poll) + 1 < fuel)%nat →
       wait_for_order_fill_settlement fuel order timeout poll w = Some (w', r)) ∧
    (sleeps w' ≤ sleeps w + Z.to_nat (timeout / poll) + 1)%nat ∧
    settle_result order ids deadline w' r ∧
    (∀ s h, r = success s → h ∈ transaction_hashes s ↔
       h ≠ "" ∧ ∃ t, t ∈ settled_trades s ∧ is_failed t = false ∧ transaction_hash t = h).
Proof using Hrequest Hoversleep.
  intros Ht Hp Hids ids deadline.
  destruct (settle_loop_spec order ids (replicate (length ids) None) deadline poll w Hp Hids)
    as (w' & r & Hrun & Hsl & Hres).
  { apply Forall2_replicate_r; [done|]. by apply Forall_true. }
  assert (Hb : (rounds_left deadline poll w ≤ Z.to_nat (timeout / poll) + 1)%nat).
  { unfold rounds_left, deadline, nanoseconds.
    pose proof (div_bounds timeout poll Hp). pose proof (Z.div_pos timeout poll).
    pose proof (div_bounds (now w + timeout * 1000000 - now w + poll * 1000000 - 1) (poll * 1000000) ltac:(lia)).
    enough ((now w + timeout * 1000000 - now w + poll * 1000000 - 1) / (poll * 1000000) ≤ timeout / poll + 1) by lia.
    nia. }
  exists w', r. split_and!; [|lia|done|].
  - intros fuel Hfuel. unfold wait_for_order_fill_settlement.
    assert ((timeout <? 0) || (poll <=? 0) = false) as -> by lia. fold ids.
    destruct ids as [|i ids'] eqn:E; [done|]. rewrite <- E in *. apply Hrun. lia.
  - intros s h ->. destruct Hres as (_ & _ & _ & ->). apply settlement_hashes_spec.
Qed.
End SettlementFacts.

(** ** Witnesses *)

Definition sample_event (id status hash : string) : UserTradeEvent :=
  MkUserTrade id "" "" "" "" "" "" status "" "" "" "" "" "" "" hash None [] "" "".

Lemma tracked_trades_final_witness :
  let before := [sample_event "t1" "TRADE_STATUS_MATCHED" ""; sample_event "t1" "confirmed" "0x1"] in
  let after := [sample_event "t2" "MINED" ""; sample_event "t1" "MATCHED" ""] in
  let t := track 2 (before ++ after) in
  (base.size (trades_ t) ≤ 2)%nat ∧
  (dom (trades_ t) = {["t1"; "t2"]} ∧
   ∃ trade, latest "t1" t = Some trade ∧ is_settled_trade_status (status trade) = true).
Proof.
  intros before after t.
  destruct (tracked_trades_final 2 before after "t1" (to_trade (sample_event "t1" "confirmed" "0x1")))
    as [Hs Hfit]; [lia|by vm_compute|by vm_compute|].
  split; [exact Hs|]. destruct Hfit as [Hd Hf]; [by vm_compute|]. split; [|exact Hf].
  etransitivity; [exact Hd|]. by vm_compute.
Defined.

(** A trade that is confirmed from the third request on; each request takes 5 ms
    and each sleep lasts 1 ms too long. *)
Definition sample_world : World := {|
  authenticated := true;
  trade_page n id := success [to_trade (sample_event id (if decide (n < 2)%nat then "MINED" else "CONFIRMED") "0xh")];
  request_time _ := 5000000;
  oversleep _ := 1000000 |}.

Definition sample_order : OrderResponse := MkOrderResponse true "" "o1" [] ["t1"; ""; "t1"] "matched" "" "".
Definition sample_wait (fuel : nat) :=
  @wait_for_order_fill_settlement sample_world fuel sample_order 1000 100 (MkClock 7 0 0).

Lemma settlement_returns_witness :
  (∃ w' r, (∀ fuel, (11 < fuel)%nat → sample_wait fuel = Some (w', r)) ∧ (sleeps w' ≤ 11)%nat ∧
     @settle_result sample_world sample_order ["t1"] (7 + nanoseconds 1000) w' r) ∧
  match sample_wait 12 with
  | Some (w', success s) => transaction_hashes s = ["0xh"] ∧ sleeps w' = 2%nat
  | _ => False
  end.
Proof.
  split; [|by vm_compute].
  assert (Hr : ∀ n, 0 ≤ @request_time sample_world n) by (intros n; cbn; lia).
  assert (Ho : ∀ n, 0 ≤ @oversleep sample_world n) by (intros n; cbn; lia).
  destruct (@settlement_returns sample_world Hr Ho sample_order 1000 100 (MkClock 7 0 0))
    as (w' & r & Hrun & Hsl & Hres & _); [lia|lia|done|].
  exists w', r. split_and!; [exact Hrun|exact Hsl|exact Hres].
Defined.
