(* ===== verification/TrackerSettlement.v ===== *)
(** * Settlement by the trade status tracker
    (src/clob_order_settlement.cpp, trade_status_tracker.cpp)

    [wait_for_order_fill_settlement] over a [TradeStatusTracker] that another thread
    feeds with the events of the account stream.  The tracker is a parameter: what
    each read of it finds; so is how long a wait for a change lasts.  The requests
    that reconcile it with the server are those of [TradeSettlement]. *)
From Stdlib Require Import Ascii String.
From S2P Require Import Prelude Text Sdk TradeSettlement.

#[local] Open Scope Z_scope.

(** What the [n]-th read of the tracker finds, and how much longer than it has to
    the wait that makes it lasts. *)
Class Tracked := { tracker_at : nat → TradeStatusTracker; late : nat → Z }.

Record watch := MkWatch { w_clock : clock; reads : nat }.

Section Settlement.
Context `{World, Tracked}.

Definition read (w : watch) : watch * TradeStatusTracker := (MkWatch (w_clock w) (S (reads w)), tracker_at (reads w)).
Definition set_clock (c : clock) (w : watch) : watch := MkWatch c (reads w).

(** [wait_for_change]: until the version is another one, or [until]. *)
Definition wait_for_change (seen until : Z) (w : watch) : watch :=
  let late := late (reads w) in
  let '(w, t) := read w in
  let c := w_clock w in
  let wake := if version_ t =? seen then Z.max (now c) until else now c in
  set_clock (MkClock (wake + late) (requests_sent c) (S (sleeps c))) w.

(** One look at the trades still open: what is settled now, for which a hash was
    asked for, and whether one is to be asked for. *)
Fixpoint observe (ids : list string) (settled : list (option Trade)) (requested : list bool) (w : watch) :
    watch * (list (option Trade) * list bool * bool) :=
  match ids, settled, requested with
  | id :: ids, s :: settled, r :: requested =>
      let '(w, (s, r, needs)) :=
        match s with
        | Some _ => (w, (s, r, false))
        | None =>
            let '(w, t) := read w in
            (w, match latest id t with
                | Some trade =>
                    if has_settlement_details trade then (Some trade, r, false)
                    else if is_settled_trade_status (status trade) && negb r then (None, true, true) else (None, r, false)
                | None => (None, r, false)
                end)
        end in
      let '(w, (settled, requested, more)) := observe ids settled requested w in
      (w, (s :: settled, r :: requested, needs || more))
  | _, _, _ => (w, ([], [], false))
  end.

Fixpoint track_loop (fuel : nat) (order : OrderResponse) (ids : list string) (settled : list (option Trade))
    (requested : list bool) (deadline interval next_reconcile reconciled : Z) (w : watch) :
    option (watch * Result OrderSettlement) :=
  match fuel with
  | O => None
  | S fuel =>
      let '(w, t) := read w in
      let seen := version_ t in
      let '(w, (settled, requested, needs_hash_lookup)) := observe ids settled requested w in
      let finish settled w := Some (w, finish_settlement order ids (omap id settled)) in
      match pending_ids ids settled with
      | [] => finish settled w
      | _ =>
          let time := now (w_clock w) in
          let '(w, t) := read w in
          let recoveries := recoveries_ t in
          if needs_hash_lookup || (next_reconcile <=? time) || (deadline <=? time) || negb (recoveries =? reconciled) then
            match poll_round ids settled (w_clock w) with
            | (c, failure e) => Some (set_clock c w, failure e)
            | (c, success settled) =>
                match pending_ids ids settled with
                | [] => finish settled (set_clock c w)
                | pending =>
                    if deadline <=? now c then
                      Some (set_clock c w, failure (settlement_error Timeout
                        ("timed out waiting for trades to settle: " +:+ join pending) true))
                    else
                      let next := now c + nanoseconds interval in
                      track_loop fuel order ids settled requested deadline interval next recoveries
                        (wait_for_change seen (Z.min deadline next) (set_clock c w))
                end
            end
          else
            track_loop fuel order ids settled requested deadline interval next_reconcile reconciled
              (wait_for_change seen (Z.min deadline next_reconcile) w)
      end
  end.

Definition wait_for_tracked_settlement (fuel : nat) (order : OrderResponse) (timeout reconcile_interval : Z) (w : watch) :
    option (watch * Result OrderSettlement) :=
  if (timeout <? 0) || (reconcile_interval <=? 0) then
    Some (w, failure (settlement_error InvalidArgument
      "timeout must not be negative and reconcile_interval must be positive" false))
  else
    let ids := unique_trade_ids order in
    match ids with
    | [] => Some (w, success (unfilled_settlement order))
    | _ =>
        let deadline := now (w_clock w) + nanoseconds timeout in
        let next := now (w_clock w) + nanoseconds reconcile_interval in
        let '(w, t) := read w in
        track_loop fuel order ids (replicate (length ids) None) (replicate (length ids) false) deadline reconcile_interval
          next (recoveries_ t) w
    end.
End Settlement.

(** ** The tracker names its trades *)

Definition names_trades (t : TradeStatusTracker) : Prop := ∀ id trade, latest id t = Some trade → trade_id trade = id.

Lemma record_names e t : names_trades t → names_trades (record e t).
Proof.
  intros Hn id trade. unfold latest, record. case_bool_decide; [apply Hn|].
  assert (Hi : ∀ m : gmap string Trade, (∀ i x, m !! i = Some x → trade_id x = i) →
    ∀ i x, <[ev_id e := to_trade e]> m !! i = Some x → trade_id x = i)
    by (intros m Hm i x [[<- <-]|[_ Hx]]%lookup_insert_Some; [done|by apply Hm]).
  destruct (trades_ t !! ev_id e) as [existing|].
  - destruct (_ && _); [apply Hn|]. cbn. by apply Hi.
  - destruct (_ ++ _); [apply Hn|]. case_bool_decide; cbn; [|by apply Hi].
    intros [_ Hx]%lookup_delete_Some. revert Hx. by apply Hi.
Qed.

Lemma track_names capacity events : names_trades (track capacity events).
Proof. unfold track. apply foldl_inv; [done|]. intros t e _. apply record_names. Qed.

(** ** The wait ends *)

Section Facts.
Context `{World, Tracked}.
Context (Hrequest : ∀ n, 0 ≤ request_time n) (Hlate : ∀ n, 0 < late n) (Hnames : ∀ n, names_trades (tracker_at n)).

Lemma observe_spec ids settled requested w :
  Forall2 settled_ok ids settled → length requested = length ids →
  let '(w', (settled', requested', _)) := observe ids settled requested w in
  w_clock w' = w_clock w ∧ Forall2 settled_ok ids settled' ∧ length requested' = length ids.
Proof using Hnames.
  intros Hf. revert requested w. induction Hf as [|id s ids settled Hs Hf IH]; intros [|r requested] w Hl; try done.
  injection Hl as Hl. cbn [observe].
  set (here := match s with Some _ => _ | None => _ end).
  assert (Hhere : w_clock here.1 = w_clock w ∧ settled_ok id here.2.1.1).
  { unfold here. destruct s as [t|]; [done|]. cbn. split; [done|]. destruct (latest id _) as [trade|] eqn:E; [|done].
    destruct (has_settlement_details trade) eqn:Ed; [by split; [eapply Hnames|]|]. by destruct (_ && _). }
  destruct here as [w1 [[s1 r1] n1]]. cbn in Hhere. destruct Hhere as [Hc Hok].
  specialize (IH requested w1 Hl). destruct (observe ids settled requested w1) as [w2 [[settled2 requested2] n2]].
  destruct IH as (Hc2 & Hf2 & Hl2). split_and!; [congruence|by constructor|cbn; congruence].
Qed.

Lemma wait_later seen until w : now (w_clock w) < now (w_clock (wait_for_change seen until w)).
Proof using Hlate. unfold wait_for_change. cbn. pose proof (Hlate (reads w)). destruct (_ =? _); lia. Qed.

Lemma finish_result order ids deadline settled c :
  Forall2 settled_ok ids settled → pending_ids ids settled = [] →
  settle_result order ids deadline c (finish_settlement order ids (omap id settled)).
Proof using Type.
  intros Hf Hp. destruct (all_settled _ _ Hf Hp) as [Hmap Hall]. unfold finish_settlement.
  destruct (forallb is_failed (omap id settled)) eqn:Efail; [done|]. cbn. split_and!; try done.
  destruct (decide (Exists (λ t, is_failed t = false) (omap id settled))) as [Hex|Hno].
  - apply Exists_exists in Hex as (t & ? & ?). eauto.
  - apply not_true_iff_false in Efail. destruct Efail. apply forallb_forall. intros t Ht.
    destruct (is_failed t) eqn:E; [done|]. destruct Hno. apply Exists_exists. exists t. by rewrite list_elem_of_In.
Qed.

Lemma track_loop_spec order ids settled requested deadline interval next reconciled w :
  Forall2 settled_ok ids settled → length requested = length ids →
  ∃ w' r,
    (∀ fuel, (Z.to_nat (deadline - now (w_clock w)) < fuel)%nat →
       track_loop fuel order ids settled requested deadline interval next reconciled w = Some (w', r)) ∧
    settle_result order ids deadline (w_clock w') r.
Proof using Hrequest Hlate Hnames.
  remember (Z.to_nat (deadline - now (w_clock w))) as k eqn:Ek. revert settled requested next reconciled w Ek.
  induction k as [k IH] using lt_wf_ind. intros settled requested next reconciled w -> Hf Hl.
  (* one turn of the loop: what is not a result is a turn later *)
  assert (Hturn : ∀ settled' requested' next' reconciled' seen until w1,
    now (w_clock w) ≤ now (w_clock w1) → now (w_clock w1) < deadline → Forall2 settled_ok ids settled' →
    length requested' = length ids →
    ∃ w' r,
      (∀ fuel, (Z.to_nat (deadline - now (w_clock w)) ≤ fuel)%nat →
         track_loop fuel order ids settled' requested' deadline interval next' reconciled' (wait_for_change seen until w1) =
         Some (w', r)) ∧
      settle_result order ids deadline (w_clock w') r).
  { intros settled' requested' next' reconciled' seen until w1 Hle Hlt Hf' Hl'.
    pose proof (wait_later seen until w1) as Hw.
    destruct (IH (Z.to_nat (deadline - now (w_clock (wait_for_change seen until w1)))) ltac:(lia)
      settled' requested' next' reconciled' _ eq_refl Hf' Hl') as (w' & r & Hrun & Hres).
    exists w', r. split; [|done]. intros fuel Hfuel. apply Hrun. lia. }
  pose proof (observe_spec ids settled requested (MkWatch (w_clock w) (S (reads w))) Hf Hl) as Hobs.
  destruct (observe ids settled requested (MkWatch (w_clock w) (S (reads w)))) as [w1 [[settled1 requested1] needs]] eqn:Eo.
  destruct Hobs as (Hc1 & Hf1 & Hl1). cbn in Hc1.
  destruct (pending_ids ids settled1) as [|p pending] eqn:Epend.
  { eexists _, _. split; [intros [|fuel] ?; [lia|]; cbn; rewrite Eo, Epend; reflexivity|]. by apply finish_result. }
  destruct (needs || (next <=? now (w_clock w1)) || (deadline <=? now (w_clock w1)) ||
            negb (recoveries_ (tracker_at (reads w1)) =? reconciled)) eqn:Eb; cycle 1.
  { destruct (Hturn settled1 requested1 next reconciled (version_ (tracker_at (reads w))) (Z.min deadline next)
      (MkWatch (w_clock w1) (S (reads w1)))) as (w' & r & Hrun & Hres); [cbn; by rewrite Hc1|cbn; bools; lia|done..|].
    exists w', r. split; [|exact Hres]. intros [|fuel] Hfuel; [lia|]. cbn. rewrite Eo, Epend. cbn. rewrite Eb. apply Hrun. lia. }
  pose proof (poll_round_spec Hrequest ids settled1 (w_clock w1) Hf1) as Hround.
  destruct (poll_round ids settled1 (w_clock w1)) as [c [settled2|e]] eqn:Er; destruct Hround as (Ht & _ & Hf2); cycle 1.
  { eexists _, _. split; [intros [|fuel] ?; [lia|]; cbn; rewrite Eo, Epend; cbn; rewrite Eb, Er; reflexivity|].
    cbn. intros _ Hre. right. apply poll_round_error in Er as [?|?]; [done|congruence]. }
  destruct (pending_ids ids settled2) as [|p2 pending2] eqn:Epend2.
  { eexists _, _. split; [intros [|fuel] ?; [lia|]; cbn; rewrite Eo, Epend; cbn; rewrite Eb, Er, Epend2; reflexivity|].
    by apply finish_result. }
  destruct (Z.leb_spec deadline (now c)) as [Hd|Hd].
  { eexists _, _. split; [intros [|fuel] ?; [lia|]; cbn; rewrite Eo, Epend; cbn; rewrite Eb, Er, Epend2;
      rewrite (proj2 (Z.leb_le deadline (now c)) Hd); reflexivity|]. cbn. intros _ _. by left. }
  destruct (Hturn settled2 requested1 (now c + nanoseconds interval) (recoveries_ (tracker_at (reads w1)))
    (version_ (tracker_at (reads w))) (Z.min deadline (now c + nanoseconds interval))
    (set_clock c (MkWatch (w_clock w1) (S (reads w1))))) as (w' & r & Hrun & Hres); [cbn; by rewrite <- Hc1|done..|].
  exists w', r. split; [|exact Hres]. intros [|fuel] Hfuel; [lia|]. cbn. rewrite Eo, Epend. cbn. rewrite Eb, Er, Epend2.
  rewrite (proj2 (Z.leb_gt deadline (now c)) Hd). apply Hrun. lia.
Qed.

(** Waiting on the tracker ends and tells the truth, however its updates and the
    answers of the server interleave: with sane arguments the wait returns, a
    success lists every fill of the order with its final status, at least one of
    which did not fail, and its own timeout error comes only after the deadline. *)
Lemma tracked_settlement_returns order timeout interval w :
  0 ≤ timeout → 0 < interval → unique_trade_ids order ≠ [] →
  ∃ w' r,
    (∀ fuel, (Z.to_nat (nanoseconds timeout) < fuel)%nat →
       wait_for_tracked_settlement fuel order timeout interval w = Some (w', r)) ∧
    settle_result order (unique_trade_ids order) (now (w_clock w) + nanoseconds timeout) (w_clock w') r.
Proof using Hrequest Hlate Hnames.
  intros Ht Hi Hids. set (ids := unique_trade_ids order) in *. set (deadline := now (w_clock w) + nanoseconds timeout).
  destruct (track_loop_spec order ids (replicate (length ids) None) (replicate (length ids) false) deadline interval
    (now (w_clock w) + nanoseconds interval) (recoveries_ (tracker_at (reads w))) (MkWatch (w_clock w) (S (reads w))))
    as (w' & r & Hrun & Hres).
  { apply Forall2_replicate_r; [done|]. by apply Forall_true. }
  { by rewrite length_replicate. }
  exists w', r. split; [|done]. intros fuel Hfuel. unfold wait_for_tracked_settlement.
  assert ((timeout <? 0) || (interval <=? 0) = false) as -> by lia. fold ids.
  destruct ids as [|i rest] eqn:E; [done|]. rewrite <- E in *. cbn. apply Hrun. cbn. subst deadline. lia.
Qed.
End Facts.

(** ** An example *)

(** The account stream reports a trade matched and then, from the fifth read of the
    tracker on, confirmed without its hash; the server knows the hash. *)
Definition sample_tracked : Tracked := {|
  tracker_at n := track 4 (if decide (n < 4)%nat then [sample_event "t1" "MATCHED" ""]
                           else [sample_event "t1" "MATCHED" ""; sample_event "t1" "CONFIRMED" ""]);
  late _ := 1 |}.

Definition confirming_world : World := {|
  authenticated := true;
  trade_page n id := success [to_trade (sample_event id "CONFIRMED" "0xh")];
  request_time _ := 5000000;
  oversleep _ := 0 |}.

(** It is told of the change, asks the server once, and returns long before its deadline. *)
Example tracked_settlement_asks_for_hash :
  match @wait_for_tracked_settlement confirming_world sample_tracked 5 sample_order 1000 400 (MkWatch (MkClock 7 0 0) 0) with
  | Some (w, success s) =>
      transaction_hashes s = ["0xh"] ∧ requests_sent (w_clock w) = 1%nat ∧ now (w_clock w) < 7 + nanoseconds 1000
  | _ => False
  end.
Proof. vm_compute. split_and!; reflexivity. Qed.
