(* ===== verification/RestParsing.v ===== *)
(** * Reading REST responses
    (src/rest_numeric.hpp, rest_orderbook_parsing.hpp, clob_mutation_parsing.cpp,
    clob_books.cpp)

    Numbers, order books and the answers to orders and cancellations, read off the
    JSON values of [Sdk].  The JSON library and [strtod] are parameters; the
    library's own exceptions, which the callers only ever catch as
    [std::exception], are [runtime_error]s here. *)
From Stdlib Require Import Ascii String Floats.SpecFloat.
From S2P Require Import Prelude Text Float64 OrderAmounts Sdk TradeSettlement Orderbook.

#[local] Open Scope Z_scope.

(** [what()] of the library's exceptions, and [strtod] in the C locale: [None]
    when it reports ERANGE. *)
Class JsonRuntime := {
  parse_what : string → string;
  missing_what : string → string;
  strtod : string → option double }.

Definition is_object (j : json) : bool := match j with JObject _ => true | _ => false end.

Section Reading.
Context `{JsonLibrary, JsonRuntime}.

(** [json::parse(text)] and [value.at(key)]. *)
Definition parse_json (text : string) : res json :=
  match json_parse text with Some j => Ok j | None => Throw (runtime_error (parse_what text)) end.
Definition json_at (j : json) (key : string) : res json :=
  match json_field j key with Some v => Ok v | None => Throw (runtime_error (missing_what key)) end.

(** ** Numbers *)

(** How many digits there are, and what follows them. *)
Fixpoint skip_digits (cs : list ascii) : nat * list ascii :=
  match cs with
  | c :: cs' => if is_decimal c then let '(n, rest) := skip_digits cs' in (S n, rest) else (0%nat, cs)
  | [] => (0%nat, [])
  end.

Definition skip_sign (cs : list ascii) : list ascii :=
  match cs with
  | c :: cs' => if bool_decide (c = "+"%char) || bool_decide (c = "-"%char) then cs' else cs
  | [] => []
  end.

Definition skip_fraction (cs : list ascii) : nat * list ascii :=
  match cs with
  | c :: cs' => if bool_decide (c = "."%char) then skip_digits cs' else (0%nat, cs)
  | [] => (0%nat, [])
  end.

Definition ends_after_exponent (cs : list ascii) : bool :=
  match cs with
  | c :: cs' =>
      if bool_decide (c = "e"%char) || bool_decide (c = "E"%char) then
        let '(n, rest) := skip_digits (skip_sign cs') in
        negb (bool_decide (n = 0%nat)) && bool_decide (rest = [])
      else false
  | [] => true
  end.

Definition is_decimal_number (text : string) : bool :=
  let '(integer_digits, cs) := skip_digits (skip_sign (chars text)) in
  let '(fraction_digits, cs) := skip_fraction cs in
  if bool_decide (integer_digits = 0%nat) && bool_decide (fraction_digits = 0%nat) then false
  else ends_after_exponent cs.

Definition decimal_string_to_double (text : string) : res double :=
  let incomplete := Throw (invalid_argument "number must be a complete decimal representation") in
  if is_decimal_number text then
    match strtod text with Some number => Ok number | None => incomplete end
  else incomplete.

Definition strict_json_number (value : json) : res double :=
  number ←
    match value with
    | JString text => decimal_string_to_double text
    | JNumber number => Ok number
    | JInteger number => Ok (of_Z binary64 number)
    | _ => Throw (invalid_argument "number must be a JSON number or numeric string")
    end;
  require (is_finite number) (invalid_argument "number must be finite");;
  Ok number.

Definition json_probability (value : json) : res double :=
  number ← strict_json_number value;
  require (negb (flt number fzero || flt fone number)) (out_of_range "probability must be in [0, 1]");;
  Ok number.

Definition json_orderbook_price (value : json) : res double :=
  number ← strict_json_number value;
  require (negb (fle number fzero || fle fone number)) (out_of_range "orderbook price must be in (0, 1)");;
  Ok number.

Definition json_nonnegative_number (value : json) : res double :=
  number ← strict_json_number value;
  require (negb (flt number fzero)) (out_of_range "number must be nonnegative");;
  Ok number.

Definition json_scalar_string (value : json) (fallback : string) : string :=
  match value with JNull => fallback | JString s => s | _ => json_dump value end.

(** ** Order books *)

Fixpoint rest_levels (values : list json) : res (list PriceLevel) :=
  match values with
  | [] => Ok []
  | value :: values' =>
      require (is_object value) (invalid_argument "orderbook level must be an object");;
      price ← json_at value "price" ≫= json_orderbook_price;
      size ← json_at value "size" ≫= json_nonnegative_number;
      levels ← rest_levels values';
      Ok (MkPriceLevel price size :: levels)
  end.

Fixpoint adjacent_duplicate (prices : list double) : bool :=
  match prices with
  | x :: ((y :: _) as prices') => feq x y || adjacent_duplicate prices'
  | _ => false
  end.

Section Book.
Context `{StdSort}.

Definition append_rest_levels (levels : list PriceLevel) (values : json) : res (list PriceLevel) :=
  match values with
  | JArray items =>
      added ← rest_levels items;
      let prices := std_sort flt (map price added) in
      if adjacent_duplicate prices
      then Throw (invalid_argument "orderbook contains a duplicate price level")
      else Ok (levels ++ added)
  | _ => Throw (invalid_argument "orderbook levels must be an array")
  end.

Definition parse_rest_orderbook (now_ns : Z) (parsed : json) (expected_asset_id : string) : res Orderbook :=
  require (is_object parsed) (invalid_argument "orderbook must be an object");;
  match json_field parsed "asset_id" with
  | Some (JString asset_id) =>
      match json_field parsed "bids", json_field parsed "asks" with
      | Some bids, Some asks =>
          require (negb (bool_decide (asset_id = "") ||
                         (negb (bool_decide (expected_asset_id = "")) &&
                          negb (bool_decide (asset_id = expected_asset_id)))))
            (invalid_argument "orderbook asset_id does not match request");;
          b ← append_rest_levels [] bids;
          a ← append_rest_levels [] asks;
          Ok (MkOrderbook asset_id b a now_ns)
      | _, _ => Throw (invalid_argument "orderbook requires bids and asks arrays")
      end
  | _ => Throw (invalid_argument "orderbook requires a string asset_id")
  end.
End Book.

Definition book_tick_size (book : json) : option string :=
  match json_field book "tick_size" with
  | None | Some JNull => None
  | Some value =>
      let tick_size := json_scalar_string value "" in
      if is_ok (rounding_config_for_tick_size tick_size) then Some tick_size else None
  end.

Definition book_neg_risk (book : json) : option bool :=
  match json_field book "neg_risk" with Some (JBool b) => Some b | _ => None end.

(** ** Orders and cancellations *)

Definition required_field (object : json) (name : string) : res json :=
  match json_field object name with
  | Some v => Ok v
  | None => Throw (invalid_argument ("response is missing " +:+ name))
  end.

Definition must_be_string {A} (name : string) : res A :=
  Throw (invalid_argument ("response field " +:+ name +:+ " must be a string")).

Definition required_string (object : json) (name : string) : res string :=
  value ← required_field object name;
  match value with JString s => Ok s | _ => must_be_string name end.

Definition optional_string (object : json) (name target : string) : res string :=
  match json_field object name with
  | None => Ok target
  | Some (JString s) => Ok s
  | Some _ => must_be_string name
  end.

Definition optional_defaulted_field (object : json) (name : string) (alias : option string) : res (option json) :=
  match json_field object name, alias ≫= json_field object with
  | Some _, Some _ =>
      Throw (invalid_argument ("response contains both " +:+ name +:+ " and " +:+ default "" alias))
  | None, None | Some JNull, None | None, Some JNull => Ok None
  | Some v, None | None, Some v => Ok (Some v)
  end.

Fixpoint all_strings (bad : exn) (values : list json) : res (list string) :=
  match values with
  | [] => Ok []
  | JString s :: values' => rest ← all_strings bad values'; Ok (s :: rest)
  | _ => Throw bad
  end.

Definition optional_string_array (object : json) (name alias : string) : res (list string) :=
  values ← optional_defaulted_field object name (Some alias);
  match values with
  | None => Ok []
  | Some (JArray items) => all_strings (invalid_argument (name +:+ " entries must be strings")) items
  | Some _ => Throw (invalid_argument ("response field " +:+ name +:+ " must be an array"))
  end.

Definition parse_order_response_json_strict (json_text : string) : res OrderResponse :=
  parsed ← parse_json json_text;
  require (is_object parsed) (invalid_argument "order response must be an object");;
  accepted ← required_field parsed "success";
  match accepted with
  | JBool accepted =>
      order_id ← required_string parsed "orderID";
      status ← required_string parsed "status";
      error_msg ← optional_string parsed "errorMsg" "";
      taking ← optional_string parsed "takingAmount" "";
      making ← optional_string parsed "makingAmount" "";
      require (negb (accepted && (bool_decide (order_id = "") || bool_decide (status = ""))))
        (invalid_argument "successful order response requires non-empty orderID and status");;
      hashes ← optional_string_array parsed "transactionsHashes" "transactionHashes";
      trades ← optional_string_array parsed "tradeIDs" "tradeIds";
      Ok (MkOrderResponse accepted error_msg order_id hashes trades status taking making)
  | _ => Throw (invalid_argument "response field success must be a boolean")
  end.

Record ParsedCancellationResponse := MkCancellation {
  canceled : gset string;
  not_canceled : gmap string string }.

(** [emplace] keeps the first value of a key. *)
Fixpoint failure_reasons (fields : list (string * json)) (reasons : gmap string string) :
    res (gmap string string) :=
  match fields with
  | [] => Ok reasons
  | (key, JString reason) :: fields' =>
      failure_reasons fields' (if bool_decide (is_Some (reasons !! key)) then reasons else <[key := reason]> reasons)
  | _ => Throw (invalid_argument "cancellation failure reasons must be strings")
  end.

Definition parse_cancellation_response_json (json_text : string) : res ParsedCancellationResponse :=
  parsed ← parse_json json_text;
  require (is_object parsed) (invalid_argument "cancellation response must be an object");;
  canceled ← optional_defaulted_field parsed "canceled" None;
  not_canceled ← optional_defaulted_field parsed "notCanceled" (Some "not_canceled");
  require (match canceled with None | Some (JArray _) => true | _ => false end)
    (invalid_argument "response field canceled must be an array");;
  require (match not_canceled with None | Some (JObject _) => true | _ => false end)
    (invalid_argument "response field notCanceled must be an object");;
  ids ← match canceled with
        | Some (JArray items) => all_strings (invalid_argument "canceled order IDs must be strings") items
        | _ => Ok []
        end;
  reasons ← match not_canceled with Some (JObject fields) => failure_reasons fields ∅ | _ => Ok ∅ end;
  Ok (MkCancellation (list_to_set ids) reasons).

Definition confirms_cancellations (response : ParsedCancellationResponse) (expected : list string) : bool :=
  bool_decide (not_canceled response = ∅) && forallb (λ id, bool_decide (id ∈ canceled response)) expected.

Definition confirms_bulk_cancellation (response : HttpResponse) : bool :=
  response_ok response &&
  match parse_cancellation_response_json (body response) with
  | Ok parsed => bool_decide (not_canceled parsed = ∅)
  | Throw _ => false
  end.
End Reading.

(** ** Order books *)

(** A level the parser accepts. *)
Definition rest_level_ok (l : PriceLevel) : bool :=
  is_finite (price l) && flt fzero (price l) && flt (price l) fone &&
  is_finite (size l) && negb (flt (size l) fzero).

Lemma nle_swap x y : is_finite x = true → is_finite y = true → fle x y = false → flt y x = true.
Proof. intros. by apply nle_flt. Qed.

Lemma adjacent_distinct ps :
  Forall (λ x, is_finite x = true) ps → is_sorted flt ps = true → adjacent_duplicate ps = false →
  NoDup (map float_key ps).
Proof.
  intros Hf Hs. rewrite Forall_forall in Hf. apply is_sorted_strongly in Hs;
    [|intros x y z Hx%Hf Hy%Hf Hz%Hf; by apply nlt_trans].
  revert Hf. induction Hs as [|x ps Hs IH Hx]; intros Hf Ha; [constructor|].
  assert (Hps : ∀ y, y ∈ ps → is_finite y = true) by (intros; apply Hf; set_solver).
  assert (Hfx : is_finite x = true) by (apply Hf; set_solver).
  destruct ps as [|y ps]; [repeat constructor; set_solver|].
  cbn in Ha. apply orb_false_iff in Ha as [Hxy Ha]. cbn. constructor; [|by apply IH].
  assert (Hlt : flt x y = true).
  { apply not_false_iff_true. intros E. inversion_clear Hx as [|?? Hyx _].
    apply (flt_total x y) in E; [congruence|auto..|done]. apply Hps. set_solver. }
  change (float_key x ∉ map float_key (y :: ps)). rewrite list_elem_of_fmap. intros (z & Hk & Hz).
  apply (feq_key x z) in Hk; [|done|by apply Hps]. inversion_clear Hs as [|?? _ Hy].
  assert (Hyz : flt x z = true); [|apply flt_key in Hyz; [|done|by apply Hps]; apply feq_key in Hk; [|done|by apply Hps];
    rewrite Hk in Hyz; unfold key_lt in Hyz; lia].
  apply elem_of_cons in Hz as [->|Hz]; [done|].
  rewrite Forall_forall in Hy. specialize (Hy z Hz). cbn in Hy.
  assert (Hfy : is_finite y = true) by (apply Hps; set_solver).
  assert (Hfz : is_finite z = true) by (apply Hps; set_solver).
  apply flt_key in Hlt; [|done..]. apply not_true_iff_false in Hy. rewrite flt_key in Hy by done.
  apply flt_key; [done..|]. unfold key_lt in *. lia.
Qed.

Section BookFacts.
Context `{JsonLibrary, JsonRuntime, StdSort}.

Lemma strict_json_number_Ok v x : strict_json_number v = Ok x → is_finite x = true.
Proof. unfold strict_json_number. intros. by res_inv. Qed.

Lemma rest_levels_Ok values levels :
  rest_levels values = Ok levels → Forall (λ l, rest_level_ok l = true) levels.
Proof.
  revert levels. induction values as [|v values IH]; intros levels Hl; cbn in Hl; res_inv; constructor; [|by apply IH].
  unfold json_orderbook_price, json_nonnegative_number in *. res_inv. unfold rest_level_ok. cbn.
  repeat match goal with Hn : strict_json_number _ = Ok _ |- _ => apply strict_json_number_Ok in Hn end.
  bools. rewrite !andb_true_iff, negb_true_iff. split_and!; try done; by apply nle_swap.
Qed.

Lemma append_rest_levels_Ok values levels :
  append_rest_levels [] values = Ok levels →
  Forall (λ l, rest_level_ok l = true) levels ∧ NoDup (map (float_key ∘ price) levels).
Proof.
  unfold append_rest_levels. destruct values; try done. intros (added & Ha & Hl)%bind_Ok. cbv zeta in Hl.
  destruct (adjacent_duplicate _) eqn:Ed; [done|]. injection Hl as <-. cbn.
  apply rest_levels_Ok in Ha. split; [done|].
  assert (Hf : ∀ x, x ∈ map price added → is_finite x = true).
  { intros x Hx. apply list_elem_of_fmap in Hx as (l & -> & Hl). rewrite Forall_forall in Ha.
    specialize (Ha l Hl). unfold rest_level_ok in Ha. by bools. }
  rewrite <- (map_map price float_key). rewrite <- (std_sort_perm flt (map price added)) at 1.
  apply adjacent_distinct; [|apply std_sort_sorted|done].
  - apply Forall_forall. intros x. rewrite (std_sort_perm flt). apply Hf.
  - intros x y z Hx%Hf Hy%Hf Hz%Hf. by apply nlt_trans.
  - intros x y Hx%Hf Hy%Hf. by apply flt_asym.
Qed.

(** An order book read from a REST response is the book of the token that was
    asked for, every level has a finite price strictly between 0 and 1 and a finite
    size that is not negative, and no side lists a price twice, whatever the
    response says. *)
Lemma rest_book_well_formed now_ns parsed expected_asset_id book :
  parse_rest_orderbook now_ns parsed expected_asset_id = Ok book →
  asset_id book ≠ "" ∧ (expected_asset_id ≠ "" → asset_id book = expected_asset_id) ∧
  Forall (λ l, rest_level_ok l = true) (bids book ++ asks book) ∧
  NoDup (map (float_key ∘ price) (bids book)) ∧ NoDup (map (float_key ∘ price) (asks book)).
Proof.
  unfold parse_rest_orderbook. intros (? & _ & Hp)%bind_Ok.
  destruct (json_field parsed "asset_id") as [[| | | |id| |]|]; try done.
  destruct (json_field parsed "bids") as [b|], (json_field parsed "asks") as [a|]; try done. res_inv. cbn.
  repeat match goal with Hn : append_rest_levels _ _ = Ok _ |- _ => apply append_rest_levels_Ok in Hn as [? ?] end.
  rewrite Forall_app.
  match goal with Hn : negb _ = true |- _ => apply negb_true_iff, orb_false_iff in Hn as [Hid Hex] end.
  apply bool_decide_eq_false in Hid. split_and!; try done.
  intros He. apply andb_false_iff in Hex as [Hex|Hex].
  - by rewrite bool_decide_false in Hex.
  - by apply negb_false_iff, bool_decide_eq_true in Hex.
Qed.
End BookFacts.

(** ** Witness *)

Definition sample_runtime : JsonRuntime :=
  {| parse_what := λ _, "parse error"; missing_what := λ _, "key not found";
     strtod := λ t, if bool_decide (t = "0.25") then Some (of_ratio binary64 1 4) else None |}.

Definition sample_level (p : json) : json := JObject [("price", p); ("size", JNumber (of_Z binary64 3))].
Definition sample_book_json : json :=
  JObject [("asset_id", JString "t1"); ("tick_size", JString "0.01");
    ("bids", JArray [sample_level (JString "0.25")]);
    ("asks", JArray [sample_level (JNumber (of_ratio binary64 3 4)); sample_level (JNumber (of_ratio binary64 1 2))])].

Lemma rest_book_well_formed_witness :
  match @parse_rest_orderbook sample_runtime _ 7 sample_book_json "t1" with
  | Ok book => asset_id book = "t1" ∧ length (asks book) = 2%nat ∧
      NoDup (map (float_key ∘ price) (asks book))
  | Throw _ => False
  end.
Proof.
  destruct (@parse_rest_orderbook sample_runtime _ 7 sample_book_json "t1") as [book|e] eqn:E;
    [|vm_compute in E; discriminate E].
  destruct (@rest_book_well_formed sample_runtime _ 7 sample_book_json "t1" book E) as (_ & Hid & _ & _ & Hn).
  split; [by apply Hid|]. split; [|exact Hn].
  vm_compute in E. injection E as <-. reflexivity.
Defined.
