(* ===== verification/Query.v ===== *)
(** * Query strings (src/query_encoding.hpp, query_builder.cpp)

    The percent-encoded query of a request, built parameter by parameter, and a
    reader of query strings it is checked against. *)
From Stdlib Require Import Ascii String Floats.SpecFloat.
From S2P Require Import Prelude Text Float64 EvmBytes Sdk.

#[local] Open Scope Z_scope.

(** ** Percent-encoding *)

Definition unreserved (c : ascii) : bool :=
  in_range "A" "Z" c || in_range "a" "z" c || in_range "0" "9" c ||
  bool_decide (c = "-"%char) || bool_decide (c = "."%char) ||
  bool_decide (c = "_"%char) || bool_decide (c = "~"%char).

Definition HEX : list ascii := chars "0123456789ABCDEF".
Definition hex_upper (d : Z) : ascii := nth (Z.to_nat d) HEX "0"%char.

Definition encode_char (c : ascii) : list ascii :=
  if unreserved c then [c]
  else ["%"%char; hex_upper (Z.shiftr (code c) 4); hex_upper (Z.land (code c) 15)].

Definition percent_encode_query_value (value : string) : string := str (flat_map encode_char (chars value)).

(** ** The builder *)

(** The overloads of [add] and [add_joined]. *)
Inductive param :=
  | PBool (value : option bool)
  | PDouble (value : option double)
  | PInteger (value : option Z)
  | PText (value : string)
  | PTexts (values : list string)
  | PIntegers (values : list Z)
  | PJoined (values : list string)
  | PJoinedIntegers (values : list Z).

(** [std::to_string] of a signed number. *)
Definition signed_text (z : Z) : string := if z <? 0 then "-" +:+ to_string (- z) else to_string z.

(** [if (!joined.empty()) joined += ','; joined += value;] *)
Definition join_text (joined value : string) : string :=
  if bool_decide (joined = "") then value else joined +:+ "," +:+ value.
Definition joined_texts (values : list string) : string := foldl join_text "" values.

Section Builder.
Context `{JsonLibrary}.

Definition append (query key value : string) : string :=
  query +:+ (if bool_decide (query = "") then "?" else "&") +:+ key +:+ "=" +:+ percent_encode_query_value value.

Definition add_joined (query key : string) (values : list string) : string :=
  if bool_decide (values = []) then query else append query key (joined_texts values).

Definition add (query key : string) (value : param) : res string :=
  match value with
  | PBool (Some b) => Ok (append query key (if b : bool then "true" else "false"))
  | PDouble (Some x) =>
      require (is_finite x) (invalid_argument (key +:+ " must be finite"));;
      Ok (append query key (json_dump (JNumber x)))
  | PInteger (Some z) => Ok (append query key (signed_text z))
  | PText text => Ok (if bool_decide (text = "") then query else append query key text)
  | PTexts texts => Ok (foldl (λ q, append q key) query texts)
  | PIntegers zs => Ok (foldl (λ q, append q key) query (signed_text <$> zs))
  | PJoined texts => Ok (add_joined query key texts)
  | PJoinedIntegers zs => Ok (add_joined query key (signed_text <$> zs))
  | PBool None | PDouble None | PInteger None => Ok query
  end.

Fixpoint add_all (query : string) (params : list (string * param)) : res string :=
  match params with
  | [] => Ok query
  | (key, value) :: params => query ← add query key value; add_all query params
  end.

(** A fresh [QueryBuilder], its calls of [add] in order, and [str()]. *)
Definition build : list (string * param) → res string := add_all "".

(** What the parameters ask for: the pairs sent. *)
Definition values_of (value : param) : list string :=
  match value with
  | PBool (Some b) => [if b : bool then "true" else "false"]
  | PDouble (Some x) => [json_dump (JNumber x)]
  | PInteger (Some z) => [signed_text z]
  | PText text => if bool_decide (text = "") then [] else [text]
  | PTexts texts => texts
  | PIntegers zs => signed_text <$> zs
  | PJoined texts => if bool_decide (texts = []) then [] else [joined_texts texts]
  | PJoinedIntegers zs => if bool_decide (zs = []) then [] else [joined_texts (signed_text <$> zs)]
  | PBool None | PDouble None | PInteger None => []
  end.

Definition pairs_of (params : list (string * param)) : list (string * string) :=
  flat_map (λ p, pair p.1 <$> values_of p.2) params.

Definition finite_params (params : list (string * param)) : bool :=
  forallb (λ p, match p.2 with PDouble (Some x) => is_finite x | _ => true end) params.
End Builder.

(** [check_choice]: empty or one of the choices. *)
Definition check_choice (name value : string) (choices : list string) : res unit :=
  require (bool_decide (value = "") || bool_decide (value ∈ choices))
    (invalid_argument (foldl (λ message choice, message +:+ " " +:+ choice) (name +:+ " must be one of:") choices)).

(** ** Reading a query *)

Fixpoint percent_decode (cs : list ascii) : option (list ascii) :=
  match cs with
  | [] => Some []
  | "%"%char :: high :: low :: cs =>
      h ← nibble high; l ← nibble low; rest ← percent_decode cs; Some (chr (h * 16 + l) :: rest)
  | "%"%char :: _ => None
  | c :: cs => rest ← percent_decode cs; Some (c :: rest)
  end.

(** The text up to a character and the text after it. *)
Fixpoint split_at (stop : ascii) (cs : list ascii) : list ascii * option (list ascii) :=
  match cs with
  | [] => ([], None)
  | c :: cs =>
      if bool_decide (c = stop) then ([], Some cs)
      else let '(before, after) := split_at stop cs in (c :: before, after)
  end.

Definition read_pair (cs : list ascii) : option (string * string) :=
  let '(key, value) := split_at "=" cs in
  value ← value; value ← percent_decode value; Some (str key, str value).

(** The pairs of a text that is not empty, at most as many as it has
    characters. *)
Fixpoint read_pairs (fuel : nat) (cs : list ascii) : option (list (string * string)) :=
  match fuel with
  | O => None
  | S fuel =>
      let '(first, rest) := split_at "&" cs in
      p ← read_pair first;
      match rest with Some rest => ps ← read_pairs fuel rest; Some (p :: ps) | None => Some [p] end
  end.

Definition read_query (query : string) : option (list (string * string)) :=
  match chars query with
  | [] => Some []
  | "?"%char :: cs => read_pairs (S (length cs)) cs
  | _ => None
  end.

(** Keys that need no encoding. *)
Definition clean_key (key : string) : bool := forallb unreserved (chars key).

(** ** Lemmas *)

Lemma hex_upper_digits d : 0 ≤ d < 16 → nibble (hex_upper d) = Some d ∧ unreserved (hex_upper d) = true.
Proof.
  intros Hd.
  pose proof (below_spec 16 (λ d, bool_decide (nibble (hex_upper d) = Some d) && unreserved (hex_upper d))
    ltac:(by vm_compute) d Hd) as H. bools. done.
Qed.

(** What the characters of an encoded text are. *)
Definition plain (c : ascii) : bool := unreserved c || bool_decide (c = "%"%char).

Lemma plain_not c stop : plain c = true → plain stop = false → c ≠ stop.
Proof. intros Hc Hs ->. congruence. Qed.

Lemma encode_char_plain c : forallb plain (encode_char c) = true.
Proof.
  pose proof (all_chars_spec (λ c, forallb plain (encode_char c)) ltac:(by vm_compute) c) as H. exact H.
Qed.

Lemma encoded_plain cs : forallb plain (flat_map encode_char cs) = true.
Proof. induction cs as [|c cs IH]; [done|]. cbn. by rewrite forallb_app, encode_char_plain, IH. Qed.

Lemma clean_key_plain key : clean_key key = true → forallb plain (chars key) = true.
Proof. unfold clean_key. rewrite !forallb_forall. intros H c Hc. unfold plain. by rewrite (H c Hc). Qed.

Lemma chr_code_pair c : chr (Z.shiftr (code c) 4 * 16 + Z.land (code c) 15) = c.
Proof.
  pose proof (all_chars_spec (λ c, bool_decide (chr (Z.shiftr (code c) 4 * 16 + Z.land (code c) 15) = c))
    ltac:(by vm_compute) c) as H. by bools.
Qed.

Lemma percent_decode_char c rest :
  percent_decode (encode_char c ++ rest) = cons c <$> percent_decode rest.
Proof.
  unfold encode_char. destruct (unreserved c) eqn:Hc.
  - assert (c ≠ "%"%char) as Hne by (by intros ->). cbn [app]. 
    assert (percent_decode (c :: rest) = (rest' ← percent_decode rest; Some (c :: rest'))) as ->.
    { destruct c as [[] [] [] [] [] [] [] []]; try done. }
    by destruct (percent_decode rest).
  - cbn [app percent_decode].
    assert (0 ≤ Z.shiftr (code c) 4 < 16 ∧ 0 ≤ Z.land (code c) 15 < 16) as [Hh Hl] by apply byte_nibbles, code_range.
    destruct (hex_upper_digits _ Hh) as [-> _], (hex_upper_digits _ Hl) as [-> _]. cbn [mbind option_bind].
    rewrite chr_code_pair. by destruct (percent_decode rest).
Qed.

Lemma percent_decode_encoded cs : percent_decode (flat_map encode_char cs) = Some cs.
Proof.
  induction cs as [|c cs IH]; [done|]. cbn [flat_map]. by rewrite percent_decode_char, IH.
Qed.

Lemma split_at_plain stop cs rest :
  plain stop = false → forallb plain cs = true →
  split_at stop (cs ++ rest) = (cs ++ (split_at stop rest).1, (split_at stop rest).2).
Proof.
  intros Hs. induction cs as [|c cs IH]; cbn [forallb app]; [by destruct (split_at stop rest)|].
  intros [Hc Hcs]%andb_true_iff. cbn [split_at]. rewrite bool_decide_eq_false_2 by (by apply plain_not).
  rewrite IH by done. done.
Qed.

Section Reading.
Context `{JsonLibrary}.

(** A pair as it is written. *)
Definition pair_text (p : string * string) : list ascii :=
  chars p.1 ++ "="%char :: flat_map encode_char (chars p.2).

Definition append_pair (query : string) (p : string * string) : string := append query p.1 p.2.

Lemma read_pair_text p : clean_key p.1 = true → read_pair (pair_text p) = Some p.
Proof.
  intros Hk. unfold read_pair, pair_text. rewrite split_at_plain by (done || by apply clean_key_plain).
  cbn [split_at]. rewrite bool_decide_eq_true_2 by done. cbn [mbind option_bind fst snd].
  rewrite percent_decode_encoded, app_nil_r. cbn. unfold str, chars.
  rewrite !string_of_list_ascii_of_string. by destruct p.
Qed.

Lemma split_pair_text p rest :
  clean_key p.1 = true →
  split_at "&" (pair_text p ++ rest) = (pair_text p ++ (split_at "&" rest).1, (split_at "&" rest).2).
Proof.
  intros Hk. unfold pair_text. rewrite <- !app_assoc. cbn [app].
  rewrite split_at_plain by (done || by apply clean_key_plain). cbn [split_at].
  rewrite bool_decide_eq_false_2 by done. rewrite split_at_plain by (done || apply encoded_plain). cbn. 
  done.
Qed.

Definition more_text (ps : list (string * string)) : list ascii := flat_map (λ p, "&"%char :: pair_text p) ps.

Lemma read_pairs_text fuel p ps :
  (length ps < fuel)%nat → forallb (λ p, clean_key p.1) (p :: ps) = true →
  read_pairs fuel (pair_text p ++ more_text ps) = Some (p :: ps).
Proof.
  revert p ps. induction fuel as [|fuel IH]; intros p ps Hf Hk; [lia|].
  cbn [forallb] in Hk. apply andb_true_iff in Hk as [Hp Hps]. cbn [read_pairs]. rewrite split_pair_text by done.
  destruct ps as [|p' ps]; cbn [more_text flat_map app split_at fst snd].
  - rewrite app_nil_r, read_pair_text by done. done.
  - rewrite bool_decide_eq_true_2 by done. cbn [fst snd]. rewrite app_nil_r, read_pair_text by done. cbn [mbind option_bind].
    change (flat_map _ ps) with (more_text ps). rewrite IH; [done|cbn in Hf; lia|done].
Qed.

Lemma append_pairs_text p ps :
  chars (foldl append_pair "" (p :: ps)) = "?"%char :: pair_text p ++ more_text ps.
Proof.
  induction ps as [|p' ps IH] using rev_ind.
  - cbn. unfold append_pair, append. cbn. unfold pair_text, percent_encode_query_value. rewrite app_nil_r.
    rewrite !chars_app. cbn. by rewrite list_ascii_of_string_of_list_ascii.
  - rewrite app_comm_cons, foldl_app. remember (foldl append_pair "" (p :: ps)) as q eqn:Eq. clear Eq. cbn [foldl].
    unfold append_pair, append. rewrite !chars_app, IH. rewrite bool_decide_eq_false_2 by (intros ->; done).
    unfold more_text. rewrite flat_map_app. cbn. rewrite app_nil_r. unfold pair_text, percent_encode_query_value.
    rewrite <- !app_assoc. cbn. by rewrite list_ascii_of_string_of_list_ascii.
Qed.
End Reading.

Section Facts.
Context `{JsonLibrary}.

Lemma foldl_append key values query : foldl (λ q, append q key) query values = foldl append_pair query (pair key <$> values).
Proof. revert query. induction values as [|v values IH]; intros query; [done|]. cbn. apply IH. Qed.

Lemma add_values query key value :
  add query key value =
    (require (finite_params [(key, value)]) (invalid_argument (key +:+ " must be finite"));;
     Ok (foldl append_pair query (pair key <$> values_of value))).
Proof.
  destruct value as [[]|[x|]|[]|text|texts|zs|texts|zs]; cbn; try done.
  - by destruct (is_finite x).
  - by case_bool_decide.
  - by rewrite foldl_append.
  - by rewrite foldl_append.
  - unfold add_joined. by case_bool_decide.
  - unfold add_joined. by destruct zs.
Qed.

Lemma add_all_pairs query params :
  match add_all query params with
  | Ok q => finite_params params = true ∧ q = foldl append_pair query (pairs_of params)
  | Throw e => finite_params params = false ∧
      ∃ key x, (key, PDouble (Some x)) ∈ params ∧ is_finite x = false ∧ e = invalid_argument (key +:+ " must be finite")
  end.
Proof.
  revert query. induction params as [|[key value] params IH]; intros query; [done|]. cbn [add_all].
  rewrite add_values. unfold finite_params at 1. cbn. rewrite andb_true_r.
  destruct (match value with PDouble (Some x) => is_finite x | _ => true end) eqn:Ev; cbn.
  - specialize (IH (foldl append_pair query (pair key <$> values_of value))). destruct (add_all _ params).
    + destruct IH as [Hf ->]. split; [done|]. by rewrite foldl_app.
    + destruct IH as [Hf (k & x & Hk & Hx & ->)]. split; [done|]. exists k, x. split; [by right|done].
  - split; [done|]. destruct value as [|[x|]| | | | | |]; try done. exists key, x. split; [by left|done].
Qed.

Lemma more_text_length ps : (length ps ≤ length (more_text ps))%nat.
Proof. induction ps as [|p ps IH]; [done|]. unfold more_text in *. cbn. rewrite length_app. lia. Qed.

(** Pairs appended one after the other read back. *)
Lemma read_appended ps :
  forallb (λ p, clean_key p.1) ps = true → read_query (foldl append_pair "" ps) = Some ps.
Proof.
  intros Hk. unfold read_query. destruct ps as [|p ps]; [done|]. rewrite append_pairs_text.
  apply read_pairs_text; [|done]. rewrite length_app. pose proof (more_text_length ps). lia.
Qed.

Lemma pairs_of_clean params :
  forallb (λ p, clean_key p.1) params = true → forallb (λ p, clean_key p.1) (pairs_of params) = true.
Proof.
  intros Hk. rewrite forallb_forall in Hk |- *. intros [key v] Hin. unfold pairs_of in Hin.
  apply in_flat_map in Hin as ([k value] & Hin & Hv).
  apply list_elem_of_In, list_elem_of_fmap in Hv as (v' & [= -> ->] & _). apply (Hk _ Hin).
Qed.

(** A built query is its pairs appended. *)
Lemma build_pairs params query :
  build params = Ok query → finite_params params = true ∧ query = foldl append_pair "" (pairs_of params).
Proof. intros Hb. pose proof (add_all_pairs "" params) as Ha. unfold build in Hb. by rewrite Hb in Ha. Qed.

(** A query says what was asked, whatever the texts hold.  For keys that need no encoding, the builder throws only
    for a number that is not finite, naming its key; otherwise the text it returns reads back, by splitting it at the
    separators and decoding the percent signs, as exactly the pairs the parameters stand for, in the order of the calls:
    none for an unset optional, an empty text or an empty list, one per item of a list, one for a joined list. *)
Lemma query_read_back params :
  forallb (λ p, clean_key p.1) params = true →
  match build params with
  | Ok query => finite_params params = true ∧ read_query query = Some (pairs_of params)
  | Throw e => ∃ key x, (key, PDouble (Some x)) ∈ params ∧ is_finite x = false ∧
      e = invalid_argument (key +:+ " must be finite")
  end.
Proof.
  intros Hk. destruct (build params) as [q|e] eqn:E.
  - apply build_pairs in E as [Hf ->]. split; [done|]. by apply read_appended, pairs_of_clean.
  - pose proof (add_all_pairs "" params) as Hb. unfold build in E. rewrite E in Hb. tauto.
Qed.

Lemma encode_unreserved cs : forallb unreserved cs = true → flat_map encode_char cs = cs.
Proof.
  induction cs as [|c cs IH]; [done|]. cbn [forallb flat_map]. intros [Hc Hcs]%andb_true_iff.
  rewrite IH by done. unfold encode_char. by rewrite Hc.
Qed.

(** A numeral is its own encoding. *)
Lemma encode_numeral n : 0 ≤ n → percent_encode_query_value (to_string n) = to_string n.
Proof.
  intros Hn. unfold percent_encode_query_value. assert (Hc : chars (to_string n) = decimal_chars n).
  { unfold to_string, str, chars. apply list_ascii_of_string_of_list_ascii. }
  rewrite Hc, encode_unreserved; [done|]. apply forallb_forall. intros c Hin.
  pose proof (decimal_chars_decimal n Hn) as Hd. unfold all_decimal in Hd. rewrite forallb_forall in Hd.
  pose proof (all_chars_spec (λ c, implb (is_decimal c) (unreserved c)) ltac:(by vm_compute) c) as Hi. cbn beta in Hi.
  by rewrite (Hd c Hin) in Hi.
Qed.
End Facts.

(** A query with a blank, a list and an unset parameter. *)
Definition sample_params : list (string * param) :=
  [("title", PText "50% & more"); ("id", PIntegers [1; -2]); ("closed", PBool None); ("tags", PJoined ["a"; "b"])].
Definition plain_library : JsonLibrary := {| json_parse _ := None; json_dump _ := "0" |}.

Lemma query_read_back_witness :
  @build plain_library sample_params = Ok "?title=50%25%20%26%20more&id=1&id=-2&tags=a%2Cb" ∧
  read_query "?title=50%25%20%26%20more&id=1&id=-2&tags=a%2Cb" =
    Some [("title", "50% & more"); ("id", "1"); ("id", "-2"); ("tags", "a,b")].
Proof.
  pose proof (@query_read_back plain_library sample_params eq_refl) as Hq.
  assert (E : @build plain_library sample_params = Ok "?title=50%25%20%26%20more&id=1&id=-2&tags=a%2Cb") by (by vm_compute).
  rewrite E in Hq. split; [exact E|]. exact (proj2 Hq).
Defined.
