(* ===== verification/RestPaging.v ===== *)
(** * Listings over REST (src/rest_paging.hpp, data_client_internal.hpp,
    gamma_client_internal.hpp)

    How the REST clients turn a query into the pages of a [Paginator]: the path
    each page is requested with, the page a response holds, and what an argument
    that is refused does.  The server is a parameter: its answer to a path after
    the paths requested before it.  The parser of a page is an argument, as it is
    of the templates. *)
From Stdlib Require Import Ascii String Floats.SpecFloat.
From S2P Require Import Prelude Text Float64 Sdk Pagination Query.

#[local] Open Scope Z_scope.

(** The response to a path, and the clock when it arrives, after the paths
    requested so far. *)
Class Server := {
  respond : list string → string → HttpResponse;
  unix_now : list string → Z }.

(** A paginator, the path its fetch requests ([None]: it fails without a request)
    and what its fetch returns. *)
Record Pager (T : Type) := MkPager {
  pages : res (Paginator T);
  request_path : PageRequest → option string;
  page_answer : Fetch T }.
Arguments MkPager {_} _ _ _.
Arguments pages {_} _.
Arguments request_path {_} _.
Arguments page_answer {_} _.

Section Paging.
Context `{JsonLibrary, DateReader, Server}.
Context {T : Type}.

Definition rest_page (response : HttpResponse) (endpoint : string) (now : Z) (parse : string → res (Page T)) :
    Result (Page T) :=
  if negb (response_ok response) then failure (make_sdk_error response endpoint now)
  else match parse (body response) with
  | Ok page => success page
  | Throw e => failure (make_parse_error (what e) endpoint (body response))
  end.

(** The response to a request, after the earlier requests of the same pager. *)
Definition fetched (endpoint : string) (path : PageRequest → string) (parse_page : string → res (Page T)) : Fetch T :=
  λ sent request,
    let paths := path <$> sent in
    rest_page (respond paths (path request)) endpoint (unix_now paths) parse_page.

Definition refused (pages : res (Paginator T)) (error : SdkError) : Pager T :=
  MkPager pages (λ _, None) (λ _ _, failure error).

Definition sent_by (pages : res (Paginator T)) (endpoint : string) (path : PageRequest → string)
    (parse_page : string → res (Page T)) : Pager T :=
  MkPager pages (λ r, Some (path r)) (fetched endpoint path parse_page).

Definition page_prefix (endpoint query : string) (page_size : Z) : string :=
  endpoint +:+ (if bool_decide (query = "") then "?" else query +:+ "&") +:+ "limit=" +:+ to_string page_size.

Definition keyset_path (endpoint query : string) (page_size : Z) (cursor_param : string) (request : PageRequest) : string :=
  let path := page_prefix endpoint query page_size in
  if bool_decide (r_cursor request = "") then path
  else path +:+ "&" +:+ cursor_param +:+ "=" +:+ percent_encode_query_value (r_cursor request).

Definition keyset_pager (endpoint query : string) (page_size : Z) (resume : PageRequest) (invalid : option SdkError)
    (cursor_param : string) (parse_page : string → res (Page T)) : Pager T :=
  match invalid with
  | Some error => refused (keyset_pages endpoint 1 resume) error
  | None =>
      sent_by (keyset_pages endpoint page_size resume) endpoint
        (keyset_path endpoint query page_size cursor_param) parse_page
  end.

Definition list_page {I} (parse_items : string → res (list I)) (text : string) : res (Page I) :=
  items ← parse_items text; Ok (MkPage items "" None false).

Definition offset_path (endpoint query : string) (page_size : Z) (request : PageRequest) : string :=
  page_prefix endpoint query page_size +:+ "&offset=" +:+ to_string (r_offset request).

Definition offset_pager (endpoint query : string) (page_size max_page_size max_offset : Z) (resume : PageRequest)
    (invalid : option SdkError) (parse_page : string → res (Page T)) : Pager T :=
  let invalid :=
    match invalid with
    | Some error => Some error
    | None =>
        if (page_size =? 0) || (max_page_size <? page_size) then
          Some (invalid_argument_error ("page_size must be between 1 and " +:+ to_string max_page_size) endpoint)
        else None
    end in
  match invalid with
  | Some error => refused (offset_pages endpoint 1 max_offset 0) error
  | None =>
      sent_by (offset_pages endpoint page_size max_offset (r_offset resume)) endpoint
        (offset_path endpoint query page_size) parse_page
  end.

(** [try { query = build_query(); } catch (const std::invalid_argument &)]: the
    query and the error; any other exception leaves. *)
Definition caught_query (endpoint : string) (query : res string) : res (string * option SdkError) :=
  match query with
  | Ok query => Ok (query, None)
  | Throw (invalid_argument w) => Ok ("", Some (invalid_argument_error w endpoint))
  | Throw e => Throw e
  end.

(** [DataClient::cursor_pager] *)
Definition cursor_pager (endpoint : string) (page_size page_cap : Z) (resume : PageRequest) (build_query : res string)
    (parse_page : string → res (Page T)) : res (Pager T) :=
  '(query, invalid) ← caught_query endpoint
    (require (negb (page_size =? 0) && (page_size <=? page_cap))
       (invalid_argument ("page_size must be between 1 and " +:+ to_string page_cap));;
     build_query);
  Ok (keyset_pager endpoint query page_size resume invalid "cursor" parse_page).

(** [GammaClient::offset_pager] *)
Definition gamma_offset_pager (endpoint : string) (page_size max_page_size max_offset : Z) (resume : PageRequest)
    (build_query : res string) (parse_page : string → res (Page T)) : res (Pager T) :=
  '(query, invalid) ← caught_query endpoint build_query;
  Ok (offset_pager endpoint query page_size max_page_size max_offset resume invalid parse_page).

(** [GammaClient::markets_pager] and [events_pager]. *)
Definition gamma_keyset_pager (endpoint : string) (page_size : Z) (resume : PageRequest) (build_query : res string)
    (parse_page : string → res (Page T)) : res (Pager T) :=
  '(query, invalid) ← caught_query endpoint
    (require (negb (page_size =? 0)) (invalid_argument "page_size must be positive");; build_query);
  Ok (keyset_pager endpoint query page_size resume invalid "after_cursor" parse_page).

(** One request: the paths requested after it and its result. *)
Definition fetch_result {A} (build_path : res string) (parse : string → res A) (sent : list string) :
    res (list string * Result A) :=
  match build_path with
  | Throw (invalid_argument w) => Ok (sent, failure (invalid_argument_error w ""))
  | Throw e => Throw e
  | Ok path =>
      let endpoint := str (split_at "?" (chars path)).1 in
      let response := respond sent path in
      Ok (sent ++ [path],
          if negb (response_ok response) then failure (make_sdk_error response endpoint (unix_now sent))
          else match parse (body response) with
          | Ok value => success value
          | Throw e => failure (make_parse_error (what e) endpoint (body response))
          end)
  end.
End Paging.

(** ** The pages a listing walks

    What a client that follows the cursors of the server reads: the requests it
    sent, the cursor of the next page ("" after the last) and the items so far. *)
Section Walk.
Context {T : Type} `{Fetch T}.
Implicit Types p : Paginator T.

Inductive walk (start : string) : list PageRequest → string → list T → Prop :=
  | walk_start : walk start [] start []
  | walk_page sent cursor items limit page :
      walk start sent cursor items → (sent = [] ∨ cursor ≠ "") →
      fetch sent (MkRequest cursor 0 limit 0 false) = success page →
      walk start (sent ++ [MkRequest cursor 0 limit 0 false]) (next_cursor page) (items ++ page_items page).

(** Why a walk ends without the last page. *)
Inductive broken_walk (start endpoint : string) (items : list T) : list PageRequest → SdkError → Prop :=
  | page_failed sent cursor limit e :
      walk start sent cursor items → fetch sent (MkRequest cursor 0 limit 0 false) = failure e →
      broken_walk start endpoint items (sent ++ [MkRequest cursor 0 limit 0 false]) e
  | cursor_repeated sent cursor :
      walk start sent cursor items → cursor ∈ r_cursor <$> sent →
      broken_walk start endpoint items sent
        (make_parse_error "opaque cursor pagination cycle detected" endpoint "")
  | too_many_pages sent cursor :
      walk start sent cursor items → length sent = 1000%nat →
      broken_walk start endpoint items sent
        (make_parse_error "opaque cursor pagination exceeded 1000 pages" endpoint "").

(** The state of a keyset paginator on a walk. *)
Record walking (start endpoint : string) p (items : list T) : Prop := {
  walking_strategy : strategy_ p = by_keyset;
  walking_endpoint : p_endpoint p = endpoint;
  walking_end : end_cursor_ (cursors_ p) = "";
  walking_pages : walk start (requests p) (cursor_ (cursors_ p)) items;
  walking_count : pages_started (cursors_ p) = Z.of_nat (length (requests p));
  walking_bound : (length (requests p) ≤ 1000)%nat;
  walking_seen c : c ∈ seen_cursors_ (cursors_ p) ↔ c ≠ "" ∧ c ∈ r_cursor <$> requests p;
  walking_first : first_page_without_cursor_ (cursors_ p) = bool_decide (requests p = [] ∧ start = "");
  walking_live : done_ p = false → requests p = [] ∨ cursor_ (cursors_ p) ≠ "";
  walking_done : done_ p = true → cursor_ (cursors_ p) = "" }.

Definition walked (start endpoint : string) p (items : list T) : Prop :=
  match error_ p with
  | Some e => broken_walk start endpoint items (requests p) e
  | None => walking start endpoint p items
  end.

Lemma walk_nil start cursor items : walk start [] cursor items → cursor = start ∧ items = [].
Proof. inversion 1 as [|sent ? ? ? ? ? ? ? Hnil]; [done|by destruct sent]. Qed.

Lemma begin_page_walks start endpoint p items :
  walking start endpoint p items → done_ p = false →
  match begin_page (cursors_ p) with
  | (_, Ok false) => False
  | (_, Throw e) => broken_walk start endpoint items (requests p) (make_parse_error (what e) endpoint "")
  | (c, Ok true) =>
      cursor_ c = cursor_ (cursors_ p) ∧ end_cursor_ c = "" ∧ first_page_without_cursor_ c = false ∧
      (length (requests p) < 1000)%nat ∧ pages_started c = Z.of_nat (length (requests p)) + 1 ∧
      ∀ x, x ∈ seen_cursors_ c ↔ x ≠ "" ∧ x ∈ (r_cursor <$> requests p) ++ [cursor_ c]
  end.
Proof.
  intros [Hs He Hend Hw Hc Hb Hseen Hf Hl _] Hd. specialize (Hl Hd). unfold begin_page, at_end.
  cbn [cursor_ end_cursor_ first_page_without_cursor_ pages_started seen_cursors_]. rewrite Hend, orb_diag.
  assert (Hlive : negb (first_page_without_cursor_ (cursors_ p)) && bool_decide (cursor_ (cursors_ p) = "") = false).
  { apply andb_false_iff. rewrite Hf, negb_false_iff. destruct Hl as [Hl|Hl].
    - rewrite Hl in Hw |- *. apply walk_nil in Hw as [-> _].
      destruct (decide (start = "")) as [->|Hne]; [left; by rewrite bool_decide_eq_true_2|right].
      by rewrite bool_decide_eq_false_2.
    - right. by rewrite bool_decide_eq_false_2. }
  rewrite Hlive. destruct (Z.leb_spec max_pages (pages_started (cursors_ p))) as [Hmax|Hmax]; unfold max_pages in Hmax.
  { eapply too_many_pages; [done|lia]. }
  destruct (negb _ && bool_decide (_ ∈ _)) eqn:Ecyc.
  { apply andb_true_iff in Ecyc as [_ Hin%bool_decide_eq_true]. apply Hseen in Hin as [_ Hin].
    by eapply cursor_repeated. }
  cbn. split_and!; try done; [lia|rewrite u64_id; [lia|unfold is_u64, u64_max; lia]|].
  intros x. rewrite elem_of_app, list_elem_of_singleton. destruct (first_page_without_cursor_ (cursors_ p)) eqn:Ef.
  - rewrite Hseen. symmetry in Hf. apply bool_decide_eq_true in Hf as [Hnil ->]. rewrite Hnil in Hw |- *.
    apply walk_nil in Hw as [-> _]. set_solver.
  - rewrite elem_of_union, elem_of_singleton, Hseen. cbn in Hlive. bools. naive_solver.
Qed.

Lemma next_page_walks start endpoint p items :
  walked start endpoint p items →
  match next_page p with
  | (p', success (Some batch)) => walked start endpoint p' (items ++ batch)
  | (p', success None) => done_ p' = true ∧ walked start endpoint p' items ∧ error_ p' = None
  | (p', failure e) => broken_walk start endpoint items (requests p') e
  end.
Proof.
  unfold walked at 1, next_page. destruct (error_ p) as [e|] eqn:Ee; [done|]. intros Hp.
  destruct (done_ p) eqn:Ed; [split_and!; [done|unfold walked; by rewrite Ee|done]|].
  rewrite (walking_strategy _ _ _ _ Hp). unfold next_cursor_page.
  pose proof (begin_page_walks _ _ _ _ Hp Ed) as Hbeg. destruct (begin_page (cursors_ p)) as [c [[|]|e]]; [|done|].
  2: { cbn. by rewrite (walking_endpoint _ _ _ _ Hp). }
  destruct Hbeg as (Hcur & Hend & Hff & Hlen & Hstarted & Hseen). cbn [send].
  destruct Hp as [Hs He _ Hw Hc Hb _ Hf Hl _]. cbn. set (r := MkRequest (cursor_ c) 0 (limit_ p) 0 false).
  assert (Hreq : r = MkRequest (cursor_ (cursors_ p)) 0 (limit_ p) 0 false) by (unfold r; by rewrite Hcur).
  destruct (fetch (requests p) r) as [page|e] eqn:Efetch; cbn; [|rewrite Hreq in *; by eapply page_failed].
  assert (Hw' : walk start (requests p ++ [r]) (next_cursor page) (items ++ page_items page)).
  { rewrite Hreq in *. apply walk_page; [done|by apply Hl|done]. }
  assert (Hsent : ∀ x, x ∈ seen_cursors_ c ↔ x ≠ "" ∧ x ∈ r_cursor <$> requests p ++ [r]).
  { intros x. rewrite fmap_app. apply Hseen. }
  unfold advance. rewrite Hend, orb_diag. destruct (decide (next_cursor page = "")) as [Hnil|Hne].
  - rewrite bool_decide_eq_true_2 by done. unfold walked. cbn. rewrite Ee. unfold exhausted, at_end. cbn. rewrite Hff, Hend.
    rewrite Hnil in Hw'. constructor; cbn; try done; rewrite ?length_app; cbn; try lia.
    rewrite Hff. symmetry. apply bool_decide_eq_false. intros [Hn _]. by destruct (requests p).
  - rewrite bool_decide_eq_false_2 by done. unfold require. destruct (decide (next_cursor page ∈ seen_cursors_ c)) as [Hin|Hout].
    + rewrite (bool_decide_eq_true_2 _ Hin). unfold walked. cbn. rewrite He.
      eapply cursor_repeated; [done|]. by apply Hsent in Hin as [_ Hin].
    + rewrite (bool_decide_eq_false_2 _ Hout). unfold walked. cbn. rewrite Ee.
      constructor; cbn; try done; rewrite ?length_app; cbn; try lia.
      * rewrite Hff. symmetry. apply bool_decide_eq_false. intros [Hn _]. by destruct (requests p).
      * intros _. by right.
      * unfold exhausted, at_end. cbn. by rewrite Hff, Hend, bool_decide_eq_false_2.
Qed.

Lemma collect_walks start endpoint max_items fuel out items p p' r :
  walked start endpoint p items → out = take (Z.to_nat max_items) items → 
  collect_loop fuel out max_items p = Some (p', r) →
  ∃ items', match r with
  | success kept =>
      kept = take (Z.to_nat max_items) items' ∧
      (done_ p' = true ∧ error_ p' = None ∧ walked start endpoint p' items' ∨
       max_items ≤ Z.of_nat (length items') ∧ walked start endpoint p' items')
  | failure e => broken_walk start endpoint items' (requests p') e
  end.
Proof.
  revert out items p. induction fuel as [|fuel IH]; intros out items p Hp Hout Hrun; [done|]. cbn [collect_loop] in Hrun.
  destruct (Z.ltb_spec (Z.of_nat (length out)) max_items) as [Hmore|Hfull].
  - pose proof (next_page_walks _ _ _ _ Hp) as Hn. destruct (next_page p) as [p1 [[batch|]|e]].
    + apply (IH _ _ _ Hn) in Hrun; [done|]. 
      assert (Hshort : out = items).
      { rewrite Hout in Hmore |- *. rewrite length_take in Hmore. apply take_ge. lia. }
      rewrite Hshort in *. rewrite take_app. rewrite (take_ge items) by lia. f_equal.
      destruct (Z.min_spec (Z.of_nat (length batch)) (max_items - Z.of_nat (length items))) as [[? ->]|[? ->]].
      * rewrite !take_ge; [done|lia|lia].
      * f_equal. lia.
    + injection Hrun as <- <-. exists items. split; [done|left]. destruct Hn as (? & ? & ?). done.
    + injection Hrun as <- <-. by exists items.
  - injection Hrun as <- <-. exists items. split; [done|right]. split; [|done].
    rewrite Hout, length_take in Hfull. lia.
Qed.
End Walk.

(** ** The paths a listing requests *)
Section Paths.
Context `{JsonLibrary}.

(** The text of a query that holds these pairs. *)
Definition query_holds (query : string) (ps : list (string * string)) : Prop :=
  forallb (λ p, clean_key p.1) ps = true ∧ query = foldl append_pair "" ps.

(** The endpoint of a path and the pairs of its query. *)
Definition read_path (path : string) : option (string * list (string * string)) :=
  let '(endpoint, query) := split_at "?" (chars path) in
  ps ← read_query (match query with Some query => str ("?"%char :: query) | None => "" end);
  Some (str endpoint, ps).

Definition plain_endpoint (endpoint : string) : bool := forallb (λ c, negb (bool_decide (c = "?"%char))) (chars endpoint).

Lemma string_app_assoc (a b c : string) : a +:+ (b +:+ c) = (a +:+ b) +:+ c.
Proof. induction a as [|x a IH]; [done|exact (f_equal (String x) IH)]. Qed.

Lemma split_endpoint endpoint cs :
  forallb (λ c, negb (bool_decide (c = "?"%char))) endpoint = true →
  split_at "?" (endpoint ++ "?"%char :: cs) = (endpoint, Some cs).
Proof.
  induction endpoint as [|c endpoint IH]; [done|]. cbn [forallb app split_at]. intros [Hc Hr]%andb_true_iff.
  bools. rewrite bool_decide_eq_false_2 by done. by rewrite IH.
Qed.

Lemma read_query_path endpoint query ps :
  plain_endpoint endpoint = true → query_holds query ps → ps ≠ [] →
  read_path (endpoint +:+ query) = Some (endpoint, ps).
Proof.
  intros He [Hk ->] Hne. destruct ps as [|p ps]; [done|]. unfold read_path. rewrite chars_app.
  assert (Hq : chars (foldl append_pair "" (p :: ps)) = "?"%char :: pair_text p ++ more_text ps) by apply append_pairs_text.
  rewrite Hq, split_endpoint by done. cbn beta iota. rewrite <- Hq. unfold str, chars.
  rewrite !string_of_list_ascii_of_string, read_appended by done. done.
Qed.

Lemma query_holds_append query ps key value :
  clean_key key = true → query_holds query ps → query_holds (append query key value) (ps ++ [(key, value)]).
Proof.
  intros Hkey [Hk ->]. split; [|by rewrite foldl_app]. rewrite forallb_app, Hk. cbn [forallb fst]. by rewrite Hkey.
Qed.

Lemma appended_not_empty query key value : append query key value ≠ "".
Proof. unfold append. destruct query; intros Hn; [rewrite bool_decide_eq_true_2 in Hn by done|]; discriminate Hn. Qed.

Lemma query_holds_build params query :
  forallb (λ p, clean_key p.1) params = true → build params = Ok query → query_holds query (pairs_of params).
Proof. intros Hk Hb. split; [by apply pairs_of_clean|]. by apply build_pairs in Hb as [_ ->]. Qed.

Lemma page_prefix_append endpoint query page_size :
  0 ≤ page_size → page_prefix endpoint query page_size = endpoint +:+ append query "limit" (to_string page_size).
Proof.
  intros Hp. unfold page_prefix, append. rewrite encode_numeral by done.
  case_bool_decide as Hq; [by subst|]. rewrite <- !string_app_assoc. reflexivity.
Qed.

Lemma query_holds_unique query ps ps' : query_holds query ps → query_holds query ps' → ps = ps'.
Proof. intros [Hk ->] [Hk' E]. apply read_appended in Hk, Hk'. rewrite E in Hk. congruence. Qed.

Definition cursor_pairs (cursor_param cursor : string) : list (string * string) :=
  if bool_decide (cursor = "") then [] else [(cursor_param, cursor)].

Lemma keyset_path_reads endpoint query ps page_size cursor_param request :
  plain_endpoint endpoint = true → query_holds query ps → 0 ≤ page_size → clean_key cursor_param = true →
  read_path (keyset_path endpoint query page_size cursor_param request) =
    Some (endpoint, ps ++ [("limit", to_string page_size)] ++ cursor_pairs cursor_param (r_cursor request)).
Proof.
  intros He Hq Hp Hc. unfold keyset_path, cursor_pairs. rewrite page_prefix_append by done.
  pose proof (query_holds_append _ _ "limit" (to_string page_size) eq_refl Hq) as Hl. case_bool_decide.
  - rewrite app_nil_r. apply read_query_path; [done..|]. by destruct ps.
  - rewrite app_assoc. rewrite <- string_app_assoc. apply read_query_path; [done| |by destruct ps].
    pose proof (query_holds_append _ _ cursor_param (r_cursor request) Hc Hl) as Ha.
    unfold append in Ha at 1. rewrite bool_decide_eq_false_2 in Ha by apply appended_not_empty. exact Ha.
Qed.

Lemma offset_path_reads endpoint query ps page_size request :
  plain_endpoint endpoint = true → query_holds query ps → 0 ≤ page_size → 0 ≤ r_offset request →
  read_path (offset_path endpoint query page_size request) =
    Some (endpoint, ps ++ [("limit", to_string page_size); ("offset", to_string (r_offset request))]).
Proof.
  intros He Hq Hp Ho. unfold offset_path. rewrite page_prefix_append by done.
  pose proof (query_holds_append _ _ "limit" (to_string page_size) eq_refl Hq) as Hl.
  change [("limit", to_string page_size); ("offset", to_string (r_offset request))] with
    ([("limit", to_string page_size)] ++ [("offset", to_string (r_offset request))]).
  rewrite app_assoc, <- string_app_assoc. apply read_query_path; [done| |by destruct ps].
  pose proof (query_holds_append _ _ "offset" (to_string (r_offset request)) eq_refl Hl) as Ha.
  unfold append in Ha at 1. rewrite bool_decide_eq_false_2 in Ha by apply appended_not_empty.
  by rewrite encode_numeral in Ha.
Qed.
End Paths.

(** ** Listings *)
Section Listings.
Context `{JsonLibrary, DateReader, Server}.
Context {T : Type} (parse_page : string → res (Page T)).

Definition is_invalid_argument (e : exn) : bool := match e with invalid_argument _ => true | _ => false end.

(** What [cursor_pager] checks before it builds the query. *)
Definition checked_query (page_size page_cap : Z) (build_query : res string) : res string :=
  require (negb (page_size =? 0) && (page_size <=? page_cap))
    (invalid_argument ("page_size must be between 1 and " +:+ to_string page_cap));;
  build_query.

Lemma checked_query_Ok page_size page_cap build_query query :
  checked_query page_size page_cap build_query = Ok query → build_query = Ok query.
Proof. unfold checked_query. intros Hq. by apply bind_Ok in Hq as (_ & _ & Hq). Qed.

(** The paths a run of a pager sent. *)
Definition paths_sent (pager : Pager T) (p : Paginator T) : list string := omap (request_path pager) (requests p).

Lemma keyset_walking (F : Fetch T) endpoint limit resume p :
  keyset_pages endpoint limit resume = Ok p → r_exhausted resume = false →
  walked (r_cursor resume) endpoint p [] ∧ made p ∧ page_bound p = 1000%nat.
Proof.
  intros Hp Hx. assert (Hm : made p) by (right; left; by eexists _, _, _). split; [|split; [done|]].
  - unfold keyset_pages, new_paginator in Hp. apply bind_Ok in Hp as (p0 & Hp0 & Hp).
    apply bind_Ok in Hp0 as (_ & _ & Hp0). injection Hp0 as <-. injection Hp as <-. unfold walked. cbn.
    constructor; cbn; try done; [apply walk_start|lia|set_solver| |by left|by rewrite Hx].
    apply bool_decide_ext. naive_solver.
  - unfold keyset_pages, new_paginator in Hp. apply bind_Ok in Hp as (p0 & Hp0 & Hp).
    apply bind_Ok in Hp0 as (_ & _ & Hp0). injection Hp0 as <-. by injection Hp as <-.
Qed.

Lemma refused_first (F : Fetch T) error endpoint start p max_items :
  (∀ sent r, fetch sent r = failure error) → walked start endpoint p [] → done_ p = false → error_ p = None →
  requests p = [] → 0 < max_items → ∃ q, ∀ fuel, collect (S fuel) max_items p = Some (q, failure error).
Proof.
  intros HF Hw Hd He Hr Hm. enough (∃ q, next_page p = (q, failure error)) as [q Hn].
  { exists q. intros fuel. unfold collect, collect_loop. cbn [length]. by rewrite (proj2 (Z.ltb_lt _ _)), Hn by lia. }
  unfold walked in Hw. rewrite He in Hw. unfold next_page. rewrite He, Hd, (walking_strategy _ _ _ _ Hw).
  unfold next_cursor_page. pose proof (begin_page_walks _ _ _ _ Hw Hd) as Hb.
  destruct (begin_page (cursors_ p)) as [c [[|]|e]] eqn:Eb; [|done|].
  - cbn [send]. change (requests (set_cursors c p)) with (requests p). cbn. rewrite HF. by eexists.
  - rewrite Hr in Hb. exfalso. inversion Hb as [? ? ? ? Hw' Hf Hs|sent c' Hw' Hin Hs|sent c' Hw' Hlen Hs];
      [by destruct sent|subst; by apply elem_of_nil in Hin|by subst].
Qed.
(** The paths a run sends are those of its requests, each with the pairs of the
    query, the limit and the cursor of its page. *)
Definition paths_read (endpoint cursor_param : string) (page_size : Z) (ps : list (string * string)) (pager : Pager T)
    (p : Paginator T) : Prop :=
  read_path <$> paths_sent pager p =
    (λ r, Some (endpoint, ps ++ [("limit", to_string page_size)] ++ cursor_pairs cursor_param (r_cursor r))) <$> requests p.

Lemma sent_paths_read (rs : list PageRequest) endpoint cursor_param page_size query ps :
  plain_endpoint endpoint = true → query_holds query ps → 0 ≤ page_size → clean_key cursor_param = true →
  read_path <$> omap (λ r, Some (keyset_path endpoint query page_size cursor_param r)) rs =
    (λ r, Some (endpoint, ps ++ [("limit", to_string page_size)] ++ cursor_pairs cursor_param (r_cursor r))) <$> rs.
Proof.
  intros. induction rs as [|r rs IH]; [done|]. cbn. rewrite IH. f_equal. by apply keyset_path_reads.
Qed.

Lemma walked_prefix (F : Fetch T) start endpoint p items :
  walked start endpoint p items → ∃ sent cursor, walk start sent cursor items ∧ sent `prefix_of` requests p.
Proof.
  unfold walked. destruct (error_ p).
  - intros [sent cursor limit e' Hw _|sent cursor Hw _|sent cursor Hw _]; exists sent, cursor; (split; [done|]);
      [by eexists|by exists []; rewrite app_nil_r..].
  - intros Hw. exists (requests p), (cursor_ (cursors_ p)). split; [apply (walking_pages _ _ _ _ Hw)|]. by exists []; rewrite app_nil_r.
Qed.

(** A walk that ended: the last page was read, or enough items were. *)
Definition walk_kept (F : Fetch T) (start : string) (max_items : Z) (p : Paginator T) (kept : list T) : Prop :=
  ∃ sent cursor items,
    walk start sent cursor items ∧ sent `prefix_of` requests p ∧ kept = take (Z.to_nat max_items) items ∧
    (sent = requests p ∧ cursor = "" ∨ max_items ≤ Z.of_nat (length items)).

Lemma collect_keyset (F : Fetch T) endpoint limit resume max_items p :
  keyset_pages endpoint limit resume = Ok p → r_exhausted resume = false →
  ∃ q r, (∀ fuel, (1000 < fuel)%nat → collect fuel max_items p = Some (q, r)) ∧
    match r with
    | success kept => walk_kept F (r_cursor resume) max_items q kept
    | failure e => ∃ items, broken_walk (r_cursor resume) endpoint items (requests q) e
    end.
Proof.
  intros Hp Hx. destruct (keyset_walking F _ _ _ _ Hp Hx) as (Hw & Hm & Hb).
  destruct (collect_returns p max_items Hm) as (q & r & Hrun). rewrite Hb in Hrun. exists q, r. split; [done|].
  assert (∃ fuel, (1000 < fuel)%nat) as [fuel Hfuel] by (exists 1001%nat; lia). specialize (Hrun fuel Hfuel).
  unfold collect in Hrun. apply (collect_walks _ _ _ _ _ _ _ _ _ Hw) in Hrun as [items' Hc]; [|by rewrite take_nil].
  destruct r as [kept|e]; [|by exists items']. destruct Hc as [-> [(Hd & He & Hq)|[Hfull Hq]]].
  - unfold walked in Hq. rewrite He in Hq.
    exists (requests q), (cursor_ (cursors_ q)), items'. split; [apply (walking_pages _ _ _ _ Hq)|].
    split; [by exists []; rewrite app_nil_r|]. split; [done|left; split; [done|]]. by apply (walking_done _ _ _ _ Hq).
  - destruct (walked_prefix _ _ _ _ _ Hq) as (sent & cursor & Hwalk & Hpre). exists sent, cursor, items'.
    split; [done|]. split; [done|]. split; [done|by right].
Qed.

(** A listing walks the pages of the server.  For every server, every parser and a query whose text holds the pairs
    [ps], a page size out of range or a query that is refused makes [collect] fail with InvalidArgument, and nothing is
    sent.  Otherwise [collect] returns within 1001 rounds; every path it sent reads back as the endpoint with [ps], the
    limit and the cursor of its request; the cursor of each request is the one the page before it came with; what is
    returned are the first [max_items] of the items of those pages, in order, up to the last page unless there were
    enough; and an error is the error of a page, a repeated cursor or the thousandth page. *)
Lemma listing_walks endpoint page_size page_cap resume build_query max_items :
  plain_endpoint endpoint = true → 0 ≤ page_size → r_exhausted resume = false → 0 < max_items →
  (∀ query, build_query = Ok query → ∃ ps, query_holds query ps) →
  match checked_query page_size page_cap build_query with
  | Throw e =>
      if is_invalid_argument e then
        ∃ pager p q,
          cursor_pager endpoint page_size page_cap resume build_query parse_page = Ok pager ∧ pages pager = Ok p ∧
          (∀ fuel, (1000 < fuel)%nat → @collect T (page_answer pager) fuel max_items p =
             Some (q, failure (invalid_argument_error (what e) endpoint))) ∧
          paths_sent pager q = []
      else cursor_pager endpoint page_size page_cap resume build_query parse_page = Throw e
  | Ok query =>
      ∃ pager ps p q r,
        cursor_pager endpoint page_size page_cap resume build_query parse_page = Ok pager ∧ pages pager = Ok p ∧
        query_holds query ps ∧ (∀ fuel, (1000 < fuel)%nat → @collect T (page_answer pager) fuel max_items p = Some (q, r)) ∧
        paths_read endpoint "cursor" page_size ps pager q ∧
        match r with
        | success kept => walk_kept (page_answer pager) (r_cursor resume) max_items q kept
        | failure e => ∃ items, @broken_walk T (page_answer pager) (r_cursor resume) endpoint items (requests q) e
        end
  end.
Proof.
  intros Hend Hsize Hx Hmax Hq. destruct (checked_query page_size page_cap build_query) as [query|e] eqn:Ec.
  - assert (Hb : build_query = Ok query ∧ page_size ≠ 0).
    { unfold checked_query in Ec. apply bind_Ok in Ec as ([] & Hr%require_Ok & Hb). bools. split; [done|lia]. }
    destruct Hb as [Hb Hne]. destruct (Hq query Hb) as [ps Hps].
    assert (∃ p, @keyset_pages T endpoint page_size resume = Ok p) as [p Hp].
    { unfold keyset_pages, new_paginator. rewrite (proj2 (Z.eqb_neq _ _) Hne). by eexists. }
    set (F := @fetched _ _ _ T endpoint (keyset_path endpoint query page_size "cursor") parse_page).
    destruct (collect_keyset F endpoint page_size resume max_items p Hp Hx) as (q & r & Hrun & Hr).
    exists (keyset_pager endpoint query page_size resume None "cursor" parse_page), ps, p, q, r.
    unfold cursor_pager. fold (checked_query page_size page_cap build_query). rewrite Ec.
    split_and!; try done. by apply sent_paths_read.
  - destruct e as [w| | |]; try by unfold cursor_pager; fold (checked_query page_size page_cap build_query); rewrite Ec.
    cbn [is_invalid_argument what].
    assert (∃ p, @keyset_pages T endpoint 1 resume = Ok p) as [p Hp] by by eexists.
    set (error := invalid_argument_error w endpoint).
    destruct (keyset_walking (λ _ _, failure error) _ _ _ _ Hp Hx) as (Hw & _).
    assert (done_ p = false ∧ error_ p = None ∧ requests p = []) as (Hd & He & Hr) by by injection Hp as <-.
    destruct (refused_first (λ _ _, failure error) error endpoint (r_cursor resume) p max_items) as [q Hrun]; [done..|].
    exists (refused (keyset_pages endpoint 1 resume) error), p, q.
    unfold cursor_pager. fold (checked_query page_size page_cap build_query). rewrite Ec.
    split_and!; [done|done| |].
    + intros [|fuel] Hf; [lia|]. apply Hrun.
    + unfold paths_sent. cbn. by induction (requests q).
Qed.
End Listings.
