(* ===== verification/GammaQueries.v ===== *)
(** * Requests of the Gamma API
    (src/gamma_query.cpp, gamma_catalog_query.cpp, gamma_client.cpp, gamma_catalog_client.cpp,
    gamma_social_client.cpp)

    The filters of the listings, the queries and the paths of the requests, and the
    slug of a Polymarket URL. *)
From Stdlib Require Import Ascii String Floats.SpecFloat.
From S2P Require Import Prelude Text Float64 Sdk Query.

#[local] Open Scope Z_scope.

(** ** Filters and options *)

Record GammaMarketFilter := MkGammaMarketFilter {
  gm_ascending : option bool; gm_closed : option bool; gm_clob_token_ids : list string;
  gm_condition_ids : list string; gm_cyom : option bool; gm_decimalized : option bool; gm_end_date_max : string;
  gm_end_date_min : string; gm_game_id : string; gm_ids : list Z; gm_include_tag : option bool;
  gm_liquidity_num_max : option double; gm_liquidity_num_min : option double; gm_locale : string;
  gm_market_maker_addresses : list string; gm_order : string; gm_position_ids : list string;
  gm_question_ids : list string; gm_related_tags : option bool; gm_rfq_enabled : option bool;
  gm_rewards_min_size : option double; gm_slugs : list string; gm_sports_market_types : list string;
  gm_start_date_max : string; gm_start_date_min : string; gm_tag_id : option Z; gm_tag_match : string;
  gm_uma_resolution_status : string; gm_volume_num_max : option double; gm_volume_num_min : option double }.

Record GammaEventFilter := MkGammaEventFilter {
  ge_ascending : option bool; ge_closed : option bool; ge_cyom : option bool; ge_end_date_max : string;
  ge_end_date_min : string; ge_ended : option bool; ge_event_date : string; ge_event_week : option Z;
  ge_exclude_tag_ids : list Z; ge_featured : option bool; ge_featured_order : option bool; ge_game_ids : list Z;
  ge_ids : list Z; ge_include_best_lines : option bool; ge_include_chat : option bool;
  ge_include_children : option bool; ge_include_template : option bool; ge_liquidity_max : option double;
  ge_liquidity_min : option double; ge_live : option bool; ge_locale : string; ge_order : string;
  ge_parent_event_id : option Z; ge_partner_slug : string; ge_recurrence : string;
  ge_related_tags : option bool; ge_series_ids : list Z; ge_slugs : list string; ge_start_date_max : string;
  ge_start_date_min : string; ge_start_time_max : string; ge_start_time_min : string; ge_tag_ids : list Z;
  ge_tag_match : string; ge_tag_slug : string; ge_title_search : string; ge_volume_max : option double;
  ge_volume_min : option double }.

Record GammaMarketLookupOptions := MkGammaMarketLookupOptions {
  gml_include_tag : option bool; gml_locale : string }.

Record GammaEventLookupOptions := MkGammaEventLookupOptions {
  gel_include_best_lines : option bool; gel_include_chat : option bool; gel_include_template : option bool;
  gel_locale : string }.

Record GammaTagLookupOptions := MkGammaTagLookupOptions {
  gtl_include_template : option bool; gtl_locale : string }.

Record GammaRelatedTagOptions := MkGammaRelatedTagOptions {
  grt_omit_empty : option bool; grt_status : string }.

Record GammaRelatedTagResourceOptions := MkGammaRelatedTagResourceOptions {
  grr_locale : string; grr_omit_empty : option bool; grr_status : string }.

Record GammaTagFilter := MkGammaTagFilter {
  gt_ascending : option bool; gt_include_template : option bool; gt_is_carousel : option bool;
  gt_locale : string; gt_order : string }.

Record GammaSeriesFilter := MkGammaSeriesFilter {
  gs_ascending : option bool; gs_closed : option bool; gs_exclude_events : option bool; gs_locale : string;
  gs_order : string; gs_recurrence : string; gs_slugs : list string }.

Record GammaTeamFilter := MkGammaTeamFilter {
  gtm_abbreviations : list string; gtm_ascending : option bool; gtm_leagues : list string;
  gtm_names : list string; gtm_order : string; gtm_provider_ids : list Z }.

Record GammaSearchOptions := MkGammaSearchOptions {
  gso_ascending : option bool; gso_cache : option bool; gso_events_status : string;
  gso_events_tags : list string; gso_exclude_tag_ids : list Z; gso_keep_closed_markets : option Z;
  gso_optimized : option bool; gso_presets : list string; gso_recurrence : string;
  gso_search_profiles : option bool; gso_search_tags : option bool; gso_sort : string }.

Record GammaCommentFilter := MkGammaCommentFilter {
  gc_ascending : option bool; gc_get_positions : option bool; gc_holders_only : option bool; gc_order : string }.

Record GammaUserCommentFilter := MkGammaUserCommentFilter {
  guc_ascending : option bool; guc_order : string }.

(** ** Orders, paths and URLs *)

Definition is_gap (c : ascii) : bool := bool_decide (c = " "%char) || bool_decide (c = "009"%char).

Fixpoint drop_gaps (cs : list ascii) : list ascii :=
  match cs with c :: rest => if is_gap c then drop_gaps rest else cs | [] => [] end.
Definition trim (cs : list ascii) : list ascii := rev (drop_gaps (rev (drop_gaps cs))).

(** The texts between the separators. *)
Fixpoint split_on (stop : ascii) (cs : list ascii) : list (list ascii) :=
  match cs with
  | [] => [[]]
  | c :: cs =>
      if bool_decide (c = stop) then [] :: split_on stop cs
      else match split_on stop cs with first :: rest => (c :: first) :: rest | [] => [[c]] end
  end.

Definition order_token (token : list ascii) : list ascii :=
  let token := trim token in
  let token := if bool_decide (token = chars "volume") then chars "volumeNum" else token in
  if bool_decide (token = chars "liquidity") then chars "liquidityNum" else token.

Fixpoint join_on (stop : ascii) (parts : list (list ascii)) : list ascii :=
  match parts with [] => [] | [part] => part | part :: parts => part ++ stop :: join_on stop parts end.

Definition normalize_market_order (order : string) : string :=
  if bool_decide (order = "") then order
  else str (join_on "," (order_token <$> split_on "," (chars order))).

Definition require_nonempty (name value : string) : res unit :=
  require (negb (bool_decide (value = ""))) (invalid_argument (name +:+ " cannot be empty")).

Definition gamma_id_path (kind id : string) : res string :=
  require_nonempty "id" id;; Ok ("/" +:+ kind +:+ "s/" +:+ percent_encode_query_value id).

Definition gamma_slug_path (kind slug : string) : res string :=
  require_nonempty "slug" slug;; Ok ("/" +:+ kind +:+ "s/slug/" +:+ percent_encode_query_value slug).

(** The text before the first of the characters, and the rest with it. *)
Fixpoint before_any (stops cs : list ascii) : list ascii * list ascii :=
  match cs with
  | [] => ([], [])
  | c :: rest =>
      if bool_decide (c ∈ stops) then ([], cs)
      else let '(before, after) := before_any stops rest in (c :: before, after)
  end.

Definition scheme : list ascii := chars "https://".

Definition url_segments (rest : list ascii) : list (list ascii) :=
  match rest with
  | "/"%char :: _ =>
      List.filter (λ s, negb (bool_decide (s = []))) (split_on "/" (before_any (chars "?#") rest).1)
  | _ => []
  end.

Definition gamma_slug_from_url (kind url : string) : res string :=
  let text := chars url in
  require (bool_decide (take (length scheme) text = scheme)) (invalid_argument "Expected a valid Polymarket URL.");;
  let '(authority, rest) := before_any (chars "/?#") (drop (length scheme) text) in
  require (bool_decide (authority = chars "polymarket.com") || bool_decide (authority = chars "www.polymarket.com"))
    (invalid_argument "Expected a valid Polymarket URL.");;
  let segments := url_segments rest in
  let wrong := invalid_argument ("Expected a Polymarket " +:+ kind +:+ " URL.") in
  match segments with
  | [s0; s1; s2] =>
      if bool_decide (kind = "market") && bool_decide (s0 = chars "event") then Ok (str s2) else Throw wrong
  | [s0; s1] =>
      if (bool_decide (kind = "market") && bool_decide (s0 = chars "event")) || bool_decide (s0 = chars kind)
      then Ok (str s1) else Throw wrong
  | _ => Throw wrong
  end.

Section Requests.
Context `{JsonLibrary}.

(** ** Queries *)

Definition gamma_market_list_query (filter : GammaMarketFilter) : res string :=
  check_choice "tag_match" (gm_tag_match filter) ["any"; "all"];;
  build
    [("ascending", PBool (gm_ascending filter)); ("closed", PBool (gm_closed filter));
     ("clob_token_ids", PTexts (gm_clob_token_ids filter)); ("condition_ids", PTexts (gm_condition_ids filter));
     ("cyom", PBool (gm_cyom filter)); ("decimalized", PBool (gm_decimalized filter));
     ("end_date_max", PText (gm_end_date_max filter)); ("end_date_min", PText (gm_end_date_min filter));
     ("game_id", PText (gm_game_id filter)); ("id", PIntegers (gm_ids filter));
     ("include_tag", PBool (gm_include_tag filter));
     ("liquidity_num_max", PDouble (gm_liquidity_num_max filter));
     ("liquidity_num_min", PDouble (gm_liquidity_num_min filter)); ("locale", PText (gm_locale filter));
     ("market_maker_address", PTexts (gm_market_maker_addresses filter));
     ("order", PText (normalize_market_order (gm_order filter)));
     ("position_ids", PTexts (gm_position_ids filter)); ("question_ids", PTexts (gm_question_ids filter));
     ("related_tags", PBool (gm_related_tags filter)); ("rfq_enabled", PBool (gm_rfq_enabled filter));
     ("rewards_min_size", PDouble (gm_rewards_min_size filter)); ("slug", PTexts (gm_slugs filter));
     ("sports_market_types", PTexts (gm_sports_market_types filter));
     ("start_date_max", PText (gm_start_date_max filter)); ("start_date_min", PText (gm_start_date_min filter));
     ("tag_id", PInteger (gm_tag_id filter)); ("tag_match", PText (gm_tag_match filter));
     ("uma_resolution_status", PText (gm_uma_resolution_status filter));
     ("volume_num_max", PDouble (gm_volume_num_max filter));
     ("volume_num_min", PDouble (gm_volume_num_min filter))].

Definition gamma_event_list_query (filter : GammaEventFilter) : res string :=
  check_choice "recurrence" (ge_recurrence filter) ["daily"; "weekly"; "monthly"];;
  check_choice "tag_match" (ge_tag_match filter) ["any"; "all"];;
  build
    [("ascending", PBool (ge_ascending filter)); ("closed", PBool (ge_closed filter));
     ("cyom", PBool (ge_cyom filter)); ("end_date_max", PText (ge_end_date_max filter));
     ("end_date_min", PText (ge_end_date_min filter)); ("ended", PBool (ge_ended filter));
     ("event_date", PText (ge_event_date filter)); ("event_week", PInteger (ge_event_week filter));
     ("exclude_tag_id", PIntegers (ge_exclude_tag_ids filter)); ("featured", PBool (ge_featured filter));
     ("featured_order", PBool (ge_featured_order filter)); ("game_id", PIntegers (ge_game_ids filter));
     ("id", PIntegers (ge_ids filter)); ("include_best_lines", PBool (ge_include_best_lines filter));
     ("include_chat", PBool (ge_include_chat filter)); ("include_children", PBool (ge_include_children filter));
     ("include_template", PBool (ge_include_template filter));
     ("liquidity_max", PDouble (ge_liquidity_max filter)); ("liquidity_min", PDouble (ge_liquidity_min filter));
     ("live", PBool (ge_live filter)); ("locale", PText (ge_locale filter)); ("order", PText (ge_order filter));
     ("parent_event_id", PInteger (ge_parent_event_id filter));
     ("partner_slug", PText (ge_partner_slug filter)); ("recurrence", PText (ge_recurrence filter));
     ("related_tags", PBool (ge_related_tags filter)); ("series_id", PIntegers (ge_series_ids filter));
     ("slug", PTexts (ge_slugs filter)); ("start_date_max", PText (ge_start_date_max filter));
     ("start_date_min", PText (ge_start_date_min filter)); ("start_time_max", PText (ge_start_time_max filter));
     ("start_time_min", PText (ge_start_time_min filter)); ("tag_id", PIntegers (ge_tag_ids filter));
     ("tag_match", PText (ge_tag_match filter)); ("tag_slug", PText (ge_tag_slug filter));
     ("title_search", PText (ge_title_search filter)); ("volume_max", PDouble (ge_volume_max filter));
     ("volume_min", PDouble (ge_volume_min filter))].

Definition gamma_market_lookup_query (options : GammaMarketLookupOptions) : res string :=
  build
    [("include_tag", PBool (gml_include_tag options)); ("locale", PText (gml_locale options))].

Definition gamma_event_lookup_query (options : GammaEventLookupOptions) : res string :=
  build
    [("include_best_lines", PBool (gel_include_best_lines options));
     ("include_chat", PBool (gel_include_chat options));
     ("include_template", PBool (gel_include_template options)); ("locale", PText (gel_locale options))].

Definition gamma_tag_list_query (filter : GammaTagFilter) : res string :=
  build
    [("ascending", PBool (gt_ascending filter)); ("include_template", PBool (gt_include_template filter));
     ("is_carousel", PBool (gt_is_carousel filter)); ("locale", PText (gt_locale filter));
     ("order", PText (gt_order filter))].

Definition gamma_series_list_query (filter : GammaSeriesFilter) : res string :=
  check_choice "recurrence" (gs_recurrence filter) ["daily"; "weekly"; "monthly"];;
  build
    [("ascending", PBool (gs_ascending filter)); ("closed", PBool (gs_closed filter));
     ("exclude_events", PBool (gs_exclude_events filter)); ("locale", PText (gs_locale filter));
     ("order", PText (gs_order filter)); ("recurrence", PText (gs_recurrence filter));
     ("slug", PTexts (gs_slugs filter))].

Definition gamma_team_list_query (filter : GammaTeamFilter) : res string :=
  build
    [("abbreviation", PTexts (gtm_abbreviations filter)); ("ascending", PBool (gtm_ascending filter));
     ("league", PTexts (gtm_leagues filter)); ("name", PTexts (gtm_names filter));
     ("order", PText (gtm_order filter)); ("provider_id", PIntegers (gtm_provider_ids filter))].

Definition gamma_tag_lookup_query (options : GammaTagLookupOptions) : res string :=
  build
    [("include_template", PBool (gtl_include_template options)); ("locale", PText (gtl_locale options))].

Definition gamma_related_tag_query (options : GammaRelatedTagOptions) : res string :=
  build
    [("omit_empty", PBool (grt_omit_empty options)); ("status", PText (grt_status options))].

Definition gamma_related_tag_resource_query (options : GammaRelatedTagResourceOptions) : res string :=
  build
    [("locale", PText (grr_locale options)); ("omit_empty", PBool (grr_omit_empty options));
     ("status", PText (grr_status options))].

(** [search_query], and the queries of the comments. *)
Definition search_query (q : string) (options : GammaSearchOptions) : res string :=
  require_nonempty "q" q;;
  check_choice "recurrence" (gso_recurrence options) ["daily"; "weekly"; "monthly"];;
  check_choice "sort" (gso_sort options)
    ["volume"; "volume_24hr"; "liquidity"; "competitive"; "closed_time"; "start_date"; "end_date"];;
  build
    [("q", PText q); ("ascending", PBool (gso_ascending options)); ("cache", PBool (gso_cache options));
     ("events_status", PText (gso_events_status options)); ("events_tag", PTexts (gso_events_tags options));
     ("exclude_tag_id", PIntegers (gso_exclude_tag_ids options));
     ("keep_closed_markets", PInteger (gso_keep_closed_markets options)); ("optimized", PBool (gso_optimized options));
     ("presets", PTexts (gso_presets options)); ("recurrence", PText (gso_recurrence options));
     ("search_profiles", PBool (gso_search_profiles options)); ("search_tags", PBool (gso_search_tags options));
     ("sort", PText (gso_sort options))].

Definition check_comment_parent (parent_entity_id parent_entity_type : string) : res unit :=
  require_nonempty "parent_entity_id" parent_entity_id;;
  require (bool_decide (parent_entity_type = "Event") || bool_decide (parent_entity_type = "Series"))
    (invalid_argument "parent_entity_type must be one of: Event, Series").

Definition comments_by_cursor (filter : GammaCommentFilter) : bool :=
  negb (default false (gc_get_positions filter)) && negb (default false (gc_holders_only filter)) &&
  (bool_decide (gc_order filter = "") || bool_decide (gc_order filter = "id") || bool_decide (gc_order filter = "createdAt")).

Definition comments_offset_query (parent_entity_id parent_entity_type : string) (filter : GammaCommentFilter) : res string :=
  check_comment_parent parent_entity_id parent_entity_type;;
  build
    [("parent_entity_id", PText parent_entity_id); ("parent_entity_type", PText parent_entity_type);
     ("ascending", PBool (gc_ascending filter)); ("get_positions", PBool (gc_get_positions filter));
     ("holders_only", PBool (gc_holders_only filter)); ("order", PText (gc_order filter))].

Definition comments_keyset_query (parent_entity_id parent_entity_type : string) (filter : GammaCommentFilter)
    (page_size : Z) : res string :=
  check_comment_parent parent_entity_id parent_entity_type;;
  require (negb ((page_size =? 0) || (100 <? page_size))) (invalid_argument "page_size must be between 1 and 100");;
  let order := if bool_decide (gc_order filter = "") then "createdAt" else gc_order filter in
  let ascending := if bool_decide (gc_order filter = "") then false else default true (gc_ascending filter) in
  build
    [("parent_entity_id", PText parent_entity_id); ("parent_entity_type", PText parent_entity_type);
     ("order", PText order); ("ascending", PBool (Some ascending))].

Definition user_comments_query (address : string) (filter : GammaUserCommentFilter) : res string :=
  require_nonempty "address" address;;
  build [("ascending", PBool (guc_ascending filter)); ("order", PText (guc_order filter))].

(** ** Paths of the lookups *)

Definition joined_path (path query : res string) : res string := path ← path; query ← query; Ok (path +:+ query).

Definition market_by_id_path (id : string) (options : GammaMarketLookupOptions) : res string :=
  joined_path (gamma_id_path "market" id) (gamma_market_lookup_query options).
Definition market_by_slug_path (slug : string) (options : GammaMarketLookupOptions) : res string :=
  joined_path (gamma_slug_path "market" slug) (gamma_market_lookup_query options).
Definition market_by_url_path (url : string) (options : GammaMarketLookupOptions) : res string :=
  slug ← gamma_slug_from_url "market" url; market_by_slug_path slug options.
Definition market_tags_path (market_id : string) : res string :=
  joined_path (gamma_id_path "market" market_id) (Ok "/tags").
Definition event_by_id_path (id : string) (options : GammaEventLookupOptions) : res string :=
  joined_path (gamma_id_path "event" id) (gamma_event_lookup_query options).
Definition event_by_slug_path (slug : string) (options : GammaEventLookupOptions) : res string :=
  joined_path (gamma_slug_path "event" slug) (gamma_event_lookup_query options).
Definition event_by_url_path (url : string) (options : GammaEventLookupOptions) : res string :=
  slug ← gamma_slug_from_url "event" url; event_by_slug_path slug options.
Definition event_tags_path (event_id : string) : res string :=
  joined_path (gamma_id_path "event" event_id) (Ok "/tags").

Definition tag_by_id_path (id : string) (options : GammaTagLookupOptions) : res string :=
  joined_path (gamma_id_path "tag" id) (gamma_tag_lookup_query options).
Definition tag_by_slug_path (slug : string) (options : GammaTagLookupOptions) : res string :=
  require (bool_decide (gtl_include_template options = None))
    (invalid_argument "include_template is only supported for tag id lookup.");;
  joined_path (gamma_slug_path "tag" slug) (gamma_tag_lookup_query options).
Definition related_tags_by_id_path (id : string) (options : GammaRelatedTagOptions) : res string :=
  joined_path (joined_path (gamma_id_path "tag" id) (Ok "/related-tags")) (gamma_related_tag_query options).
Definition related_tags_by_slug_path (slug : string) (options : GammaRelatedTagOptions) : res string :=
  require (bool_decide (grt_omit_empty options = None) && bool_decide (grt_status options = ""))
    (invalid_argument "omit_empty and status are only supported for related tag id lookup.");;
  joined_path (gamma_slug_path "tag" slug) (Ok "/related-tags").
Definition related_tag_resources_by_id_path (id : string) (options : GammaRelatedTagResourceOptions) : res string :=
  joined_path (joined_path (gamma_id_path "tag" id) (Ok "/related-tags/tags")) (gamma_related_tag_resource_query options).
Definition related_tag_resources_by_slug_path (slug : string) (options : GammaRelatedTagResourceOptions) : res string :=
  joined_path (joined_path (gamma_slug_path "tag" slug) (Ok "/related-tags/tags")) (gamma_related_tag_resource_query options).
Definition series_path (id locale : string) : res string :=
  require (negb (bool_decide (id = ""))) (invalid_argument "id cannot be empty");;
  joined_path (Ok ("/series/" +:+ percent_encode_query_value id)) (build [("locale", PText locale)]).
Definition comment_thread_path (id : string) (get_positions : option bool) : res string :=
  require_nonempty "id" id;;
  joined_path (Ok ("/comments/" +:+ percent_encode_query_value id)) (build [("get_positions", PBool get_positions)]).
Definition public_profile_path (address : string) : res string :=
  require_nonempty "address" address;;
  joined_path (Ok "/public-profile") (build [("address", PText address)]).
End Requests.

(** ** Links *)

(** A text of the links of the site: some characters, none of them a separator. *)
Definition slug_ok (cs : list ascii) : bool :=
  negb (bool_decide (cs = [])) && forallb (λ c, negb (bool_decide (c ∈ chars "/?#"))) cs.

(** What may follow a path: nothing, a query or a fragment. *)
Definition tail_ok (tail : list ascii) : bool :=
  match tail with [] => true | c :: _ => bool_decide (c ∈ chars "?#") end.

(** "/a/b" for the segments a and b. *)
Definition slashed (segments : list (list ascii)) : list ascii := flat_map (cons "/"%char) segments.

Lemma slug_ok_no cs c : slug_ok cs = true → c ∈ chars "/?#" → c ∉ cs.
Proof.
  unfold slug_ok. intros [_ Hs]%andb_true_iff Hc Hin. rewrite forallb_forall in Hs.
  apply list_elem_of_In, Hs in Hin. by rewrite bool_decide_eq_true_2 in Hin.
Qed.

Lemma before_any_app stops cs rest :
  (∀ c, c ∈ cs → c ∉ stops) → match rest with [] => True | c :: _ => c ∈ stops end →
  before_any stops (cs ++ rest) = (cs, rest).
Proof.
  intros Hcs Hr. induction cs as [|c cs IH]; cbn [app].
  - destruct rest as [|c rest]; [done|]. cbn. by rewrite bool_decide_eq_true_2.
  - cbn [before_any]. rewrite bool_decide_eq_false_2 by (apply Hcs; by left). rewrite IH; [done|].
    intros x Hx. apply Hcs. by right.
Qed.

Lemma split_on_slash cs rest : "/"%char ∉ cs → split_on "/" (cs ++ "/"%char :: rest) = cs :: split_on "/" rest.
Proof.
  induction cs as [|c cs IH]; intros Hn; cbn; [done|]. rewrite bool_decide_eq_false_2 by set_solver.
  rewrite IH by set_solver. done.
Qed.

Lemma split_on_none cs : "/"%char ∉ cs → split_on "/" cs = [cs].
Proof.
  induction cs as [|c cs IH]; intros Hn; cbn; [done|]. rewrite bool_decide_eq_false_2 by set_solver.
  rewrite IH by set_solver. done.
Qed.

Lemma split_slashed segment segments :
  forallb slug_ok (segment :: segments) = true →
  split_on "/" (segment ++ slashed segments) = segment :: segments.
Proof.
  revert segment. induction segments as [|next segments IH]; intros segment; cbn [forallb]; intros [Hs Hr]%andb_true_iff.
  - cbn. rewrite app_nil_r. apply split_on_none. apply (slug_ok_no _ _ Hs). set_solver.
  - change (slashed (next :: segments)) with ("/"%char :: next ++ slashed segments). rewrite split_on_slash by (apply (slug_ok_no _ _ Hs); set_solver). f_equal. by apply IH.
Qed.

Lemma slashed_plain segments c : forallb slug_ok segments = true → c ∈ slashed segments → c ∉ chars "?#".
Proof.
  rewrite forallb_forall. intros Hs Hin. unfold slashed in Hin. apply list_elem_of_In, in_flat_map in Hin as (s & Hs' & Hc).
  destruct Hc as [<-|Hc]; [by set_solver|]. intros Hq. apply Hs in Hs'. eapply (slug_ok_no _ c Hs'); [set_solver|].
  by apply list_elem_of_In.
Qed.

Lemma url_segments_slashed segments tail :
  segments ≠ [] → forallb slug_ok segments = true → tail_ok tail = true → url_segments (slashed segments ++ tail) = segments.
Proof.
  intros Hne Hs Ht. destruct segments as [|segment segments]; [done|].
  assert (Hb : before_any (chars "?#") (slashed (segment :: segments) ++ tail) = (slashed (segment :: segments), tail)).
  { apply before_any_app; [intros; by eapply slashed_plain|]. destruct tail; [done|]. by apply bool_decide_eq_true in Ht. }
  change (url_segments (slashed (segment :: segments) ++ tail)) with
    (List.filter (λ s, negb (bool_decide (s = []))) (split_on "/" (before_any (chars "?#") (slashed (segment :: segments) ++ tail)).1)).
  rewrite Hb. cbn [fst slashed flat_map]. change (flat_map (cons "/"%char) segments) with (slashed segments).
  assert (split_on "/" (("/"%char :: segment) ++ slashed segments) = [] :: split_on "/" (segment ++ slashed segments))
    as -> by done.
  rewrite split_slashed by done. transitivity (List.filter (λ s, negb (bool_decide (s = []))) (segment :: segments)); [done|].
  apply forallb_filter_id. rewrite forallb_forall in Hs |- *. intros s Hin. specialize (Hs s Hin). unfold slug_ok in Hs.
  by apply andb_true_iff in Hs as [Hs _].
Qed.

Definition site_host (host : string) : Prop := host = "polymarket.com" ∨ host = "www.polymarket.com".

(** A link of the site. *)
Definition link (host : string) (segments : list (list ascii)) (tail : list ascii) : string :=
  str (scheme ++ chars host ++ slashed segments ++ tail).

(** The slug of a link: the last segment of /event/e/m and /event/e, or of
    /market/m, for a market; of /event/e for an event. *)
Lemma slug_of_link host segments tail kind :
  site_host host → forallb slug_ok segments = true → tail_ok tail = true → kind = "market" ∨ kind = "event" →
  gamma_slug_from_url kind (link host segments tail) =
    match segments with
    | [section; slug] =>
        if bool_decide (section = chars kind) || bool_decide (kind = "market" ∧ section = chars "event") then Ok (str slug)
        else Throw (invalid_argument ("Expected a Polymarket " +:+ kind +:+ " URL."))
    | [section; _; slug] =>
        if bool_decide (kind = "market" ∧ section = chars "event") then Ok (str slug)
        else Throw (invalid_argument ("Expected a Polymarket " +:+ kind +:+ " URL."))
    | _ => Throw (invalid_argument ("Expected a Polymarket " +:+ kind +:+ " URL."))
    end.
Proof.
  intros Hh Hs Ht Hk. unfold gamma_slug_from_url, link. rewrite chars_str.
  rewrite drop_app_length, (bool_decide_eq_true_2 (take _ _ = _)) by apply take_app_length. cbn [require mbind res_bind].
  rewrite before_any_app.
  2: { intros c Hc. destruct Hh as [-> | ->]; set_solver. }
  2: { destruct segments; cbn; [|set_solver]. destruct tail; [done|]. cbn in Ht. bools. set_solver. }
  assert (bool_decide (chars host = chars "polymarket.com") || bool_decide (chars host = chars "www.polymarket.com") = true) as ->
    by by destruct Hh as [-> | ->].
  cbn [require mbind res_bind].
  assert (url_segments (slashed segments ++ tail) = segments) as ->.
  { destruct segments; [|by apply url_segments_slashed]. cbn. destruct tail as [|c tail]; [done|]. cbn in Ht. bools.
    cbn. assert (c = "?"%char ∨ c = "#"%char) as [-> | ->] by set_solver; done. }
  destruct segments as [|s0 [|s1 [|s2 []]]]; try done.
  - repeat case_bool_decide; cbn; naive_solver.
  - repeat case_bool_decide; cbn; naive_solver.
Qed.
