(* ===== verification/ClobRows.v ===== *)
(** * Rows of the exchange's REST answers (src/clob_parsing.cpp,
    clob_trade_parsing.cpp, clob_market_parsing.cpp, market_fee_parsing.hpp,
    clob_rewards_parsing.cpp)

    Open orders, trades, markets with their fees, rewards and earnings.  A page
    of orders or trades is refused when one row is malformed; a page of markets
    leaves the malformed rows out. *)
From Stdlib Require Import Ascii String Floats.SpecFloat.
From S2P Require Import Prelude Text Float64 Sdk TradeSettlement RestParsing MarketTime.

#[local] Open Scope Z_scope.

(** ** Rows *)

Record OpenOrder := MkOpenOrder {
  oo_id : string; oo_owner : string; oo_maker_address : string; oo_market : string; oo_asset_id : string;
  oo_side : string; oo_original_size : string; oo_size_matched : string; oo_price : string; oo_status : string;
  oo_associate_trades : list string; oo_outcome : string; oo_created_at : string; oo_expiration : string;
  oo_order_type : string }.

Record Token := MkToken { token_id : string; token_outcome : string }.

Record MarketFeeFields := MkFees {
  fees_on : bool; maker_base : double; taker_base : double; curve_rate : double; curve_exponent : Z }.

Record ClobMarket := MkClobMarket {
  m_condition_id : string; m_question : string; m_market_slug : string; m_tokens : list Token; m_neg_risk : bool;
  m_active : bool; m_closed : bool; m_minimum_order_size : double; m_minimum_tick_size : string; m_end_time_ms : Z;
  m_fees : MarketFeeFields }.

Record RewardToken := MkRewardToken { rt_token_id : string; rt_outcome : string; rt_price : string }.

Record RewardsConfig := MkRewardsConfig {
  rc_id : string; rc_asset_address : string; rc_start_date : string; rc_end_date : string; rc_rate_per_day : string;
  rc_total_rewards : string; rc_total_days : string }.

Record RewardsInfo := MkRewardsInfo {
  ri_condition_id : string; ri_question : string; ri_market_slug : string; ri_event_slug : string; ri_image : string;
  ri_rewards_max_spread : string; ri_rewards_min_size : string; ri_market_competitiveness : string;
  ri_tokens : list RewardToken; ri_rewards_config : list RewardsConfig }.

Record EarningsInfo := MkEarnings {
  ei_date : string; ei_condition_id : string; ei_asset_address : string; ei_maker_address : string;
  ei_earnings : string; ei_asset_rate : string }.

Section Rows.
Context `{JsonLibrary, JsonRuntime}.

(** The field of an object, and a loop over the rows of an array. *)
Definition row_array {A} (value : json) (parse : json → res A) (bad : exn) : res (list A) :=
  match value with JArray items => mapM parse items | _ => Throw bad end.

Definition text_or (bad : exn) (value : json) : res string :=
  match value with JString s => Ok s | _ => Throw bad end.

(** ** Open orders *)

Definition required_order_string (item : json) (field : string) : res string :=
  value ← json_at item field;
  text_or (invalid_argument ("open order " +:+ field +:+ " must be a string")) value.

Definition required_order_timestamp (item : json) : res string :=
  value ← json_at item "created_at";
  match value with
  | JString s => Ok s
  | JInteger _ => Ok (json_dump value)
  | _ => Throw (invalid_argument "open order created_at must be an integer or string")
  end.

Definition optional_order_string_array (item : json) (field : string) : res (list string) :=
  match json_field item field with
  | None | Some JNull => Ok []
  | Some values =>
      row_array values (text_or (invalid_argument ("open order " +:+ field +:+ " entries must be strings")))
        (invalid_argument ("open order " +:+ field +:+ " must be an array"))
  end.

Definition parse_open_order_object (item : json) : res OpenOrder :=
  require (is_object item) (invalid_argument "open order item must be an object");;
  id ← required_order_string item "id";
  owner ← required_order_string item "owner";
  maker_address ← required_order_string item "maker_address";
  market ← required_order_string item "market";
  asset_id ← required_order_string item "asset_id";
  side ← required_order_string item "side";
  original_size ← required_order_string item "original_size";
  size_matched ← required_order_string item "size_matched";
  price ← required_order_string item "price";
  status ← required_order_string item "status";
  associate_trades ← optional_order_string_array item "associate_trades";
  outcome ← required_order_string item "outcome";
  created_at ← required_order_timestamp item;
  expiration ← required_order_string item "expiration";
  order_type ← required_order_string item "order_type";
  Ok (MkOpenOrder id owner maker_address market asset_id side original_size size_matched price status associate_trades
        outcome created_at expiration order_type).

Definition parse_open_order_array (items : json) : res (list OpenOrder) :=
  row_array items parse_open_order_object (invalid_argument "open orders data must be an array").

Definition parse_open_order_json (json_text : string) : res OpenOrder :=
  parse_json json_text ≫= parse_open_order_object.

Definition parse_open_orders_json (json_text : string) : res (list OpenOrder) :=
  parsed ← parse_json json_text;
  match parsed with
  | JArray _ => parse_open_order_array parsed
  | _ =>
      match json_field parsed "data" with
      | Some data => parse_open_order_array data
      | None => Throw (invalid_argument "open orders response must be an array or paginated object")
      end
  end.

Definition parse_open_order_page_json (json_text : string) : res (list OpenOrder * string) :=
  parsed ← parse_json json_text;
  require (is_object parsed) (invalid_argument "open orders response must be an object");;
  cursor ← json_at parsed "next_cursor" ≫= text_or (invalid_argument "open orders next_cursor must be a string");
  orders ← json_at parsed "data" ≫= parse_open_order_array;
  Ok (orders, cursor).

(** ** Trades *)

Definition required_trade_string (item : json) (field context : string) : res string :=
  value ← json_at item field;
  text_or (invalid_argument (context +:+ " " +:+ field +:+ " must be a string")) value.

Definition required_bucket_index (item : json) : res Z :=
  value ← json_at item "bucket_index";
  match value with
  | JInteger index =>
      if (index <? 0) || (2 ^ 32 - 1 <? index) then Throw (out_of_range "trade bucket_index is outside uint32 range")
      else Ok index
  | _ => Throw (invalid_argument "trade bucket_index must be an unsigned integer")
  end.

Definition parse_maker_order (item : json) : res MakerOrder :=
  require (is_object item) (invalid_argument "maker order must be an object");;
  let text field := required_trade_string item field "maker order" in
  order_id ← text "order_id";
  owner ← text "owner";
  maker_address ← text "maker_address";
  matched_amount ← text "matched_amount";
  price ← text "price";
  fee_rate_bps ← text "fee_rate_bps";
  asset_id ← text "asset_id";
  outcome ← text "outcome";
  side ← text "side";
  Ok (MkMakerOrder order_id owner maker_address matched_amount price fee_rate_bps asset_id outcome side).

Definition parse_maker_orders (trade : json) : res (list MakerOrder) :=
  match json_field trade "maker_orders" with
  | None | Some JNull => Ok []
  | Some orders => row_array orders parse_maker_order (invalid_argument "trade maker_orders must be an array or null")
  end.

Definition transaction_hash_of (trade : json) : res string :=
  match json_field trade "transaction_hash" with
  | None | Some JNull => Ok ""
  | Some hash => text_or (invalid_argument "trade transaction_hash must be a string or null") hash
  end.

Definition error_message (trade : json) : res (option string) :=
  match json_field trade "error_msg" with
  | None | Some JNull => Ok None
  | Some error => Some <$> text_or (invalid_argument "trade error_msg must be a string or null") error
  end.

Definition parse_trade (item : json) : res Trade :=
  require (is_object item) (invalid_argument "trade must be an object");;
  let text field := required_trade_string item field "trade" in
  id ← text "id";
  taker_order_id ← text "taker_order_id";
  market ← text "market";
  asset_id ← text "asset_id";
  side ← text "side";
  size ← text "size";
  fee_rate_bps ← text "fee_rate_bps";
  price ← text "price";
  status ← text "status";
  match_time ← text "match_time";
  last_update ← text "last_update";
  outcome ← text "outcome";
  bucket_index ← required_bucket_index item;
  owner ← text "owner";
  maker_address ← text "maker_address";
  maker_orders ← parse_maker_orders item;
  hash ← transaction_hash_of item;
  trader_side ← text "trader_side";
  error ← error_message item;
  Ok (MkTrade id taker_order_id market asset_id side size fee_rate_bps price status match_time last_update outcome
        bucket_index owner maker_address maker_orders hash trader_side error).

Definition parse_trade_array (items : json) : res (list Trade) :=
  row_array items parse_trade (invalid_argument "trade page data must be an array").

Definition parse_trade_page_json (json_text : string) : res (list Trade * string) :=
  parsed ← parse_json json_text;
  require (is_object parsed) (invalid_argument "trade response must be an object");;
  cursor ← json_at parsed "next_cursor" ≫= text_or (invalid_argument "trade next_cursor must be a string");
  trades ← json_at parsed "data" ≫= parse_trade_array;
  Ok (trades, cursor).

(** ** Fees of a market *)

(** [static_cast<int>] of the library's [get<int>]. *)
Definition i32 (z : Z) : Z := (z + 2 ^ 31) mod 2 ^ 32 - 2 ^ 31.

Definition bad_exponent {A} : res A := Throw (invalid_argument "fee exponent must be a positive integer").

(** A number, or the digits [std::from_chars] reads; a sign is never positive. *)
Definition strict_fee_exponent (value : json) : res Z :=
  match value with
  | JInteger z => if 0 <? i32 z then Ok (i32 z) else bad_exponent
  | JString text =>
      let cs := chars text in
      if bool_decide (cs = []) || negb (all_decimal cs) then bad_exponent
      else
        let v := decimal_val cs in
        if (0 <? v) && (v <? 2 ^ 31) then Ok v else bad_exponent
  | _ => bad_exponent
  end.

(** The first of two names that is there. *)
Definition either_field (item : json) (first second : string) : option json :=
  match json_field item first with Some v => Some v | None => json_field item second end.

Definition parse_flag (item : json) : res bool :=
  match either_field item "fees_enabled" "feesEnabled" with
  | None => Ok false
  | Some (JBool b) => Ok b
  | Some _ => Throw (invalid_argument "fees_enabled must be boolean")
  end.

Definition parse_base (item : json) (snake camel : string) : res double :=
  match either_field item snake camel with
  | None => Ok fzero
  | Some v =>
      value ← strict_json_number v;
      require (negb (flt value fzero)) (invalid_argument "base fee must be nonnegative");;
      Ok value
  end.

Definition fone64 : double := of_Z binary64 1.

Definition parse_schedule (item : json) : res (double * Z) :=
  match either_field item "fee_schedule" "feeSchedule" with
  | None => Ok (fzero, 1)
  | Some fee =>
      require (is_object fee) (invalid_argument "fee schedule must be an object");;
      rate ← match either_field fee "rate" "r" with
             | None => Ok fzero
             | Some v =>
                 rate ← strict_json_number v;
                 require (negb (flt rate fzero || flt fone64 rate)) (invalid_argument "fee curve rate must be in [0, 1]");;
                 Ok rate
             end;
      exponent ← match either_field fee "exponent" "e" with None => Ok 1 | Some v => strict_fee_exponent v end;
      Ok (rate, exponent)
  end.

Definition parse_market_fee_fields (item : json) : res MarketFeeFields :=
  enabled ← parse_flag item;
  maker ← parse_base item "maker_base_fee" "makerBaseFee";
  taker ← parse_base item "taker_base_fee" "takerBaseFee";
  '(rate, exponent) ← parse_schedule item;
  Ok (MkFees (enabled || flt fzero maker || flt fzero taker || flt fzero rate) maker taker rate exponent).

(** ** Markets *)

Definition optional_market_string (item : json) (field : string) : res string :=
  match json_field item field with
  | None => Ok ""
  | Some v => text_or (invalid_argument ("market " +:+ field +:+ " must be a string")) v
  end.

Definition required_market_string (item : json) (field : string) : res string :=
  value ← optional_market_string item field;
  require (negb (bool_decide (value = ""))) (invalid_argument ("market " +:+ field +:+ " must not be empty"));;
  Ok value.

Definition optional_bool (item : json) (field : string) : res bool :=
  match json_field item field with
  | None => Ok false
  | Some (JBool b) => Ok b
  | Some _ => Throw (invalid_argument ("market " +:+ field +:+ " must be boolean"))
  end.

Definition decimal_string (value : json) : string :=
  match value with JString s => s | _ => json_dump value end.

Definition parse_token (value : json) : res Token :=
  require (is_object value) (invalid_argument "market token must be an object");;
  id ← required_market_string value "token_id";
  outcome ← required_market_string value "outcome";
  Ok (MkToken id outcome).

Definition parse_tokens (item : json) : res (list Token) :=
  match json_field item "tokens" with
  | Some (JArray ((_ :: _) as tokens)) => mapM parse_token tokens
  | _ => Throw (invalid_argument "market tokens must be a nonempty array")
  end.

Definition parse_minimum_order_size (item : json) : res double :=
  match json_field item "minimum_order_size" with
  | None => Ok fzero
  | Some v =>
      size ← strict_json_number v;
      require (negb (fle size fzero)) (invalid_argument "minimum_order_size must be positive");;
      Ok size
  end.

Definition parse_minimum_tick_size (item : json) : res string :=
  match json_field item "minimum_tick_size" with
  | None => Ok ""
  | Some v => json_orderbook_price v;; Ok (decimal_string v)
  end.

Definition parse_market (item : json) : res ClobMarket :=
  require (is_object item) (invalid_argument "market must be an object");;
  condition_id ← required_market_string item "condition_id";
  question ← optional_market_string item "question";
  market_slug ← optional_market_string item "market_slug";
  neg_risk ← optional_bool item "neg_risk";
  active ← optional_bool item "active";
  closed ← optional_bool item "closed";
  size ← parse_minimum_order_size item;
  tick ← parse_minimum_tick_size item;
  end_date ← optional_market_string item "end_date_iso";
  fees ← parse_market_fee_fields item;
  tokens ← parse_tokens item;
  Ok (MkClobMarket condition_id question market_slug tokens neg_risk active closed size tick
        (parse_iso8601_ms end_date) fees).

(** Rows that do not parse are left out. *)
Definition parse_market_items (items : json) : res (list ClobMarket) :=
  match items with
  | JArray items => Ok (omap (λ item, match parse_market item with Ok m => Some m | Throw _ => None end) items)
  | _ => Throw (invalid_argument "market data must be an array")
  end.

Definition parse_clob_markets_json (json_text : string) : res (list ClobMarket) :=
  parsed ← parse_json json_text;
  match parsed with
  | JArray _ => parse_market_items parsed
  | _ =>
      match json_field parsed "data" with
      | Some data => parse_market_items data
      | None => Throw (invalid_argument "market response must be an array or page object")
      end
  end.

Definition parse_clob_market_page_json (json_text : string) : res (list ClobMarket * string) :=
  parsed ← parse_json json_text;
  match json_field parsed "data", json_field parsed "next_cursor" with
  | Some data, Some (JString cursor) => markets ← parse_market_items data; Ok (markets, cursor)
  | _, _ => Throw (invalid_argument "market page requires data and next_cursor")
  end.
Definition ClobClient_parse_markets (json_text : string) : list ClobMarket :=
  match parse_clob_markets_json json_text with Ok markets => markets | Throw _ => [] end.

(** ** Rewards and earnings *)

Definition require_object (item : json) (name : string) : res unit :=
  require (is_object item) (invalid_argument (name +:+ " must be an object")).

Definition required_reward_string (item : json) (field : string) (allow_empty : bool) : res string :=
  text ← json_at item field ≫= text_or (invalid_argument (field +:+ " must be a string"));
  require (allow_empty || negb (bool_decide (text = ""))) (invalid_argument (field +:+ " must not be empty"));;
  Ok text.

Definition numeric_string (item : json) (field : string) : res string :=
  value ← json_at item field;
  strict_json_number value;;
  Ok (decimal_string value).

Definition integer_string (value : json) (field : string) : res string :=
  match value with
  | JInteger z => if z <? 0 then Throw (invalid_argument (field +:+ " must be nonnegative")) else Ok (json_dump value)
  | JString text =>
      if all_digits (chars text) then Ok text
      else Throw (invalid_argument (field +:+ " must be a nonnegative integer"))
  | _ => Throw (invalid_argument (field +:+ " must be an integer or string"))
  end.

(** A field that only a detailed row must have. *)
Definition reward_field (item : json) (detailed : bool) (field : string) (read : json → res string) : res string :=
  if detailed then json_at item field ≫= read
  else match json_field item field with Some value => read value | None => Ok "" end.

Definition parse_rewards_config (detailed : bool) (item : json) : res RewardsConfig :=
  require_object item "rewards_config item";;
  asset ← required_reward_string item "asset_address" false;
  start ← required_reward_string item "start_date" false;
  end_ ← required_reward_string item "end_date" false;
  rate ← numeric_string item "rate_per_day";
  total ← numeric_string item "total_rewards";
  id ← reward_field item detailed "id" (λ v, integer_string v "id");
  days ← reward_field item detailed "total_days" (λ _, numeric_string item "total_days");
  Ok (MkRewardsConfig id asset start end_ rate total days).

Definition parse_rewards_configs (item : json) (detailed : bool) : res (list RewardsConfig) :=
  configs ← json_at item "rewards_config";
  row_array configs (parse_rewards_config detailed) (invalid_argument "rewards_config must be an array").

Definition parse_reward_token (item : json) : res RewardToken :=
  require_object item "reward token";;
  id ← required_reward_string item "token_id" false;
  outcome ← required_reward_string item "outcome" false;
  price ← json_at item "price";
  json_probability price;;
  Ok (MkRewardToken id outcome (decimal_string price)).

Definition parse_reward_tokens (item : json) : res (list RewardToken) :=
  tokens ← json_at item "tokens";
  row_array tokens parse_reward_token (invalid_argument "tokens must be an array").

Definition parse_earning (require_condition : bool) (item : json) : res EarningsInfo :=
  require_object item "earning";;
  date ← required_reward_string item "date" false;
  condition ← (if require_condition then required_reward_string item "condition_id" false else Ok "");
  asset ← required_reward_string item "asset_address" false;
  maker ← required_reward_string item "maker_address" false;
  earnings ← numeric_string item "earnings";
  rate ← numeric_string item "asset_rate";
  Ok (MkEarnings date condition asset maker earnings rate).

Definition parse_current_reward_info (item : json) : res RewardsInfo :=
  require_object item "current reward";;
  condition ← required_reward_string item "condition_id" false;
  configs ← parse_rewards_configs item false;
  spread ← numeric_string item "rewards_max_spread";
  min_size ← numeric_string item "rewards_min_size";
  Ok (MkRewardsInfo condition "" "" "" "" spread min_size "" [] configs).

Definition parse_market_reward_info (item : json) : res RewardsInfo :=
  require_object item "market reward";;
  condition ← required_reward_string item "condition_id" false;
  question ← required_reward_string item "question" false;
  market_slug ← required_reward_string item "market_slug" false;
  event_slug ← required_reward_string item "event_slug" false;
  image ← required_reward_string item "image" true;
  spread ← numeric_string item "rewards_max_spread";
  min_size ← numeric_string item "rewards_min_size";
  competitiveness ← numeric_string item "market_competitiveness";
  tokens ← parse_reward_tokens item;
  configs ← parse_rewards_configs item true;
  Ok (MkRewardsInfo condition question market_slug event_slug image spread min_size competitiveness tokens configs).

Definition parse_user_earning_info : json → res EarningsInfo := parse_earning true.
Definition parse_total_user_earning_info : json → res EarningsInfo := parse_earning false.

(** ** Lemmas *)

(** The rows of a page of trades, written as the exchange writes them. *)
Definition maker_order_json (o : MakerOrder) : json :=
  JObject [("order_id", JString (maker_order_id o)); ("owner", JString (maker_owner o));
    ("maker_address", JString (maker_order_address o)); ("matched_amount", JString (matched_amount o));
    ("price", JString (maker_price o)); ("fee_rate_bps", JString (maker_fee_rate_bps o));
    ("asset_id", JString (maker_asset_id o)); ("outcome", JString (maker_outcome o)); ("side", JString (maker_side o))].

Definition trade_json (t : Trade) : json :=
  JObject [("id", JString (trade_id t)); ("taker_order_id", JString (taker_order_id t)); ("market", JString (market t));
    ("asset_id", JString (asset_id t)); ("side", JString (side t)); ("size", JString (size t));
    ("fee_rate_bps", JString (fee_rate_bps t)); ("price", JString (price t)); ("status", JString (status t));
    ("match_time", JString (match_time t)); ("last_update", JString (last_update t)); ("outcome", JString (outcome t));
    ("bucket_index", JInteger (bucket_index t)); ("owner", JString (owner t)); ("maker_address", JString (maker_address t));
    ("maker_orders", JArray (maker_order_json <$> maker_orders t)); ("transaction_hash", JString (transaction_hash t));
    ("trader_side", JString (trader_side t));
    ("error_msg", match error_msg t with Some e => JString e | None => JNull end)].

Lemma rest_maker_order_json o : parse_maker_order (maker_order_json o) = Ok o.
Proof. by destruct o. Qed.

Lemma mapM_json {A} (parse : json → res A) (write : A → json) l :
  Forall (λ x, parse (write x) = Ok x) l → mapM parse (write <$> l) = Ok l.
Proof. induction 1 as [|x l Hx _ IH]; [done|]. cbn. by rewrite Hx, IH. Qed.

Lemma mapM_Ok {A B} (f : A → res B) l k : mapM f l = Ok k → Forall2 (λ x y, f x = Ok y) l k.
Proof.
  revert k. induction l as [|x l IH]; intros k; cbn; [by intros [= <-]|].
  intros Hk. res_inv. constructor; [done|by apply IH].
Qed.

(** A trade is read back from its row, with its maker orders in order. *)
Lemma rest_trade_json t : 0 ≤ bucket_index t < 2 ^ 32 → parse_trade (trade_json t) = Ok t.
Proof.
  intros Hb. assert (Hm : parse_maker_orders (trade_json t) = Ok (maker_orders t)).
  { change (mapM parse_maker_order (maker_order_json <$> maker_orders t) = Ok (maker_orders t)).
    apply mapM_json, Forall_true. intros. apply rest_maker_order_json. }
  assert (Hi : required_bucket_index (trade_json t) = Ok (bucket_index t)).
  { unfold required_bucket_index. change (json_at _ _) with (Ok (JInteger (bucket_index t))). cbn [mbind res_bind].
    by rewrite (proj2 (Z.ltb_ge (bucket_index t) 0)), (proj2 (Z.ltb_ge (2 ^ 32 - 1) (bucket_index t))) by lia. }
  assert (He : error_message (trade_json t) = Ok (error_msg t)) by (unfold error_message; cbn; by destruct (error_msg t)).
  unfold parse_trade. rewrite Hm, Hi, He. by destruct t.
Qed.
(** *** Markets *)

Definition token_ok (tok : Token) : Prop := token_id tok ≠ "" ∧ token_outcome tok ≠ "".

Record fees_ok (f : MarketFeeFields) : Prop := {
  fees_maker : flt (maker_base f) fzero = false;
  fees_taker : flt (taker_base f) fzero = false;
  fees_rate : flt (curve_rate f) fzero = false ∧ flt fone64 (curve_rate f) = false;
  fees_exponent : 0 < curve_exponent f < 2 ^ 31;
  fees_enabled : flt fzero (maker_base f) || flt fzero (taker_base f) || flt fzero (curve_rate f) = true →
    fees_on f = true }.

Record market_ok (m : ClobMarket) : Prop := {
  market_condition : m_condition_id m ≠ "";
  market_tokens : m_tokens m ≠ [] ∧ Forall token_ok (m_tokens m);
  market_fees : fees_ok (m_fees m) }.

Lemma i32_range z : - 2 ^ 31 ≤ i32 z < 2 ^ 31.
Proof. unfold i32. pose proof (Z.mod_pos_bound (z + 2 ^ 31) (2 ^ 32)). lia. Qed.

Lemma strict_fee_exponent_range value e : strict_fee_exponent value = Ok e → 0 < e < 2 ^ 31.
Proof.
  destruct value as [| |z| |text| |]; cbn [strict_fee_exponent]; try done.
  - pose proof (i32_range z). destruct (Z.ltb_spec 0 (i32 z)); [|done]. intros [= <-]. lia.
  - cbv zeta. destruct (_ || _); [done|]. destruct (Z.ltb_spec 0 (decimal_val (chars text))); [|done].
    destruct (Z.ltb_spec (decimal_val (chars text)) (2 ^ 31)); [|done]. cbn. intros [= <-]. lia.
Qed.

Lemma parse_base_nonnegative item snake camel x : parse_base item snake camel = Ok x → flt x fzero = false.
Proof. unfold parse_base. destruct (either_field _ _ _); intros; res_inv; bools; done. Qed.

Lemma parse_schedule_ok item rate e :
  parse_schedule item = Ok (rate, e) →
  flt rate fzero = false ∧ flt fone64 rate = false ∧ 0 < e < 2 ^ 31.
Proof.
  unfold parse_schedule. destruct (either_field item _ _) as [fee|]; [|intros; res_inv; split_and!; vm_compute; done].
  intros Hs. apply bind_Ok in Hs as (_ & _ & Hs). apply bind_Ok in Hs as (r & Hr & Hs). apply bind_Ok in Hs as (x & Hx & Hs).
  res_inv.
  assert (0 < e < 2 ^ 31).
  { destruct (either_field fee "exponent" "e"); [by eapply strict_fee_exponent_range|]. res_inv. lia. }
  destruct (either_field fee "rate" "r"); res_inv; bools; done.
Qed.

Lemma parse_market_fee_fields_ok item f : parse_market_fee_fields item = Ok f → fees_ok f.
Proof.
  unfold parse_market_fee_fields. intros Hf. apply bind_Ok in Hf as (on & _ & Hf).
  apply bind_Ok in Hf as (maker & Hm%parse_base_nonnegative & Hf).
  apply bind_Ok in Hf as (taker & Ht%parse_base_nonnegative & Hf).
  apply bind_Ok in Hf as ([rate e] & Hs & [= <-]). apply parse_schedule_ok in Hs as (? & ? & ?).
  split; cbn; try done. rewrite <- !orb_assoc. intros ->. apply orb_true_r.
Qed.

Lemma required_market_string_nonempty item field s : required_market_string item field = Ok s → s ≠ "".
Proof. unfold required_market_string. intros. res_inv. bools. done. Qed.

(** A row that is kept names its market and its tokens. *)
Lemma parse_market_ok item m : parse_market item = Ok m → market_ok m.
Proof.
  unfold parse_market. intros Hm. apply bind_Ok in Hm as (_ & _ & Hm).
  apply bind_Ok in Hm as (id & Hid%required_market_string_nonempty & Hm).
  do 8 (apply bind_Ok in Hm as (? & _ & Hm)).
  apply bind_Ok in Hm as (fees & Hf%parse_market_fee_fields_ok & Hm). apply bind_Ok in Hm as (tokens & Ht & [= <-]).
  split; cbn; [done| |done]. revert Ht. unfold parse_tokens.
  destruct (json_field item "tokens") as [[| | | | |[|v vs]|]|]; try done. intros Ht. apply mapM_Ok in Ht.
  split; [by inversion Ht|]. eapply Forall2_Forall_r; [exact Ht|]. apply Forall_true. clear. intros v tok Hv.
  unfold parse_token in Hv. apply bind_Ok in Hv as (_ & _ & Hv).
  apply bind_Ok in Hv as (? & ?%required_market_string_nonempty & Hv).
  by apply bind_Ok in Hv as (? & ?%required_market_string_nonempty & [= <-]).
Qed.

Lemma parse_market_items_ok items ms : parse_market_items items = Ok ms → Forall market_ok ms.
Proof.
  destruct items as [| | | | |items|]; try done. cbn. intros [= <-]. apply Forall_forall. intros m Hm.
  apply list_elem_of_omap in Hm as (item & _ & Hm). destruct (parse_market item) eqn:E; [|done].
  injection Hm as <-. by eapply parse_market_ok.
Qed.
End Rows.
