(* ===== verification/ClobClient.v ===== *)
(** * Placing and cancelling orders
    (src/clob_market_metadata.cpp, clob_books.cpp, market_price_client.cpp,
    order_execution.cpp, clob_order_execution.cpp, clob_order_placement.cpp,
    clob_order_submission.cpp)

    [ClobClient] from a caller's parameters to the request that is sent: the
    caches of tick sizes and neg-risk flags, the price of a market order, the
    amounts, the signature, the body and the headers.  One thread uses the client;
    a request is answered after the retries of [Sdk].  The clocks, the random salt
    and the answers of the server are the environment. *)
From Stdlib Require Import Ascii String Floats.SpecFloat.
From S2P Require Import Prelude Text Float64 DecimalMath Sdk TradeSettlement OrderAmounts Orderbook MarketPrice.
From S2P Require Import EvmBytes Crypto EvmTransaction OrderSigner OrderAuth RestParsing.

#[local] Open Scope Z_scope.

(** ** The client *)

Record TickSizeInfo := MkTickSizeInfo { minimum_tick_size : string }.
Record NegRiskInfo := MkNegRiskInfo { neg_risk : bool }.

(** [None] is [time_point::max()]. *)
Record MetadataCacheEntry (Value : Type) := MkEntry { entry_value : Value; expires_at : option Z }.
Arguments MkEntry {_} _ _.
Arguments entry_value {_} _.
Arguments expires_at {_} _.

Inductive request :=
  | get_tick_size (token_id : string)
  | get_neg_risk (token_id : string)
  | get_book (token_id : string)
  | read_request (path : string) (payload : option string) (headers : option L2Headers)  (** a GET, or a POST that asks *)
  | key_request (path : string) (payload : option string) (headers : L1Headers)
  | post_order_request (payload : string) (headers : L2Headers)
  | delete_request (path payload : string) (headers : L2Headers).

Record ClobClient := MkClobClient {
  tick_size_cache : gmap string (MetadataCacheEntry TickSizeInfo);
  neg_risk_cache : gmap string (MetadataCacheEntry NegRiskInfo);
  order_signer : option OrderSigner;
  api_creds : option ApiCredentials;
  funder_address : string;
  sig_type : Z;
  standard_exchange : string;
  neg_risk_exchange : string;
  sent : list request;           (** all requests, in order *)
  effects : nat                  (** requests and readings of clocks and salts so far *) }.

(** What happens outside, by how many effects there were. *)
Class ClobWorld := {
  steady_now : nat → Z;
  unix_seconds : nat → Z;
  unix_millis : nat → Z;
  unix_nanos : nat → Z;
  random_salt : nat → Z;
  answer : nat → request → HttpResponse;
  hmac_sha256 : list Z → list Z → option (list Z) }.

(** What a throwing operation leaves with: a standard exception, or a
    [MetadataResolutionError]. *)
Inductive thrown :=
  | exception (e : exn)
  | metadata_resolution (context : string) (cause : SdkError).

Definition what_of (e : exn) : string :=
  match e with invalid_argument w | out_of_range w | logic_error w | runtime_error w => w end.

(** ** Operations on the client's state *)

Definition clob (A : Type) : Type := ClobClient → ClobClient * (A + thrown).

#[export] Instance clob_ret : MRet clob := λ A a c, (c, inl a).
#[export] Instance clob_bind : MBind clob := λ A B f m c,
  match m c with
  | (c, inl a) => f a c
  | (c, inr e) => (c, inr e)
  end.

#[export] Instance clob_fmap : FMap clob := λ A B f m c,
  match m c with
  | (c, inl a) => (c, inl (f a))
  | (c, inr e) => (c, inr e)
  end.

Definition throw {A} (e : thrown) : clob A := λ c, (c, inr e).
Definition lift {A} (m : res A) : clob A := λ c,
  match m with Ok a => (c, inl a) | Throw e => (c, inr (exception e)) end.
Definition gets {A} (f : ClobClient → A) : clob A := λ c, (c, inl (f c)).

Definition set_caches (ticks : gmap string (MetadataCacheEntry TickSizeInfo))
    (flags : gmap string (MetadataCacheEntry NegRiskInfo)) (c : ClobClient) : ClobClient :=
  MkClobClient ticks flags (order_signer c) (api_creds c) (funder_address c) (sig_type c)
    (standard_exchange c) (neg_risk_exchange c) (sent c) (effects c).
Definition set_signer (s : OrderSigner) (c : ClobClient) : ClobClient :=
  MkClobClient (tick_size_cache c) (neg_risk_cache c) (Some s) (api_creds c) (funder_address c) (sig_type c)
    (standard_exchange c) (neg_risk_exchange c) (sent c) (effects c).
Definition after_effect (rs : list request) (c : ClobClient) : ClobClient :=
  MkClobClient (tick_size_cache c) (neg_risk_cache c) (order_signer c) (api_creds c) (funder_address c)
    (sig_type c) (standard_exchange c) (neg_risk_exchange c) (sent c ++ rs) (S (effects c)).

Definition modify_ticks (f : gmap string (MetadataCacheEntry TickSizeInfo) → gmap string (MetadataCacheEntry TickSizeInfo)) :
    clob unit := λ c, (set_caches (f (tick_size_cache c)) (neg_risk_cache c) c, inl tt).
Definition modify_flags (f : gmap string (MetadataCacheEntry NegRiskInfo) → gmap string (MetadataCacheEntry NegRiskInfo)) :
    clob unit := λ c, (set_caches (tick_size_cache c) (f (neg_risk_cache c)) c, inl tt).

(** Reads a clock or the generator of salts. *)
Definition reading {A} (f : nat → A) : clob A := λ c, (after_effect [] c, inl (f (effects c))).

(** [std::stoll]: white space, an optional sign and the digits that follow. *)
Definition is_space (c : ascii) : bool := bool_decide (c = " "%char) || in_range (chr 9) (chr 13) c.
Fixpoint skip_space (cs : list ascii) : list ascii :=
  match cs with c :: cs' => if is_space c then skip_space cs' else cs | [] => [] end.
Definition stoll (text : string) : res Z :=
  let cs := skip_space (chars text) in
  let negative := match cs with c :: _ => bool_decide (c = "-"%char) | [] => false end in
  let cs := skip_sign cs in
  let n := (skip_digits cs).1 in
  if bool_decide (n = 0%nat) then Throw (invalid_argument "stoll")
  else
    let v := decimal_val (take n cs) in
    let v := if negative then - v else v in
    if (- 2 ^ 63 <=? v) && (v <? 2 ^ 63) then Ok v else Throw (out_of_range "stoll").

Section Client.
Context `{JsonLibrary, JsonRuntime, DateReader, Keccak, RecoverableSigner, L : LongDouble, StdSort, World : ClobWorld}.

(** [read([&] { return http_.get(...); })], and the requests that change something. *)
Definition send (r : request) : clob HttpResponse := λ c, (after_effect [r] c, inl (answer (effects c) r)).

Definition response_error (response : HttpResponse) (endpoint : string) : clob SdkError :=
  now ← reading unix_seconds;
  mret (make_sdk_error response endpoint now).

(** ** Construction *)

Definition validated_funder (signature_type : Z) (funder : string) : res string :=
  if signature_type =? EOA then Ok funder
  else if (signature_type =? POLY_PROXY) || (signature_type =? POLY_GNOSIS_SAFE) || (signature_type =? POLY_1271) then
    if negb (bool_decide (funder = "")) then Ok funder
    else Throw (invalid_argument "non-EOA signature types require a funder address")
  else Throw (invalid_argument "unsupported signature type").

(** The constructor every other one delegates to, for an environment with the two
    exchanges and the chain id. *)
Definition new_client (standard negative : string) (chain_id : Z) (private_key : option string)
    (creds : option ApiCredentials) (signature_type : Z) (funder : string) : res ClobClient :=
  match private_key with
  | None => Ok (MkClobClient ∅ ∅ None None "" EOA standard negative [] 0)
  | Some key =>
      funder_address ← validated_funder signature_type funder;
      self ← make_signer key chain_id;
      match creds with Some k => validate_api_credentials k | None => Ok tt end;;
      Ok (MkClobClient ∅ ∅ (Some self) creds funder_address signature_type standard negative [] 0)
  end.

(** ** Market metadata *)

Definition METADATA_CACHE_TTL : Z := 300000000000.

Definition unexpired {V} (now : Z) (entry : MetadataCacheEntry V) : bool :=
  match expires_at entry with Some t => now <? t | None => true end.

(** The entry of a cache, an expired one being erased. *)
Definition cached_entry {V} (cache : ClobClient → gmap string (MetadataCacheEntry V)) (erase : clob unit)
    (token_id : string) : clob (option V) :=
  found ← gets (λ c, cache c !! token_id);
  match found with
  | None => mret None
  | Some entry =>
      now ← reading steady_now;
      if unexpired now entry then mret (Some (entry_value entry))
      else erase;; mret None
  end.

(** The JSON of a tick-size response: a value, or what the error says. *)
Definition read_tick_size (text : string) : TickSizeInfo + string :=
  match parse_json text with
  | Throw e => inr (what_of e)
  | Ok j =>
      match (if is_object j then json_field j "minimum_tick_size" else None) with
      | None | Some JNull => inr "missing minimum_tick_size"
      | Some value =>
          match json_orderbook_price value with
          | Throw e => inr (what_of e)
          | Ok _ => inl (MkTickSizeInfo (json_scalar_string value ""))
          end
      end
  end.

Definition read_neg_risk (text : string) : NegRiskInfo + string :=
  match parse_json text with
  | Throw e => inr (what_of e)
  | Ok j =>
      match (if is_object j then json_field j "neg_risk" else None) with
      | Some (JBool b) => inl (MkNegRiskInfo b)
      | _ => inr "missing boolean neg_risk"
      end
  end.

Definition tick_size_result (token_id : string) : clob (Result TickSizeInfo) :=
  hit ← cached_entry tick_size_cache (modify_ticks (delete token_id)) token_id;
  match hit with
  | Some value => mret (success value)
  | None =>
      response ← send (get_tick_size token_id);
      if negb (response_ok response) then failure <$> response_error response "/tick-size"
      else
        match read_tick_size (body response) with
        | inr what => mret (failure (make_parse_error what "/tick-size" (body response)))
        | inl info =>
            now ← reading steady_now;
            modify_ticks <[token_id := MkEntry info (Some (now + METADATA_CACHE_TTL))]>;;
            mret (success info)
        end
  end.

Definition neg_risk_result (token_id : string) : clob (Result NegRiskInfo) :=
  hit ← cached_entry neg_risk_cache (modify_flags (delete token_id)) token_id;
  match hit with
  | Some value => mret (success value)
  | None =>
      response ← send (get_neg_risk token_id);
      if negb (response_ok response) then failure <$> response_error response "/neg-risk"
      else
        match read_neg_risk (body response) with
        | inr what => mret (failure (make_parse_error what "/neg-risk" (body response)))
        | inl info =>
            modify_flags <[token_id := MkEntry info None]>;;
            mret (success info)
        end
  end.

Definition cached_tick_size (token_id : string) : clob (option TickSizeInfo) :=
  found ← gets (λ c, tick_size_cache c !! token_id);
  match found with
  | None => mret None
  | Some cached =>
      now ← reading steady_now;
      mret (if unexpired now cached then Some (entry_value cached) else None)
  end.

Definition evict_tick_size (token_id : string) : clob unit := modify_ticks (delete token_id).

Definition clear_market_metadata_cache (token_id : string) : clob unit :=
  if bool_decide (token_id = "") then modify_ticks (λ _, ∅);; modify_flags (λ _, ∅)
  else modify_ticks (delete token_id);; modify_flags (delete token_id).

Definition remember_market_metadata (token_id : string) (tick_size : option string) (flag : option bool) : clob unit :=
  match tick_size with
  | Some t =>
      now ← reading steady_now;
      modify_ticks <[token_id := MkEntry (MkTickSizeInfo t) (Some (now + METADATA_CACHE_TTL))]>
  | None => mret tt
  end;;
  match flag with
  | Some b => modify_flags <[token_id := MkEntry (MkNegRiskInfo b) None]>
  | None => mret tt
  end.

Definition order_book_result (token_id : string) : clob (Result Orderbook) :=
  if bool_decide (token_id = "") then mret (failure (invalid_argument_error "token_id is required" "/book"))
  else
    response ← send (get_book token_id);
    if negb (response_ok response) then failure <$> response_error response "/book"
    else
      now ← reading unix_nanos;
      match (parsed ← parse_json (body response);
             book ← parse_rest_orderbook now parsed token_id;
             Ok (parsed, book)) with
      | Throw e => mret (failure (make_parse_error (what_of e) "/book" (body response)))
      | Ok (parsed, book) =>
          remember_market_metadata token_id (book_tick_size parsed) (book_neg_risk parsed);;
          mret (success book)
      end.

(** ** The price of a market order *)

Definition validate_estimate_request (amount : double) (order_type : OrderType) : option SdkError :=
  if negb (bool_decide (order_type = FAK)) && negb (bool_decide (order_type = FOK)) then
    Some (invalid_argument_error "Market orders require FAK or FOK" "")
  else if negb (is_finite amount) || fle amount fzero then
    Some (invalid_argument_error "market order amount must be finite and positive" "")
  else None.

Definition liquidity_error (message : string) : SdkError := plain_error InsufficientLiquidity message "" "" false.

Definition estimate_market_price (book : Orderbook) (side : OrderSide) (amount : double) (tick_size : string)
    (order_type : OrderType) : res (Result MarketPriceEstimate) :=
  match validate_estimate_request amount order_type with
  | Some error => Ok (failure error)
  | None =>
      if bool_decide (book_side book side = []) then Ok (failure (liquidity_error "no matching orders"))
      else
        match estimate_market_depth book side amount tick_size with
        | Ok estimate =>
            if negb (est_fully_fillable estimate) && bool_decide (order_type = FOK) then
              Ok (failure (liquidity_error "insufficient orderbook depth for FOK order"))
            else Ok (success estimate)
        | Throw (runtime_error w) => Throw (runtime_error w)
        | Throw e => Ok (failure (invalid_argument_error (what_of e) ""))
        end
  end.

(** [ClobClient::estimate_market_price]. *)
Definition estimate_price_of (token_id : string) (side : OrderSide) (amount : double) (order_type : OrderType) :
    clob (Result MarketPriceEstimate) :=
  if bool_decide (token_id = "") then mret (failure (invalid_argument_error "token_id is required" "/book"))
  else
    match validate_estimate_request amount order_type with
    | Some error => mret (failure error)
    | None =>
        book ← order_book_result token_id;
        match book with
        | failure e => mret (failure e)
        | success book =>
            tick ← tick_size_result token_id;
            match tick with
            | failure e => mret (failure e)
            | success info => lift (estimate_market_price book side amount (minimum_tick_size info) order_type)
            end
        end
    end.

(** ** Creating orders *)

Record OrderExecutionContext := MkContext {
  signer_address : string;
  context_funder : string;
  context_signature_type : Z;
  standard_exchange_address : string;
  neg_risk_exchange_address : string }.

Definition maker_address (x : OrderExecutionContext) : res string :=
  if bool_decide (context_funder x = "") && negb (context_signature_type x =? EOA)
  then Throw (invalid_argument "non-EOA signature types require a funder address")
  else Ok (if bool_decide (context_funder x = "") then signer_address x else context_funder x).

Definition signer_for_order (x : OrderExecutionContext) : res string :=
  if context_signature_type x =? POLY_1271 then maker_address x else Ok (signer_address x).

Definition exchange_for (x : OrderExecutionContext) (is_neg_risk : bool) : string :=
  if is_neg_risk then neg_risk_exchange_address x else standard_exchange_address x.

Definition build_execution_context (signer : OrderSigner) (c : ClobClient) : OrderExecutionContext :=
  MkContext (address_ signer) (funder_address c) (sig_type c) (standard_exchange c) (neg_risk_exchange c).

Definition is_market_order_type (order_type : OrderType) : bool :=
  match order_type with FAK | FOK => true | _ => false end.

Definition price_scale (rounding : OrderRoundingConfig) : Z := power_loop (Z.to_nat (price_decimals rounding)) 1.

Definition resolve_market_tick_size (tick_info : Result TickSizeInfo) : clob string :=
  match tick_info with
  | failure e => throw (metadata_resolution "could not resolve market tick size" e)
  | success info =>
      lift (rounding_config_for_tick_size (minimum_tick_size info));;
      mret (minimum_tick_size info)
  end.

Definition resolve_requested_tick_size (requested_tick_size : string) (market_tick : option TickSizeInfo) : res string :=
  requested ← rounding_config_for_tick_size requested_tick_size;
  match market_tick with
  | None => Ok requested_tick_size
  | Some market_tick =>
      minimum ← rounding_config_for_tick_size (minimum_tick_size market_tick);
      if u64 (tick_units requested * price_scale minimum) <? u64 (tick_units minimum * price_scale requested)
      then Throw (invalid_argument "requested tick size is smaller than the market minimum")
      else Ok requested_tick_size
  end.

Definition resolve_neg_risk (info : Result NegRiskInfo) : clob bool :=
  match info with
  | failure e => throw (metadata_resolution "could not resolve neg-risk metadata" e)
  | success info => mret (neg_risk info)
  end.

(** The tick size an order is checked against. *)
Definition order_tick_size (requested token_id : string) : clob string :=
  if bool_decide (requested = "") then
    info ← tick_size_result token_id; resolve_market_tick_size info
  else
    cached ← cached_tick_size token_id; lift (resolve_requested_tick_size requested cached).

Definition order_neg_risk (given : option bool) (token_id : string) : clob bool :=
  match given with
  | Some b => mret b
  | None => info ← neg_risk_result token_id; resolve_neg_risk info
  end.

Definition side_value (side : OrderSide) : Z := match side with BUY => side_BUY | SELL => side_SELL end.

(** [order_signer_->sign_order(order_data, exchange)]. *)
Definition sign_with (self : OrderSigner) (order : OrderData) (exchange : string) (salt now : Z) : clob SignedOrder := λ c,
  match sign_order_with_salt self (int_to_string now) order exchange (to_string salt) with
  | (self, Ok signed) => (set_signer self c, inl signed)
  | (self, Throw e) => (set_signer self c, inr (exception e))
  end.

Definition not_authenticated {A} : clob A := throw (exception (runtime_error "Client not authenticated")).

Definition sign_order (order : OrderData) (exchange : string) : clob SignedOrder :=
  salt ← reading random_salt;
  now ← reading unix_millis;
  signer ← gets order_signer;
  match signer with
  | None => not_authenticated
  | Some self => sign_with self order exchange salt now
  end.

Record order_fields := MkFields {
  f_token_id : string;
  f_side : OrderSide;
  f_amounts : OrderAmounts;
  f_expiration : string;
  f_metadata : string;
  f_builder : string }.

(** The [OrderData] both kinds of order fill in. *)
Definition order_data (x : OrderExecutionContext) (f : order_fields) : res OrderData :=
  maker ← maker_address x;
  signer ← signer_for_order x;
  Ok (MkOrder maker OrderSigner.ZERO_ADDRESS (f_token_id f)
        (to_string (OrderAmounts.maker (f_amounts f))) (to_string (OrderAmounts.taker (f_amounts f)))
        (side_value (f_side f)) "" "" signer (f_expiration f) "" (f_metadata f) (f_builder f)
        (context_signature_type x)).

Definition sign_fields (f : order_fields) (is_neg_risk : bool) : clob SignedOrder :=
  x ← gets (λ c, (λ self, build_execution_context self c) <$> order_signer c);
  match x with
  | None => not_authenticated
  | Some x => order ← lift (order_data x f); sign_order order (exchange_for x is_neg_risk)
  end.

Record CreateOrderParams := MkCreate {
  o_token_id : string;
  o_price : double;
  o_size : double;
  o_side : OrderSide;
  o_tick_size : string;
  o_expiration : string;
  o_metadata : string;
  o_builder_code : string;
  o_neg_risk : option bool }.

Record CreateMarketOrderParams := MkCreateMarket {
  m_token_id : string;
  m_amount : double;
  m_side : OrderSide;
  m_price : option double;
  m_tick_size : string;
  m_metadata : string;
  m_builder_code : string;
  m_neg_risk : option bool }.

Record PreparedOrder := MkPrepared { prepared_order : SignedOrder; prepared_type : OrderType }.

Definition create_order (params : CreateOrderParams) : clob SignedOrder :=
  signer ← gets order_signer;
  match signer with
  | None => not_authenticated
  | Some _ =>
      tick_size ← order_tick_size (o_tick_size params) (o_token_id params);
      validated_price ← lift (validate_order_price (o_price params) tick_size);
      is_neg_risk ← order_neg_risk (o_neg_risk params) (o_token_id params);
      amounts ← lift (calculate_limit_order_amounts (o_side params) (o_size params) validated_price);
      sign_fields (MkFields (o_token_id params) (o_side params) amounts (o_expiration params)
        (o_metadata params) (o_builder_code params)) is_neg_risk
  end.

(** The [catch] clauses of [create_order_result]. *)
Definition order_result {A} (m : clob A) : clob (Result A) := λ c,
  match m c with
  | (c, inl a) => (c, inl (success a))
  | (c, inr (metadata_resolution _ cause)) => (c, inl (failure cause))
  | (c, inr (exception (invalid_argument w))) | (c, inr (exception (out_of_range w))) =>
      (c, inl (failure (invalid_argument_error w "/order")))
  | (c, inr (exception (logic_error w))) | (c, inr (exception (runtime_error w))) =>
      (c, inl (failure (plain_error Signing w "/order" "" false)))
  end.

Definition auth_failure {A} : clob (Result A) := mret (failure (make_auth_error "Client not authenticated" "/order")).
Definition invalid_order {A} (message : string) : clob (Result A) :=
  mret (failure (invalid_argument_error message "/order")).

Definition create_order_result (params : CreateOrderParams) : clob (Result SignedOrder) :=
  signer ← gets order_signer;
  match signer with
  | None => auth_failure
  | Some _ =>
      if fle (o_price params) fzero || fle (o_size params) fzero then
        invalid_order "Order price and size must be positive"
      else order_result (create_order params)
  end.

Definition market_book (token_id : string) (price : option double) : clob (option Orderbook) :=
  match price with
  | Some _ => mret None
  | None =>
      fetched ← order_book_result token_id;
      match fetched with
      | failure e => throw (metadata_resolution "could not resolve executable market price" e)
      | success book => mret (Some book)
      end
  end.

Definition market_order_price (book : option Orderbook) (params : CreateMarketOrderParams) (order_type : OrderType)
    (tick_size : string) : res double :=
  match m_price params, book with
  | Some price, _ => Ok price
  | None, Some book => calculate_market_price book (m_side params) (m_amount params) order_type tick_size
  | None, None => Throw (logic_error "bad optional access")
  end.

Definition create_market_order (params : CreateMarketOrderParams) (order_type : OrderType) : clob PreparedOrder :=
  if negb (is_market_order_type order_type) then
    throw (exception (invalid_argument "Market orders require FAK or FOK"))
  else
  signer ← gets order_signer;
  match signer with
  | None => not_authenticated
  | Some _ =>
      book ← market_book (m_token_id params) (m_price params);
      tick_size ← order_tick_size (m_tick_size params) (m_token_id params);
      price ← lift (market_order_price book params order_type tick_size);
      validated_price ← lift (validate_order_price price tick_size);
      is_neg_risk ← order_neg_risk (m_neg_risk params) (m_token_id params);
      amounts ← lift (calculate_market_order_amounts (m_side params) (m_amount params) validated_price);
      signed ← sign_fields (MkFields (m_token_id params) (m_side params) amounts "" (m_metadata params)
        (m_builder_code params)) is_neg_risk;
      mret (MkPrepared signed order_type)
  end.

Definition create_market_order_result (params : CreateMarketOrderParams) (order_type : OrderType) :
    clob (Result PreparedOrder) :=
  if negb (is_market_order_type order_type) then invalid_order "Market orders require FAK or FOK"
  else
  signer ← gets order_signer;
  match signer with
  | None => auth_failure
  | Some _ =>
      if fle (m_amount params) fzero then invalid_order "Market order amount must be positive"
      else order_result (create_market_order params order_type)
  end.

(** ** Submission *)

Definition order_type_to_string (t : OrderType) : string :=
  match t with GTC => "GTC" | GTD => "GTD" | FOK => "FOK" | FAK => "FAK" end.

Definition signed_order_json (order : SignedOrder) : res json :=
  salt ← stoll (salt order);
  let f := signed_fields order in
  Ok (JObject [("salt", JInteger salt); ("maker", JString (OrderSigner.maker f)); ("signer", JString (signer f));
    ("tokenId", JString (token_id f)); ("makerAmount", JString (maker_amount f));
    ("takerAmount", JString (taker_amount f)); ("expiration", JString (expiration f));
    ("side", JString (if side f =? 0 then "BUY" else "SELL")); ("signatureType", JInteger (signature_type f));
    ("timestamp", JString (timestamp f)); ("metadata", JString (metadata f)); ("builder", JString (builder f));
    ("signature", JString (signature order))]).

Definition order_payload_json (order : SignedOrder) (owner order_type : string) (post_only defer_exec : bool) : res json :=
  j ← signed_order_json order;
  Ok (JObject [("order", j); ("owner", JString owner); ("orderType", JString order_type);
    ("deferExec", JBool defer_exec); ("postOnly", JBool post_only)]).

(** [order_signer_ && api_creds_]. *)
Definition authenticated_as (c : ClobClient) : option (OrderSigner * ApiCredentials) :=
  match order_signer c, api_creds c with Some s, Some k => Some (s, k) | _, _ => None end.

Definition get_l2_headers (method path payload : string) : clob L2Headers :=
  auth ← gets authenticated_as;
  match auth with
  | None => not_authenticated
  | Some (self, creds) =>
      seconds ← reading unix_seconds;
      lift (generate_l2_headers hmac_sha256 self seconds creds method path payload)
  end.

Definition order_response_error (response : OrderResponse) (endpoint : string) : SdkError :=
  plain_error ApiResponse
    (if bool_decide (order_error_msg response = "") then "Order request failed" else order_error_msg response)
    endpoint "" false.

Definition post_signed_order (order : SignedOrder) (order_type : OrderType) (post_only : bool) :
    clob (Result OrderResponse) :=
  auth ← gets authenticated_as;
  match auth with
  | None => auth_failure
  | Some (_, creds) =>
      payload ← lift (order_payload_json order (api_key creds) (order_type_to_string order_type) post_only false);
      let text := json_dump payload in
      headers ← get_l2_headers "POST" "/order" text;
      response ← send (post_order_request text headers);
      if negb (response_ok response) then failure <$> response_error response "/order"
      else
        match parse_order_response_json_strict (body response) with
        | Throw e => mret (failure (make_parse_error (what_of e) "/order" (body response)))
        | Ok parsed =>
            if negb (order_success parsed) then mret (failure (order_response_error parsed "/order"))
            else mret (success parsed)
        end
  end.

Definition post_order_result (prepared : PreparedOrder) : clob (Result OrderResponse) :=
  post_signed_order (prepared_order prepared) (prepared_type prepared) false.

Definition post_order (order : SignedOrder) (order_type : OrderType) : clob OrderResponse :=
  result ← post_signed_order order order_type false;
  mret (match result with
        | success response => response
        | failure e => MkOrderResponse false (message e) "" [] [] "" "" ""
        end).

Definition create_and_post_order (params : CreateOrderParams) (order_type : OrderType) : clob OrderResponse :=
  order ← create_order params; post_order order order_type.

Definition create_and_post_market_order (params : CreateMarketOrderParams) (order_type : OrderType) :
    clob OrderResponse :=
  prepared ← create_market_order params order_type; post_order (prepared_order prepared) (prepared_type prepared).

Definition failed_order_response (text : string) : OrderResponse := MkOrderResponse false text "" [] [] "" "" "".
Definition failed_order_responses (count : nat) (text : string) : list OrderResponse :=
  replicate count (failed_order_response text).

Fixpoint batch_order_payload_json (orders : list PreparedOrder) (owner : string) : res (list json) :=
  match orders with
  | [] => Ok []
  | entry :: orders' =>
      j ← order_payload_json (prepared_order entry) owner (order_type_to_string (prepared_type entry)) false false;
      rest ← batch_order_payload_json orders' owner;
      Ok (j :: rest)
  end.

Definition batch_item (item : json) : OrderResponse :=
  match parse_order_response_json_strict (json_dump item) with
  | Ok response => response
  | Throw e => failed_order_response ("Invalid batch order response: " +:+ what_of e)
  end.

Definition batch_responses (count : nat) (text : string) : list OrderResponse :=
  match parse_json text with
  | Throw e => failed_order_responses count ("Invalid batch order response: " +:+ what_of e)
  | Ok (JArray items) =>
      if bool_decide (length items = count) then map batch_item items
      else failed_order_responses count "Batch order response count did not match request"
  | Ok _ => failed_order_responses count "Batch order response must be an array"
  end.

Definition post_orders (orders : list PreparedOrder) : clob (list OrderResponse) :=
  if bool_decide (orders = []) then mret []
  else
    owner ← gets (λ c, match api_creds c with Some creds => api_key creds | None => "" end);
    payload ← lift (batch_order_payload_json orders owner);
    let text := json_dump (JArray payload) in
    headers ← get_l2_headers "POST" "/orders" text;
    response ← send (post_order_request text headers);
    if negb (response_ok response) then
      (λ e, failed_order_responses (length orders) (message e)) <$> response_error response "/orders"
    else mret (batch_responses (length orders) (body response)).

(** *** Cancellations *)

Definition cancellation_error (text : string) : SdkError :=
  plain_error ApiResponse "Order cancellation was not confirmed" "/order" (excerpt text) false.

Definition cancel_order_result (order_id : string) : clob (Result bool) :=
  auth ← gets authenticated_as;
  match auth with
  | None => auth_failure
  | Some _ =>
      let text := json_dump (JObject [("orderID", JString order_id)]) in
      headers ← get_l2_headers "DELETE" "/order" text;
      response ← send (delete_request "/order" text headers);
      if negb (response_ok response) then failure <$> response_error response "/order"
      else
        match parse_cancellation_response_json (body response) with
        | Throw e => mret (failure (make_parse_error (what_of e) "/order" (body response)))
        | Ok parsed =>
            if confirms_cancellations parsed [order_id] then mret (success true)
            else mret (failure (cancellation_error (body response)))
        end
  end.

Definition cancel_order (order_id : string) : clob bool :=
  result ← cancel_order_result order_id;
  mret (match result with success b => b | failure _ => false end).

Definition cancel_orders (order_ids : list string) : clob bool :=
  let text := json_dump (JArray (map JString order_ids)) in
  headers ← get_l2_headers "DELETE" "/orders" text;
  response ← send (delete_request "/orders" text headers);
  mret (response_ok response &&
        match parse_cancellation_response_json (body response) with
        | Ok parsed => confirms_cancellations parsed order_ids
        | Throw _ => false
        end).

Definition cancel_all : clob bool :=
  headers ← get_l2_headers "DELETE" "/cancel-all" "";
  response ← send (delete_request "/cancel-all" "" headers);
  mret (confirms_bulk_cancellation response).

Definition cancel_market_orders (condition_id : string) : clob bool :=
  let text := json_dump (JObject [("market", JString condition_id)]) in
  headers ← get_l2_headers "DELETE" "/cancel-market-orders" text;
  response ← send (delete_request "/cancel-market-orders" text headers);
  mret (confirms_bulk_cancellation response).

(** ** Placement *)

Record PlaceLimitOrderParams := MkPlaceLimit {
  l_token_id : string;
  l_price : double;
  l_size : double;
  l_side : OrderSide;
  l_post_only : bool;
  l_expiration : option Z;
  l_tick_size : string;
  l_metadata : string;
  l_builder_code : string;
  l_neg_risk : option bool }.

Record PlaceMarketOrderParams := MkPlaceMarket {
  p_token_id : string;
  p_side : OrderSide;
  p_amount : double;
  p_worst_price : option double;
  p_order_type : OrderType;
  p_tick_size : string;
  p_metadata : string;
  p_builder_code : string;
  p_neg_risk : option bool }.

Definition min_expiration_lead_seconds : Z := 180.

Definition on_tick_grid (price : double) (tick_size : string) : bool := is_ok (validate_order_price price tick_size).
Definition levels_on_tick_grid (levels : list PriceLevel) (tick_size : string) : bool :=
  forallb (λ level, on_tick_grid (price level) tick_size) levels.

Definition is_authenticated (c : ClobClient) : bool := match authenticated_as c with Some _ => true | None => false end.

Definition expires_too_soon (expiration : option Z) : clob bool :=
  match expiration with
  | None => mret false
  | Some e => now ← reading unix_seconds; mret (e <? u64 (now + min_expiration_lead_seconds))
  end.

(** The tick sizes of the market, re-read if the price is not on the cached one. *)
Definition refresh_tick_size (tick_size token_id : string) (price : double) : clob (option SdkError) :=
  if negb (bool_decide (tick_size = "")) then mret None
  else
    cached ← tick_size_result token_id;
    match cached with
    | failure e => mret (Some e)
    | success info =>
        (if negb (on_tick_grid price (minimum_tick_size info)) then evict_tick_size token_id else mret tt);;
        mret None
    end.

Definition limit_order (params : PlaceLimitOrderParams) : CreateOrderParams :=
  MkCreate (l_token_id params) (l_price params) (l_size params) (l_side params) (l_tick_size params)
    (match l_expiration params with Some e => to_string e | None => "0" end)
    (l_metadata params) (l_builder_code params) (l_neg_risk params).

Definition limit_order_type (params : PlaceLimitOrderParams) : OrderType :=
  match l_expiration params with Some _ => GTD | None => GTC end.

Definition outside_unit_interval (price : double) : bool :=
  negb (is_finite price) || fle price fzero || fle fone price.

Definition place_limit_order (params : PlaceLimitOrderParams) : clob (Result OrderResponse) :=
  ready ← gets is_authenticated;
  if negb ready then auth_failure
  else if bool_decide (l_token_id params = "") then invalid_order "token_id is required"
  else if outside_unit_interval (l_price params) then invalid_order "limit price must be between 0 and 1"
  else if negb (is_finite (l_size params)) || fle (l_size params) fzero then
    invalid_order "limit size must be finite and positive"
  else
    soon ← expires_too_soon (l_expiration params);
    if (soon : bool) then invalid_order "expiration must be at least 180 seconds in the future"
    else
      problem ← refresh_tick_size (l_tick_size params) (l_token_id params) (l_price params);
      match problem with
      | Some e => mret (failure e)
      | None =>
          signed_order ← create_order_result (limit_order params);
          match signed_order with
          | failure e => mret (failure e)
          | success order => post_signed_order order (limit_order_type params) (l_post_only params)
          end
      end.

(** The tick size a market order's price is looked for on. *)
Definition estimate_tick_size (tick_size token_id : string) : clob (Result string) :=
  if negb (bool_decide (tick_size = "")) then mret (success tick_size)
  else
    info ← tick_size_result token_id;
    mret (match info with failure e => failure e | success info => success (minimum_tick_size info) end).

Definition is_invalid_argument {A} (r : Result A) : bool :=
  match r with failure e => bool_decide (error_code e = InvalidArgument) | success _ => false end.

(** The estimate of a market order; book levels on a finer grid than the cached
    tick mean the tick changed. *)
Definition estimate_with_refresh (params : PlaceMarketOrderParams) (book : Orderbook) (tick_size : string) :
    clob (Result MarketPriceEstimate) :=
  let estimate tick := lift (estimate_market_price book (p_side params) (p_amount params) tick (p_order_type params)) in
  first ← estimate tick_size;
  if is_invalid_argument first && bool_decide (p_tick_size params = "") &&
     negb (levels_on_tick_grid (book_side book (p_side params)) tick_size) then
    evict_tick_size (p_token_id params);;
    refreshed ← tick_size_result (p_token_id params);
    match refreshed with
    | failure e => mret (failure e)
    | success info => estimate (minimum_tick_size info)
    end
  else mret first.

(** The price a market order is signed at. *)
Definition market_limit (params : PlaceMarketOrderParams) (book : option Orderbook) (tick_size : string) :
    clob (Result double) :=
  match p_worst_price params, book with
  | Some worst, _ =>
      (if bool_decide (p_tick_size params = "") && negb (on_tick_grid worst tick_size)
       then evict_tick_size (p_token_id params) else mret tt);;
      mret (success worst)
  | None, Some book =>
      estimate ← estimate_with_refresh params book tick_size;
      mret (match estimate with failure e => failure e | success e => success (est_price e) end)
  | None, None => throw (exception (logic_error "bad optional access"))
  end.

Definition market_order (params : PlaceMarketOrderParams) (price : double) : CreateMarketOrderParams :=
  MkCreateMarket (p_token_id params) (p_amount params) (p_side params) (Some price) (p_tick_size params)
    (p_metadata params) (p_builder_code params) (p_neg_risk params).

Definition placement_book (params : PlaceMarketOrderParams) : clob (Result (option Orderbook)) :=
  match p_worst_price params with
  | Some _ => mret (success None)
  | None =>
      fetched ← order_book_result (p_token_id params);
      mret (match fetched with failure e => failure e | success book => success (Some book) end)
  end.

Definition place_market_order (params : PlaceMarketOrderParams) : clob (Result OrderResponse) :=
  ready ← gets is_authenticated;
  if negb ready then auth_failure
  else if bool_decide (p_token_id params = "") then invalid_order "token_id is required"
  else if negb (is_market_order_type (p_order_type params)) then invalid_order "Market orders require FAK or FOK"
  else if negb (is_finite (p_amount params)) || fle (p_amount params) fzero then
    invalid_order "market order amount must be finite and positive"
  else if match p_worst_price params with Some w => outside_unit_interval w | None => false end then
    invalid_order "worst price must be between 0 and 1"
  else
    book ← placement_book params;
    match book with
    | failure e => mret (failure e)
    | success book =>
        tick_size ← estimate_tick_size (p_tick_size params) (p_token_id params);
        match tick_size with
        | failure e => mret (failure e)
        | success tick_size =>
            price ← market_limit params book tick_size;
            match price with
            | failure e => mret (failure e)
            | success price =>
                prepared ← create_market_order_result (market_order params price) (p_order_type params);
                match prepared with
                | failure e => mret (failure e)
                | success prepared => post_order_result prepared
                end
            end
        end
    end.
End Client.
