(* ===== verification/ClobOrders.v ===== *)
(** * What the CLOB client promises about orders

    Theorems on the operations of [ClobClient]: what a limit or market order that
    reaches the server is, that a reported cancellation happened, and that placing
    an order always returns. *)
From Stdlib Require Import Ascii String Floats.SpecFloat.
From S2P Require Import Prelude Text Float64 DecimalMath Sdk TradeSettlement OrderAmounts Orderbook MarketPrice.
From S2P Require Import EvmBytes Crypto EvmTransaction OrderSigner OrderAuth RestParsing ClobClient.

#[local] Open Scope Z_scope.

(** ** Reasoning about the client *)

Section Facts.
Context `{JsonLibrary, JsonRuntime, DateReader, Keccak, RecoverableSigner, L : LongDouble, StdSort, World : ClobWorld}.

Lemma clob_bind_inl {A B} (m : clob A) (f : A → clob B) c c' b :
  (m ≫= f) c = (c', inl b) ↔ ∃ a c1, m c = (c1, inl a) ∧ f a c1 = (c', inl b).
Proof. unfold mbind, clob_bind. destruct (m c) as [c1 [a|e]]; naive_solver. Qed.

Lemma clob_fmap_inl {A B} (f : A → B) (m : clob A) c c' b :
  (f <$> m) c = (c', inl b) ↔ ∃ a, m c = (c', inl a) ∧ b = f a.
Proof. unfold fmap, clob_fmap. destruct (m c) as [c1 [a|e]]; naive_solver. Qed.

Lemma lift_inl {A} (m : res A) c c' a : lift m c = (c', inl a) ↔ m = Ok a ∧ c' = c.
Proof. unfold lift. destruct m; naive_solver. Qed.

(** *** Operations that change nothing outside *)

Definition is_read (r : request) : bool :=
  match r with get_tick_size _ | get_neg_risk _ | get_book _ | read_request _ _ _ => true | _ => false end.

(** The requests that change something. *)
Definition orders_sent (c : ClobClient) : list request := filter (λ r, is_read r = false) (sent c).

Definition same_signer (s s' : OrderSigner) : Prop :=
  private_key_ s' = private_key_ s ∧ address_ s' = address_ s ∧ chain_id_ s' = chain_id_ s ∧
  (reachable s → reachable s').

Definition kept_signer (o o' : option OrderSigner) : Prop :=
  match o, o' with Some s, Some s' => same_signer s s' | None, None => True | _, _ => False end.

(** Nothing was ordered or cancelled, and the client is still who it was. *)
Record same_client (c c' : ClobClient) : Prop := {
  same_orders : orders_sent c' = orders_sent c;
  same_creds : api_creds c' = api_creds c;
  same_funder : funder_address c' = funder_address c;
  same_sig_type : sig_type c' = sig_type c;
  same_exchange : standard_exchange c' = standard_exchange c;
  same_neg_exchange : neg_risk_exchange c' = neg_risk_exchange c;
  same_signers : kept_signer (order_signer c) (order_signer c') }.

#[local] Instance same_client_preorder : PreOrder same_client.
Proof.
  split.
  - intros c. split; try done. unfold kept_signer. by destruct (order_signer c).
  - intros c1 c2 c3 [] []. split; try congruence.
    unfold kept_signer, same_signer in *. destruct (order_signer c1), (order_signer c2), (order_signer c3); naive_solver congruence.
Qed.

Definition quiet {A} (m : clob A) : Prop := ∀ c, same_client c (m c).1.

Lemma quiet_ret {A} (a : A) : quiet (mret a). Proof. intros c. apply reflexivity. Qed.
Lemma quiet_throw {A} e : quiet (throw e : clob A). Proof. intros c. apply reflexivity. Qed.
Lemma quiet_lift {A} (m : res A) : quiet (lift m). Proof. intros c. unfold lift. destruct m; apply reflexivity. Qed.
Lemma quiet_gets {A} (f : ClobClient → A) : quiet (gets f). Proof. intros c. apply reflexivity. Qed.

Lemma quiet_bind {A B} (m : clob A) (f : A → clob B) : quiet m → (∀ a, quiet (f a)) → quiet (m ≫= f).
Proof.
  intros Hm Hf c. unfold mbind, clob_bind. specialize (Hm c). destruct (m c) as [c1 [a|e]]; [|done].
  etransitivity; [done|apply Hf].
Qed.

Lemma quiet_fmap {A B} (f : A → B) (m : clob A) : quiet m → quiet (f <$> m).
Proof. intros Hm c. specialize (Hm c). unfold fmap, clob_fmap. by destruct (m c) as [c1 [a|e]]. Qed.

Lemma quiet_effect rs c : Forall (λ r, is_read r = true) rs → same_client c (after_effect rs c).
Proof.
  intros Hrs. split; try done; [|unfold kept_signer; cbn; by destruct (order_signer c)].
  unfold orders_sent. cbn. rewrite filter_app. rewrite <- (app_nil_r (filter _ (sent c))) at 2. f_equal.
  induction Hrs as [|r rs Hr _ IH]; [done|]. rewrite filter_cons, IH, decide_False; [done|congruence].
Qed.

Lemma quiet_reading {A} (f : nat → A) : quiet (reading f).
Proof. intros c. by apply quiet_effect. Qed.

Lemma quiet_send r : is_read r = true → quiet (send r).
Proof. intros Hr c. apply quiet_effect. by apply Forall_singleton. Qed.

Lemma quiet_modify_ticks f : quiet (modify_ticks f).
Proof. intros c. split; try done. unfold kept_signer. cbn. by destruct (order_signer c). Qed.
Lemma quiet_modify_flags f : quiet (modify_flags f).
Proof. intros c. split; try done. unfold kept_signer. cbn. by destruct (order_signer c). Qed.

Create HintDb quiet_db.
#[local] Hint Resolve quiet_ret quiet_throw quiet_lift quiet_gets quiet_reading quiet_modify_ticks quiet_modify_flags
  : quiet_db.
#[local] Hint Extern 1 (quiet (send _)) => apply quiet_send; reflexivity : quiet_db.

(** An operation made of quiet ones. *)
Local Ltac quiet_steps :=
  repeat first
    [ solve [auto with quiet_db]
    | match goal with
      | |- quiet (_ ≫= _) => apply quiet_bind; [|intros ?]
      | |- quiet (_ <$> _) => apply quiet_fmap
      | |- quiet (match ?x with _ => _ end) => destruct x
      end ].

Lemma quiet_response_error response endpoint : quiet (response_error response endpoint).
Proof. unfold response_error. quiet_steps. Qed.
#[local] Hint Resolve quiet_response_error : quiet_db.

Lemma quiet_tick_size token : quiet (tick_size_result token).
Proof. unfold tick_size_result, cached_entry. quiet_steps. Qed.
Lemma quiet_neg_risk token : quiet (neg_risk_result token).
Proof. unfold neg_risk_result, cached_entry. quiet_steps. Qed.
Lemma quiet_cached_tick token : quiet (cached_tick_size token).
Proof. unfold cached_tick_size. quiet_steps. Qed.
Lemma quiet_remember token t b : quiet (remember_market_metadata token t b).
Proof. unfold remember_market_metadata. quiet_steps. Qed.
#[local] Hint Resolve quiet_tick_size quiet_neg_risk quiet_cached_tick quiet_remember : quiet_db.

Lemma quiet_book token : quiet (order_book_result token).
Proof. unfold order_book_result. quiet_steps. Qed.
#[local] Hint Resolve quiet_book : quiet_db.

Lemma quiet_evict token : quiet (evict_tick_size token).
Proof. unfold evict_tick_size. quiet_steps. Qed.
#[local] Hint Resolve quiet_evict : quiet_db.

Lemma quiet_order_tick requested token : quiet (order_tick_size requested token).
Proof. unfold order_tick_size, resolve_market_tick_size. quiet_steps. Qed.
Lemma quiet_order_neg_risk given token : quiet (order_neg_risk given token).
Proof. unfold order_neg_risk, resolve_neg_risk. quiet_steps. Qed.
#[local] Hint Resolve quiet_order_tick quiet_order_neg_risk : quiet_db.

(** Signing may fill the signer's cache of domain hashes. *)
Lemma sign_same_signer self now order exchange salt self' r :
  sign_order_with_salt self now order exchange salt = (self', r) → same_signer self self'.
Proof.
  intros Hs. unfold same_signer. assert (reachable self → reachable self') by (intros; by eapply reachable_sign).
  revert Hs. unfold sign_order_with_salt. destruct (validate_order_enums order); [|by intros [<- _]%pair_equal_spec].
  assert (Hd : ∀ s r, v2_domain_hash self exchange = (s, r) →
    private_key_ s = private_key_ self ∧ address_ s = address_ self ∧ chain_id_ s = chain_id_ self).
  { intros s r'. unfold v2_domain_hash. destruct (domain_cache_ self !! exchange); [by intros [<- _]%pair_equal_spec|].
    destruct (fresh_domain_hash self exchange); by intros [<- _]%pair_equal_spec. }
  destruct (v2_domain_hash self exchange) as [s [dh|]]; intros [<- _]%pair_equal_spec; destruct (Hd s _ eq_refl) as (? & ? & ?); auto.
Qed.

Lemma sign_with_spec self order exchange salt now c :
  order_signer c = Some self → same_client c (sign_with self order exchange salt now c).1.
Proof.
  intros Hs. unfold sign_with.
  destruct (sign_order_with_salt self (int_to_string now) order exchange (to_string salt)) as [self' r] eqn:E.
  apply sign_same_signer in E. assert (same_client c (set_signer self' c)).
  { split; try done. unfold kept_signer. cbn. by rewrite Hs. }
  by destruct r.
Qed.

Lemma quiet_sign_order order exchange : quiet (sign_order order exchange).
Proof.
  intros c. unfold sign_order, mbind, clob_bind, reading, gets. cbn [order_signer after_effect].
  destruct (order_signer c) as [self|] eqn:Es.
  - etransitivity; [|apply sign_with_spec; exact Es]. etransitivity; [by apply quiet_effect|]. by apply quiet_effect.
  - etransitivity; [by apply quiet_effect|]. by apply quiet_effect.
Qed.
#[local] Hint Resolve quiet_sign_order : quiet_db.

Lemma quiet_sign_fields f flag : quiet (sign_fields f flag).
Proof. unfold sign_fields, not_authenticated. quiet_steps. Qed.
#[local] Hint Resolve quiet_sign_fields : quiet_db.

Lemma quiet_create_order params : quiet (create_order params).
Proof. unfold create_order, not_authenticated. quiet_steps. Qed.

Lemma quiet_create_market_order params t : quiet (create_market_order params t).
Proof. unfold create_market_order, market_book, not_authenticated. quiet_steps. Qed.

Lemma quiet_order_result {A} (m : clob A) : quiet m → quiet (order_result m).
Proof.
  intros Hm c. specialize (Hm c). unfold order_result. destruct (m c) as [c' [a|[[]|]]]; exact Hm.
Qed.

Lemma quiet_create_order_result params : quiet (create_order_result params).
Proof.
  pose proof (quiet_order_result _ (quiet_create_order params)). unfold create_order_result, auth_failure, invalid_order. quiet_steps.
Qed.
Lemma quiet_create_market_order_result params t : quiet (create_market_order_result params t).
Proof.
  pose proof (quiet_order_result _ (quiet_create_market_order params t)).
  unfold create_market_order_result, auth_failure, invalid_order. quiet_steps.
Qed.
#[local] Hint Resolve quiet_create_order_result quiet_create_market_order_result : quiet_db.

Lemma quiet_headers method path payload : quiet (get_l2_headers method path payload).
Proof. unfold get_l2_headers, not_authenticated. quiet_steps. Qed.
Lemma quiet_expires e : quiet (expires_too_soon e).
Proof. unfold expires_too_soon. quiet_steps. Qed.
Lemma quiet_refresh t token p : quiet (refresh_tick_size t token p).
Proof. unfold refresh_tick_size. quiet_steps. Qed.
Lemma quiet_estimate_tick t token : quiet (estimate_tick_size t token).
Proof. unfold estimate_tick_size. quiet_steps. Qed.
Lemma quiet_market_limit params book tick : quiet (market_limit params book tick).
Proof. unfold market_limit, estimate_with_refresh. quiet_steps. Qed.
Lemma quiet_placement_book params : quiet (placement_book params).
Proof. unfold placement_book. quiet_steps. Qed.
#[local] Hint Resolve quiet_headers quiet_expires quiet_refresh quiet_estimate_tick quiet_market_limit
  quiet_placement_book : quiet_db.

Lemma quiet_run {A} (m : clob A) c c' r : quiet m → m c = (c', r) → same_client c c'.
Proof. intros Hm Hr. specialize (Hm c). by rewrite Hr in Hm. Qed.

(** ** What is signed and what is sent *)

(** [signed] is the order with the fields [f], made and signed by the client [c]. *)
Definition signed_by (c : ClobClient) (f : order_fields) (is_neg_risk : bool) (signed : SignedOrder) : Prop :=
  ∃ self0 self self' order n m,
    order_signer c = Some self0 ∧ same_signer self0 self ∧
    order_data (build_execution_context self c) f = Ok order ∧
    sign_order_with_salt self (int_to_string (unix_millis m)) order
      (exchange_for (build_execution_context self c) is_neg_risk) (to_string (random_salt n)) = (self', Ok signed).

(** [r] asks the server to accept [signed], with the headers of the client [c]. *)
Definition asks_for (c : ClobClient) (signed : SignedOrder) (t : OrderType) (post_only : bool) (r : request) : Prop :=
  ∃ self0 self creds payload headers seconds,
    order_signer c = Some self0 ∧ same_signer self0 self ∧ api_creds c = Some creds ∧
    order_payload_json signed (api_key creds) (order_type_to_string t) post_only false = Ok payload ∧
    generate_l2_headers hmac_sha256 self seconds creds "POST" "/order" (json_dump payload) = Ok headers ∧
    r = post_order_request (json_dump payload) headers.

Lemma same_signer_trans s1 s2 s3 : same_signer s1 s2 → same_signer s2 s3 → same_signer s1 s3.
Proof. unfold same_signer. naive_solver congruence. Qed.

Lemma kept_signer_some o self : kept_signer o (Some self) → ∃ s, o = Some s ∧ same_signer s self.
Proof. destruct o as [s|]; [by exists s|done]. Qed.

Lemma signed_by_before c c1 f flag signed : same_client c c1 → signed_by c1 f flag signed → signed_by c f flag signed.
Proof.
  intros [] (s0 & self & self' & o & now & salt & Hs & Hss & Ho & Hsig). rewrite Hs in same_signers0.
  apply kept_signer_some in same_signers0 as (s & Hs0 & Hs').
  assert (Hx : build_execution_context self c1 = build_execution_context self c) by (unfold build_execution_context; congruence).
  rewrite Hx in Ho, Hsig. exists s, self, self', o, now, salt. split_and!; try done. by eapply same_signer_trans.
Qed.

Lemma asks_for_before c c1 signed t post_only r :
  same_client c c1 → asks_for c1 signed t post_only r → asks_for c signed t post_only r.
Proof.
  intros [] (s0 & self & creds & payload & headers & seconds & Hs & Hss & Hc & ? & ? & ?). rewrite Hs in same_signers0.
  apply kept_signer_some in same_signers0 as (s & Hs0 & Hs').
  exists s, self, creds, payload, headers, seconds. split_and!; try done; [by eapply same_signer_trans|congruence].
Qed.

Lemma reading_inl {A} (f : nat → A) c c' a : reading f c = (c', inl a) → same_client c c' ∧ ∃ n, a = f n.
Proof. intros [= <- <-]. split; [by apply quiet_effect|eauto]. Qed.

Lemma kept_some s o : kept_signer (Some s) o → ∃ s', o = Some s' ∧ same_signer s s'.
Proof. destruct o as [s'|]; [by exists s'|done]. Qed.

Lemma sign_fields_inl f flag c c' signed : sign_fields f flag c = (c', inl signed) → signed_by c f flag signed.
Proof.
  unfold sign_fields. intros (x & c1 & [= <- <-] & Hx)%clob_bind_inl.
  destruct (order_signer c) as [self0|] eqn:E0; cbn in Hx; [|done].
  apply clob_bind_inl in Hx as (o & c1 & [Ho ->]%lift_inl & Hx).
  unfold sign_order in Hx. apply clob_bind_inl in Hx as (salt & c1 & [Hq1 [n ->]]%reading_inl & Hx).
  apply clob_bind_inl in Hx as (now & c2 & [Hq2 [m ->]]%reading_inl & Hx).
  apply clob_bind_inl in Hx as (signer & c3 & [= <- <-] & Hx).
  destruct (order_signer c2) as [self|] eqn:E2; [|done].
  assert (Hs : same_signer self0 self).
  { assert (Hk : same_client c c2) by (by etransitivity). apply same_signers in Hk. by rewrite E0, E2 in Hk. }
  assert (Hx0 : build_execution_context self0 c = build_execution_context self c).
  { unfold build_execution_context. by destruct Hs as (_ & -> & _). }
  rewrite Hx0 in Ho, Hx. unfold sign_with in Hx.
  destruct (sign_order_with_salt _ _ _ _ _) as [self' [s|]] eqn:Es; [|done]. injection Hx as _ <-.
  exists self0, self, self', o, n, m. by split_and!.
Qed.

Lemma post_signed_order_spec order t post_only c c' r :
  post_signed_order order t post_only c = (c', r) →
  (orders_sent c' = orders_sent c ∧ ∀ x, r ≠ inl (success x)) ∨
  ∃ req, orders_sent c' = orders_sent c ++ [req] ∧ asks_for c order t post_only req ∧
    ∀ x, r = inl (success x) → order_success x = true.
Proof.
  unfold post_signed_order, authenticated_as, gets. unfold mbind at 1, clob_bind at 1.
  destruct (order_signer c) as [self0|] eqn:E0; [|intros [= <- <-]; left; done].
  destruct (api_creds c) as [creds|] eqn:Ec; [|intros [= <- <-]; left; done].
  unfold mbind at 1, clob_bind at 1. unfold lift at 1.
  destruct (order_payload_json _ _ _ _ _) as [payload|] eqn:Ep; [|intros [= <- <-]; left; done].
  unfold mbind at 1, clob_bind at 1.
  destruct (get_l2_headers _ _ _ c) as [c1 [headers|]] eqn:Eh; cycle 1.
  { intros [= <- <-]. left. split; [|done]. by apply (same_orders c), (quiet_run _ _ _ _ (quiet_headers _ _ _) Eh). }
  assert (Hc1 : same_client c c1) by exact (quiet_run _ _ _ _ (quiet_headers _ _ _) Eh).
  assert (Hask : asks_for c order t post_only (post_order_request (json_dump payload) headers)).
  { unfold get_l2_headers, authenticated_as in Eh. apply clob_bind_inl in Eh as (? & ? & [= <- <-] & Eh).
    rewrite E0, Ec in Eh. apply clob_bind_inl in Eh as (seconds & c2 & [Hq2 _]%reading_inl & Eh).
    apply lift_inl in Eh as [Eh _]. exists self0, self0, creds, payload, headers, seconds.
    by split_and!. }
  unfold mbind at 1, clob_bind at 1. unfold send at 1.
  set (c2 := after_effect _ c1).
  assert (Hs : orders_sent c2 = orders_sent c ++ [post_order_request (json_dump payload) headers]).
  { unfold orders_sent, c2. cbn. rewrite filter_app. f_equal. by apply (same_orders c). }
  assert (Hquiet : ∀ e, orders_sent (response_error e "/order" c2).1 =
    orders_sent c ++ [post_order_request (json_dump payload) headers]).
  { intros e. etransitivity; [|exact Hs]. apply same_orders, quiet_response_error. }
  destruct (negb (response_ok _)).
  - unfold fmap, clob_fmap. specialize (Hquiet (answer (effects c1) (post_order_request (json_dump payload) headers))).
    destruct (response_error _ _ c2) as [c3 [e|e]] eqn:Er; intros [= <- <-]; right;
      exists (post_order_request (json_dump payload) headers); by split_and!.
  - destruct (parse_order_response_json_strict _) as [parsed|]; [destruct (order_success parsed) eqn:Es; cbn [negb]|];
      intros [= <- <-]; right; exists (post_order_request (json_dump payload) headers); split_and!; try done.
    by intros x [= <-].
Qed.

Lemma order_result_success {A} (m : clob A) c c' a :
  order_result m c = (c', inl (success a)) → m c = (c', inl a).
Proof. unfold order_result. destruct (m c) as [c1 [x|[[]|]]]; congruence. Qed.

(** The tick size an order was checked against is the one that was asked for, if any. *)
Lemma order_tick_size_inl requested token c c' tick :
  order_tick_size requested token c = (c', inl tick) → requested ≠ "" → tick = requested.
Proof.
  unfold order_tick_size. intros Ht Hne. rewrite bool_decide_false in Ht by done.
  apply clob_bind_inl in Ht as (cached & c1 & _ & [Hr _]%lift_inl).
  unfold resolve_requested_tick_size in Hr. destruct cached; res_inv; [|done]. case_if; by res_inv.
Qed.

Lemma order_neg_risk_inl given token c c' flag b :
  order_neg_risk given token c = (c', inl flag) → given = Some b → flag = b.
Proof. intros Hf ->. by injection Hf. Qed.

(** [tick], [p] and [flag] are what an order was made with. *)
Record order_basis (price : double) (requested tick : string) (p : ValidatedOrderPrice)
    (given : option bool) (flag : bool) : Prop := {
  basis_price : validate_order_price price tick = Ok p;
  basis_tick : requested ≠ "" → tick = requested;
  basis_flag b : given = Some b → flag = b }.

Lemma create_order_inl params c c' signed :
  create_order params c = (c', inl signed) →
  ∃ tick p flag a,
    order_basis (o_price params) (o_tick_size params) tick p (o_neg_risk params) flag ∧
    calculate_limit_order_amounts (o_side params) (o_size params) p = Ok a ∧
    signed_by c (MkFields (o_token_id params) (o_side params) a (o_expiration params) (o_metadata params)
      (o_builder_code params)) flag signed.
Proof.
  unfold create_order. intros (signer & c0 & [= <- <-] & Hc)%clob_bind_inl. destruct (order_signer c); [|done].
  apply clob_bind_inl in Hc as (tick & c1 & Ht & Hc). apply clob_bind_inl in Hc as (p & c2 & [Hp ->]%lift_inl & Hc).
  apply clob_bind_inl in Hc as (flag & c3 & Hf & Hc). apply clob_bind_inl in Hc as (a & c4 & [Ha ->]%lift_inl & Hc).
  exists tick, p, flag, a. split_and!; [split; [done|by apply (order_tick_size_inl _ _ _ _ _ Ht)|intros b; by apply order_neg_risk_inl with (1 := Hf)]|done|].
  apply sign_fields_inl in Hc. eapply signed_by_before; [|exact Hc].
  apply quiet_run in Ht; [|apply quiet_order_tick]. apply quiet_run in Hf; [|apply quiet_order_neg_risk]. by etransitivity.
Qed.

Lemma create_market_order_inl params t c c' prepared price :
  create_market_order params t c = (c', inl prepared) → m_price params = Some price →
  prepared_type prepared = t ∧
  ∃ tick p flag a,
    order_basis price (m_tick_size params) tick p (m_neg_risk params) flag ∧
    calculate_market_order_amounts (m_side params) (m_amount params) p = Ok a ∧
    signed_by c (MkFields (m_token_id params) (m_side params) a "" (m_metadata params)
      (m_builder_code params)) flag (prepared_order prepared).
Proof.
  intros Hc Hprice. unfold create_market_order in Hc. destruct (negb _); [done|].
  apply clob_bind_inl in Hc as (signer & c0 & [= <- <-] & Hc). destruct (order_signer c); [|done].
  unfold market_book, market_order_price in Hc. rewrite Hprice in Hc.
  apply clob_bind_inl in Hc as (book & c0 & [= <- <-] & Hc).
  apply clob_bind_inl in Hc as (tick & c1 & Ht & Hc).
  apply clob_bind_inl in Hc as (price' & c2 & [Hp' ->]%lift_inl & Hc). injection Hp' as <-.
  apply clob_bind_inl in Hc as (p & c2 & [Hp ->]%lift_inl & Hc).
  apply clob_bind_inl in Hc as (flag & c3 & Hf & Hc). apply clob_bind_inl in Hc as (a & c4 & [Ha ->]%lift_inl & Hc).
  apply clob_bind_inl in Hc as (signed & c4 & Hs & Hc). injection Hc as _ <-. split; [done|].
  exists tick, p, flag, a. split_and!; [split; [done|by apply (order_tick_size_inl _ _ _ _ _ Ht)|intros b; by apply order_neg_risk_inl with (1 := Hf)]|done|].
  apply sign_fields_inl in Hs. eapply signed_by_before; [|exact Hs].
  apply quiet_run in Ht; [|apply quiet_order_tick]. apply quiet_run in Hf; [|apply quiet_order_neg_risk]. by etransitivity.
Qed.

(** What [r] asks for was posted; or nothing was, and nothing was accepted. *)
Definition posts_one (c c' : ClobClient) (r : Result OrderResponse + thrown) (P : request → Prop) : Prop :=
  (orders_sent c' = orders_sent c ∧ ∀ x, r ≠ inl (success x)) ∨
  ∃ req, orders_sent c' = orders_sent c ++ [req] ∧ P req ∧ ∀ x, r = inl (success x) → order_success x = true.

Lemma posts_none c c' r P : same_client c c' → (∀ x, r ≠ inl (success x)) → posts_one c c' r P.
Proof. intros [] ?. by left. Qed.

(** A quiet first step of an operation that posts. *)
Lemma posts_after {A} (m : clob A) (f : A → clob (Result OrderResponse)) c c' r (P : request → Prop) :
  quiet m → (m ≫= f) c = (c', r) →
  (∀ a c1, m c = (c1, inl a) → same_client c c1 → f a c1 = (c', r) → posts_one c1 c' r P) →
  posts_one c c' r P.
Proof.
  intros Hq Hm Hf. unfold mbind, clob_bind in Hm. destruct (m c) as [c1 [a|e]] eqn:Em.
  - specialize (Hf a c1 eq_refl (quiet_run _ _ _ _ Hq Em) Hm).
    destruct (quiet_run _ _ _ _ Hq Em). unfold posts_one in *. by rewrite same_orders0 in Hf.
  - injection Hm as <- <-. apply posts_none; [by eapply quiet_run|done].
Qed.

Definition amounts_of (side : OrderSide) (collateral shares : Z) : OrderAmounts :=
  match side with BUY => MkOrderAmounts collateral shares | SELL => MkOrderAmounts shares collateral end.

Definition limit_fields (params : PlaceLimitOrderParams) (a : OrderAmounts) : order_fields :=
  MkFields (l_token_id params) (l_side params) a
    (match l_expiration params with Some e => to_string e | None => "0" end)
    (l_metadata params) (l_builder_code params).

Context {Laws : LongDoubleLaws L}.

Lemma limit_amounts price tick p side size a :
  validate_order_price price tick = Ok p → calculate_limit_order_amounts side size p = Ok a →
  ∃ shares collateral, amount_to_micro_units size 2 = Ok shares ∧ exact_at p collateral shares ∧
    a = amounts_of side collateral shares.
Proof using Laws.
  intros Hp Ha. unfold calculate_limit_order_amounts in Ha.
  pose proof (validate_order_price_Ok _ _ _ Hp) as (Hwf & Hr & _). apply rounding_config_Ok in Hr as (_ & Hsd & _).
  rewrite amounts_for_shares_spec in Ha by done. rewrite Hsd in Ha.
  destruct (amount_to_micro_units size 2) as [m|] eqn:Em; [|done]. cbn in Ha.
  rewrite (tick_cost_exact price tick p size m) in Ha by (done || congruence). cbn in Ha.
  pose proof (Z.div_mod (m * units p) (scale p)) as Hdm. destruct Hwf as [Hu _ _].
  rewrite (tick_cost_exact price tick p size m) in Hdm by (done || congruence). 
  exists m, (m * units p / scale p). split; [done|]. split; [unfold exact_at; lia|].
  by destruct side; apply Ok_inj in Ha as <-.
Qed.

(** C1: A limit order that reaches the server is the one that was asked for: it is
    posted at most once, signed by the client's own key for the token, side,
    expiration and exchange of the parameters, at exactly the price asked, valid
    for the requested tick size or else the market's, for exactly the size asked,
    and with the client's own credentials; an expiration is at least 180 seconds ahead of a
    reading of the clock.  Whatever else happens, nothing is posted and no success
    is reported. *)
Theorem limit_order_as_asked params c c' r :
  place_limit_order params c = (c', r) →
  posts_one c c' r (λ req, ∃ tick p flag shares collateral signed,
    order_basis (l_price params) (l_tick_size params) tick p (l_neg_risk params) flag ∧
    amount_to_micro_units (l_size params) 2 = Ok shares ∧ exact_at p collateral shares ∧
    signed_by c (limit_fields params (amounts_of (l_side params) collateral shares)) flag signed ∧
    asks_for c signed (limit_order_type params) (l_post_only params) req ∧
    ∀ e, l_expiration params = Some e → ∃ n, u64 (unix_seconds n + min_expiration_lead_seconds) ≤ e).
Proof using Laws.
  intros Hr. unfold place_limit_order in Hr.
  eapply posts_after; [apply quiet_gets|exact Hr|]. intros ready c0 [= <- <-] _ Hr0.
  repeat (case_if; [injection Hr0 as <- <-; by apply posts_none|]).
  eapply posts_after; [apply quiet_expires|exact Hr0|]. intros soon c1 Hsoon Hc1 Hr1. cbv beta in Hr1.
  case_if; [injection Hr1 as <- <-; by apply posts_none|].
  assert (Hexp : ∀ e, l_expiration params = Some e → ∃ n, u64 (unix_seconds n + min_expiration_lead_seconds) ≤ e).
  { intros e He. unfold expires_too_soon in Hsoon. rewrite He in Hsoon.
    apply clob_bind_inl in Hsoon as (now & c2 & [_ [n ->]]%reading_inl & Hs). injection Hs as _ Hs.
    exists n. bools. lia. }
  eapply posts_after; [apply quiet_refresh|exact Hr1|]. intros [e|] c2 _ Hc2 Hr2; cbv beta iota in Hr2; [injection Hr2 as <- <-; by apply posts_none|].
  eapply posts_after; [apply quiet_create_order_result|exact Hr2|]. intros [signed|e] c3 Hcr Hc3 Hr3; cbv beta iota in Hr3;
    [|injection Hr3 as <- <-; by apply posts_none].
  apply post_signed_order_spec in Hr3 as [Hno|(req & Hreq & Hask & Hok)]; [by left|]. right. exists req.
  split; [done|]. split; [|done].
  assert (Hsame : same_client c c2) by (by etransitivity).
  assert (Hcr' : create_order (limit_order params) c2 = (c3, inl signed)).
  { unfold create_order_result in Hcr. apply clob_bind_inl in Hcr as (sg & c4 & [= <- <-] & Hcr).
    destruct (order_signer c2); [|done]. case_if; [done|]. by apply order_result_success. }
  apply create_order_inl in Hcr' as (tick & p & flag & a & Hb & Ha & Hs).
  pose proof (limit_amounts (l_price params) tick p (l_side params) (l_size params) a (basis_price _ _ _ _ _ _ Hb) Ha)
    as (shares & collateral & ? & ? & ->).
  exists tick, p, flag, shares, collateral, signed. split_and!; try done.
  - by eapply signed_by_before.
  - eapply asks_for_before; [|exact Hask]. by etransitivity.
Qed.

(** *** Market orders *)

(** [book] is the order book of the token as the server answered once. *)
Definition book_read (token : string) (book : Orderbook) : Prop :=
  ∃ n now parsed, parse_json (body (answer n (get_book token))) = Ok parsed ∧
    parse_rest_orderbook now parsed token = Ok book.

Lemma order_book_inl token c c' book :
  order_book_result token c = (c', inl (success book)) → book_read token book.
Proof.
  unfold order_book_result. case_if; [done|].
  intros (response & c1 & [= <- <-] & Hr)%clob_bind_inl. case_if.
  { by apply clob_fmap_inl in Hr as (e & _ & ?). }
  apply clob_bind_inl in Hr as (now & c2 & _ & Hr).
  destruct (_ ≫= _) as [[parsed b]|] eqn:Ep; [|done]. res_inv.
  apply clob_bind_inl in Hr as (u & c3 & _ & Hr). injection Hr as _ <-.
  exists (effects c), now, parsed. done.
Qed.

(** What a market order without a worst price is signed at: the depth limit of a
    book of the server, which covers the amount if the order must be filled. *)
Definition priced_by_book (params : PlaceMarketOrderParams) (price : double) : Prop :=
  ∃ book tick est, book_read (p_token_id params) book ∧
    estimate_market_depth book (p_side params) (p_amount params) tick = Ok est ∧ price = est_price est ∧
    (p_order_type params = FOK → est_fully_fillable est = true).

Lemma estimate_market_price_success book side amount tick t est :
  estimate_market_price book side amount tick t = Ok (success est) →
  estimate_market_depth book side amount tick = Ok est ∧ (t = FOK → est_fully_fillable est = true).
Proof.
  unfold estimate_market_price. destruct (validate_estimate_request amount t); [done|].
  case_if; [done|]. destruct (estimate_market_depth _ _ _ _) as [e|[]]; try done.
  case_if; [done|]. intros [= <-]. split; [done|]. intros ->. bools.
  by destruct Heqb0.
Qed.

Lemma estimate_refresh_inl params book tick c c' est :
  estimate_with_refresh params book tick c = (c', inl (success est)) →
  ∃ tick', estimate_market_price book (p_side params) (p_amount params) tick' (p_order_type params) = Ok (success est).
Proof.
  unfold estimate_with_refresh. cbv zeta. intros (first & c1 & [Hf ->]%lift_inl & Hr)%clob_bind_inl. case_if.
  - apply clob_bind_inl in Hr as (u & c2 & _ & Hr). apply clob_bind_inl in Hr as (rf & c3 & _ & Hr).
    destruct rf as [info|]; [|done]. apply lift_inl in Hr as [Hr _]. by exists (minimum_tick_size info).
  - injection Hr as <- ->. by exists tick.
Qed.

Lemma market_limit_inl params book tick c c' price :
  (p_worst_price params = None → ∃ b, book = Some b ∧ book_read (p_token_id params) b) →
  market_limit params book tick c = (c', inl (success price)) →
  match p_worst_price params with Some w => price = w | None => priced_by_book params price end.
Proof.
  intros Hb. unfold market_limit. destruct (p_worst_price params) as [w|].
  - intros (u & c1 & _ & Hr)%clob_bind_inl. by injection Hr.
  - destruct (Hb eq_refl) as (b & -> & Hread). intros (est & c1 & He & Hr)%clob_bind_inl.
    destruct est as [est|]; [|done]. injection Hr as _ <-.
    apply estimate_refresh_inl in He as (tick' & He). apply estimate_market_price_success in He as [He Hf].
    by exists b, tick', est.
Qed.

Lemma placement_book_inl params c c' book :
  placement_book params c = (c', inl (success book)) →
  p_worst_price params = None → ∃ b, book = Some b ∧ book_read (p_token_id params) b.
Proof.
  unfold placement_book. intros Hp Hn. rewrite Hn in Hp. apply clob_bind_inl in Hp as (f & c1 & Hf & Hp).
  destruct f as [b|]; [|done]. injection Hp as _ <-. exists b. split; [done|]. by eapply order_book_inl.
Qed.

(** The amounts of a market order: the most the budget buys, or all the shares. *)
Definition market_amounts (side : OrderSide) (p : ValidatedOrderPrice) (total : Z) (a : OrderAmounts) : Prop :=
  match side with
  | BUY => exact_at p (OrderAmounts.maker a) (OrderAmounts.taker a) ∧ 0 < OrderAmounts.maker a ≤ total
  | SELL => exact_at p (OrderAmounts.taker a) (OrderAmounts.maker a) ∧ OrderAmounts.maker a = total
  end.

Lemma market_amounts_Ok price tick p side amount a :
  validate_order_price price tick = Ok p → calculate_market_order_amounts side amount p = Ok a →
  ∃ total, amount_to_micro_units amount 2 = Ok total ∧ market_amounts side p total a.
Proof using Laws.
  intros Hp Ha. pose proof (validate_order_price_Ok _ _ _ Hp) as (Hwf & Hr & _).
  apply rounding_config_Ok in Hr as (_ & Hsd & _). destruct side.
  - apply market_buy_amounts in Ha as (b & Hb & He & Hm & _); [|done]. rewrite Hsd in Hb. by exists b.
  - apply (limit_amounts price tick p SELL) in Ha as (sh & co & ? & ? & ->); [|done]. by exists sh.
Qed.

Definition market_fields (params : PlaceMarketOrderParams) (a : OrderAmounts) : order_fields :=
  MkFields (p_token_id params) (p_side params) a "" (p_metadata params) (p_builder_code params).

(** C2: A market order that reaches the server is posted at most once, with the
    type, token and side asked, signed by the client's own key, at exactly the worst
    price that was given, or at the depth limit of a book the server returned, which
    for a fill-or-kill order covers the amount; a BUY commits no more than the
    budget and a SELL exactly the shares.  Whatever else happens, nothing is posted
    and no success is reported. *)
Theorem market_order_as_asked params c c' r :
  place_market_order params c = (c', r) →
  posts_one c c' r (λ req, ∃ price tick p flag total a signed,
    match p_worst_price params with Some w => price = w | None => priced_by_book params price end ∧
    order_basis price (p_tick_size params) tick p (p_neg_risk params) flag ∧
    amount_to_micro_units (p_amount params) 2 = Ok total ∧ market_amounts (p_side params) p total a ∧
    signed_by c (market_fields params a) flag signed ∧
    asks_for c signed (p_order_type params) false req).
Proof using Laws.
  intros Hr. unfold place_market_order in Hr.
  eapply posts_after; [apply quiet_gets|exact Hr|]. intros ready c0 [= <- <-] _ Hr0.
  repeat (case_if; [injection Hr0 as <- <-; by apply posts_none|]).
  eapply posts_after; [apply quiet_placement_book|exact Hr0|].
  intros [book|e] c1 Hbook Hc1 Hr1; cbv beta iota in Hr1; [|injection Hr1 as <- <-; by apply posts_none].
  eapply posts_after; [apply quiet_estimate_tick|exact Hr1|].
  intros [tick|e] c2 _ Hc2 Hr2; cbv beta iota in Hr2; [|injection Hr2 as <- <-; by apply posts_none].
  eapply posts_after; [apply quiet_market_limit|exact Hr2|].
  intros [price|e] c3 Hlim Hc3 Hr3; cbv beta iota in Hr3; [|injection Hr3 as <- <-; by apply posts_none].
  eapply posts_after; [apply quiet_create_market_order_result|exact Hr3|].
  intros [prepared|e] c4 Hcr Hc4 Hr4; cbv beta iota in Hr4; [|injection Hr4 as <- <-; by apply posts_none].
  apply market_limit_inl in Hlim; [|by eapply placement_book_inl].
  assert (Hcr' : create_market_order (market_order params price) (p_order_type params) c3 = (c4, inl prepared)).
  { unfold create_market_order_result in Hcr. case_if; [done|].
    apply clob_bind_inl in Hcr as (sg & c5 & [= <- <-] & Hcr). destruct (order_signer c3); [|done].
    case_if; [done|]. by apply order_result_success. }
  apply (create_market_order_inl _ _ _ _ _ price) in Hcr' as [Ht (tick' & p & flag & a & Hb & Ha & Hs)]; [|done].
  apply post_signed_order_spec in Hr4 as [Hno|(req & Hreq & Hask & Hok)]; [by left|]. right. exists req.
  split; [done|]. split; [|done]. rewrite Ht in Hask.
  destruct (market_amounts_Ok price tick' p _ _ _ (basis_price _ _ _ _ _ _ Hb) Ha) as (total & ? & ?).
  assert (Hsame : same_client c c3) by (do 3 (etransitivity; [eassumption|]); reflexivity).
  exists price, tick', p, flag, total, a, (prepared_order prepared). split_and!; try done.
  - by eapply signed_by_before.
  - eapply asks_for_before; [|exact Hask]. by etransitivity.
Qed.

(** *** Cancellations *)

(** The server answered the request [r] by confirming the cancellation of [ids]. *)
Definition confirmed_by (r : request) (ids : list string) : Prop :=
  ∃ n parsed, response_ok (answer n r) = true ∧
    parse_cancellation_response_json (body (answer n r)) = Ok parsed ∧
    not_canceled parsed = ∅ ∧ ∀ id, id ∈ ids → id ∈ canceled parsed.

Lemma confirms_cancellations_spec parsed ids :
  confirms_cancellations parsed ids = true ↔ not_canceled parsed = ∅ ∧ ∀ id, id ∈ ids → id ∈ canceled parsed.
Proof.
  unfold confirms_cancellations. rewrite andb_true_iff, bool_decide_eq_true, forallb_forall.
  split; intros [He Hf]; (split; [done|]); intros id Hid.
  - apply list_elem_of_In, Hf in Hid. by apply bool_decide_eq_true in Hid.
  - apply bool_decide_eq_true. by apply Hf, list_elem_of_In.
Qed.

(** Sending a request that changes something. *)
Lemma send_inl r c c' response :
  is_read r = false → send r c = (c', inl response) →
  orders_sent c' = orders_sent c ++ [r] ∧ ∃ n, response = answer n r.
Proof.
  intros Hr [= <- <-]. split; [|by eexists]. unfold orders_sent. cbn. rewrite filter_app. f_equal.
  by rewrite filter_cons, decide_True by done.
Qed.

(** C24: A cancellation is reported only when it happened: a success means that one
    request was sent, for exactly the orders that were named, and that the server's
    answer lists every one of them as cancelled and no failure. *)
Theorem cancellations_confirmed c c' :
  (∀ order_id b, cancel_order_result order_id c = (c', inl (success b)) →
    b = true ∧ ∃ headers,
      let r := delete_request "/order" (json_dump (JObject [("orderID", JString order_id)])) headers in
      orders_sent c' = orders_sent c ++ [r] ∧ confirmed_by r [order_id]) ∧
  (∀ order_ids, cancel_orders order_ids c = (c', inl true) →
    ∃ headers,
      let r := delete_request "/orders" (json_dump (JArray (map JString order_ids))) headers in
      orders_sent c' = orders_sent c ++ [r] ∧ confirmed_by r order_ids).
Proof.
  split.
  - intros id b. unfold cancel_order_result. intros (auth & c0 & [= <- <-] & Hr)%clob_bind_inl.
    destruct (authenticated_as c); [|done]. cbv zeta in Hr.
    apply clob_bind_inl in Hr as (headers & c1 & Hh & Hr). apply clob_bind_inl in Hr as (response & c2 & Hs & Hr).
    apply (quiet_run _ _ _ _ (quiet_headers _ _ _)) in Hh as [Ho _ _ _ _ _ _].
    apply send_inl in Hs as [Hsent [n ->]]; [|done]. rewrite Ho in Hsent.
    case_if; [by apply clob_fmap_inl in Hr as (e & _ & ?)|].
    destruct (parse_cancellation_response_json _) as [parsed|] eqn:Ep; [|done]. case_if; [|done].
    injection Hr as <- <-. split; [done|]. exists headers. cbv zeta. split; [done|].
    exists n, parsed. apply confirms_cancellations_spec in Heqb1 as [? ?]. apply negb_false_iff in Heqb0. done.
  - intros ids. unfold cancel_orders. cbv zeta. intros (headers & c1 & Hh & Hr)%clob_bind_inl.
    apply clob_bind_inl in Hr as (response & c2 & Hs & Hr).
    apply (quiet_run _ _ _ _ (quiet_headers _ _ _)) in Hh as [Ho _ _ _ _ _ _].
    apply send_inl in Hs as [Hsent [n ->]]; [|done]. rewrite Ho in Hsent. injection Hr as <- Hr.
    apply andb_true_iff in Hr as [Hok Hr].
    destruct (parse_cancellation_response_json _) as [parsed|] eqn:Ep; [|done].
    exists headers. split; [done|]. exists n, parsed. by apply confirms_cancellations_spec in Hr as [? ?].
Qed.

(** ** No exception escapes *)

Definition logic_only {A} (m : res A) : Prop := ∀ w, m ≠ Throw (runtime_error w).

Lemma logic_only_bind {A B} (m : res A) (f : A → res B) :
  logic_only m → (∀ a, m = Ok a → logic_only (f a)) → logic_only (m ≫= f).
Proof. intros Hm Hf w. destruct m as [a|e]; cbn; [by apply Hf|]. intros [= ->]. by apply (Hm w). Qed.

(** Any computation whose throws are of the [std::logic_error] family. *)
Local Ltac logic_steps :=
  repeat match goal with
  | |- logic_only (_ ≫= _) => apply logic_only_bind; [|intros ? ?]
  | |- logic_only (require ?b _) => intros ?; unfold require; destruct b; done
  | |- logic_only (Ok _) => done
  | |- logic_only (Throw _) => done
  | |- logic_only (match ?x with _ => _ end) => destruct x
  | |- logic_only _ => solve [auto with logic_db]
  end.

Create HintDb logic_db.

Lemma logic_checked_uint64 x : logic_only (checked_uint64 x).
Proof. unfold checked_uint64. logic_steps. Qed.
#[local] Hint Resolve logic_checked_uint64 : logic_db.

Lemma logic_decimal amount decimals mode : logic_only (decimal_to_scaled_uint64 amount decimals mode).
Proof. unfold decimal_to_scaled_uint64, check_amount, decimal_scale. logic_steps. Qed.
Lemma logic_exact_decimal amount decimals : logic_only (exact_decimal_to_scaled_uint64 amount decimals).
Proof. unfold exact_decimal_to_scaled_uint64, check_amount, decimal_scale. logic_steps. Qed.
Lemma logic_power_of_ten d : logic_only (power_of_ten d).
Proof. unfold power_of_ten. logic_steps. Qed.
Lemma logic_multiply l r : logic_only (checked_multiply l r).
Proof. unfold checked_multiply. logic_steps. Qed.
Lemma logic_rounding t : logic_only (rounding_config_for_tick_size t).
Proof. unfold rounding_config_for_tick_size. logic_steps. Qed.
#[local] Hint Resolve logic_decimal logic_exact_decimal logic_power_of_ten logic_multiply logic_rounding : logic_db.

Lemma logic_micro amount d : logic_only (amount_to_micro_units amount d).
Proof. unfold amount_to_micro_units. logic_steps. Qed.
Lemma logic_exact_multiply v n d : logic_only (exact_multiply_divide v n d).
Proof. unfold exact_multiply_divide. cbv zeta. logic_steps. Qed.
Lemma logic_validate p t : logic_only (validate_order_price p t).
Proof. unfold validate_order_price. logic_steps. Qed.
#[local] Hint Resolve logic_micro logic_exact_multiply logic_validate : logic_db.

Lemma logic_market_amounts side amount p : logic_only (calculate_market_order_amounts side amount p).
Proof. unfold calculate_market_order_amounts, amounts_for_shares. cbv zeta. logic_steps. Qed.
Lemma logic_level_units l : logic_only (level_units l).
Proof. unfold level_units, exact_depth_units. logic_steps. Qed.
Lemma logic_collateral s p up : logic_only (collateral_for s p up).
Proof. unfold collateral_for. cbv zeta. logic_steps. Qed.
Lemma logic_shares c p : logic_only (shares_for c p).
Proof. unfold shares_for. cbv zeta. logic_steps. Qed.
Lemma logic_add l r : logic_only (checked_add l r).
Proof. unfold checked_add. logic_steps. Qed.
#[local] Hint Resolve logic_market_amounts logic_level_units logic_collateral logic_shares logic_add : logic_db.

Lemma logic_visit {S} (visit : S → PriceLevel → res (S * bool)) ls s :
  (∀ s l, logic_only (visit s l)) → logic_only (visit_levels visit ls s).
Proof.
  intros Hv. revert s. induction ls as [|l ls IH]; intros s; [done|]. cbn [visit_levels].
  apply logic_only_bind; [done|]. intros [s' []] _; [done|apply IH].
Qed.

Lemma logic_best_first {S} levels side (visit : S → PriceLevel → res (S * bool)) s :
  (∀ s l, logic_only (visit s l)) → logic_only (visit_best_first levels side visit s).
Proof.
  intros Hv. unfold visit_best_first, check_finite_prices. apply logic_only_bind; [logic_steps|]. intros _ _.
  by apply logic_visit.
Qed.

Lemma logic_depth_limit book side amount tick :
  book_side book side ≠ [] → logic_only (find_depth_limit book side amount tick).
Proof.
  intros Hne. unfold find_depth_limit. apply logic_only_bind; [logic_steps|]. intros _ _.
  apply logic_only_bind; [by destruct (book_side book side)|]. intros _ _.
  apply logic_only_bind; [|done]. apply logic_best_first. intros s l. unfold depth_visit. cbv zeta. logic_steps.
Qed.

Lemma logic_estimate book side amount tick :
  book_side book side ≠ [] → logic_only (estimate_market_depth book side amount tick).
Proof.
  intros Hne. unfold estimate_market_depth. apply logic_only_bind; [by apply logic_depth_limit|]. intros lim _.
  logic_steps. apply logic_best_first. intros s l. unfold fill_visit, level_fill. cbv zeta. logic_steps.
Qed.

Lemma estimate_market_price_total book side amount tick t :
  ∃ result, estimate_market_price book side amount tick t = Ok result.
Proof.
  unfold estimate_market_price. destruct (validate_estimate_request amount t); [by eexists|].
  case_if; [by eexists|]. bools. pose proof (logic_estimate book side amount tick Heqb) as Hl.
  destruct (estimate_market_depth book side amount tick) as [e|[]]; try (by eexists); [case_if; by eexists|].
  by destruct (Hl what).
Qed.

(** An operation that always returns. *)
Definition contained {A} (m : clob A) : Prop := ∀ c, ∃ a, (m c).2 = inl a.

Lemma contained_bind {A B} (m : clob A) (f : A → clob B) :
  contained m → (∀ a, contained (f a)) → contained (m ≫= f).
Proof. intros Hm Hf c. unfold mbind, clob_bind. destruct (Hm c) as [a Ha]. destruct (m c) as [c1 r]; cbn in Ha; subst. apply Hf. Qed.
Lemma contained_fmap {A B} (f : A → B) (m : clob A) : contained m → contained (f <$> m).
Proof. intros Hm c. unfold fmap, clob_fmap. destruct (Hm c) as [a Ha]. destruct (m c) as [c1 r]; cbn in Ha; subst. by eexists. Qed.
Lemma contained_ret {A} (a : A) : contained (mret a). Proof. by exists a. Qed.
Lemma contained_gets {A} (f : ClobClient → A) : contained (gets f). Proof. by eexists. Qed.
Lemma contained_reading {A} (f : nat → A) : contained (reading f). Proof. by eexists. Qed.
Lemma contained_send r : contained (send r). Proof. by eexists. Qed.
Lemma contained_ticks f : contained (modify_ticks f). Proof. by eexists. Qed.
Lemma contained_flags f : contained (modify_flags f). Proof. by eexists. Qed.
Lemma contained_result {A} (m : clob A) : contained (order_result m).
Proof. intros c. unfold order_result. destruct (m c) as [c1 [a|[[]|]]]; by eexists. Qed.

Create HintDb contained_db.
#[local] Hint Resolve contained_ret contained_gets contained_reading contained_send contained_ticks contained_flags
  contained_result : contained_db.

Local Ltac contained_steps :=
  repeat first
    [ solve [auto with contained_db]
    | match goal with
      | |- contained (_ ≫= _) => apply contained_bind; [|intros ?]
      | |- contained (_ <$> _) => apply contained_fmap
      | |- contained (match ?x with _ => _ end) => destruct x
      end ].

Lemma contained_tick token : contained (tick_size_result token).
Proof. unfold tick_size_result, cached_entry, response_error. contained_steps. Qed.
#[local] Hint Resolve contained_tick : contained_db.
Lemma contained_book token : contained (order_book_result token).
Proof. unfold order_book_result, remember_market_metadata, response_error. contained_steps. Qed.
Lemma contained_create params : contained (create_order_result params).
Proof. unfold create_order_result, auth_failure, invalid_order. contained_steps. Qed.
Lemma contained_create_market params t : contained (create_market_order_result params t).
Proof. unfold create_market_order_result, auth_failure, invalid_order. contained_steps. Qed.
Lemma contained_expires e : contained (expires_too_soon e).
Proof. unfold expires_too_soon. contained_steps. Qed.
Lemma contained_refresh t token p : contained (refresh_tick_size t token p).
Proof. unfold refresh_tick_size, evict_tick_size. contained_steps. Qed.
Lemma contained_estimate_tick t token : contained (estimate_tick_size t token).
Proof. unfold estimate_tick_size. contained_steps. Qed.

Lemma contained_estimate book side amount tick t : contained (lift (estimate_market_price book side amount tick t)).
Proof. intros c. destruct (estimate_market_price_total book side amount tick t) as [r ->]. by eexists. Qed.
#[local] Hint Resolve contained_book contained_create contained_create_market contained_expires contained_refresh
  contained_estimate_tick contained_estimate : contained_db.

Lemma contained_refresh_estimate params book tick : contained (estimate_with_refresh params book tick).
Proof. unfold estimate_with_refresh, evict_tick_size. cbv zeta. contained_steps. Qed.
#[local] Hint Resolve contained_refresh_estimate : contained_db.

(** *** The request itself *)

Lemma skip_digits_all cs : Forall (λ c, is_decimal c = true) cs → skip_digits cs = (length cs, []).
Proof. induction 1 as [|c cs Hc _ IH]; [done|]. cbn. by rewrite Hc, IH. Qed.

Lemma numeral_chars_decimal z : 0 ≤ z → Forall (λ c, is_decimal c = true) (decimal_chars z).
Proof.
  intros Hz. unfold decimal_chars. apply Forall_map. eapply Forall_impl; [by apply digits_in_base|].
  intros d Hd. by apply digit_char_decimal.
Qed.

Lemma stoll_to_string z : 0 ≤ z < 2 ^ 63 → stoll (to_string z) = Ok z.
Proof.
  intros Hz. unfold stoll, to_string. rewrite chars_str.
  pose proof (numeral_chars_decimal z ltac:(lia)) as Hd.
  assert (Hv : decimal_val (decimal_chars z) = z) by (apply decimal_val_chars; lia).
  assert (Hne : decimal_chars z ≠ []).
  { unfold decimal_chars. intros Hn. apply map_eq_nil in Hn. by apply digits_nonempty in Hn; [|..]; try lia. }
  revert Hd Hv Hne. destruct (decimal_chars z) as [|c cs]; [done|]. intros Hd Hv _.
  assert (Hc : is_decimal c = true) by by inversion Hd.
  assert (Hs : is_space c = false ∧ bool_decide (c = "-"%char) = false ∧ bool_decide (c = "+"%char) = false).
  { pose proof (all_chars_spec (λ c, negb (is_decimal c) || negb (is_space c || bool_decide (c = "-"%char) || bool_decide (c = "+"%char)))
      ltac:(by vm_compute) c) as Hall. cbv beta in Hall. rewrite Hc in Hall. cbn in Hall.
    apply negb_true_iff, orb_false_iff in Hall as [[? ?]%orb_false_iff ?]. done. }
  destruct Hs as (H1' & H2' & H3'). cbn [skip_space]. rewrite H1'. cbn [skip_sign]. rewrite H2', H3'. cbn [orb].
  rewrite skip_digits_all by done. cbn [fst]. rewrite bool_decide_false by done. rewrite take_ge by done. rewrite Hv.
  by rewrite (proj2 (Z.leb_le (- 2 ^ 63) z)), (proj2 (Z.ltb_lt z (2 ^ 63))) by lia.
Qed.

(** What the constructor and the libraries guarantee: credentials that were
    validated, HMAC that does not fail, and salts of 63 bits. *)
Record ready (c : ClobClient) : Prop := {
  ready_creds creds : api_creds c = Some creds → validate_api_credentials creds = Ok tt;
  ready_hmac key text : is_Some (hmac_sha256 key text);
  ready_salt n : 0 ≤ random_salt n < 2 ^ 63 }.


(** A client is ready from its construction on. *)
Lemma new_client_ready standard negative chain key creds kind funder c :
  new_client standard negative chain key creds kind funder = Ok c →
  (∀ k text, is_Some (hmac_sha256 k text)) → (∀ n, 0 ≤ random_salt n < 2 ^ 63) → ready c.
Proof.
  intros Hc Hh Hn. split; [|done..]. unfold new_client in Hc. destruct key; res_inv; [|done].
  match goal with Hk : api_creds _ = Some ?k |- _ => cbn in Hk; subst creds end.
  match goal with Hv : _ = Ok ?u |- _ = Ok tt => destruct u; exact Hv end.
Qed.

Lemma signed_salt c f flag signed : signed_by c f flag signed → ∃ n, salt signed = to_string (random_salt n).
Proof.
  intros (s0 & self & self' & order & n & m & _ & _ & _ & Hs). exists n. unfold sign_order_with_salt in Hs.
  destruct (validate_order_enums order); [|done]. destruct (v2_domain_hash self _) as [s [dh|]]; [|done].
  apply pair_equal_spec in Hs as [_ Hs]. by res_inv.
Qed.

Lemma ready_later c c' : ready c → same_client c c' → ready c'.
Proof. intros [] []. split; try done. intros creds. rewrite same_creds0. auto. Qed.

Lemma headers_contained c method path payload :
  ready c → is_authenticated c = true → ∃ headers, (get_l2_headers method path payload c).2 = inl headers.
Proof.
  intros Hr Ha. unfold get_l2_headers, is_authenticated, authenticated_as, gets, mbind, clob_bind in *.
  destruct (order_signer c) as [self|]; [|done]. destruct (api_creds c) as [creds|] eqn:Ec; [|done].
  unfold reading, lift, generate_l2_headers. pose proof (ready_creds _ Hr creds Ec) as Hv. rewrite Hv.
  change (Ok tt ≫= ?f) with (f tt). cbv beta zeta.
  assert (Hb : ∃ secret, base64_decode (api_secret creds) = Ok secret).
  { unfold validate_api_credentials in Hv. case_if; [done|]. res_inv. eauto. }
  destruct Hb as [secret ->]. cbn [mbind res_bind]. cbv beta.
  destruct (ready_hmac _ Hr secret (bytes_of_string (int_to_string (unix_seconds (effects c)) +:+ method +:+ path +:+ payload)))
    as [d Hd]. rewrite Hd. by eexists.
Qed.

Lemma post_contained c n signed t post_only :
  ready c → salt signed = to_string (random_salt n) → ∃ result, (post_signed_order signed t post_only c).2 = inl result.
Proof.
  intros Hr Hs. unfold post_signed_order. unfold mbind at 1, clob_bind at 1, gets at 1.
  destruct (authenticated_as c) as [[self creds]|] eqn:Ea; [|by eexists].
  unfold mbind at 1, clob_bind at 1, lift at 1, order_payload_json, signed_order_json.
  rewrite Hs, stoll_to_string by apply (ready_salt _ Hr).
  cbn [mbind res_bind]. cbv beta zeta. unfold mbind at 1, clob_bind at 1.
  match goal with |- context [get_l2_headers ?m ?p ?b c] =>
    destruct (headers_contained c m p b Hr) as [headers Hh]; [by unfold is_authenticated; rewrite Ea|];
    destruct (get_l2_headers m p b c) as [c1 x]; cbn in Hh; subst x end.
  apply contained_bind; [apply contained_send|]. intros response. unfold response_error. contained_steps.
Qed.

(** A contained first step. *)
Lemma contained_after {A B} (m : clob A) (f : A → clob B) c :
  contained m → quiet m → (∀ a c1, m c = (c1, inl a) → same_client c c1 → ∃ b, (f a c1).2 = inl b) →
  ∃ b, ((m ≫= f) c).2 = inl b.
Proof.
  intros Hm Hq Hf. unfold mbind, clob_bind. destruct (Hm c) as [a Ha]. specialize (Hq c).
  destruct (m c) as [c1 r] eqn:E. cbn in Ha, Hq. subst. by apply Hf.
Qed.

Lemma created_salt params c c' signed :
  create_order_result params c = (c', inl (success signed)) → ∃ n, salt signed = to_string (random_salt n).
Proof.
  unfold create_order_result. intros (sg & c0 & [= <- <-] & Hc)%clob_bind_inl. destruct (order_signer c); [|done].
  case_if; [done|]. apply order_result_success, create_order_inl in Hc as (? & ? & ? & ? & _ & _ & Hs).
  by eapply signed_salt.
Qed.

Lemma created_market_salt params t c c' prepared price :
  create_market_order_result params t c = (c', inl (success prepared)) → m_price params = Some price →
  ∃ n, salt (prepared_order prepared) = to_string (random_salt n).
Proof.
  unfold create_market_order_result. intros Hc Hp. case_if; [done|].
  apply clob_bind_inl in Hc as (sg & c0 & [= <- <-] & Hc). destruct (order_signer c); [|done].
  case_if; [done|]. apply order_result_success in Hc.
  apply (create_market_order_inl _ _ _ _ _ price) in Hc as [_ (? & ? & ? & ? & _ & _ & Hs)]; [|done].
  by eapply signed_salt.
Qed.

Lemma contained_market_limit params book tick c :
  (p_worst_price params = None → book ≠ None) → ∃ r, (market_limit params book tick c).2 = inl r.
Proof.
  intros Hb. unfold market_limit, evict_tick_size. destruct (p_worst_price params).
  - revert c. change (contained ((if bool_decide (p_tick_size params = "") && negb (on_tick_grid s tick)
      then modify_ticks (delete (p_token_id params)) else mret tt);; mret (success s))). contained_steps.
  - destruct book as [book|]; [|by destruct (Hb eq_refl)]. revert c.
    match goal with |- ∀ c, ∃ r, (?m c).2 = inl r => change (contained m) end. contained_steps.
Qed.

End Facts.

(** ** Witnesses *)

Definition sample_clob_json : JsonLibrary :=
  {| json_parse := λ text,
       if bool_decide (text = "tick") then Some (JObject [("minimum_tick_size", JString "0.01")])
       else if bool_decide (text = "flag") then Some (JObject [("neg_risk", JBool true)])
       else if bool_decide (text = "book") then
         Some (JObject [("asset_id", JString "123456"); ("bids", JArray []);
           ("asks", JArray [JObject [("price", JString "0.57"); ("size", JNumber (of_Z binary64 40))]])])
       else if bool_decide (text = "placed") then
         Some (JObject [("success", JBool true); ("orderID", JString "o1"); ("status", JString "matched")])
       else if bool_decide (text = "cancelled") then Some (JObject [("canceled", JArray [JString "o1"])])
       else None;
     json_dump := λ _, "{}" |}.

Definition sample_clob_runtime : JsonRuntime :=
  {| parse_what := λ _, "parse error"; missing_what := λ _, "key not found";
     strtod := λ t, if bool_decide (t = "0.01") then Some (of_ratio binary64 1 100)
                    else if bool_decide (t = "0.57") then Some (of_ratio binary64 57 100) else None |}.

Definition sample_clob_world : ClobWorld :=
  {| steady_now := λ n, Z.of_nat n; unix_seconds := λ _, 1700000000; unix_millis := λ _, 1700000000000;
     unix_nanos := λ _, 1700000000000000000; random_salt := λ _, 42;
     answer := λ _ r, MkResponse 200
       (match r with get_tick_size _ => "tick" | get_neg_risk _ => "flag" | get_book _ => "book"
        | post_order_request _ _ => "placed" | delete_request _ _ _ => "cancelled" | _ => "" end) "" ∅;
     hmac_sha256 := λ key _, Some key |}.

Definition sample_client : ClobClient :=
  MkClobClient ∅ ∅ (Some sample_signer) (Some (MkCredentials "k" "c2VjcmV0" "p")) "" EOA sample_exchange
    sample_exchange [] 0.

Definition sample_limit : PlaceLimitOrderParams :=
  MkPlaceLimit "123456" (of_ratio binary64 57 100) (of_Z binary64 10) BUY true (Some 1700000500) "" "" "" None.

Definition sample_market : PlaceMarketOrderParams :=
  MkPlaceMarket "123456" BUY (of_Z binary64 10) None FOK "" "" "" None.

Section Samples.
#[local] Existing Instance sample_clob_json.
#[local] Existing Instance sample_clob_runtime.
#[local] Existing Instance sample_clob_world.
#[local] Existing Instance sample_dates.
#[local] Existing Instance x86_64_long_double.
#[local] Existing Instance insertion_std_sort.

Definition sample_limit_run : ClobClient * (Result OrderResponse + thrown) := place_limit_order sample_limit sample_client.
Definition sample_market_run : ClobClient * (Result OrderResponse + thrown) := place_market_order sample_market sample_client.

Definition accepted (r : Result OrderResponse + thrown) : bool :=
  match r with inl (success x) => order_success x | _ => false end.

Lemma limit_order_as_asked_witness :
  accepted sample_limit_run.2 = true ∧
  ∃ req tick p flag shares collateral signed,
    orders_sent sample_limit_run.1 = [req] ∧
    order_basis (l_price sample_limit) "" tick p None flag ∧
    amount_to_micro_units (l_size sample_limit) 2 = Ok shares ∧ exact_at p collateral shares ∧
    signed_by sample_client (limit_fields sample_limit (MkOrderAmounts collateral shares)) flag signed ∧
    asks_for sample_client signed GTD true req.
Proof.
  split; [vm_compute; reflexivity|].
  assert (length (orders_sent sample_limit_run.1) = 1%nat) as Hl by (vm_compute; reflexivity).
  destruct (limit_order_as_asked sample_limit sample_client sample_limit_run.1 sample_limit_run.2
    (surjective_pairing sample_limit_run)) as [[Hn _]|(req & Hs & (tick & p & flag & sh & co & signed & H1 & H2 & H3 & H4 & H5 & _) & _)].
  - rewrite Hn in Hl. discriminate Hl.
  - exists req, tick, p, flag, sh, co, signed.
    exact (conj Hs (conj H1 (conj H2 (conj H3 (conj H4 H5))))).
Defined.

Lemma market_order_as_asked_witness :
  accepted sample_market_run.2 = true ∧
  ∃ req price tick p flag total a signed,
    orders_sent sample_market_run.1 = [req] ∧ priced_by_book sample_market price ∧
    order_basis price "" tick p None flag ∧
    amount_to_micro_units (p_amount sample_market) 2 = Ok total ∧ market_amounts BUY p total a ∧
    signed_by sample_client (market_fields sample_market a) flag signed ∧
    asks_for sample_client signed FOK false req.
Proof.
  split; [vm_compute; reflexivity|].
  assert (length (orders_sent sample_market_run.1) = 1%nat) as Hl by (vm_compute; reflexivity).
  destruct (market_order_as_asked sample_market sample_client sample_market_run.1 sample_market_run.2
    (surjective_pairing sample_market_run)) as [[Hn _]|(req & Hs & (price & tick & p & flag & t & a & signed & H1 & H2 & H3 & H4 & H5 & H6) & _)].
  - rewrite Hn in Hl. discriminate Hl.
  - exists req, price, tick, p, flag, t, a, signed.
    exact (conj Hs (conj H1 (conj H2 (conj H3 (conj H4 (conj H5 H6)))))).
Defined.

Definition sample_cancel_run : ClobClient * (Result bool + thrown) := cancel_order_result "o1" sample_client.

Lemma cancellations_confirmed_witness :
  sample_cancel_run.2 = inl (success true) ∧
  ∃ r, orders_sent sample_cancel_run.1 = [r] ∧ confirmed_by r ["o1"].
Proof.
  assert (sample_cancel_run.2 = inl (success true)) as E by (vm_compute; reflexivity). split; [exact E|].
  destruct (cancellations_confirmed sample_client sample_cancel_run.1) as [Hc _].
  destruct (Hc "o1" true) as (_ & headers & Hs & Hok); [rewrite <- E; exact (surjective_pairing sample_cancel_run)|].
  eexists. split; [exact Hs|exact Hok].
Defined.

Lemma sample_client_ready : ready sample_client.
Proof.
  split.
  - intros creds [= <-]. vm_compute. reflexivity.
  - intros key text. by exists key.
  - intros n. cbn. lia.
Qed.

End Samples.
