(* ===== verification/ClobMarkets.v ===== *)
(** * Public reads of the CLOB client
    (src/clob_books.cpp, clob_market_metadata.cpp, clob_client.cpp)

    Books, prices, midpoints, spreads and markets that need no credentials: the
    request of each operation and what its caller gets from the answer, in the
    state of [ClobClient].  A malformed answer is an empty result, not an error.
    The market listings are [Paginator]s of [RestPaging]. *)
From Stdlib Require Import Ascii String Floats.SpecFloat.
From S2P Require Import Prelude Text Float64 MarketTime Sdk TradeSettlement OrderAmounts Orderbook EvmBytes Crypto OrderSigner OrderAuth RestParsing.
From S2P Require Import Query Pagination RestPaging ClobRows ClobClient.

#[local] Open Scope Z_scope.

Record PriceInfo := MkPrice { price_token : string; price_value : double }.
Record MidpointInfo := MkMidpoint { mid_token : string; mid_value : double }.
Record SpreadInfo := MkSpread { spread_token : string; spread_value : double }.
Record PriceHistoryPoint := MkPoint { point_timestamp : Z; point_price : double }.

Record LiveActivityMarket := MkLiveActivity {
  la_condition_id : string; la_id : Z; la_question : string; la_market_slug : string; la_event_slug : string;
  la_series_slug : string; la_icon : string; la_image : string; la_tags : list string }.

Record ClobMarketPage := MkMarketPage { page_data : list ClobMarket; page_next_cursor : string }.

Definition INITIAL_CURSOR : string := "MA==".
Definition END_CURSOR : string := "LTE=".


(** [try { ... } catch (...) { return {}; }]. *)
Definition or_empty {A} (empty : A) (m : res A) : A := match m with Ok a => a | Throw _ => empty end.
Definition if_parsed {A} (m : res A) : option A := match m with Ok a => Some a | Throw _ => None end.

Definition upper_text (value : string) : string := str (map to_upper (chars value)).

Section Reads.
Context `{JsonLibrary, JsonRuntime, DateReader, StdSort, World : ClobWorld}.

Definition get (path : string) : clob HttpResponse := send (read_request path None None).
Definition post (path payload : string) : clob HttpResponse := send (read_request path (Some payload) None).

(** What the body of a successful response is read as. *)
Definition answered {A} (empty : A) (read : string → A) (response : HttpResponse) : A :=
  if response_ok response then read (body response) else empty.

Definition book_request_body (token_ids : list string) (side : option string) : string :=
  json_dump (JArray ((λ token_id,
    JObject (("token_id", JString token_id) :: match side with Some s => [("side", JString (upper_text s))] | None => [] end))
    <$> token_ids)).

(** ** Books *)

Definition get_order_book (token_id : string) : clob (option Orderbook) :=
  result ← order_book_result token_id;
  mret (match result with success book => Some book | failure _ => None end).

(** [ClobClient::parse_orderbook]; the book is stamped with the clock. *)
Definition parse_orderbook (text expected : string) : clob (option Orderbook) :=
  now ← reading unix_nanos;
  mret (if_parsed (parsed ← parse_json text; parse_rest_orderbook now parsed expected)).

(** The books of the items, while each answers for a token still asked. *)
Fixpoint read_books (items : list json) (remaining : gset string) : clob (option (list (json * Orderbook) * gset string)) :=
  match items with
  | [] => mret (Some ([], remaining))
  | item :: items' =>
      book ← parse_orderbook (json_dump item) "";
      match book with
      | None => mret None
      | Some book =>
          if negb (bool_decide (asset_id book ∈ remaining)) then mret None
          else
            rest ← read_books items' (remaining ∖ {[asset_id book]});
            mret (match rest with Some (books, unanswered) => Some ((item, book) :: books, unanswered) | None => None end)
      end
  end.

Fixpoint remember_books (books : list (json * Orderbook)) : clob unit :=
  match books with
  | [] => mret tt
  | (item, book) :: books' =>
      remember_market_metadata (asset_id book) (book_tick_size item) (book_neg_risk item);; remember_books books'
  end.

Definition books_by_token (books : list (json * Orderbook)) : gmap string Orderbook :=
  list_to_map ((λ p, (asset_id p.2, p.2)) <$> books).

Definition get_order_books (token_ids : list string) : clob (gmap string Orderbook) :=
  let remaining := list_to_set token_ids : gset string in
  if bool_decide (token_ids = []) || negb (bool_decide (base.size remaining = length token_ids)) || bool_decide ("" ∈ remaining)
  then mret ∅
  else
    response ← post "/books" (book_request_body token_ids None);
    if negb (response_ok response) then mret ∅
    else
      match json_parse (body response) with
      | Some (JArray items) =>
          if negb (bool_decide (length items = base.size remaining)) then mret ∅
          else
            books ← read_books items remaining;
            match books with
            | Some (books, unanswered) =>
                if negb (bool_decide (unanswered = ∅)) then mret ∅
                else remember_books books;; mret (books_by_token books)
            | None => mret ∅
            end
      | _ => mret ∅
      end.

(** ** Prices *)

Definition token_query (path token_id : string) : string := path +:+ "?token_id=" +:+ percent_encode_query_value token_id.

(** The probability under a key of an object. *)
Definition read_probability {A} (key : string) (make : double → A) (text : string) : option A :=
  if_parsed (parsed ← parse_json text; value ← json_at parsed key; make <$> json_probability value).

(** The probabilities of the tokens an object answers for; one that is no
    probability voids them all. *)
Definition read_by_token {A} (token_ids : list string) (value : json → string → option json) (make : string → double → A)
    (text : string) : list A :=
  or_empty []
    (parsed ← parse_json text;
     if is_object parsed then
       mapM (λ p, make p.1 <$> json_probability p.2)
         (omap (λ token_id, pair token_id <$> value parsed token_id) token_ids)
     else Ok []).

Definition get_price (token_id side : string) : clob (option PriceInfo) :=
  response ← get (token_query "/price" token_id +:+ "&side=" +:+ percent_encode_query_value side);
  mret (answered None (read_probability "price" (MkPrice token_id)) response).

Definition get_prices (token_ids : list string) (side : string) : clob (list PriceInfo) :=
  if bool_decide (token_ids = []) then mret []
  else
    let normalized_side := upper_text side in
    response ← post "/prices" (book_request_body token_ids (Some normalized_side));
    mret (answered []
      (read_by_token token_ids (λ parsed token_id, json_field parsed token_id ≫= λ v, json_field v normalized_side) MkPrice)
      response).

Definition get_last_trade_price (token_id : string) : clob (option PriceInfo) :=
  response ← get (token_query "/last-trade-price" token_id);
  mret (answered None (read_probability "price" (MkPrice token_id)) response).

Definition read_last_trade (item : json) : res PriceInfo :=
  token ← json_at item "token_id" ≫= text_or (runtime_error (missing_what "string"));
  price ← json_at item "price" ≫= json_probability;
  Ok (MkPrice token price).

Definition get_last_trades_prices (token_ids : list string) : clob (list PriceInfo) :=
  if bool_decide (token_ids = []) then mret []
  else
    response ← post "/last-trades-prices" (book_request_body token_ids None);
    mret (answered []
      (λ text, or_empty [] (parsed ← parse_json text;
                            match parsed with JArray items => mapM read_last_trade items | _ => Ok [] end)) response).

Definition get_midpoint (token_id : string) : clob (option MidpointInfo) :=
  response ← get (token_query "/midpoint" token_id);
  mret (answered None (read_probability "mid" (MkMidpoint token_id)) response).

Definition get_midpoints (token_ids : list string) : clob (list MidpointInfo) :=
  if bool_decide (token_ids = []) then mret []
  else
    response ← post "/midpoints" (book_request_body token_ids None);
    mret (answered [] (read_by_token token_ids json_field MkMidpoint) response).

Definition get_spread (token_id : string) : clob (option SpreadInfo) :=
  response ← get (token_query "/spread" token_id);
  mret (answered None (read_probability "spread" (MkSpread token_id)) response).

Definition get_spreads (token_ids : list string) : clob (list SpreadInfo) :=
  if bool_decide (token_ids = []) then mret []
  else
    response ← post "/spreads" (book_request_body token_ids None);
    mret (answered [] (read_by_token token_ids json_field MkSpread) response).

(** ** History and activity of a market *)

Definition history_path (token_id : string) (start_ts end_ts : Z) (interval fidelity : string) : string :=
  "/prices-history?market=" +:+ percent_encode_query_value token_id +:+
  (if 0 <? start_ts then "&startTs=" +:+ to_string start_ts +:+ "&endTs=" +:+ to_string end_ts
   else if negb (bool_decide (interval = "")) then "&interval=" +:+ percent_encode_query_value interval else "") +:+
  (if negb (bool_decide (fidelity = "")) then "&fidelity=" +:+ percent_encode_query_value fidelity else "").

Definition history_point (item : json) : res PriceHistoryPoint :=
  match json_field item "t" with
  | None => Throw (invalid_argument "price history point requires a timestamp")
  | Some (JInteger t) =>
      require (0 <? t) (invalid_argument "price history timestamp must be positive");;
      price ← json_at item "p" ≫= json_probability;
      Ok (MkPoint t price)
  | Some _ => Throw (invalid_argument "price history timestamp must be an integer")
  end.

Definition read_history (text : string) : list PriceHistoryPoint :=
  or_empty []
    (parsed ← parse_json text;
     match json_field parsed "history" with
     | Some (JArray items) => mapM history_point items
     | _ => Ok []
     end).

Definition get_prices_history (token_id : string) (start_ts end_ts : Z) (interval fidelity : string) :
    clob (list PriceHistoryPoint) :=
  if xorb (start_ts =? 0) (end_ts =? 0) then
    throw (exception (invalid_argument "price history requires both start_ts and end_ts"))
  else
    response ← get (history_path token_id start_ts end_ts interval fidelity);
    mret (answered [] read_history response).

Definition live_text (item : json) (field : string) : res string :=
  json_at item field ≫= text_or (invalid_argument ("live activity " +:+ field +:+ " must be a string")).

Definition read_live_activity (asked : string) (item : json) : res (option LiveActivityMarket) :=
  if negb (is_object item) then Ok None
  else
    condition ← live_text item "condition_id";
    if bool_decide (condition = "") || negb (bool_decide (condition = asked)) then Ok None
    else
      id ← json_at item "id";
      match id with
      | JInteger id =>
          question ← live_text item "question";
          market_slug ← live_text item "market_slug";
          event_slug ← live_text item "event_slug";
          series_slug ← live_text item "series_slug";
          icon ← live_text item "icon";
          image ← live_text item "image";
          tags ← json_at item "tags";
          match tags with
          | JArray tags =>
              tags ← mapM (text_or (runtime_error (missing_what "string"))) tags;
              Ok (Some (MkLiveActivity condition (i64 id) question market_slug event_slug series_slug icon image tags))
          | _ => Ok None
          end
      | _ => Ok None
      end.

Definition get_market_live_activity (condition_id : string) : clob (option LiveActivityMarket) :=
  response ← get ("/markets/live-activity/" +:+ condition_id);
  mret (answered None (λ text, or_empty None (parse_json text ≫= read_live_activity condition_id)) response).

(** ** Markets and the clock of the server *)

Definition read_server_time (text : string) : option Z :=
  let cs := chars text in
  if all_digits cs && (946684800 <=? decimal_val cs) && (decimal_val cs <=? 253402300799) then Some (decimal_val cs) else None.

Definition get_server_time : clob (option Z) :=
  response ← get "/time";
  mret (answered None read_server_time response).

Definition warm_connection : clob bool :=
  time ← get_server_time;
  response ← get "/time";
  mret (match time with Some _ => response_ok response | None => false end).

Definition fetch_market_page (endpoint cursor : string) : clob ClobMarketPage :=
  response ← get (if bool_decide (cursor = "") then endpoint
                  else endpoint +:+ "?next_cursor=" +:+ percent_encode_query_value cursor);
  mret (answered (MkMarketPage [] "")
    (λ text, or_empty (MkMarketPage [] "")
       ('(markets, next) ← parse_clob_market_page_json text; Ok (MkMarketPage markets next))) response).

Definition get_markets : string → clob ClobMarketPage := fetch_market_page "/markets".
Definition get_sampling_markets : string → clob ClobMarketPage := fetch_market_page "/sampling-markets".
Definition get_simplified_markets : string → clob ClobMarketPage := fetch_market_page "/simplified-markets".
Definition get_sampling_simplified_markets : string → clob ClobMarketPage :=
  fetch_market_page "/sampling-simplified-markets".

Definition get_market (condition_id : string) : clob (option ClobMarket) :=
  if bool_decide (condition_id = "") then mret None
  else
    response ← get ("/markets/" +:+ condition_id);
    mret (answered None (λ text,
      match ClobClient_parse_markets ("[" +:+ text +:+ "]") with
      | [market] => if bool_decide (m_condition_id market = condition_id) then Some market else None
      | _ => None
      end) response).
End Reads.

(** ** Listings *)

Section Listings.
Context `{JsonLibrary, JsonRuntime, DateReader, Server}.

Definition start_of (cursor : string) : string := if bool_decide (cursor = "") then INITIAL_CURSOR else cursor.

Definition cursor_path (prefix : string) (request : PageRequest) : string :=
  prefix +:+ percent_encode_query_value (r_cursor request).

(** A page of rows and the cursor of the next. *)
Definition row_page {T} (parse : string → res (list T * string)) (text : string) : res (Page T) :=
  '(rows, next) ← parse text; Ok (MkPage rows next None false).

Definition clob_pager {T} (endpoint prefix start : string) (parse : string → res (list T * string)) : Pager T :=
  sent_by (cursor_pages endpoint (start_of start) END_CURSOR) endpoint (cursor_path prefix) (row_page parse).

Definition market_paginator (endpoint start_cursor : string) : Pager ClobMarket :=
  clob_pager endpoint (endpoint +:+ "?next_cursor=") start_cursor parse_clob_market_page_json.

Definition markets_pager : string → Pager ClobMarket := market_paginator "/markets".
Definition sampling_markets_pager : string → Pager ClobMarket := market_paginator "/sampling-markets".
Definition simplified_markets_pager : string → Pager ClobMarket := market_paginator "/simplified-markets".
Definition sampling_simplified_markets_pager : string → Pager ClobMarket :=
  market_paginator "/sampling-simplified-markets".
End Listings.

(** ** Lemmas *)

Section Facts.
Context `{JsonLibrary, JsonRuntime, DateReader, StdSort, World : ClobWorld}.

(** The books that were read answer for distinct tokens of those asked, and what
    is left is the rest. *)
Lemma read_books_tokens items remaining c c' books unanswered :
  read_books items remaining c = (c', inl (Some (books, unanswered))) →
  NoDup ((λ p, asset_id p.2) <$> books) ∧
  remaining = list_to_set ((λ p, asset_id p.2) <$> books) ∪ unanswered ∧
  list_to_set ((λ p, asset_id p.2) <$> books) ## unanswered.
Proof.
  revert remaining c books. induction items as [|item items IH]; intros remaining c books.
  { cbn. intros [= <- <- <-]. split_and!; [constructor|set_solver|set_solver]. }
  cbn [read_books]. unfold mbind, clob_bind. destruct (parse_orderbook (json_dump item) "" c) as [c1 [[book|]|]] eqn:Ep; try done.
  destruct (bool_decide (asset_id book ∈ remaining)) eqn:Hin; [|done]. apply bool_decide_eq_true in Hin. cbn [negb].
  destruct (read_books items (remaining ∖ {[asset_id book]}) c1) as [c2 [[[bs left']|]|]] eqn:Er; try done.
  intros [= <- <- <-]. apply IH in Er as (Hnd & Hrem & Hdis). rewrite fmap_cons.
  assert (Hnot : asset_id book ∉ (λ p, asset_id p.2) <$> bs).
  { intros Hb. apply (elem_of_list_to_set (C := gset string)) in Hb. set_solver. }
  split_and!; [by constructor| |]; rewrite list_to_set_cons.
  - apply set_eq. intros x. destruct (decide (x = asset_id book)) as [->|Hx]; set_solver.
  - set_solver.
Qed.

(** Either nothing is returned or there is a book of its own for every token. *)
Lemma get_order_books_tokens token_ids c c' books :
  get_order_books token_ids c = (c', inl books) →
  books = ∅ ∨ dom books = list_to_set token_ids ∧ ∀ token book, books !! token = Some book → asset_id book = token.
Proof.
  unfold get_order_books. destruct (_ || _); [intros [= _ <-]; by left|].
  unfold post, send, mbind at 1, clob_bind at 1. destruct (response_ok _); [|intros [= _ <-]; by left]. cbn [negb].
  destruct (json_parse _) as [[| | | | |items|]|]; try (intros [= _ <-]; by left).
  destruct (bool_decide (length items = _)); [|intros [= _ <-]; by left]. cbn [negb].
  unfold mbind at 1, clob_bind at 1. destruct (read_books items _ _) as [c1 [[[bs unanswered]|]|]] eqn:Er;
    [|intros [= _ <-]; by left|done].
  destruct (bool_decide (unanswered = ∅)) eqn:Hu; [|intros [= _ <-]; by left]. apply bool_decide_eq_true in Hu as ->.
  cbn [negb]. unfold mbind at 1, clob_bind at 1. destruct (remember_books bs c1) as [c2 [|]]; [|done]. intros [= _ <-]. right.
  apply read_books_tokens in Er as (Hnd & Hrem & _). split.
  - unfold books_by_token. rewrite dom_list_to_map_L, <- list_fmap_compose. rewrite Hrem, union_empty_r_L. done.
  - intros token book Hb. apply elem_of_list_to_map_2 in Hb. apply list_elem_of_fmap in Hb as (p & [= -> ->] & _). done.
Qed.
End Facts.
