(* ===== verification/ClobAccount.v ===== *)
(** * The account behind the CLOB client
    (src/clob_account.cpp, clob_activity.cpp, clob_activity_pagination.cpp,
    order_signer_auth.cpp)

    API credentials, open orders, trades, balances, scoring, notifications and
    rewards of the account: the authenticated request of each operation and what
    is read off its answer, in the state of [ClobClient].  A listing asks for its
    pages with the credentials it has throughout: [authenticated] says whether
    there are any. *)
From Stdlib Require Import Ascii String Floats.SpecFloat.
From S2P Require Import Prelude Text Float64 Sdk TradeSettlement EvmBytes Crypto OrderSigner OrderAuth RestParsing.
From S2P Require Import Query Pagination RestPaging ClobRows ClobClient ClobOrders ClobMarkets.

#[local] Open Scope Z_scope.

Record BalanceAllowance := MkBalance { ba_balance : string; ba_allowances : gmap string string }.
Record OrderScoringResult := MkScoring { scoring : bool }.
Record Notification := MkNotification { n_type : Z; n_owner : string; n_payload : json }.
Record FeeRateInfo := MkFeeRate { fr_maker : string; fr_taker : string; fr_base_fee : string }.

Definition set_creds (creds : ApiCredentials) (c : ClobClient) : ClobClient :=
  MkClobClient (tick_size_cache c) (neg_risk_cache c) (order_signer c) (Some creds) (funder_address c) (sig_type c)
    (standard_exchange c) (neg_risk_exchange c) (sent c) (effects c).

(** [try { ... } catch (const std::exception &e)] on the client. *)
Definition catching {A} (m : clob A) (handler : string → clob A) : clob A := λ c,
  match m c with
  | (c, inr (exception e)) => handler (what_of e) c
  | (c, inr (metadata_resolution context cause)) => handler context c
  | done => done
  end.

Section Account.
Context `{JsonLibrary, JsonRuntime, DateReader, Keccak, RecoverableSigner, World : ClobWorld}.

(** [value.get<std::string>()]. *)
Definition json_text (value : json) : res string := text_or (runtime_error (missing_what "string")) value.

(** ** API credentials *)

Definition parse_credentials (text : string) : res ApiCredentials :=
  parsed ← parse_json text;
  key ← json_at parsed "apiKey" ≫= json_text;
  secret ← json_at parsed "secret" ≫= json_text;
  passphrase ← json_at parsed "passphrase" ≫= json_text;
  validate_api_credentials (MkCredentials key secret passphrase);;
  Ok (MkCredentials key secret passphrase).

Definition credentials_request (self : OrderSigner) (path : string) (payload : option string) (nonce : Z) (failed : string) :
    clob ApiCredentials :=
  seconds ← reading unix_seconds;
  headers ← lift (generate_l1_headers self seconds nonce);
  response ← send (key_request path payload headers);
  if negb (response_ok response) then throw (exception (runtime_error (failed +:+ body response)))
  else lift (parse_credentials (body response)).

Definition derive_api_credentials (self : OrderSigner) : clob ApiCredentials :=
  credentials_request self "/auth/derive-api-key" None 0 "Failed to derive API key: ".

Definition create_api_credentials (self : OrderSigner) (nonce : Z) : clob ApiCredentials :=
  credentials_request self "/auth/api-key" (Some "{}") nonce "Failed to create API key: ".

Definition create_or_derive_api_credentials (self : OrderSigner) : clob ApiCredentials :=
  catching (derive_api_credentials self) (λ derive_error,
    catching (create_api_credentials self 0) (λ create_error,
      throw (exception (runtime_error ("Could not derive or create API credentials: derive: " +:+ derive_error +:+
                                       "; create: " +:+ create_error))))).

Definition store_credentials (creds : ApiCredentials) : clob ApiCredentials := λ c, (set_creds creds c, inl creds).

(** The signer asks for credentials, which the client keeps. *)
Definition keep_credentials (ask : OrderSigner → clob ApiCredentials) : clob ApiCredentials :=
  signer ← gets order_signer;
  match signer with
  | None => not_authenticated
  | Some self =>
      creds ← ask self;
      store_credentials creds
  end.

Definition create_api_key (nonce : Z) : clob ApiCredentials := keep_credentials (λ self, create_api_credentials self nonce).
Definition derive_api_key : clob ApiCredentials := keep_credentials derive_api_credentials.
Definition create_or_derive_api_key : clob ApiCredentials := keep_credentials create_or_derive_api_credentials.

(** ** Authenticated requests *)

(** [http_.get(path, get_l2_headers("GET", endpoint, ""))]: what is signed is
    the path without its query. *)
Definition get_signed (path endpoint : string) : clob HttpResponse :=
  headers ← get_l2_headers "GET" endpoint "";
  send (read_request path None (Some headers)).

(** The texts before the first value that is none. *)
Fixpoint leading_texts (items : list json) : list string :=
  match items with JString s :: items' => s :: leading_texts items' | _ => [] end.

Definition read_api_keys (text : string) : list string :=
  match json_parse text with
  | Some parsed => match json_field parsed "apiKeys" with Some (JArray items) => leading_texts items | _ => [] end
  | None => []
  end.

Definition get_api_keys : clob (list string) :=
  response ← get_signed "/auth/api-keys" "/auth/api-keys";
  mret (answered [] read_api_keys response).

Definition delete_api_key : clob bool :=
  headers ← get_l2_headers "DELETE" "/auth/api-key" "";
  response ← send (delete_request "/auth/api-key" "" headers);
  mret (response_ok response).

Definition get_order_result (order_id : string) : clob (Result (option OpenOrder)) :=
  let endpoint := "/data/order/" +:+ order_id in
  auth ← gets authenticated_as;
  match auth with
  | None => mret (failure (make_auth_error "Client not authenticated" endpoint))
  | Some _ =>
      response ← get_signed endpoint endpoint;
      if negb (response_ok response) then failure <$> response_error response endpoint
      else
        match parse_open_order_json (body response) with
        | Ok order => mret (success (Some order))
        | Throw e => mret (failure (make_parse_error (what_of e) endpoint (body response)))
        end
  end.

Definition get_order (order_id : string) : clob (option OpenOrder) :=
  result ← get_order_result order_id;
  mret (match result with success order => order | failure _ => None end).

(** ** Balances *)

Definition balance_value_string (value : json) : res string :=
  match value with
  | JString s => Ok s
  | JInteger _ | JNumber _ => Ok (json_dump value)
  | _ => Throw (invalid_argument "balance and allowance values must be strings or numbers")
  end.

Definition read_balance (text : string) : res BalanceAllowance :=
  parsed ← parse_json text;
  match json_field parsed "balance", json_field parsed "allowances" with
  | Some balance, Some (JObject allowances) =>
      balance ← balance_value_string balance;
      values ← mapM (λ p, pair p.1 <$> balance_value_string p.2) allowances;
      Ok (MkBalance balance (list_to_map values))
  | _, _ => Throw (invalid_argument "balance response requires balance and allowances")
  end.

Definition balance_path (endpoint asset_type token_id : string) (signature_type : Z) : string :=
  endpoint +:+ "?asset_type=" +:+ percent_encode_query_value asset_type +:+ "&signature_type=" +:+ to_string signature_type +:+
  (if bool_decide (token_id = "") then "" else "&token_id=" +:+ percent_encode_query_value token_id).

Definition get_balance_allowance (asset_type token_id : string) : clob (option BalanceAllowance) :=
  kind ← gets sig_type;
  response ← get_signed (balance_path "/balance-allowance" asset_type token_id kind) "/balance-allowance";
  mret (answered None (λ text, if_parsed (read_balance text)) response).

Definition update_balance_allowance (asset_type token_id : string) : clob bool :=
  kind ← gets sig_type;
  response ← get_signed (balance_path "/balance-allowance/update" asset_type token_id kind) "/balance-allowance/update";
  mret (response_ok response).

(** ** Scoring *)

Definition read_scoring (text : string) : option OrderScoringResult :=
  match json_parse text with
  | Some parsed => match json_field parsed "scoring" with Some (JBool b) => Some (MkScoring b) | _ => None end
  | None => None
  end.

Definition is_order_scoring (order_id : string) : clob (option OrderScoringResult) :=
  response ← get_signed ("/order-scoring?order_id=" +:+ percent_encode_query_value order_id) "/order-scoring";
  mret (answered None read_scoring response).

(** The object answers for exactly the orders asked. *)
Definition read_orders_scoring (order_ids : list string) (text : string) : list OrderScoringResult :=
  match json_parse text with
  | Some ((JObject fields) as parsed) =>
      let requested := list_to_set order_ids : gset string in
      if negb (bool_decide (length fields = base.size requested)) then []
      else if negb (forallb (λ p, bool_decide (p.1 ∈ requested) && match p.2 with JBool _ => true | _ => false end) fields)
      then []
      else
        or_empty []
          (mapM (λ id, value ← json_at parsed id;
                       match value with JBool b => Ok (MkScoring b) | _ => Throw (runtime_error (missing_what "boolean")) end)
             order_ids)
  | _ => []
  end.

Definition are_orders_scoring (order_ids : list string) : clob (list OrderScoringResult) :=
  if bool_decide (order_ids = []) then mret []
  else
    let text := json_dump (JArray (JString <$> order_ids)) in
    headers ← get_l2_headers "POST" "/orders-scoring" text;
    response ← send (read_request "/orders-scoring" (Some text) (Some headers));
    mret (answered [] (read_orders_scoring order_ids) response).

(** ** Notifications *)

Definition read_notification (item : json) : option Notification :=
  match json_field item "type", json_field item "owner", json_field item "payload" with
  | Some (JInteger type), Some (JString owner), Some ((JObject _) as payload) =>
      if (0 <=? type) && (type <=? 2 ^ 32 - 1) then Some (MkNotification type owner payload) else None
  | _, _, _ => None
  end.

Definition read_notifications (text : string) : list Notification :=
  match json_parse text with Some (JArray items) => default [] (mapM read_notification items) | _ => [] end.

Definition get_notifications : clob (list Notification) :=
  kind ← gets sig_type;
  response ← get_signed ("/notifications?signature_type=" +:+ percent_encode_query_value (to_string kind)) "/notifications";
  mret (answered [] read_notifications response).

(** The ids, each encoded, with commas between. *)
Fixpoint encoded_ids (ids : list string) : string :=
  match ids with
  | [] => ""
  | [id] => percent_encode_query_value id
  | id :: ids' => percent_encode_query_value id +:+ "," +:+ encoded_ids ids'
  end.

Definition drop_notifications (notification_ids : list string) : clob bool :=
  headers ← get_l2_headers "DELETE" "/notifications" "";
  response ← send (delete_request ("/notifications?ids=" +:+ encoded_ids notification_ids) "" headers);
  mret (response_ok response).

(** ** Earnings and fees *)

Definition read_earnings (text : string) : list EarningsInfo :=
  match json_parse text with
  | Some (JArray items) => or_empty [] (mapM parse_total_user_earning_info items)
  | _ => []
  end.

Definition get_total_earnings_for_user_for_day_all (date : string) : clob (list EarningsInfo) :=
  kind ← gets sig_type;
  response ← get_signed ("/rewards/user/total?date=" +:+ percent_encode_query_value date +:+ "&signature_type=" +:+
                         to_string kind) "/rewards/user/total";
  mret (answered [] read_earnings response).

Definition get_total_earnings_for_user_for_day (date : string) : clob (option EarningsInfo) :=
  earnings ← get_total_earnings_for_user_for_day_all date;
  mret (head earnings).

(** [j.value(key, "0")]. *)
Definition text_value (object : json) (key : string) : res string :=
  match json_field object key with None => Ok "0" | Some value => json_text value end.

Definition read_fee_rate (text : string) : res FeeRateInfo :=
  parsed ← parse_json text;
  require (is_object parsed) (runtime_error (missing_what "maker"));;
  maker ← text_value parsed "maker";
  taker ← text_value parsed "taker";
  Ok (MkFeeRate maker taker
        (match json_field parsed "base_fee" with Some value => json_scalar_string value "0" | None => "0" end)).

Definition get_fee_rate (token_id : string) : clob (option FeeRateInfo) :=
  if bool_decide (token_id = "") then mret None
  else
    response ← get (token_query "/fee-rate" token_id);
    mret (answered None (λ text, if_parsed (read_fee_rate text)) response).
End Account.

(** ** Listings *)

Section Listings.
Context `{JsonLibrary, JsonRuntime, DateReader, Server}.
Variable authenticated : bool.

(** A listing that fails without a request when there are no credentials. *)
Definition account_pager {T} (endpoint prefix start : string) (parse : string → res (list T * string)) : Pager T :=
  let asked := clob_pager endpoint prefix start parse in
  if authenticated then asked
  else MkPager (pages asked) (λ _, None) (λ _ _, failure (make_auth_error "Client not authenticated" endpoint)).

Definition orders_prefix (market : string) : string :=
  "/data/orders" +:+ (if bool_decide (market = "") then "?" else "?market=" +:+ percent_encode_query_value market +:+ "&") +:+
  "next_cursor=".

Definition open_orders_pager (market start_cursor : string) : Pager OpenOrder :=
  account_pager "/data/orders" (orders_prefix market) start_cursor parse_open_order_page_json.

Definition trades_pager (start_cursor : string) : Pager Trade :=
  account_pager "/data/trades" "/data/trades?next_cursor=" start_cursor parse_trade_page_json.

(** [std::numeric_limits<size_t>::max()], the default of [collect]. *)
Definition SIZE_MAX : Z := 2 ^ 64 - 1.

(** [pager.collect()]; 1001 pages is more than it ever asks for. *)
Definition collected {T} (pager : Pager T) : res (Result (list T)) :=
  p ← pages pager;
  match @collect T (page_answer pager) 1001 SIZE_MAX p with
  | Some (_, result) => Ok result
  | None => Throw (logic_error "out of pages")
  end.

Definition items_or_none {T} (result : Result (list T)) : list T :=
  match result with success items => items | failure _ => [] end.

Definition get_open_orders_result (market : string) : res (Result (list OpenOrder)) := collected (open_orders_pager market "").

Definition get_open_orders (market : string) : res (list OpenOrder) :=
  result ← get_open_orders_result market; Ok (items_or_none result).

Definition get_trades (next_cursor : string) : res (list Trade) :=
  require authenticated (runtime_error "Client not authenticated");;
  result ← collected (trades_pager next_cursor);
  Ok (items_or_none result).

(** *** Rewards *)

Definition reward_page {T} (parse_item : json → res T) (text : string) : res (list T * string) :=
  parsed ← parse_json text;
  let bad := invalid_argument "rewards page must hold data and next_cursor" in
  require (is_object parsed) bad;;
  data ← json_at parsed "data";
  match data with
  | JArray items =>
      cursor ← json_at parsed "next_cursor";
      match cursor with
      | JString cursor => rows ← mapM parse_item items; Ok (rows, cursor)
      | _ => Throw bad
      end
  | _ => Throw bad
  end.

Definition collect_reward_pages {T} (endpoint prefix : string) (parse_item : json → res T) : res (list T) :=
  result ← collected (clob_pager endpoint prefix "" (reward_page parse_item)); Ok (items_or_none result).

Definition get_rewards_markets_current : res (list RewardsInfo) :=
  collect_reward_pages "/rewards/markets/current" "/rewards/markets/current?next_cursor=" parse_current_reward_info.

Definition get_rewards_markets (condition_id : string) : res (list RewardsInfo) :=
  if bool_decide (condition_id = "") then Ok []
  else
    let endpoint := "/rewards/markets/" +:+ condition_id in
    collect_reward_pages endpoint (endpoint +:+ "?next_cursor=") parse_market_reward_info.

(** Without credentials the headers of the first page throw. *)
Definition get_earnings_for_user_for_day_all (signature_type : Z) (date : string) : res (list EarningsInfo) :=
  require authenticated (runtime_error "Client not authenticated");;
  collect_reward_pages "/rewards/user"
    ("/rewards/user?date=" +:+ percent_encode_query_value date +:+ "&signature_type=" +:+ to_string signature_type +:+
     "&next_cursor=") parse_user_earning_info.

Definition get_earnings_for_user_for_day (signature_type : Z) (date : string) : res (option EarningsInfo) :=
  head <$> get_earnings_for_user_for_day_all signature_type date.
End Listings.

(** ** Lemmas *)

Section Facts.
Context `{JsonLibrary, JsonRuntime, DateReader, Keccak, RecoverableSigner, L : LongDouble, StdSort, World : ClobWorld}.

(** *** Credentials *)

Lemma parse_credentials_valid text creds : parse_credentials text = Ok creds → validate_api_credentials creds = Ok tt.
Proof.
  unfold parse_credentials. intros Hp. res_inv.
  match goal with Hv : validate_api_credentials ?k = Ok ?u |- _ => destruct u; exact Hv end.
Qed.

Lemma credentials_request_valid self path payload nonce failed c c' creds :
  credentials_request self path payload nonce failed c = (c', inl creds) → validate_api_credentials creds = Ok tt.
Proof.
  unfold credentials_request. intros (? & ? & _ & Hr)%clob_bind_inl. apply clob_bind_inl in Hr as (? & ? & _ & Hr).
  apply clob_bind_inl in Hr as (response & c1 & _ & Hr). destruct (response_ok response); [|done].
  apply lift_inl in Hr as [Hr _]. by eapply parse_credentials_valid.
Qed.

Lemma catching_inl {A} (m : clob A) handler c c' a :
  catching m handler c = (c', inl a) → m c = (c', inl a) ∨ ∃ what c1, handler what c1 = (c', inl a).
Proof. unfold catching. destruct (m c) as [c1 [x|[e|context cause]]]; eauto. Qed.

(** The credentials a client takes on are valid: it is as ready as it was. *)
Lemma kept_credentials_ready ask c c' creds :
  (∀ self c1 c2, ask self c1 = (c2, inl creds) → validate_api_credentials creds = Ok tt) → ready c →
  keep_credentials ask c = (c', inl creds) → ready c' ∧ api_creds c' = Some creds.
Proof.
  intros Hask [_ Hh Hs] Hk. unfold keep_credentials in Hk. apply clob_bind_inl in Hk as ([self|] & c1 & _ & Hk); [|done].
  apply clob_bind_inl in Hk as (k & c2 & Ha & Hk). injection Hk as <- ->.
  split; [|done]. split; [|done..]. cbn. intros k [= <-]. by eapply Hask.
Qed.

Lemma api_keys_ready nonce c c' creds :
  ready c →
  create_api_key nonce c = (c', inl creds) ∨ derive_api_key c = (c', inl creds) ∨ create_or_derive_api_key c = (c', inl creds) →
  ready c' ∧ api_creds c' = Some creds.
Proof.
  intros Hc [Hk|[Hk|Hk]]; (eapply kept_credentials_ready; [|exact Hc|exact Hk]); intros self c1 c2 Ha.
  1,2: exact (credentials_request_valid _ _ _ _ _ _ _ _ Ha).
  apply catching_inl in Ha as [Ha|(w & c3 & Ha)]; [exact (credentials_request_valid _ _ _ _ _ _ _ _ Ha)|].
  apply catching_inl in Ha as [Ha|(w' & c4 & Ha)]; [exact (credentials_request_valid _ _ _ _ _ _ _ _ Ha)|done].
Qed.

(** *** Scoring *)

(** Either nothing is returned or the verdict of every order asked, in order. *)
Lemma read_orders_scoring_asked order_ids text :
  read_orders_scoring order_ids text = [] ∨
  ∃ parsed, json_parse text = Some parsed ∧
    Forall2 (λ id r, json_field parsed id = Some (JBool (scoring r))) order_ids (read_orders_scoring order_ids text).
Proof.
  unfold read_orders_scoring. destruct (json_parse text) as [[| | | | | |fields]|]; try by left.
  cbv zeta. destruct (negb _); [by left|]. destruct (negb _); [by left|].
  destruct (mapM _ order_ids) as [rs|e] eqn:Em; [right|by left]. exists (JObject fields). split; [done|]. cbn [or_empty].
  apply mapM_Ok in Em. eapply Forall2_impl; [exact Em|]. cbv beta. intros id r Hr. apply bind_Ok in Hr as (v & Hv & Hr).
  unfold json_at in Hv. destruct (json_field _ id) as [w|]; [|done]. injection Hv as ->. destruct v; try done. by injection Hr as <-.
Qed.
End Facts.

(** *** Listings *)

Section Listed.
Context `{JsonLibrary, JsonRuntime, DateReader, Server}.

(** The listings end, whatever the server answers. *)
Lemma collected_returns {T} (pager : Pager T) endpoint start :
  pages pager = cursor_pages endpoint start END_CURSOR → ∃ result, collected pager = Ok result.
Proof.
  intros Hp. unfold collected. rewrite Hp.
  destruct (cursor_pages endpoint start END_CURSOR) as [p|] eqn:Ec; [|done]. cbn [mbind res_bind].
  assert (Hm : made p) by (left; by eexists _, _, _).
  destruct (@collect_returns T (page_answer pager) p SIZE_MAX Hm) as (q & r & Hrun).
  rewrite Hrun; [by eexists|]. injection Ec as <-. cbn. lia.
Qed.

Lemma account_listings_return authenticated market cursor :
  (∃ r, collected (open_orders_pager authenticated market cursor) = Ok r) ∧
  (∃ r, collected (trades_pager authenticated cursor) = Ok r) ∧
  ∃ r, get_rewards_markets_current = Ok r.
Proof.
  split_and!.
  - eapply collected_returns. unfold open_orders_pager, account_pager. by destruct authenticated.
  - eapply collected_returns. unfold trades_pager, account_pager. by destruct authenticated.
  - unfold get_rewards_markets_current, collect_reward_pages.
    edestruct (collected_returns (T := RewardsInfo)) as [r ->]; [reflexivity|]. by eexists.
Qed.
End Listed.
