(* ===== verification/PositionCalls.v ===== *)
(** * Contract calls of positions and approvals
    (include/polymarket/polymarket_contracts.hpp, src/polymarket_contracts.cpp,
    src/position_calls.cpp, src/approval_calls.cpp)

    The calls that split, merge and redeem positions and grant approvals, as
    calldata, and the readers of what a node answers.  [TokenChain] is a
    reference for the two token standards the calls address: what an ERC-20
    allowance and an ERC-1155 operator or balance is, how [approve] and
    [setApprovalForAll] change them, and what a read returns. *)
From Stdlib Require Import Ascii String.
From S2P Require Import Prelude Text EvmBytes Crypto EvmAbi.

#[local] Open Scope Z_scope.

#[local] Set Warnings "-register-all".

(** ** Contracts (polymarket_contracts.hpp) *)

Record PolymarketContracts := MkContracts {
  contracts_chain_id : Z;
  collateral_token : string;
  conditional_tokens : string;
  neg_risk_adapter : string;
  collateral_adapter : string;
  neg_risk_collateral_adapter : string;
  standard_exchange : string;
  neg_risk_exchange : string;
  exchange_v3 : string;
  protocol_v2_router : string;
  position_manager : string;
  binary_module : string;
  neg_risk_module : string;
  combinatorial_module : string;
  auto_redeem_operator : string;
  perps_deposit_contract : string;
  proxy_factory : string;
  proxy_implementation : string;
  safe_factory : string;
  safe_init_code_hash : string;
  safe_multisend : string;
  relay_hub : string;
  deposit_wallet_factory : string;
  deposit_wallet_implementation : string;
  deposit_wallet_beacon : string }.

Definition polygon_mainnet : PolymarketContracts := {|
  contracts_chain_id := 137;
  collateral_token := "0xC011a7E12a19f7B1f670d46F03B03f3342E82DFB";
  conditional_tokens := "0x4D97DCd97eC945f40cF65F87097ACe5EA0476045";
  neg_risk_adapter := "0xd91E80cF2E7be2e162c6513ceD06f1dD0dA35296";
  collateral_adapter := "0xAdA100Db00Ca00073811820692005400218FcE1f";
  neg_risk_collateral_adapter := "0xadA2005600Dec949baf300f4C6120000bDB6eAab";
  standard_exchange := "0xE111180000d2663C0091e4f400237545B87B996B";
  neg_risk_exchange := "0xe2222d279d744050d28e00520010520000310F59";
  exchange_v3 := "0xe3333700cA9d93003F00f0F71f8515005F6c00Aa";
  protocol_v2_router := "0x12121212006e4CD160D18e3f00711DA5c3372600";
  position_manager := "0x006F54F7f9A22e0000CC2AB60031000000ae9fEF";
  binary_module := "0x1000008dD9001B968442c1000017eaE6E0dA00Ba";
  neg_risk_module := "0x200000900045e3B6259600682756002200028933";
  combinatorial_module := "0x30000034706c7d8e12009dab006be20000c031a8";
  auto_redeem_operator := "0xa1200000d0002264C9a1698e001292D00E1b00af";
  perps_deposit_contract := "0xDCa4af75705dbB50f62437045afF9921947917d2";
  proxy_factory := "0xaB45c5A4B0c941a2F231C04C3f49182e1A254052";
  proxy_implementation := "0x44e999d5c2F66Ef0861317f9A4805AC2e90aEB4f";
  safe_factory := "0xaacFeEa03eb1561C4e67d661e40682Bd20E3541b";
  safe_init_code_hash := "0x2bce2127ff07fb632d16c8347c4ebf501f4841168bed00d9e6ef715ddb6fcecf";
  safe_multisend := "0xA238CBeb142c10Ef7Ad8442C6D1f9E89e07e7761";
  relay_hub := "0xD216153c06E857cD7f72665E0aF1d7D82172F494";
  deposit_wallet_factory := "0x00000000000Fb5C9ADea0298D729A0CB3823Cc07";
  deposit_wallet_implementation := "0x58CA52ebe0DadfdF531Cde7062e76746de4Db1eB";
  deposit_wallet_beacon := "0x7A18EDfe055488A3128f01F563e5B479D92ffc3a" |}.

Definition for_chain (chain_id : Z) : res PolymarketContracts :=
  if chain_id =? 137 then Ok polygon_mainnet
  else Throw (invalid_argument ("no Polymarket contract preset for chain " +:+ to_string chain_id)).

(** [value.rfind("0x", 0) == 0] *)
Definition starts_0x (cs : list ascii) : bool :=
  match cs with
  | c :: x :: _ => bool_decide (c = "0"%char) && bool_decide (x = "x"%char)
  | _ => false
  end.

(** [from_hex(value).size() == size], false where [from_hex] throws. *)
Definition hex_bytes_size (value : string) (size : nat) : res bool :=
  match from_hex value with
  | Ok bytes => Ok (bool_decide (length bytes = size))
  | Throw (invalid_argument _) => Ok false
  | Throw e => Throw e
  end.

Definition require_hex_bytes (field value : string) (size : nat) : res unit :=
  ok ← (if starts_0x (chars value) then hex_bytes_size value size else Ok false);
  require ok (invalid_argument ("PolymarketContracts." +:+ field +:+ " must be 0x-prefixed " +:+
                                to_string (Z.of_nat size) +:+ "-byte hex")).

Definition contract_addresses (c : PolymarketContracts) : list (string * string) :=
  [("collateral_token", collateral_token c); ("conditional_tokens", conditional_tokens c);
   ("neg_risk_adapter", neg_risk_adapter c); ("collateral_adapter", collateral_adapter c);
   ("neg_risk_collateral_adapter", neg_risk_collateral_adapter c);
   ("standard_exchange", standard_exchange c); ("neg_risk_exchange", neg_risk_exchange c);
   ("exchange_v3", exchange_v3 c); ("protocol_v2_router", protocol_v2_router c);
   ("position_manager", position_manager c); ("binary_module", binary_module c);
   ("neg_risk_module", neg_risk_module c); ("combinatorial_module", combinatorial_module c);
   ("auto_redeem_operator", auto_redeem_operator c);
   ("perps_deposit_contract", perps_deposit_contract c); ("proxy_factory", proxy_factory c);
   ("proxy_implementation", proxy_implementation c); ("safe_factory", safe_factory c);
   ("safe_multisend", safe_multisend c); ("relay_hub", relay_hub c);
   ("deposit_wallet_factory", deposit_wallet_factory c);
   ("deposit_wallet_implementation", deposit_wallet_implementation c);
   ("deposit_wallet_beacon", deposit_wallet_beacon c)].

Fixpoint require_addresses (fields : list (string * string)) : res unit :=
  match fields with
  | [] => Ok tt
  | (field, value) :: fields => require_hex_bytes field value 20;; require_addresses fields
  end.

Definition validate (c : PolymarketContracts) : res unit :=
  require (negb (contracts_chain_id c =? 0))
    (invalid_argument "PolymarketContracts.chain_id must be non-zero");;
  require_addresses (contract_addresses c);;
  require_hex_bytes "safe_init_code_hash" (safe_init_code_hash c) 32.

Definition ctf_collateral_adapter (c : PolymarketContracts) (neg_risk : bool) : string :=
  if neg_risk then neg_risk_collateral_adapter c else collateral_adapter c.

(** ** Calls and amounts (position_calls.cpp) *)

Record ContractCall := MkCall {
  call_to : string;
  call_data : string;
  call_value : string }.

(** [{to, data}] leaves [value] at its default. *)
Definition call_of (to data : string) : ContractCall := MkCall to data "0".

Inductive MarketProtocol := Ctf | V2.

Record MarketPositionContext := MkContext {
  protocol : MarketProtocol;
  market_id : string;
  condition_id : string;
  neg_risk : bool;
  token_ids : string * string;
  position_token_contract : string;
  operator_contract : string }.

Definition kZeroBytes32 : string := to_hex (replicate 32 0).

Definition is_zero_word (word : list Z) : bool := forallb (λ b, b =? 0) word.

Definition is_xdigit (c : ascii) : bool := bool_decide (is_Some (nibble c)).

Definition is_hex_string (value : string) (hex_digits : nat) : bool :=
  let cs := chars value in
  bool_decide (length cs = (hex_digits + 2)%nat) && starts_0x cs && forallb is_xdigit (drop 2 cs).

(** Words are compared as vectors: lexicographically. *)
Fixpoint word_ltb (a b : list Z) : bool :=
  match a, b with
  | _, [] => false
  | [], _ :: _ => true
  | x :: a, y :: b => if x <? y then true else if y <? x then false else word_ltb a b
  end.

Definition parse_uint256_amount (value label : string) : res (list Z) :=
  match parse_uint256_word value with
  | Throw (invalid_argument what) => Throw (invalid_argument (label +:+ ": " +:+ what))
  | r => r
  end.

Definition normalize_condition_id (condition_id : string) : res string :=
  require (is_hex_string condition_id 64)
    (invalid_argument "condition_id must be 0x followed by 32 bytes of hex");;
  Ok (evm_normalize_hex condition_id).

Definition ends_with (cs suffix : list ascii) : bool :=
  bool_decide (drop (length cs - length suffix) cs = suffix).

Definition v2_condition_id_bytes31 (condition_id : string) : res string :=
  let normalized := chars (evm_normalize_hex condition_id) in
  let normalized :=
    if bool_decide (length normalized = 66%nat) &&
       (ends_with normalized ["0"; "0"]%char || ends_with normalized ["0"; "1"]%char)
    then take 64 normalized else normalized in
  require (is_hex_string (str normalized) 62)
    (invalid_argument "Protocol V2 condition id must be bytes31, or bytes32 ending in an outcome byte");;
  Ok (str normalized).

Definition normalize_requested_condition_id (condition_id : string) : res string :=
  require (is_hex_string condition_id 64 || is_hex_string condition_id 62)
    (invalid_argument "condition_id must be 0x followed by 32 bytes of hex (or 31 bytes for a Protocol V2 market)");;
  Ok (evm_normalize_hex condition_id).

Definition uint256_is_zero (value : string) : res bool :=
  is_zero_word <$> parse_uint256_amount value "amount".

Definition require_positive_amount (amount label : string) : res unit :=
  word ← parse_uint256_amount amount label;
  require (negb (is_zero_word word)) (invalid_argument (label +:+ " must be positive")).

Definition resolve_merge_amount (condition_id : string) (balances : string * string)
    (requested : string) : res string :=
  yes ← parse_uint256_amount balances.1 "balance";
  no ← parse_uint256_amount balances.2 "balance";
  let max_amount := if word_ltb yes no then balances.1 else balances.2 in
  zero ← uint256_is_zero max_amount;
  require (negb zero)
    (invalid_argument ("no complementary positions to merge for condition " +:+ condition_id));;
  if bool_decide (requested = "max") then Ok max_amount
  else
    require_positive_amount requested "merge amount";;
    limit ← parse_uint256_amount max_amount "balance";
    amount ← parse_uint256_amount requested "merge amount";
    require (negb (word_ltb limit amount))
      (invalid_argument ("merge amount " +:+ requested +:+ " exceeds the mergeable " +:+ max_amount +:+
                         " for condition " +:+ condition_id));;
    Ok requested.

(** [EvmAbiValue::bytes32] and [EvmAbiValue::uint256(uint64_t)] *)
Definition bytes32 (hex : string) : res EvmAbiValue := fixed_bytes hex 32.
Definition uint256_u64 (number : Z) : res EvmAbiValue := unsigned_integer_u64 number 256.

Definition binary_partition : res (list EvmAbiValue) :=
  one ← uint256_u64 1;
  two ← uint256_u64 2;
  Ok [one; two].

Section Calls.
Context `{K : Keccak}.

(** The arguments shared by the three calls of the collateral adapters. *)
Definition ctf_arguments (collateral condition_id : string) : res (list EvmAbiValue) :=
  collateral ← address collateral;
  parent ← bytes32 kZeroBytes32;
  condition_id ← normalize_condition_id condition_id;
  condition ← bytes32 condition_id;
  partition ← binary_partition;
  Ok [collateral; parent; condition; Array partition].

Definition ctf_split_position_call (adapter collateral condition_id amount : string)
    : res ContractCall :=
  arguments ← ctf_arguments collateral condition_id;
  amount ← uint256 amount;
  Ok (call_of adapter
        (evm_abi_encode_call "splitPosition(address,bytes32,bytes32,uint256[],uint256)"
           (arguments ++ [amount]))).

Definition ctf_merge_positions_call (adapter collateral condition_id amount : string)
    : res ContractCall :=
  arguments ← ctf_arguments collateral condition_id;
  amount ← uint256 amount;
  Ok (call_of adapter
        (evm_abi_encode_call "mergePositions(address,bytes32,bytes32,uint256[],uint256)"
           (arguments ++ [amount]))).

Definition ctf_redeem_positions_call (adapter collateral condition_id : string)
    : res ContractCall :=
  arguments ← ctf_arguments collateral condition_id;
  Ok (call_of adapter
        (evm_abi_encode_call "redeemPositions(address,bytes32,bytes32,uint256[])" arguments)).

Definition router_split_call (router condition_id amount : string) : res ContractCall :=
  condition_id ← v2_condition_id_bytes31 condition_id;
  condition ← fixed_bytes condition_id 31;
  amount ← uint256 amount;
  Ok (call_of router (evm_abi_encode_call "split(bytes31,uint256)" [condition; amount])).

Definition router_merge_call (router condition_id amount : string) : res ContractCall :=
  condition_id ← v2_condition_id_bytes31 condition_id;
  condition ← fixed_bytes condition_id 31;
  amount ← uint256 amount;
  Ok (call_of router (evm_abi_encode_call "merge(bytes31,uint256)" [condition; amount])).

Definition router_redeem_call (router condition_id : string) (outcome_index : Z) (amount : string)
    : res ContractCall :=
  condition_id ← v2_condition_id_bytes31 condition_id;
  condition ← fixed_bytes condition_id 31;
  outcome ← uint256_u64 outcome_index;
  amount ← uint256 amount;
  Ok (call_of router
        (evm_abi_encode_call "redeem(bytes31,uint256,uint256)" [condition; outcome; amount])).

Definition split_call (market : MarketPositionContext) (contracts : PolymarketContracts)
    (amount : string) : res ContractCall :=
  match protocol market with
  | V2 => router_split_call (operator_contract market) (condition_id market) amount
  | Ctf => ctf_split_position_call (operator_contract market) (collateral_token contracts)
             (condition_id market) amount
  end.

Definition merge_call (market : MarketPositionContext) (contracts : PolymarketContracts)
    (amount : string) : res ContractCall :=
  match protocol market with
  | V2 => router_merge_call (operator_contract market) (condition_id market) amount
  | Ctf => ctf_merge_positions_call (operator_contract market) (collateral_token contracts)
             (condition_id market) amount
  end.

Definition balance_of_batch_call (market : MarketPositionContext) (owner : string)
    : res ContractCall :=
  owner ← address owner;
  yes ← uint256 (token_ids market).1;
  no ← uint256 (token_ids market).2;
  Ok (call_of (position_token_contract market)
        (evm_abi_encode_call "balanceOfBatch(address[],uint256[])"
           [Array [owner; owner]; Array [yes; no]])).

Definition decode_binary_balances (return_data : string) : res (string * string) :=
  balances ← match evm_decode_uint_array return_data 0 with
             | Throw (invalid_argument what) =>
                 Throw (runtime_error ("invalid balanceOfBatch result: " +:+ what))
             | r => r
             end;
  match balances with
  | [yes; no] => Ok (str yes, str no)
  | _ => Throw (runtime_error "invalid balanceOfBatch result: expected two balances")
  end.

(** ** Approvals (approval_calls.cpp) *)

Definition max_uint256 : string :=
  "115792089237316195423570985008687907853269984665640564039457584007913129639935".

Record Erc20TradingApproval := MkErc20 {
  token_address : string;
  spender : string;
  approval_amount : string }.

Record Erc1155TradingApproval := MkErc1155 {
  token1155_address : string;
  operator_address : string }.

Record TradingApprovals := MkApprovals {
  erc20 : list Erc20TradingApproval;
  erc1155 : list Erc1155TradingApproval }.

Definition approvals_empty (a : TradingApprovals) : bool :=
  bool_decide (length (erc20 a) = O) && bool_decide (length (erc1155 a) = O).

Record TradingApprovalsState := MkApprovalsState {
  missing : TradingApprovals;
  is_fully_approved : bool }.

Definition quote : string := str [chr 34].

Definition require_address (value label : string) : res unit :=
  let cs := chars value in
  let ok := bool_decide (length cs = 42%nat) && starts_0x cs && forallb is_xdigit (drop 2 cs) in
  require ok (invalid_argument (label +:+ " must be 0x followed by 20 bytes of hex, got " +:+
                                quote +:+ value +:+ quote)).

Definition resolve_approval_amount (amount : string) : res string :=
  if bool_decide (amount = "max") then Ok max_uint256
  else parse_uint256_amount amount "approval amount";; Ok amount.

Definition erc20_approve_call (token spender amount : string) : res ContractCall :=
  parse_uint256_amount amount "approval amount";;
  spender ← address spender;
  amount ← uint256 amount;
  Ok (call_of token (evm_abi_encode_call "approve(address,uint256)" [spender; amount])).

Definition erc20_transfer_call (token recipient amount : string) : res ContractCall :=
  parse_uint256_amount amount "transfer amount";;
  recipient ← address recipient;
  amount ← uint256 amount;
  Ok (call_of token (evm_abi_encode_call "transfer(address,uint256)" [recipient; amount])).

Definition erc1155_set_approval_for_all_call (token operator_address : string) (approved : bool)
    : res ContractCall :=
  operator ← address operator_address;
  approved ← boolean approved;
  Ok (call_of token (evm_abi_encode_call "setApprovalForAll(address,bool)" [operator; approved])).

Definition erc20_allowance_call (token owner spender : string) : res ContractCall :=
  owner ← address owner;
  spender ← address spender;
  Ok (call_of token (evm_abi_encode_call "allowance(address,address)" [owner; spender])).

Definition erc1155_is_approved_for_all_call (token owner operator_address : string)
    : res ContractCall :=
  owner ← address owner;
  operator ← address operator_address;
  Ok (call_of token (evm_abi_encode_call "isApprovedForAll(address,address)" [owner; operator])).

Definition single_word (return_data context : string) : res (list ascii) :=
  words ← match evm_data_words return_data with
          | Throw (invalid_argument what) =>
              Throw (runtime_error ("invalid " +:+ context +:+ " result: " +:+ what))
          | r => r
          end;
  match words with
  | [word] => Ok word
  | _ => Throw (runtime_error ("invalid " +:+ context +:+ " result: expected one word, got " +:+
                               to_string (Z.of_nat (length words))))
  end.

Definition decode_uint256_result (return_data context : string) : res string :=
  word ← single_word return_data context;
  str <$> evm_uint_word_to_decimal word.

Definition decode_bool_result (return_data context : string) : res bool :=
  value ← decode_uint256_result return_data context;
  require (bool_decide (value = "0") || bool_decide (value = "1"))
    (runtime_error ("invalid " +:+ context +:+ " result: not a bool"));;
  Ok (bool_decide (value = "1")).

Fixpoint allowance_calls (required : list Erc20TradingApproval) (owner : string)
    : res (list ContractCall) :=
  match required with
  | [] => Ok []
  | a :: required =>
      call ← erc20_allowance_call (token_address a) owner (spender a);
      calls ← allowance_calls required owner;
      Ok (call :: calls)
  end.

Fixpoint operator_calls (required : list Erc1155TradingApproval) (owner : string)
    : res (list ContractCall) :=
  match required with
  | [] => Ok []
  | a :: required =>
      call ← erc1155_is_approved_for_all_call (token1155_address a) owner (operator_address a);
      calls ← operator_calls required owner;
      Ok (call :: calls)
  end.

Definition trading_approval_check_calls (required : TradingApprovals) (owner : string)
    : res (list ContractCall) :=
  first ← allowance_calls (erc20 required) owner;
  second ← operator_calls (erc1155 required) owner;
  Ok (first ++ second).

(** The loops of [trading_approvals_state_from_results]; [results[index]] is behind
    the test of the sizes. *)
Fixpoint missing_erc20 (required : list Erc20TradingApproval) (results : list string)
    : res (list Erc20TradingApproval) :=
  match required with
  | [] => Ok []
  | a :: required =>
      let context := "allowance(" +:+ token_address a +:+ ", " +:+ spender a +:+ ")" in
      allowance ← decode_uint256_result (default "" (head results)) context;
      allowed ← parse_uint256_word allowance;
      wanted ← parse_uint256_amount (approval_amount a) "required amount";
      rest ← missing_erc20 required (tail results);
      Ok (if word_ltb allowed wanted then a :: rest else rest)
  end.

Fixpoint missing_erc1155 (required : list Erc1155TradingApproval) (results : list string)
    : res (list Erc1155TradingApproval) :=
  match required with
  | [] => Ok []
  | a :: required =>
      let context := "isApprovedForAll(" +:+ token1155_address a +:+ ", " +:+
                     operator_address a +:+ ")" in
      approved ← decode_bool_result (default "" (head results)) context;
      rest ← missing_erc1155 required (tail results);
      Ok (if (approved : bool) then rest else a :: rest)
  end.

Definition trading_approvals_state_from_results (required : TradingApprovals)
    (results : list string) : res TradingApprovalsState :=
  require (bool_decide (length results = (length (erc20 required) + length (erc1155 required))%nat))
    (logic_error "trading approval results do not match the checks");;
  allowances ← missing_erc20 (erc20 required) results;
  operators ← missing_erc1155 (erc1155 required) (drop (length (erc20 required)) results);
  let missing := MkApprovals allowances operators in
  Ok (MkApprovalsState missing (approvals_empty missing)).

Fixpoint approve_calls (missing : list Erc20TradingApproval) : res (list ContractCall) :=
  match missing with
  | [] => Ok []
  | a :: missing =>
      call ← erc20_approve_call (token_address a) (spender a) (approval_amount a);
      calls ← approve_calls missing;
      Ok (call :: calls)
  end.

Fixpoint set_approval_calls (missing : list Erc1155TradingApproval) : res (list ContractCall) :=
  match missing with
  | [] => Ok []
  | a :: missing =>
      call ← erc1155_set_approval_for_all_call (token1155_address a) (operator_address a) true;
      calls ← set_approval_calls missing;
      Ok (call :: calls)
  end.

Definition trading_approval_calls (missing : TradingApprovals) : res (list ContractCall) :=
  first ← approve_calls (erc20 missing);
  second ← set_approval_calls (erc1155 missing);
  Ok (first ++ second).
End Calls.

Definition required_trading_approvals (c : PolymarketContracts) : TradingApprovals :=
  MkApprovals
    (map (λ spender, MkErc20 (collateral_token c) spender max_uint256)
       [standard_exchange c; neg_risk_exchange c; collateral_adapter c;
        neg_risk_collateral_adapter c; protocol_v2_router c; exchange_v3 c;
        perps_deposit_contract c])
    (map (MkErc1155 (conditional_tokens c))
       [standard_exchange c; neg_risk_exchange c; collateral_adapter c;
        neg_risk_collateral_adapter c; auto_redeem_operator c; binary_module c;
        neg_risk_module c] ++
     map (MkErc1155 (position_manager c))
       [protocol_v2_router c; exchange_v3 c; auto_redeem_operator c]).

(** [PositionClient::get_trading_approvals_state] for a given wallet
    (trading_approvals.cpp); [eth_call] is the node's answer to a read. *)
Fixpoint eth_calls (eth_call : ContractCall → res string) (calls : list ContractCall)
    : res (list string) :=
  match calls with
  | [] => Ok []
  | call :: calls =>
      result ← eth_call call;
      results ← eth_calls eth_call calls;
      Ok (result :: results)
  end.

Definition get_trading_approvals_state `{Keccak} (eth_call : ContractCall → res string)
    (contracts : PolymarketContracts) (owner : string) : res TradingApprovalsState :=
  require_address owner "wallet";;
  let required := required_trading_approvals contracts in
  calls ← trading_approval_check_calls required owner;
  results ← eth_calls eth_call calls;
  trading_approvals_state_from_results required results.

(** [PositionClient::position_balances], and the part of the merges that makes a
    call from the balances (position_client.cpp). *)
Definition position_balances `{Keccak} (eth_call : ContractCall → res string)
    (market : MarketPositionContext) (wallet : string) : res (string * string) :=
  call ← balance_of_batch_call market wallet;
  result ← eth_call call;
  decode_binary_balances result.

Definition merge_request `{Keccak} (eth_call : ContractCall → res string)
    (contracts : PolymarketContracts) (wallet : string) (market : MarketPositionContext)
    (amount : string) : res (string * ContractCall) :=
  balances ← position_balances eth_call market wallet;
  resolved ← resolve_merge_amount (condition_id market) balances amount;
  call ← merge_call market contracts resolved;
  Ok (resolved, call).

(** ** The token standards

    What the addressed contracts do with the calls: ERC-20 allowances by token,
    owner and spender, ERC-1155 operators and balances. *)

Record TokenChain := MkTokens {
  allowances : gmap (list Z * list Z * list Z) Z;
  operators : gset (list Z * list Z * list Z);
  balances : gmap (list Z * list Z * Z) Z }.

Definition allowance (st : TokenChain) (key : list Z * list Z * list Z) : Z :=
  default 0 (allowances st !! key).
Definition balance (st : TokenChain) (key : list Z * list Z * Z) : Z :=
  default 0 (balances st !! key).

(** A contract stores 256-bit integers. *)
Definition uint256_storage (st : TokenChain) : Prop :=
  (∀ key, 0 ≤ allowance st key < 2 ^ 256) ∧ (∀ key, 0 ≤ balance st key < 2 ^ 256).

Definition selector `{Keccak} (signature : string) : list Z :=
  take 4 (keccak256 (bytes_of_string signature)).

(** The functions of one contract have distinct selectors. *)
Class TokenSelectors `{Keccak} : Prop := {
  writes_differ : selector "approve(address,uint256)" ≠ selector "setApprovalForAll(address,bool)";
  reads_differ : NoDup (selector <$>
    ["allowance(address,address)"; "isApprovedForAll(address,address)";
     "balanceOfBatch(address[],uint256[])"]) }.

Section Chain.
Context `{K : Keccak}.

(** The contract, the selector and the arguments of a call. *)
Definition calldata (call : ContractCall) : option (list Z * list Z * list Z) :=
  match from_hex (call_to call), from_hex (call_data call) with
  | Ok to, Ok data => Some (to, take 4 data, drop 4 data)
  | _, _ => None
  end.

Definition word_address (word : list Z) : list Z := drop 12 word.

Definition execute_call (sender : list Z) (call : ContractCall) (st : TokenChain)
    : option TokenChain :=
  '(to, sel, arguments) ← calldata call;
  match abi_decode [TWord; TWord] arguments with
  | Some [Word who; Word value] =>
      let key := (to, sender, word_address who) in
      if decide (sel = selector "approve(address,uint256)") then
        Some (MkTokens (<[key := word_val value]> (allowances st)) (operators st) (balances st))
      else if decide (sel = selector "setApprovalForAll(address,bool)") then
        Some (MkTokens (allowances st)
                (if word_val value =? 0 then operators st ∖ {[key]} else operators st ∪ {[key]})
                (balances st))
      else None
  | _ => None
  end.

Definition run_calls (sender : list Z) (calls : list ContractCall) (st : TokenChain)
    : option TokenChain :=
  foldl (λ st call, st ≫= execute_call sender call) (Some st) calls.

Definition words_of (values : list EvmAbiValue) : list (list Z) :=
  omap (λ v, match v with Word w => Some w | _ => None end) values.

Definition answer_call (st : TokenChain) (call : ContractCall) : option (list Z) :=
  '(to, sel, arguments) ← calldata call;
  if decide (sel = selector "balanceOfBatch(address[],uint256[])") then
    match abi_decode [TArray TWord; TArray TWord] arguments with
    | Some [Array owners; Array ids] =>
        Some (evm_abi_encode [uint_array
          (zip_with (λ owner id, balance st (to, word_address owner, word_val id))
             (words_of owners) (words_of ids))])
    | _ => None
    end
  else
    match abi_decode [TWord; TWord] arguments with
    | Some [Word owner; Word who] =>
        let key := (to, word_address owner, word_address who) in
        if decide (sel = selector "allowance(address,address)") then
          Some (word_of (allowance st key))
        else if decide (sel = selector "isApprovedForAll(address,address)") then
          Some (word_of (if bool_decide (key ∈ operators st) then 1 else 0))
        else None
    | _ => None
    end.

(** [eth_call] of a node whose contracts are in a state. *)
Definition node_of (st : TokenChain) (call : ContractCall) : res string :=
  match answer_call st call with
  | Some bytes => Ok (to_hex bytes)
  | None => Throw (runtime_error "execution reverted")
  end.
End Chain.

(** ** Lemmas on words and calldata *)

Lemma word_ltb_val a b :
  Forall is_byte a → Forall is_byte b → length a = length b →
  word_ltb a b = (word_val a <? word_val b).
Proof.
  intros Ha. revert b. induction Ha as [|x a Hx Ha IH]; intros [|y b] Hb Hl; try done.
  apply Forall_cons in Hb as [Hy Hb]. injection Hl as Hl. cbn [word_ltb].
  rewrite !(val_cons 256), <- Hl by lia. rewrite (IH b) by done.
  pose proof (word_val_bounds a Ha) as Ba. pose proof (word_val_bounds b Hb) as Bb.
  rewrite <- Hl in Bb. set (p := 256 ^ Z.of_nat (length a)) in *. unfold is_byte in *.
  destruct (Z.ltb_spec x y), (Z.ltb_spec y x), (Z.ltb_spec (word_val a) (word_val b));
    symmetry; first [apply Z.ltb_lt | apply Z.ltb_ge]; nia.
Qed.

Lemma is_zero_word_val w : Forall is_byte w → is_zero_word w = (word_val w =? 0).
Proof.
  induction 1 as [|b w Hb Hw IH]; [done|]. change (is_zero_word (b :: w)) with ((b =? 0) && is_zero_word w).
  rewrite IH, (val_cons 256) by lia. pose proof (word_val_bounds w Hw) as B.
  set (p := 256 ^ Z.of_nat (length w)) in *. unfold is_byte in Hb.
  destruct (Z.eqb_spec b 0), (Z.eqb_spec (word_val w) 0), (Z.eqb_spec (b * p + word_val w) 0);
    cbn; try done; nia.
Qed.

Lemma EvmAbiValue_induction (P : EvmAbiValue → Prop) :
  (∀ data, P (Word data)) → (∀ data, P (Bytes data)) →
  (∀ vs, Forall P vs → P (Array vs)) → (∀ vs, Forall P vs → P (Tuple vs)) → ∀ v, P v.
Proof.
  intros Hw Hb Ha Ht. fix IH 1. intros [data|data|vs|vs]; [done|done|apply Ha|apply Ht];
    (induction vs as [|v vs IHvs]; constructor; [apply IH|apply IHvs]).
Qed.

(** The data of a value are bytes. *)
Fixpoint value_bytes (v : EvmAbiValue) : Prop :=
  match v with
  | Word data | Bytes data => Forall is_byte data
  | Array vs | Tuple vs => foldr (λ v P, value_bytes v ∧ P) True vs
  end.

Lemma values_bytes vs : foldr (λ v P, value_bytes v ∧ P) True vs ↔ Forall value_bytes vs.
Proof. induction vs as [|v vs IH]; cbn; rewrite ?Forall_nil, ?Forall_cons; naive_solver. Qed.

Lemma uint256_word_bytes n : Forall is_byte (uint256_word n).
Proof.
  apply Forall_app. split; [apply Forall_replicate; unfold is_byte; lia|].
  apply Forall_map, Forall_forall. intros i _. unfold is_byte.
  change 255 with (Z.ones 8). rewrite Z.land_ones by lia. by apply Z.mod_pos_bound.
Qed.

Lemma zero_bytes n : Forall is_byte (replicate n 0).
Proof. apply Forall_replicate. unfold is_byte. lia. Qed.

Lemma sequence_bytes encoded :
  Forall (λ p, Forall is_byte p.2) encoded → Forall is_byte (append_sequence encoded).
Proof.
  intros H. apply Forall_app. split.
  - generalize (head_size encoded) as offset. induction H as [|[d bytes] rest Hb _ IH]; intros offset.
    { constructor. }
    cbn [sequence_heads]. destruct d; apply Forall_app; split; auto using uint256_word_bytes.
  - induction H as [|[d bytes] rest Hb _ IH]; [constructor|]. rewrite sequence_tails_cons.
    apply Forall_app. split; [by destruct d|done].
Qed.

Lemma members_bytes vs :
  Forall (λ v, value_bytes v → Forall is_byte (append_encoding v)) vs → Forall value_bytes vs →
  Forall (λ v, Forall is_byte (append_encoding v)) vs.
Proof. rewrite !Forall_forall. auto. Qed.

Lemma encoding_bytes v : value_bytes v → Forall is_byte (append_encoding v).
Proof.
  induction v as [data|data|vs IH|vs IH] using EvmAbiValue_induction; cbn [value_bytes append_encoding].
  - done.
  - intros Hd. apply Forall_app. split; [apply uint256_word_bytes|]. unfold append_padded.
    case_bool_decide; [done|]. apply Forall_app. split; [done|apply zero_bytes].
  - intros Hv%values_bytes. apply Forall_app. split; [apply uint256_word_bytes|].
    apply sequence_bytes, Forall_map, (members_bytes _ IH Hv).
  - intros Hv%values_bytes. apply sequence_bytes, Forall_map, (members_bytes _ IH Hv).
Qed.

Lemma abi_encode_bytes vs : Forall value_bytes vs → Forall is_byte (evm_abi_encode vs).
Proof.
  intros H. apply sequence_bytes, Forall_map. eapply Forall_impl; [exact H|].
  cbn. intros v. apply encoding_bytes.
Qed.

Section Calldata.
Context `{K : Keccak}.

Lemma selector_bytes sig : Forall is_byte (selector sig) ∧ length (selector sig) = 4%nat.
Proof using Type.
  split; [apply Forall_take, keccak256_bytes|]. unfold selector. rewrite length_take, keccak256_length. done.
Qed.

Lemma encode_call_hex sig vs :
  evm_abi_encode_call sig vs = to_hex (selector sig ++ evm_abi_encode vs).
Proof using Type.
  unfold evm_abi_encode_call, evm_function_selector, to_hex. rewrite chars_str.
  cbn [drop]. by rewrite <- str_app, hex_chars_app.
Qed.

(** The calldata of a call is its selector and the encoding of its arguments. *)
Lemma calldata_call to bytes sig vs :
  from_hex to = Ok bytes → Forall value_bytes vs →
  calldata (call_of to (evm_abi_encode_call sig vs)) = Some (bytes, selector sig, evm_abi_encode vs).
Proof using Type.
  intros Hto Hvs. unfold calldata, call_of. cbn [call_to call_data]. rewrite Hto, encode_call_hex.
  destruct (selector_bytes sig) as [Hs Hl].
  rewrite from_hex_to_hex by (apply Forall_app; split; [done|by apply abi_encode_bytes]).
  by rewrite take_app_length', drop_app_length' by done.
Qed.
End Calldata.

Lemma two_word_values a b :
  Forall is_byte a → Forall is_byte b → Forall value_bytes [Word a; Word b].
Proof. intros Ha Hb. apply Forall_cons. split; [done|]. apply Forall_cons. by split. Qed.

(** Two static words read back. *)
Lemma decode_two_words a b :
  length a = 32%nat → length b = 32%nat →
  abi_decode [TWord; TWord] (evm_abi_encode [Word a; Word b]) = Some [Word a; Word b].
Proof.
  intros Ha Hb. rewrite <- (app_nil_r (evm_abi_encode _)). apply read_members.
  - do 2 (constructor; [by apply read_type_reads|]). constructor.
  - rewrite append_sequence_length. cbn. rewrite Ha, Hb. done.
Qed.

(** ** Arguments *)

(** A text that names an address, and the address. *)
Definition names_address (text : string) (bytes : list Z) : Prop :=
  from_hex text = Ok bytes ∧ Forall is_byte bytes ∧ length bytes = 20%nat.

Definition address_word (bytes : list Z) : list Z := replicate 12 0 ++ bytes.

Lemma hex_text_bytes text bytes : from_hex text = Ok bytes → Forall is_byte bytes.
Proof.
  unfold from_hex, from_hex_chars. intros (? & He%require_Ok & H)%bind_Ok. by eapply hex_pairs_Ok.
Qed.

Lemma address_named text bytes :
  names_address text bytes → address text = Ok (Word (address_word bytes)).
Proof.
  intros (Hf & Hb & Hl). unfold address, parse_hex_bytes. rewrite Hf. cbn [rethrow_invalid mbind res_bind].
  rewrite bool_decide_true by done. cbn [require mbind res_bind]. unfold word_from_bytes. by rewrite Hl.
Qed.

Lemma address_word_wf bytes :
  Forall is_byte bytes → length bytes = 20%nat →
  Forall is_byte (address_word bytes) ∧ length (address_word bytes) = 32%nat ∧
  word_address (address_word bytes) = bytes.
Proof.
  intros Hb Hl. unfold address_word. split_and!.
  - apply Forall_app. split; [apply zero_bytes|done].
  - by rewrite length_app, Hl.
  - by apply drop_app_length'.
Qed.

(** A text that denotes an unsigned 256-bit integer. *)
Definition denotes (text : string) (n : Z) : Prop :=
  ∃ w, parse_uint256_word text = Ok w ∧ word_val w = n.

Lemma denotes_word text n :
  denotes text n →
  0 ≤ n < 2 ^ 256 ∧ parse_uint256_word text = Ok (word_of n) ∧ uint256 text = Ok (Word (word_of n)).
Proof.
  intros (w & Hw & <-). destruct (parse_uint256_word_wf _ _ Hw) as [Hb Hl].
  pose proof (word_val_bounds w Hb) as B. rewrite Hl in B. rewrite word_of_val by done.
  split; [done|]. split; [done|]. unfold uint256, unsigned_integer. rewrite Hw. done.
Qed.

Lemma denotes_amount text n label :
  denotes text n → parse_uint256_amount text label = Ok (word_of n).
Proof. intros (_ & H & _)%denotes_word. unfold parse_uint256_amount. by rewrite H. Qed.

Lemma amount_denotes text label w :
  parse_uint256_amount text label = Ok w → denotes text (word_val w).
Proof. unfold parse_uint256_amount. intros H. exists w. destruct (parse_uint256_word text) as [|[]]; naive_solver. Qed.

Lemma denotes_inj text n m : denotes text n → denotes text m → n = m.
Proof. intros (w & Hw & <-) (w' & Hw' & <-). congruence. Qed.

Lemma denotes_decimal n : 0 ≤ n < 2 ^ 256 → denotes (to_string n) n.
Proof.
  intros Hn. unfold denotes, to_string. rewrite parse_decimal.
  - rewrite decimal_val_chars by lia. destruct (Z.ltb_spec n (2 ^ 256)); [|lia].
    eexists. split; [done|]. by apply word_val_of.
  - unfold decimal_chars. intros E%(f_equal length). rewrite length_map in E.
    pose proof (digits_nonempty 10 ltac:(lia) n ltac:(lia)). by destruct (digits 10 n).
  - apply decimal_chars_decimal. lia.
Qed.

Lemma words_ltb n m :
  0 ≤ n < 2 ^ 256 → 0 ≤ m < 2 ^ 256 → word_ltb (word_of n) (word_of m) = (n <? m).
Proof.
  intros Hn Hm. rewrite word_ltb_val by (by rewrite ?word_of_length || apply word_of_bytes).
  by rewrite !word_val_of.
Qed.

Lemma zero_word n : 0 ≤ n < 2 ^ 256 → is_zero_word (word_of n) = (n =? 0).
Proof. intros Hn. rewrite is_zero_word_val, word_val_of by (done || apply word_of_bytes). done. Qed.

(** ** Mergeable amounts *)

(** What is merged: no more than either balance, all of the smaller one for
    ["max"], never nothing. *)
Definition mergeable (yes no : Z) (requested : string) (amount : Z) : Prop :=
  0 < amount ≤ Z.min yes no ∧
  if decide (requested = "max") then amount = Z.min yes no else denotes requested amount.

Lemma resolve_merge_amount_spec id b0 b1 yes no requested :
  denotes b0 yes → denotes b1 no →
  (∀ text, resolve_merge_amount id (b0, b1) requested = Ok text →
     ∃ amount, denotes text amount ∧ mergeable yes no requested amount) ∧
  (∀ amount, mergeable yes no requested amount →
     ∃ text, resolve_merge_amount id (b0, b1) requested = Ok text ∧ denotes text amount).
Proof.
  intros H0 H1. unfold resolve_merge_amount, mergeable. cbn [fst snd].
  rewrite (denotes_amount _ _ _ H0), (denotes_amount _ _ _ H1). cbn [mbind res_bind].
  destruct (denotes_word _ _ H0) as (By & _ & _), (denotes_word _ _ H1) as (Bn & _ & _).
  rewrite words_ltb by done.
  assert (denotes (if yes <? no then b0 else b1) (Z.min yes no)) as Hmax.
  { destruct (Z.ltb_spec yes no); [by rewrite Z.min_l by lia|by rewrite Z.min_r by lia]. }
  set (text := if yes <? no then b0 else b1) in *.
  unfold uint256_is_zero. rewrite !(denotes_amount _ _ _ Hmax). cbn [fmap res_fmap mbind res_bind].
  rewrite zero_word by lia.
  destruct (Z.eqb_spec (Z.min yes no) 0) as [Hz|Hz]; cbn [negb require mbind res_bind].
  { split; [done|]. intros ? [? _]. lia. }
  destruct (decide (requested = "max")) as [Hreq|Hreq].
  - rewrite bool_decide_true by done. split.
    + intros ? [= <-]. exists (Z.min yes no). split; [done|]. lia.
    + intros ? [_ ->]. by exists text.
  - rewrite bool_decide_false by done. unfold require_positive_amount.
    destruct (parse_uint256_amount requested "merge amount") as [w|e] eqn:Ew; cbn [mbind res_bind].
    2:{ split; [done|]. intros a [_ Ha]. by rewrite (denotes_amount _ _ _ Ha) in Ew. }
    pose proof (amount_denotes _ _ _ Ew) as Hw. destruct (denotes_word _ _ Hw) as (Bw & _ & _).
    assert (w = word_of (word_val w)) as Ew2.
    { apply Ok_inj. by rewrite <- Ew, (denotes_amount _ _ _ Hw). }
    rewrite Ew2. set (a := word_val w) in *. rewrite zero_word, words_ltb by lia.
    destruct (Z.eqb_spec a 0) as [Ha|Ha]; [|destruct (Z.ltb_spec (Z.min yes no) a) as [Hgt|Hle]];
      cbn [negb require mbind res_bind].
    1, 2: split; [done|]; intros b [Hb Hd]; pose proof (denotes_inj _ _ _ Hw Hd); lia.
    split.
    + intros t [= <-]. exists a. split; [done|]. split; [lia|done].
    + intros b [Hb Hd]. by exists requested.
Qed.
