(* ===== verification/PositionPages.v ===== *)
(** * Positions of a wallet and the deployments
    (src/clob_position_pages.cpp, clob_positions.cpp, environment.cpp)

    The rows of the Data API's legacy positions endpoint, their listing by offset
    and whose positions are listed; and the presets of [Environment] with their
    validation. *)
From Stdlib Require Import Ascii String Floats.SpecFloat.
From S2P Require Import Prelude Text Float64 Sdk EvmBytes Crypto EvmAbi OrderSigner OrderAuth RestParsing Query Pagination.
From S2P Require Import RestPaging ClobRows ClobClient ClobMarkets ClobAccount PositionCalls.

#[local] Open Scope Z_scope.

(** ** Positions *)

Record Position := MkPosition {
  pos_proxy_wallet : string; pos_asset : string; pos_condition_id : string; pos_size : double; pos_avg_price : double;
  pos_initial_value : double; pos_current_value : double; pos_cash_pnl : double; pos_percent_pnl : double;
  pos_total_bought : double; pos_realized_pnl : double; pos_percent_realized_pnl : double; pos_cur_price : double;
  pos_redeemable : bool; pos_mergeable : bool; pos_title : string; pos_slug : string; pos_icon : string;
  pos_event_slug : string; pos_outcome : string; pos_outcome_index : Z; pos_opposite_outcome : string;
  pos_opposite_asset : string; pos_end_date : string; pos_negative_risk : bool }.

Inductive PositionFilter := all_positions | redeemable | mergeable.

Definition PAGE_LIMIT : Z := 500.
Definition MAX_OFFSET : Z := 10000.

Section Rows.
Context `{JsonLibrary, JsonRuntime}.

Definition position_string (item : json) (field : string) : res string :=
  json_at item field ≫= text_or (invalid_argument (field +:+ " must be a string")).

Definition required_number (item : json) (field : string) : res double :=
  value ← json_at item field;
  number ← match value with
           | JInteger z => Ok (of_Z binary64 z)
           | JNumber x => Ok x
           | _ => Throw (invalid_argument (field +:+ " must be a number"))
           end;
  require (is_finite number) (invalid_argument (field +:+ " must be finite"));;
  Ok number.

Definition required_bool (item : json) (field : string) : res bool :=
  value ← json_at item field;
  match value with JBool b => Ok b | _ => Throw (invalid_argument (field +:+ " must be a boolean")) end.

Definition required_int (item : json) (field : string) : res Z :=
  value ← json_at item field;
  match value with
  | JInteger z =>
      if (- 2 ^ 31 <=? z) && (z <? 2 ^ 31) then Ok z else Throw (out_of_range (field +:+ " is out of range"))
  | _ => Throw (invalid_argument (field +:+ " must be an integer"))
  end.

Definition parse_position (item : json) : res Position :=
  require (is_object item) (invalid_argument "position must be an object");;
  proxy_wallet ← position_string item "proxyWallet";
  asset ← position_string item "asset";
  condition_id ← position_string item "conditionId";
  size ← required_number item "size";
  avg_price ← required_number item "avgPrice";
  initial_value ← required_number item "initialValue";
  current_value ← required_number item "currentValue";
  cash_pnl ← required_number item "cashPnl";
  percent_pnl ← required_number item "percentPnl";
  total_bought ← required_number item "totalBought";
  realized_pnl ← required_number item "realizedPnl";
  percent_realized_pnl ← required_number item "percentRealizedPnl";
  cur_price ← required_number item "curPrice";
  redeemable ← required_bool item "redeemable";
  mergeable ← required_bool item "mergeable";
  title ← position_string item "title";
  slug ← position_string item "slug";
  icon ← position_string item "icon";
  event_slug ← position_string item "eventSlug";
  outcome ← position_string item "outcome";
  outcome_index ← required_int item "outcomeIndex";
  opposite_outcome ← position_string item "oppositeOutcome";
  opposite_asset ← position_string item "oppositeAsset";
  end_date ← position_string item "endDate";
  negative_risk ← required_bool item "negativeRisk";
  Ok (MkPosition proxy_wallet asset condition_id size avg_price initial_value current_value cash_pnl percent_pnl
        total_bought realized_pnl percent_realized_pnl cur_price redeemable mergeable title slug icon event_slug outcome
        outcome_index opposite_outcome opposite_asset end_date negative_risk).

Definition parse_position_page (text : string) : res (list Position) :=
  parsed ← parse_json text;
  let bad := invalid_argument "positions response must be an array of at most 500 items" in
  match parsed with
  | JArray items => require (Z.of_nat (length items) <=? PAGE_LIMIT) bad;; mapM parse_position items
  | _ => Throw bad
  end.
End Rows.

Definition filter_query (filter : PositionFilter) : string :=
  match filter with redeemable => "&redeemable=true" | mergeable => "&mergeable=true" | all_positions => "" end.

(** The wallet asked for, else the funder, else the signer. *)
Definition position_address (c : ClobClient) (requested : string) : string :=
  if negb (bool_decide (requested = "")) then requested
  else if negb (bool_decide (funder_address c = "")) then funder_address c
  else match order_signer c with Some s => address_ s | None => "" end.

Section Listing.
Context `{JsonLibrary, JsonRuntime, DateReader, Server}.

Definition position_prefix (address : string) (filter : PositionFilter) : string :=
  "/positions?user=" +:+ percent_encode_query_value address +:+ filter_query filter +:+ "&limit=500&offset=".

Definition position_paginator (address : string) (filter : PositionFilter) (start_offset : Z) : Pager Position :=
  let listed := offset_pages "/positions" PAGE_LIMIT MAX_OFFSET start_offset in
  if bool_decide (address = "") then
    refused listed (invalid_argument_error "positions require a user address" "/positions")
  else
    sent_by listed "/positions" (λ r, position_prefix address filter +:+ to_string (r_offset r))
      (list_page parse_position_page).

(** Any failure is an empty list; 22 pages is more than are below the last offset. *)
Definition fetch_position_pages (address : string) (filter : PositionFilter) : list Position :=
  if bool_decide (address = "") then []
  else
    match pages (position_paginator address filter 0) with
    | Ok p =>
        match @collect _ (page_answer (position_paginator address filter 0)) 23 SIZE_MAX p with
        | Some (_, result) => items_or_none result
        | None => []
        end
    | Throw _ => []
    end.

Definition positions_pager (c : ClobClient) (user_address : string) : Z → Pager Position :=
  position_paginator (position_address c user_address) all_positions.
Definition redeemable_positions_pager (c : ClobClient) (user_address : string) : Z → Pager Position :=
  position_paginator (position_address c user_address) redeemable.
Definition mergeable_positions_pager (c : ClobClient) (user_address : string) : Z → Pager Position :=
  position_paginator (position_address c user_address) mergeable.

Definition get_positions (c : ClobClient) (user_address : string) : list Position :=
  fetch_position_pages (position_address c user_address) all_positions.
Definition get_redeemable_positions (c : ClobClient) (user_address : string) : list Position :=
  fetch_position_pages (position_address c user_address) redeemable.
Definition get_mergeable_positions (c : ClobClient) (user_address : string) : list Position :=
  fetch_position_pages (position_address c user_address) mergeable.

(** The listing returns within its fuel. *)
Lemma positions_collected address filter :
  ∃ p q r, pages (position_paginator address filter 0) = Ok p ∧
    @collect _ (page_answer (position_paginator address filter 0)) 23 SIZE_MAX p = Some (q, r).
Proof.
  assert (Hp : pages (position_paginator address filter 0) = offset_pages "/positions" PAGE_LIMIT MAX_OFFSET 0)
    by (unfold position_paginator; by case_match).
  rewrite Hp. destruct (offset_pages _ _ _ _) as [p|] eqn:Ep; [|done]. exists p.
  assert (Hm : made p) by (right; right; right; eexists _, _, _, _; split_and!; [| | |exact Ep]; by vm_compute).
  destruct (@collect_returns _ (page_answer (position_paginator address filter 0)) p SIZE_MAX Hm) as (q & r & Hrun).
  exists q, r. split; [done|]. apply Hrun. injection Ep as <-. by vm_compute; lia.
Qed.
End Listing.

Section Facts.
Context `{JsonLibrary, JsonRuntime}.

Lemma required_number_finite item field x : required_number item field = Ok x → is_finite x = true.
Proof. unfold required_number. intros. by res_inv. Qed.

(** Sizes, values and prices of a position are finite. *)
Lemma parse_position_finite item p :
  parse_position item = Ok p →
  Forall (λ x, is_finite x = true)
    [pos_size p; pos_avg_price p; pos_initial_value p; pos_current_value p; pos_cash_pnl p; pos_percent_pnl p;
     pos_total_bought p; pos_realized_pnl p; pos_percent_realized_pnl p; pos_cur_price p] ∧
  - 2 ^ 31 ≤ pos_outcome_index p < 2 ^ 31.
Proof.
  unfold parse_position. intros Hp. apply bind_Ok in Hp as (_ & _ & Hp). do 3 (apply bind_Ok in Hp as (? & _ & Hp)).
  do 10 (apply bind_Ok in Hp as (? & ?%required_number_finite & Hp)). do 7 (apply bind_Ok in Hp as (? & _ & Hp)).
  apply bind_Ok in Hp as (i & Hi & Hp). do 4 (apply bind_Ok in Hp as (? & _ & Hp)). injection Hp as <-. cbn.
  split; [by repeat constructor|]. unfold required_int in Hi. apply bind_Ok in Hi as (v & _ & Hi).
  destruct v as [| |z| | | |]; try done. destruct (_ && _) eqn:E; [|done]. injection Hi as <-. bools. lia.
Qed.
End Facts.

(** ** Deployments *)

Record Environment := MkEnvironment {
  env_name : string; env_rpc_url : string; env_contracts : PolymarketContracts; env_clob_url : string;
  env_clob_market_ws_url : string; env_clob_user_ws_url : string; env_gamma_url : string; env_data_url : string;
  env_relayer_url : string; env_rtds_ws_url : string; env_sports_ws_url : string }.

Definition production : Environment := {|
  env_name := "production";
  env_rpc_url := "https://polygon.drpc.org";
  env_contracts := polygon_mainnet;
  env_clob_url := "https://clob.polymarket.com";
  env_clob_market_ws_url := "wss://ws-subscriptions-clob.polymarket.com/ws/market";
  env_clob_user_ws_url := "wss://ws-subscriptions-clob.polymarket.com/ws/user";
  env_gamma_url := "https://gamma-api.polymarket.com";
  env_data_url := "https://data-api.polymarket.com";
  env_relayer_url := "https://relayer-v2.polymarket.com";
  env_rtds_ws_url := "wss://ws-live-data.polymarket.com";
  env_sports_ws_url := "wss://sports-api.polymarket.com/ws" |}.

Definition preproduction : Environment := {|
  env_name := "preproduction";
  env_rpc_url := env_rpc_url production;
  env_contracts := env_contracts production;
  env_clob_url := "https://clob-preprod-int-v2.polymarket.com";
  env_clob_market_ws_url := env_clob_market_ws_url production;
  env_clob_user_ws_url := env_clob_user_ws_url production;
  env_gamma_url := "https://gamma-api-preprod-int.polymarket.com";
  env_data_url := "https://data-api-preprod-int.polymarket.com";
  env_relayer_url := "https://relayer-v2-preprod-int.polymarket.com";
  env_rtds_ws_url := env_rtds_ws_url production;
  env_sports_ws_url := env_sports_ws_url production |}.

Definition double_quote : string := str ["034"%char].

Definition from_name (name : string) : res Environment :=
  if bool_decide (name = "production") then Ok production
  else if bool_decide (name = "preproduction") then Ok preproduction
  else Throw (invalid_argument ("unknown Polymarket environment " +:+ double_quote +:+ name +:+ double_quote +:+
                                "; expected production or preproduction")).

Definition has_scheme_and_host (url scheme : string) : bool :=
  (String.length scheme <? String.length url)%nat && String.prefix scheme url.

Definition require_url (secure plain field url : string) : res unit :=
  require (has_scheme_and_host url secure || has_scheme_and_host url plain)
    (invalid_argument ("Environment." +:+ field +:+ " must be a " +:+ secure +:+ " or " +:+ plain +:+ " URL")).

Fixpoint require_urls (secure plain : string) (urls : list (string * string)) : res unit :=
  match urls with
  | [] => Ok tt
  | (field, url) :: urls => require_url secure plain field url;; require_urls secure plain urls
  end.

Definition validate_environment (env : Environment) : res unit :=
  require (negb (bool_decide (env_name env = ""))) (invalid_argument "Environment.name must be non-empty");;
  require_urls "https://" "http://"
    [("rpc_url", env_rpc_url env); ("clob_url", env_clob_url env); ("gamma_url", env_gamma_url env);
     ("data_url", env_data_url env); ("relayer_url", env_relayer_url env)];;
  require_urls "wss://" "ws://"
    [("clob_market_ws_url", env_clob_market_ws_url env); ("clob_user_ws_url", env_clob_user_ws_url env);
     ("rtds_ws_url", env_rtds_ws_url env); ("sports_ws_url", env_sports_ws_url env)];;
  validate (env_contracts env).

(** The environment of a client on the legacy constructor's chain. *)
Definition legacy_environment (base_url : string) (chain_id : Z) : res Environment :=
  require (chain_id =? 137)
    (invalid_argument ("unsupported CLOB chain ID " +:+ signed_text chain_id +:+ "; use an Environment for other chains"));;
  Ok (MkEnvironment (env_name production) (env_rpc_url production) (env_contracts production) base_url
        (env_clob_market_ws_url production) (env_clob_user_ws_url production) (env_gamma_url production)
        (env_data_url production) (env_relayer_url production) (env_rtds_ws_url production)
        (env_sports_ws_url production)).

Definition validated_environment (env : Environment) : res Environment :=
  validate_environment env;;
  require (contracts_chain_id (env_contracts env) <=? 2 ^ 31 - 1)
    (invalid_argument "Environment.contracts.chain_id exceeds the CLOB signer range");;
  Ok env.

(** The presets are valid. *)
Lemma presets_valid name env : from_name name = Ok env → validated_environment env = Ok env.
Proof.
  unfold from_name. case_bool_decide; [|case_bool_decide; [|done]]; intros [= <-]; by vm_compute.
Qed.

(** The constructors of a client on an environment: [None] is a client without a key. *)
Definition client_of `{Keccak, RecoverableSigner} (env : Environment) (private_key : option string)
    (creds : option ApiCredentials) (signature_type : Z) (funder : string) : res ClobClient :=
  env ← validated_environment env;
  new_client (standard_exchange (env_contracts env)) (neg_risk_exchange (env_contracts env))
    (contracts_chain_id (env_contracts env)) private_key creds signature_type funder.
