(* ===== verification/JsonFields.v ===== *)
(** * Fields of response objects (src/json_fields.cpp, json_fields.hpp)

    The strict readers of one field of a JSON object: what an absent or null
    field reads as, and the error that names a field of another type.  Integers
    of the JSON library are those of its 64-bit types. *)
From Stdlib Require Import Ascii String Floats.SpecFloat.
From S2P Require Import Prelude Text Float64 EvmAbi Sdk RestParsing PositionCalls Query.

#[local] Open Scope Z_scope.

Section Fields.
Context `{JsonLibrary, JsonRuntime}.

Definition find_field (object : json) (key : string) : res (option json) :=
  require (is_object object) (invalid_argument "response value must be an object");;
  Ok match json_field object key with
     | None | Some JNull => None
     | Some value => Some value
     end.

Definition throw_bad_field {A} (key expected : string) : res A :=
  Throw (invalid_argument ("field " +:+ key +:+ " must be " +:+ expected)).

Definition field_string (object : json) (key : string) : res string :=
  value ← find_field object key;
  match value with
  | None => Ok ""
  | Some (JString text) => Ok text
  | Some _ => throw_bad_field key "a string"
  end.

Definition field_required_string (object : json) (key : string) : res string :=
  value ← find_field object key;
  match value with
  | Some (JString text) => Ok text
  | _ => throw_bad_field key "a string"
  end.

Definition field_id (object : json) (key : string) : res string :=
  value ← find_field object key;
  match value with
  | None => Ok ""
  | Some (JString text) => Ok text
  | Some (JInteger z) => Ok (signed_text z)
  | Some _ => throw_bad_field key "a string or integer ID"
  end.

Definition field_required_id (object : json) (key : string) : res string :=
  id ← field_id object key;
  if bool_decide (id = "") then throw_bad_field key "a non-empty ID" else Ok id.

(** "0x" or "0X" and at least one hexadecimal digit. *)
Definition is_hex_text (text : string) : bool :=
  match chars text with
  | "0"%char :: x :: digits =>
      (bool_decide (x = "x"%char) || bool_decide (x = "X"%char)) && negb (bool_decide (digits = [])) &&
      forallb is_xdigit digits
  | _ => false
  end.

Definition field_hex (object : json) (key : string) : res string :=
  text ← field_string object key;
  if bool_decide (text = "") then Ok text
  else if is_hex_text text then Ok text else throw_bad_field key "a 0x-prefixed hex string".

Definition field_decimal_text (object : json) (key : string) : res string :=
  value ← find_field object key;
  let bad := throw_bad_field key "a decimal number" in
  match value with
  | None => Ok ""
  | Some (JInteger _ as number) | Some (JNumber _ as number) => Ok (json_dump number)
  | Some (JString text) => if bool_decide (text = "") || is_decimal_number text then Ok text else bad
  | Some _ => bad
  end.

Definition field_number (object : json) (key : string) : res (option double) :=
  value ← find_field object key;
  match value with
  | None => Ok None
  | Some (JString "") => Ok None
  | Some (JBool _) => throw_bad_field key "a number"
  | Some value => Some <$> strict_json_number value
  end.

Definition int64_max : Z := 9223372036854775807.

Definition field_integer (object : json) (key : string) : res (option Z) :=
  value ← find_field object key;
  match value with
  | None => Ok None
  | Some (JInteger z) => if int64_max <? z then throw_bad_field key "a 64-bit integer" else Ok (Some z)
  | Some _ => throw_bad_field key "an integer"
  end.

Definition field_bool (object : json) (key : string) : res (option bool) :=
  value ← find_field object key;
  match value with
  | None => Ok None
  | Some (JBool b) => Ok (Some b)
  | Some _ => throw_bad_field key "a boolean"
  end.

Definition field_sequence (object : json) (key : string) : res (list json) :=
  value ← find_field object key;
  match value with
  | None => Ok []
  | Some value =>
      list ← match value with JString text => parse_json text | _ => Ok value end;
      match list with
      | JArray items => Ok items
      | _ => throw_bad_field key "an array or a JSON-encoded array"
      end
  end.

Definition field_string_list (object : json) (key : string) : res (list string) :=
  items ← field_sequence object key;
  all_strings (invalid_argument ("field " +:+ key +:+ " must be " +:+ "a list of strings")) items.

Definition field_objects (object : json) (key : string) : res (list json) :=
  items ← field_sequence object key;
  if forallb is_object items then Ok items else throw_bad_field key "a list of objects".

(** ** Lemmas *)

(** A required field is there, and a text. *)
Lemma field_required_string_Ok object key text :
  field_required_string object key = Ok text → json_field object key = Some (JString text).
Proof.
  unfold field_required_string, find_field. destruct (is_object object); [|done]. cbn.
  destruct (json_field object key) as [[]|]; cbn; try done. by intros [= ->].
Qed.

Lemma strict_json_number_finite value x : strict_json_number value = Ok x → is_finite x = true.
Proof. unfold strict_json_number. intros. by res_inv. Qed.

Lemma field_number_finite object key x : field_number object key = Ok (Some x) → is_finite x = true.
Proof.
  unfold field_number. intros Hx. apply bind_Ok in Hx as (v & _ & Hx).
  destruct v as [[| | |y|[]| |]|]; try discriminate Hx;
    apply fmap_Ok in Hx as (y' & Hy & [= <-]); by eapply strict_json_number_finite.
Qed.
End Fields.
