(* ===== verification/GammaRows.v ===== *)
(** * Rows of the Gamma API
    (src/gamma_market_parsing.cpp, gamma_parsing.cpp, gamma_catalog_parsing.cpp,
    gamma_social_parsing.cpp)

    Markets, events, tags, series, sports, teams, comments, profiles and search
    results, read field by field with [JsonFields]; each keeps the object it was
    read from.  Only markets of two outcomes are kept. *)
From Stdlib Require Import Ascii String Floats.SpecFloat.
From S2P Require Import Prelude Text Float64 EvmAbi Sdk RestParsing Pagination PositionCalls Query JsonFields ClobRows.

#[local] Open Scope Z_scope.

(** ** Rows *)

Record GammaTagReference := MkTagReference {
  tr_id : string; tr_slug : string; tr_label : string; tr_force_show : option bool;
  tr_force_hide : option bool; tr_is_carousel : option bool; tr_requires_translation : option bool;
  tr_created_by : option Z; tr_updated_by : option Z; tr_active_events_count : option Z;
  tr_published_at : string; tr_created_at : string; tr_updated_at : string; tr_raw : json }.

Record GammaReference := MkReference {
  ref_id : string; ref_slug : string; ref_title : string }.

Record GammaOutcome := MkOutcome {
  go_label : string; go_token_id : string; go_position_id : string; go_price : option double }.

Record GammaMarketState := MkMarketState {
  gs_active : option bool; gs_closed : option bool; gs_archived : option bool;
  gs_accepting_orders : option bool; gs_enable_order_book : option bool; gs_neg_risk : option bool;
  gs_combo_status : string; gs_start_date : string; gs_end_date : string; gs_closed_time : string }.

Record GammaMarketMetrics := MkMarketMetrics {
  gm_volume : option double; gm_volume_num : option double; gm_volume_24hr : option double;
  gm_volume_1wk : option double; gm_volume_1mo : option double; gm_volume_1yr : option double;
  gm_volume_amm : option double; gm_volume_clob : option double; gm_liquidity : option double;
  gm_liquidity_num : option double; gm_liquidity_clob : option double }.

Record GammaMarketPrices := MkMarketPrices {
  gp_best_bid : option double; gp_best_ask : option double; gp_last_trade_price : option double;
  gp_spread : option double; gp_one_hour_price_change : option double;
  gp_one_day_price_change : option double; gp_one_week_price_change : option double;
  gp_one_month_price_change : option double; gp_one_year_price_change : option double }.

Record GammaMarketTrading := MkMarketTrading {
  gt_minimum_order_size : string; gt_minimum_tick_size : string; gt_seconds_delay : option Z;
  gt_fees_enabled : option bool; gt_fee_type : string }.

Record GammaMarketResolution := MkMarketResolution {
  gr_question_id : string; gr_neg_risk_request_id : string; gr_uma_resolution_status : string;
  gr_source : string; gr_resolved_by : string }.

Record GammaMarketRewards := MkMarketRewards {
  gw_rewards_min_size : option double; gw_rewards_max_spread : option double;
  gw_holding_rewards_enabled : option bool }.

Record GammaMarketSports := MkMarketSports {
  gx_sports_market_type : string; gx_line : option double; gx_game_id : string;
  gx_game_start_time : string }.

Record GammaEventState := MkEventState {
  es_active : option bool; es_closed : option bool; es_archived : option bool; es_is_new : option bool;
  es_featured : option bool; es_restricted : option bool; es_cyom : option bool; es_live : option bool;
  es_ended : option bool; es_comments_enabled : option bool }.

Record GammaEventSchedule := MkEventSchedule {
  eh_start_date : string; eh_creation_date : string; eh_end_date : string; eh_closed_time : string;
  eh_start_time : string; eh_event_date : string }.

Record GammaEventMetrics := MkEventMetrics {
  em_liquidity : option double; em_liquidity_clob : option double; em_volume : option double;
  em_volume_24hr : option double; em_volume_1wk : option double; em_volume_1mo : option double;
  em_volume_1yr : option double; em_open_interest : option double; em_competitive : option double;
  em_comment_count : option Z }.

Record GammaEventTrading := MkEventTrading {
  et_enable_order_book : option bool; et_neg_risk : option bool; et_neg_risk_market_id : string;
  et_enable_neg_risk : option bool; et_neg_risk_augmented : option bool;
  et_cumulative_markets : option bool }.

Record GammaMarket := MkGammaMarket {
  mk_id : string; mk_version : string; mk_slug : string; mk_condition_id : string; mk_question : string;
  mk_group_item_title : string; mk_description : string; mk_category : string; mk_image : string;
  mk_icon : string; mk_state : GammaMarketState; mk_yes : GammaOutcome; mk_no : GammaOutcome;
  mk_metrics : GammaMarketMetrics; mk_prices : GammaMarketPrices; mk_trading : GammaMarketTrading;
  mk_resolution : GammaMarketResolution; mk_rewards : GammaMarketRewards; mk_sports : GammaMarketSports;
  mk_events : list GammaReference; mk_tags : list GammaTagReference; mk_raw : json }.

Record GammaEvent := MkGammaEvent {
  ev_id : string; ev_parent_event_id : string; ev_ticker : string; ev_slug : string; ev_title : string;
  ev_subtitle : string; ev_description : string; ev_category : string; ev_subcategory : string;
  ev_image : string; ev_icon : string; ev_resolution_source : string; ev_state : GammaEventState;
  ev_schedule : GammaEventSchedule; ev_metrics : GammaEventMetrics; ev_trading : GammaEventTrading;
  ev_markets : list GammaMarket; ev_series : list GammaReference; ev_tags : list GammaTagReference;
  ev_raw : json }.

Record GammaRelatedTag := MkRelatedTag {
  rt_id : string; rt_tag_id : option Z; rt_related_tag_id : option Z; rt_rank : option Z; rt_raw : json }.

Record GammaSport := MkSport {
  sp_id : string; sp_sport : string; sp_name : string; sp_image : string; sp_resolution : string;
  sp_ordering : string; sp_tags : string; sp_series : string; sp_created_at : string; sp_updated_at : string;
  sp_raw : json }.

Record GammaTeam := MkTeam {
  tm_id : string; tm_name : string; tm_league : string; tm_record : string; tm_logo : string;
  tm_abbreviation : string; tm_alias : string; tm_color : string; tm_ordering : string;
  tm_provider_id : option Z; tm_created_at : string; tm_updated_at : string; tm_raw : json }.

Record GammaSeries := MkSeries {
  se_id : string; se_ticker : string; se_slug : string; se_title : string; se_subtitle : string;
  se_series_type : string; se_recurrence : string; se_description : string; se_image : string;
  se_icon : string; se_layout : string; se_active : option bool; se_closed : option bool;
  se_archived : option bool; se_is_new : option bool; se_featured : option bool; se_restricted : option bool;
  se_comments_enabled : option bool; se_competitive : string; se_volume : option double;
  se_liquidity : option double; se_comment_count : option Z; se_start_date : string; se_published_at : string;
  se_created_at : string; se_updated_at : string; se_events : list GammaEvent;
  se_tags : list GammaTagReference; se_raw : json }.

Record GammaCommentPosition := MkCommentPosition { cp_token_id : string; cp_position_size : option Z }.

Record GammaCommentProfile := MkCommentProfile {
  cf_name : string; cf_pseudonym : string; cf_bio : string; cf_wallet : string; cf_base_address : string;
  cf_profile_image : string; cf_display_username_public : option bool; cf_is_mod : option bool;
  cf_is_creator : option bool; cf_positions : list GammaCommentPosition }.

Record GammaReaction := MkReaction {
  re_id : string; re_comment_id : option Z; re_reaction_type : string; re_icon : string; re_user_address : string;
  re_created_at : string; re_profile : option GammaCommentProfile }.

Record GammaComment := MkComment {
  co_id : string; co_body : string; co_parent_entity_type : string; co_parent_entity_id : string;
  co_parent_comment_id : string; co_user_address : string; co_reply_address : string; co_created_at : string;
  co_updated_at : string; co_profile : option GammaCommentProfile; co_reactions : list GammaReaction;
  co_report_count : option Z; co_reaction_count : option Z; co_trade_asset : string; co_raw : json }.

Record GammaPublicProfileUser := MkProfileUser {
  pu_id : string; pu_community_mod : option bool; pu_creator : option bool; pu_mod : option bool }.

Record GammaPublicProfile := MkPublicProfile {
  gpp_wallet : string; gpp_name : string; gpp_pseudonym : string; gpp_bio : string; gpp_profile_image : string;
  gpp_x_username : string; gpp_display_username_public : option bool; gpp_verified_badge : option bool;
  gpp_created_at : string; gpp_users : list GammaPublicProfileUser; gpp_raw : json }.

Record GammaSearchProfile := MkSearchProfile {
  gsp_id : string; gsp_wallet : string; gsp_name : string; gsp_pseudonym : string; gsp_bio : string;
  gsp_profile_image : string; gsp_x_username : string; gsp_display_username_public : option bool;
  gsp_verified_badge : option bool; gsp_created_at : string; gsp_raw : json }.

Record GammaSearchTag := MkSearchTag {
  gst_id : string; gst_label : string; gst_slug : string; gst_event_count : option Z }.

Record GammaSearchResults := MkSearchResults {
  sr_events : list GammaEvent; sr_tags : list GammaSearchTag; sr_profiles : list GammaSearchProfile;
  sr_total_results : option Z }.

Section Parsing.
Context `{JsonLibrary, JsonRuntime}.

(** ** Markets and events *)

Definition parse_gamma_tag_reference (item : json) : res GammaTagReference :=
  id ← field_required_id item "id";
  slug ← field_string item "slug";
  label ← field_string item "label";
  force_show ← field_bool item "forceShow";
  force_hide ← field_bool item "forceHide";
  is_carousel ← field_bool item "isCarousel";
  requires_translation ← field_bool item "requiresTranslation";
  created_by ← field_integer item "createdBy";
  updated_by ← field_integer item "updatedBy";
  active_events_count ← field_integer item "activeEventsCount";
  published_at ← field_string item "publishedAt";
  created_at ← field_string item "createdAt";
  updated_at ← field_string item "updatedAt";
  Ok (MkTagReference id slug label force_show force_hide is_carousel requires_translation created_by updated_by
        active_events_count published_at created_at updated_at item).

Definition gamma_reference (item : json) : res GammaReference :=
  id ← field_required_id item "id";
  slug ← field_string item "slug";
  title ← field_string item "title";
  Ok (MkReference id slug title).

(** The outcome of an index: a price that is there must be a number. *)
Definition outcome (label : string) (token_ids position_ids : list string) (prices : list json) (index : nat) :
    res GammaOutcome :=
  price ← match prices !! index with
          | None => Ok None
          | Some value =>
              price ← field_number (JObject [("price", value)]) "price";
              match price with
              | Some x => Ok (Some x)
              | None => Throw (invalid_argument "Gamma outcome price must be a number")
              end
          end;
  Ok (MkOutcome label (default "" (token_ids !! index)) (default "" (position_ids !! index)) price).

Definition market_state (item : json) : res GammaMarketState :=
  active ← field_bool item "active";
  closed ← field_bool item "closed";
  archived ← field_bool item "archived";
  accepting_orders ← field_bool item "acceptingOrders";
  enable_order_book ← field_bool item "enableOrderBook";
  neg_risk ← field_bool item "negRisk";
  combo_status ← field_string item "comboStatus";
  start_date ← field_string item "startDate";
  end_date ← field_string item "endDate";
  closed_time ← field_string item "closedTime";
  Ok (MkMarketState active closed archived accepting_orders enable_order_book neg_risk combo_status start_date
        end_date closed_time).

Definition market_metrics (item : json) : res GammaMarketMetrics :=
  volume ← field_number item "volume";
  volume_num ← field_number item "volumeNum";
  volume_24hr ← field_number item "volume24hr";
  volume_1wk ← field_number item "volume1wk";
  volume_1mo ← field_number item "volume1mo";
  volume_1yr ← field_number item "volume1yr";
  volume_amm ← field_number item "volumeAmm";
  volume_clob ← field_number item "volumeClob";
  liquidity ← field_number item "liquidity";
  liquidity_num ← field_number item "liquidityNum";
  liquidity_clob ← field_number item "liquidityClob";
  Ok (MkMarketMetrics volume volume_num volume_24hr volume_1wk volume_1mo volume_1yr volume_amm volume_clob liquidity
        liquidity_num liquidity_clob).

Definition market_prices (item : json) : res GammaMarketPrices :=
  best_bid ← field_number item "bestBid";
  best_ask ← field_number item "bestAsk";
  last_trade_price ← field_number item "lastTradePrice";
  spread ← field_number item "spread";
  one_hour_price_change ← field_number item "oneHourPriceChange";
  one_day_price_change ← field_number item "oneDayPriceChange";
  one_week_price_change ← field_number item "oneWeekPriceChange";
  one_month_price_change ← field_number item "oneMonthPriceChange";
  one_year_price_change ← field_number item "oneYearPriceChange";
  Ok (MkMarketPrices best_bid best_ask last_trade_price spread one_hour_price_change one_day_price_change
        one_week_price_change one_month_price_change one_year_price_change).

Definition market_trading (item : json) : res GammaMarketTrading :=
  minimum_order_size ← field_decimal_text item "orderMinSize";
  minimum_tick_size ← field_decimal_text item "orderPriceMinTickSize";
  seconds_delay ← field_integer item "secondsDelay";
  fees_enabled ← field_bool item "feesEnabled";
  fee_type ← field_string item "feeType";
  Ok (MkMarketTrading minimum_order_size minimum_tick_size seconds_delay fees_enabled fee_type).

Definition market_resolution (item : json) : res GammaMarketResolution :=
  question_id ← field_string item "questionID";
  neg_risk_request_id ← field_string item "negRiskRequestID";
  uma_resolution_status ← field_string item "umaResolutionStatus";
  source ← field_string item "resolutionSource";
  resolved_by ← field_string item "resolvedBy";
  Ok (MkMarketResolution question_id neg_risk_request_id uma_resolution_status source resolved_by).

Definition market_rewards (item : json) : res GammaMarketRewards :=
  rewards_min_size ← field_number item "rewardsMinSize";
  rewards_max_spread ← field_number item "rewardsMaxSpread";
  holding_rewards_enabled ← field_bool item "holdingRewardsEnabled";
  Ok (MkMarketRewards rewards_min_size rewards_max_spread holding_rewards_enabled).

Definition market_sports (item : json) : res GammaMarketSports :=
  sports_market_type ← field_string item "sportsMarketType";
  line ← field_number item "line";
  game_id ← field_id item "gameId";
  game_start_time ← field_string item "gameStartTime";
  Ok (MkMarketSports sports_market_type line game_id game_start_time).

Definition event_state (item : json) : res GammaEventState :=
  active ← field_bool item "active";
  closed ← field_bool item "closed";
  archived ← field_bool item "archived";
  is_new ← field_bool item "new";
  featured ← field_bool item "featured";
  restricted ← field_bool item "restricted";
  cyom ← field_bool item "cyom";
  live ← field_bool item "live";
  ended ← field_bool item "ended";
  comments_enabled ← field_bool item "commentsEnabled";
  Ok (MkEventState active closed archived is_new featured restricted cyom live ended comments_enabled).

Definition event_schedule (item : json) : res GammaEventSchedule :=
  start_date ← field_string item "startDate";
  creation_date ← field_string item "creationDate";
  end_date ← field_string item "endDate";
  closed_time ← field_string item "closedTime";
  start_time ← field_string item "startTime";
  event_date ← field_string item "eventDate";
  Ok (MkEventSchedule start_date creation_date end_date closed_time start_time event_date).

Definition event_metrics (item : json) : res GammaEventMetrics :=
  liquidity ← field_number item "liquidity";
  liquidity_clob ← field_number item "liquidityClob";
  volume ← field_number item "volume";
  volume_24hr ← field_number item "volume24hr";
  volume_1wk ← field_number item "volume1wk";
  volume_1mo ← field_number item "volume1mo";
  volume_1yr ← field_number item "volume1yr";
  open_interest ← field_number item "openInterest";
  competitive ← field_number item "competitive";
  comment_count ← field_integer item "commentCount";
  Ok (MkEventMetrics liquidity liquidity_clob volume volume_24hr volume_1wk volume_1mo volume_1yr open_interest
        competitive comment_count).

Definition event_trading (item : json) : res GammaEventTrading :=
  enable_order_book ← field_bool item "enableOrderBook";
  neg_risk ← field_bool item "negRisk";
  neg_risk_market_id ← field_string item "negRiskMarketID";
  enable_neg_risk ← field_bool item "enableNegRisk";
  neg_risk_augmented ← field_bool item "negRiskAugmented";
  cumulative_markets ← field_bool item "cumulativeMarkets";
  Ok (MkEventTrading enable_order_book neg_risk neg_risk_market_id enable_neg_risk neg_risk_augmented
        cumulative_markets).

Definition parse_gamma_binary_market (item : json) : res (option GammaMarket) :=
  labels ← field_string_list item "outcomes";
  match labels with
  | [yes_label; no_label] =>
      prices ← field_sequence item "outcomePrices";
      token_ids ← field_string_list item "clobTokenIds";
      position_ids ← field_string_list item "positionIds";
      id ← field_required_id item "id";
      version ← field_string item "version";
      slug ← field_string item "slug";
      condition_id ← field_hex item "conditionId";
      question ← field_string item "question";
      group_item_title ← field_string item "groupItemTitle";
      description ← field_string item "description";
      category ← field_string item "category";
      image ← field_string item "image";
      icon ← field_string item "icon";
      state ← market_state item;
      yes ← outcome yes_label token_ids position_ids prices 0;
      no ← outcome no_label token_ids position_ids prices 1;
      metrics ← market_metrics item;
      prices_out ← market_prices item;
      trading ← market_trading item;
      resolution ← market_resolution item;
      rewards ← market_rewards item;
      sports ← market_sports item;
      events ← field_objects item "events" ≫= mapM gamma_reference;
      tags ← field_objects item "tags" ≫= mapM parse_gamma_tag_reference;
      Ok (Some (MkGammaMarket id version slug condition_id question group_item_title description category image icon
                  state yes no metrics prices_out trading resolution rewards sports events tags item))
  | _ => Ok None
  end.

(** The markets of an event that have two outcomes. *)
Definition binary_markets (item : json) : res (list GammaMarket) :=
  items ← field_objects item "markets";
  markets ← mapM parse_gamma_binary_market items;
  Ok (omap id markets).

Definition parse_gamma_event (item : json) : res GammaEvent :=
  id ← field_required_id item "id";
  parent_event_id ← field_id item "parentEventId";
  ticker ← field_string item "ticker";
  slug ← field_string item "slug";
  title ← field_string item "title";
  subtitle ← field_string item "subtitle";
  description ← field_string item "description";
  category ← field_string item "category";
  subcategory ← field_string item "subcategory";
  image ← field_string item "image";
  icon ← field_string item "icon";
  resolution_source ← field_string item "resolutionSource";
  state ← event_state item;
  schedule ← event_schedule item;
  metrics ← event_metrics item;
  trading ← event_trading item;
  markets ← binary_markets item;
  series ← field_objects item "series" ≫= mapM gamma_reference;
  tags ← field_objects item "tags" ≫= mapM parse_gamma_tag_reference;
  Ok (MkGammaEvent id parent_event_id ticker slug title subtitle description category subcategory image icon
        resolution_source state schedule metrics trading markets series tags item).

(** ** Tags, series, sports and teams *)

Definition parse_related_tag (item : json) : res GammaRelatedTag :=
  id ← field_required_id item "id";
  tag_id ← field_integer item "tagID";
  related_tag_id ← field_integer item "relatedTagID";
  rank ← field_integer item "rank";
  Ok (MkRelatedTag id tag_id related_tag_id rank item).

Definition parse_sport (item : json) : res GammaSport :=
  id ← field_required_id item "id";
  sport ← field_required_string item "sport";
  name ← field_string item "name";
  image ← field_required_string item "image";
  resolution ← field_required_string item "resolution";
  ordering ← field_required_string item "ordering";
  tags ← field_required_string item "tags";
  series ← field_required_string item "series";
  created_at ← field_string item "createdAt";
  updated_at ← field_string item "updatedAt";
  Ok (MkSport id sport name image resolution ordering tags series created_at updated_at item).

Definition parse_team (item : json) : res GammaTeam :=
  id ← field_required_id item "id";
  name ← field_string item "name";
  league ← field_string item "league";
  record ← field_string item "record";
  logo ← field_string item "logo";
  abbreviation ← field_string item "abbreviation";
  alias ← field_string item "alias";
  color ← field_string item "color";
  ordering ← field_string item "ordering";
  require (bool_decide (ordering = "") || bool_decide (ordering = "home") || bool_decide (ordering = "away"))
    (invalid_argument "Gamma field ordering must be home or away");;
  provider_id ← field_integer item "providerId";
  created_at ← field_string item "createdAt";
  updated_at ← field_string item "updatedAt";
  Ok (MkTeam id name league record logo abbreviation alias color ordering provider_id created_at updated_at
        item).

Definition parse_gamma_series (item : json) : res GammaSeries :=
  id ← field_required_id item "id";
  ticker ← field_string item "ticker";
  slug ← field_string item "slug";
  title ← field_string item "title";
  subtitle ← field_string item "subtitle";
  series_type ← field_string item "seriesType";
  recurrence ← field_string item "recurrence";
  description ← field_string item "description";
  image ← field_string item "image";
  icon ← field_string item "icon";
  layout ← field_string item "layout";
  active ← field_bool item "active";
  closed ← field_bool item "closed";
  archived ← field_bool item "archived";
  is_new ← field_bool item "new";
  featured ← field_bool item "featured";
  restricted ← field_bool item "restricted";
  comments_enabled ← field_bool item "commentsEnabled";
  competitive ← field_string item "competitive";
  volume ← field_number item "volume";
  liquidity ← field_number item "liquidity";
  comment_count ← field_integer item "commentCount";
  start_date ← field_string item "startDate";
  published_at ← field_string item "publishedAt";
  created_at ← field_string item "createdAt";
  updated_at ← field_string item "updatedAt";
  events ← field_objects item "events" ≫= mapM parse_gamma_event;
  tags ← field_objects item "tags" ≫= mapM parse_gamma_tag_reference;
  Ok (MkSeries id ticker slug title subtitle series_type recurrence description image icon layout active
        closed archived is_new featured restricted comments_enabled competitive volume liquidity
        comment_count start_date published_at created_at updated_at events tags item).

(** ** Comments and profiles *)

Definition profile_wallet (item : json) : res string :=
  match json_field item "wallet" with Some _ => field_string item "wallet" | None => field_string item "proxyWallet" end.

(** At most 18 digits, so that [std::stoll] does not overflow. *)
Definition integer_or_text (item : json) (key : string) : res (option Z) :=
  value ← find_field item key;
  match value with
  | Some (JString text) =>
      let cs := chars text in
      let negative := match cs with c :: _ => bool_decide (c = "-"%char) | [] => false end in
      let digits := if negative then tail cs else cs in
      if bool_decide (digits = []) || (18 <? length digits)%nat || negb (all_decimal digits)
      then throw_bad_field key "an integer"
      else Ok (Some (if negative then - decimal_val digits else decimal_val digits))
  | _ => field_integer item key
  end.

Definition comment_position (position : json) : res GammaCommentPosition :=
  size ← integer_or_text position "positionSize";
  token ← field_id position "tokenId";
  Ok (MkCommentPosition token size).

Definition comment_profile (item : json) (key : string) : res (option GammaCommentProfile) :=
  match json_field item key with
  | None | Some JNull => Ok None
  | Some value =>
      name ← field_string value "name";
      pseudonym ← field_string value "pseudonym";
      bio ← field_string value "bio";
      wallet ← profile_wallet value;
      base_address ← field_string value "baseAddress";
      profile_image ← field_string value "profileImage";
      display ← field_bool value "displayUsernamePublic";
      is_mod ← field_bool value "isMod";
      is_creator ← field_bool value "isCreator";
      positions ← field_objects value "positions" ≫= mapM comment_position;
      Ok (Some (MkCommentProfile name pseudonym bio wallet base_address profile_image display is_mod is_creator positions))
  end.

Definition search_profile (item : json) : res GammaSearchProfile :=
  id ← field_id item "id";
  wallet ← profile_wallet item;
  name ← field_string item "name";
  pseudonym ← field_string item "pseudonym";
  bio ← field_string item "bio";
  profile_image ← field_string item "profileImage";
  x_username ← field_string item "xUsername";
  display ← field_bool item "displayUsernamePublic";
  verified ← field_bool item "verifiedBadge";
  created_at ← field_string item "createdAt";
  Ok (MkSearchProfile id wallet name pseudonym bio profile_image x_username display verified created_at item).

Definition optional_array (object : json) (key : string) : res (list json) :=
  match json_field object key with
  | None | Some JNull => Ok []
  | Some (JArray items) => Ok items
  | Some _ => Throw (invalid_argument ("Gamma field " +:+ key +:+ " must be an array or null"))
  end.

Definition parse_gamma_reaction (item : json) : res GammaReaction :=
  id ← field_required_id item "id";
  comment_id ← field_integer item "commentID";
  type ← field_string item "reactionType";
  icon ← field_string item "icon";
  user_address ← field_string item "userAddress";
  created_at ← field_string item "createdAt";
  profile ← comment_profile item "profile";
  Ok (MkReaction id comment_id type icon user_address created_at profile).

Definition parse_gamma_comment (item : json) : res GammaComment :=
  id ← field_required_id item "id";
  body ← field_string item "body";
  entity_type ← field_string item "parentEntityType";
  entity_id ← field_id item "parentEntityID";
  comment_id ← field_id item "parentCommentID";
  user_address ← field_string item "userAddress";
  reply_address ← field_string item "replyAddress";
  created_at ← field_string item "createdAt";
  updated_at ← field_string item "updatedAt";
  profile ← comment_profile item "profile";
  reactions ← field_objects item "reactions" ≫= mapM parse_gamma_reaction;
  report_count ← field_integer item "reportCount";
  reaction_count ← field_integer item "reactionCount";
  trade_asset ← field_string item "tradeAsset";
  Ok (MkComment id body entity_type entity_id comment_id user_address reply_address created_at updated_at profile
        reactions report_count reaction_count trade_asset item).

Definition profile_user (user : json) : res GammaPublicProfileUser :=
  id ← field_required_id user "id";
  community_mod ← field_bool user "communityMod";
  creator ← field_bool user "creator";
  mod_ ← field_bool user "mod";
  Ok (MkProfileUser id community_mod creator mod_).

Definition search_tag (tag : json) : res GammaSearchTag :=
  id ← field_required_id tag "id";
  label ← field_string tag "label";
  slug ← field_string tag "slug";
  count ← field_integer tag "event_count";
  Ok (MkSearchTag id label slug count).

(** ** Responses *)

(** [parse_array] and its copies. *)
Definition parse_rows {T} (what : string) (parse : json → res T) (body : string) : res (list T) :=
  parsed ← parse_json body;
  match parsed with
  | JArray items => mapM parse items
  | _ => Throw (invalid_argument ("Gamma " +:+ what +:+ " response must be an array"))
  end.

Definition parse_gamma_tag_references : string → res (list GammaTagReference) := parse_rows "tags" parse_gamma_tag_reference.
Definition parse_gamma_related_tags : string → res (list GammaRelatedTag) := parse_rows "related tags" parse_related_tag.
Definition parse_gamma_series_list : string → res (list GammaSeries) := parse_rows "series" parse_gamma_series.
Definition parse_gamma_sports : string → res (list GammaSport) := parse_rows "sports" parse_sport.
Definition parse_gamma_teams : string → res (list GammaTeam) := parse_rows "teams" parse_team.
Definition parse_gamma_comments : string → res (list GammaComment) := parse_rows "comments" parse_gamma_comment.

Definition parse_gamma_tag_response (body : string) : res GammaTagReference := parse_json body ≫= parse_gamma_tag_reference.
Definition parse_gamma_series_response (body : string) : res GammaSeries := parse_json body ≫= parse_gamma_series.
Definition parse_gamma_event_response (body : string) : res GammaEvent := parse_json body ≫= parse_gamma_event.

Definition parse_gamma_sports_market_types (body : string) : res (list string) :=
  parsed ← parse_json body; field_string_list parsed "marketTypes".

Definition parse_gamma_market_response (body : string) : res GammaMarket :=
  market ← parse_json body ≫= parse_gamma_binary_market;
  match market with
  | Some market => Ok market
  | None => Throw (invalid_argument "Gamma market must have exactly two outcomes")
  end.

Definition parse_gamma_public_profile (body : string) : res GammaPublicProfile :=
  item ← parse_json body;
  wallet ← profile_wallet item;
  name ← field_string item "name";
  pseudonym ← field_string item "pseudonym";
  bio ← field_string item "bio";
  profile_image ← field_string item "profileImage";
  x_username ← field_string item "xUsername";
  display ← field_bool item "displayUsernamePublic";
  verified ← field_bool item "verifiedBadge";
  created_at ← field_string item "createdAt";
  users ← field_objects item "users" ≫= mapM profile_user;
  Ok (MkPublicProfile wallet name pseudonym bio profile_image x_username display verified created_at users item).

(** ** Pages *)

(** The rows an item parser keeps, and the cursor of the next page if there is one. *)
Definition parse_keyset_page {T} (items_key : string) (parse_item : json → res (option T)) (body : string) : res (Page T) :=
  parsed ← parse_json body;
  require (is_object parsed) (invalid_argument "Gamma keyset page must be an object");;
  match json_field parsed items_key with
  | Some (JArray items) =>
      rows ← mapM parse_item items;
      cursor ← find_field parsed "next_cursor";
      match cursor with
      | None => Ok (MkPage (omap id rows) "" None false)
      | Some (JString text) =>
          if bool_decide (text = "") then throw_bad_field "next_cursor" "a non-empty string when present"
          else Ok (MkPage (omap id rows) text None false)
      | Some _ => throw_bad_field "next_cursor" "a non-empty string when present"
      end
  | _ => throw_bad_field items_key "an array"
  end.

Definition parse_gamma_market_keyset_page : string → res (Page GammaMarket) :=
  parse_keyset_page "markets" parse_gamma_binary_market.
Definition parse_gamma_event_keyset_page : string → res (Page GammaEvent) :=
  parse_keyset_page "events" (λ item, Some <$> parse_gamma_event item).
Definition parse_gamma_comment_keyset_page : string → res (Page GammaComment) :=
  parse_keyset_page "comments" (λ item, Some <$> parse_gamma_comment item).

(** The server counts only top-level comments against the limit of a page. *)
Definition is_root (comment : GammaComment) : bool := bool_decide (co_parent_comment_id comment = "").

Definition parse_gamma_comment_root_page (body : string) : res (Page GammaComment) :=
  comments ← parse_gamma_comments body;
  Ok (MkPage comments "" (Some (length (filter is_root comments))) false).

Definition parse_gamma_search_page (body : string) : res (Page GammaSearchResults) :=
  parsed ← parse_json body;
  require (is_object parsed) (invalid_argument "Gamma search response must be an object");;
  events ← optional_array parsed "events" ≫= mapM parse_gamma_event;
  tags ← optional_array parsed "tags" ≫= mapM search_tag;
  profiles ← optional_array parsed "profiles" ≫= mapM search_profile;
  match json_field parsed "pagination" with
  | None | Some JNull => Ok (MkPage [MkSearchResults events tags profiles None] "" None false)
  | Some pagination =>
      more ← field_bool pagination "hasMore";
      total ← field_integer pagination "totalResults";
      Ok (MkPage [MkSearchResults events tags profiles total] "" None (default false more))
  end.
End Parsing.
