(* ===== verification/GammaClient.v ===== *)
(** * The Gamma API client
    (src/gamma_client.cpp, gamma_catalog_client.cpp, gamma_social_client.cpp)

    The lookups and listings of [GammaClient]: the paths and queries of
    [GammaQueries], the paging of [RestPaging] and the rows of [GammaRows], put
    together as the client does.  The server answers after the paths requested so
    far. *)
From Stdlib Require Import Ascii String Floats.SpecFloat.
From S2P Require Import Prelude Text Float64 EvmAbi Sdk RestParsing Pagination Query RestPaging GammaQueries ClobRows JsonFields GammaRows.

#[local] Open Scope Z_scope.

Section Client.
Context `{JsonLibrary, DateReader, Server, JsonRuntime}.

(** A lookup: the paths requested after it, and its result. *)
Definition looked_up (T : Type) : Type := list string → res (list string * Result T).

(** ** Lookups *)

Definition get_market_by_id (id : string) (options : GammaMarketLookupOptions) : looked_up GammaMarket :=
  fetch_result (market_by_id_path id options) parse_gamma_market_response.
Definition get_market_by_slug (slug : string) (options : GammaMarketLookupOptions) : looked_up GammaMarket :=
  fetch_result (market_by_slug_path slug options) parse_gamma_market_response.
Definition get_market_by_url (url : string) (options : GammaMarketLookupOptions) : looked_up GammaMarket :=
  fetch_result (market_by_url_path url options) parse_gamma_market_response.
Definition get_market_tags (market_id : string) : looked_up (list GammaTagReference) :=
  fetch_result (market_tags_path market_id) parse_gamma_tag_references.

Definition get_event_by_id (id : string) (options : GammaEventLookupOptions) : looked_up GammaEvent :=
  fetch_result (event_by_id_path id options) parse_gamma_event_response.
Definition get_event_by_slug (slug : string) (options : GammaEventLookupOptions) : looked_up GammaEvent :=
  fetch_result (event_by_slug_path slug options) parse_gamma_event_response.
Definition get_event_by_url (url : string) (options : GammaEventLookupOptions) : looked_up GammaEvent :=
  fetch_result (event_by_url_path url options) parse_gamma_event_response.
Definition get_event_tags (event_id : string) : looked_up (list GammaTagReference) :=
  fetch_result (event_tags_path event_id) parse_gamma_tag_references.

Definition get_tag_by_id (id : string) (options : GammaTagLookupOptions) : looked_up GammaTagReference :=
  fetch_result (tag_by_id_path id options) parse_gamma_tag_response.
Definition get_tag_by_slug (slug : string) (options : GammaTagLookupOptions) : looked_up GammaTagReference :=
  fetch_result (tag_by_slug_path slug options) parse_gamma_tag_response.
Definition get_related_tags_by_id (id : string) (options : GammaRelatedTagOptions) : looked_up (list GammaRelatedTag) :=
  fetch_result (related_tags_by_id_path id options) parse_gamma_related_tags.
Definition get_related_tags_by_slug (slug : string) (options : GammaRelatedTagOptions) : looked_up (list GammaRelatedTag) :=
  fetch_result (related_tags_by_slug_path slug options) parse_gamma_related_tags.
Definition get_related_tag_resources_by_id (id : string) (options : GammaRelatedTagResourceOptions) :
    looked_up (list GammaTagReference) :=
  fetch_result (related_tag_resources_by_id_path id options) parse_gamma_tag_references.
Definition get_related_tag_resources_by_slug (slug : string) (options : GammaRelatedTagResourceOptions) :
    looked_up (list GammaTagReference) :=
  fetch_result (related_tag_resources_by_slug_path slug options) parse_gamma_tag_references.

Definition get_series (id locale : string) : looked_up GammaSeries :=
  fetch_result (series_path id locale) parse_gamma_series_response.
Definition get_sports : looked_up (list GammaSport) := fetch_result (Ok "/sports") parse_gamma_sports.
Definition get_sports_market_types : looked_up (list string) :=
  fetch_result (Ok "/sports/market-types") parse_gamma_sports_market_types.

Definition get_comment_thread (id : string) (get_positions : option bool) : looked_up (list GammaComment) :=
  fetch_result (comment_thread_path id get_positions) parse_gamma_comments.

(** A wallet without a profile is no error. *)
Definition get_public_profile (address : string) : looked_up (option GammaPublicProfile) := λ sent,
  '(sent, result) ← fetch_result (public_profile_path address) parse_gamma_public_profile sent;
  Ok (sent, match result with
            | success profile => success (Some profile)
            | failure e =>
                if bool_decide (error_code e = ApiResponse) && (http_status e =? 404) then success None else failure e
            end).

(** ** Listings *)

Definition markets_pager (filter : GammaMarketFilter) (page_size : Z) (resume : PageRequest) : res (Pager GammaMarket) :=
  gamma_keyset_pager "/markets/keyset" page_size resume (gamma_market_list_query filter) parse_gamma_market_keyset_page.

Definition events_pager (filter : GammaEventFilter) (page_size : Z) (resume : PageRequest) : res (Pager GammaEvent) :=
  gamma_keyset_pager "/events/keyset" page_size resume (gamma_event_list_query filter) parse_gamma_event_keyset_page.

(** [std::numeric_limits<std::size_t>::max()]. *)
Definition unlimited_offset : Z := 2 ^ 64 - 1.

Definition tags_pager (filter : GammaTagFilter) (page_size : Z) (resume : PageRequest) : res (Pager GammaTagReference) :=
  gamma_offset_pager "/tags" page_size 100 unlimited_offset resume (gamma_tag_list_query filter)
    (list_page parse_gamma_tag_references).
Definition series_pager (filter : GammaSeriesFilter) (page_size : Z) (resume : PageRequest) : res (Pager GammaSeries) :=
  gamma_offset_pager "/series" page_size 50 unlimited_offset resume (gamma_series_list_query filter)
    (list_page parse_gamma_series_list).
Definition teams_pager (filter : GammaTeamFilter) (page_size : Z) (resume : PageRequest) : res (Pager GammaTeam) :=
  gamma_offset_pager "/teams" page_size 100 unlimited_offset resume (gamma_team_list_query filter)
    (list_page parse_gamma_teams).

Definition search_path (base : string) (request : PageRequest) : string :=
  "/public-search" +:+ base +:+ "&page=" +:+ to_string (r_page request) +:+ "&limit_per_type=" +:+
  to_string (r_limit request).

Definition search_pager (query : string) (options : GammaSearchOptions) (page_size : Z) (resume : PageRequest) :
    res (Pager GammaSearchResults) :=
  '(base, invalid) ← caught_query "/public-search"
    (require (negb (page_size =? 0)) (invalid_argument "page_size must be positive");; search_query query options);
  Ok match invalid with
     | Some error => refused (numbered_pages "/public-search" 1 resume) error
     | None =>
         sent_by (numbered_pages "/public-search" page_size resume) "/public-search" (search_path base)
           parse_gamma_search_page
     end.

Definition comments_max_page_size : Z := 100.
Definition comments_max_offset : Z := 200.

Definition comments_pager (parent_entity_id parent_entity_type : string) (filter : GammaCommentFilter) (page_size : Z)
    (resume : PageRequest) : res (Pager GammaComment) :=
  if negb (comments_by_cursor filter) then
    gamma_offset_pager "/comments" page_size comments_max_page_size comments_max_offset resume
      (comments_offset_query parent_entity_id parent_entity_type filter) parse_gamma_comment_root_page
  else
    '(query, invalid) ← caught_query "/comments/keyset"
      (comments_keyset_query parent_entity_id parent_entity_type filter page_size);
    Ok (keyset_pager "/comments/keyset" query page_size resume invalid "after_cursor" parse_gamma_comment_keyset_page).

Definition user_comments_pager (address : string) (filter : GammaUserCommentFilter) (page_size : Z) (resume : PageRequest) :
    res (Pager GammaComment) :=
  gamma_offset_pager ("/comments/user_address/" +:+ percent_encode_query_value address) page_size comments_max_page_size
    comments_max_offset resume (user_comments_query address filter) (list_page parse_gamma_comments).
End Client.

(** ** Lemmas *)

Section Facts.
Context `{JsonLibrary, JsonRuntime}.

(** A market that is read has two outcomes, under the labels of the row. *)
Lemma binary_market_outcomes item m :
  parse_gamma_binary_market item = Ok (Some m) →
  field_string_list item "outcomes" = Ok [go_label (mk_yes m); go_label (mk_no m)] ∧ mk_raw m = item.
Proof.
  unfold parse_gamma_binary_market. intros Hm. apply bind_Ok in Hm as (labels & Hl & Hm).
  destruct labels as [|yes [|no [|]]]; try done. do 14 (apply bind_Ok in Hm as (? & _ & Hm)).
  assert (Hlabel : ∀ label ids ps prices i o, outcome label ids ps prices i = Ok o → go_label o = label).
  { intros label ids ps prices i o Ho. unfold outcome in Ho. by apply bind_Ok in Ho as (? & _ & [= <-]). }
  apply bind_Ok in Hm as (y & Hy%Hlabel & Hm). apply bind_Ok in Hm as (n & Hn%Hlabel & Hm).
  do 8 (apply bind_Ok in Hm as (? & _ & Hm)). injection Hm as <-. cbn. by rewrite Hl, Hy, Hn.
Qed.

(** A keyset page keeps, in order, the rows its items are read as. *)
Lemma keyset_page_rows {T} key (parse : json → res (option T)) body page :
  parse_keyset_page key parse body = Ok page →
  ∃ parsed items rows, json_parse body = Some parsed ∧ json_field parsed key = Some (JArray items) ∧
    Forall2 (λ item row, parse item = Ok row) items rows ∧ page_items page = omap id rows ∧
    match json_field parsed "next_cursor" with
    | None | Some JNull => next_cursor page = ""
    | Some value => value = JString (next_cursor page) ∧ next_cursor page ≠ ""
    end.
Proof.
  unfold parse_keyset_page, parse_json. intros Hp. destruct (json_parse body) as [parsed|]; [|done]. cbn [mbind res_bind] in Hp.
  destruct (is_object parsed) eqn:Eo; [|done]. cbn [require mbind res_bind] in Hp.
  destruct (json_field parsed key) as [[| | | | |items|]|] eqn:Ek; try done.
  apply bind_Ok in Hp as (rows & Hr%mapM_Ok & Hp). unfold find_field in Hp. rewrite Eo in Hp. cbn [require mbind res_bind] in Hp.
  exists parsed, items, rows. do 3 (split; [done|]).
  destruct (json_field parsed "next_cursor") as [[| | | |text| |]|]; try discriminate Hp; try by injection Hp as <-.
  case_bool_decide; [done|]. by injection Hp as <-.
Qed.

(** A page of comments never counts more than it has. *)
Lemma comment_page_counted body page :
  parse_gamma_comment_root_page body = Ok page →
  ∃ n, counted page = Some n ∧ (n ≤ length (page_items page))%nat.
Proof.
  unfold parse_gamma_comment_root_page. intros (comments & _ & [= <-])%bind_Ok. eexists. split; [done|].
  apply length_filter.
Qed.
End Facts.
