(* ===== verification/RtdsEvents.v ===== *)
(** * Events of the public streams
    (src/stream_time.cpp, rtds_price_parsing.cpp, rtds_parsing.cpp, sports_parsing.cpp)

    The frames of the real-time data stream and of the sports stream: the
    timestamps, the price points with their exact decimals, the subscriptions a
    filter asks the server for, and which events a filter lets through.  The text
    a scaled integer becomes is proved to be that integer over 10^18. *)
From Stdlib Require Import Ascii String Floats.SpecFloat.
From S2P Require Import Prelude Text Float64 EvmAbi Sdk MarketTime RestParsing Query JsonFields ClobRows GammaRows.

#[local] Open Scope Z_scope.

(** ** Events and filters *)

Record RtdsPricePoint := MkRtdsPoint { rp_timestamp_ms : Z; rp_value : double; rp_exact_value : string }.

Definition no_point : RtdsPricePoint := MkRtdsPoint 0 fzero "".

Record RtdsPriceEvent := MkRtdsPrice {
  pe_topic : string; pe_type : string; pe_timestamp_ms : option Z; pe_symbol : string; pe_price : RtdsPricePoint;
  pe_window_seconds : option Z; pe_received_at : option Z; pe_is_carried_forward : option bool;
  pe_history : list RtdsPricePoint; pe_raw : json }.

Record RtdsCommentEvent := MkRtdsComment {
  ce_type : string; ce_timestamp_ms : option Z; ce_comment : option GammaComment; ce_reaction : option GammaReaction;
  ce_raw : json }.

Record RtdsParsedEvent := MkRtdsParsed {
  pa_topic : string; pa_type : string; pa_comment : option RtdsCommentEvent; pa_price : option RtdsPriceEvent }.

Record RtdsServerKey := MkServerKey { key_topic : string; key_type : string; key_filters : string }.

#[export] Instance server_key_eq_dec : EqDecision RtdsServerKey.
Proof. solve_decision. Defined.

#[export] Instance server_key_countable : Countable RtdsServerKey.
Proof.
  refine (inj_countable' (λ k, (key_topic k, key_type k, key_filters k)) (λ '(t, y, f), MkServerKey t y f) _).
  by intros [].
Defined.

Record RtdsCommentFilter := MkCommentFilter {
  cf_types : list string; cf_parent_entity_id : option Z; cf_parent_entity_type : string }.
Record RtdsCryptoPriceFilter := MkCryptoFilter { cr_source : string; cr_symbols : list string }.
Record RtdsCryptoTwapFilter := MkTwapFilter { tw_window_seconds : Z; tw_symbols : list string }.
Record RtdsEquityPriceFilter := MkEquityFilter { eq_symbol : string; eq_types : list string }.

Record RtdsPriceMatch := MkMatch {
  pm_topic : string; pm_symbols : list string; pm_window_seconds : option Z; pm_types : list string }.

Record SportsGameResult := MkSportsResult {
  sg_game_id : Z; sg_sportradar_game_id : string; sg_slug : string; sg_league_abbreviation : string;
  sg_home_team : string; sg_away_team : string; sg_status : string; sg_live : bool; sg_ended : bool; sg_score : string;
  sg_period : string; sg_elapsed : string; sg_turn : string; sg_finished_at_ms : option Z; sg_raw : json }.

Definition binance_topic : string := "prices.crypto.binance".
Definition chainlink_topic : string := "prices.crypto.chainlink".
Definition twap_topic : string := "prices.crypto.chainlink.twap".
Definition equity_topic : string := "prices.equity.pyth".
Definition comments_topic : string := "comments".

(** The first of each value, in order. *)
Fixpoint distinct (kept values : list string) : list string :=
  match values with
  | [] => kept
  | v :: values => distinct (if bool_decide (v ∈ kept) then kept else kept ++ [v]) values
  end.

Definition lowercase (text : string) : string := str (map tolower (chars text)).

(** ** Exact decimals *)

Definition is_minus (cs : list ascii) : bool := match cs with c :: _ => bool_decide (c = "-"%char) | [] => false end.
Definition without_minus (cs : list ascii) : list ascii := if is_minus cs then tail cs else cs.

Definition signed_integer (text : string) : bool := all_digits (without_minus (chars text)).

Fixpoint strip_zeros (cs : list ascii) : list ascii :=
  match cs with c :: cs' => if bool_decide (c = "0"%char) then strip_zeros cs' else cs | [] => [] end.

(** [digits.erase(0, std::min(digits.find_first_not_of('0'), digits.size() - 1))]. *)
Definition drop_leading_zeros (cs : list ascii) : list ascii :=
  match strip_zeros cs with [] => ["0"%char] | cs' => cs' end.

Definition scaled_e18 (text : list ascii) : list ascii :=
  let negative := is_minus text in
  let digits := drop_leading_zeros (without_minus text) in
  let digits := if (length digits <=? 18)%nat then replicate (19 - length digits) "0"%char ++ digits else digits in
  let whole := take (length digits - 18) digits in
  let fraction := rev (strip_zeros (rev (drop (length digits - 18) digits))) in
  let text := whole ++ (if bool_decide (fraction = []) then [] else "."%char :: fraction) in
  if negative && negb (bool_decide (text = ["0"%char])) then "-"%char :: text else text.

Definition scaled_e18_decimal (integer : string) : res string :=
  require (signed_integer integer) (invalid_argument "full_accuracy_value must be a signed integer string");;
  Ok (str (scaled_e18 (chars integer))).

Section Parsing.
Context `{JsonLibrary, JsonRuntime}.

(** ** Timestamps (stream_time.cpp) *)

Definition max_epoch_ms : Z := 253402300799999.

Definition checked_ms (key : string) (digits : list ascii) : res Z :=
  if (15 <? length digits)%nat || (max_epoch_ms <? decimal_val digits) then throw_bad_field key "Unix milliseconds"
  else Ok (decimal_val digits).

(** The offset in minutes at the end of the text, and the text in UTC. *)
Definition utc_of (key : string) (text : list ascii) : res (Z * list ascii) :=
  let size := length text in
  let at_ i := nth i text " "%char in
  let sign := at_ (size - 6)%nat in
  if (6 <? size)%nat && (bool_decide (sign = "+"%char) || bool_decide (sign = "-"%char)) &&
     bool_decide (at_ (size - 3)%nat = ":"%char)
  then
    let hours := take 2 (drop (size - 5) text) in
    let minutes := take 2 (drop (size - 2) text) in
    if negb (all_digits hours) || negb (all_digits minutes) then throw_bad_field key "an ISO 8601 time"
    else
      let offset := decimal_val hours * 60 + decimal_val minutes in
      Ok (if bool_decide (sign = "-"%char) then - offset else offset, take (size - 6) text ++ ["Z"%char])
  else if negb (bool_decide (last text = Some "Z"%char)) then Ok (0, text ++ ["Z"%char])
  else Ok (0, text).

Definition iso_ms (key : string) (text : list ascii) : res Z :=
  '(offset_minutes, utc) ← utc_of key text;
  let ms := parse_iso8601_ms (str utc) in
  if ms =? 0 then throw_bad_field key "an ISO 8601 time" else Ok (ms - offset_minutes * 60000).

Definition stream_epoch_ms_or_iso (object : json) (key : string) : res (option Z) :=
  value ← find_field object key;
  match value with
  | None => Ok None
  | Some (JString "") => Ok None
  | Some (JString text) =>
      let cs := chars text in
      Some <$> (if all_digits cs then checked_ms key cs else iso_ms key cs)
  | Some _ =>
      ms ← field_integer object key;
      match ms with
      | Some z => if (z <? 0) || (max_epoch_ms <? z) then throw_bad_field key "Unix milliseconds" else Ok (Some z)
      | None => throw_bad_field key "Unix milliseconds"
      end
  end.

(** ** Prices *)

Definition required_decimal (item : json) (key : string) : res string :=
  text ← field_decimal_text item key;
  if bool_decide (text = "") then throw_bad_field key "a decimal number" else Ok text.

Definition required_integer (item : json) (key : string) : res Z :=
  value ← field_integer item key;
  match value with Some z => Ok z | None => throw_bad_field key "an integer" end.

Definition point (timestamp_ms : Z) (exact : string) : res RtdsPricePoint :=
  value ← decimal_string_to_double exact;
  Ok (MkRtdsPoint timestamp_ms value exact).

Definition crypto_exact (payload : json) (chainlink : bool) : res string :=
  value ← required_decimal payload "value";
  full ← find_field payload "full_accuracy_value";
  match full with
  | Some (JString text) =>
      if chainlink then (if signed_integer text then scaled_e18_decimal text else Ok value)
      else Ok (if is_decimal_number text then text else value)
  | _ => Ok value
  end.

Definition payload_object (frame : json) : res json :=
  payload ← find_field frame "payload";
  match payload with
  | Some ((JObject _) as payload) => Ok payload
  | _ => throw_bad_field "payload" "an object"
  end.

Definition history_entry (entry : json) : res RtdsPricePoint :=
  timestamp ← required_integer entry "timestamp";
  value ← required_decimal entry "value";
  point timestamp value.

Definition parse_equity_event (frame payload : json) (type symbol : string) (timestamp_ms : option Z) : res RtdsPriceEvent :=
  let event price received carried history :=
    MkRtdsPrice equity_topic type timestamp_ms symbol price None received carried history frame in
  if bool_decide (type = "subscribe") then
    history ← field_objects payload "data" ≫= mapM history_entry;
    data ← find_field payload "data";
    match data with
    | None => throw_bad_field "data" "an array"
    | Some _ => Ok (event no_point None None history)
    end
  else if bool_decide (type = "update") then
    full ← find_field payload "full_accuracy_value";
    timestamp ← required_integer payload "timestamp";
    value ← required_decimal payload (match full with Some _ => "full_accuracy_value" | None => "value" end);
    price ← point timestamp value;
    received ← field_integer payload "received_at";
    carried ← field_bool payload "is_carried_forward";
    Ok (event price received carried [])
  else throw_bad_field "type" "update or subscribe".

Definition twap_window (wire_topic : string) : option Z :=
  if bool_decide (wire_topic = "crypto_prices_twap_thirty") then Some 30
  else if bool_decide (wire_topic = "crypto_prices_twap_sixty") then Some 60
  else None.

(** The window of a TWAP frame, checked. *)
Definition checked_window (payload : json) (wire_topic : string) (expected : Z) : res unit :=
  window ← field_integer payload "window_s";
  require (bool_decide (window = Some expected))
    (invalid_argument ("RTDS TWAP topic " +:+ wire_topic +:+ " requires window_s=" +:+ to_string expected)).

Definition full_accuracy (payload : json) : res string :=
  full ← find_field payload "full_accuracy_value";
  match full with
  | Some (JString text) => scaled_e18_decimal text
  | _ => throw_bad_field "full_accuracy_value" "a signed integer string"
  end.

Definition parse_rtds_price_event (frame : json) (wire_topic : string) : res RtdsPriceEvent :=
  type ← field_required_string frame "type";
  timestamp_ms ← stream_epoch_ms_or_iso frame "timestamp";
  payload ← payload_object frame;
  symbol ← field_required_string payload "symbol";
  if bool_decide (wire_topic = "equity_prices") then parse_equity_event frame payload type symbol timestamp_ms
  else
    (if bool_decide (type = "update") then Ok tt else throw_bad_field "type" "update");;
    timestamp ← required_integer payload "timestamp";
    let event topic price window := MkRtdsPrice topic type timestamp_ms symbol price window None None [] frame in
    match twap_window wire_topic with
    | Some expected =>
        checked_window payload wire_topic expected;;
        required_decimal payload "value";;
        exact ← full_accuracy payload;
        price ← point timestamp exact;
        Ok (event twap_topic price (Some expected))
    | None =>
        if bool_decide (wire_topic = "crypto_prices") || bool_decide (wire_topic = "crypto_prices_chainlink") then
          let chainlink := bool_decide (wire_topic = "crypto_prices_chainlink") in
          exact ← crypto_exact payload chainlink;
          price ← point timestamp exact;
          Ok (event (if chainlink then chainlink_topic else binance_topic) price None)
        else Throw (invalid_argument ("unknown RTDS topic " +:+ wire_topic))
    end.

(** ** Comments *)

Definition is_comment_type (type : string) : bool :=
  bool_decide (type = "comment_created") || bool_decide (type = "comment_removed") ||
  bool_decide (type = "reaction_created") || bool_decide (type = "reaction_removed").

Definition parse_rtds_comment_event (frame : json) : res RtdsCommentEvent :=
  type ← field_required_string frame "type";
  if negb (is_comment_type type) then throw_bad_field "type" "a comment event type"
  else
    timestamp_ms ← stream_epoch_ms_or_iso frame "timestamp";
    payload ← payload_object frame;
    if String.prefix "comment_" type then
      comment ← parse_gamma_comment payload; Ok (MkRtdsComment type timestamp_ms (Some comment) None frame)
    else
      reaction ← parse_gamma_reaction payload; Ok (MkRtdsComment type timestamp_ms None (Some reaction) frame).

(** ** Frames *)

(** [Ok None] for the empty frame sent after connecting. *)
Definition parse_rtds_message (message : string) : res (option RtdsParsedEvent) :=
  if bool_decide (message = "") then Ok None
  else
    frame ← parse_json message;
    topic ← field_required_string frame "topic";
    type ← field_required_string frame "type";
    if bool_decide (topic = comments_topic) then
      comment ← parse_rtds_comment_event frame; Ok (Some (MkRtdsParsed topic type (Some comment) None))
    else
      price ← parse_rtds_price_event frame topic; Ok (Some (MkRtdsParsed topic type None (Some price))).

Definition is_rtds_price_wire_topic (topic : string) : bool :=
  bool_decide (topic = "crypto_prices") || bool_decide (topic = "crypto_prices_chainlink") ||
  bool_decide (topic = "crypto_prices_twap_thirty") || bool_decide (topic = "crypto_prices_twap_sixty") ||
  bool_decide (topic = "equity_prices").

Definition rtds_supported_frame (message : string) : bool :=
  match json_parse message with
  | Some ((JObject _) as frame) =>
      match find_field frame "topic" with
      | Ok (Some (JString name)) => bool_decide (name = comments_topic) || is_rtds_price_wire_topic name
      | _ => false
      end
  | _ => false
  end.

Definition key_json (key : RtdsServerKey) : json :=
  JObject ([("topic", JString (key_topic key)); ("type", JString (key_type key))] ++
           (if bool_decide (key_filters key = "") then [] else [("filters", JString (key_filters key))])).

Definition rtds_subscription_frame (action : string) (keys : list RtdsServerKey) : json :=
  JObject [("action", JString action); ("subscriptions", JArray (key_json <$> keys))].

(** ** Sports *)

Definition sports_integer (item : json) (key : string) : res Z :=
  value ← find_field item key;
  match value with
  | Some (JString text) =>
      if negb (all_digits (chars text)) || (18 <? length (chars text))%nat then throw_bad_field key "an integer"
      else Ok (decimal_val (chars text))
  | _ =>
      number ← field_integer item key;
      match number with Some z => Ok z | None => throw_bad_field key "an integer" end
  end.

Definition sports_bool (item : json) (key : string) : res bool :=
  value ← field_bool item key;
  match value with Some b => Ok b | None => throw_bad_field key "a boolean" end.

Definition parse_sports_result (item : json) : res SportsGameResult :=
  game_id ← sports_integer item "gameId";
  sportradar ← field_string item "sportradarGameId";
  slug ← field_string item "slug";
  league ← field_required_string item "leagueAbbreviation";
  home ← field_string item "homeTeam";
  away ← field_string item "awayTeam";
  status ← field_required_string item "status";
  live ← sports_bool item "live";
  ended ← sports_bool item "ended";
  score ← field_required_string item "score";
  period ← field_string item "period";
  elapsed ← field_string item "elapsed";
  turn ← field_string item "turn";
  finished ← stream_epoch_ms_or_iso item "finishedTimestamp";
  finished ← match finished with Some ms => Ok (Some ms) | None => stream_epoch_ms_or_iso item "finished_timestamp" end;
  Ok (MkSportsResult game_id sportradar slug league home away status live ended score period elapsed turn finished item).

Definition parse_sports_message (message : string) : res SportsGameResult := parse_json message ≫= parse_sports_result.
End Parsing.

(** ** Filters *)

Definition distinct_symbols (symbols : list string) : res (list string) :=
  require (negb (bool_decide ("" ∈ symbols))) (invalid_argument "symbol must be non-empty");;
  Ok (distinct [] symbols).

Definition rtds_crypto_price_match (filter : RtdsCryptoPriceFilter) : res RtdsPriceMatch :=
  require (bool_decide (cr_source filter = "binance") || bool_decide (cr_source filter = "chainlink"))
    (invalid_argument "source must be binance or chainlink");;
  symbols ← distinct_symbols (cr_symbols filter);
  Ok (MkMatch (if bool_decide (cr_source filter = "binance") then binance_topic else chainlink_topic) symbols None []).

Definition rtds_crypto_twap_match (filter : RtdsCryptoTwapFilter) : res RtdsPriceMatch :=
  require ((tw_window_seconds filter =? 30) || (tw_window_seconds filter =? 60))
    (invalid_argument "window_seconds must be 30 or 60");;
  symbols ← distinct_symbols (tw_symbols filter);
  Ok (MkMatch twap_topic symbols (Some (tw_window_seconds filter)) []).

Fixpoint equity_types (kept types : list string) : res (list string) :=
  match types with
  | [] => Ok kept
  | t :: types =>
      require (bool_decide (t = "update") || bool_decide (t = "subscribe"))
        (invalid_argument ("invalid equity event type: " +:+ t));;
      equity_types (if bool_decide (t ∈ kept) then kept else kept ++ [t]) types
  end.

Definition rtds_equity_price_match (filter : RtdsEquityPriceFilter) : res RtdsPriceMatch :=
  require (negb (bool_decide (eq_symbol filter = ""))) (invalid_argument "symbol must be a non-empty string");;
  types ← equity_types [] (eq_types filter);
  Ok (MkMatch equity_topic [lowercase (eq_symbol filter)] None types).

Definition rtds_price_keys (m : RtdsPriceMatch) : list RtdsServerKey :=
  if bool_decide (pm_topic m = binance_topic) then [MkServerKey "crypto_prices" "update" ""]
  else if bool_decide (pm_topic m = chainlink_topic) then [MkServerKey "crypto_prices_chainlink" "update" ""]
  else if bool_decide (pm_topic m = twap_topic) then
    [MkServerKey (if bool_decide (pm_window_seconds m = Some 30) then "crypto_prices_twap_thirty"
                  else "crypto_prices_twap_sixty") "update" ""]
  else [MkServerKey "equity_prices" "update" ""].

Definition rtds_price_matches (m : RtdsPriceMatch) (event : RtdsPriceEvent) : bool :=
  if negb (bool_decide (pe_topic event = pm_topic m)) then false
  else if bool_decide (pm_topic m = equity_topic) then
    bool_decide (Some (lowercase (pe_symbol event)) = head (pm_symbols m)) &&
    (bool_decide (pm_types m = []) || bool_decide (pe_type event ∈ pm_types m))
  else if match pm_window_seconds m with Some w => negb (bool_decide (pe_window_seconds event = Some w)) | None => false end
  then false
  else bool_decide (pm_symbols m = []) || bool_decide (pe_symbol event ∈ pm_symbols m).

Fixpoint comment_types (kept types : list string) : res (list string) :=
  match types with
  | [] => Ok kept
  | t :: types =>
      require (is_comment_type t) (invalid_argument ("invalid comments event type: " +:+ t));;
      comment_types (if bool_decide (t ∈ kept) then kept else kept ++ [t]) types
  end.

Definition normalized_comment_filter (filter : RtdsCommentFilter) : res RtdsCommentFilter :=
  types ← comment_types [] (cf_types filter);
  require (bool_decide (cf_parent_entity_type filter = "") || bool_decide (cf_parent_entity_type filter = "Event") ||
           bool_decide (cf_parent_entity_type filter = "Market"))
    (invalid_argument "parent_entity_type must be Event or Market");;
  Ok (MkCommentFilter (if bool_decide (types = []) then ["comment_created"] else types) (cf_parent_entity_id filter)
        (cf_parent_entity_type filter)).

Definition rtds_comment_keys (normalized : RtdsCommentFilter) : list RtdsServerKey :=
  (λ t, MkServerKey comments_topic t "") <$> cf_types normalized.

Definition rtds_comment_matches (normalized : RtdsCommentFilter) (event : RtdsCommentEvent) : bool :=
  if negb (bool_decide (ce_type event ∈ cf_types normalized)) then false
  else if bool_decide (cf_parent_entity_id normalized = None) && bool_decide (cf_parent_entity_type normalized = "") then true
  else
    match ce_comment event with
    | None => false
    | Some comment =>
        match cf_parent_entity_id normalized with
        | Some id => bool_decide (co_parent_entity_id comment = signed_text id)
        | None => true
        end &&
        (bool_decide (cf_parent_entity_type normalized = "") ||
         bool_decide (co_parent_entity_type comment = cf_parent_entity_type normalized))
    end.

(** ** Exact decimals are exact *)

(** A decimal as its digits without the point, signed, and how many of them are
    after the point; the value of a signed integer. *)
Definition decimal_reading (cs : list ascii) : option (Z * nat) :=
  let '(whole, fraction) := split_dot (without_minus cs) in
  if all_digits whole && match fraction with Some f => all_digits f | None => true end then
    let m := decimal_val (whole ++ default [] fraction) in
    Some (if is_minus cs then - m else m, length (default [] fraction))
  else None.

Definition signed_value (cs : list ascii) : Z :=
  if is_minus cs then - decimal_val (without_minus cs) else decimal_val (without_minus cs).

Lemma decimal_val_app l1 l2 : decimal_val (l1 ++ l2) = decimal_val l1 * 10 ^ Z.of_nat (length l2) + decimal_val l2.
Proof. unfold decimal_val. rewrite map_app, val_app by lia. by rewrite length_map. Qed.

Lemma strip_zeros_spec cs :
  ∃ n, cs = replicate n "0"%char ++ strip_zeros cs ∧ (strip_zeros cs = [] ∨ head (strip_zeros cs) ≠ Some "0"%char).
Proof.
  induction cs as [|c cs (n & IH & Hh)]; [by exists 0%nat; split; [|left]|]. cbn.
  destruct (bool_decide (c = "0"%char)) eqn:Ec.
  - apply bool_decide_eq_true in Ec as ->. exists (S n). cbn. by rewrite <- IH.
  - apply bool_decide_eq_false in Ec. exists 0%nat. split; [done|right]. cbn. congruence.
Qed.

Lemma decimal_val_zeros n cs : decimal_val (replicate n "0"%char ++ cs) = decimal_val cs.
Proof.
  rewrite decimal_val_app. induction n as [|n IH]; [by rewrite Z.add_0_l|].
  change (replicate (S n) "0"%char) with (["0"%char] ++ replicate n "0"%char). rewrite decimal_val_app.
  change (decimal_val ["0"%char]) with 0. lia.
Qed.

Lemma drop_leading_zeros_spec cs :
  all_digits cs = true →
  all_digits (drop_leading_zeros cs) = true ∧ decimal_val (drop_leading_zeros cs) = decimal_val cs ∧
  (head (drop_leading_zeros cs) = Some "0"%char → drop_leading_zeros cs = ["0"%char]).
Proof.
  unfold all_digits at 1, drop_leading_zeros. intros Hd. apply andb_true_iff in Hd as [_ Hd].
  destruct (strip_zeros_spec cs) as (n & Hcs & Hh).
  destruct (strip_zeros cs) as [|c cs'] eqn:Es.
  - split; [done|]. split; [|done]. rewrite Hcs. by rewrite decimal_val_zeros.
  - split_and!; [|by rewrite Hcs, decimal_val_zeros|by destruct Hh].
    rewrite Hcs, forallb_app in Hd. apply andb_true_iff in Hd as [_ Hd]. done.
Qed.

(** A run of digits with no zero at its end, and the zeros after it. *)
Lemma strip_tail_spec cs :
  ∃ j, cs = rev (strip_zeros (rev cs)) ++ replicate j "0"%char ∧
    (rev (strip_zeros (rev cs)) = [] ∨ ∃ cs' c, rev (strip_zeros (rev cs)) = cs' ++ [c] ∧ c ≠ "0"%char).
Proof.
  destruct (strip_zeros_spec (rev cs)) as (n & Hcs & Hh). exists n. split.
  - rewrite <- (rev_involutive cs) at 1. rewrite Hcs at 1. rewrite rev_app_distr. f_equal.
    clear. induction n as [|n IH]; [done|]. cbn [replicate rev]. rewrite IH.
    change ["0"%char] with (replicate 1 "0"%char). rewrite <- replicate_add. by rewrite Nat.add_1_r.
  - destruct (strip_zeros (rev cs)) as [|c cs']; [by left|right]. exists (rev cs'), c. split; [done|].
    destruct Hh as [Hh|Hh]; [done|]. cbn in Hh. congruence.
Qed.

Lemma split_dot_none cs : forallb is_decimal cs = true → split_dot cs = (cs, None).
Proof.
  induction cs as [|c cs IH]; [done|]. cbn. intros [Hc Hcs]%andb_true_iff. rewrite IH by done.
  destruct (bool_decide (c = "."%char)) eqn:E; [|done]. by apply bool_decide_eq_true in E as ->.
Qed.

Lemma split_dot_some cs f : forallb is_decimal cs = true → split_dot (cs ++ "."%char :: f) = (cs, Some f).
Proof.
  induction cs as [|c cs IH]; [done|]. cbn. intros [Hc Hcs]%andb_true_iff. rewrite IH by done.
  destruct (bool_decide (c = "."%char)) eqn:E; [|done]. by apply bool_decide_eq_true in E as ->.
Qed.

Lemma digits_not_minus cs : forallb is_decimal cs = true → is_minus cs = false.
Proof. destruct cs as [|c cs]; [done|]. cbn. intros [Hc _]%andb_true_iff. apply bool_decide_eq_false. by intros ->. Qed.

(** What is written for the digits of a scaled integer. *)
Definition scaled_body (ds : list ascii) : list ascii :=
  let digits := drop_leading_zeros ds in
  let digits := if (length digits <=? 18)%nat then replicate (19 - length digits) "0"%char ++ digits else digits in
  let whole := take (length digits - 18) digits in
  let fraction := rev (strip_zeros (rev (drop (length digits - 18) digits))) in
  whole ++ (if bool_decide (fraction = []) then [] else "."%char :: fraction).

(** The digits before and after the point, and the zeros left out. *)
Lemma scaled_digits ds :
  all_digits ds = true →
  ∃ whole fraction j,
    scaled_body ds = whole ++ (if bool_decide (fraction = []) then [] else "."%char :: fraction) ∧
    all_digits whole = true ∧ forallb is_decimal fraction = true ∧ (length fraction + j = 18)%nat ∧
    decimal_val (whole ++ fraction) * 10 ^ Z.of_nat j = decimal_val ds ∧
    (fraction = [] ∨ ∃ cs c, fraction = cs ++ [c] ∧ c ≠ "0"%char).
Proof.
  intros Hds. destruct (drop_leading_zeros_spec ds Hds) as (Hd & Hv & _). unfold scaled_body. cbv zeta.
  set (d := drop_leading_zeros ds) in *. set (p := if (length d <=? 18)%nat then _ else d).
  assert (Hp : forallb is_decimal p = true ∧ decimal_val p = decimal_val ds ∧ (19 ≤ length p)%nat).
  { unfold all_digits in Hd. apply andb_true_iff in Hd as [_ Hd]. unfold p.
    destruct (Nat.leb_spec (length d) 18); [|done]. rewrite forallb_app, Hd, decimal_val_zeros, length_app, length_replicate.
    split_and!; [|done|lia]. rewrite andb_true_r. generalize (19 - length d)%nat as n. by induction n. }
  destruct Hp as (Hpd & Hpv & Hpn). clearbody p. clear d Hd Hv.
  set (w := take (length p - 18) p). destruct (strip_tail_spec (drop (length p - 18) p)) as (j & Hf & Hlast).
  set (f := rev (strip_zeros (rev (drop (length p - 18) p)))) in *.
  assert (Hsplit : p = w ++ f ++ replicate j "0"%char) by (rewrite <- Hf; symmetry; apply take_drop).
  exists w, f, j. split; [done|]. rewrite Hsplit, !forallb_app in Hpd.
  apply andb_true_iff in Hpd as [Hw Hpd]. apply andb_true_iff in Hpd as [Hfd _]. split_and!; try done.
  - unfold all_digits. rewrite Hw, andb_true_r. apply negb_true_iff, bool_decide_eq_false. intros Hnil.
    apply (f_equal length) in Hnil. unfold w in Hnil. rewrite length_take in Hnil. cbn in Hnil. lia.
  - apply (f_equal length) in Hf. rewrite length_drop, length_app, length_replicate in Hf. lia.
  - rewrite <- Hpv, Hsplit, app_assoc, (decimal_val_app (w ++ f)), length_replicate.
    rewrite <- (app_nil_r (replicate j _)), decimal_val_zeros. change (decimal_val []) with 0. lia.
Qed.

Lemma decimal_val_last cs c :
  is_decimal c = true → c ≠ "0"%char → ¬ (10 | decimal_val (cs ++ [c])).
Proof.
  intros Hc Hne [q Hq]. rewrite decimal_val_app in Hq. change (Z.of_nat (length [c])) with 1 in Hq.
  change (decimal_val [c]) with (0 * 10 + decimal_digit c) in Hq. pose proof (decimal_digit_range c Hc).
  assert (decimal_digit c ≠ 0); [|lia]. intros H0. apply Hne. rewrite <- (digit_char_of_decimal c Hc), H0. done.
Qed.

(** The digits read back as the integer over 10^18, with no zero too many. *)
Lemma scaled_reading ds :
  all_digits ds = true →
  ∃ m k, decimal_reading (scaled_body ds) = Some (m, k) ∧ is_minus (scaled_body ds) = false ∧ (k ≤ 18)%nat ∧
    m * 10 ^ Z.of_nat (18 - k) = decimal_val ds ∧ (k = 0%nat ∨ ¬ (10 | m)).
Proof.
  intros Hds. destruct (scaled_digits ds Hds) as (w & f & j & Hb & Hw & Hf & Hj & Hv & Hl).
  assert (Hwd : forallb is_decimal w = true) by (unfold all_digits in Hw; by apply andb_true_iff in Hw as [_ ?]).
  assert (Hm : is_minus (scaled_body ds) = false).
  { rewrite Hb. destruct w as [|c w]; [done|]. by apply (digits_not_minus (c :: w)). }
  exists (decimal_val (w ++ f)), (length f). unfold decimal_reading, without_minus. rewrite Hm, Hb.
  split_and!; [|done|lia|by replace (18 - length f)%nat with j by lia|].
  - destruct Hl as [->|(cs & c & Hl & _)].
    + rewrite bool_decide_eq_true_2, app_nil_r, split_dot_none, Hw by done. cbn. by rewrite !app_nil_r.
    + rewrite bool_decide_eq_false_2 by (by rewrite Hl; destruct cs). rewrite split_dot_some, Hw by done.
      unfold all_digits. rewrite Hf, bool_decide_eq_false_2 by (by rewrite Hl; destruct cs). done.
  - destruct Hl as [->|(cs & c & Hl & Hc)]; [by left|right]. rewrite Hl, app_assoc. apply decimal_val_last; [|done].
    rewrite Hl, forallb_app in Hf. apply andb_true_iff in Hf as [_ Hf]. cbn in Hf. by rewrite andb_true_r in Hf.
Qed.

Lemma scaled_e18_body text :
  scaled_e18 text = (if is_minus text && negb (bool_decide (scaled_body (without_minus text) = ["0"%char])) then ["-"%char] else []) ++
                    scaled_body (without_minus text).
Proof. unfold scaled_e18. cbv zeta. fold (scaled_body (without_minus text)). by case_match. Qed.

(** The exact value of a scaled price is exact.  The decimal written for a signed integer [text] of 18 implied
    decimals reads back as [m] over 10^k with at most 18 decimals, m * 10^(18-k) is the integer, and there is no zero at
    the end of the fraction; any other text is refused. *)
Lemma scaled_decimal_exact text :
  match scaled_e18_decimal text with
  | Ok out =>
      signed_integer text = true ∧
      ∃ m k, decimal_reading (chars out) = Some (m, k) ∧ (k ≤ 18)%nat ∧
        m * 10 ^ Z.of_nat (18 - k) = signed_value (chars text) ∧ (k = 0%nat ∨ ¬ (10 | m))
  | Throw e => signed_integer text = false ∧ e = invalid_argument "full_accuracy_value must be a signed integer string"
  end.
Proof.
  unfold scaled_e18_decimal. destruct (signed_integer text) eqn:Es; [|done]. cbn [require mbind res_bind]. split; [done|].
  rewrite chars_str, scaled_e18_body. unfold signed_integer in Es. destruct (scaled_reading _ Es) as (m & k & Hr & Hm & Hk & Hv & Hl).
  unfold signed_value. set (body := scaled_body (without_minus (chars text))) in *. destruct (is_minus (chars text)); [|by exists m, k].
  cbn [andb]. destruct (bool_decide (body = ["0"%char])) eqn:E0; cbn [negb app].
  - apply bool_decide_eq_true in E0. exists m, k. split_and!; try done. rewrite E0 in Hr.
    assert (m = 0) as -> by (vm_compute in Hr; congruence). lia.
  - exists (- m), k. split_and!; [|done|lia|].
    + unfold decimal_reading, without_minus in Hr |- *. rewrite Hm in Hr. cbn [is_minus tail]. rewrite bool_decide_eq_true_2 by done.
      destruct (split_dot body) as [w f]. destruct (all_digits w && _); [|done]. by injection Hr as <- <-.
    + destruct Hl as [?|Hl]; [by left|right]. by rewrite Z.divide_opp_r.
Qed.

Example scaled_small : scaled_e18_decimal "-12345" = Ok "-0.000000000000012345".
Proof. by vm_compute. Qed.
