(* ===== verification/RtdsStream.v ===== *)
(** * The public streams
    (src/public_stream.cpp, rtds_stream.cpp, sports_stream.cpp)

    [PublicStream]: which messages are current, and how gaps and recoveries are
    reported.  The real-time data stream on top of it: its subscriptions, the
    frames that bring the server in line with them, the replay when a connection
    opens, and the delivery of an event.  The sports stream hands its one callback
    every result.

    A call that holds [mutex_] is one step, and so are the two halves of the
    transport's [handle_open]: publishing the connection with a copy of the tracked
    frame, and sending that copy.  A failed send reconnects. *)
From Stdlib Require Import String.
From S2P Require Import Prelude Sdk RestParsing GammaRows RtdsEvents.

#[local] Open Scope Z_scope.

(** ** The shared stream *)

Record PublicStream := MkPublic {
  owner_active : bool;
  stream_active : bool;
  shutdown_started : bool;
  recovery_generation : Z;      (** 0: no gap awaits its recovery *)
  websocket_generation : Z;
  websocket_connected : bool }.

(** What a handler makes the stream do. *)
Inductive public_effect :=
  | gap_callback
  | recovered_callback
  | error_callback (error : string)
  | handled (message : string) (generation : Z)
  | resnapshot (reason : string).

Definition new_public_stream (url : string) (connect_timeout_ms : Z) : res PublicStream :=
  require (negb (bool_decide (url = ""))) (invalid_argument "stream URL must not be empty");;
  require (0 <? connect_timeout_ms) (invalid_argument "ws_connect_timeout_ms must be positive");;
  Ok (MkPublic true false false 0 0 false).

Definition set_stream_active (b : bool) (s : PublicStream) : PublicStream :=
  MkPublic (owner_active s) b (shutdown_started s) (recovery_generation s) (websocket_generation s) (websocket_connected s).
Definition set_recovery (g : Z) (s : PublicStream) : PublicStream :=
  MkPublic (owner_active s) (stream_active s) (shutdown_started s) g (websocket_generation s) (websocket_connected s).
Definition set_websocket (g : Z) (connected : bool) (s : PublicStream) : PublicStream :=
  MkPublic (owner_active s) (stream_active s) (shutdown_started s) (recovery_generation s) g connected.

Definition shutdown (s : PublicStream) : PublicStream :=
  if shutdown_started s then s
  else MkPublic false false true (recovery_generation s) (websocket_generation s) false.

Definition active (s : PublicStream) : bool := owner_active s && stream_active s.
Definition is_current (generation : Z) (s : PublicStream) : bool := active s && (generation =? websocket_generation s).

Definition handle_message (message : string) (generation : Z) (s : PublicStream) : list public_effect :=
  if is_current generation s then [handled message generation] else [].

Definition handle_error (error : string) (s : PublicStream) : list public_effect :=
  if active s then [error_callback error] else [].

(** [s']: the stream after the error callback, which may have stopped it. *)
Definition report_invalid_message (error : string) (generation : Z) (s s' : PublicStream) : list public_effect :=
  if is_current generation s then
    handle_error error s ++ (if is_current generation s' then [resnapshot (error +:+ "; reconnecting")] else [])
  else [].

Definition handle_gap (generation : Z) (s : PublicStream) : PublicStream * list public_effect :=
  if active s then (set_recovery generation s, [gap_callback]) else (s, []).

Definition handle_connect (s : PublicStream) : PublicStream * list public_effect :=
  if active s then
    let pending := recovery_generation s in
    (set_recovery 0 s,
     if (pending =? 0) || negb (pending =? websocket_generation s) then [] else [recovered_callback])
  else (s, []).

Definition disconnect (s : PublicStream) : PublicStream := set_websocket (websocket_generation s) false (set_stream_active false s).
Definition stop : PublicStream → PublicStream := disconnect.

(** [opened]: the websocket was connected in time, in a generation of its own. *)
Definition connect (opened : option Z) (s : PublicStream) : PublicStream * bool :=
  if negb (owner_active s) then (s, false)
  else
    let s := set_stream_active true s in
    match opened with
    | Some g => (set_websocket g true s, true)
    | None => (disconnect s, false)
    end.

Definition is_connected (s : PublicStream) : bool := owner_active s && websocket_connected s.

(** A recovery is reported once, for the generation of the last gap, while the
    stream is active. *)
Lemma recovery_reported_once s s' effects :
  handle_connect s = (s', effects) → recovered_callback ∈ effects →
  active s = true ∧ recovery_generation s = websocket_generation s ∧ recovery_generation s ≠ 0 ∧ (handle_connect s').2 = [].
Proof.
  unfold handle_connect. destruct (active s) eqn:Ea; intros [= <- <-] Hin; [|by apply elem_of_nil in Hin].
  destruct (_ || _) eqn:E; [by apply elem_of_nil in Hin|]. apply orb_false_iff in E as [E0 Eg].
  apply negb_false_iff in Eg. apply Z.eqb_eq in Eg. apply Z.eqb_neq in E0.
  split_and!; [done..|]. unfold handle_connect. change (active (set_recovery 0 s)) with (active s). by rewrite Ea.
Qed.

(** ** Subscriptions of the real-time data stream *)

Inductive delivery :=
  | to_comments (normalized : RtdsCommentFilter)
  | to_prices (m : RtdsPriceMatch).

Record Subscription := MkSubscription { sub_keys : list RtdsServerKey; sub_deliver : delivery }.

Definition comments_subscription (filter : RtdsCommentFilter) : res Subscription :=
  normalized ← normalized_comment_filter filter;
  Ok (MkSubscription (rtds_comment_keys normalized) (to_comments normalized)).

Definition price_subscription (m : res RtdsPriceMatch) : res Subscription :=
  m ← m; Ok (MkSubscription (rtds_price_keys m) (to_prices m)).

Definition crypto_prices_subscription (filter : RtdsCryptoPriceFilter) : res Subscription :=
  price_subscription (rtds_crypto_price_match filter).
Definition crypto_twap_subscription (filter : RtdsCryptoTwapFilter) : res Subscription :=
  price_subscription (rtds_crypto_twap_match filter).
Definition equity_prices_subscription (filter : RtdsEquityPriceFilter) : res Subscription :=
  price_subscription (rtds_equity_price_match filter).

(** Whether the callback of a subscription is called for an event. *)
Definition accepts (d : delivery) (event : RtdsParsedEvent) : bool :=
  match d, pa_comment event, pa_price event with
  | to_comments normalized, Some comment, _ => rtds_comment_matches normalized comment
  | to_prices m, _, Some price => rtds_price_matches m price
  | _, _, _ => false
  end.

(** The frames the server was sent are the keys they name; [served] is what the
    server of the open connection streams. *)
Record RtdsStreamRuntime := MkRuntime {
  subscriptions_ : list (Z * Subscription);          (** by increasing id *)
  next_id_ : Z;
  tracked : list RtdsServerKey;                      (** of the frame replayed on a connection *)
  served : option (gset RtdsServerKey);              (** [None]: no open connection *)
  replaying : option (list RtdsServerKey);           (** copied by [handle_open], not sent yet *)
  events_ : Z;
  dropped_events_ : Z }.

Definition new_runtime : RtdsStreamRuntime := MkRuntime [] 0 [] None None 0 0.

Fixpoint add_keys (kept keys : list RtdsServerKey) : list RtdsServerKey :=
  match keys with
  | [] => kept
  | k :: keys => add_keys (if bool_decide (k ∈ kept) then kept else kept ++ [k]) keys
  end.

Definition server_keys (subs : list (Z * Subscription)) : list RtdsServerKey :=
  foldl (λ keys p, add_keys keys (sub_keys p.2)) [] subs.

Definition missing_from (keys other : list RtdsServerKey) : list RtdsServerKey := filter (λ k, k ∉ other) keys.

(** Replaces the tracked frame and, on an open connection, subscribes what was
    added and unsubscribes what was removed; a send that fails closes it. *)
Definition sync (before after : list RtdsServerKey) (sent1 sent2 : bool) (s : RtdsStreamRuntime) : RtdsStreamRuntime :=
  let kept served replaying :=
    MkRuntime (subscriptions_ s) (next_id_ s) after served replaying (events_ s) (dropped_events_ s) in
  match served s with
  | None => kept None None
  | Some keys =>
      let added := missing_from after before in
      let removed := missing_from before after in
      if negb (bool_decide (added = [])) && negb sent1 then kept None None
      else if negb (bool_decide (removed = [])) && negb sent2 then kept None None
      else kept (Some ((keys ∪ list_to_set added) ∖ list_to_set removed)) (replaying s)
  end.

Definition with_subscriptions (subs : list (Z * Subscription)) (next : Z) (s : RtdsStreamRuntime) : RtdsStreamRuntime :=
  MkRuntime subs next (tracked s) (served s) (replaying s) (events_ s) (dropped_events_ s).

Definition add (sub : Subscription) (sent1 sent2 : bool) (s : RtdsStreamRuntime) : RtdsStreamRuntime * Z :=
  let before := server_keys (subscriptions_ s) in
  let id := next_id_ s + 1 in
  let subs := subscriptions_ s ++ [(id, sub)] in
  (sync before (server_keys subs) sent1 sent2 (with_subscriptions subs id s), id).

Definition remove (id : Z) (sent1 sent2 : bool) (s : RtdsStreamRuntime) : RtdsStreamRuntime :=
  let before := server_keys (subscriptions_ s) in
  let subs := filter (λ p, p.1 ≠ id) (subscriptions_ s) in
  if bool_decide (length subs = length (subscriptions_ s)) then s
  else sync before (server_keys subs) sent1 sent2 (with_subscriptions subs (next_id_ s) s).

(** [handle_open] up to the copy of the tracked frame, and the replay of it. *)
Definition opened (s : RtdsStreamRuntime) : RtdsStreamRuntime :=
  MkRuntime (subscriptions_ s) (next_id_ s) (tracked s) (Some ∅) (Some (tracked s)) (events_ s) (dropped_events_ s).

Definition replayed (sent : bool) (s : RtdsStreamRuntime) : RtdsStreamRuntime :=
  match served s, replaying s with
  | Some keys, Some copy =>
      let next := if bool_decide (copy = []) || sent then Some (keys ∪ list_to_set copy) else None in
      MkRuntime (subscriptions_ s) (next_id_ s) (tracked s) next None (events_ s) (dropped_events_ s)
  | _, _ => s
  end.

Definition closed (s : RtdsStreamRuntime) : RtdsStreamRuntime :=
  MkRuntime (subscriptions_ s) (next_id_ s) (tracked s) None None (events_ s) (dropped_events_ s).

Definition count (events dropped : Z) (s : RtdsStreamRuntime) : RtdsStreamRuntime :=
  MkRuntime (subscriptions_ s) (next_id_ s) (tracked s) (served s) (replaying s) (events_ s + events) (dropped_events_ s + dropped).

(** The callbacks an event reaches, while the generation is current: [current n]
    before the [n]-th of them. *)
Fixpoint deliver_all (current : nat → bool) (event : RtdsParsedEvent) (targets : list (Z * Subscription)) (n : nat) : list Z :=
  match targets with
  | [] => []
  | (id, sub) :: targets =>
      if negb (current n) then []
      else (if accepts (sub_deliver sub) event then [id] else []) ++ deliver_all current event targets (S n)
  end.

Section Messages.
Context `{JsonLibrary, JsonRuntime}.

(** A message: the callbacks called, and what an invalid frame reports. *)
Definition rtds_message (message : string) (current : nat → bool) (s : RtdsStreamRuntime) :
    RtdsStreamRuntime * list Z * option string :=
  match parse_rtds_message message with
  | Throw e =>
      (count 0 1 s, [],
       if rtds_supported_frame message then Some ("invalid RTDS event: " +:+
         match e with invalid_argument w | out_of_range w | logic_error w | runtime_error w => w end) else None)
  | Ok None => (s, [], None)
  | Ok (Some event) => (count 1 0 s, deliver_all current event (subscriptions_ s) 0, None)
  end.

(** [SportsStreamRuntime::handle_message]: the result for the callback, or the report. *)
Definition sports_message (message : string) : SportsGameResult + string :=
  match parse_sports_message message with
  | Ok result => inl result
  | Throw e =>
      inr ("invalid Sports update: " +:+
           match e with invalid_argument w | out_of_range w | logic_error w | runtime_error w => w end)
  end.
End Messages.

(** ** Steps *)

Inductive rtds_op :=
  | op_add (sub : Subscription) (sent1 sent2 : bool)
  | op_remove (id : Z) (sent1 sent2 : bool)
  | op_opened
  | op_replayed (sent : bool)
  | op_closed.

Definition rtds_step (s : RtdsStreamRuntime) (o : rtds_op) : RtdsStreamRuntime :=
  match o with
  | op_add sub s1 s2 => (add sub s1 s2 s).1
  | op_remove id s1 s2 => remove id s1 s2 s
  | op_opened => opened s
  | op_replayed sent => replayed sent s
  | op_closed => closed s
  end.

(** No subscription ends while a replay is being sent. *)
Fixpoint undisturbed (s : RtdsStreamRuntime) (os : list rtds_op) : bool :=
  match os with
  | [] => true
  | o :: os =>
      match o with op_remove _ _ _ => bool_decide (replaying s = None) | _ => true end && undisturbed (rtds_step s o) os
  end.

(** ** The server streams what is asked for *)

Abbreviation keys_of s := (list_to_set (server_keys (subscriptions_ s)) : gset RtdsServerKey).

(** What the connection serves once a pending replay is sent. *)
Definition to_serve (s : RtdsStreamRuntime) : option (gset RtdsServerKey) :=
  match served s, replaying s with
  | Some keys, Some copy => Some (keys ∪ list_to_set copy)
  | keys, _ => keys
  end.

Definition never_misses (s : RtdsStreamRuntime) : Prop :=
  tracked s = server_keys (subscriptions_ s) ∧ ∀ keys, to_serve s = Some keys → keys_of s ⊆ keys.

Definition in_line (s : RtdsStreamRuntime) : Prop :=
  tracked s = server_keys (subscriptions_ s) ∧ ∀ keys, to_serve s = Some keys → keys = keys_of s.

Lemma missing_from_set keys other :
  list_to_set (missing_from keys other) = (list_to_set keys ∖ list_to_set other : gset RtdsServerKey).
Proof. apply set_eq. intros x. rewrite elem_of_difference, !elem_of_list_to_set. unfold missing_from. rewrite list_elem_of_filter. tauto. Qed.

Lemma add_keys_set kept keys : list_to_set (add_keys kept keys) = (list_to_set kept ∪ list_to_set keys : gset RtdsServerKey).
Proof.
  revert kept. induction keys as [|k keys IH]; intros kept; cbn [add_keys list_to_set]; [set_solver|].
  rewrite IH. case_bool_decide; [|rewrite list_to_set_app_L]; set_solver.
Qed.

Lemma server_keys_add subs id sub :
  list_to_set (server_keys (subs ++ [(id, sub)])) =
    (list_to_set (server_keys subs) ∪ list_to_set (sub_keys sub) : gset RtdsServerKey).
Proof. unfold server_keys. rewrite foldl_app. cbn. apply add_keys_set. Qed.

Lemma sync_serves before after s1 s2 s keys :
  to_serve (sync before after s1 s2 s) = Some keys →
  let added := list_to_set after ∖ list_to_set before : gset RtdsServerKey in
  let removed := list_to_set before ∖ list_to_set after in
  ∃ keys0, served s = Some keys0 ∧
    keys = ((keys0 ∪ added) ∖ removed) ∪ match replaying s with Some copy => list_to_set copy | None => ∅ end.
Proof.
  unfold sync, to_serve. destruct (served s) as [keys0|]; [|done]. cbv zeta. rewrite <- !missing_from_set.
  destruct (_ && negb s1); [done|]. destruct (_ && negb s2); [done|]. cbn. intros Hk. exists keys0. split; [done|].
  destruct (replaying s); injection Hk as <-; set_solver.
Qed.

Lemma sync_state before after s1 s2 s :
  subscriptions_ (sync before after s1 s2 s) = subscriptions_ s ∧ tracked (sync before after s1 s2 s) = after.
Proof. unfold sync. destruct (served s); [|done]. by repeat case_match. Qed.

(** What is served after a change from [B] to [A], when [C] is still to be replayed. *)
Lemma served_exactly (K B A C : gset RtdsServerKey) :
  K ∪ C = B → (C = ∅ ∨ B ⊆ A) → ((K ∪ (A ∖ B)) ∖ (B ∖ A)) ∪ C = A.
Proof.
  intros HB HC. apply set_eq. intros x. assert (x ∈ B ↔ x ∈ K ∨ x ∈ C) by set_solver.
  rewrite elem_of_union, elem_of_difference, elem_of_union, !elem_of_difference.
  destruct (decide (x ∈ A)), (decide (x ∈ B)); set_solver.
Qed.

Lemma served_at_least (K B A C : gset RtdsServerKey) :
  B ⊆ K ∪ C → A ⊆ ((K ∪ (A ∖ B)) ∖ (B ∖ A)) ∪ C.
Proof. intros HB x Hx. destruct (decide (x ∈ B)); set_solver. Qed.

(** The server never misses a key, whatever was added and removed and whatever failed. *)
Lemma sync_never_misses before subs next s1 s2 s :
  before = server_keys (subscriptions_ s) → never_misses s →
  never_misses (sync before (server_keys subs) s1 s2 (with_subscriptions subs next s)).
Proof.
  intros -> [Ht Hs]. destruct (sync_state (server_keys (subscriptions_ s)) (server_keys subs) s1 s2 (with_subscriptions subs next s)) as [Hsub Htr].
  split; [by rewrite Htr, Hsub|]. intros keys Hk. rewrite Hsub. apply sync_serves in Hk as (keys0 & H0 & ->). cbn in *.
  apply served_at_least. unfold to_serve in Hs. rewrite H0 in Hs.
  destruct (replaying s) as [copy|]; specialize (Hs _ eq_refl); set_solver.
Qed.

Lemma step_never_misses s o : never_misses s → never_misses (rtds_step s o).
Proof.
  intros Hs. destruct o as [sub s1 s2|id s1 s2| |sent|]; cbn [rtds_step].
  - unfold add. cbn [fst]. by apply sync_never_misses.
  - unfold remove. case_bool_decide; [done|]. by apply sync_never_misses.
  - destruct Hs as [Ht _]. split; [done|]. intros keys. cbn. intros [= <-]. rewrite Ht. set_solver.
  - unfold replayed. destruct (served s) as [keys0|] eqn:E0; [|done]. destruct (replaying s) as [copy|] eqn:Er; [|done].
    destruct Hs as [Ht Hs]. split; [done|]. intros keys. unfold to_serve in *. cbn. rewrite E0, Er in Hs.
    destruct (_ || _); [|done]. intros [= <-]. by apply Hs.
  - destruct Hs as [Ht _]. by split.
Qed.

Lemma in_line_misses s : in_line s → never_misses s.
Proof. intros [Ht Hs]. split; [done|]. intros keys Hk. by rewrite (Hs _ Hk). Qed.

Lemma step_in_line s o :
  match o with op_remove _ _ _ => replaying s = None | _ => True end → in_line s → in_line (rtds_step s o).
Proof.
  intros Ho Hs. pose proof (step_never_misses s o (in_line_misses s Hs)) as [Ht' Hm]. split; [done|]. intros keys Hk.
  destruct Hs as [Ht Hs]. destruct o as [sub s1 s2|id s1 s2| |sent|]; cbn [rtds_step] in *.
  - unfold add in *. cbn [fst] in *. destruct (sync_state (server_keys (subscriptions_ s))
      (server_keys (subscriptions_ s ++ [(next_id_ s + 1, sub)])) s1 s2
      (with_subscriptions (subscriptions_ s ++ [(next_id_ s + 1, sub)]) (next_id_ s + 1) s)) as [Hsub _].
    rewrite Hsub. apply sync_serves in Hk as (keys0 & H0 & ->). cbn [subscriptions_ with_subscriptions served replaying] in *.
    apply served_exactly; [|right; rewrite server_keys_add; set_solver]. unfold to_serve in Hs. rewrite H0 in Hs.
    destruct (replaying s) as [copy|]; specialize (Hs _ eq_refl); set_solver.
  - unfold remove in *. case_bool_decide; [by apply Hs|].
    destruct (sync_state (server_keys (subscriptions_ s)) (server_keys (filter (λ p, p.1 ≠ id) (subscriptions_ s))) s1 s2
      (with_subscriptions (filter (λ p, p.1 ≠ id) (subscriptions_ s)) (next_id_ s) s)) as [Hsub _].
    rewrite Hsub. apply sync_serves in Hk as (keys0 & H0 & ->). cbn in *. unfold to_serve in Hs. rewrite H0, Ho in Hs.
    specialize (Hs _ eq_refl). rewrite Ho. apply served_exactly; [set_solver|by left].
  - cbn in Hk. injection Hk as <-. rewrite Ht. set_solver.
  - unfold replayed in *. destruct (served s) as [keys0|] eqn:E0; [|by apply Hs]. destruct (replaying s) as [copy|] eqn:Er; [|by apply Hs].
    unfold to_serve in *. cbn in *. rewrite E0, Er in Hs. destruct (_ || _); [|done]. injection Hk as <-. by apply Hs.
  - done.
Qed.

(** What an open connection is asked to stream, replay included, covers every
    subscription; and it is no more than that as long as no subscription ended
    while a replay was being sent. *)
Lemma rtds_server_in_line os :
  let s := foldl rtds_step new_runtime os in
  never_misses s ∧ (undisturbed new_runtime os = true → in_line s).
Proof.
  assert (Hnew : in_line new_runtime) by (by split). split.
  - generalize (in_line_misses _ Hnew). generalize new_runtime. induction os as [|o os IH]; intros s Hs; [done|].
    apply IH. by apply step_never_misses.
  - revert Hnew. generalize new_runtime. induction os as [|o os IH]; intros s Hs Hu; [done|]. cbn in Hu.
    apply andb_true_iff in Hu as [Ho Hu]. apply IH; [|done]. apply step_in_line; [|done].
    destruct o; try done. by apply bool_decide_eq_true in Ho.
Qed.

(** A subscription that ends between the copy and the send of a replay is
    subscribed again by the replay: the server goes on streaming it. *)
Example replay_resubscribes :
  let btc := MkSubscription [MkServerKey "crypto_prices" "update" ""] (to_prices (MkMatch binance_topic [] None [])) in
  let s := foldl rtds_step new_runtime [op_add btc true true; op_opened; op_remove 1 true true; op_replayed true] in
  server_keys (subscriptions_ s) = [] ∧ replaying s = None ∧
  elements <$> served s = Some [MkServerKey "crypto_prices" "update" ""].
Proof. by vm_compute. Qed.

(** ** An event reaches its subscriptions *)

(** A callback that is called is subscribed and its filter lets the event through;
    while the generation stays current, every such callback is called, in the order
    of the subscriptions. *)
Lemma deliver_all_accepted current event targets n :
  (∀ id, id ∈ deliver_all current event targets n → ∃ sub, (id, sub) ∈ targets ∧ accepts (sub_deliver sub) event = true) ∧
  ((∀ k, current k = true) →
    deliver_all current event targets n = (filter (λ p, accepts (sub_deliver p.2) event = true) targets).*1).
Proof.
  revert n. induction targets as [|[id sub] targets IH]; intros n; [split; [by intros ? ?%elem_of_nil|done]|].
  destruct (IH (S n)) as [Hin Hall]. cbn [deliver_all]. split.
  - intros i. destruct (current n); [|by intros ?%elem_of_nil]. cbn [negb]. rewrite elem_of_app. intros [Hi|Hi].
    + destruct (accepts _ _) eqn:E; [|by apply elem_of_nil in Hi]. apply list_elem_of_singleton in Hi as ->.
      exists sub. split; [by left|done].
    + destruct (Hin _ Hi) as (sub' & ? & ?). exists sub'. split; [by right|done].
  - intros Hc. rewrite Hc, filter_cons. cbn [negb snd]. rewrite Hall by done. destruct (accepts _ _) eqn:E.
    + by rewrite decide_True.
    + rewrite decide_False; [done|congruence].
Qed.

(** The filter of a price subscription only lets events of the topic it asked the
    server for through. *)
Lemma price_match_topic m event : rtds_price_matches m event = true → pe_topic event = pm_topic m.
Proof. unfold rtds_price_matches. by case_bool_decide. Qed.
