(* ===== verification/DataParsing.v ===== *)
(** * Rows of the Data API
    (src/data_parsing.cpp, data_portfolio_parsing.cpp, data_analytics_parsing.cpp,
    data_leaderboard_parsing.cpp, data_parsing.hpp)

    The parsers of the pages of the Data API: the envelope with its cursor, and
    the rows, with the rules of each field.  What an activity row holds for each
    kind of activity is proved at the end.  Casts to [int64_t] of a number of
    seconds are exact: the code bounds it first. *)
From Stdlib Require Import Ascii String Floats.SpecFloat.
From S2P Require Import Prelude Text Float64 EvmAbi Sdk MarketTime RestParsing Pagination PositionCalls Query JsonFields.

#[local] Open Scope Z_scope.

(** ** Rows *)

Record DataTrade := MkDataTrade {
  dt_wallet : string; dt_asset_id : string; dt_condition_id : string; dt_side : string; dt_size : double;
  dt_price : double; dt_timestamp : Z; dt_transaction_hash : string; dt_title : string; dt_slug : string;
  dt_icon : string; dt_event_slug : string; dt_outcome : string; dt_outcome_index : option Z; dt_name : string;
  dt_pseudonym : string; dt_bio : string; dt_profile_image : string; dt_profile_image_optimized : string;
  dt_raw : json }.

Record DataActivity := MkActivity {
  da_type : string; da_known : bool; da_is_combo : bool; da_wallet : string; da_timestamp : option Z;
  da_transaction_hash : string; da_condition_id : string; da_asset_id : string; da_side : string;
  da_shares : option double; da_amount : option double; da_price : option double; da_outcome : string;
  da_outcome_index : option Z; da_title : string; da_slug : string; da_icon : string; da_event_slug : string;
  da_tip_side : string; da_name : string; da_pseudonym : string; da_bio : string; da_profile_image : string;
  da_profile_image_optimized : string; da_raw : json }.

Record DataTraderEntry := MkTraderEntry {
  te_rank : Z; te_wallet : string; te_pnl : double; te_volume : double; te_user_name : string;
  te_profile_image : string; te_x_username : string; te_verified : bool; te_raw : json }.

Record DataTraderStanding := MkStanding {
  ts_wallet : string; ts_pnl : double; ts_volume : double; ts_pnl_rank : option Z; ts_volume_rank : option Z;
  ts_user_name : string; ts_profile_image : string; ts_x_username : string; ts_verified : bool; ts_raw : json }.

Record DataBiggestWinner := MkWinner {
  bw_rank : Z; bw_kind : string; bw_wallet : string; bw_pnl : double; bw_initial_value : double;
  bw_final_value : double; bw_resolved_at : Z; bw_user_name : string; bw_profile_image : string;
  bw_event_title : string; bw_condition_id : string; bw_asset_id : string; bw_event_id : string;
  bw_event_slug : string; bw_raw : json }.

Record DataHolder := MkHolder {
  dh_wallet : string; dh_asset_id : string; dh_amount : double; dh_outcome_index : option Z;
  dh_display_username_public : bool; dh_verified : bool; dh_name : string; dh_pseudonym : string; dh_bio : string;
  dh_profile_image : string; dh_profile_image_optimized : string; dh_avg_price : option double;
  dh_entry_cost_usdc : option double; dh_current_price : option double; dh_current_value : option double;
  dh_realized_pnl : option double; dh_unrealized_pnl : option double; dh_total_pnl : option double; dh_raw : json }.

Record DataAssetHolders := MkAssetHolders { ah_asset_id : string; ah_holders : list DataHolder }.

Record DataOpenInterest := MkOpenInterest { oi_condition_id : string; oi_value : double; oi_raw : json }.

Record DataMarketLiveVolume := MkMarketVolume { mv_condition_id : string; mv_taker_volume : double }.
Record DataLiveVolume := MkLiveVolume {
  lv_taker_volume_total : double; lv_markets : list DataMarketLiveVolume; lv_raw : json }.

Record DataPricePoint := MkPricePoint { pp_timestamp : Z; pp_price : double; pp_resolution_seconds : Z }.

Record DataPortfolioValue := MkPortfolioValue { pv_wallet : string; pv_value : double; pv_raw : json }.

Record DataUserVolume := MkUserVolume {
  uv_volume : double; uv_volume_usdc : double; uv_trade_count : Z; uv_raw : json }.

Section Parsing.
Context `{JsonLibrary, JsonRuntime}.

(** ** Pages *)

Definition disagree : exn := invalid_argument "Data API page has_more and next_cursor disagree".

(** The rows and the next cursor. *)
Definition data_page_items (body : json) : res (list json * string) :=
  require (is_object body) (invalid_argument "Data API page must be an object");;
  match json_field body "data", json_field body "pagination" with
  | Some (JArray items), Some (JObject _ as pagination) =>
      match json_field pagination "has_more", json_field pagination "next_cursor" with
      | Some (JBool has_more), Some cursor =>
          match cursor with
          | JNull => if has_more then Throw disagree else Ok (items, "")
          | JString "" => Throw (invalid_argument "Data API page has an invalid next_cursor")
          | JString text => if has_more then Ok (items, text) else Throw disagree
          | _ => Throw (invalid_argument "Data API page has an invalid next_cursor")
          end
      | _, _ => Throw (invalid_argument "Data API page has invalid pagination metadata")
      end
  | _, _ => Throw (invalid_argument "Data API page requires data and pagination")
  end.

Definition data_envelope (body : json) : res json :=
  match body, json_field body "data" with
  | JObject _, Some data => Ok data
  | _, _ => Throw (invalid_argument "Data API response is missing data")
  end.

Fixpoint parse_each {T} (parse : json → res T) (items : list json) : res (list T) :=
  match items with
  | [] => Ok []
  | item :: items => row ← parse item; rows ← parse_each parse items; Ok (row :: rows)
  end.

Definition data_page {T} (body : string) (parse_item : json → res T) : res (Page T) :=
  parsed ← parse_json body;
  '(items, next) ← data_page_items parsed;
  rows ← parse_each parse_item items;
  Ok (MkPage rows next None false).

(** ** Fields *)

Definition data_required_hex (object : json) (key : string) : res string :=
  text ← field_hex object key;
  if bool_decide (text = "") then throw_bad_field key "a 0x-prefixed hex string" else Ok text.

(** [if (!value) throw_bad_field(key, expected)] *)
Definition required_value {A} (key expected : string) (value : res (option A)) : res A :=
  value ← value;
  match value with Some value => Ok value | None => throw_bad_field key expected end.

Definition data_required_number (object : json) (key : string) : res double :=
  required_value key "a number" (field_number object key).
Definition data_required_bool (object : json) (key : string) : res bool :=
  required_value key "a boolean" (field_bool object key).
Definition data_required_integer (object : json) (key : string) : res Z :=
  required_value key "an integer" (field_integer object key).

Definition data_choice (object : json) (key : string) (choices : list string) (expected : string) : res string :=
  value ← field_required_string object key;
  if bool_decide (value ∈ choices) then Ok value else throw_bad_field key expected.

Definition data_optional_choice (object : json) (key : string) (choices : list string) (expected : string) : res string :=
  value ← find_field object key;
  match value with None => Ok "" | Some _ => data_choice object key choices expected end.

Definition max_epoch : double := of_Z binary64 253402300799.

Definition data_epoch_seconds (object : json) (key : string) : res Z :=
  seconds ← field_number object key;
  match seconds with
  | Some x => if flt max_epoch (fabs x) then throw_bad_field key "Unix seconds" else Ok (floorZ x)
  | None => throw_bad_field key "Unix seconds"
  end.

(** [*value == ""] and [*value == 0]. *)
Definition is_text (text : string) (value : json) : bool :=
  match value with JString t => bool_decide (t = text) | _ => false end.
Definition is_number (n : Z) (value : json) : bool :=
  match value with JInteger z => z =? n | JNumber x => feq x (of_Z binary64 n) | _ => false end.

Definition data_optional_epoch_seconds (object : json) (key : string) : res (option Z) :=
  time ← find_field object key;
  match time with
  | None => Ok None
  | Some time =>
      if is_number 0 time || is_text "0" time || is_text "" time then Ok None
      else Some <$> data_epoch_seconds object key
  end.

(** [!text.empty() && text.find_first_not_of("0123456789") != npos] *)
Definition not_a_numeral (text : string) : bool := negb (all_decimal (chars text)).

Definition data_epoch_or_iso (object : json) (key : string) : res Z :=
  value ← find_field object key;
  match value with
  | Some (JString text) =>
      if not_a_numeral text then
        let ms := parse_iso8601_ms text in
        if ms =? 0 then throw_bad_field key "an ISO 8601 UTC time or Unix seconds" else Ok (ms / 1000)
      else data_epoch_seconds object key
  | _ => data_epoch_seconds object key
  end.

Definition data_optional_epoch_or_iso (object : json) (key : string) : res (option Z) :=
  value ← find_field object key;
  match value with
  | None => Ok None
  | Some value => if is_text "" value then Ok None else Some <$> data_epoch_or_iso object key
  end.

Definition data_outcome_index (object : json) (key : string) : res (option Z) :=
  index ← field_integer object key;
  match index with
  | None => Ok None
  | Some i =>
      if i =? 999 then Ok None
      else if (i <? -2147483648) || (2147483647 <? i) then throw_bad_field key "an outcome index"
      else Ok (Some i)
  end.

Definition starts_with (prefix : string) (cs : list ascii) : bool :=
  bool_decide (take (length (chars prefix)) cs = chars prefix).

Definition data_combo_condition_id (object : json) (key : string) : res string :=
  text ← data_required_hex object key;
  let id := map tolower (chars text) in
  let id :=
    if bool_decide (length id = 66%nat) && starts_with "0x03" id &&
       (bool_decide (drop 64 id = chars "00") || bool_decide (drop 64 id = chars "01"))
    then take 64 id else id in
  if bool_decide (length id = 64%nat) && starts_with "0x03" id then Ok (str id)
  else throw_bad_field key "a protocol v2 combo condition ID".

(** ** Trades and activity *)

Definition order_side (item : json) (key : string) : res string :=
  side ← field_required_string item key;
  if bool_decide (side ∈ ["BUY"; "SELL"]) then Ok side else throw_bad_field key "BUY or SELL".

Definition parse_data_trade (item : json) : res DataTrade :=
  wallet ← field_required_string item "proxy_wallet";
  asset_id ← field_required_string item "token_id";
  condition_id ← data_required_hex item "condition_id";
  side ← order_side item "side";
  size ← data_required_number item "size";
  price ← data_required_number item "price";
  timestamp ← data_epoch_seconds item "timestamp";
  transaction_hash ← field_required_string item "transaction_hash";
  title ← field_string item "title";
  slug ← field_string item "slug";
  icon ← field_string item "icon";
  event_slug ← field_string item "event_slug";
  outcome ← field_string item "outcome";
  outcome_index ← data_outcome_index item "outcome_index";
  name ← field_string item "name";
  pseudonym ← field_string item "pseudonym";
  bio ← field_string item "bio";
  profile_image ← field_string item "profile_image";
  profile_image_optimized ← field_string item "profile_image_optimized";
  Ok (MkDataTrade wallet asset_id condition_id side size price timestamp transaction_hash title slug icon event_slug
        outcome outcome_index name pseudonym bio profile_image profile_image_optimized item).

Definition market_events : list string := ["SPLIT"; "MERGE"; "REDEEM"; "CONVERSION"].
Definition account_credits : list string :=
  ["REWARD"; "DEPOSIT"; "WITHDRAWAL"; "MAKER_REBATE"; "TAKER_REBATE"; "REFERRAL_REWARD"; "MIGRATION"; "TIP"; "YIELD"].
Definition is_market_event (type : string) : bool := bool_decide (type ∈ market_events).
Definition is_account_credit (type : string) : bool := bool_decide (type ∈ account_credits).

(** The type, combo and profile fields of an activity, the others empty. *)
Definition activity_base (item : json) : res DataActivity :=
  require (is_object item) (invalid_argument "Data API activity must be an object");;
  type ← find_field item "type";
  let type := match type with Some (JString text) => text | _ => "" end in
  is_combo ← field_bool item "is_combo";
  name ← field_string item "name";
  pseudonym ← field_string item "pseudonym";
  bio ← field_string item "bio";
  profile_image ← field_string item "profile_image";
  profile_image_optimized ← field_string item "profile_image_optimized";
  let known := bool_decide (type = "TRADE") || is_market_event type || is_account_credit type in
  Ok (MkActivity type known (default false is_combo) "" None "" "" "" "" None None None "" None "" "" "" "" ""
        name pseudonym bio profile_image profile_image_optimized item).

(** The wallet, time and hash. *)
Definition set_origin (wallet : string) (timestamp : option Z) (transaction_hash : string) (a : DataActivity) : DataActivity :=
  MkActivity (da_type a) (da_known a) (da_is_combo a) wallet timestamp transaction_hash (da_condition_id a)
    (da_asset_id a) (da_side a) (da_shares a) (da_amount a) (da_price a) (da_outcome a) (da_outcome_index a)
    (da_title a) (da_slug a) (da_icon a) (da_event_slug a) (da_tip_side a) (da_name a) (da_pseudonym a) (da_bio a)
    (da_profile_image a) (da_profile_image_optimized a) (da_raw a).
Definition set_traded (condition_id asset_id side : string) (shares amount price : double) (a : DataActivity) : DataActivity :=
  MkActivity (da_type a) (da_known a) (da_is_combo a) (da_wallet a) (da_timestamp a) (da_transaction_hash a)
    condition_id asset_id side (Some shares) (Some amount) (Some price) (da_outcome a) (da_outcome_index a)
    (da_title a) (da_slug a) (da_icon a) (da_event_slug a) (da_tip_side a) (da_name a) (da_pseudonym a) (da_bio a)
    (da_profile_image a) (da_profile_image_optimized a) (da_raw a).
Definition set_outcome (outcome : string) (outcome_index : option Z) (a : DataActivity) : DataActivity :=
  MkActivity (da_type a) (da_known a) (da_is_combo a) (da_wallet a) (da_timestamp a) (da_transaction_hash a)
    (da_condition_id a) (da_asset_id a) (da_side a) (da_shares a) (da_amount a) (da_price a) outcome outcome_index
    (da_title a) (da_slug a) (da_icon a) (da_event_slug a) (da_tip_side a) (da_name a) (da_pseudonym a) (da_bio a)
    (da_profile_image a) (da_profile_image_optimized a) (da_raw a).
Definition set_market_text (title slug icon event_slug : string) (a : DataActivity) : DataActivity :=
  MkActivity (da_type a) (da_known a) (da_is_combo a) (da_wallet a) (da_timestamp a) (da_transaction_hash a)
    (da_condition_id a) (da_asset_id a) (da_side a) (da_shares a) (da_amount a) (da_price a) (da_outcome a)
    (da_outcome_index a) title slug icon event_slug (da_tip_side a) (da_name a) (da_pseudonym a) (da_bio a)
    (da_profile_image a) (da_profile_image_optimized a) (da_raw a).
Definition set_credit (condition_id : string) (amount : double) (tip_side : string) (a : DataActivity) : DataActivity :=
  MkActivity (da_type a) (da_known a) (da_is_combo a) (da_wallet a) (da_timestamp a) (da_transaction_hash a)
    condition_id (da_asset_id a) (da_side a) (da_shares a) (Some amount) (da_price a) (da_outcome a)
    (da_outcome_index a) (da_title a) (da_slug a) (da_icon a) (da_event_slug a) tip_side (da_name a) (da_pseudonym a)
    (da_bio a) (da_profile_image a) (da_profile_image_optimized a) (da_raw a).

Definition parse_trade_activity (item : json) (a : DataActivity) : res DataActivity :=
  condition_id ←
    (if da_is_combo a then data_combo_condition_id item "condition_id" else data_required_hex item "condition_id");
  asset_id ← field_required_string item "token_id";
  side ← order_side item "side";
  shares ← data_required_number item "size";
  amount ← data_required_number item "usdc_size";
  price ← data_required_number item "price";
  title ← field_string item "title";
  icon ← field_string item "icon";
  let a := set_market_text title "" icon "" (set_traded condition_id asset_id side shares amount price a) in
  if da_is_combo a then Ok a
  else
    slug ← field_string item "slug";
    event_slug ← field_string item "event_slug";
    outcome ← field_string item "outcome";
    outcome_index ← data_outcome_index item "outcome_index";
    Ok (set_outcome outcome outcome_index (set_market_text title slug icon event_slug a)).

Definition parse_credit_activity (item : json) (a : DataActivity) : res DataActivity :=
  amount ← data_required_number item "usdc_size";
  if is_market_event (da_type a) then
    condition_id ← data_required_hex item "condition_id";
    title ← field_string item "title";
    slug ← field_string item "slug";
    icon ← field_string item "icon";
    event_slug ← field_string item "event_slug";
    Ok (set_market_text title slug icon event_slug (set_credit condition_id amount "" a))
  else if bool_decide (da_type a = "TIP") then
    tip_side ← field_string item "side";
    if bool_decide (tip_side ∈ [""; "IN"; "OUT"]) then Ok (set_credit "" amount tip_side a)
    else throw_bad_field "side" "IN or OUT"
  else Ok (set_credit "" amount "" a).

Definition parse_data_activity (item : json) : res DataActivity :=
  a ← activity_base item;
  if negb (da_known a) then
    wallet ← field_string item "proxy_wallet";
    transaction_hash ← field_string item "transaction_hash";
    timestamp ← data_optional_epoch_seconds item "timestamp";
    Ok (set_origin wallet timestamp transaction_hash a)
  else
    wallet ← field_required_string item "proxy_wallet";
    timestamp ← data_epoch_seconds item "timestamp";
    transaction_hash ← field_required_string item "transaction_hash";
    let a := set_origin wallet (Some timestamp) transaction_hash a in
    if bool_decide (da_type a = "TRADE") then parse_trade_activity item a else parse_credit_activity item a.

Definition parse_data_trade_page (body : string) : res (Page DataTrade) := data_page body parse_data_trade.
Definition parse_data_activity_page (body : string) : res (Page DataActivity) := data_page body parse_data_activity.

(** ** Leaderboards *)

Definition standing_rank (item : json) (key : string) : res (option Z) :=
  rank ← field_integer item key;
  Ok match rank with Some 0 => None | _ => rank end.

Definition positive_event_id (item : json) (key : string) : res string :=
  id ← field_required_id item key;
  if negb (all_decimal (chars id)) || forallb (λ c, bool_decide (c = "0"%char)) (chars id)
  then throw_bad_field key "a positive event ID" else Ok id.

Definition parse_data_trader_entry (item : json) : res DataTraderEntry :=
  rank ← data_required_integer item "rank";
  wallet ← field_required_string item "user_id";
  pnl ← data_required_number item "pnl";
  volume ← data_required_number item "volume";
  user_name ← field_string item "user_name";
  profile_image ← field_string item "profile_image";
  x_username ← field_string item "x_username";
  verified ← data_required_bool item "verified";
  Ok (MkTraderEntry rank wallet pnl volume user_name profile_image x_username verified item).

Definition parse_data_biggest_winner (item : json) : res DataBiggestWinner :=
  kind ← data_choice item "kind" ["market"; "combo"] "market or combo";
  rank ← data_required_integer item "win_rank";
  wallet ← field_required_string item "user_id";
  pnl ← data_required_number item "pnl";
  initial_value ← data_required_number item "initial_value";
  final_value ← data_required_number item "final_value";
  resolved_at ← data_epoch_or_iso item "resolved_at";
  user_name ← field_string item "user_name";
  profile_image ← field_string item "profile_image";
  event_title ← field_string item "event_title";
  asset_id ← field_required_string item "position_id";
  let winner condition_id event_id event_slug :=
    MkWinner rank kind wallet pnl initial_value final_value resolved_at user_name profile_image event_title
      condition_id asset_id event_id event_slug item in
  if bool_decide (kind = "combo") then
    condition_id ← data_combo_condition_id item "condition_id"; Ok (winner condition_id "" "")
  else
    condition_id ← data_required_hex item "condition_id";
    event_id ← positive_event_id item "event_id";
    event_slug ← field_string item "event_slug";
    Ok (winner condition_id event_id event_slug).

Definition is_null (j : json) : bool := match j with JNull => true | _ => false end.

Definition data_object : exn := invalid_argument "Data API data must be an object".

Definition parse_data_trader_standing (body : string) : res (option DataTraderStanding) :=
  parsed ← parse_json body;
  data ← data_envelope parsed;
  if is_null data then Ok None
  else
    require (is_object data) data_object;;
    wallet ← field_required_string data "user_id";
    pnl ← data_required_number data "pnl";
    volume ← data_required_number data "volume";
    pnl_rank ← standing_rank data "rank_pnl";
    volume_rank ← standing_rank data "rank_volume";
    user_name ← field_string data "user_name";
    profile_image ← field_string data "profile_image";
    x_username ← field_string data "x_username";
    verified ← data_required_bool data "verified";
    Ok (Some (MkStanding wallet pnl volume pnl_rank volume_rank user_name profile_image x_username verified data)).

Definition parse_data_trader_leaderboard_page (body : string) : res (Page DataTraderEntry) :=
  data_page body parse_data_trader_entry.
Definition parse_data_biggest_winners_page (body : string) : res (Page DataBiggestWinner) :=
  data_page body parse_data_biggest_winner.

(** ** Portfolio *)

Definition envelope_object (body : json) : res json :=
  data ← data_envelope body; require (is_object data) data_object;; Ok data.

Definition parse_data_portfolio_value (body : string) : res DataPortfolioValue :=
  parsed ← parse_json body;
  data ← envelope_object parsed;
  wallet ← field_required_string data "proxy_wallet";
  value ← data_required_number data "value";
  Ok (MkPortfolioValue wallet value data).

Definition parse_data_user_volume (body : string) : res DataUserVolume :=
  parsed ← parse_json body;
  data ← envelope_object parsed;
  volume ← data_required_number data "volume";
  volume_usdc ← data_required_number data "volume_usdc";
  trade_count ← data_required_integer data "trade_count";
  Ok (MkUserVolume volume volume_usdc trade_count data).

(** ** Analytics *)

Definition envelope_list (body : json) : res (list json) :=
  data ← data_envelope body;
  match data with JArray items => Ok items | _ => Throw (invalid_argument "Data API data must be an array") end.

(** An array field that must be there. *)
Definition required_array (object : json) (key : string) : res (list json) :=
  value ← find_field object key;
  match value with Some (JArray items) => Ok items | _ => throw_bad_field key "an array" end.

Definition parse_data_holder (item : json) : res DataHolder :=
  wallet ← field_required_string item "proxy_wallet";
  asset_id ← field_required_string item "token_id";
  amount ← data_required_number item "amount";
  outcome_index ← data_outcome_index item "outcome_index";
  display_username_public ← data_required_bool item "display_username_public";
  verified ← data_required_bool item "verified";
  name ← field_string item "name";
  pseudonym ← field_string item "pseudonym";
  bio ← field_string item "bio";
  profile_image ← field_string item "profile_image";
  profile_image_optimized ← field_string item "profile_image_optimized";
  avg_price ← field_number item "avg_price";
  entry_cost_usdc ← field_number item "entry_cost_usdc";
  current_price ← field_number item "current_price";
  current_value ← field_number item "current_value";
  realized_pnl ← field_number item "realized_pnl";
  unrealized_pnl ← field_number item "unrealized_pnl";
  total_pnl ← field_number item "total_pnl";
  Ok (MkHolder wallet asset_id amount outcome_index display_username_public verified name pseudonym bio profile_image
        profile_image_optimized avg_price entry_cost_usdc current_price current_value realized_pnl unrealized_pnl
        total_pnl item).

Definition parse_asset_holders (item : json) : res DataAssetHolders :=
  asset_id ← field_required_string item "token_id";
  holders ← required_array item "holders";
  holders ← parse_each parse_data_holder holders;
  Ok (MkAssetHolders asset_id holders).

Definition parse_price_point (item : json) : res DataPricePoint :=
  timestamp ← data_epoch_seconds item "timestamp";
  price ← data_required_number item "price";
  resolution_seconds ← data_required_integer item "resolution_seconds";
  Ok (MkPricePoint timestamp price resolution_seconds).

Definition parse_open_interest (item : json) : res DataOpenInterest :=
  condition ← find_field item "condition_id";
  condition_id ←
    match condition with
    | Some value => if is_text "GLOBAL" value then Ok "" else field_hex item "condition_id"
    | None => field_hex item "condition_id"
    end;
  value ← data_required_number item "value";
  Ok (MkOpenInterest condition_id value item).

Definition parse_market_volume (item : json) : res DataMarketLiveVolume :=
  condition_id ← field_hex item "condition_id";
  taker_volume ← data_required_number item "taker_volume";
  Ok (MkMarketVolume condition_id taker_volume).

Definition parse_data_holders_page (body : string) : res (Page DataAssetHolders) := data_page body parse_asset_holders.
Definition parse_data_open_interests (body : string) : res (list DataOpenInterest) :=
  parsed ← parse_json body; items ← envelope_list parsed; parse_each parse_open_interest items.
Definition parse_data_live_volume (body : string) : res DataLiveVolume :=
  parsed ← parse_json body;
  data ← envelope_object parsed;
  total ← data_required_number data "taker_volume_total";
  markets ← required_array data "conditions";
  markets ← parse_each parse_market_volume markets;
  Ok (MkLiveVolume total markets data).
Definition parse_data_price_history_page (body : string) : res (Page DataPricePoint) := data_page body parse_price_point.
End Parsing.

(** ** What an activity row holds *)

(** The fields a kind of activity carries; the others are empty. *)
Definition no_trade_fields (a : DataActivity) : Prop :=
  da_asset_id a = "" ∧ da_side a = "" ∧ da_shares a = None ∧ da_price a = None ∧ da_outcome a = "" ∧
  da_outcome_index a = None.
Definition no_market_text (a : DataActivity) : Prop :=
  da_title a = "" ∧ da_slug a = "" ∧ da_icon a = "" ∧ da_event_slug a = "".
Definition finite_amount (x : option double) : Prop := ∃ y, x = Some y ∧ is_finite y = true.

(** A combo condition ID in its 31-byte form, in lower case. *)
Definition combo_id (id : string) : Prop :=
  length (chars id) = 64%nat ∧ take 4 (chars id) = chars "0x03" ∧ map tolower (chars id) = chars id.

Definition trade_fields (a : DataActivity) : Prop :=
  (da_side a = "BUY" ∨ da_side a = "SELL") ∧ finite_amount (da_shares a) ∧ finite_amount (da_amount a) ∧
  finite_amount (da_price a) ∧ da_tip_side a = "" ∧
  if da_is_combo a then
    combo_id (da_condition_id a) ∧ da_slug a = "" ∧ da_event_slug a = "" ∧ da_outcome a = "" ∧ da_outcome_index a = None
  else
    is_hex_text (da_condition_id a) = true ∧
    ∀ i, da_outcome_index a = Some i → i ≠ 999 ∧ -2147483648 ≤ i ≤ 2147483647.

Definition known_kinds : list string := "TRADE" :: market_events ++ account_credits.

Record activity_ok (item : json) (a : DataActivity) : Prop := {
  activity_raw : da_raw a = item;
  activity_known : da_known a = bool_decide (da_type a ∈ known_kinds);
  activity_origin : da_known a = true →
    json_field item "proxy_wallet" = Some (JString (da_wallet a)) ∧
    json_field item "transaction_hash" = Some (JString (da_transaction_hash a)) ∧
    ∃ t, da_timestamp a = Some t;
  activity_trade : da_type a = "TRADE" → trade_fields a;
  activity_other : da_type a ≠ "TRADE" → no_trade_fields a;
  activity_market : da_type a ∈ market_events →
    finite_amount (da_amount a) ∧ is_hex_text (da_condition_id a) = true ∧ da_tip_side a = "";
  activity_credit : da_type a ∈ account_credits →
    finite_amount (da_amount a) ∧ da_condition_id a = "" ∧ no_market_text a;
  activity_tip : da_tip_side a ≠ "" → da_type a = "TIP" ∧ (da_tip_side a = "IN" ∨ da_tip_side a = "OUT");
  activity_unknown : da_known a = false → da_amount a = None ∧ da_condition_id a = "" ∧ no_market_text a }.

Section Rows.
Context `{JsonLibrary, JsonRuntime}.

Lemma required_value_Ok {A} key expected (m : res (option A)) a : required_value key expected m = Ok a → m = Ok (Some a).
Proof. unfold required_value. intros Hm. apply bind_Ok in Hm as ([x|] & -> & Hx); [|done]. by injection Hx as ->. Qed.

Lemma data_required_number_finite object key x : data_required_number object key = Ok x → is_finite x = true.
Proof. intros Hx%required_value_Ok. by eapply field_number_finite. Qed.

Lemma data_required_hex_ok object key text : data_required_hex object key = Ok text → is_hex_text text = true.
Proof.
  unfold data_required_hex, field_hex. intros Hx. apply bind_Ok in Hx as (t & Ht & Hx). case_if; [done|]. injection Hx as ->.
  apply bind_Ok in Ht as (t & _ & Ht). case_if; [injection Ht as ->; congruence|]. case_if; [|done]. by injection Ht as ->.
Qed.

Lemma order_side_ok item key side : order_side item key = Ok side → side = "BUY" ∨ side = "SELL".
Proof.
  unfold order_side. intros Hx. apply bind_Ok in Hx as (s & _ & Hx). case_if; [|done]. injection Hx as ->. bools. set_solver.
Qed.

Lemma data_combo_condition_id_ok object key id : data_combo_condition_id object key = Ok id → combo_id id.
Proof.
  unfold data_combo_condition_id. intros Hx. apply bind_Ok in Hx as (t & _ & Hx).
  set (low := map tolower (chars t)) in Hx. cbn zeta in Hx.
  assert (Hlow : map tolower low = low).
  { unfold low. rewrite map_map. apply map_ext. apply tolower_idem. }
  clearbody low. destruct (_ && _ && _) in Hx; cbn zeta in Hx; case_if; try done; injection Hx as <-; bools;
    unfold combo_id, starts_with in *; rewrite (chars_str _); bools; split_and!; try done.
  rewrite <- firstn_map. by rewrite Hlow.
Qed.

Lemma data_outcome_index_ok object key i :
  data_outcome_index object key = Ok (Some i) → i ≠ 999 ∧ -2147483648 ≤ i ≤ 2147483647.
Proof.
  unfold data_outcome_index. intros Hx. apply bind_Ok in Hx as ([j|] & _ & Hx); [|done].
  case_if; [done|]. case_if; [done|]. injection Hx as ->. bools. lia.
Qed.
Lemma finite_number object key x : data_required_number object key = Ok x → finite_amount (Some x).
Proof. intros Hx%data_required_number_finite. by exists x. Qed.

(** The kinds exclude each other. *)
Lemma kinds_split type :
  bool_decide (type ∈ known_kinds) = bool_decide (type = "TRADE") || is_market_event type || is_account_credit type.
Proof.
  unfold known_kinds, is_market_event, is_account_credit. rewrite (bool_decide_ext _ (type = "TRADE" ∨ type ∈ market_events ∨ type ∈ account_credits)) by set_solver.
  repeat case_bool_decide; cbn; naive_solver.
Qed.

Lemma kinds_distinct type :
  (type ∈ market_events → type ≠ "TRADE" ∧ type ∉ account_credits) ∧ (type ∈ account_credits → type ≠ "TRADE").
Proof.
  assert (Hd : forallb (λ k, negb (bool_decide (k = "TRADE")) && negb (bool_decide (k ∈ account_credits))) market_events = true)
    by by vm_compute.
  assert (Hc : forallb (λ k, negb (bool_decide (k = "TRADE"))) account_credits = true) by by vm_compute.
  rewrite forallb_forall in Hd, Hc. split; intros Hin%list_elem_of_In.
  - specialize (Hd _ Hin). by bools.
  - specialize (Hc _ Hin). by bools.
Qed.

Lemma activity_base_empty item a :
  activity_base item = Ok a →
  da_raw a = item ∧ da_known a = bool_decide (da_type a ∈ known_kinds) ∧ no_trade_fields a ∧ no_market_text a ∧
  da_amount a = None ∧ da_condition_id a = "" ∧ da_tip_side a = "".
Proof. unfold activity_base. intros. res_inv. cbn. rewrite kinds_split. unfold no_trade_fields, no_market_text. by cbn. Qed.

Lemma parse_trade_activity_ok item a a' :
  parse_trade_activity item a = Ok a' → no_trade_fields a → no_market_text a → da_tip_side a = "" →
  trade_fields a' ∧ da_raw a' = da_raw a ∧ da_known a' = da_known a ∧ da_type a' = da_type a ∧ da_tip_side a' = "" ∧
  da_wallet a' = da_wallet a ∧ da_transaction_hash a' = da_transaction_hash a ∧ da_timestamp a' = da_timestamp a.
Proof.
  intros Hp (_ & _ & _ & _ & Ho & Hi) _ Ht. unfold parse_trade_activity in Hp.
  apply bind_Ok in Hp as (condition & Hcond & Hp). 
  apply bind_Ok in Hp as (asset & _ & Hp). apply bind_Ok in Hp as (side & Hside%order_side_ok & Hp).
  apply bind_Ok in Hp as (shares & Hshares%finite_number & Hp). apply bind_Ok in Hp as (amount & Hamount%finite_number & Hp).
  apply bind_Ok in Hp as (price & Hprice%finite_number & Hp). apply bind_Ok in Hp as (title & _ & Hp).
  apply bind_Ok in Hp as (icon & _ & Hp). cbn [da_is_combo set_market_text set_traded] in Hp.
  destruct (da_is_combo a) eqn:Ec.
  - injection Hp as <-. unfold trade_fields. cbn. rewrite Ec. apply data_combo_condition_id_ok in Hcond. by split_and!.
  - apply bind_Ok in Hp as (slug & _ & Hp). apply bind_Ok in Hp as (event_slug & _ & Hp).
    apply bind_Ok in Hp as (outcome & _ & Hp). apply bind_Ok in Hp as (index & Hindex & Hp). injection Hp as <-.
    unfold trade_fields. cbn. rewrite Ec. apply data_required_hex_ok in Hcond. split_and!; try done.
    intros i ->. by eapply data_outcome_index_ok.
Qed.

Lemma parse_credit_activity_ok item a a' :
  parse_credit_activity item a = Ok a' → no_trade_fields a → no_market_text a → 
  no_trade_fields a' ∧ finite_amount (da_amount a') ∧
  (if is_market_event (da_type a) then is_hex_text (da_condition_id a') = true ∧ da_tip_side a' = ""
   else da_condition_id a' = "" ∧ no_market_text a' ∧
     (da_tip_side a' ≠ "" → da_type a = "TIP" ∧ (da_tip_side a' = "IN" ∨ da_tip_side a' = "OUT"))) ∧
  da_raw a' = da_raw a ∧ da_known a' = da_known a ∧ da_type a' = da_type a ∧
  da_wallet a' = da_wallet a ∧ da_transaction_hash a' = da_transaction_hash a ∧ da_timestamp a' = da_timestamp a.
Proof.
  intros Hp Hn Hm. unfold parse_credit_activity in Hp. apply bind_Ok in Hp as (amount & Hamount%finite_number & Hp).
  unfold no_trade_fields, no_market_text in *. destruct (is_market_event (da_type a)).
  - apply bind_Ok in Hp as (condition & Hc%data_required_hex_ok & Hp). res_inv. by cbn.
  - destruct (bool_decide (da_type a = "TIP")) eqn:Etip.
    + apply bind_Ok in Hp as (tip & _ & Hp). case_if; [|done]. injection Hp as <-. bools. cbn.
      split_and!; try tauto. intros Hne. split; [done|set_solver].
    + injection Hp as <-. cbn. split_and!; try tauto.
Qed.

Lemma parse_data_activity_ok item a : parse_data_activity item = Ok a → activity_ok item a.
Proof.
  unfold parse_data_activity. intros Hp. apply bind_Ok in Hp as (b & Hb & Hp).
  destruct (activity_base_empty _ _ Hb) as (Hraw & Hknown & Hn & Hm & Ham & Hc & Htip).
  rewrite kinds_split in Hknown. destruct (da_known b) eqn:Ek; cbn [negb] in Hp.
  - apply bind_Ok in Hp as (wallet & Hw%field_required_string_Ok & Hp).
    apply bind_Ok in Hp as (t & _ & Hp). apply bind_Ok in Hp as (hash & Hh%field_required_string_Ok & Hp).
    set (o := set_origin wallet (Some t) hash b) in Hp. cbn zeta in Hp.
    destruct (kinds_distinct (da_type b)) as [Hmk Hck].
    destruct (bool_decide (da_type o = "TRADE")) eqn:Etrade.
    + destruct (parse_trade_activity_ok item o a Hp Hn Hm Htip) as (Hf & Hr & Hk & Hty & Ht & Hwa & Hha & Hti).
      cbn in *. bools. assert (Hty' : da_type a = "TRADE") by congruence.
      constructor; rewrite ?Hty'; try congruence.
      * by rewrite Hk, Ek.
      * intros _. rewrite Hwa, Hha, Hti. by split_and!; [| |exists t].
      * intros Hin. rewrite Etrade in Hmk. naive_solver.
      * intros Hin. rewrite Etrade in Hck. naive_solver.
    + destruct (parse_credit_activity_ok item o a Hp Hn Hm) as (Hf & Hfin & Hcase & Hr & Hk & Hty & Hwa & Hha & Hti).
      cbn in *. bools. unfold is_market_event, is_account_credit in *. constructor; rewrite ?Hty; try congruence.
      * rewrite Hk, Ek, kinds_split. exact Hknown.
      * intros _. rewrite Hwa, Hha, Hti. by split_and!; [| |exists t].
      * intros Hin. rewrite bool_decide_eq_true_2 in Hcase by done. tauto.
      * intros Hin. rewrite bool_decide_eq_false_2 in Hcase by naive_solver. tauto.
      * intros Hne. case_bool_decide; [tauto|]. by apply Hcase.
  - apply bind_Ok in Hp as (wallet & _ & Hp). apply bind_Ok in Hp as (hash & _ & Hp). apply bind_Ok in Hp as (t & _ & Hp).
    injection Hp as <-. symmetry in Hknown. rewrite !orb_false_iff in Hknown. unfold is_market_event, is_account_credit in Hknown. 
    bools. constructor; cbn; try done; try congruence.
    rewrite Ek. symmetry. rewrite kinds_split. unfold is_market_event, is_account_credit. by rewrite !bool_decide_eq_false_2.
Qed.

Lemma data_page_items_ok body items next :
  data_page_items body = Ok (items, next) →
  json_field body "data" = Some (JArray items) ∧
  ∃ pagination, json_field body "pagination" = Some pagination ∧
    json_field pagination "has_more" = Some (JBool (negb (bool_decide (next = "")))) ∧
    json_field pagination "next_cursor" = Some (if bool_decide (next = "") then JNull else JString next).
Proof.
  unfold data_page_items. intros Hp. apply bind_Ok in Hp as (_ & _ & Hp).
  destruct (json_field body "data") as [[]|]; try done. destruct (json_field body "pagination") as [pagination|]; try done.
  destruct pagination as [| | | | | |fields]; try done.
  destruct (json_field (JObject fields) "has_more") as [[|more| | | | |]|] eqn:Em; try done.
  destruct (json_field (JObject fields) "next_cursor") as [cursor|] eqn:En; [|done].
  destruct cursor as [| | | |[|c text]| |]; try done; destruct more; try done; injection Hp as <- <-;
    (split; [done|]); exists (JObject fields); by rewrite Em, En.
Qed.

Lemma parse_each_Ok {T} (P : json → T → Prop) parse items rows :
  (∀ item row, parse item = Ok row → P item row) → parse_each parse items = Ok rows → Forall2 P items rows.
Proof.
  intros HP. revert rows. induction items as [|item items IH]; intros rows Hr; cbn in Hr; [by injection Hr as <-|].
  apply bind_Ok in Hr as (row & Hrow & Hr). apply bind_Ok in Hr as (rest & Hrest & Hr). injection Hr as <-.
  constructor; [by apply HP|by apply IH].
Qed.

End Rows.

(** ** Witness: a combo trade, a tip and a kind the client does not know. *)

Definition sample_row (fields : list (string * json)) : json :=
  JObject ([("proxy_wallet", JString "0xw"); ("timestamp", JInteger 1700000000); ("transaction_hash", JString "0xh");
            ("usdc_size", JString "0.25")] ++ fields).
Definition combo_text : string := "0x03" +:+ String.concat "" (replicate 60 "A").
Definition sample_rows : list json :=
  [sample_row [("type", JString "TRADE"); ("is_combo", JBool true); ("condition_id", JString combo_text);
               ("token_id", JString "7"); ("side", JString "BUY"); ("size", JInteger 5); ("price", JNumber (of_Z binary64 1))];
   sample_row [("type", JString "TIP"); ("side", JString "IN")];
   sample_row [("type", JString "AIRDROP")]].
Definition sample_page : json :=
  JObject [("data", JArray sample_rows);
           ("pagination", JObject [("has_more", JBool true); ("next_cursor", JString "c2")])].
Definition page_library : JsonLibrary := {| json_parse _ := Some sample_page; json_dump _ := "" |}.

Definition sample_summary (r : res (Page DataActivity)) : list (bool * string * string * string) * string :=
  match r with
  | Ok page => ((λ a, (da_known a, da_type a, da_side a, da_tip_side a)) <$> page_items page, next_cursor page)
  | Throw _ => ([], "")
  end.

