(* ===== verification/DataPortfolio.v ===== *)
(** * Positions, profits and resolutions of the Data API
    (src/data_portfolio_parsing.cpp, data_analytics_parsing.cpp,
    data_portfolio_types.hpp, data_types.hpp)

    The long rows of the Data API: a position, a point and a series of profits, the
    statistics of a user, and the resolution of a market by its oracle.  The pages,
    the shorter rows and the rules of fields are in [DataParsing]. *)
From Stdlib Require Import Ascii String Floats.SpecFloat.
From S2P Require Import Prelude Text Float64 EvmAbi Sdk MarketTime RestParsing Pagination PositionCalls Query JsonFields DataParsing.

#[local] Open Scope Z_scope.

(** ** Rows *)

Record DataPosition := MkPosition {
  p_wallet : string; p_asset_id : string; p_condition_id : string;
  p_current_size : double; p_avg_price : double; p_entry_cost_usdc : double; p_entry_fees_usdc : double;
  p_total_cost_usdc : double; p_current_price : double; p_current_value : double; p_total_size : double;
  p_realized_pnl : double; p_unrealized_pnl : double; p_total_pnl : double; p_percent_pnl : double;
  p_percent_realized_pnl : double; p_status : string;
  p_redeemable : bool; p_mergeable : bool; p_negative_risk : bool; p_archived : bool; p_verified : bool;
  p_title : string; p_slug : string; p_icon : string; p_event_slug : string; p_event_id : string;
  p_outcome : string; p_outcome_index : option Z; p_opposite_outcome : string; p_opposite_asset_id : string;
  p_end_date : string; p_last_event_at : option Z; p_first_entry_at : option Z; p_name : string;
  p_profile_image : string; p_raw : json }.

Record DataPnlPoint := MkPnlPoint {
  pnl_timestamp : Z; pnl_source_block : Z; pnl_trade_count : Z; realized_market_pnl : double; realized_lp_pnl : double;
  realized_combo_pnl : double; pnl_realized : double; pnl_volume : double; pnl_volume_usdc : double;
  pnl_unrealized : option double; fees_refunded : option double; maker_rebate : option double; taker_rebate : option double;
  reward_income : option double; yield_income : option double; referral_income : option double;
  sponsored_income : option double; deposits : option double; withdrawals : option double; cashflow_net : option double;
  wallet_income : option double; position_pnl : option double; settled_pnl : option double; economic_pnl : option double;
  trade_pnl : option double; fees : option double; fees_paid : option double; pnl_raw : json }.

Record DataUserStats := MkUserStats {
  us_wallet : string; traded_market_count : Z; biggest_win : double; views : Z; join_date : option Z;
  all_time_pnl : option DataPnlPoint; us_raw : json }.

Record DataPnlSeries := MkPnlSeries {
  ps_wallet : string; ps_interval : string; ps_fidelity : string; ps_source_fidelity : string; ps_points : list DataPnlPoint }.

Record DataResolution := MkResolution {
  r_question_id : string; r_condition_id : string; r_status : string; r_extended_review : bool;
  r_expected_settlement_time : option Z; r_settlement_time_basis : string; r_was_disputed : bool;
  r_question_rules_updated : bool; r_proposed_price : option double; r_reproposed_price : option double;
  r_price : option double; r_transaction_hash : string; r_log_index : option Z; r_last_updated_at : Z;
  r_market_type : string; r_payouts : option (double * double); r_resolution_source : string; r_reporter : string;
  r_was_arbitrated : option bool; r_resolved_block : option Z; r_resolved_at : option Z; r_raw : json }.

Section Parsing.
Context `{JsonLibrary, JsonRuntime}.

(** ** Portfolio *)

Definition event_id (item : json) (key : string) : res string :=
  id ← field_id item key; Ok (if bool_decide (id = "0") then "" else id).

(** YYYY-MM-DD, by its characters only. *)
Definition date_shape (cs : list ascii) : bool :=
  match cs with
  | [y1; y2; y3; y4; s1; m1; m2; s2; d1; d2] =>
      bool_decide (s1 = "-"%char) && bool_decide (s2 = "-"%char) && all_decimal [y1; y2; y3; y4; m1; m2; d1; d2]
  | _ => false
  end.

Definition calendar_date (item : json) (key : string) : res string :=
  date ← field_string item key;
  if bool_decide (date = "") || bool_decide (date = "1970-01-01") then Ok ""
  else if date_shape (chars date) then Ok date else throw_bad_field key "a YYYY-MM-DD date".

Definition position_states : list string := ["OPEN"; "REDEEMABLE"; "CLOSED"].

Definition parse_data_position (item : json) : res DataPosition :=
  wallet ← field_required_string item "proxy_wallet";
  asset_id ← field_required_string item "token_id";
  condition_id ← data_required_hex item "condition_id";
  current_size ← data_required_number item "current_size";
  avg_price ← data_required_number item "avg_price";
  entry_cost_usdc ← data_required_number item "entry_cost_usdc";
  entry_fees_usdc ← data_required_number item "entry_fees_usdc";
  total_cost_usdc ← data_required_number item "total_cost_usdc";
  current_price ← data_required_number item "current_price";
  current_value ← data_required_number item "current_value";
  total_size ← data_required_number item "total_size";
  realized_pnl ← data_required_number item "realized_pnl";
  unrealized_pnl ← data_required_number item "unrealized_pnl";
  total_pnl ← data_required_number item "total_pnl";
  percent_pnl ← data_required_number item "percent_pnl";
  percent_realized_pnl ← data_required_number item "percent_realized_pnl";
  status ← data_choice item "status" position_states "OPEN, REDEEMABLE or CLOSED";
  redeemable ← data_required_bool item "redeemable";
  mergeable ← data_required_bool item "mergeable";
  negative_risk ← data_required_bool item "negative_risk";
  archived ← data_required_bool item "archived";
  verified ← data_required_bool item "verified";
  title ← field_string item "title";
  slug ← field_string item "slug";
  icon ← field_string item "icon";
  event_slug ← field_string item "event_slug";
  event ← event_id item "event_id";
  outcome ← field_string item "outcome";
  outcome_index ← data_outcome_index item "outcome_index";
  opposite_outcome ← field_string item "opposite_outcome";
  opposite_asset_id ← field_string item "opposite_token_id";
  end_date ← calendar_date item "end_date";
  last_event_at ← data_optional_epoch_seconds item "last_event_at";
  first_entry_at ← data_optional_epoch_seconds item "first_entry_at";
  name ← field_string item "name";
  profile_image ← field_string item "profile_image";
  Ok (MkPosition wallet asset_id condition_id current_size avg_price entry_cost_usdc entry_fees_usdc total_cost_usdc
        current_price current_value total_size realized_pnl unrealized_pnl total_pnl percent_pnl percent_realized_pnl status
        redeemable mergeable negative_risk archived verified title slug icon event_slug event outcome outcome_index
        opposite_outcome opposite_asset_id end_date last_event_at first_entry_at name profile_image item).

Definition parse_data_pnl_point (item : json) : res DataPnlPoint :=
  timestamp ← data_epoch_seconds item "timestamp";
  source_block ← data_required_integer item "source_block";
  trade_count ← data_required_integer item "trade_count";
  realized_market_pnl ← data_required_number item "realized_market_pnl";
  realized_lp_pnl ← data_required_number item "realized_lp_pnl";
  realized_combo_pnl ← data_required_number item "realized_combo_pnl";
  realized_pnl ← data_required_number item "realized_pnl";
  volume ← data_required_number item "volume";
  volume_usdc ← data_required_number item "volume_usdc";
  unrealized_pnl ← field_number item "unrealized_pnl";
  fees_refunded ← field_number item "fees_refunded";
  maker_rebate ← field_number item "maker_rebate";
  taker_rebate ← field_number item "taker_rebate";
  reward_income ← field_number item "reward_income";
  yield_income ← field_number item "yield_income";
  referral_income ← field_number item "referral_income";
  sponsored_income ← field_number item "sponsored_income";
  deposits ← field_number item "deposits";
  withdrawals ← field_number item "withdrawals";
  cashflow_net ← field_number item "cashflow_net";
  wallet_income ← field_number item "wallet_income";
  position_pnl ← field_number item "position_pnl";
  settled_pnl ← field_number item "settled_pnl";
  economic_pnl ← field_number item "economic_pnl";
  trade_pnl ← field_number item "trade_pnl";
  fees ← field_number item "fees";
  fees_paid ← field_number item "fees_paid";
  Ok (MkPnlPoint timestamp source_block trade_count realized_market_pnl realized_lp_pnl realized_combo_pnl realized_pnl volume
        volume_usdc unrealized_pnl fees_refunded maker_rebate taker_rebate reward_income yield_income referral_income
        sponsored_income deposits withdrawals cashflow_net wallet_income position_pnl settled_pnl economic_pnl trade_pnl fees
        fees_paid item).

Definition parse_data_position_page (body : string) : res (Page DataPosition) := data_page body parse_data_position.

Definition parse_data_user_stats (body : string) : res (option DataUserStats) :=
  parsed ← parse_json body;
  data ← data_envelope parsed;
  if is_null data then Ok None
  else
    data ← envelope_object parsed;
    wallet ← field_required_string data "proxy_wallet";
    traded_market_count ← data_required_integer data "trades";
    biggest_win ← data_required_number data "biggest_win";
    views ← data_required_integer data "views";
    join_date ← data_optional_epoch_seconds data "join_date";
    pnl ← find_field data "all_time_pnl";
    all_time_pnl ← match pnl with Some pnl => Some <$> parse_data_pnl_point pnl | None => Ok None end;
    Ok (Some (MkUserStats wallet traded_market_count biggest_win views join_date all_time_pnl data)).

Definition intervals : list string := ["max"; "all"; "1m"; "1w"; "1d"; "12h"; "6h"].
Definition fidelities : list string := ["1d"; "18h"; "12h"; "3h"; "1h"].

Definition parse_data_pnl_series (body : string) : res DataPnlSeries :=
  parsed ← parse_json body;
  data ← envelope_object parsed;
  wallet ← field_required_string data "proxy_wallet";
  interval ← data_choice data "interval" intervals "max, all, 1m, 1w, 1d, 12h or 6h";
  fidelity ← data_choice data "fidelity" fidelities "1d, 18h, 12h, 3h or 1h";
  source_fidelity ← data_choice data "source_fidelity" fidelities "1d, 18h, 12h, 3h or 1h";
  points ← required_array data "points";
  points ← parse_each parse_data_pnl_point points;
  Ok (MkPnlSeries wallet interval fidelity source_fidelity points).

(** ** Resolutions *)

(** 69 is how the oracle says that there is no price. *)
Definition oracle_price (item : json) (key : string) : res (option double) :=
  value ← find_field item key;
  match value with
  | Some value => if is_number 69 value || is_text "69" value then Ok None else field_number item key
  | None => field_number item key
  end.

Definition log_index (item : json) (key : string) : res (option Z) :=
  value ← find_field item key;
  match value with
  | None => Ok None
  | Some (JString "") => Ok None
  | Some (JString text) =>
      if (18 <? Z.of_nat (length (chars text))) || not_a_numeral text then throw_bad_field key "an integer"
      else Ok (Some (decimal_val (chars text)))
  | Some _ => field_integer item key
  end.

Definition million : double := of_Z binary64 1000000.

Definition payouts (item : json) : res (option (double * double)) :=
  value ← find_field item "payouts";
  match value with
  | None => Ok None
  | Some (JArray [first; second]) =>
      let pair := JObject [("0", first); ("1", second)] in
      first ← field_number pair "0";
      second ← field_number pair "1";
      match first, second with
      | Some x, Some y =>
          if is_finite x && is_finite y then Ok (Some (fdiv binary64 x million, fdiv binary64 y million))
          else throw_bad_field "payouts" "a pair of finite amounts"
      | _, _ => throw_bad_field "payouts" "a pair of finite amounts"
      end
  | Some _ => throw_bad_field "payouts" "a payout pair"
  end.

Definition resolution_states : list string :=
  ["initialized"; "posed"; "proposed"; "challenged"; "reproposed"; "disputed"; "active"; "arbitration"; "resolved"].
Definition time_bases : list string := ["managed_proposal_expiration"; "proposal_expiration"; "liveness"; "dvm_round_estimate"].
Definition market_types : list string := ["BINARY"; "INCREMENTAL_NEGRISK"; "ATOMIC_NEGRISK"].
Definition resolution_sources : list string := ["reported"; "derived"].
Definition reporters : list string := ["UMA_OO"; "CHAINLINK"; "EOA"].

Definition parse_data_resolution (item : json) : res DataResolution :=
  question_id ← field_string item "question_id";
  condition_id ← field_hex item "condition_id";
  status ← data_choice item "status" resolution_states "a resolution status";
  extended_review ← data_required_bool item "extended_review";
  expected_settlement_time ← data_optional_epoch_or_iso item "expected_settlement_time";
  settlement_time_basis ← data_optional_choice item "settlement_time_basis" time_bases "a settlement time basis";
  was_disputed ← data_required_bool item "was_disputed";
  question_rules_updated ← data_required_bool item "new_version_q";
  proposed_price ← oracle_price item "proposed_price";
  reproposed_price ← oracle_price item "reproposed_price";
  price ← oracle_price item "price";
  transaction_hash ← field_string item "transaction_hash";
  index ← log_index item "log_index";
  last_updated_at ← data_epoch_or_iso item "last_update_timestamp";
  market_type ← data_optional_choice item "market_type" market_types "a market type";
  paid ← payouts item;
  resolution_source ← data_optional_choice item "resolution_source" resolution_sources "reported or derived";
  reporter ← data_optional_choice item "reporter" reporters "UMA_OO, CHAINLINK or EOA";
  was_arbitrated ← field_bool item "was_arbitrated";
  resolved_block ← field_integer item "resolved_block";
  resolved_at ← data_optional_epoch_or_iso item "resolved_at";
  Ok (MkResolution question_id condition_id status extended_review expected_settlement_time settlement_time_basis was_disputed
        question_rules_updated proposed_price reproposed_price price transaction_hash index last_updated_at market_type paid
        resolution_source reporter was_arbitrated resolved_block resolved_at item).

Definition parse_data_resolutions (body : string) : res (list DataResolution) :=
  parsed ← parse_json body; items ← envelope_list parsed; parse_each parse_data_resolution items.
End Parsing.

(** ** What the rows hold *)

Record position_ok (item : json) (p : DataPosition) : Prop := {
  position_condition : is_hex_text (p_condition_id p) = true;
  position_status : p_status p ∈ position_states;
  position_amounts : Forall (λ x, is_finite x = true)
    [p_current_size p; p_avg_price p; p_entry_cost_usdc p; p_entry_fees_usdc p; p_total_cost_usdc p; p_current_price p;
     p_current_value p; p_total_size p; p_realized_pnl p; p_unrealized_pnl p; p_total_pnl p; p_percent_pnl p;
     p_percent_realized_pnl p];
  position_outcome : ∀ i, p_outcome_index p = Some i → i ≠ 999 ∧ -2147483648 ≤ i ≤ 2147483647;
  position_event : p_event_id p ≠ "0";
  position_end : p_end_date p = "" ∨ p_end_date p ≠ "1970-01-01" ∧ date_shape (chars (p_end_date p)) = true;
  position_raw : p_raw p = item }.

Record resolution_ok (item : json) (r : DataResolution) : Prop := {
  resolution_condition : r_condition_id r = "" ∨ is_hex_text (r_condition_id r) = true;
  resolution_status : r_status r ∈ resolution_states;
  resolution_basis : r_settlement_time_basis r ∈ "" :: time_bases;
  resolution_type : r_market_type r ∈ "" :: market_types;
  resolution_source_known : r_resolution_source r ∈ "" :: resolution_sources;
  resolution_reporter : r_reporter r ∈ "" :: reporters;
  resolution_index : ∀ i, r_log_index r = Some i → i ≤ int64_max;
  resolution_raw : r_raw r = item }.

Section Rows.
Context `{JsonLibrary, JsonRuntime}.

Lemma data_choice_ok item key choices expected text : data_choice item key choices expected = Ok text → text ∈ choices.
Proof. unfold data_choice. intros Hx. apply bind_Ok in Hx as (s & _ & Hx). case_if; [|done]. injection Hx as ->. by bools. Qed.

Lemma data_optional_choice_ok item key choices expected text :
  data_optional_choice item key choices expected = Ok text → text ∈ "" :: choices.
Proof.
  unfold data_optional_choice. intros Hx. apply bind_Ok in Hx as ([v|] & _ & Hx).
  - right. by eapply data_choice_ok.
  - injection Hx as <-. left.
Qed.

Lemma event_id_ok item key id : event_id item key = Ok id → id ≠ "0".
Proof. unfold event_id. intros Hx. apply bind_Ok in Hx as (t & _ & Hx). injection Hx as <-. by case_bool_decide. Qed.

Lemma calendar_date_ok item key date :
  calendar_date item key = Ok date → date = "" ∨ date ≠ "1970-01-01" ∧ date_shape (chars date) = true.
Proof.
  unfold calendar_date. intros Hx. apply bind_Ok in Hx as (t & _ & Hx). destruct (_ || _) eqn:E.
  - injection Hx as <-. by left.
  - case_if; [|done]. injection Hx as <-. bools. by right.
Qed.

Lemma field_hex_ok item key text : field_hex item key = Ok text → text = "" ∨ is_hex_text text = true.
Proof.
  unfold field_hex. intros Hx. apply bind_Ok in Hx as (t & _ & Hx). case_if; [injection Hx as <-; bools; by left|].
  case_if; [|done]. injection Hx as <-. by right.
Qed.

(** Eighteen digits fit. *)
Lemma log_index_ok item key i : log_index item key = Ok (Some i) → i ≤ int64_max.
Proof.
  unfold log_index. intros Hx. apply bind_Ok in Hx as (v & Hv & Hx).
  assert (Hf : field_integer item key = Ok (Some i) → i ≤ int64_max).
  { unfold field_integer. intros Hi. apply bind_Ok in Hi as ([[]|] & _ & Hi); try done. case_if; [done|].
    injection Hi as <-. bools. lia. }
  destruct v as [v|]; [|done]. destruct v as [| | | |text| |]; try by apply Hf.
  destruct text as [|c text]; [done|]. destruct (_ || _) eqn:E; [done|]. injection Hx as <-. bools.
  unfold not_a_numeral in *. bools.
  match goal with E : all_decimal _ = true |- _ => pose proof (decimal_val_bounds _ E) as [_ B] end.
  assert (10 ^ Z.of_nat (length (chars (String c text))) ≤ 10 ^ 18) by (apply Z.pow_le_mono_r; lia).
  change (decimal_val (chars (String c text)) ≤ 10 ^ 18 + 8223372036854775807). lia.
Qed.

Lemma parse_data_position_ok item p : parse_data_position item = Ok p → position_ok item p.
Proof.
  unfold parse_data_position. intros Hp.
  repeat match type of Hp with (_ ≫= _) = _ => apply bind_Ok in Hp as (? & ? & Hp) end.
  injection Hp as <-. constructor; cbn [p_condition_id p_status p_outcome_index p_event_id p_end_date p_raw
    p_current_size p_avg_price p_entry_cost_usdc p_entry_fees_usdc p_total_cost_usdc p_current_price
     p_current_value p_total_size p_realized_pnl p_unrealized_pnl p_total_pnl p_percent_pnl
     p_percent_realized_pnl].
  - by eapply data_required_hex_ok.
  - by eapply data_choice_ok.
  - repeat (constructor; [by eapply data_required_number_finite|]). constructor.
  - intros i ->. by eapply data_outcome_index_ok.
  - by eapply event_id_ok.
  - by eapply calendar_date_ok.
  - done.
Qed.

Lemma parse_data_resolution_ok item r : parse_data_resolution item = Ok r → resolution_ok item r.
Proof.
  unfold parse_data_resolution. intros Hr.
  repeat match type of Hr with (_ ≫= _) = _ => apply bind_Ok in Hr as (? & ? & Hr) end.
  injection Hr as <-. constructor; cbn [r_condition_id r_status r_settlement_time_basis r_market_type r_resolution_source
    r_reporter r_log_index r_raw]; try by eapply data_optional_choice_ok.
  - by eapply field_hex_ok.
  - by eapply data_choice_ok.
  - intros i ->. by eapply log_index_ok.
  - done.
Qed.

(** Every row of an answer is well formed, in the order of the answer. *)
Lemma parse_data_position_page_ok body page :
  parse_data_position_page body = Ok page →
  ∃ parsed items next, parse_json body = Ok parsed ∧ data_page_items parsed = Ok (items, next) ∧
    Forall2 position_ok items (page_items page) ∧ next_cursor page = next.
Proof.
  unfold parse_data_position_page, data_page. intros Hp. apply bind_Ok in Hp as (parsed & Hparsed & Hp).
  apply bind_Ok in Hp as ([items next] & Hitems & Hp). apply bind_Ok in Hp as (rows & Hr & Hp). injection Hp as <-.
  exists parsed, items, next. split_and!; try done. cbn.
  eapply (parse_each_Ok position_ok); [apply parse_data_position_ok|done].
Qed.

Lemma parse_data_resolutions_ok body rows :
  parse_data_resolutions body = Ok rows →
  ∃ parsed items, parse_json body = Ok parsed ∧ envelope_list parsed = Ok items ∧ Forall2 resolution_ok items rows.
Proof.
  unfold parse_data_resolutions. intros Hp. apply bind_Ok in Hp as (parsed & Hparsed & Hp).
  apply bind_Ok in Hp as (items & Hitems & Hp). exists parsed, items. split_and!; try done.
  eapply (parse_each_Ok resolution_ok); [apply parse_data_resolution_ok|done].
Qed.

(** A series names one of the intervals and of the resolutions the API has. *)
Lemma parse_data_pnl_series_ok body series :
  parse_data_pnl_series body = Ok series →
  ps_interval series ∈ intervals ∧ ps_fidelity series ∈ fidelities ∧ ps_source_fidelity series ∈ fidelities.
Proof.
  unfold parse_data_pnl_series. intros Hp.
  repeat match type of Hp with (_ ≫= _) = _ => apply bind_Ok in Hp as (? & ? & Hp) end.
  injection Hp as <-. cbn. split_and!; by eapply data_choice_ok.
Qed.
End Rows.
