(* ===== verification/DataQueries.v ===== *)
(** * Queries of the Data API
    (src/data_query.cpp, data_portfolio_query.cpp, data_analytics_query.cpp,
    data_leaderboard_query.cpp)

    The checks of the arguments, in the order the code makes them, and the query
    each request sends. *)
From Stdlib Require Import Ascii String Floats.SpecFloat.
From S2P Require Import Prelude Text Float64 EvmBytes EvmAbi Sdk PositionCalls Query.

#[local] Open Scope Z_scope.

(** ** Filters *)

Record DataTradeFilter := MkTradeFilter {
  tf_user : string; tf_condition_ids : list string; tf_event_ids : list Z; tf_side : string;
  tf_taker_only : option bool; tf_filter_type : string; tf_filter_amount : option double;
  tf_start : option Z; tf_end : option Z; tf_full_history : bool }.

Record DataActivityFilter := MkActivityFilter {
  af_condition_ids : list string; af_event_ids : list Z; af_types : list string; af_side : string;
  af_sort_direction : string; af_start : option Z; af_end : option Z; af_full_history : bool }.

Record DataPositionFilter := MkPositionFilter {
  pf_user : string; pf_condition_ids : list string; pf_event_ids : list Z; pf_status : string;
  pf_title : string; pf_filter_type : string; pf_filter_amount : option double;
  pf_include_archived : option bool; pf_sort_by : string; pf_sort_direction : string;
  pf_start : option Z; pf_end : option Z }.

Record DataTimeRange := MkTimeRange { tr_start : option Z; tr_end : option Z; tr_full_history : bool }.

Record DataHolderFilter := MkHolderFilter { hf_min_balance : option double; hf_include_pnl : option bool }.

Record DataPriceHistoryFilter := MkPriceHistoryFilter {
  ph_interval : string; ph_start : option Z; ph_end : option Z; ph_as_of : option Z;
  ph_bucket_seconds : option Z }.

Record DataResolutionFilter := MkResolutionFilter {
  rf_question_id : string; rf_condition_ids : list string; rf_event_ids : list Z }.

Record DataLeaderboardFilter := MkLeaderboardFilter { lf_category : string; lf_window : string; lf_sort_by : string }.

(** ** Checks *)

Definition max_epoch_seconds : Z := 253402300799.
Definition max_condition_ids : nat := 20.

Definition is_hex (value : string) : bool :=
  let cs := chars value in
  (2 <? Z.of_nat (length cs)) && bool_decide (take 2 cs = chars "0x") && forallb is_xdigit (drop 2 cs).

(** [std::tolower] over a text. *)
Definition lowered (value : string) : string := str (map tolower (chars value)).

Fixpoint distinct_ids (normalize : string → res string) (values : list string) (unique : list string) : res (list string) :=
  match values with
  | [] => Ok unique
  | value :: values =>
      require (is_hex value) (invalid_argument "condition_id must be a hex string");;
      id ← normalize value;
      distinct_ids normalize values
        (if bool_decide (lowered id ∈ lowered <$> unique) then unique else unique ++ [id])
  end.

Definition distinct_condition_ids (normalize : string → res string) (values : list string) : res (list string) :=
  unique ← distinct_ids normalize values [];
  require (bool_decide (length unique ≤ max_condition_ids)%nat)
    (invalid_argument "condition_id accepts at most 20 distinct values");;
  Ok unique.

Definition data_check_selectors (condition_ids : list string) (event_ids : list Z) : res unit :=
  require (bool_decide (condition_ids = []) || bool_decide (event_ids = []))
    (invalid_argument "Provide condition_id or event_id, not both").

Definition data_require_user (user : string) : res unit :=
  require (negb (bool_decide (user = ""))) (invalid_argument "user is required").

Definition data_timestamp (value : option Z) : res (option Z) :=
  require (match value with Some t => (0 <? t) && (t <=? max_epoch_seconds) | None => true end)
    (invalid_argument "Timestamp must be positive and no later than 9999-12-31T23:59:59Z");;
  Ok value.

Definition data_check_amount (name : string) (value : option double) : res unit :=
  require (match value with Some x => is_finite x && negb (flt x fzero) | None => true end)
    (invalid_argument (name +:+ " must be a finite non-negative amount")).

Definition size (value : string) : nat := length (chars value).

Definition keep_id (value : string) : res string :=
  require (bool_decide (size value = 64%nat) || bool_decide (size value = 66%nat))
    (invalid_argument ("Expected a 31-byte or 32-byte hex string, received: " +:+ value));;
  Ok value.

Definition data_condition_ids (values : list string) : res (list string) := distinct_condition_ids keep_id values.

Definition market_id (value : string) : res string :=
  let id := lowered value in
  let id := if bool_decide (size id = 64%nat) &&
               (bool_decide (take 4 (chars id) = chars "0x01") || bool_decide (take 4 (chars id) = chars "0x02"))
            then id +:+ "00" else id in
  require (bool_decide (size id = 66%nat))
    (invalid_argument "Expected a 32-byte condition ID or a 31-byte structural market ID");;
  Ok id.

Definition data_market_condition_ids (values : list string) : res (list string) :=
  distinct_condition_ids market_id values.

Fixpoint distinct_events (values unique : list Z) : res (list Z) :=
  match values with
  | [] => Ok unique
  | value :: values =>
      require ((0 <? value) && (value <=? 2147483647))
        (invalid_argument "event_ids must contain positive 32-bit integers");;
      distinct_events values (if bool_decide (value ∈ unique) then unique else unique ++ [value])
  end.

Definition data_event_ids (values : list Z) : res (list Z) := distinct_events values [].

Definition data_time_window (start end_ : option Z) (full_history : bool) : res (option Z * option Z) :=
  if full_history then
    require (bool_decide (start = None) && bool_decide (end_ = None))
      (invalid_argument "full_history cannot be combined with start or end");;
    Ok (Some 1, None)
  else
    start ← data_timestamp start;
    end_ ← data_timestamp end_;
    Ok (start, end_).

(** [title.find_first_not_of] and the count of the bytes that begin a character. *)
Definition is_blank (c : ascii) : bool :=
  bool_decide (c = " "%char) || ((9 <=? code c) && (code c <=? 13)).
Definition begins_character (c : ascii) : bool := negb (Z.land (code c) 192 =? 128).

Definition checked_title (title : string) : res string :=
  if forallb is_blank (chars title) then Ok "" else
  require (bool_decide (length (List.filter begins_character (chars title)) ≤ 200)%nat)
    (invalid_argument "title must contain at most 200 characters");;
  Ok title.

(** ** Requests *)

Section Requests.
Context `{JsonLibrary}.

Definition data_trade_query (filter : DataTradeFilter) : res string :=
  check_choice "side" (tf_side filter) ["BUY"; "SELL"];;
  check_choice "filter_type" (tf_filter_type filter) ["CASH"; "TOKENS"];;
  data_check_selectors (tf_condition_ids filter) (tf_event_ids filter);;
  event_ids ← data_event_ids (tf_event_ids filter);
  condition_ids ← data_condition_ids (tf_condition_ids filter);
  window ← data_time_window (tf_start filter) (tf_end filter) (tf_full_history filter);
  data_check_amount "filter_amount" (tf_filter_amount filter);;
  build
    [("user", PText (tf_user filter)); ("condition_id", PJoined condition_ids); ("event_id", PJoinedIntegers event_ids);
     ("side", PText (tf_side filter)); ("taker_only", PBool (tf_taker_only filter));
     ("filter_type", PText (tf_filter_type filter)); ("filter_amount", PDouble (tf_filter_amount filter));
     ("start", PInteger window.1); ("end", PInteger window.2)].

Definition activity_types : list string :=
  ["TRADE"; "SPLIT"; "MERGE"; "REDEEM"; "REWARD"; "CONVERSION"; "MIGRATION"; "DEPOSIT"; "WITHDRAWAL"; "YIELD";
   "MAKER_REBATE"; "TAKER_REBATE"; "REFERRAL_REWARD"; "TIP"].

Fixpoint check_types (types : list string) : res unit :=
  match types with
  | [] => Ok tt
  | type :: types =>
      require (negb (bool_decide (type = ""))) (invalid_argument "activity_types cannot contain an empty type");;
      check_choice "activity_types" type activity_types;;
      check_types types
  end.

Definition data_activity_query (user : string) (filter : DataActivityFilter) : res string :=
  check_choice "side" (af_side filter) ["BUY"; "SELL"];;
  check_choice "sort_direction" (af_sort_direction filter) ["ASC"; "DESC"];;
  data_require_user user;;
  data_check_selectors (af_condition_ids filter) (af_event_ids filter);;
  event_ids ← data_event_ids (af_event_ids filter);
  condition_ids ← data_condition_ids (af_condition_ids filter);
  window ← data_time_window (af_start filter) (af_end filter) (af_full_history filter);
  check_types (af_types filter);;
  build
    [("user", PText user); ("condition_id", PJoined condition_ids); ("event_id", PJoinedIntegers event_ids);
     ("type", PJoined (af_types filter)); ("side", PText (af_side filter));
     ("sort_direction", PText (af_sort_direction filter)); ("start", PInteger window.1); ("end", PInteger window.2);
     ("exclude_deposits_withdrawals", PBool (Some false))].

Definition data_position_query (filter : DataPositionFilter) : res string :=
  check_choice "status" (pf_status filter) ["OPEN"; "REDEEMABLE"; "REDEEMABLE_LOST"; "MERGEABLE"; "CLOSED"];;
  check_choice "filter_type" (pf_filter_type filter) ["CASH"; "TOKENS"];;
  check_choice "sort_by" (pf_sort_by filter)
    ["CURRENT_VALUE"; "PRICE"; "TOKENS"; "UNREALIZED_PNL"; "REALIZED_PNL"; "TOTAL_PNL"; "TIMESTAMP"];;
  check_choice "sort_direction" (pf_sort_direction filter) ["ASC"; "DESC"];;
  data_check_selectors (pf_condition_ids filter) (pf_event_ids filter);;
  event_ids ← data_event_ids (pf_event_ids filter);
  condition_ids ← data_market_condition_ids (pf_condition_ids filter);
  start ← data_timestamp (pf_start filter);
  end_ ← data_timestamp (pf_end filter);
  let has_user := negb (bool_decide (pf_user filter = "")) in
  require (has_user || bool_decide (length condition_ids = 1%nat))
    (invalid_argument "Provide user or exactly one condition_id");;
  require (bool_decide (event_ids = []) || has_user) (invalid_argument "event_id requires user");;
  require (negb ((bool_decide (pf_status filter = "REDEEMABLE_LOST") || bool_decide (pf_status filter = "MERGEABLE")) &&
                 negb has_user))
    (invalid_argument (pf_status filter +:+ " requires user"));;
  require (negb (bool_decide (pf_status filter = "CLOSED") && default false (pf_include_archived filter)))
    (invalid_argument "include_archived is invalid with CLOSED");;
  data_check_amount "filter_amount" (pf_filter_amount filter);;
  title ← checked_title (pf_title filter);
  build
    [("user", PText (pf_user filter)); ("condition_id", PJoined condition_ids); ("status", PText (pf_status filter));
     ("event_id", PJoinedIntegers event_ids); ("title", PText title); ("filter_type", PText (pf_filter_type filter));
     ("filter_amount", PDouble (pf_filter_amount filter)); ("include_archived", PBool (pf_include_archived filter));
     ("sort_by", PText (pf_sort_by filter)); ("sort_direction", PText (pf_sort_direction filter));
     ("start", PInteger start); ("end", PInteger end_)].

Definition data_portfolio_value_query (user : string) (condition_ids : list string) : res string :=
  data_require_user user;;
  ids ← data_market_condition_ids condition_ids;
  build [("user", PText user); ("condition_id", PJoined ids)].

Definition data_user_query (user : string) : res string :=
  data_require_user user;; build [("user", PText user)].

Definition data_user_pnl_query (user interval fidelity : string) : res string :=
  check_choice "interval" interval ["max"; "all"; "1m"; "1w"; "1d"; "12h"; "6h"];;
  check_choice "fidelity" fidelity ["1d"; "18h"; "12h"; "3h"; "1h"];;
  data_require_user user;;
  build [("user", PText user); ("interval", PText interval); ("fidelity", PText fidelity)].

Definition data_user_volume_query (user : string) (range : DataTimeRange) : res string :=
  data_require_user user;;
  window ← data_time_window (tr_start range) (tr_end range) (tr_full_history range);
  build [("user", PText user); ("start", PInteger window.1); ("end", PInteger window.2)].

(** ** Analytics *)

Definition data_holders_query (condition_ids : list string) (filter : DataHolderFilter) : res string :=
  conditions ← data_market_condition_ids condition_ids;
  require (negb (bool_decide (conditions = []))) (invalid_argument "condition_ids is required");;
  data_check_amount "min_balance" (hf_min_balance filter);;
  require (negb (default false (hf_include_pnl filter) && negb (bool_decide (length conditions = 1%nat))))
    (invalid_argument "include_pnl requires exactly one condition");;
  build [("condition_id", PJoined conditions); ("min_balance", PDouble (hf_min_balance filter));
         ("include_pnl", PBool (hf_include_pnl filter))].

Definition data_open_interest_query (condition_ids : list string) : res string :=
  ids ← data_market_condition_ids condition_ids; build [("condition_id", PJoined ids)].

Definition data_live_volume_query (event_ids : list Z) : res string :=
  events ← data_event_ids event_ids;
  require (negb (bool_decide (events = []))) (invalid_argument "event_ids is required");;
  build [("event_id", PJoinedIntegers events)].

Definition max_price_window_seconds : Z := 15 * 86400.
Definition data_price_history_page_size : Z := 10000.

Definition count_selectors (selectors : list bool) : nat := length (List.filter id selectors).

Definition minimum_bucket (interval : string) : Z :=
  if bool_decide (interval = "max") || bool_decide (interval = "all") || bool_decide (interval = "1m") then 600
  else if bool_decide (interval = "1w") then 300 else 60.

Definition data_price_history_query (asset_id : string) (filter : DataPriceHistoryFilter) (page_size now : Z) : res string :=
  check_choice "interval" (ph_interval filter) ["max"; "all"; "1m"; "1w"; "1d"; "6h"; "1h"];;
  require (negb (bool_decide (asset_id = ""))) (invalid_argument "asset_id must be a non-empty string");;
  require (bool_decide (count_selectors
      [negb (bool_decide (ph_interval filter = "")); bool_decide (is_Some (ph_start filter));
       bool_decide (is_Some (ph_as_of filter))] = 1%nat))
    (invalid_argument "Provide exactly one of interval, start, or as_of");;
  require (negb (bool_decide (is_Some (ph_end filter)) && bool_decide (ph_start filter = None)))
    (invalid_argument "end requires start");;
  start ← data_timestamp (ph_start filter);
  end_ ← data_timestamp (ph_end filter);
  as_of ← data_timestamp (ph_as_of filter);
  match start with
  | Some start =>
      let until := default now end_ in
      require (negb ((until <? start) || (max_price_window_seconds <? until - start)))
        (invalid_argument "Price history windows must not end before start or exceed 15 days")
  | None => Ok tt
  end;;
  require (negb (bool_decide (is_Some as_of) &&
                 (bool_decide (is_Some (ph_bucket_seconds filter)) || negb (page_size =? data_price_history_page_size))))
    (invalid_argument "as_of forbids bucket_seconds and page_size");;
  match ph_bucket_seconds filter with
  | Some bucket =>
      require (negb ((bucket <? minimum_bucket (ph_interval filter)) || (86400 <? bucket)))
        (invalid_argument ("bucket_seconds must be between " +:+ to_string (minimum_bucket (ph_interval filter)) +:+
                           " and 86400"))
  | None => Ok tt
  end;;
  build
    [("token_id", PText asset_id); ("interval", PText (ph_interval filter)); ("start", PInteger start);
     ("end", PInteger end_); ("as_of", PInteger as_of); ("bucket_seconds", PInteger (ph_bucket_seconds filter))].

Definition data_resolution_query (filter : DataResolutionFilter) : res string :=
  require (bool_decide (count_selectors
      [negb (bool_decide (rf_question_id filter = "")); negb (bool_decide (rf_condition_ids filter = []));
       negb (bool_decide (rf_event_ids filter = []))] = 1%nat))
    (invalid_argument "Provide exactly one of question_id, condition_ids, or event_ids");;
  conditions ← data_market_condition_ids (rf_condition_ids filter);
  events ← data_event_ids (rf_event_ids filter);
  require (bool_decide (length events ≤ 20)%nat) (invalid_argument "event_ids accepts at most 20 distinct values");;
  build [("question_id", PText (rf_question_id filter)); ("condition_id", PJoined conditions);
         ("event_id", PJoinedIntegers events)].

(** ** Leaderboards *)

Definition check_window (filter : DataLeaderboardFilter) : res unit :=
  check_choice "window" (lf_window filter) ["day"; "week"; "month"; "all"].

Definition reject_sort (filter : DataLeaderboardFilter) : res unit :=
  require (bool_decide (lf_sort_by filter = "")) (invalid_argument "sort_by applies only to the trader leaderboard").

Definition data_trader_leaderboard_query (filter : DataLeaderboardFilter) : res string :=
  check_window filter;;
  check_choice "sort_by" (lf_sort_by filter) ["PNL"; "VOLUME"];;
  build [("category", PText (lf_category filter)); ("time_period", PText (lf_window filter));
         ("sort_by", PText (lf_sort_by filter))].

Definition data_trader_standing_query (user : string) (filter : DataLeaderboardFilter) : res string :=
  check_window filter;; data_require_user user;; reject_sort filter;;
  build [("user", PText user); ("category", PText (lf_category filter)); ("time_period", PText (lf_window filter))].

Definition data_biggest_winners_query (filter : DataLeaderboardFilter) : res string :=
  check_window filter;; reject_sort filter;;
  build [("category", PText (lf_category filter)); ("time_period", PText (lf_window filter))].
End Requests.

(** ** The ids of a query *)

(** What the accepted ids are of the values given. *)
Record distinct_of (normalize : string → res string) (values unique : list string) : Prop := {
  distinct_keys : NoDup (lowered <$> unique);
  distinct_from id : id ∈ unique → ∃ value, value ∈ values ∧ is_hex value = true ∧ normalize value = Ok id;
  distinct_all value : value ∈ values → ∃ id, normalize value = Ok id ∧ lowered id ∈ lowered <$> unique }.

Lemma distinct_ids_spec normalize values done_ unique unique' :
  distinct_of normalize done_ unique → distinct_ids normalize values unique = Ok unique' →
  distinct_of normalize (done_ ++ values) unique'.
Proof.
  revert done_ unique. induction values as [|value values IH]; intros done_ unique Hd; cbn; intros Hr; res_inv;
    [by rewrite app_nil_r|].
  rewrite cons_middle, app_assoc. eapply IH; [|done]. destruct Hd as [Hk Hf Ha]. case_bool_decide as Hin.
  - split; [done|..].
    + intros id (v & Hv & ?)%Hf. exists v. split; [apply elem_of_app; by left|done].
    + intros v Hv. apply elem_of_app in Hv as [Hv|Hv]; [by apply Ha|]. apply list_elem_of_singleton in Hv as ->. eauto.
  - split.
    + rewrite fmap_app. apply NoDup_app. split; [done|]. split; [set_solver|apply NoDup_singleton].
    + intros id Hid. apply elem_of_app in Hid as [(v & Hv & ?)%Hf|Hid].
      * exists v. split; [apply elem_of_app; by left|done].
      * apply list_elem_of_singleton in Hid as ->. exists value. split; [set_solver|done].
    + intros v Hv. rewrite fmap_app. apply elem_of_app in Hv as [(id & ? & ?)%Ha|Hv].
      * exists id. split; [done|]. apply elem_of_app. by left.
      * apply list_elem_of_singleton in Hv as ->. eexists. split; [done|]. set_solver.
Qed.

Lemma distinct_condition_ids_spec normalize values unique :
  distinct_condition_ids normalize values = Ok unique →
  distinct_of normalize values unique ∧ (length unique ≤ max_condition_ids)%nat.
Proof.
  unfold distinct_condition_ids. intros. res_inv. bools. split; [|done].
  apply (distinct_ids_spec normalize values [] []); [|done]. split; [constructor|set_solver..].
Qed.

Record distinct_events_of (values unique : list Z) : Prop := {
  events_once : NoDup unique;
  events_same z : z ∈ unique ↔ z ∈ values;
  events_range z : z ∈ unique → 0 < z ≤ 2147483647 }.

Lemma distinct_events_spec values done_ unique unique' :
  distinct_events_of done_ unique → distinct_events values unique = Ok unique' →
  distinct_events_of (done_ ++ values) unique'.
Proof.
  revert done_ unique. induction values as [|value values IH]; intros done_ unique Hd; cbn; intros Hr; res_inv;
    [by rewrite app_nil_r|].
  rewrite cons_middle, app_assoc. eapply IH; [|done]. destruct Hd as [Hn Hs Hr']. bools. case_bool_decide as Hin.
  - split; [done| |done]. intros z. rewrite elem_of_app, list_elem_of_singleton, <- Hs. naive_solver.
  - split.
    + apply NoDup_app. split; [done|]. split; [set_solver|apply NoDup_singleton].
    + intros z. rewrite !elem_of_app, Hs. done.
    + intros z Hz. apply elem_of_app in Hz as [Hz|Hz]; [by apply Hr'|]. apply list_elem_of_singleton in Hz as ->. done.
Qed.

Lemma data_event_ids_spec values unique : data_event_ids values = Ok unique → distinct_events_of values unique.
Proof. intros H. apply (distinct_events_spec values [] []); [|done]. split; [constructor|done|set_solver]. Qed.

Lemma lowered_idem s : lowered (lowered s) = lowered s.
Proof.
  unfold lowered, chars, str. rewrite list_ascii_of_string_of_list_ascii, map_map. f_equal. apply map_ext, tolower_idem.
Qed.

Lemma lowered_app s t : lowered (s +:+ t) = lowered s +:+ lowered t.
Proof. unfold lowered. by rewrite chars_app, map_app, str_app. Qed.

(** A market id is 32 bytes of lower-case hexadecimal. *)
Lemma market_id_form value id : market_id value = Ok id → size id = 66%nat ∧ lowered id = id.
Proof.
  unfold market_id. intros. res_inv. bools. split; [done|].
  destruct (_ && _); [rewrite lowered_app|]; by rewrite lowered_idem.
Qed.

Lemma distinct_market_ids values ids :
  data_market_condition_ids values = Ok ids →
  NoDup ids ∧ (length ids ≤ max_condition_ids)%nat ∧ Forall (λ id, size id = 66%nat ∧ lowered id = id) ids ∧
  (∀ id, id ∈ ids ↔ ∃ value, value ∈ values ∧ market_id value = Ok id).
Proof.
  intros [[Hk Hf Ha] Hl]%distinct_condition_ids_spec.
  assert (Hform : ∀ id, id ∈ ids → size id = 66%nat ∧ lowered id = id)
    by (intros id (v & _ & _ & Hv)%Hf; by eapply market_id_form).
  split; [by eapply NoDup_fmap_1|]. split; [done|]. split; [by apply Forall_forall|]. intros id. split.
  - intros (v & Hv & _ & E)%Hf. eauto.
  - intros (v & Hv & E). destruct (Ha v Hv) as (id' & E' & Hin). rewrite E in E'. injection E' as <-.
    apply list_elem_of_fmap in Hin as (id' & Eid & Hin). destruct (Hform _ Hin) as [_ Hl'].
    destruct (market_id_form _ _ E) as [_ Hl'']. congruence.
Qed.

(** Every refusal of a check is an [invalid_argument]. *)
Definition invalid {A} (m : res A) : Prop := ∀ e, m = Throw e → ∃ what, e = invalid_argument what.

Lemma invalid_ok {A} (a : A) : invalid (Ok a).
Proof. by intros e. Qed.
Lemma invalid_require b what : invalid (require b (invalid_argument what)).
Proof. destruct b; intros e He; [done|]. injection He as <-. eauto. Qed.
Lemma invalid_bind {A B} (m : res A) (f : A → res B) : invalid m → (∀ a, invalid (f a)) → invalid (m ≫= f).
Proof. destruct m; cbn; intros Hm Hf e' He; [by eapply Hf|]. injection He as <-. by apply Hm. Qed.
Create HintDb invalid.
#[local] Hint Resolve invalid_ok invalid_require invalid_bind : invalid.

Lemma invalid_ids normalize values unique : (∀ v, invalid (normalize v)) → invalid (distinct_ids normalize values unique).
Proof.
  intros Hn. revert unique. induction values as [|v values IH]; intros unique; cbn; auto with invalid.
Qed.
Lemma invalid_market_ids values : invalid (data_market_condition_ids values).
Proof.
  apply invalid_bind; [apply invalid_ids; intros v; unfold market_id; auto with invalid|auto with invalid].
Qed.
Lemma invalid_events values : invalid (data_event_ids values).
Proof. unfold data_event_ids. generalize (@nil Z). induction values; intros u; cbn; auto with invalid. Qed.
#[local] Hint Resolve invalid_market_ids invalid_events : invalid.

Lemma timestamp_Ok v v' : data_timestamp v = Ok v' → v' = v ∧ ∀ t, v = Some t → 0 < t ≤ max_epoch_seconds.
Proof.
  unfold data_timestamp. intros. res_inv. split; [done|]. intros t ->. bools. done.
Qed.

Lemma amount_Ok name v : data_check_amount name v = Ok tt → ∀ x, v = Some x → is_finite x = true ∧ flt x fzero = false.
Proof. unfold data_check_amount. intros H%require_Ok x ->. bools. done. Qed.

Lemma selectors_Ok cs es : data_check_selectors cs es = Ok tt → cs = [] ∨ es = [].
Proof. unfold data_check_selectors. intros H%require_Ok. by bools. Qed.

Lemma title_Ok title t : checked_title title = Ok t → t = title ∨ t = "".
Proof. unfold checked_title. case_if; intros; res_inv; auto. Qed.

Lemma invalid_choice name value choices : invalid (check_choice name value choices).
Proof. apply invalid_require. Qed.
Lemma invalid_timestamp v : invalid (data_timestamp v).
Proof. apply invalid_bind; auto with invalid. Qed.
Lemma invalid_amount name v : invalid (data_check_amount name v).
Proof. apply invalid_require. Qed.
Lemma invalid_title t : invalid (checked_title t).
Proof. unfold checked_title. case_if; auto with invalid. Qed.
Lemma invalid_selectors c e : invalid (data_check_selectors c e).
Proof. apply invalid_require. Qed.
#[local] Hint Resolve invalid_choice invalid_timestamp invalid_amount invalid_title invalid_selectors : invalid.

Section Position.
Context `{JsonLibrary}.

Lemma invalid_build params : invalid (build params).
Proof.
  intros e He. pose proof (add_all_pairs "" params) as Hb. unfold build in He. rewrite He in Hb. naive_solver.
Qed.

(** The parameters of an accepted position query. *)
Definition position_params (f : DataPositionFilter) (ids : list string) (events : list Z) (title : string) :
    list (string * param) :=
  [("user", PText (pf_user f)); ("condition_id", PJoined ids); ("status", PText (pf_status f));
   ("event_id", PJoinedIntegers events); ("title", PText title); ("filter_type", PText (pf_filter_type f));
   ("filter_amount", PDouble (pf_filter_amount f)); ("include_archived", PBool (pf_include_archived f));
   ("sort_by", PText (pf_sort_by f)); ("sort_direction", PText (pf_sort_direction f));
   ("start", PInteger (pf_start f)); ("end", PInteger (pf_end f))].

(** The query of a position request is checked before it is sent.  When the filter is accepted, the query reads back
    as its parameters, with the market ids in their 32-byte lower-case form, each one once and at most 20, and exactly
    those of the filter; the event ids likewise positive, of 32 bits, once each; not both; for a user or, without one,
    for exactly one market and no event; an amount that is finite and not negative and times within the documented
    range.  Every refusal is an [invalid_argument]. *)
Lemma position_query_checked f :
  (∀ query, data_position_query f = Ok query →
    ∃ ids events title,
      read_query query = Some (pairs_of (position_params f ids events title)) ∧
      NoDup ids ∧ (length ids ≤ 20)%nat ∧ Forall (λ id, size id = 66%nat ∧ lowered id = id) ids ∧
      (∀ id, id ∈ ids ↔ ∃ value, value ∈ pf_condition_ids f ∧ market_id value = Ok id) ∧
      distinct_events_of (pf_event_ids f) events ∧ (ids = [] ∨ events = []) ∧ (title = pf_title f ∨ title = "") ∧
      (pf_user f ≠ "" ∨ (length ids = 1%nat ∧ events = [])) ∧
      (∀ x, pf_filter_amount f = Some x → is_finite x = true ∧ flt x fzero = false) ∧
      (∀ t, pf_start f = Some t ∨ pf_end f = Some t → 0 < t ≤ 253402300799)) ∧
  invalid (data_position_query f).
Proof.
  split.
  - unfold data_position_query. intros query Hq. res_inv.
    match goal with
    | HA : data_timestamp (pf_start f) = Ok _, HB : data_timestamp (pf_end f) = Ok _ |- _ =>
        apply timestamp_Ok in HA as [-> Hstart], HB as [-> Hend]
    end.
    match goal with Hi : data_market_condition_ids _ = Ok ?a, He : data_event_ids _ = Ok ?b, Ht : checked_title _ = Ok ?c |- _ =>
      rename a into i; rename b into es; rename c into t; exists i, es, t; destruct (distinct_market_ids _ _ Hi) as (Hn & Hl & Hf & Hin); apply data_event_ids_spec in He as Hev;
      apply title_Ok in Ht
    end.
    assert (Hread : ∀ ps, forallb (λ p, clean_key p.1) ps = true → build ps = Ok query → read_query query = Some (pairs_of ps))
      by (intros ps Hk Hb; pose proof (query_read_back ps Hk) as Hr; rewrite Hb in Hr; apply Hr).
    repeat match goal with
    | Hc : data_check_selectors _ _ = Ok ?u |- _ => destruct u; apply selectors_Ok in Hc
    | Ha : data_check_amount _ _ = Ok ?u |- _ => destruct u; pose proof (amount_Ok _ _ Ha); clear Ha
    end. bools.
    split_and!; try done.
    + by apply Hread.
    + match goal with Hs : pf_condition_ids f = [] ∨ _ |- _ => destruct Hs as [Es|Es]; rewrite Es in * end.
      * left. destruct i as [|id ids]; [done|]. destruct (proj1 (Hin id)) as (? & ? & _); set_solver.
      * right. destruct es as [|z es]; [done|]. destruct Hev as [_ Hsame _]. specialize (Hsame z). set_solver.
    + destruct (decide (pf_user f = "")); naive_solver.
    + intros u [Hu|Hu]; [by apply Hstart|by apply Hend].
  - unfold data_position_query. cbv zeta. repeat first [apply invalid_build|apply invalid_bind; [auto with invalid|intros ?]].
Qed.
End Position.

(** A filter without a user, for one structural market. *)
Definition structural_id : string := "0x01" +:+ str (repeat "A"%char 60).
Definition sample_filter : DataPositionFilter :=
  MkPositionFilter "" [structural_id] [] "OPEN" "  " "" None None "" "" (Some 5) None.

Definition structural_market : string := "0x01" +:+ str (repeat "a"%char 60) +:+ "00".
Definition sample_query : string := "?condition_id=" +:+ structural_market +:+ "&status=OPEN&start=5".

Lemma position_query_checked_witness :
  @data_position_query plain_library sample_filter = Ok sample_query ∧
  ∃ ids, NoDup ids ∧ length ids = 1%nat ∧ structural_market ∈ ids.
Proof.
  assert (E : @data_position_query plain_library sample_filter = Ok sample_query) by (by vm_compute).
  split; [exact E|].
  destruct (proj1 (@position_query_checked plain_library sample_filter) sample_query E)
    as (ids & events & title & _ & Hn & _ & _ & Hids & _ & _ & _ & Hone & _).
  exists ids. split; [done|]. destruct Hone as [Hu|[Hone _]]; [done|]. split; [done|].
  apply Hids. exists structural_id. split; [by left|by vm_compute].
Defined.
