(* ===== verification/DataClient.v ===== *)
(** * The Data API client
    (src/data_client.cpp, data_portfolio_client.cpp, data_analytics_client.cpp,
    data_leaderboard_client.cpp)

    The listings and the single requests of [DataClient]: the queries of
    [DataQueries], the paging of [RestPaging] and the parsers of [DataParsing]
    and [DataPortfolio], put together as the client does.  The server answers after
    the paths requested so far. *)
From Stdlib Require Import Ascii String Floats.SpecFloat.
From S2P Require Import Prelude Text Float64 Sdk RestParsing Pagination Query RestPaging JsonFields DataParsing DataPortfolio DataQueries.

#[local] Open Scope Z_scope.

Section Client.
Context `{JsonLibrary, DateReader, Server, JsonRuntime}.

Definition data_max_page_size : Z := 1000.
Definition max_pnl_holders_page_size : Z := 100.

(** ** Listings *)

Definition trades_pager (filter : DataTradeFilter) (page_size : Z) (resume : PageRequest) : res (Pager DataTrade) :=
  cursor_pager "/v2/trades" page_size data_max_page_size resume (data_trade_query filter) parse_data_trade_page.

Definition activity_pager (user : string) (filter : DataActivityFilter) (page_size : Z) (resume : PageRequest) :
    res (Pager DataActivity) :=
  cursor_pager "/v2/activity" page_size data_max_page_size resume (data_activity_query user filter)
    parse_data_activity_page.

Definition trader_leaderboard_pager (filter : DataLeaderboardFilter) (page_size : Z) (resume : PageRequest) :
    res (Pager DataTraderEntry) :=
  cursor_pager "/v2/leaderboard" page_size data_max_page_size resume (data_trader_leaderboard_query filter)
    parse_data_trader_leaderboard_page.

Definition biggest_winners_pager (filter : DataLeaderboardFilter) (page_size : Z) (resume : PageRequest) :
    res (Pager DataBiggestWinner) :=
  cursor_pager "/v2/biggest-winners" page_size data_max_page_size resume (data_biggest_winners_query filter)
    parse_data_biggest_winners_page.

Definition holders_pager (condition_ids : list string) (filter : DataHolderFilter) (page_size : Z) (resume : PageRequest) :
    res (Pager DataAssetHolders) :=
  let cap := if default false (hf_include_pnl filter) then max_pnl_holders_page_size else data_max_page_size in
  cursor_pager "/v2/holders" page_size cap resume (data_holders_query condition_ids filter) parse_data_holders_page.

(** [now_seconds] is the clock when the pager is made. *)
Definition price_history_pager (now_seconds : Z) (asset_id : string) (filter : DataPriceHistoryFilter) (page_size : Z)
    (resume : PageRequest) : res (Pager DataPricePoint) :=
  cursor_pager "/v2/prices-history" page_size data_price_history_page_size resume
    (data_price_history_query asset_id filter page_size now_seconds) parse_data_price_history_page.

Definition positions_pager (filter : DataPositionFilter) (page_size : Z) (resume : PageRequest) : res (Pager DataPosition) :=
  cursor_pager "/v2/positions" page_size data_max_page_size resume (data_position_query filter) parse_data_position_page.

(** ** Single requests *)

(** ["/path" + query] *)
Definition path_with (path : string) (query : res string) : res string := query ← query; Ok (path +:+ query).

Definition get_portfolio_value (user : string) (condition_ids : list string) (sent : list string) :
    res (list string * Result DataPortfolioValue) :=
  fetch_result (path_with "/v2/value" (data_portfolio_value_query user condition_ids)) parse_data_portfolio_value sent.

Definition get_user_stats (user : string) (sent : list string) : res (list string * Result (option DataUserStats)) :=
  fetch_result (path_with "/v2/user-stats" (data_user_query user)) parse_data_user_stats sent.

Definition get_user_pnl (user interval fidelity : string) (sent : list string) : res (list string * Result DataPnlSeries) :=
  fetch_result (path_with "/v2/user-pnl" (data_user_pnl_query user interval fidelity)) parse_data_pnl_series sent.

Definition get_resolutions (filter : DataResolutionFilter) (sent : list string) : res (list string * Result (list DataResolution)) :=
  fetch_result (path_with "/v2/resolutions" (data_resolution_query filter)) parse_data_resolutions sent.

Definition get_user_volume (user : string) (range : DataTimeRange) (sent : list string) :
    res (list string * Result DataUserVolume) :=
  fetch_result (path_with "/v2/user-volume" (data_user_volume_query user range)) parse_data_user_volume sent.

Definition download_accounting_snapshot (user : string) (sent : list string) : res (list string * Result string) :=
  fetch_result (path_with "/v1/accounting/snapshot" (data_user_query user)) Ok sent.

Definition get_trader_standing (user : string) (filter : DataLeaderboardFilter) (sent : list string) :
    res (list string * Result (option DataTraderStanding)) :=
  fetch_result (path_with "/v2/leaderboard" (data_trader_standing_query user filter)) parse_data_trader_standing sent.

Definition get_open_interests (condition_ids : list string) (sent : list string) :
    res (list string * Result (list DataOpenInterest)) :=
  fetch_result (path_with "/v2/oi" (data_open_interest_query condition_ids)) parse_data_open_interests sent.

Definition get_event_live_volume (event_ids : list Z) (sent : list string) :
    res (list string * Result DataLiveVolume) :=
  fetch_result (path_with "/v2/live-volume" (data_live_volume_query event_ids)) parse_data_live_volume sent.

(** ** The activity of a wallet *)

(** A query of activity asks for the wallet, and says not to leave out deposits. *)
Lemma activity_query_holds user filter query :
  data_activity_query user filter = Ok query →
  ∃ ps, query_holds query ps ∧ ("user", user) ∈ ps ∧ ("exclude_deposits_withdrawals", "false") ∈ ps.
Proof.
  unfold data_activity_query. intros Hq.
  apply bind_Ok in Hq as (? & _ & Hq). apply bind_Ok in Hq as (? & _ & Hq). apply bind_Ok in Hq as (u & Huser & Hq).
  apply bind_Ok in Hq as (? & _ & Hq). apply bind_Ok in Hq as (events & _ & Hq). apply bind_Ok in Hq as (conditions & _ & Hq).
  apply bind_Ok in Hq as ([start end_] & _ & Hq). apply bind_Ok in Hq as (? & _ & Hq).
  eexists. split; [by refine (query_holds_build _ _ _ Hq)|]. apply require_Ok in Huser. bools.
  unfold pairs_of. cbn [flat_map values_of fst snd fmap list_fmap]. rewrite bool_decide_eq_false_2 by done.
  split; [apply elem_of_app; left; set_solver|]. rewrite !elem_of_app. do 8 right. set_solver.
Qed.

(** The rows of a walk are rows of its pages. *)
Lemma walk_rows {T} (F : Fetch T) (P : T → Prop) start sent cursor items :
  (∀ sent r page, fetch sent r = success page → Forall P (page_items page)) →
  walk start sent cursor items → Forall P items.
Proof. intros HF. induction 1 as [|sent cursor items limit page Hw IH Hl Hf]; [done|]. apply Forall_app; eauto. Qed.

Lemma activity_answers_ok user filter page_size resume pager sent r page :
  activity_pager user filter page_size resume = Ok pager → @fetch _ (page_answer pager) sent r = success page →
  Forall (λ a, ∃ item, activity_ok item a) (page_items page).
Proof.
  unfold activity_pager, cursor_pager. intros Hp Hf. apply bind_Ok in Hp as ([query [e|]] & _ & Hp); injection Hp as <-; [done|].
  cbn in Hf. unfold fetch, fetched, rest_page in Hf. destruct (negb _); [done|].
  destruct (parse_data_activity_page _) as [pg|e] eqn:E; [|done]. injection Hf as <-.
  unfold parse_data_activity_page, data_page in E. apply bind_Ok in E as (parsed & _ & E).
  apply bind_Ok in E as ([items next] & _ & E). apply bind_Ok in E as (rows & Hr & E). injection E as <-.
  apply (parse_each_Ok activity_ok) in Hr; [|apply parse_data_activity_ok]. cbn [page_items].
  induction Hr as [|item row items rows Hok _ IH]; [done|]. constructor; [by exists item|done].
Qed.

(** The pairs the paths of an activity listing hold. *)
Definition asks_for (user : string) (ps : list (string * string)) : Prop :=
  ("user", user) ∈ ps ∧ ("exclude_deposits_withdrawals", "false") ∈ ps.

(** C37: The activity of a wallet, page by page.  Whatever the server answers, a filter or a page size that is refused
    makes [collect] fail with InvalidArgument and its reason, before anything is sent.  Otherwise [collect] returns
    within 1001 rounds; every path it sends reads back as the endpoint with a query that asks for the wallet, the page
    size and the cursor the page before it came with; it returns, in order, the first [max_items] rows of the pages up
    to the last one, each of them well formed; and an error is the error of a page, a repeated cursor or the thousandth
    page. *)
Theorem activity_listing_sound user filter page_size resume max_items :
  0 ≤ page_size → r_exhausted resume = false → 0 < max_items →
  match checked_query page_size data_max_page_size (data_activity_query user filter) with
  | Throw e =>
      if is_invalid_argument e then
        ∃ pager p q,
          activity_pager user filter page_size resume = Ok pager ∧ pages pager = Ok p ∧
          (∀ fuel, (1000 < fuel)%nat → @collect _ (page_answer pager) fuel max_items p =
             Some (q, failure (invalid_argument_error (what e) "/v2/activity"))) ∧
          paths_sent pager q = []
      else activity_pager user filter page_size resume = Throw e
  | Ok query =>
      ∃ pager ps p q r,
        activity_pager user filter page_size resume = Ok pager ∧ pages pager = Ok p ∧
        asks_for user ps ∧ (∀ fuel, (1000 < fuel)%nat → @collect _ (page_answer pager) fuel max_items p = Some (q, r)) ∧
        paths_read "/v2/activity" "cursor" page_size ps pager q ∧
        match r with
        | success kept =>
            walk_kept (page_answer pager) (r_cursor resume) max_items q kept ∧
            Forall (λ a, ∃ item, activity_ok item a) kept
        | failure e => ∃ items, @broken_walk _ (page_answer pager) (r_cursor resume) "/v2/activity" items (requests q) e
        end
  end.
Proof.
  intros Hsize Hx Hmax.
  pose proof (listing_walks parse_data_activity_page "/v2/activity" page_size data_max_page_size resume
    (data_activity_query user filter) max_items eq_refl Hsize Hx Hmax) as Hl.
  fold (activity_pager user filter page_size resume) in Hl.
  destruct (checked_query page_size data_max_page_size (data_activity_query user filter)) as [query|e] eqn:Ec.
  - apply checked_query_Ok in Ec. destruct (activity_query_holds _ _ _ Ec) as (ps & Hps & Hasks).
    destruct Hl as (pager & ps' & p & q & r & Hpager & Hp & Hps' & Hrun & Hpaths & Hr).
    { intros query' Hq. destruct (activity_query_holds _ _ _ Hq) as (? & ? & _). by eexists. }
    rewrite (query_holds_unique _ _ _ Hps' Hps) in Hpaths. exists pager, ps, p, q, r. split_and!; try done.
    destruct r as [kept|e]; [|done]. split; [done|]. destruct Hr as (sent & cursor & items & Hw & _ & -> & _).
    apply Forall_take. eapply walk_rows; [|done]. intros. by eapply activity_answers_ok.
  - destruct (is_invalid_argument e); apply Hl; intros q Hq; destruct (activity_query_holds _ _ _ Hq) as (ps & Hps & _); by exists ps.
Qed.
End Client.

(** ** Witness: a wallet whose three rows are on two pages. *)

Definition page_of (rows : list json) (next : json) : json :=
  JObject [("data", JArray rows);
           ("pagination", JObject [("has_more", JBool (negb (is_null next))); ("next_cursor", next)])].
Definition two_pages : JsonLibrary :=
  {| json_parse text :=
       Some (if bool_decide (text = "first") then page_of (take 2 sample_rows) (JString "c 2")
             else page_of (drop 2 sample_rows) JNull);
     json_dump _ := "" |}.
Definition two_page_server : Server :=
  {| respond sent _ := MkResponse 200 (match sent with [] => "first" | _ => "second" end) "" ∅; unix_now _ := 0 |}.
Definition no_dates : DateReader := λ _, None.

#[local] Existing Instance two_pages.
#[local] Existing Instance two_page_server.
#[local] Existing Instance no_dates.
#[local] Existing Instance sample_runtime.

Definition any_activity : DataActivityFilter := MkActivityFilter [] [] [] "" "" None None false.
Definition from_start : PageRequest := MkRequest "" 0 0 0 false.

(** The paths sent and the kinds collected. *)
Definition activity_run (user : string) (page_size max_items : Z) : option (list string * list string) :=
  match activity_pager user any_activity page_size from_start with
  | Ok pager =>
      match pages pager with
      | Ok p =>
          match @collect _ (page_answer pager) 1001 max_items p with
          | Some (q, success kept) => Some (paths_sent pager q, da_type <$> kept)
          | Some (q, failure e) => Some (paths_sent pager q, [message e])
          | None => None
          end
      | Throw _ => None
      end
  | Throw _ => None
  end.

Lemma activity_listing_sound_witness :
  activity_run "0xw" 2 100 =
    Some (["/v2/activity?user=0xw&exclude_deposits_withdrawals=false&limit=2";
           "/v2/activity?user=0xw&exclude_deposits_withdrawals=false&limit=2&cursor=c%202"], ["TRADE"; "TIP"; "AIRDROP"]) ∧
  activity_run "0xw" 5000 100 = Some ([], ["page_size must be between 1 and 1000"]) ∧
  ∃ pager p, activity_pager "0xw" any_activity 2 from_start = Ok pager ∧ pages pager = Ok p ∧
    ∃ q r, ∀ fuel, (1000 < fuel)%nat → @collect _ (page_answer pager) fuel 100 p = Some (q, r).
Proof.
  split; [by vm_compute|]. split; [by vm_compute|].
  pose proof (activity_listing_sound "0xw" any_activity 2 from_start 100 ltac:(lia) eq_refl ltac:(lia)) as Hl.
  destruct (checked_query 2 data_max_page_size (data_activity_query "0xw" any_activity)) as [query|e] eqn:E;
    [|by vm_compute in E].
  destruct Hl as (pager & ps & p & q & r & Hpager & Hp & _ & Hrun & _). exists pager, p.
  split; [done|]. split; [done|]. by exists q, r.
Defined.
