(* ===== verification/Positions.v ===== *)
(** * Approvals and merges against the token standards
    (src/approval_calls.cpp, position_calls.cpp, trading_approvals.cpp,
    position_client.cpp)

    What the calls of [PositionCalls] do on a [TokenChain]: the grants for the
    missing trading approvals complete them and change nothing else, and a merge
    asks for what the wallet holds. *)
From Stdlib Require Import Ascii String.
From S2P Require Import Prelude Text EvmBytes Crypto EvmAbi PositionCalls.

#[local] Open Scope Z_scope.

(** ** Approvals *)

Definition hex_address (text : string) : list Z :=
  match from_hex text with Ok bytes => bytes | Throw _ => [] end.
Definition amount_value (text : string) : Z :=
  match parse_uint256_word text with Ok word => word_val word | Throw _ => 0 end.

Definition valid_erc20 (a : Erc20TradingApproval) : Prop :=
  names_address (token_address a) (hex_address (token_address a)) ∧
  names_address (spender a) (hex_address (spender a)) ∧
  denotes (approval_amount a) (amount_value (approval_amount a)).
Definition valid_erc1155 (a : Erc1155TradingApproval) : Prop :=
  names_address (token1155_address a) (hex_address (token1155_address a)) ∧
  names_address (operator_address a) (hex_address (operator_address a)).

Definition erc20_key (owner : list Z) (a : Erc20TradingApproval) : list Z * list Z * list Z :=
  (hex_address (token_address a), owner, hex_address (spender a)).
Definition erc1155_key (owner : list Z) (a : Erc1155TradingApproval) : list Z * list Z * list Z :=
  (hex_address (token1155_address a), owner, hex_address (operator_address a)).

(** What an owner still lacks in a state. *)
Definition lacks_erc20 (st : TokenChain) (owner : list Z) (a : Erc20TradingApproval) : Prop :=
  allowance st (erc20_key owner a) < amount_value (approval_amount a).
Definition lacks_erc1155 (st : TokenChain) (owner : list Z) (a : Erc1155TradingApproval) : Prop :=
  erc1155_key owner a ∉ operators st.

#[export] Instance lacks_erc20_dec st owner a : Decision (lacks_erc20 st owner a).
Proof. unfold lacks_erc20. apply _. Defined.
#[export] Instance lacks_erc1155_dec st owner a : Decision (lacks_erc1155 st owner a).
Proof. unfold lacks_erc1155. apply _. Defined.

(** The effect of one grant. *)
Definition grant_erc20 (owner : list Z) (st : TokenChain) (a : Erc20TradingApproval) : TokenChain :=
  MkTokens (<[erc20_key owner a := amount_value (approval_amount a)]> (allowances st))
    (operators st) (balances st).
Definition grant_erc1155 (owner : list Z) (st : TokenChain) (a : Erc1155TradingApproval) : TokenChain :=
  MkTokens (allowances st) (operators st ∪ {[erc1155_key owner a]}) (balances st).

(** A word in an answer is read as its number. *)
Lemma decode_word_result n context :
  0 ≤ n < 2 ^ 256 → decode_uint256_result (to_hex (word_of n)) context = Ok (to_string n).
Proof.
  intros Hn. unfold decode_uint256_result, single_word.
  rewrite (data_words_text _ 1) by (by rewrite word_of_length).
  rewrite <- (app_nil_r (hex_chars _)), chunks_word. cbn [chunks mbind res_bind].
  destruct (word_text_val n Hn) as [Hv Hl]. destruct (word_decimals _ _ Hv Hl) as [Hu _].
  change (evm_uint_word_to_decimal (word_text n)) with
    (evm_uint_word_to_decimal ("0" :: "x" :: hex_chars (word_of n))%char).
  by rewrite Hu.
Qed.

Section Approvals.
Context {K : Keccak} {TS : TokenSelectors}.
Implicit Types (st : TokenChain) (owner : list Z).

Lemma reads_distinct :
  selector "allowance(address,address)" ≠ selector "isApprovedForAll(address,address)" ∧
  selector "allowance(address,address)" ≠ selector "balanceOfBatch(address[],uint256[])" ∧
  selector "isApprovedForAll(address,address)" ≠ selector "balanceOfBatch(address[],uint256[])".
Proof using TS.
  pose proof reads_differ as HR. cbn [fmap list_fmap] in HR.
  apply NoDup_cons in HR as (R1 & (R2 & _)%NoDup_cons). set_solver.
Qed.

Lemma read_allowance st text owner a :
  names_address text owner → valid_erc20 a →
  ∃ call, erc20_allowance_call (token_address a) text (spender a) = Ok call ∧
    node_of st call = Ok (to_hex (word_of (allowance st (erc20_key owner a)))).
Proof using TS.
  intros Ho (Ht & Hs & _). unfold erc20_allowance_call.
  rewrite (address_named _ _ Ho), (address_named _ _ Hs). cbn [mbind res_bind].
  eexists. split; [done|]. unfold node_of, answer_call.
  destruct Ho as (_ & Bo & Lo), Ht as (Ht & _), Hs as (_ & Bs & Ls).
  destruct (address_word_wf _ Bo Lo) as (? & ? & Eo), (address_word_wf _ Bs Ls) as (? & ? & Es).
  rewrite (calldata_call _ _ _ _ Ht) by (by apply two_word_values).
  cbn [mbind option_bind].
  destruct reads_distinct as (R1 & R2 & R3).
  rewrite (decide_False (P := _ = _)) by done.
  rewrite decode_two_words, decide_True by done. unfold erc20_key. by rewrite Eo, Es.
Qed.

Lemma read_operator st text owner a :
  names_address text owner → valid_erc1155 a →
  ∃ call, erc1155_is_approved_for_all_call (token1155_address a) text (operator_address a) = Ok call ∧
    node_of st call =
      Ok (to_hex (word_of (if bool_decide (erc1155_key owner a ∈ operators st) then 1 else 0))).
Proof using TS.
  intros Ho (Ht & Hs). unfold erc1155_is_approved_for_all_call.
  rewrite (address_named _ _ Ho), (address_named _ _ Hs). cbn [mbind res_bind].
  eexists. split; [done|]. unfold node_of, answer_call.
  destruct Ho as (_ & Bo & Lo), Ht as (Ht & _), Hs as (_ & Bs & Ls).
  destruct (address_word_wf _ Bo Lo) as (? & ? & Eo), (address_word_wf _ Bs Ls) as (? & ? & Es).
  rewrite (calldata_call _ _ _ _ Ht) by (by apply two_word_values).
  cbn [mbind option_bind].
  destruct reads_distinct as (R1 & R2 & R3).
  rewrite (decide_False (P := _ = _)) by done.
  rewrite decode_two_words, decide_False, decide_True by done. unfold erc1155_key. by rewrite Eo, Es.
Qed.

Lemma run_approve st owner a :
  valid_erc20 a →
  ∃ call, erc20_approve_call (token_address a) (spender a) (approval_amount a) = Ok call ∧
    execute_call owner call st = Some (grant_erc20 owner st a).
Proof using Type.
  intros (Ht & Hs & Ha). unfold erc20_approve_call. rewrite (denotes_amount _ _ _ Ha).
  destruct (denotes_word _ _ Ha) as (Bn & _ & ->). rewrite (address_named _ _ Hs). cbn [mbind res_bind].
  eexists. split; [done|]. unfold execute_call.
  destruct Ht as (Ht & _), Hs as (_ & Bs & Ls). destruct (address_word_wf _ Bs Ls) as (? & ? & Es).
  rewrite (calldata_call _ _ _ _ Ht) by (apply two_word_values; auto using word_of_bytes).
  cbn [mbind option_bind]. rewrite decode_two_words, decide_True by (done || apply word_of_length).
  unfold grant_erc20, erc20_key. by rewrite Es, word_val_of.
Qed.

Lemma run_set_approval st owner a :
  valid_erc1155 a →
  ∃ call, erc1155_set_approval_for_all_call (token1155_address a) (operator_address a) true = Ok call ∧
    execute_call owner call st = Some (grant_erc1155 owner st a).
Proof using TS.
  intros (Ht & Hs). unfold erc1155_set_approval_for_all_call.
  rewrite (address_named _ _ Hs). cbn [mbind res_bind].
  assert (boolean true = Ok (Word (word_of 1))) as -> by (by vm_compute). cbn [mbind res_bind].
  eexists. split; [done|]. unfold execute_call.
  destruct Ht as (Ht & _), Hs as (_ & Bs & Ls). destruct (address_word_wf _ Bs Ls) as (? & ? & Es).
  rewrite (calldata_call _ _ _ _ Ht) by (apply two_word_values; auto using word_of_bytes).
  cbn [mbind option_bind]. rewrite decode_two_words by (done || apply word_of_length).
  rewrite decide_False by (apply not_eq_sym, writes_differ). rewrite decide_True by done.
  unfold grant_erc1155, erc1155_key. rewrite Es, word_val_of by lia. done.
Qed.

(** *** Reading *)

Definition allowance_result st owner (a : Erc20TradingApproval) : string :=
  to_hex (word_of (allowance st (erc20_key owner a))).
Definition operator_result st owner (a : Erc1155TradingApproval) : string :=
  to_hex (word_of (if bool_decide (erc1155_key owner a ∈ operators st) then 1 else 0)).

Lemma eth_calls_app node calls1 calls2 r1 r2 :
  eth_calls node calls1 = Ok r1 → eth_calls node calls2 = Ok r2 →
  eth_calls node (calls1 ++ calls2) = Ok (r1 ++ r2).
Proof using Type.
  intros H1 H2. revert r1 H1. induction calls1 as [|c calls IH]; intros r1 H1.
  { by injection H1 as <-. }
  cbn [eth_calls app] in *. apply bind_Ok in H1 as (r & -> & H1). apply bind_Ok in H1 as (rs & Hrs & [= <-]).
  cbn [mbind res_bind]. by rewrite (IH _ Hrs).
Qed.

Lemma read_allowances st text owner required :
  names_address text owner → Forall valid_erc20 required →
  ∃ calls, allowance_calls required text = Ok calls ∧
    eth_calls (node_of st) calls = Ok (map (allowance_result st owner) required).
Proof using TS.
  intros Ho. induction 1 as [|a required Ha _ (calls & Hc & He)]; [by exists []|].
  destruct (read_allowance st _ _ _ Ho Ha) as (call & Hcall & Hr). exists (call :: calls).
  cbn [allowance_calls eth_calls map]. rewrite Hcall, Hc, Hr. cbn [mbind res_bind]. by rewrite He.
Qed.

Lemma read_operators st text owner required :
  names_address text owner → Forall valid_erc1155 required →
  ∃ calls, operator_calls required text = Ok calls ∧
    eth_calls (node_of st) calls = Ok (map (operator_result st owner) required).
Proof using TS.
  intros Ho. induction 1 as [|a required Ha _ (calls & Hc & He)]; [by exists []|].
  destruct (read_operator st _ _ _ Ho Ha) as (call & Hcall & Hr). exists (call :: calls).
  cbn [operator_calls eth_calls map]. rewrite Hcall, Hc, Hr. cbn [mbind res_bind]. by rewrite He.
Qed.

Lemma missing_erc20_spec st owner required rest :
  uint256_storage st → Forall valid_erc20 required →
  missing_erc20 required (map (allowance_result st owner) required ++ rest) =
    Ok (filter (lacks_erc20 st owner) required).
Proof using Type.
  intros [Hst _]. induction 1 as [|a required Ha _ IH]; [done|]. cbn [missing_erc20 map app head tail].
  specialize (Hst (erc20_key owner a)). cbn [default from_option id].
  rewrite (decode_word_result _ _ Hst : decode_uint256_result (allowance_result st owner a) _ = _).
  cbn [mbind res_bind].
  destruct (denotes_word _ _ (denotes_decimal _ Hst)) as (_ & -> & _). cbn [mbind res_bind].
  destruct Ha as (_ & _ & Ha). destruct (denotes_word _ _ Ha) as (Bn & _ & _).
  rewrite (denotes_amount _ _ _ Ha). cbn [mbind res_bind]. rewrite IH, words_ltb by done.
  cbn [mbind res_bind]. rewrite filter_cons. unfold lacks_erc20 at 3.
  destruct (Z.ltb_spec (allowance st (erc20_key owner a)) (amount_value (approval_amount a)));
    destruct (decide _); try done; lia.
Qed.

Lemma decode_operator_result st owner a context :
  decode_bool_result (operator_result st owner a) context =
    Ok (bool_decide (erc1155_key owner a ∈ operators st)).
Proof using Type.
  unfold decode_bool_result, operator_result.
  rewrite decode_word_result by (case_bool_decide; lia). by case_bool_decide.
Qed.

Lemma missing_erc1155_spec st owner required rest :
  Forall valid_erc1155 required →
  missing_erc1155 required (map (operator_result st owner) required ++ rest) =
    Ok (filter (lacks_erc1155 st owner) required).
Proof using Type.
  induction 1 as [|a required Ha _ IH]; [done|]. cbn [missing_erc1155 map app head tail default from_option id].
  rewrite decode_operator_result. cbn [mbind res_bind]. rewrite IH. cbn [mbind res_bind].
  rewrite filter_cons. case_bool_decide as Hin.
  - by rewrite decide_False by (intros H; exact (H Hin)).
  - by rewrite decide_True by exact Hin.
Qed.

(** What the check reports: exactly what the owner lacks. *)
Lemma approvals_read st text owner required :
  uint256_storage st → names_address text owner →
  Forall valid_erc20 (erc20 required) → Forall valid_erc1155 (erc1155 required) →
  ∃ calls results, trading_approval_check_calls required text = Ok calls ∧
    eth_calls (node_of st) calls = Ok results ∧
    trading_approvals_state_from_results required results =
      Ok (let lacking := MkApprovals (filter (lacks_erc20 st owner) (erc20 required))
                           (filter (lacks_erc1155 st owner) (erc1155 required)) in
          MkApprovalsState lacking (approvals_empty lacking)).
Proof using TS.
  intros Hst Ho H20 H1155.
  destruct (read_allowances st _ _ _ Ho H20) as (c1 & Hc1 & Hr1).
  destruct (read_operators st _ _ _ Ho H1155) as (c2 & Hc2 & Hr2).
  eexists (c1 ++ c2), _. unfold trading_approval_check_calls. rewrite Hc1, Hc2.
  split; [done|]. split; [by apply eth_calls_app|].
  unfold trading_approvals_state_from_results.
  rewrite length_app, !length_map, bool_decide_true by done. cbn [require mbind res_bind].
  rewrite missing_erc20_spec by done. cbn [mbind res_bind].
  rewrite drop_app_length' by (by rewrite length_map). rewrite <- (app_nil_r (map (operator_result _ _) _)).
  by rewrite missing_erc1155_spec.
Qed.

(** *** Granting *)

Lemma run_calls_app owner calls1 calls2 st st1 :
  run_calls owner calls1 st = Some st1 → run_calls owner (calls1 ++ calls2) st = run_calls owner calls2 st1.
Proof using Type. unfold run_calls. rewrite foldl_app. by intros ->. Qed.

Lemma run_calls_cons owner call calls st st1 :
  execute_call owner call st = Some st1 → run_calls owner (call :: calls) st = run_calls owner calls st1.
Proof using Type. unfold run_calls. cbn [foldl mbind option_bind]. by intros ->. Qed.

Lemma run_approves st owner missing :
  Forall valid_erc20 missing →
  ∃ calls, approve_calls missing = Ok calls ∧ length calls = length missing ∧
    run_calls owner calls st = Some (foldl (grant_erc20 owner) st missing).
Proof using Type.
  intros H. revert st. induction H as [|a missing Ha _ IH]; intros st; [by exists []|].
  destruct (run_approve st owner a Ha) as (call & Hc & Hr).
  destruct (IH (grant_erc20 owner st a)) as (calls & Hcs & Hl & Hrs). exists (call :: calls).
  cbn [approve_calls length foldl]. rewrite Hc, Hcs, (run_calls_cons _ _ _ _ _ Hr). auto.
Qed.

Lemma run_set_approvals st owner missing :
  Forall valid_erc1155 missing →
  ∃ calls, set_approval_calls missing = Ok calls ∧ length calls = length missing ∧
    run_calls owner calls st = Some (foldl (grant_erc1155 owner) st missing).
Proof using TS.
  intros H. revert st. induction H as [|a missing Ha _ IH]; intros st; [by exists []|].
  destruct (run_set_approval st owner a Ha) as (call & Hc & Hr).
  destruct (IH (grant_erc1155 owner st a)) as (calls & Hcs & Hl & Hrs). exists (call :: calls).
  cbn [set_approval_calls length foldl]. rewrite Hc, Hcs, (run_calls_cons _ _ _ _ _ Hr). auto.
Qed.
End Approvals.


(** A grant changes the allowance of its key only; where all grants of a key give
    one amount, their order does not matter. *)
Lemma grants_erc20 owner grants st key amount :
  (∀ a, a ∈ grants → erc20_key owner a = key → amount_value (approval_amount a) = amount) →
  allowance (foldl (grant_erc20 owner) st grants) key =
    if decide (key ∈ map (erc20_key owner) grants) then amount else allowance st key.
Proof.
  revert st. induction grants as [|a grants IH]; intros st Ha; cbn [foldl map].
  { by rewrite decide_False by set_solver. }
  rewrite IH by set_solver. destruct (decide (key ∈ map (erc20_key owner) grants)) as [Hin|Hin].
  { by rewrite decide_True by set_solver. }
  unfold allowance, grant_erc20. cbn [allowances]. destruct (decide (erc20_key owner a = key)) as [<-|Hne].
  - rewrite lookup_insert_eq, decide_True by set_solver. cbn. by apply Ha; [set_solver|].
  - by rewrite lookup_insert_ne, decide_False by set_solver.
Qed.

Lemma grants_erc20_frame owner grants st :
  operators (foldl (grant_erc20 owner) st grants) = operators st ∧
  balances (foldl (grant_erc20 owner) st grants) = balances st.
Proof. revert st. induction grants as [|a grants IH]; intros st; [done|]. apply (IH (grant_erc20 owner st a)). Qed.

Lemma grants_erc1155 owner grants st :
  allowances (foldl (grant_erc1155 owner) st grants) = allowances st ∧
  balances (foldl (grant_erc1155 owner) st grants) = balances st ∧
  operators (foldl (grant_erc1155 owner) st grants) =
    operators st ∪ list_to_set (map (erc1155_key owner) grants).
Proof.
  revert st. induction grants as [|a grants IH]; intros st; cbn [foldl map list_to_set].
  { split_and!; [done|done|set_solver]. }
  destruct (IH (grant_erc1155 owner st a)) as (-> & -> & ->). cbn [grant_erc1155 allowances operators balances].
  split_and!; [done|done|set_solver].
Qed.

Lemma Forall_filtered {A} (P Q : A → Prop) `{∀ x, Decision (P x)} l :
  Forall Q l → Forall Q (filter P l).
Proof. rewrite !Forall_forall. intros HQ x [_ Hx]%list_elem_of_filter. auto. Qed.

Lemma filter_none {A} (P : A → Prop) `{∀ x, Decision (P x)} l :
  (∀ x, x ∈ l → ¬ P x) → filter P l = [].
Proof.
  induction l as [|x l IH]; intros HP; [done|]. rewrite filter_cons, decide_False by (apply HP; set_solver).
  apply IH. set_solver.
Qed.

(** *** Validated texts are addresses *)

Lemma starts_0x_split cs : starts_0x cs = true → cs = ("0" :: "x" :: drop 2 cs)%char.
Proof. destruct cs as [|c [|x cs]]; try done. cbn. intros H. bools. by subst. Qed.

Lemma xdigits_value cs : forallb is_xdigit cs = true → ∃ v, hex_val cs = Some v.
Proof.
  induction cs as [|c cs IH]; [by eexists|]. cbn [forallb]. intros [Hc Hcs]%andb_true_iff.
  unfold is_xdigit in Hc. apply bool_decide_eq_true in Hc as [d Hd]. destruct (IH Hcs) as [w Hw].
  eexists. apply hex_val_cons. by exists d, w.
Qed.

Lemma hex_string_bytes value n :
  is_hex_string value (2 * n) = true →
  ∃ bytes, from_hex value = Ok bytes ∧ Forall is_byte bytes ∧ length bytes = n.
Proof.
  unfold is_hex_string. intros [Hx Hd]%andb_true_iff. apply andb_true_iff in Hx as [Hl Hx].
  apply bool_decide_eq_true in Hl. apply starts_0x_split in Hx. destruct (xdigits_value _ Hd) as [v Hv].
  set (ds := drop 2 (chars value)) in *.
  assert (length ds = 2 * n)%nat as Hds by (subst ds; rewrite length_drop; lia).
  assert (Nat.even (length ds) = true) as He by (rewrite Hds; apply even_double).
  destruct (hex_pairs_total _ ds v (le_n _) He Hv) as [bytes Hb].
  destruct (hex_pairs_Ok _ _ _ (le_n _) He Hb) as (Hf & Hlen & _).
  exists bytes. unfold from_hex, from_hex_chars. rewrite Hx. change (strip_0x _) with ds. cbv zeta.
  rewrite He. split_and!; [done|done|lia].
Qed.

Lemma require_address_named value label u :
  require_address value label = Ok u → names_address value (hex_address value).
Proof.
  intros H%require_Ok. destruct (hex_string_bytes value 20 H) as (bytes & E & Hb & Hl).
  unfold names_address, hex_address. by rewrite E.
Qed.

Lemma require_hex_bytes_named field value u :
  require_hex_bytes field value 20 = Ok u → names_address value (hex_address value).
Proof.
  unfold require_hex_bytes. destruct (starts_0x _); [|done]. unfold hex_bytes_size.
  destruct (from_hex value) as [bytes|[]] eqn:E; cbn [mbind res_bind]; try done.
  intros Hl%require_Ok. apply bool_decide_eq_true in Hl. unfold names_address, hex_address.
  rewrite E. split_and!; [done|by eapply hex_text_bytes|done].
Qed.

Lemma validate_addresses c :
  validate c = Ok tt → Forall (λ p, names_address p.2 (hex_address p.2)) (contract_addresses c).
Proof.
  unfold validate. intros (? & _ & H)%bind_Ok. apply bind_Ok in H as (? & H & _).
  revert H. induction (contract_addresses c) as [|[field value] fields IH]; intros H; constructor.
  - cbn [require_addresses] in H. apply bind_Ok in H as (? & H & _). by eapply require_hex_bytes_named.
  - cbn [require_addresses] in H. apply bind_Ok in H as (? & _ & H). by apply IH.
Qed.

Lemma max_uint256_denotes : denotes max_uint256 (2 ^ 256 - 1).
Proof. exists (word_of (2 ^ 256 - 1)). split; by vm_compute. Qed.

Lemma max_uint256_value : amount_value max_uint256 = 2 ^ 256 - 1.
Proof. by vm_compute. Qed.

Lemma required_valid c :
  validate c = Ok tt →
  Forall valid_erc20 (erc20 (required_trading_approvals c)) ∧
  Forall valid_erc1155 (erc1155 (required_trading_approvals c)).
Proof.
  intros H%validate_addresses. unfold contract_addresses in H.
  repeat match goal with
  | H : Forall _ (_ :: _) |- _ => apply Forall_cons in H; destruct H
  end. cbn [fst snd] in *.
  unfold required_trading_approvals, valid_erc20, valid_erc1155. cbn [erc20 erc1155 map app].
  split; repeat (constructor; [cbn; split_and!; try done; rewrite max_uint256_value;
    apply max_uint256_denotes|]); constructor.
Qed.

Section Granted.
Context {K : Keccak} {TS : TokenSelectors}.

(** The approvals an owner lacks, granted by the calls the client makes for them. *)
Lemma lacking_granted st text owner required :
  uint256_storage st → names_address text owner →
  Forall valid_erc20 (erc20 required) → Forall valid_erc1155 (erc1155 required) →
  let lacking := MkApprovals (filter (lacks_erc20 st owner) (erc20 required))
                   (filter (lacks_erc1155 st owner) (erc1155 required)) in
  ∃ calls, trading_approval_calls lacking = Ok calls ∧
    length calls = (length (erc20 lacking) + length (erc1155 lacking))%nat ∧
    run_calls owner calls st =
      Some (foldl (grant_erc1155 owner) (foldl (grant_erc20 owner) st (erc20 lacking)) (erc1155 lacking)).
Proof using TS.
  intros Hst Ho H20 H1155 lacking.
  assert (Forall valid_erc20 (erc20 lacking)) as L20 by (by apply Forall_filtered).
  assert (Forall valid_erc1155 (erc1155 lacking)) as L1155 by (by apply Forall_filtered).
  destruct (run_approves st owner _ L20) as (c1 & Hc1 & Hl1 & Hr1).
  destruct (run_set_approvals (foldl (grant_erc20 owner) st (erc20 lacking)) owner _ L1155)
    as (c2 & Hc2 & Hl2 & Hr2).
  exists (c1 ++ c2). unfold trading_approval_calls. rewrite Hc1, Hc2. split; [done|].
  split; [by rewrite length_app, Hl1, Hl2|]. by rewrite (run_calls_app _ _ _ _ _ Hr1).
Qed.
(** After the grants nothing is lacking, and only what was lacking has changed. *)
Lemma grants_complete st owner c :
  uint256_storage st →
  let required := required_trading_approvals c in
  let m20 := filter (lacks_erc20 st owner) (erc20 required) in
  let m1155 := filter (lacks_erc1155 st owner) (erc1155 required) in
  let st' := foldl (grant_erc1155 owner) (foldl (grant_erc20 owner) st m20) m1155 in
  uint256_storage st' ∧ balances st' = balances st ∧
  operators st' = operators st ∪ list_to_set (map (erc1155_key owner) m1155) ∧
  (∀ key, allowance st' key =
     if decide (key ∈ map (erc20_key owner) m20) then 2 ^ 256 - 1 else allowance st key) ∧
  filter (lacks_erc20 st' owner) (erc20 required) = [] ∧
  filter (lacks_erc1155 st' owner) (erc1155 required) = [].
Proof using Type.
  intros [Ha Hb] required m20 m1155 st'.
  assert (∀ a, a ∈ erc20 required → amount_value (approval_amount a) = 2 ^ 256 - 1) as Hmax.
  { intros a Hin. unfold required, required_trading_approvals in Hin. cbn [erc20] in Hin.
    apply list_elem_of_fmap in Hin as (s & -> & _). apply max_uint256_value. }
  destruct (grants_erc1155 owner m1155 (foldl (grant_erc20 owner) st m20)) as (E1 & E2 & E3).
  destruct (grants_erc20_frame owner m20 st) as [E4 E5]. fold st' in E1, E2, E3.
  rewrite E4 in E3. rewrite E5 in E2.
  assert (∀ key, allowance st' key =
     if decide (key ∈ map (erc20_key owner) m20) then 2 ^ 256 - 1 else allowance st key) as Hall.
  { intros key. unfold allowance at 1. rewrite E1. apply (grants_erc20 owner m20 st key (2 ^ 256 - 1)).
    intros a [_ Hin]%list_elem_of_filter _. by apply Hmax. }
  split_and!; try done.
  - split; intros key; [rewrite Hall; case_decide; [lia|done]|].
    unfold balance. rewrite E2. apply Hb.
  - apply filter_none. intros a Hin. unfold lacks_erc20. rewrite Hall, (Hmax a Hin).
    case_decide as Hm; [lia|]. intros Hlt. apply Hm, list_elem_of_fmap. exists a. split; [done|].
    apply list_elem_of_filter. split; [|done]. unfold lacks_erc20. by rewrite (Hmax a Hin).
  - apply filter_none. intros a Hin Hl. unfold lacks_erc1155 in Hl. rewrite E3 in Hl.
    apply not_elem_of_union in Hl as [Hl1 Hl2]. apply Hl2, elem_of_list_to_set, list_elem_of_fmap.
    exists a. split; [done|]. by apply list_elem_of_filter.
Qed.

End Granted.

(** ** Merging *)

Lemma hex_pairs_tolower n cs : (length cs ≤ n)%nat → hex_pairs (map tolower cs) = hex_pairs cs.
Proof.
  assert (∀ c, checked_nibble (tolower c) = checked_nibble c) as E.
  { intros c. unfold checked_nibble.
    pose proof (all_chars_spec (λ c, bool_decide (nibble (tolower c) = nibble c)) ltac:(by vm_compute) c) as H.
    cbv beta in H. apply bool_decide_eq_true in H. by rewrite H. }
  revert cs. induction n as [|n IH]; intros [|h [|l cs]] Hn; cbn in Hn; try done; try lia.
  cbn [map hex_pairs]. by rewrite !E, IH by lia.
Qed.

Lemma from_hex_normalized s : from_hex (evm_normalize_hex s) = from_hex s.
Proof.
  unfold from_hex, evm_normalize_hex. rewrite chars_str. unfold from_hex_chars.
  change (strip_0x ("0" :: "x" :: map tolower (strip_0x (chars s)))%char)
    with (map tolower (strip_0x (chars s))).
  cbv zeta. by rewrite length_map, (hex_pairs_tolower _ _ (le_n _)).
Qed.

Lemma uint_array_type ns :
  Z.of_nat (length ns) < 2 ^ 64 → has_type (TArray TWord) (uint_array ns) ∧ value_bytes (uint_array ns).
Proof.
  intros Hl. split; [by apply uint_array_typed|].
  cbn. apply values_bytes, Forall_map, Forall_forall. intros n _. apply word_of_bytes.
Qed.

(** Typed calldata reads back; shared by all calls. *)
Lemma decode_typed ts vs :
  Forall2 has_type ts vs → Z.of_nat (length (evm_abi_encode vs)) < 2 ^ 64 →
  abi_decode ts (evm_abi_encode vs) = Some vs.
Proof.
  intros Ht Hl. rewrite <- (app_nil_r (evm_abi_encode vs)). apply read_members; [|done].
  clear Hl. induction Ht; constructor; auto using read_type_reads.
Qed.

Lemma uint_arrays_length arrays :
  length (evm_abi_encode (map uint_array arrays)) =
    foldr (λ ns n, (64 + 32 * length ns + n)%nat) O arrays.
Proof.
  unfold evm_abi_encode. rewrite append_sequence_length.
  induction arrays as [|ns arrays IH]; [done|]. cbn [map heads_length foldr].
  rewrite sequence_tails_cons, length_app, <- IH. cbn [is_dynamic uint_array].
  change (append_encoding (Array _)) with (append_encoding (uint_array ns)).
  rewrite uint_array_length. unfold kWordSize. lia.
Qed.

Lemma words_of_map ns : words_of (map (λ n, Word (word_of n)) ns) = map word_of ns.
Proof. induction ns as [|n ns IH]; [done|]. cbn [map words_of omap list_omap]. f_equal. exact IH. Qed.

Section Merging.
Context {K : Keccak} {TS : TokenSelectors}.

(** The two balances as the client reads them. *)
Lemma balances_read st market wallet owner token yes no :
  uint256_storage st → names_address wallet owner →
  names_address (position_token_contract market) token →
  denotes (token_ids market).1 yes → denotes (token_ids market).2 no →
  position_balances (node_of st) market wallet =
    Ok (to_string (balance st (token, owner, yes)), to_string (balance st (token, owner, no))).
Proof using TS.
  intros [_ Hst] Ho Ht Hy Hn. unfold position_balances, balance_of_batch_call.
  rewrite (address_named _ _ Ho). destruct (denotes_word _ _ Hy) as (By & _ & ->).
  destruct (denotes_word _ _ Hn) as (Bn & _ & ->). cbn [mbind res_bind].
  destruct Ho as (_ & Bo & Lo), Ht as (Ht & _). destruct (address_word_wf _ Bo Lo) as (Bw & Lw & Ew).
  unfold node_of, answer_call. set (w := address_word owner) in *.
  assert (Array [Word w; Word w] = uint_array [word_val w; word_val w]) as ->.
  { unfold uint_array. cbn [map]. by rewrite word_of_val. }
  change (Array [Word (word_of yes); Word (word_of no)]) with (uint_array [yes; no]).
  assert (∀ a b, Forall2 has_type [TArray TWord; TArray TWord] [uint_array [a; b]; uint_array [yes; no]] ∧
                 Forall value_bytes [uint_array [a; b]; uint_array [yes; no]]) as Hty.
  { intros a b. split; do 2 (constructor; [by apply uint_array_type|]); constructor. }
  rewrite (calldata_call _ _ _ _ Ht) by apply Hty. cbn [mbind option_bind].
  rewrite decide_True, (decode_typed [TArray TWord; TArray TWord]) by (done || apply Hty).
  unfold uint_array at 1 2. cbv beta iota. rewrite !words_of_map. cbn [map zip_with]. rewrite word_of_val, Ew, !word_val_of by done.
  set (b0 := balance st (token, owner, yes)). set (b1 := balance st (token, owner, no)).
  unfold decode_binary_balances, evm_decode_uint_array. cbn [Z.eqb negb require mbind res_bind].
  pose proof (decode_encoded_uint_array [TArray TWord] [] [b0; b1] []) as Hd.
  cbv zeta in Hd. cbn [app] in Hd.
  change (Z.of_nat (heads_length (encode_all []) / 32)) with 0 in Hd.
  change (Z.of_nat (heads_length (encode_all [uint_array [b0; b1]]) / 32)) with (0 + 1) in Hd.
  rewrite Hd; [done| | |].
  - constructor; [by apply uint_array_type|constructor].
  - constructor; [apply Hst|]. constructor; [apply Hst|constructor].
  - change [uint_array [b0; b1]] with (map uint_array [[b0; b1]]). by rewrite uint_arrays_length.
Qed.

(** What a merge call tells the contract: which condition, and how much. *)
Definition merges (market : MarketPositionContext) (contracts : PolymarketContracts)
    (call : ContractCall) (amount : Z) : Prop :=
  ∃ target arguments, from_hex (operator_contract market) = Ok target ∧
  match protocol market with
  | V2 => ∃ id condition,
      v2_condition_id_bytes31 (condition_id market) = Ok id ∧
      from_hex id = Ok condition ∧ length condition = 31%nat ∧
      calldata call = Some (target, selector "merge(bytes31,uint256)", arguments) ∧
      abi_decode [TWord; TWord] arguments = Some [Word (condition ++ [0]); Word (word_of amount)]
  | Ctf => ∃ collateral condition,
      names_address (collateral_token contracts) collateral ∧
      from_hex (condition_id market) = Ok condition ∧ length condition = 32%nat ∧
      calldata call =
        Some (target, selector "mergePositions(address,bytes32,bytes32,uint256[],uint256)", arguments) ∧
      abi_decode [TWord; TWord; TWord; TArray TWord; TWord] arguments =
        Some [Word (address_word collateral); Word (replicate 32 0); Word condition;
              uint_array [1; 2]; Word (word_of amount)]
  end.

(** The condition id has the form the market's protocol needs. *)
Definition mergeable_market (market : MarketPositionContext) (contracts : PolymarketContracts) : bool :=
  match protocol market with
  | V2 => is_ok (v2_condition_id_bytes31 (condition_id market))
  | Ctf => is_ok (normalize_condition_id (condition_id market)) &&
           is_ok (address (collateral_token contracts))
  end.

Lemma fixed_bytes_of hex bytes n :
  from_hex hex = Ok bytes → length bytes = n → (0 < n ≤ 32)%nat →
  fixed_bytes hex (Z.of_nat n) = Ok (Word (bytes ++ replicate (32 - n) 0)).
Proof using Type.
  intros E Hl Hn. unfold fixed_bytes, parse_hex_bytes. rewrite E.
  cbn [rethrow_invalid mbind res_bind]. unfold kWordSize. rewrite Hl, Z.eqb_refl.
  destruct (Z.eqb_spec (Z.of_nat n) 0); [lia|]. destruct (Z.ltb_spec (Z.of_nat 32) (Z.of_nat n)); [lia|].
  cbn [orb negb require mbind res_bind]. unfold word_from_bytes, kWordSize. by rewrite Hl.
Qed.

Lemma router_merge_spec market text amount target :
  names_address (operator_contract market) target → denotes text amount → protocol market = V2 →
  is_ok (v2_condition_id_bytes31 (condition_id market)) = true →
  ∃ call, router_merge_call (operator_contract market) (condition_id market) text = Ok call ∧
    ∀ contracts, merges market contracts call amount.
Proof using Type.
  intros (Ht & _) Hd Hp Hok. unfold router_merge_call, merges.
  destruct (v2_condition_id_bytes31 _) as [id|] eqn:Ev; [|done]. cbn [mbind res_bind].
  assert (is_hex_string id (2 * 31) = true) as Hx.
  { unfold v2_condition_id_bytes31 in Ev. apply bind_Ok in Ev as (? & Hx%require_Ok & [= <-]). done. }
  destruct (hex_string_bytes id 31 Hx) as (condition & Hc & Bc & Lc).
  change 31 with (Z.of_nat 31). rewrite (fixed_bytes_of _ _ _ Hc Lc) by lia. destruct (denotes_word _ _ Hd) as (_ & _ & ->).
  cbn [mbind res_bind]. eexists. split; [done|]. intros contracts.
  assert (length (condition ++ [0]) = 32%nat) as Lw by (by rewrite length_app, Lc).
  exists target, (evm_abi_encode [Word (condition ++ [0]); Word (word_of amount)]). rewrite Hp.
  split; [done|]. exists id, condition. split_and!; try done.
  - apply calldata_call; [done|]. apply two_word_values; [|apply word_of_bytes].
    apply Forall_snoc. split; [done|]. unfold is_byte. lia.
  - apply decode_two_words; [done|apply word_of_length].
Qed.

Lemma address_Ok text v :
  address text = Ok v → ∃ bytes, names_address text bytes ∧ v = Word (address_word bytes).
Proof using Type.
  unfold address, parse_hex_bytes. intros (bytes & Hb%rethrow_invalid_Ok & H)%bind_Ok.
  apply bind_Ok in H as (? & Hl%require_Ok & [= <-]). apply bool_decide_eq_true in Hl.
  exists bytes. unfold word_from_bytes. rewrite Hl. split; [|done]. split_and!; [done|by eapply hex_text_bytes|done].
Qed.

Lemma ctf_arguments_spec collateral id :
  is_ok (normalize_condition_id id) = true → is_ok (address collateral) = true →
  ∃ bytes condition, names_address collateral bytes ∧ from_hex id = Ok condition ∧
    Forall is_byte condition ∧ length condition = 32%nat ∧
    ctf_arguments collateral id =
      Ok [Word (address_word bytes); Word (replicate 32 0); Word condition; uint_array [1; 2]].
Proof using Type.
  unfold ctf_arguments. destruct (address collateral) as [v|] eqn:Ea; [|done].
  apply address_Ok in Ea as (bytes & Hn & ->). unfold normalize_condition_id.
  destruct (is_hex_string id 64) eqn:Ex; [|done]. intros _ _.
  destruct (hex_string_bytes id 32 Ex) as (condition & Hc & Bc & Lc). exists bytes, condition.
  split_and!; try done. cbn [mbind res_bind require].
  assert (bytes32 kZeroBytes32 = Ok (Word (replicate 32 0))) as -> by (by vm_compute).
  cbn [mbind res_bind]. rewrite <- from_hex_normalized in Hc. unfold bytes32.
  change 32 with (Z.of_nat 32). rewrite (fixed_bytes_of _ _ _ Hc Lc) by lia. cbn [mbind res_bind].
  assert (binary_partition = Ok [Word (word_of 1); Word (word_of 2)]) as -> by (by vm_compute).
  cbn [mbind res_bind Nat.sub replicate]. by rewrite app_nil_r.
Qed.

Lemma ctf_merge_spec market contracts text amount target :
  names_address (operator_contract market) target → denotes text amount → protocol market = Ctf →
  is_ok (normalize_condition_id (condition_id market)) = true →
  is_ok (address (collateral_token contracts)) = true →
  ∃ call, ctf_merge_positions_call (operator_contract market) (collateral_token contracts)
            (condition_id market) text = Ok call ∧ merges market contracts call amount.
Proof using Type.
  intros (Ht & _) Hd Hp Hid Hcol. unfold ctf_merge_positions_call, merges.
  destruct (ctf_arguments_spec _ _ Hid Hcol) as (bytes & condition & Hn & Hc & Bc & Lc & ->).
  destruct (denotes_word _ _ Hd) as (_ & _ & ->). cbn [mbind res_bind app].
  eexists. split; [done|]. rewrite Hp. destruct Hn as (Hn & Bn & Ln).
  destruct (address_word_wf _ Bn Ln) as (Bw & Lw & _). destruct (uint_array_type [1; 2] ltac:(done)) as [Tu Bu].
  eexists target, _. split; [done|]. exists bytes, condition. split; [done|]. split; [done|]. split; [done|].
  split; [apply calldata_call; [done|]|apply decode_typed].
  - constructor; [exact Bw|]. constructor; [apply zero_bytes|]. constructor; [exact Bc|].
    constructor; [exact Bu|]. constructor; [apply word_of_bytes|constructor].
  - constructor; [exact Lw|]. constructor; [done|]. constructor; [exact Lc|].
    constructor; [exact Tu|]. constructor; [apply word_of_length|constructor].
  - unfold evm_abi_encode. rewrite append_sequence_length. cbn [map heads_length is_dynamic].
    rewrite !sequence_tails_cons. change (is_dynamic (uint_array [1; 2])) with true.
    cbn [append_encoding]. rewrite Lw, Lc, word_of_length. done.
Qed.

Lemma merge_call_spec market contracts text amount target :
  names_address (operator_contract market) target → denotes text amount →
  mergeable_market market contracts = true →
  ∃ call, merge_call market contracts text = Ok call ∧ merges market contracts call amount.
Proof using Type.
  intros Ht Hd Hm. unfold merge_call, mergeable_market in *. destruct (protocol market) eqn:Hp.
  - apply andb_true_iff in Hm as [H1 H2]. by eapply ctf_merge_spec.
  - destruct (router_merge_spec _ _ _ _ Ht Hd Hp Hm) as (call & Hc & Hs). by exists call.
Qed.

(** A merge request never asks for more than the wallet holds: the call names
    the market's condition and an amount that is positive and at most either
    balance of the chain ("max" is all of the smaller one, another amount is
    exactly the one asked for), and such a call is made whenever such an amount
    exists; otherwise there is an error and no call. *)
Lemma merge_within_balances st market contracts wallet owner token target yes no requested :
  uint256_storage st → names_address wallet owner →
  names_address (position_token_contract market) token →
  names_address (operator_contract market) target →
  denotes (token_ids market).1 yes → denotes (token_ids market).2 no →
  mergeable_market market contracts = true →
  let held amount := mergeable (balance st (token, owner, yes)) (balance st (token, owner, no))
                       requested amount in
  (∀ text call, merge_request (node_of st) contracts wallet market requested = Ok (text, call) →
     ∃ amount, denotes text amount ∧ held amount ∧ merges market contracts call amount) ∧
  (∀ amount, held amount →
     ∃ text call, merge_request (node_of st) contracts wallet market requested = Ok (text, call) ∧
       merges market contracts call amount).
Proof using TS.
  intros Hst Ho Ht Hop Hy Hn Hm held. unfold merge_request.
  rewrite (balances_read _ _ _ _ _ _ _ Hst Ho Ht Hy Hn). cbn [mbind res_bind].
  destruct Hst as [_ Hb]. set (b0 := balance st (token, owner, yes)) in *.
  set (b1 := balance st (token, owner, no)) in *.
  destruct (resolve_merge_amount_spec (condition_id market) _ _ b0 b1 requested
    (denotes_decimal b0 (Hb _)) (denotes_decimal b1 (Hb _))) as [Hsound Hcomplete].
  split.
  - intros text call H. apply bind_Ok in H as (r & Hr & H). apply bind_Ok in H as (c & Hc & [= <- <-]).
    destruct (Hsound _ Hr) as (amount & Hd & Hheld). exists amount. split; [done|]. split; [done|].
    destruct (merge_call_spec _ _ _ _ _ Hop Hd Hm) as (call' & Hc' & Hs).
    rewrite Hc in Hc'. by injection Hc' as <-.
  - intros amount Hheld. destruct (Hcomplete _ Hheld) as (text & Hr & Hd).
    destruct (merge_call_spec _ _ _ _ _ Hop Hd Hm) as (call & Hc & Hs).
    exists text, call. rewrite Hr. cbn [mbind res_bind]. by rewrite Hc.
Qed.
End Merging.

(** ** Witnesses *)

#[export] Instance toy_selectors : TokenSelectors (H := toy_keccak).
Proof. split; [by vm_compute|]. cbn [fmap list_fmap]. repeat constructor; set_unfold; vm_compute; naive_solver. Defined.

Definition sample_wallet : string := "0x3535353535353535353535353535353535353535".
Definition sample_tokens : TokenChain :=
  MkTokens {[ (hex_address (collateral_token polygon_mainnet), hex_address sample_wallet,
               hex_address (standard_exchange polygon_mainnet)) := 5 ]} ∅ ∅.

Lemma sample_storage : uint256_storage sample_tokens.
Proof.
  split; intros key; [|unfold balance; cbn; rewrite lookup_empty; cbn; lia].
  unfold allowance, sample_tokens. cbn [allowances]. destruct (decide (key = (hex_address (collateral_token polygon_mainnet), hex_address sample_wallet,
               hex_address (standard_exchange polygon_mainnet)))) as [->|Hne].
  - rewrite lookup_singleton_eq. cbn. lia.
  - rewrite lookup_singleton_ne by congruence. cbn. lia.
Defined.


Definition sample_market : MarketPositionContext :=
  MkContext Ctf "1" ("0x" +:+ str (replicate 64 "a"%char)) false ("7", "8")
    (conditional_tokens polygon_mainnet) (collateral_adapter polygon_mainnet).

Definition held_tokens : TokenChain :=
  MkTokens ∅ ∅ (<[(hex_address (conditional_tokens polygon_mainnet), hex_address sample_wallet, 7) := 30]>
    {[ (hex_address (conditional_tokens polygon_mainnet), hex_address sample_wallet, 8) := 20 ]}).

Lemma held_storage : uint256_storage held_tokens.
Proof.
  split; intros key; [unfold allowance; cbn; rewrite lookup_empty; cbn; lia|].
  unfold balance. destruct (balances held_tokens !! key) as [v|] eqn:E; [|cbn; lia].
  unfold held_tokens in E. cbn [balances] in E.
  apply lookup_insert_Some in E as [[_ <-]|[_ E]]; [cbn; lia|].
  apply lookup_singleton_Some in E as [_ <-]. cbn. lia.
Defined.

Lemma merge_within_balances_witness :
  (∀ text call,
     merge_request (node_of held_tokens) polygon_mainnet sample_wallet sample_market "max" = Ok (text, call) →
     ∃ amount, denotes text amount ∧ mergeable 30 20 "max" amount ∧
       merges sample_market polygon_mainnet call amount) ∧
  (∀ amount, mergeable 30 20 "max" amount →
     ∃ text call,
       merge_request (node_of held_tokens) polygon_mainnet sample_wallet sample_market "max" = Ok (text, call) ∧
       merges sample_market polygon_mainnet call amount) ∧
  mergeable 30 20 "max" 20.
Proof.
  assert (∀ text, is_ok (require_address text "") = true → names_address text (hex_address text)) as Hn.
  { intros text H. destruct (require_address text "") as [[]|] eqn:E; [|discriminate H].
    exact (require_address_named text "" tt E). }
  pose proof (merge_within_balances held_tokens sample_market polygon_mainnet sample_wallet
    (hex_address sample_wallet) (hex_address (conditional_tokens polygon_mainnet))
    (hex_address (collateral_adapter polygon_mainnet)) 7 8 "max" held_storage
    (Hn sample_wallet ltac:(by vm_compute)) (Hn (conditional_tokens polygon_mainnet) ltac:(by vm_compute))
    (Hn (collateral_adapter polygon_mainnet) ltac:(by vm_compute))
    ltac:(exists (word_of 7); split; by vm_compute) ltac:(exists (word_of 8); split; by vm_compute)
    ltac:(by vm_compute)) as H.
  cbv zeta in H.
  assert (balance held_tokens (hex_address (conditional_tokens polygon_mainnet), hex_address sample_wallet, 7) = 30)
    as E7 by (by vm_compute).
  assert (balance held_tokens (hex_address (conditional_tokens polygon_mainnet), hex_address sample_wallet, 8) = 20)
    as E8 by (by vm_compute).
  rewrite E7, E8 in H. destruct H as [H1 H2].
  assert (mergeable 30 20 "max" 20) as Hm by (split; [lia|by vm_compute]).
  exact (conj H1 (conj H2 Hm)).
Defined.
