(* ===== verification/WebsocketStream.v ===== *)
(** * The message stream of a websocket client
    (src/websocket_resilience.cpp, websocket_client_resilience.cpp,
    websocket_client_transport.cpp)

    [BoundedMessageQueue], and how [WebSocketClientState] keeps the frames of one
    generation free of gaps: the transport thread tags frames with the generation
    and queues them, the message worker dispatches those whose generation is still
    current, and a gap starts a new generation and discards the queue.  Each
    atomic load, exchange or locked section is one step; the transport thread, the
    worker and any number of threads that ask for a new snapshot interleave.
    An overflow's request is queued among the requesters although the transport
    thread carries it out itself before it goes on: the step relation has all the
    code's interleavings and a few more.  Stopping and reconfiguring the client are
    not part of it. *)
From S2P Require Import Prelude Text.

#[local] Open Scope Z_scope.

(** ** The queue *)

Record QueuedMessage := MkMessage { payload : string; message_generation : Z }.

Record BoundedMessageQueue := MkQueue {
  messages_ : list QueuedMessage;
  limit_ : nat;
  closed_ : bool;
  dropped_ : Z }.

Inductive QueuePushResult := Accepted | Gap | Closed.

Definition at_least_one (limit : nat) : nat := if decide (limit = 0%nat) then 1%nat else limit.
Definition new_queue (limit : nat) : BoundedMessageQueue := MkQueue [] (at_least_one limit) false 0.

Definition push (message : QueuedMessage) (q : BoundedMessageQueue) : BoundedMessageQueue * QueuePushResult :=
  if closed_ q then (q, Closed)
  else if bool_decide (limit_ q ≤ length (messages_ q))%nat then
    (MkQueue [] (limit_ q) (closed_ q) (u64 (dropped_ q + Z.of_nat (length (messages_ q)) + 1)), Gap)
  else (MkQueue (messages_ q ++ [message]) (limit_ q) (closed_ q) (dropped_ q), Accepted).

(** [pop] once it no longer waits; [None] stands for the wait, and for the end of
    a closed queue. *)
Definition pop (q : BoundedMessageQueue) : BoundedMessageQueue * option QueuedMessage :=
  match messages_ q with
  | [] => (q, None)
  | m :: ms => (MkQueue ms (limit_ q) (closed_ q) (dropped_ q), Some m)
  end.

Definition discard_pending (q : BoundedMessageQueue) : BoundedMessageQueue :=
  MkQueue [] (limit_ q) (closed_ q) (u64 (dropped_ q + Z.of_nat (length (messages_ q)))).

Definition record_drop (q : BoundedMessageQueue) : BoundedMessageQueue :=
  MkQueue (messages_ q) (limit_ q) (closed_ q) (u64 (dropped_ q + 1)).

Definition close (q : BoundedMessageQueue) : BoundedMessageQueue :=
  MkQueue (messages_ q) (limit_ q) true (dropped_ q).

Definition reset (limit : nat) (q : BoundedMessageQueue) : BoundedMessageQueue :=
  MkQueue [] (at_least_one limit) false (dropped_ q).

(** ** The client *)

(** What the transport thread is about to do. *)
Inductive transport_phase :=
  | t_idle
  | t_checked (frame : string)            (** [enqueue_message], no snapshot pending *)
  | t_tagged (frame : string) (g : Z)     (** the generation read, the push to come *)
  | t_overflow                            (** [request_resnapshot] to come *)
  | t_discard (opening : bool)            (** in [mark_stream_gap], the queue to be discarded *)
  | t_opening.                            (** [handle_open], [resnapshot_pending_] to be reset *)

(** A thread in [request_resnapshot], past its exchange. *)
Inductive request_phase := r_increment | r_discard.

Record client := MkClient {
  message_queue : BoundedMessageQueue;
  resnapshot_pending : bool;
  stream_generation : Z;
  transport : transport_phase;
  requesters : list request_phase;
  worker : option QueuedMessage;                 (** popped, not yet dispatched *)
  received : list string;                        (** all frames, in order *)
  dispatched : list (string * Z)                 (** given to the callbacks *) }.

Definition initial_client (limit : nat) : client :=
  MkClient (new_queue limit) false 0 t_idle [] None [] [].

Inductive step :=
  | receive (frame : string)
  | load_generation
  | push_frame
  | request_after_overflow
  | transport_gap (opening : bool)       (** [handle_open], or [handle_close] and [handle_error] *)
  | transport_discard
  | opened
  | request_resnapshot
  | requester (i : nat)
  | worker_pop
  | worker_dispatch.

Definition set_transport (t : transport_phase) (c : client) : client :=
  MkClient (message_queue c) (resnapshot_pending c) (stream_generation c) t (requesters c) (worker c)
    (received c) (dispatched c).
Definition set_queue (q : BoundedMessageQueue) (c : client) : client :=
  MkClient q (resnapshot_pending c) (stream_generation c) (transport c) (requesters c) (worker c)
    (received c) (dispatched c).
Definition set_pending (b : bool) (c : client) : client :=
  MkClient (message_queue c) b (stream_generation c) (transport c) (requesters c) (worker c)
    (received c) (dispatched c).
Definition set_requesters (r : list request_phase) (c : client) : client :=
  MkClient (message_queue c) (resnapshot_pending c) (stream_generation c) (transport c) r (worker c)
    (received c) (dispatched c).
Definition next_generation (c : client) : client :=
  MkClient (message_queue c) (resnapshot_pending c) (u64 (stream_generation c + 1)) (transport c)
    (requesters c) (worker c) (received c) (dispatched c).
Definition set_worker (w : option QueuedMessage) (d : list (string * Z)) (c : client) : client :=
  MkClient (message_queue c) (resnapshot_pending c) (stream_generation c) (transport c) (requesters c) w
    (received c) d.

(** [resnapshot_pending_.exchange(true)] and what follows it. *)
Definition exchange_pending (c : client) : client :=
  if resnapshot_pending c then c else set_requesters (requesters c ++ [r_increment]) (set_pending true c).

Definition client_step (s : step) (c : client) : client :=
  match s, transport c with
  | receive frame, t_idle =>
      let c := MkClient (message_queue c) (resnapshot_pending c) (stream_generation c) (transport c)
                 (requesters c) (worker c) (received c ++ [frame]) (dispatched c) in
      if resnapshot_pending c then set_queue (record_drop (message_queue c)) c
      else set_transport (t_checked frame) c
  | load_generation, t_checked frame => set_transport (t_tagged frame (stream_generation c)) c
  | push_frame, t_tagged frame g =>
      match push (MkMessage frame g) (message_queue c) with
      | (q, Gap) => set_transport t_overflow (set_queue q c)
      | (q, _) => set_transport t_idle (set_queue q c)
      end
  | request_after_overflow, t_overflow => set_transport t_idle (exchange_pending c)
  | transport_gap opening, t_idle => set_transport (t_discard opening) (next_generation c)
  | transport_discard, t_discard opening =>
      set_transport (if opening then t_opening else t_idle) (set_queue (discard_pending (message_queue c)) c)
  | opened, t_opening => set_transport t_idle (set_pending false c)
  | request_resnapshot, _ => exchange_pending c
  | requester i, _ =>
      match requesters c !! i with
      | Some r_increment => set_requesters (<[i := r_discard]> (requesters c)) (next_generation c)
      | Some r_discard =>
          set_requesters (delete i (requesters c)) (set_queue (discard_pending (message_queue c)) c)
      | None => c
      end
  | worker_pop, _ =>
      match worker c with
      | None =>
          let '(q, m) := pop (message_queue c) in set_worker m (dispatched c) (set_queue q c)
      | Some _ => c
      end
  | worker_dispatch, _ =>
      match worker c with
      | Some m =>
          set_worker None
            (if message_generation m =? stream_generation c
             then dispatched c ++ [(payload m, message_generation m)] else dispatched c) c
      | None => c
      end
  | _, _ => c
  end.

Definition run (limit : nat) (ss : list step) : client :=
  foldl (λ c s, client_step s c) (initial_client limit) ss.

(** The frames dispatched in a generation. *)
Definition dispatched_in (g : Z) (c : client) : list string :=
  (filter (λ p : string * Z, p.2 = g) (dispatched c)).*1.

(** No connection opens while a thread is between its request for a snapshot and
    the discarding of the queue. *)
Fixpoint opens_settled (ss : list step) (c : client) : bool :=
  match ss with
  | [] => true
  | s :: ss' =>
      match s, transport c with
      | opened, t_opening => bool_decide (requesters c = [])
      | _, _ => true
      end && opens_settled ss' (client_step s c)
  end.

(** ** No gap inside a generation *)

Definition contiguous (l all : list string) : Prop := ∃ pre post, all = pre ++ l ++ post.

Lemma contiguous_nil all : contiguous [] all.
Proof. by exists [], all. Qed.

Lemma contiguous_snoc l all x : contiguous l all → contiguous l (all ++ [x]).
Proof. intros (pre & post & ->). exists pre, (post ++ [x]). by rewrite <- !app_assoc. Qed.

Lemma contiguous_prefix l run all : l `prefix_of` run → contiguous run all → contiguous l all.
Proof. intros [k ->] (pre & post & ->). exists pre, (k ++ post). by rewrite <- !app_assoc. Qed.

Definition queued_in (g : Z) (c : client) : list string :=
  payload <$> filter (λ m, message_generation m = g) (messages_ (message_queue c)).
Definition held_in (g : Z) (c : client) : list string :=
  payload <$> filter (λ m, message_generation m = g) (option_list (worker c)).

(** What has become of the frames of the current generation, in order. *)
Definition accounted (c : client) : list string :=
  let g := stream_generation c in dispatched_in g c ++ held_in g c ++ queued_in g c.

(** A frame tagged with the current generation, or not tagged yet. *)
Definition in_flight (c : client) : list string :=
  match transport c with t_tagged f g => if decide (g = stream_generation c) then [f] else [] | _ => [] end.
Definition untagged (c : client) : list string :=
  match transport c with t_checked f => [f] | _ => [] end.

(** The generation can get no more frames. *)
Definition sealed (c : client) : Prop := resnapshot_pending c = true ∧ transport c = t_idle.

Definition tagging (c : client) : Prop :=
  match transport c with
  | t_checked _ | t_tagged _ _ => True
  | t_overflow => False
  | _ => resnapshot_pending c = false
  end.

Definition tags_ok (c : client) : Prop :=
  Forall (λ m, message_generation m ≤ stream_generation c) (messages_ (message_queue c)) ∧
  Forall (λ m, message_generation m ≤ stream_generation c) (option_list (worker c)) ∧
  Forall (λ p, p.2 ≤ stream_generation c) (dispatched c) ∧
  match transport c with t_tagged _ g => g ≤ stream_generation c | _ => True end.

(** [run] is the list of frames tagged with the current generation. *)
Record stream_ok (n : Z) (c : client) (run : list string) : Prop := {
  s_generation : 0 ≤ stream_generation c ≤ n;
  s_open : closed_ (message_queue c) = false;
  s_room : (length (messages_ (message_queue c)) ≤ limit_ (message_queue c))%nat;
  s_tags : tags_ok c;
  s_past g : g < stream_generation c → contiguous (dispatched_in g c) (received c);
  s_run : ∃ before after, received c = before ++ run ++ after ∧ (sealed c ∨ after = untagged c);
  s_prefix : accounted c `prefix_of` run;
  s_exact : tagging c → accounted c ++ in_flight c = run;
  s_gap : match transport c with t_discard _ | t_opening => run = [] | _ => True end;
  s_requests : requesters c ≠ [] → resnapshot_pending c = true ∧ length (requesters c) = 1%nat;
  s_discarding : r_discard ∈ requesters c →
    match transport c with
    | t_checked _ => run = []
    | t_tagged f g => run = if decide (g = stream_generation c) then [f] else []
    | _ => True
    end }.

(** Nothing carries the tag of a generation to come. *)
Lemma no_future_tags c g :
  tags_ok c → stream_generation c < g → dispatched_in g c = [] ∧ held_in g c = [] ∧ queued_in g c = [].
Proof.
  intros (Hq & Hw & Hd & _) Hg. unfold dispatched_in, held_in, queued_in.
  assert (Hnil : ∀ {A} (f : A → Z) (l : list A), Forall (λ x, f x ≤ stream_generation c) l →
    filter (λ x, f x = g) l = []).
  { intros A f l. induction 1 as [|x l Hx _ IH]; [done|]. rewrite filter_cons, IH.
    rewrite decide_False by lia. done. }
  by rewrite (Hnil _ snd), !(Hnil _ message_generation).
Qed.

Lemma current_contiguous n c run : stream_ok n c run → contiguous (dispatched_in (stream_generation c) c) (received c).
Proof.
  intros Hok. destruct (s_run _ _ _ Hok) as (b & a & Hr & _).
  apply contiguous_prefix with run; [|by exists b, a].
  etransitivity; [|exact (s_prefix _ _ _ Hok)]. unfold accounted. by exists (held_in (stream_generation c) c ++ queued_in (stream_generation c) c).
Qed.

(** A new generation starts empty. *)
Lemma next_generation_ok n c run :
  stream_ok n c run → n + 1 ≤ u64_max →
  let c' := next_generation c in
  stream_generation c' = stream_generation c + 1 ∧ tags_ok c' ∧ accounted c' = [] ∧ in_flight c' = [] ∧
  (∀ g, g < stream_generation c' → contiguous (dispatched_in g c') (received c')).
Proof.
  intros Hok Hn c'. pose proof (s_generation _ _ _ Hok) as Hg. pose proof (s_tags _ _ _ Hok) as Ht.
  assert (Hu : stream_generation c' = stream_generation c + 1).
  { apply u64_id. unfold is_u64. lia. }
  split; [done|].
  destruct (no_future_tags c (stream_generation c + 1) Ht ltac:(lia)) as (Hd & Hw & Hq).
  split_and!.
  - destruct Ht as (H1 & H2 & H3 & H4). unfold tags_ok. rewrite Hu. cbn. split_and!.
    1-3: eapply Forall_impl; [eassumption|]; cbn; intros; lia.
    destruct (transport c); try done. lia.
  - unfold accounted. rewrite Hu. change (dispatched_in ?g c') with (dispatched_in g c).
    change (held_in ?g c') with (held_in g c). change (queued_in ?g c') with (queued_in g c). by rewrite Hd, Hw, Hq.
  - unfold in_flight. rewrite Hu. cbn. destruct (transport c) eqn:Et; try done.
    destruct Ht as (_ & _ & _ & Htr). rewrite Et in Htr. by rewrite decide_False by lia.
  - intros g Hlt. rewrite Hu in Hlt. change (received c') with (received c).
    change (dispatched_in g c') with (dispatched_in g c).
    destruct (decide (g = stream_generation c)) as [->|]; [by eapply current_contiguous|].
    apply (s_past _ _ _ Hok). lia.
Qed.

(** Discarding the queue shortens what is accounted for. *)
Lemma discard_prefix c : accounted (set_queue (discard_pending (message_queue c)) c) `prefix_of` accounted c.
Proof.
  unfold accounted. cbn. exists (queued_in (stream_generation c) c). by rewrite !app_nil_r, <- !app_assoc.
Qed.

(** ** Every step keeps the stream *)

Lemma not_sealed c : transport c ≠ t_idle → ¬ sealed c.
Proof. intros H [_ ?]. done. Qed.

(** The frames received after the run are those the transport holds untagged. *)
Lemma run_reaches_end n c run :
  stream_ok n c run → transport c ≠ t_idle → ∃ before, received c = before ++ run ++ untagged c.
Proof.
  intros Hok Hne. destruct (s_run _ _ _ Hok) as (b & a & Hr & [Hs| ->]); [|by exists b].
  by destruct (not_sealed _ Hne).
Qed.

Lemma no_requesters n c run : stream_ok n c run → resnapshot_pending c = false → requesters c = [].
Proof.
  intros Hok Hp. destruct (requesters c) eqn:Er; [done|].
  destruct (s_requests _ _ _ Hok) as [? _]; [by rewrite Er|congruence].
Qed.

Lemma stream_ok_later n c run : stream_ok n c run → stream_ok (n + 1) c run.
Proof. intros [[? ?] ? ? ? ? ? ? ? ? ? ?]. split; auto. lia. Qed.

(** Opens an invariant on a client taken apart. *)
Local Ltac stream_split :=
  split; cbn [message_queue resnapshot_pending stream_generation transport requesters worker received dispatched];
  unfold tagging, in_flight, tags_ok, sealed, untagged, accounted, dispatched_in, held_in, queued_in in *; cbn in *;
  auto; try done; try lia.

Lemma receive_ok n c run frame :
  stream_ok n c run → ∃ run', stream_ok n (client_step (receive frame) c) run'.
Proof.
  intros Hok. exists run. destruct (transport c) eqn:Et; try by (unfold client_step; rewrite Et).
  pose proof (no_requesters _ _ _ Hok) as Hno.
  destruct c as [q p G t rq w rc d]. cbn in Et, Hno. subst t. destruct Hok. unfold client_step. cbn in *.
  destruct p; stream_split.
  - intros g Hg. by apply contiguous_snoc, s_past0.
  - destruct s_run0 as (b & a & -> & _). exists b, (a ++ [frame]). rewrite <- !app_assoc. auto.
  - intros g Hg. by apply contiguous_snoc, s_past0.
  - destruct s_run0 as (b & a & -> & [[? _]| ->]); [done|]. exists b, [frame].
    split; [by rewrite app_nil_r, <- app_assoc|by right].
  - rewrite Hno by done. by intros ?%not_elem_of_nil.
Qed.

Lemma load_generation_ok n c run :
  stream_ok n c run → ∃ run', stream_ok n (client_step load_generation c) run'.
Proof.
  intros Hok. destruct (transport c) eqn:Et; try by (exists run; unfold client_step; rewrite Et).
  exists (run ++ [frame]). destruct (run_reaches_end _ _ _ Hok) as [b Hb]; [by rewrite Et|].
  destruct c as [q p G t rq w rc d]. cbn in Et, Hb. subst t. destruct Hok. unfold client_step. cbn in *. stream_split.
  - naive_solver lia.
  - exists b, []. split; [by rewrite app_nil_r|by right].
  - etransitivity; [exact s_prefix0|by apply prefix_app_r].
  - intros _. rewrite decide_True by done. f_equal. rewrite <- (s_exact0 I). by rewrite app_nil_r.
  - intros Hin. by rewrite decide_True, s_discarding0 by done.
Qed.

Lemma queued_snoc (G g : Z) f ms :
  payload <$> filter (λ m, message_generation m = G) (ms ++ [MkMessage f g]) =
  (payload <$> filter (λ m, message_generation m = G) ms) ++ (if decide (g = G) then [f] else []).
Proof. rewrite filter_app, fmap_app. f_equal. rewrite filter_cons. cbn. by destruct (decide (g = G)). Qed.

Lemma push_frame_ok n c run :
  stream_ok n c run → ∃ run', stream_ok n (client_step push_frame c) run'.
Proof.
  intros Hok. exists run. destruct (transport c) eqn:Et; try by (unfold client_step; rewrite Et).
  destruct (run_reaches_end _ _ _ Hok) as [b Hb]; [by rewrite Et|].
  destruct c as [q p G t rq w rc d]. cbn in Et, Hb. subst t. destruct Hok. unfold client_step. cbn in *.
  unfold push. rewrite s_open0. case_bool_decide as Hroom; stream_split.
  - naive_solver.
  - exists b, []. auto.
  - rewrite app_nil_r. etransitivity; [|exact s_prefix0]. rewrite app_assoc. by apply prefix_app_r.
  - rewrite length_app. cbn. lia.
  - destruct s_tags0 as (? & ? & ? & ?). split_and!; auto. apply Forall_app. auto.
  - exists b, []. auto.
  - rewrite queued_snoc, !app_assoc, <- (s_exact0 I), !app_assoc. done.
  - intros _. rewrite app_nil_r, queued_snoc, !app_assoc, <- (s_exact0 I), !app_assoc. done.
Qed.

(** A request: from then on the generation is sealed, or its last frame is in flight. *)
Lemma exchange_pending_ok n c run : stream_ok n c run → stream_ok n (exchange_pending c) run.
Proof.
  intros Hok. unfold exchange_pending. destruct (resnapshot_pending c) eqn:Ep; [done|].
  pose proof (no_requesters _ _ _ Hok Ep) as Hno.
  destruct c as [q p G t rq w rc d]. cbn in Ep, Hno. subst p rq. destruct Hok. cbn in *. stream_split.
  - destruct s_run0 as (b & a & Hr & [[? _]|Ha]); [done|]. exists b, a. auto.
  - by destruct t.
  - intros ?%list_elem_of_singleton. done.
Qed.

Lemma request_after_overflow_ok n c run :
  stream_ok n c run → ∃ run', stream_ok n (client_step request_after_overflow c) run'.
Proof.
  intros Hok. exists run. destruct (transport c) eqn:Et; try by (unfold client_step; rewrite Et).
  replace (client_step request_after_overflow c) with (set_transport t_idle (exchange_pending c))
    by (unfold client_step; by rewrite Et).
  assert (Hp : resnapshot_pending (exchange_pending c) = true).
  { unfold exchange_pending. by destruct (resnapshot_pending c) eqn:Ep. }
  assert (Ht : transport (exchange_pending c) = t_overflow).
  { unfold exchange_pending. by destruct (resnapshot_pending c). }
  apply exchange_pending_ok in Hok. revert Hok Hp Ht. generalize (exchange_pending c) as c'. clear.
  intros c Hok Hp Ht. destruct c as [q p G t rq w rc d]. cbn in Hp, Ht. subst p t. destruct Hok. cbn in *. stream_split.
  destruct s_run0 as (b & a & Hr & _). exists b, a. auto.
Qed.

Lemma transport_gap_ok n c run opening :
  stream_ok n c run → n + 1 ≤ u64_max → ∃ run', stream_ok (n + 1) (client_step (transport_gap opening) c) run'.
Proof.
  intros Hok Hn. destruct (transport c) eqn:Et;
    try by (exists run; unfold client_step; rewrite Et; apply stream_ok_later).
  exists []. destruct (next_generation_ok _ _ _ Hok Hn) as (HG & Htags & Hacc & _ & Hpast).
  destruct c as [q p G t rq w rc d]. cbn in Et. subst t. destruct Hok. unfold client_step. cbn in *.
  unfold set_transport, next_generation in *. cbn in *. rewrite HG in *. stream_split.
  - exists rc, []. rewrite app_nil_r. auto.
  - by rewrite Hacc.
  - intros _. by rewrite Hacc.
Qed.

Lemma transport_discard_ok n c run :
  stream_ok n c run → ∃ run', stream_ok n (client_step transport_discard c) run'.
Proof.
  intros Hok. exists run. destruct (transport c) eqn:Et; try by (unfold client_step; rewrite Et).
  destruct (run_reaches_end _ _ _ Hok) as [b Hb]; [by rewrite Et|].
  destruct c as [q p G t rq w rc d]. cbn in Et, Hb. subst t. destruct Hok. unfold client_step. cbn in *. subst run.
  unfold accounted, dispatched_in, held_in, queued_in in s_prefix0. cbn in s_prefix0.
  apply prefix_nil_inv, app_eq_nil in s_prefix0 as [Hd [Hw Hq]%app_eq_nil].
  destruct opening; stream_split; try (exists b, []; by auto); try (rewrite Hd, Hw; done); naive_solver.
Qed.

Lemma opened_ok n c run :
  stream_ok n c run → (transport c = t_opening → requesters c = []) →
  ∃ run', stream_ok n (client_step opened c) run'.
Proof.
  intros Hok Hsettled. exists run. destruct (transport c) eqn:Et; try by (unfold client_step; rewrite Et).
  specialize (Hsettled eq_refl). destruct (run_reaches_end _ _ _ Hok) as [b Hb]; [by rewrite Et|].
  destruct c as [q p G t rq w rc d]. cbn in Et, Hb, Hsettled. subst t rq. destruct Hok. unfold client_step. cbn in *. subst run.
  stream_split.
  - exists b, []. auto.
  - intros _. by apply prefix_nil_inv in s_prefix0 as ->.
Qed.

(** The first half of a request starts the generation, the frame in flight left behind. *)
Lemma requester_increment_ok n c run :
  stream_ok n c run → requesters c = [r_increment] → n + 1 ≤ u64_max →
  stream_ok (n + 1) (set_requesters [r_discard] (next_generation c)) [].
Proof.
  intros Hok Hr Hn. destruct (next_generation_ok _ _ _ Hok Hn) as (HG & Htags & Hacc & Hfl & Hpast).
  assert (Hp : resnapshot_pending c = true) by (apply (s_requests _ _ _ Hok); by rewrite Hr).
  pose proof (s_tags _ _ _ Hok) as (_ & _ & _ & Htag).
  destruct c as [q p G t rq w rc d]. cbn in Hr, Hp, Htag. subst rq p. destruct Hok. cbn in *.
  unfold next_generation in *. cbn in *. rewrite HG in *. stream_split.
  - destruct s_run0 as (b & a & -> & Ha). exists (b ++ run), a. cbn. by rewrite <- app_assoc.
  - by rewrite Hacc.
  - intros _. by rewrite Hacc, Hfl.
  - by destruct t.
  - intros _. by destruct t.
Qed.

Lemma requester_discard_ok n c run :
  stream_ok n c run → requesters c = [r_discard] →
  stream_ok n (set_requesters [] (set_queue (discard_pending (message_queue c)) c)) run.
Proof.
  intros Hok Hr.
  assert (Hp : resnapshot_pending c = true) by (apply (s_requests _ _ _ Hok); by rewrite Hr).
  pose proof (discard_prefix c) as Hpre.
  destruct c as [q p G t rq w rc d]. cbn in Hr, Hp. subst rq p. destruct Hok. cbn in *.
  assert (Hin : r_discard ∈ [r_discard]) by by apply list_elem_of_singleton.
  specialize (s_discarding0 Hin). unfold accounted, dispatched_in, held_in, queued_in in Hpre. cbn in Hpre.
  stream_split.
  - destruct s_tags0 as (? & ? & ? & ?). auto.
  - by etransitivity.
  - intros Ht. specialize (s_exact0 Ht).
    assert (Hnil : (filter (λ p, p.2 = G) d).*1 ++ (payload <$> filter (λ m, message_generation m = G) (option_list w))
      ++ (payload <$> filter (λ m, message_generation m = G) (messages_ q)) = []).
    { destruct t; try done; rewrite s_discarding0 in s_exact0.
      - by apply app_eq_nil in s_exact0 as [? _].
      - by apply (app_inv_tail _ _ []) in s_exact0. }
    rewrite Hnil in Hpre. apply prefix_nil_inv in Hpre as ->. by destruct t.
Qed.

Lemma requester_ok n c run i :
  stream_ok n c run → n + 1 ≤ u64_max → ∃ run', stream_ok (n + 1) (client_step (requester i) c) run'.
Proof.
  intros Hok Hn. unfold client_step. destruct (requesters c !! i) as [r|] eqn:Ei;
    [|exists run; apply stream_ok_later; by destruct (transport c)].
  destruct (s_requests _ _ _ Hok) as [_ Hl]; [by intros Hnil; rewrite Hnil in Ei|].
  destruct (requesters c) as [|r' [|]] eqn:Er; try done. destruct i; [|done]. injection Ei as ->.
  destruct r.
  - exists []. destruct (transport c); by apply requester_increment_ok with run.
  - exists run. apply stream_ok_later. destruct (transport c); by apply requester_discard_ok.
Qed.

Lemma worker_pop_ok n c run : stream_ok n c run → stream_ok n (client_step worker_pop c) run.
Proof.
  intros Hok. replace (client_step worker_pop c) with
    (match worker c with
     | None => let '(q, m) := pop (message_queue c) in set_worker m (dispatched c) (set_queue q c)
     | Some _ => c end) by (unfold client_step; by destruct (transport c)).
  destruct (worker c) eqn:Ew; [done|]. unfold pop. destruct (messages_ (message_queue c)) as [|m ms] eqn:Eq; [by destruct c; cbn in *; subst|].
  destruct c as [[qm ql qc qd] p G t rq w rc d]. cbn in Ew, Eq. subst w qm. destruct Hok. cbn in *.
  assert (Hacc : ∀ g, (payload <$> filter (λ m, message_generation m = g) [m]) ++
    (payload <$> filter (λ m, message_generation m = g) ms) =
    payload <$> filter (λ m, message_generation m = g) (m :: ms)).
  { intros g. by rewrite <- fmap_app, <- filter_app. }
  stream_split.
  - destruct s_tags0 as ([? ?]%Forall_cons & _ & ? & ?). auto.
  - rewrite Hacc. done.
  - intros Ht. rewrite Hacc. auto.
Qed.

Lemma worker_dispatch_ok n c run : stream_ok n c run → stream_ok n (client_step worker_dispatch c) run.
Proof.
  intros Hok. replace (client_step worker_dispatch c) with
    (match worker c with
     | Some m => set_worker None
            (if message_generation m =? stream_generation c
             then dispatched c ++ [(payload m, message_generation m)] else dispatched c) c
     | None => c end) by (unfold client_step; by destruct (transport c)).
  destruct (worker c) as [m|] eqn:Ew; [|done].
  destruct c as [q p G t rq w rc d]. cbn in Ew. subst w. destruct Hok. cbn in *.
  unfold accounted, dispatched_in, held_in, queued_in in *. cbn in *.
  destruct (Z.eqb_spec (message_generation m) G) as [Em|Em].
  - rewrite decide_True in s_prefix0, s_exact0 by done. cbn in s_prefix0, s_exact0.
    assert (Hacc : (filter (λ p, p.2 = G) (d ++ [(payload m, message_generation m)])).*1 =
      (filter (λ p, p.2 = G) d).*1 ++ [payload m]).
    { rewrite filter_app, fmap_app. f_equal. by rewrite filter_cons, decide_True by done. }
    stream_split.
    + destruct s_tags0 as (? & ? & ? & ?). split_and!; auto. apply Forall_app. split; [done|].
      apply Forall_singleton. cbn. lia.
    + intros g Hg. rewrite filter_app, filter_cons, decide_False, app_nil_r by (cbn; lia). auto.
    + rewrite Hacc, <- app_assoc. done.
    + intros Ht. specialize (s_exact0 Ht). rewrite <- app_assoc in s_exact0. by rewrite Hacc, <- !app_assoc.
  - rewrite decide_False in s_prefix0, s_exact0 by done. stream_split. destruct s_tags0 as (? & ? & ? & ?). auto.
Qed.

Lemma client_step_ok n c run s :
  stream_ok n c run → n + 1 ≤ u64_max → opens_settled [s] c = true →
  ∃ run', stream_ok (n + 1) (client_step s c) run'.
Proof.
  intros Hok Hn Hs.
  assert (Hlater : ∀ c', (∃ run', stream_ok n c' run') → ∃ run', stream_ok (n + 1) c' run')
    by (intros c' [r ?]; exists r; by apply stream_ok_later).
  destruct s.
  - by apply Hlater, receive_ok with run.
  - by apply Hlater, load_generation_ok with run.
  - by apply Hlater, push_frame_ok with run.
  - by apply Hlater, request_after_overflow_ok with run.
  - by apply transport_gap_ok with run.
  - by apply Hlater, transport_discard_ok with run.
  - apply Hlater, opened_ok with run; [done|]. intros Ht. cbn in Hs. rewrite Ht in Hs. by case_bool_decide.
  - apply Hlater. exists run. unfold client_step. destruct (transport c); by apply exchange_pending_ok.
  - by apply requester_ok with run.
  - apply Hlater. exists run. by apply worker_pop_ok.
  - apply Hlater. exists run. by apply worker_dispatch_ok.
Qed.

Lemma push_limit m q : limit_ (push m q).1 = limit_ q.
Proof. unfold push. destruct (closed_ q); [done|]. by case_bool_decide. Qed.

Lemma client_step_limit s c : limit_ (message_queue (client_step s c)) = limit_ (message_queue c).
Proof.
  assert (He : limit_ (message_queue (exchange_pending c)) = limit_ (message_queue c))
    by (unfold exchange_pending; by destruct (resnapshot_pending c)).
  unfold client_step. destruct s, (transport c) eqn:Et; try done.
  all: repeat match goal with
    | |- context [if ?b then _ else _] => destruct b; try done
    | |- context [push ?m ?q] => pose proof (push_limit m q); destruct (push m q) as [? []]; try done
    | |- context [?l !! ?i] => destruct (l !! i) as [[]|]; try done
    | |- context [worker ?x] => destruct (worker x); try done
    | |- context [pop ?q] => unfold pop; destruct (messages_ q); try done
    end.
Qed.

Lemma initial_client_ok limit : stream_ok 0 (initial_client limit) [].
Proof.
  split; cbn; try done; try lia.
  - intros g _. apply contiguous_nil.
  - exists [], []. split; [done|by right].
Qed.

Lemma opens_settled_cons s ss c :
  opens_settled (s :: ss) c = opens_settled [s] c && opens_settled ss (client_step s c).
Proof. cbn. by rewrite andb_true_r. Qed.

Lemma client_steps_ok ss n c run :
  stream_ok n c run → n + Z.of_nat (length ss) ≤ u64_max → opens_settled ss c = true →
  ∃ n' run', stream_ok n' (foldl (λ c s, client_step s c) c ss) run' ∧
    limit_ (message_queue (foldl (λ c s, client_step s c) c ss)) = limit_ (message_queue c).
Proof.
  revert n c run. induction ss as [|s ss IH]; intros n c run Hok Hn Hs; [by exists n, run|].
  rewrite opens_settled_cons in Hs. apply andb_prop in Hs as [Hs Hss]. cbn in Hn.
  destruct (client_step_ok n c run s Hok ltac:(lia) Hs) as [run' Hok'].
  destruct (IH (n + 1) _ _ Hok' ltac:(lia) Hss) as (n' & r & ? & Hl). exists n', r. cbn.
  split; [done|]. rewrite Hl. apply client_step_limit.
Qed.

(** C18: The frames a websocket client dispatches in one generation are a
    contiguous part of the frames it received: none is missing, repeated or out of
    order, whatever the interleaving of the transport thread, the message worker
    and the threads that ask for a new snapshot, overflows of the queue included,
    as long as no connection opens between such a request and its discarding of the
    queue; the queue stays within its limit. *)
Theorem generation_frames_contiguous limit ss g :
  Z.of_nat (length ss) ≤ u64_max → opens_settled ss (initial_client limit) = true →
  contiguous (dispatched_in g (run limit ss)) (received (run limit ss)) ∧
  (length (messages_ (message_queue (run limit ss))) ≤ at_least_one limit)%nat.
Proof.
  intros Hn Hs. destruct (client_steps_ok ss 0 _ [] (initial_client_ok limit) ltac:(lia) Hs) as (n & r & Hok & Hl).
  change (foldl _ _ ss) with (run limit ss) in Hok, Hl.
  split; [|pose proof (s_room _ _ _ Hok) as Hr; rewrite Hl in Hr; exact Hr].
  destruct (decide (g < stream_generation (run limit ss))); [by apply (s_past _ _ _ Hok)|].
  destruct (decide (g = stream_generation (run limit ss))) as [->|]; [by eapply current_contiguous|].
  destruct (no_future_tags _ g (s_tags _ _ _ Hok)) as [-> _]; [lia|]. apply contiguous_nil.
Qed.

Definition frame_in (f : string) : list step := [receive f; load_generation; push_frame].
Definition frame_out : list step := [worker_pop; worker_dispatch].

(** A queue of two: the third frame overflows it, a new connection opens, a late
    request is dropped, and the next generation goes on. *)
Definition overflow_schedule : list step :=
  [transport_gap true; transport_discard; opened] ++ frame_in "a" ++ [worker_pop] ++ frame_in "b" ++
  frame_in "c" ++ [worker_dispatch] ++ [receive "d"; load_generation; push_frame; request_after_overflow; requester 0] ++
  [worker_pop; requester 0; worker_dispatch; receive "e"; transport_gap false; transport_discard;
   transport_gap true; transport_discard; opened] ++ frame_in "f" ++ frame_out ++ frame_in "g" ++ frame_out.

Lemma generation_frames_contiguous_witness :
  dispatched (run 2 overflow_schedule) = [("a", 1); ("f", 4); ("g", 4)] ∧
  received (run 2 overflow_schedule) = ["a"; "b"; "c"; "d"; "e"; "f"; "g"] ∧
  contiguous (dispatched_in 4 (run 2 overflow_schedule)) (received (run 2 overflow_schedule)).
Proof.
  split; [vm_compute; reflexivity|]. split; [vm_compute; reflexivity|].
  apply (generation_frames_contiguous 2 overflow_schedule 4); [vm_compute; discriminate|vm_compute; reflexivity].
Defined.

(** A request overtaken by the opening of the connection it asked for. *)
Definition overtaken_request : list step :=
  [request_resnapshot; transport_gap true; transport_discard; opened; requester 0] ++
  frame_in "m4" ++ frame_out ++ frame_in "m5" ++ [requester 0] ++ frame_in "m6" ++ frame_out.

Definition before_overtaking : list step := [request_resnapshot; transport_gap true; transport_discard].

(** A thread that asks for a new snapshot takes the generation and discards the
    queue in two steps; when a connection opens in between, the discarded frames
    may be of the new generation, whose stream then misses them. *)
Lemma overtaken_request_loses_frames :
  dispatched_in 2 (run 8 overtaken_request) = ["m4"; "m6"] ∧
  received (run 8 overtaken_request) = ["m4"; "m5"; "m6"] ∧
  stream_generation (run 8 overtaken_request) = 2 ∧ transport (run 8 before_overtaking) = t_opening ∧
  requesters (run 8 before_overtaking) = [r_increment].
Proof. repeat split; vm_compute; reflexivity. Qed.
