(* ===== verification/Tunnel.v ===== *)
(** * The websocket tunnel (src/websocket_tunnel.cpp, network_route.cpp)

    A websocket behind a proxy is reached through a local listener: [relay] copies
    bytes between the accepted socket and the connection libcurl opened, without
    blocking on either.  [PendingBytes] holds what one side sent and the other has
    not taken.  The relay is a transition system whose events are the results of
    its system calls, in any order the calls allow; its state also records the bytes
    each side sent and was given. *)
From Stdlib Require Import Ascii String.
From S2P Require Import Prelude Text.

#[local] Open Scope Z_scope.

Definition relay_chunk_bytes : Z := 16 * 1024.
Definition max_pending_bytes : Z := 1024 * 1024.

(** ** Bytes not sent yet *)

Record PendingBytes := MkPending { bytes : list ascii; offset : nat }.

Definition no_bytes : PendingBytes := MkPending [] 0%nat.
Definition is_empty (p : PendingBytes) : bool := bool_decide (offset p = length (bytes p)).
Definition pending_size (p : PendingBytes) : Z := Z.of_nat (length (bytes p)) - Z.of_nat (offset p).
Definition has_room (p : PendingBytes) : bool := pending_size p <? max_pending_bytes.
Definition data (p : PendingBytes) : list ascii := drop (offset p) (bytes p).

Definition append (chunk : list ascii) (p : PendingBytes) : PendingBytes :=
  let p :=
    if (relay_chunk_bytes <? Z.of_nat (offset p)) && (Z.of_nat (length (bytes p)) <? Z.of_nat (offset p) * 2)
    then MkPending (drop (offset p) (bytes p)) 0%nat else p in
  MkPending (bytes p ++ chunk) (offset p).

Definition consume (count : nat) (p : PendingBytes) : PendingBytes :=
  let p := MkPending (bytes p) (offset p + count)%nat in
  if bool_decide (offset p = length (bytes p)) then no_bytes else p.

(** What holds of a buffer between calls: the second bound is on its memory. *)
Record pending_ok (p : PendingBytes) : Prop := {
  ok_offset : (offset p ≤ length (bytes p))%nat;
  ok_size : pending_size p < max_pending_bytes + relay_chunk_bytes;
  ok_memory : Z.of_nat (length (bytes p)) ≤ 2 * max_pending_bytes + relay_chunk_bytes }.

(** ** The relay *)

Inductive relay_phase :=
  | p_check | p_read_client | p_read_upstream | p_write_client | p_write_upstream | p_close | p_poll
  | p_closed      (** returned by the test that closes both legs *)
  | p_returned.   (** stopped, woken or failed *)

Record Relay := MkRelay {
  phase : relay_phase;
  to_upstream : PendingBytes;
  to_client : PendingBytes;
  client_eof : bool;
  upstream_eof : bool;
  last_error : string;
  client_sent : list ascii;     (** received from the client so far *)
  upstream_got : list ascii;    (** handed to libcurl *)
  upstream_sent : list ascii;
  client_got : list ascii }.

Definition new_relay : Relay := MkRelay p_check no_bytes no_bytes false false "" [] [] [] [].

(** The results of the calls: [r_got] and [r_took] are positive counts, within the
    buffer offered. *)
Inductive received := r_got (chunk : list ascii) | r_end | r_again | r_interrupted | r_failed (why : string).
Inductive sent := s_took (count : nat) | s_again | s_interrupted | s_failed (why : string).

Inductive relay_event :=
  | ev_stopping (stopping : bool)
  | ev_client_recv (r : received)
  | ev_upstream_recv (r : received)
  | ev_client_send (r : sent)
  | ev_upstream_send (r : sent)
  | ev_next                                 (** a test of the loop, no call *)
  | ev_poll (failed : option string) (woken : bool).

Definition go (q : relay_phase) (s : Relay) : Relay :=
  MkRelay q (to_upstream s) (to_client s) (client_eof s) (upstream_eof s) (last_error s)
    (client_sent s) (upstream_got s) (upstream_sent s) (client_got s).
Definition set_error (why : string) (s : Relay) : Relay :=
  MkRelay (phase s) (to_upstream s) (to_client s) (client_eof s) (upstream_eof s) why
    (client_sent s) (upstream_got s) (upstream_sent s) (client_got s).
Definition set_client_eof (s : Relay) : Relay :=
  MkRelay (phase s) (to_upstream s) (to_client s) true (upstream_eof s) (last_error s)
    (client_sent s) (upstream_got s) (upstream_sent s) (client_got s).
Definition set_upstream_eof (s : Relay) : Relay :=
  MkRelay (phase s) (to_upstream s) (to_client s) (client_eof s) true (last_error s)
    (client_sent s) (upstream_got s) (upstream_sent s) (client_got s).

Definition from_client (chunk : list ascii) (s : Relay) : Relay :=
  MkRelay (phase s) (append chunk (to_upstream s)) (to_client s) (client_eof s) (upstream_eof s) (last_error s)
    (client_sent s ++ chunk) (upstream_got s) (upstream_sent s) (client_got s).
Definition from_upstream (chunk : list ascii) (s : Relay) : Relay :=
  MkRelay (phase s) (to_upstream s) (append chunk (to_client s)) (client_eof s) (upstream_eof s) (last_error s)
    (client_sent s) (upstream_got s) (upstream_sent s ++ chunk) (client_got s).
Definition take_client (count : nat) (s : Relay) : Relay :=
  MkRelay (phase s) (to_upstream s) (consume count (to_client s)) (client_eof s) (upstream_eof s) (last_error s)
    (client_sent s) (upstream_got s) (upstream_sent s) (client_got s ++ take count (data (to_client s))).
Definition take_upstream (count : nat) (s : Relay) : Relay :=
  MkRelay (phase s) (consume count (to_upstream s)) (to_client s) (client_eof s) (upstream_eof s) (last_error s)
    (client_sent s) (upstream_got s ++ take count (data (to_upstream s))) (upstream_sent s) (client_got s).

Definition full_chunk (chunk : list ascii) : bool :=
  negb (bool_decide (chunk = [])) && (Z.of_nat (length chunk) <=? relay_chunk_bytes).
Definition fits (count : nat) (p : PendingBytes) : bool := (0 <? Z.of_nat count) && (Z.of_nat count <=? pending_size p).

Definition reads_client (s : Relay) : bool := negb (client_eof s) && has_room (to_upstream s).
Definition reads_upstream (s : Relay) : bool := negb (upstream_eof s) && has_room (to_client s).
Definition writes_client (s : Relay) : bool := negb (client_eof s) && negb (is_empty (to_client s)).
Definition writes_upstream (s : Relay) : bool := negb (upstream_eof s) && negb (is_empty (to_upstream s)).

Definition closes (s : Relay) : bool :=
  (upstream_eof s && is_empty (to_client s)) || (client_eof s && is_empty (to_upstream s)) || (upstream_eof s && client_eof s).

(** One call, or one test of a loop that does not enter it; [None] when the relay
    does not make that call here. *)
Definition relay_step (s : Relay) (e : relay_event) : option Relay :=
  match phase s, e with
  | p_check, ev_stopping stopping => Some (go (if stopping then p_returned else p_read_client) s)
  | p_read_client, ev_client_recv r =>
      if negb (reads_client s) then None
      else match r with
      | r_got chunk => if full_chunk chunk then Some (from_client chunk s) else None
      | r_end => Some (set_client_eof s)
      | r_interrupted => Some s
      | r_again => Some (go p_read_upstream s)
      | r_failed _ => Some (go p_returned s)
      end
  | p_read_client, ev_next => if reads_client s then None else Some (go p_read_upstream s)
  | p_read_upstream, ev_upstream_recv r =>
      if negb (reads_upstream s) then None
      else match r with
      | r_got chunk => if full_chunk chunk then Some (from_upstream chunk s) else None
      | r_end => Some (set_upstream_eof s)
      | r_again => Some (go p_write_client s)
      | r_interrupted => None
      | r_failed why => Some (set_upstream_eof (set_error ("WebSocket tunnel read failed: " +:+ why) s))
      end
  | p_read_upstream, ev_next => if reads_upstream s then None else Some (go p_write_client s)
  | p_write_client, ev_client_send r =>
      if negb (writes_client s) then None
      else match r with
      | s_took count => if fits count (to_client s) then Some (take_client count s) else None
      | s_interrupted => Some s
      | s_again => Some (go p_write_upstream s)
      | s_failed _ => Some (go p_returned s)
      end
  | p_write_client, ev_next => if writes_client s then None else Some (go p_write_upstream s)
  | p_write_upstream, ev_upstream_send r =>
      if negb (writes_upstream s) then None
      else match r with
      | s_took count => if fits count (to_upstream s) then Some (take_upstream count s) else None
      | s_again => Some (go p_close s)
      | s_interrupted => None
      | s_failed why => Some (go p_returned (set_error ("WebSocket tunnel write failed: " +:+ why) s))
      end
  | p_write_upstream, ev_next => if writes_upstream s then None else Some (go p_close s)
  | p_close, ev_next => Some (go (if closes s then p_closed else p_poll) s)
  | p_poll, ev_poll (Some why) _ => Some (go p_returned (set_error ("poll: " +:+ why) s))
  | p_poll, ev_poll None woken => Some (go (if woken then p_returned else p_check) s)
  | _, _ => None
  end.

(** The descriptors [poll] watches: for the client and for the upstream socket,
    whether to read and whether to write. *)
Definition client_events (s : Relay) : bool * bool := (reads_client s, writes_client s).
Definition upstream_events (s : Relay) : bool * bool := (reads_upstream s, writes_upstream s).
Definition watches (events : bool * bool) : bool := events.1 || events.2.

Definition step (s s' : Relay) : Prop := ∃ e, relay_step s e = Some s'.
Definition reachable : Relay → Prop := rtc step new_relay.

Fixpoint run (s : Relay) (es : list relay_event) : option Relay :=
  match es with
  | [] => Some s
  | e :: es => match relay_step s e with Some s => run s es | None => None end
  end.

(** ** The address the tunnel connects to *)

Section Addresses.
(** [ix::UrlParser::parse]: the scheme, host, path and port of a URL. *)
Context (parse_url : string → option (string * string * string * Z)).

Record TunnelAddress := MkAddress { upstream_url : string; host_header : string; origin_header : string; local_path : string }.

Definition tunnel_address (remote_url : string) : res TunnelAddress :=
  let bad := Throw (invalid_argument ("WebSocket URL must use ws:// or wss://: " +:+ remote_url)) in
  match parse_url remote_url with
  | None => bad
  | Some (protocol, host, path, port) =>
      if negb (bool_decide (protocol = "ws") || bool_decide (protocol = "wss")) || bool_decide (host = "") then bad
      else
        let authority :=
          (if bool_decide (":"%char ∈ chars host) then "[" +:+ host +:+ "]" else host) +:+ ":" +:+ to_string port in
        Ok (MkAddress ((if bool_decide (protocol = "wss") then "https://" else "http://") +:+ authority +:+ "/")
              authority (protocol +:+ "://" +:+ authority) path)
  end.
End Addresses.

(** ** Routes *)

Record NetworkRoute := MkRoute { proxy_url : string; interface_name : string }.

Definition resolve_network_route (default_route : NetworkRoute) (proxy interface : string) : NetworkRoute :=
  MkRoute (if bool_decide (proxy = "") then proxy_url default_route else proxy)
    (if bool_decide (interface = "") then interface_name default_route else interface).

(** ** The buffer is a queue of bounded memory *)

Lemma data_size p : pending_ok p → Z.of_nat (length (data p)) = pending_size p.
Proof. intros [? _ _]. unfold data, pending_size. rewrite length_drop. lia. Qed.

Lemma no_bytes_ok : pending_ok no_bytes.
Proof. constructor; cbn; unfold pending_size; cbn; unfold max_pending_bytes, relay_chunk_bytes; lia. Qed.

Lemma empty_data p : pending_ok p → is_empty p = true ↔ data p = [].
Proof.
  intros [Ho _ _]. unfold is_empty, data. rewrite bool_decide_eq_true. split.
  - intros ->. by apply drop_ge.
  - intros E. apply (f_equal length) in E. rewrite length_drop in E. cbn in E. lia.
Qed.

Lemma append_data chunk p :
  pending_ok p → has_room p = true → Z.of_nat (length chunk) ≤ relay_chunk_bytes →
  data (append chunk p) = data p ++ chunk ∧ pending_ok (append chunk p).
Proof.
  intros [Ho Hs Hm] Hroom%Z.ltb_lt Hc. unfold append, pending_size in *.
  assert (0 ≤ relay_chunk_bytes ≤ max_pending_bytes) by (unfold max_pending_bytes, relay_chunk_bytes; lia).
  destruct (Z.ltb_spec relay_chunk_bytes (Z.of_nat (offset p)));
    [destruct (Z.ltb_spec (Z.of_nat (length (bytes p))) (Z.of_nat (offset p) * 2))|]; cbn [andb];
    unfold data; cbn [bytes offset]; (split; [by rewrite ?drop_0, ?drop_app_le by lia|]);
    constructor; unfold pending_size; cbn [bytes offset]; rewrite ?length_app, ?length_drop; lia.
Qed.

Lemma consume_data count p :
  pending_ok p → Z.of_nat count ≤ pending_size p →
  data (consume count p) = drop count (data p) ∧ pending_ok (consume count p).
Proof.
  intros [Ho Hs Hm] Hc. unfold consume, data, pending_size in *. cbn [bytes offset]. case_bool_decide as E; cbn [bytes offset no_bytes].
  - split; [|apply no_bytes_ok]. rewrite drop_drop. symmetry. apply drop_ge. lia.
  - split; [by rewrite drop_drop|]. constructor; unfold pending_size; cbn [bytes offset]; lia.
Qed.

(** ** The relay loses nothing *)

Record relay_ok (s : Relay) : Prop := {
  ok_to_upstream : pending_ok (to_upstream s);
  ok_to_client : pending_ok (to_client s);
  ok_client_bytes : client_sent s = upstream_got s ++ data (to_upstream s);
  ok_upstream_bytes : upstream_sent s = client_got s ++ data (to_client s);
  ok_closed : phase s = p_closed → closes s = true;
  ok_poll : phase s = p_poll → closes s = false }.

Lemma go_ok q s :
  relay_ok s → (q = p_closed → closes s = true) → (q = p_poll → closes s = false) → relay_ok (go q s).
Proof. intros [] Hq Hq'. by constructor. Qed.

(** In a phase of the four loops. *)
Definition in_loop (s : Relay) : Prop := phase s ≠ p_closed ∧ phase s ≠ p_poll.

Lemma kept_ok (s s' : Relay) :
  relay_ok s → in_loop s → phase s' = phase s → to_upstream s' = to_upstream s → to_client s' = to_client s →
  client_sent s' = client_sent s → upstream_got s' = upstream_got s → upstream_sent s' = upstream_sent s →
  client_got s' = client_got s → relay_ok s'.
Proof. intros [] [] Ep E1 E2 E3 E4 E5 E6. constructor; rewrite ?E1, ?E2, ?E3, ?E4, ?E5, ?E6; congruence. Qed.

Lemma set_error_ok why s : relay_ok s → relay_ok (set_error why s).
Proof. by intros []. Qed.

Lemma from_client_ok chunk s :
  relay_ok s → in_loop s → reads_client s = true → full_chunk chunk = true → relay_ok (from_client chunk s).
Proof.
  intros [Hu Hc Eu Ec Hcl Hpo] [Hp Hq] [_ Hroom]%andb_true_iff [_ Hlen%Z.leb_le]%andb_true_iff.
  destruct (append_data chunk (to_upstream s) Hu Hroom Hlen) as [Hd Hok].
  constructor; cbn [from_client from_upstream take_client take_upstream phase to_upstream to_client client_sent upstream_got upstream_sent client_got]; try done.
  by rewrite Hd, Eu, app_assoc.
Qed.

Lemma from_upstream_ok chunk s :
  relay_ok s → in_loop s → reads_upstream s = true → full_chunk chunk = true → relay_ok (from_upstream chunk s).
Proof.
  intros [Hu Hc Eu Ec Hcl Hpo] [Hp Hq] [_ Hroom]%andb_true_iff [_ Hlen%Z.leb_le]%andb_true_iff.
  destruct (append_data chunk (to_client s) Hc Hroom Hlen) as [Hd Hok].
  constructor; cbn [from_client from_upstream take_client take_upstream phase to_upstream to_client client_sent upstream_got upstream_sent client_got]; try done.
  by rewrite Hd, Ec, app_assoc.
Qed.

Lemma take_client_ok count s :
  relay_ok s → in_loop s → fits count (to_client s) = true → relay_ok (take_client count s).
Proof.
  intros [Hu Hc Eu Ec Hcl Hpo] [Hp Hq] [_ Hfit%Z.leb_le]%andb_true_iff.
  destruct (consume_data count (to_client s) Hc Hfit) as [Hd Hok].
  constructor; cbn [from_client from_upstream take_client take_upstream phase to_upstream to_client client_sent upstream_got upstream_sent client_got]; try done.
  by rewrite Hd, Ec, <- app_assoc, take_drop.
Qed.

Lemma take_upstream_ok count s :
  relay_ok s → in_loop s → fits count (to_upstream s) = true → relay_ok (take_upstream count s).
Proof.
  intros [Hu Hc Eu Ec Hcl Hpo] [Hp Hq] [_ Hfit%Z.leb_le]%andb_true_iff.
  destruct (consume_data count (to_upstream s) Hu Hfit) as [Hd Hok].
  constructor; cbn [from_client from_upstream take_client take_upstream phase to_upstream to_client client_sent upstream_got upstream_sent client_got]; try done.
  by rewrite Hd, Eu, <- app_assoc, take_drop.
Qed.

Lemma relay_step_ok s e s' : relay_ok s → relay_step s e = Some s' → relay_ok s'.
Proof.
  intros Hok Hs. unfold relay_step in Hs.
  destruct (phase s) eqn:Hp, e; try discriminate Hs;
    try assert (in_loop s) by (by split; rewrite Hp);
    repeat (match type of Hs with context [if ?b then _ else _] => destruct b eqn:? end ||
            match type of Hs with context [match ?r with _ => _ end] => destruct r eqn:? end; try discriminate Hs);
    injection Hs as <-; try exact Hok;
    repeat match goal with H : negb _ = false |- _ => apply negb_false_iff in H end;
    first [ by apply go_ok
          | by eapply kept_ok
          | by apply from_client_ok
          | by apply from_upstream_ok
          | by apply take_client_ok
          | by apply take_upstream_ok
          | by apply go_ok; [apply set_error_ok|..] ].
Qed.

Lemma new_relay_ok : relay_ok new_relay.
Proof. constructor; cbn; [apply no_bytes_ok..| | | |]; done. Qed.

Lemma reachable_relay_ok s : reachable s → relay_ok s.
Proof.
  intros H. assert (relay_ok new_relay) as H0 by apply new_relay_ok. unfold reachable in H. induction H as [|? ? ? [e He] ? IH]; [done|].
  apply IH. by eapply relay_step_ok.
Qed.

(** What one side got is a first part of what the other sent. *)
Definition delivered_in_order (s : Relay) : Prop :=
  upstream_got s `prefix_of` client_sent s ∧ client_got s `prefix_of` upstream_sent s.


(** ** Witness *)

Lemma run_reaches es s s' : run s es = Some s' → rtc step s s'.
Proof.
  revert s. induction es as [|e es IH]; intros s; cbn [run]; [by intros [= ->]|].
  destruct (relay_step s e) as [s1|] eqn:E; [|done]. intros H. eapply rtc_l; [by exists e|by apply IH].
Qed.

(** The client's request is forwarded, and the server's answer, taken in two
    pieces, before the server's close is passed on. *)
Definition short_session : list relay_event :=
  [ev_stopping false; ev_client_recv (r_got (chars "GET")); ev_client_recv r_again; ev_upstream_recv (r_got (chars "101"));
   ev_upstream_recv r_again; ev_client_send (s_took 2); ev_client_send s_again; ev_upstream_send (s_took 3); ev_next; ev_next;
   ev_poll None false; ev_stopping false; ev_client_recv r_again; ev_upstream_recv r_end; ev_next; ev_client_send (s_took 1);
   ev_next; ev_next; ev_next].

