(* ===== verification/HttpClient.v ===== *)
(** * The HTTP client
    (src/http_client.cpp, http_client_request.cpp, http_client_connection.cpp,
    http_global.cpp)

    The client over a libcurl handle: the options it sets before and after each
    transfer, the headers it reads, its statistics, the heartbeat, and the count of
    users that keeps libcurl initialised.  libcurl is a parameter: a handle keeps
    the last value of each option, and a transfer is answered from those values and
    the values of the transfers before it.  A call that holds [curl_mutex_] is one
    step; [foreground_waiters_] is what the heartbeat reads of the other threads. *)
From Stdlib Require Import Ascii String Floats.SpecFloat.
From S2P Require Import Prelude Text Float64 Sdk Tunnel.

#[local] Open Scope Z_scope.

(** ** Headers of a response *)

Definition is_blank (c : ascii) : bool := bool_decide (c = " "%char) || in_range (chr 9) (chr 13) c.

Fixpoint skip_blanks (cs : list ascii) : list ascii :=
  match cs with c :: cs' => if is_blank c then skip_blanks cs' else cs | [] => [] end.
Definition trim_blanks (cs : list ascii) : list ascii := rev (skip_blanks (rev (skip_blanks cs))).

Fixpoint at_colon (cs : list ascii) : option (list ascii * list ascii) :=
  match cs with
  | [] => None
  | c :: cs => if bool_decide (c = ":"%char) then Some ([], cs) else '(key, value) ← at_colon cs; Some (c :: key, value)
  end.

(** One line; a later line with the same key replaces the value. *)
Definition header_callback (line : string) (headers : gmap string string) : gmap string string :=
  match at_colon (chars line) with
  | None => headers
  | Some (key, value) =>
      let key := str (map to_lower (trim_blanks key)) in
      if bool_decide (key = "") then headers else <[key := str (trim_blanks value)]> headers
  end.

Definition read_headers (lines : list string) : gmap string string := foldl (λ h line, header_callback line h) ∅ lines.

(** ** libcurl *)

Record HttpClientOptions := MkHttpOptions {
  timeout_ms : Z; connect_timeout_ms : Z; dns_cache_timeout_seconds : Z; tcp_keepalive : bool; tcp_keepidle_seconds : Z;
  tcp_keepintvl_seconds : Z; tcp_nodelay : bool; allow_connection_reuse : bool; option_proxy : string;
  user_agent : string; option_interface : string }.

Definition default_options : HttpClientOptions := MkHttpOptions 5000 2000 60 true 20 20 true true "" "" "".

(** The last value of each option. *)
Record CurlHandle := MkHandle {
  h_url : string;
  h_headers : list string;
  h_httpget : bool;
  h_post : bool;
  h_postfields : option string;
  h_postfieldsize : Z;
  h_customrequest : option string;
  h_timeout_ms : Z;
  h_abort_for_waiters : bool;    (** the progress callback of the heartbeat *)
  h_options : HttpClientOptions;
  h_route : NetworkRoute }.

Record CurlAnswer := MkAnswer {
  curl_code : Z;                 (** 0: CURLE_OK *)
  answer_status : Z;
  answer_chunks : list string;
  answer_headers : list string;
  num_connects : Z;
  answer_elapsed : double }.

Class Curl := {
  curl_perform : list CurlHandle → CurlHandle → CurlAnswer;
  curl_easy_strerror : Z → string;
  default_network_route : NetworkRoute }.

(** ** The client *)

Record RequestMetrics := MkMetrics {
  m_method : string; m_path : string; m_status : Z; m_elapsed : double; m_bytes : Z; m_curl : Z; m_reused : bool }.

Record ConnectionStats := MkStats {
  total_requests : Z; reused_connections : Z; curl_errors : Z; bytes_received : Z; status_counts : gmap Z Z;
  total_latency : double; last_latency : double; min_latency : double; max_latency : double;
  connection_warm : bool; last_metrics : option RequestMetrics }.

Definition no_stats : ConnectionStats := MkStats 0 0 0 0 ∅ fzero fzero fzero fzero false None.

Record HttpClient := MkClient {
  curl_ : CurlHandle;
  headers_ : list string;
  base_url_ : string;
  options_ : HttpClientOptions;
  stats_ : ConnectionStats;
  performed : list CurlHandle    (** what the transfers so far were given *) }.

Section Client.
Context `{L : Curl}.

Definition set_curl (f : CurlHandle → CurlHandle) (c : HttpClient) : HttpClient :=
  MkClient (f (curl_ c)) (headers_ c) (base_url_ c) (options_ c) (stats_ c) (performed c).
Definition set_headers (headers : list string) (c : HttpClient) : HttpClient :=
  MkClient (curl_ c) headers (base_url_ c) (options_ c) (stats_ c) (performed c).
Definition set_stats (s : ConnectionStats) (c : HttpClient) : HttpClient :=
  MkClient (curl_ c) (headers_ c) (base_url_ c) (options_ c) s (performed c).

(** [apply_options] and [apply_route]. *)
Definition apply_options (c : HttpClient) : HttpClient :=
  let o := options_ c in
  let route := resolve_network_route default_network_route (option_proxy o) (option_interface o) in
  set_curl (λ h, MkHandle (h_url h) (h_headers h) (h_httpget h) (h_post h) (h_postfields h) (h_postfieldsize h)
    (h_customrequest h) (timeout_ms o) (h_abort_for_waiters h) o route) c.

Definition configure (options : HttpClientOptions) (c : HttpClient) : HttpClient :=
  apply_options (MkClient (curl_ c) (headers_ c) (base_url_ c) options (stats_ c) (performed c)).

Definition with_timeout (ms : Z) (o : HttpClientOptions) : HttpClientOptions :=
  MkHttpOptions ms (connect_timeout_ms o) (dns_cache_timeout_seconds o) (tcp_keepalive o) (tcp_keepidle_seconds o)
    (tcp_keepintvl_seconds o) (tcp_nodelay o) (allow_connection_reuse o) (option_proxy o) (user_agent o) (option_interface o).
Definition set_timeout_ms (ms : Z) (c : HttpClient) : HttpClient := configure (with_timeout ms (options_ c)) c.

Definition set_base_url (base_url : string) (c : HttpClient) : HttpClient :=
  let cs := chars base_url in
  MkClient (curl_ c) (headers_ c) (if bool_decide (last cs = Some "/"%char) then str (removelast cs) else base_url)
    (options_ c) (stats_ c) (performed c).

Definition add_header (header : string) (c : HttpClient) : HttpClient := set_headers (headers_ c ++ [header]) c.

(** [init]: the constructor, where libcurl gives a handle. *)
Definition new_client : HttpClient :=
  add_header "Content-Type: application/json" (add_header "Accept: application/json"
    (add_header "Connection: keep-alive" (apply_options
      (MkClient (MkHandle "" [] false false None 0 None 0 false default_options (MkRoute "" "")) [] "" default_options no_stats [])))).

(** ** Transfers *)

Definition record_transfer (method path : string) (r : HttpResponse) (a : CurlAnswer) (s : ConnectionStats) : ConnectionStats :=
  let total := total_requests s + 1 in
  let elapsed := answer_elapsed a in
  let bytes := Z.of_nat (length (chars (body r))) in
  let reused := num_connects a =? 0 in
  MkStats total (if reused then reused_connections s + 1 else reused_connections s)
    (if curl_code a =? 0 then curl_errors s else curl_errors s + 1) (bytes_received s + bytes)
    (<[status_code r := default 0 (status_counts s !! status_code r) + 1]> (status_counts s))
    (fadd binary64 (total_latency s) elapsed) elapsed
    (if total =? 1 then elapsed else fmin (min_latency s) elapsed) (fmax (max_latency s) elapsed)
    (connection_warm s) (Some (MkMetrics method path (status_code r) elapsed bytes (curl_code a) reused)).

Definition set_target (url : string) (headers : list string) (h : CurlHandle) : CurlHandle :=
  MkHandle url headers (h_httpget h) (h_post h) (h_postfields h) (h_postfieldsize h) (h_customrequest h)
    (h_timeout_ms h) (h_abort_for_waiters h) (h_options h) (h_route h).

Definition perform (method path url : string) (record_stats : bool) (c : HttpClient) : HttpClient * HttpResponse :=
  let c := set_curl (set_target url (headers_ c)) c in
  let a := curl_perform (performed c) (curl_ c) in
  let response :=
    MkResponse (answer_status a) (foldl String.append "" (answer_chunks a))
      (if curl_code a =? 0 then "" else curl_easy_strerror (curl_code a)) (read_headers (answer_headers a)) in
  let c := MkClient (curl_ c) (headers_ c) (base_url_ c) (options_ c) (stats_ c) (performed c ++ [curl_ c]) in
  (if record_stats then set_stats (record_transfer method path response a (stats_ c)) c else c, response).

Definition set_method (httpget post : bool) (fields : option string) (size : Z) (custom : option string) (h : CurlHandle) :
    CurlHandle :=
  MkHandle (h_url h) (h_headers h) httpget post fields size custom (h_timeout_ms h) (h_abort_for_waiters h) (h_options h) (h_route h).

Definition url_of (path : string) (c : HttpClient) : string :=
  if bool_decide (base_url_ c = "") then path else base_url_ c +:+ path.

Definition get (path : string) (c : HttpClient) : HttpClient * HttpResponse :=
  let c := set_curl (λ h, set_method true false (h_postfields h) (h_postfieldsize h) (h_customrequest h) h) c in
  perform "GET" path (url_of path c) true c.

Definition post (path payload : string) (c : HttpClient) : HttpClient * HttpResponse :=
  let c := set_curl (λ h, set_method (h_httpget h) true (Some payload) (Z.of_nat (String.length payload)) (h_customrequest h) h) c in
  let '(c, response) := perform "POST" path (url_of path c) true c in
  (set_curl (λ h, set_method (h_httpget h) false None 0 (h_customrequest h) h) c, response).

Definition del (path payload : string) (c : HttpClient) : HttpClient * HttpResponse :=
  let c := set_curl (λ h, set_method (h_httpget h) (h_post h) (if bool_decide (payload = "") then None else Some payload)
                            (Z.of_nat (String.length payload)) (Some "DELETE") h) c in
  let '(c, response) := perform "DELETE" path (url_of path c) true c in
  (set_curl (λ h, set_method (h_httpget h) false None 0 None h) c, response).

(** The overloads with headers of their own, in the order of their map. *)
Definition header_line (header : string * string) : string := header.1 +:+ ": " +:+ header.2.

Definition with_headers (custom : list (string * string)) (request : HttpClient → HttpClient * HttpResponse) (c : HttpClient) :
    HttpClient * HttpResponse :=
  let original := headers_ c in
  let '(c, response) := request (set_headers (original ++ (header_line <$> custom)) c) in
  (set_headers original c, response).

(** ** Keeping the connection open *)

Definition set_warm (s : ConnectionStats) : ConnectionStats :=
  MkStats (total_requests s) (reused_connections s) (curl_errors s) (bytes_received s) (status_counts s) (total_latency s)
    (last_latency s) (min_latency s) (max_latency s) true (last_metrics s).

Definition warm_connection (c : HttpClient) : HttpClient * bool :=
  if bool_decide (base_url_ c = "") then (c, false)
  else
    let '(c, response) := get "/" c in
    if negb (response_ok response) && negb (status_code response =? 404) then (c, false)
    else (set_stats (set_warm (stats_ c)) c, true).

Definition heartbeat_timeout_ms : Z := 75.

Definition set_heartbeat (timeout : Z) (abort : bool) (h : CurlHandle) : CurlHandle :=
  MkHandle (h_url h) (h_headers h) (h_httpget h) (h_post h) (h_postfields h) (h_postfieldsize h) (h_customrequest h)
    timeout abort (h_options h) (h_route h).

(** [waiters1] and [waiters2]: threads waiting before and after the lock, which
    [locked] says was free. *)
Definition heartbeat_once (waiters1 waiters2 : nat) (locked : bool) (c : HttpClient) : HttpClient :=
  if (0 <? Z.of_nat waiters1) || negb locked || (0 <? Z.of_nat waiters2) || bool_decide (base_url_ c = "") then c
  else
    let configured := timeout_ms (options_ c) in
    let bounded := if 0 <? configured then Z.min configured heartbeat_timeout_ms else heartbeat_timeout_ms in
    let c := set_curl (λ h, set_method true false (h_postfields h) (h_postfieldsize h) (h_customrequest h)
                              (set_heartbeat bounded true h)) c in
    let '(c, _) := perform "HEARTBEAT" "/" (base_url_ c +:+ "/") false c in
    set_curl (set_heartbeat configured false) c.

Definition start_heartbeat (interval_seconds : Z) (running : bool) : res bool :=
  require (0 <? interval_seconds) (invalid_argument "heartbeat interval must be positive");;
  Ok true.

(** ** Operations *)

Inductive http_op :=
  | op_get (path : string) (custom : list (string * string))
  | op_post (path payload : string) (custom : list (string * string))
  | op_del (path payload : string) (custom : list (string * string))
  | op_warm
  | op_heartbeat (waiters1 waiters2 : nat) (locked : bool)
  | op_header (header : string)
  | op_base (url : string)
  | op_configure (options : HttpClientOptions).

Definition http_step (c : HttpClient) (o : http_op) : HttpClient :=
  match o with
  | op_get path custom => (with_headers custom (get path) c).1
  | op_post path payload custom => (with_headers custom (post path payload) c).1
  | op_del path payload custom => (with_headers custom (del path payload) c).1
  | op_warm => (warm_connection c).1
  | op_heartbeat w1 w2 locked => heartbeat_once w1 w2 locked c
  | op_header header => add_header header c
  | op_base url => set_base_url url c
  | op_configure options => configure options c
  end.

(** ** No request is sent with what belongs to another *)

(** What a request is sent with of its own. *)
Definition own_headers (o : http_op) : list string :=
  match o with op_get _ custom | op_post _ _ custom | op_del _ _ custom => header_line <$> custom | _ => [] end.
Definition own_payload (o : http_op) : option string :=
  match o with
  | op_post _ payload _ => Some payload
  | op_del _ payload _ => if bool_decide (payload = "") then None else Some payload
  | _ => None
  end.
Definition own_method (o : http_op) : option string := match o with op_del _ _ _ => Some "DELETE" | _ => None end.

Definition own_transfer (c : HttpClient) (o : http_op) (h : CurlHandle) : Prop :=
  h_headers h = headers_ c ++ own_headers o ∧ h_postfields h = own_payload o ∧ h_customrequest h = own_method o ∧
  h_post h = (match o with op_post _ _ _ => true | _ => false end) ∧
  h_abort_for_waiters h = (match o with op_heartbeat _ _ _ => true | _ => false end) ∧
  match o with op_heartbeat _ _ _ => 0 < h_timeout_ms h ≤ heartbeat_timeout_ms | _ => h_timeout_ms h = timeout_ms (options_ c) end.

(** A handle between requests. *)
Record at_rest (c : HttpClient) : Prop := {
  rest_fields : h_postfields (curl_ c) = None;
  rest_custom : h_customrequest (curl_ c) = None;
  rest_post : h_post (curl_ c) = false;
  rest_abort : h_abort_for_waiters (curl_ c) = false;
  rest_timeout : h_timeout_ms (curl_ c) = timeout_ms (options_ c) }.

Lemma new_client_at_rest : at_rest new_client.
Proof. by constructor. Qed.

Definition default_headers (o : http_op) : list string := match o with op_header header => [header] | _ => [] end.

(** Each operation sends at most one request, with the headers set for all, its own
    headers and its own payload; the next request finds none of them. *)
Lemma http_step_isolated c o :
  at_rest c →
  let c' := http_step c o in
  at_rest c' ∧ headers_ c' = headers_ c ++ default_headers o ∧
  ∃ sent, performed c' = performed c ++ sent ∧ Forall (own_transfer c o) sent ∧ (length sent ≤ 1)%nat.
Proof.
  intros [Hf Hc Hp Ha Ht].
  assert (∀ c', performed c' = performed c → ∃ sent, performed c' = performed c ++ sent ∧ Forall (own_transfer c o) sent ∧
    (length sent ≤ 1)%nat) as Hnone by (intros c' E; exists []; rewrite E, app_nil_r; split_and!; [done|constructor|cbn; lia]).
  assert (∀ c' h, performed c' = performed c ++ [h] → own_transfer c o h → ∃ sent, performed c' = performed c ++ sent ∧
    Forall (own_transfer c o) sent ∧ (length sent ≤ 1)%nat) as Hone
    by (intros c' h E ?; exists [h]; rewrite E; split_and!; [done|by constructor|done]).
  destruct o as [path custom|path payload custom|path payload custom| |w1 w2 locked|header|url|options]; cbn [http_step default_headers];
    rewrite ?app_nil_r.
  - split; [by constructor|]. split; [done|]. eapply Hone; [reflexivity|]. by split_and!.
  - split; [by constructor|]. split; [done|]. eapply Hone; [reflexivity|]. by split_and!.
  - split; [by constructor|]. split; [done|]. eapply Hone; [reflexivity|]. by split_and!.
  - unfold warm_connection. destruct (bool_decide (base_url_ c = "")); [by split; [|split; [|apply Hnone]]|].
    destruct (get "/" c) as [c' response] eqn:Eg.
    assert (at_rest c' ∧ headers_ c' = headers_ c ∧ ∃ h, performed c' = performed c ++ [h] ∧ own_transfer c op_warm h)
      as ([] & Eh & h & Ep & Hown).
    { injection Eg as <- _. split; [by constructor|]. split; [done|]. eexists. split; [reflexivity|].
      split_and!; cbn; by rewrite ?app_nil_r. }
    destruct (_ && _); cbn [fst]; (split; [by constructor|]; split; [done|]; by eapply Hone).
  - unfold heartbeat_once. destruct (_ || _); [by split; [|split; [|apply Hnone]]|].
    cbn [perform]. split; [by constructor|]. split; [done|]. eapply Hone; [reflexivity|].
    split_and!; cbn; rewrite ?app_nil_r; try done; destruct (Z.ltb_spec 0 (timeout_ms (options_ c))); unfold heartbeat_timeout_ms; lia.
  - split; [by constructor|]. split; [done|]. by apply Hnone.
  - split; [by constructor|]. split; [done|]. by apply Hnone.
  - split; [by constructor|]. split; [done|]. by apply Hnone.
Qed.


(** ** Statistics *)

Definition count_sum (counts : gmap Z Z) : Z := map_fold (λ _ n total, n + total) 0 counts.

Lemma count_sum_add status counts :
  count_sum (<[status := default 0 (counts !! status) + 1]> counts) = count_sum counts + 1.
Proof.
  assert (∀ k n m, m !! k = None → count_sum (<[k := n]> m) = n + count_sum m) as Hnew.
  { intros k n m Hk. unfold count_sum. apply map_fold_insert_L; [intros; lia|done]. }
  rewrite <- insert_delete_eq, Hnew by apply lookup_delete_eq. destruct (counts !! status) as [n|] eqn:E; cbn [default].
  - pose proof (Hnew status n (delete status counts) (lookup_delete_eq counts status)) as Hn.
    rewrite insert_delete_id in Hn by done. unfold id. lia.
  - rewrite delete_id by done. lia.
Qed.

Record stats_ok (s : ConnectionStats) : Prop := {
  stats_reused : 0 ≤ reused_connections s ≤ total_requests s;
  stats_errors : 0 ≤ curl_errors s ≤ total_requests s;
  stats_bytes : 0 ≤ bytes_received s;
  stats_counts : count_sum (status_counts s) = total_requests s }.

Lemma record_transfer_ok method path r a s : stats_ok s → stats_ok (record_transfer method path r a s).
Proof.
  intros [Hr He Hb Hc]. constructor; cbn.
  - destruct (_ =? _); lia.
  - destruct (_ =? _); lia.
  - lia.
  - by rewrite count_sum_add, Hc.
Qed.

(** Every request but the heartbeat's is counted, under its status. *)
Lemma http_step_stats c o : stats_ok (stats_ c) → stats_ok (stats_ (http_step c o)).
Proof.
  intros Hs. destruct o; cbn; try done; try by apply record_transfer_ok.
  - unfold warm_connection. destruct (bool_decide _); [done|]. cbn.
    destruct (_ && _); cbn; [by apply record_transfer_ok|]. destruct (record_transfer_ok "GET" "/" (get "/" c).2
      (curl_perform (performed c) (set_target (url_of "/" c) (headers_ c) (set_method true false (h_postfields (curl_ c))
        (h_postfieldsize (curl_ c)) (h_customrequest (curl_ c)) (curl_ c)))) (stats_ c) Hs). by constructor.
  - unfold heartbeat_once. by destruct (_ || _).
Qed.
End Client.

(** ** libcurl's global state *)

Record GlobalRegistry := MkRegistry { client_references : Z; manual_reference : bool; initialized : bool }.

Definition empty_registry : GlobalRegistry := MkRegistry 0 false false.

(** [code]: what [curl_global_init] returns, if it is called. *)
Definition initialize_locked (code : Z) (g : GlobalRegistry) : res GlobalRegistry :=
  if initialized g then Ok g
  else
    require (code =? 0) (runtime_error ("Failed to initialize CURL globally: " +:+ to_string code));;
    Ok (MkRegistry (client_references g) (manual_reference g) true).

(** Also whether [curl_global_cleanup] is called. *)
Definition cleanup_if_unused_locked (g : GlobalRegistry) : GlobalRegistry * bool :=
  if negb (initialized g) || manual_reference g || negb (client_references g =? 0) then (g, false)
  else (MkRegistry (client_references g) (manual_reference g) false, true).

Definition acquire_http_global (code : Z) (g : GlobalRegistry) : res GlobalRegistry :=
  g ← initialize_locked code g;
  Ok (MkRegistry (u64 (client_references g + 1)) (manual_reference g) (initialized g)).

Definition release_http_global (g : GlobalRegistry) : GlobalRegistry * bool :=
  if client_references g =? 0 then (g, false)
  else cleanup_if_unused_locked (MkRegistry (client_references g - 1) (manual_reference g) (initialized g)).

Definition acquire_manual_http_global (code : Z) (g : GlobalRegistry) : res GlobalRegistry :=
  if manual_reference g then Ok g
  else g ← initialize_locked code g; Ok (MkRegistry (client_references g) true (initialized g)).

Definition release_manual_http_global (g : GlobalRegistry) : GlobalRegistry * bool :=
  if manual_reference g then cleanup_if_unused_locked (MkRegistry (client_references g) false (initialized g)) else (g, false).

Inductive global_op := acquire (code : Z) | release | acquire_manual (code : Z) | release_manual.

(** An operation that throws leaves the registry as it was. *)
Definition global_step (g : GlobalRegistry) (o : global_op) : GlobalRegistry * bool :=
  match o with
  | acquire code => (match acquire_http_global code g with Ok g' => g' | Throw _ => g end, false)
  | release => release_http_global g
  | acquire_manual code => (match acquire_manual_http_global code g with Ok g' => g' | Throw _ => g end, false)
  | release_manual => release_manual_http_global g
  end.

(** libcurl is initialised exactly while someone uses it. *)
Definition registry_ok (g : GlobalRegistry) : Prop :=
  0 ≤ client_references g ∧ initialized g = manual_reference g || negb (client_references g =? 0).

Lemma registry_kept g o :
  registry_ok g → client_references g < 2 ^ 63 →
  let '(g', cleaned) := global_step g o in
  registry_ok g' ∧ (cleaned = true → client_references g' = 0 ∧ manual_reference g' = false).
Proof.
  intros [Hr Hi] Hb. destruct g as [n m i]. cbn [client_references manual_reference initialized] in *. subst i.
  destruct o as [code| |code|]; cbn; unfold acquire_http_global, release_http_global, acquire_manual_http_global,
    release_manual_http_global, cleanup_if_unused_locked, initialize_locked; cbn;
    destruct m, (Z.eqb_spec n 0); cbn; try (destruct (Z.eqb_spec code 0); cbn); unfold registry_ok; cbn;
    rewrite ?u64_id by (unfold is_u64, u64_max; lia); try done;
    try (destruct (Z.eqb_spec (n - 1) 0); cbn); try (destruct (Z.eqb_spec (n + 1) 0); cbn); split; lia || done || (split; lia || done).
Qed.
