(* ===== verification/Geoblock.v ===== *)
(** * Whether trading is blocked here (src/geoblock.cpp)

    One request and the verdict in its answer, which fails closed. *)
From Stdlib Require Import Ascii String Floats.SpecFloat.
From S2P Require Import Prelude Text Float64 Sdk RestParsing Pagination HttpClient.

#[local] Open Scope Z_scope.

Record GeoblockStatus := MkGeoblock { blocked : bool; geo_ip : string; geo_country : string; geo_region : string }.

Definition geoblock_path : string := "/api/geoblock".

Section Geoblock.
Context `{JsonLibrary, DateReader, JsonRuntime, Curl}.

Definition optional_string (body : json) (key : string) : string :=
  match json_field body key with Some (JString text) => text | _ => "" end.

(** [now]: the clock, for the seconds after which a refused request may be sent again. *)
Definition geoblock_answer (now : Z) (response : HttpResponse) : Result GeoblockStatus :=
  if negb (response_ok response) then failure (make_sdk_error response geoblock_path now)
  else match json_parse (body response) with
  | None => failure (make_parse_error (parse_what (body response)) geoblock_path (body response))
  | Some parsed =>
      match json_field parsed "blocked" with
      | Some (JBool b) =>
          success (MkGeoblock b (optional_string parsed "ip") (optional_string parsed "country") (optional_string parsed "region"))
      | _ =>
          failure (make_parse_error "geoblock response requires a boolean blocked field" geoblock_path (body response))
      end
  end.

Definition check_geoblock (now : Z) (http : HttpClient) : HttpClient * Result GeoblockStatus :=
  let '(http, response) := get geoblock_path http in (http, geoblock_answer now response).

(** With a client of its own. *)
Definition check_geoblock_at (now : Z) (options : HttpClientOptions) (base_url : string) : Result GeoblockStatus :=
  (check_geoblock now (set_base_url base_url (configure options new_client))).2.

(** Nothing but a successful answer that says so in as many words lets trade. *)
Lemma geoblock_fails_closed now http http' status :
  check_geoblock now http = (http', success status) →
  ∃ response parsed,
    get geoblock_path http = (http', response) ∧ response_ok response = true ∧ json_parse (body response) = Some parsed ∧
    json_field parsed "blocked" = Some (JBool (blocked status)).
Proof.
  unfold check_geoblock. destruct (get geoblock_path http) as [c response] eqn:E. intros [= <- Ha].
  unfold geoblock_answer in Ha. destruct (response_ok response) eqn:Er; [|done]. cbn [negb] in Ha.
  destruct (json_parse _) as [parsed|] eqn:Ep; [|done].
  destruct (json_field parsed "blocked") as [[]|] eqn:Ef; try done. injection Ha as <-. by exists response, parsed.
Qed.
End Geoblock.
