(* ===== verification/EvmCursor.v ===== *)
(** * Quantities, block ranges and cursors (src/evm_cursor_store.cpp,
    src/evm_log_identity.hpp, src/evm_transport_epoch.hpp)

    JSON-RPC quantities as text, the split of a block interval into request
    ranges, and the cursor store that remembers how far a log stream was indexed.
    The file behind a [FileBlockCursorStore] is a map from names to cursors here: its
    JSON document is in [CursorJson], its replacement in [EvmCursorIo]. *)
From Stdlib Require Import Ascii String.
From S2P Require Import Prelude Text EvmBytes.

#[local] Open Scope Z_scope.

(** ** Quantities *)

(** [std::from_chars] for an unsigned integer: the value of the longest prefix of
    digits, and the rest of the text. *)
Definition digit_in_base (base : Z) (c : ascii) : option Z :=
  d ← nibble c; if d <? base then Some d else None.

Fixpoint span_digits (base : Z) (cs : list ascii) : list Z * list ascii :=
  match cs with
  | [] => ([], [])
  | c :: rest =>
      match digit_in_base base c with
      | Some d => let '(ds, tail) := span_digits base rest in (d :: ds, tail)
      | None => ([], cs)
      end
  end.

Inductive from_chars_result :=
  | FromChars (value : Z) (rest : list ascii)
  | NoDigits
  | OutOfRange.

Definition from_chars_u64 (base : Z) (cs : list ascii) : from_chars_result :=
  let '(ds, rest) := span_digits base cs in
  match ds with
  | [] => NoDigits
  | _ => if u64_max <? val base ds then OutOfRange else FromChars (val base ds) rest
  end.

Definition evm_quantity_to_uint64 (quantity : string) : res Z :=
  let cs := chars quantity in
  require (negb (bool_decide (cs = []))) (invalid_argument "empty EVM quantity");;
  let hex := has_0x cs in
  let digits := if hex then drop 2 cs else cs in
  require (negb (bool_decide (digits = []))) (invalid_argument "EVM quantity has no digits");;
  match from_chars_u64 (if hex then 16 else 10) digits with
  | OutOfRange => Throw (out_of_range "EVM quantity exceeds uint64")
  | FromChars value [] => Ok value
  | _ => Throw (invalid_argument "invalid EVM quantity")
  end.

Definition evm_uint64_to_quantity (value : Z) : string :=
  str ("0"%char :: "x"%char :: map digit_char (digits 16 value)).

(** ** Block ranges *)

Record EvmBlockRange := MkRange { from_block : Z; to_block : Z }.

(** The loop pushes at least one block per round: [to_block - from + 1] rounds
    suffice. *)
Fixpoint ranges_loop (fuel : nat) (from to_block batch_size : Z) : list EvmBlockRange :=
  match fuel with
  | O => []
  | S fuel =>
      let to := u64 (from + Z.min (u64 (batch_size - 1)) (u64 (to_block - from))) in
      MkRange from to ::
      if to =? to_block then [] else ranges_loop fuel (u64 (to + 1)) to_block batch_size
  end.

Definition evm_make_block_ranges (from_block to_block batch_size : Z) : res (list EvmBlockRange) :=
  require (negb (batch_size =? 0)) (invalid_argument "batch_size must be positive");;
  if to_block <? from_block then Ok []
  else Ok (ranges_loop (Z.to_nat (to_block - from_block + 1)) from_block to_block batch_size).

(** ** Log positions *)

Record EvmLogPosition := MkPosition {
  transaction_index : Z;
  log_index : Z;
  block_hash : string }.

Record EvmLog := MkLog {
  l_address : string;
  l_topics : list string;
  l_data : string;
  l_block_hash : string;
  l_block_number : string;
  l_transaction_hash : string;
  l_transaction_index : string;
  l_log_index : string;
  l_removed : bool }.

Definition quantity_or_zero (text : string) : res Z :=
  if bool_decide (text = "") then Ok 0 else evm_quantity_to_uint64 text.

Definition evm_log_position (log : EvmLog) : res EvmLogPosition :=
  ti ← quantity_or_zero (l_transaction_index log);
  li ← quantity_or_zero (l_log_index log);
  Ok (MkPosition ti li (l_block_hash log)).

Definition evm_position_at_or_before (left right : EvmLogPosition) : bool :=
  (transaction_index left <? transaction_index right) ||
  ((transaction_index left =? transaction_index right) && (log_index left <=? log_index right)).

Definition evm_log_identity (log : EvmLog) : string :=
  if bool_decide (l_block_hash log = "") || bool_decide (l_transaction_hash log = "") ||
     bool_decide (l_log_index log = "")
  then ""
  else l_block_hash log +:+ ":" +:+ l_transaction_hash log +:+ ":" +:+ l_log_index log.

Definition evm_log_block (log : EvmLog) : res Z := quantity_or_zero (l_block_number log).

Definition evm_log_before (left right : EvmLog) : res bool :=
  left_block ← evm_log_block left;
  right_block ← evm_log_block right;
  if negb (left_block =? right_block) then Ok (left_block <? right_block)
  else
    right_position ← evm_log_position right;
    left_position ← evm_log_position left;
    Ok (negb (evm_position_at_or_before right_position left_position)).

(** ** Cursors *)

Record EvmIndexCursor := MkCursor {
  block_number : Z;
  block_complete : bool;
  last_log : option EvmLogPosition }.

#[export] Instance position_eq_dec : EqDecision EvmLogPosition.
Proof. solve_decision. Defined.
#[export] Instance cursor_eq_dec : EqDecision EvmIndexCursor.
Proof. solve_decision. Defined.

Definition cursor_advances (current next : EvmIndexCursor) : bool :=
  if negb (block_number next =? block_number current)
  then block_number current <? block_number next
  else if block_complete current then block_complete next
  else if block_complete next then true
  else match last_log next with
       | None => false
       | Some next_log =>
           match last_log current with
           | None => true
           | Some current_log =>
               if bool_decide (block_hash next_log = block_hash current_log) then
                 (transaction_index current_log <? transaction_index next_log) ||
                 ((transaction_index next_log =? transaction_index current_log) &&
                  (log_index current_log <=? log_index next_log))
               else false
           end
       end.

(** The contents of a cursor file. *)
Abbreviation cursor_file := (gmap string EvmIndexCursor).

Definition load (data : cursor_file) (name : string) : option Z :=
  cursor ← data !! name;
  if block_complete cursor then Some (block_number cursor)
  else if block_number cursor =? 0 then None
  else Some (block_number cursor - 1).

Definition save (data : cursor_file) (name : string) (block : Z) : cursor_file :=
  match data !! name with
  | Some current =>
      if block <? block_number current then data else <[name := MkCursor block true None]> data
  | None => <[name := MkCursor block true None]> data
  end.

Definition load_cursor (data : cursor_file) (name : string) : option EvmIndexCursor := data !! name.

Definition save_cursor (data : cursor_file) (name : string) (cursor : EvmIndexCursor)
    : cursor_file :=
  match data !! name with
  | Some current => if cursor_advances current cursor then <[name := cursor]> data else data
  | None => <[name := cursor]> data
  end.

Definition rewind (data : cursor_file) (name : string) (from : Z) : cursor_file :=
  match data !! name with
  | Some current =>
      if block_number current <? from then data
      else <[name := MkCursor from false None]> data
  | None => data
  end.

(** The adapters of the abstract store for stores that keep block numbers only. *)
Definition default_load_cursor (load : string → option Z) (name : string)
    : option EvmIndexCursor :=
  block ← load name; Some (MkCursor block true None).

Definition default_save_cursor {store} (save : store → string → Z → store) (data : store)
    (name : string) (cursor : EvmIndexCursor) : store :=
  if block_complete cursor then save data name (block_number cursor)
  else if 0 <? block_number cursor then save data name (block_number cursor - 1) else data.

(** ** Transport epochs *)

Record EvmTransportEpoch := MkEpoch { generation_ : Z }.

(** Whether the callback runs, and the state it runs in. *)
Definition admit_callback (epoch : EvmTransportEpoch) (generation : Z) : bool :=
  generation =? generation_ epoch.

Definition advance (epoch : EvmTransportEpoch) (generation : Z) : EvmTransportEpoch * bool :=
  if generation <=? generation_ epoch then (epoch, false) else (MkEpoch generation, true).

(** ** Lemmas on quantities *)

Lemma digit_in_base_char base d :
  0 ≤ d < base → base ≤ 16 → digit_in_base base (digit_char d) = Some d.
Proof.
  intros Hd Hb. unfold digit_in_base. rewrite nibble_digit_char by lia. cbn.
  by rewrite (proj2 (Z.ltb_lt d base)) by lia.
Qed.

Lemma span_digits_chars base ds :
  Forall (is_digit_of base) ds → base ≤ 16 → span_digits base (map digit_char ds) = (ds, []).
Proof.
  intros Hds Hb. induction Hds as [|d ds Hd _ IH]; [done|]. cbn [map span_digits].
  by rewrite digit_in_base_char, IH by done.
Qed.

Lemma from_chars_numeral base n :
  2 ≤ base ≤ 16 → is_u64 n →
  from_chars_u64 base (map digit_char (digits base n)) = FromChars n [].
Proof.
  intros Hb [Hn Hmax]. unfold from_chars_u64.
  rewrite span_digits_chars by (apply digits_in_base || idtac; lia).
  pose proof (digits_nonempty base ltac:(lia) n Hn) as Hne.
  pose proof (val_digits base ltac:(lia) n Hn) as Hv.
  destruct (digits base n) as [|d ds]; [done|]. rewrite Hv. by rewrite (proj2 (Z.ltb_ge u64_max n)).
Qed.

(** A numeral in base ten does not look like a hexadecimal quantity. *)
Lemma decimal_no_prefix cs : all_decimal cs = true → has_0x cs = false.
Proof.
  destruct cs as [|c [|x cs]]; try done. intros [_ [Hx _]%andb_true_iff]%andb_true_iff.
  cbn. apply andb_false_iff. right. apply orb_false_iff.
  split; apply bool_decide_eq_false; intros ->; by vm_compute in Hx.
Qed.

(** Quantities survive text: the hexadecimal quantity the client sends and the
    decimal numeral of any 64-bit number both read back as that number. *)
Lemma quantity_roundtrip n :
  is_u64 n →
  evm_quantity_to_uint64 (evm_uint64_to_quantity n) = Ok n ∧
  evm_quantity_to_uint64 (to_string n) = Ok n.
Proof.
  intros Hn. pose proof Hn as [Hpos _]. unfold evm_quantity_to_uint64, evm_uint64_to_quantity, to_string.
  rewrite !chars_str. split.
  - pose proof (from_chars_numeral 16 n ltac:(lia) Hn) as E.
    destruct (map digit_char (digits 16 n)) as [|c cs]; [done|].
    change (has_0x _) with true. cbv iota. cbn [drop].
    rewrite !bool_decide_false by done. cbn [negb require mbind res_bind]. by rewrite E.
  - rewrite decimal_no_prefix by by apply decimal_chars_decimal. cbv iota.
    pose proof (from_chars_numeral 10 n ltac:(lia) Hn) as E. unfold decimal_chars.
    destruct (map digit_char (digits 10 n)) as [|c cs]; [done|].
    rewrite !bool_decide_false by done. cbn [negb require mbind res_bind]. by rewrite E.
Qed.

Lemma quantity_u64 text n : evm_quantity_to_uint64 text = Ok n → is_u64 n.
Proof.
  unfold evm_quantity_to_uint64. intros (? & _ & H)%bind_Ok. apply bind_Ok in H as (? & _ & H).
  unfold from_chars_u64 in H. destruct (span_digits _ _) as [ds rest] eqn:E.
  destruct ds as [|d ds]; [done|].
  destruct (Z.ltb_spec u64_max (val (if has_0x (chars text) then 16 else 10) (d :: ds))); [done|].
  destruct rest; [|done]. apply Ok_inj in H as <-. split; [|done].
  assert (∀ base cs ds rest, span_digits base cs = (ds, rest) → Forall (is_digit_of base) ds) as Hs.
  { clear. intros base cs. induction cs as [|c cs IH]; intros ds rest; cbn; [by intros [= <- _]|].
    unfold digit_in_base. destruct (nibble c) as [d|] eqn:En; cbn; [|by intros [= <- _]].
    destruct (Z.ltb_spec d base); [|by intros [= <- _]].
    destruct (span_digits base cs) as [ds' tail]. intros [= <- _].
    constructor; [|by eapply IH]. apply nibble_range in En. unfold is_digit_of. lia. }
  apply Hs in E. apply val_bounds in E; [lia|]. by destruct (has_0x _).
Qed.

(** ** Lemmas on ranges *)

Definition range_blocks (r : EvmBlockRange) : list Z :=
  seqZ (from_block r) (to_block r - from_block r + 1).

Lemma ranges_loop_spec fuel from to batch :
  is_u64 from → is_u64 to → from ≤ to → 0 < batch ≤ u64_max → to - from < Z.of_nat fuel →
  flat_map range_blocks (ranges_loop fuel from to batch) = seqZ from (to - from + 1) ∧
  Forall (λ r, from ≤ from_block r ≤ to_block r ∧ to_block r ≤ to ∧
               to_block r - from_block r < batch) (ranges_loop fuel from to batch).
Proof.
  revert from. induction fuel as [|fuel IH]; intros from Hf Ht Hle Hb Hfuel; [lia|].
  unfold is_u64, u64_max in *. cbn [ranges_loop].
  rewrite (u64_id (batch - 1)), (u64_id (to - from)) by (unfold is_u64, u64_max; lia).
  set (m := Z.min (batch - 1) (to - from)). assert (0 ≤ m ≤ to - from ∧ m < batch) as Hm by lia.
  rewrite (u64_id (from + m)) by (unfold is_u64, u64_max; lia). cbv zeta.
  destruct (Z.eqb_spec (from + m) to) as [E|Hne].
  - split; [|constructor; [cbn; lia|constructor]]. cbn [flat_map]. rewrite app_nil_r.
    unfold range_blocks. cbn [from_block to_block]. f_equal. lia.
  - rewrite u64_id by (unfold is_u64, u64_max; lia).
    destruct (IH (from + m + 1)) as [Hc Hall]; [lia..|]. cbn [flat_map]. rewrite Hc. split.
    + unfold range_blocks. cbn [from_block to_block].
      replace (to - from + 1) with ((from + m - from + 1) + (to - (from + m + 1) + 1)) by lia.
      rewrite (seqZ_app from (from + m - from + 1) (to - (from + m + 1) + 1)) by lia.
      do 2 f_equal. lia.
    + constructor; [cbn; lia|]. eapply Forall_impl; [exact Hall|]. cbn. lia.
Qed.

(** The request ranges cover an interval of blocks exactly: in order, every
    block once, no range longer than the batch size, for every pair of 64-bit
    bounds; an empty interval gives no range and a zero batch size is refused. *)
Lemma block_ranges_partition from to batch :
  is_u64 from → is_u64 to → is_u64 batch →
  match evm_make_block_ranges from to batch with
  | Ok ranges =>
      batch ≠ 0 ∧
      flat_map range_blocks ranges = seqZ from (to - from + 1) ∧
      Forall (λ r, from ≤ from_block r ≤ to_block r ∧ to_block r ≤ to ∧
                   to_block r - from_block r < batch) ranges
  | Throw e => batch = 0 ∧ e = invalid_argument "batch_size must be positive"
  end.
Proof.
  intros Hf Ht Hb. unfold evm_make_block_ranges.
  destruct (Z.eqb_spec batch 0) as [->|Hne]; cbn [negb require mbind res_bind]; [done|].
  destruct (Z.ltb_spec to from).
  - split; [done|]. rewrite seqZ_nil by lia. by split.
  - split; [done|]. apply ranges_loop_spec; [done|done|lia| |lia]. unfold is_u64 in Hb. lia.
Qed.

(** ** Durable progress *)

(** How many leading blocks the cursor promises are indexed. *)
Definition cursor_durable (c : EvmIndexCursor) : Z :=
  if block_complete c then block_number c + 1 else block_number c.

Definition durable (data : cursor_file) (name : string) : Z :=
  match load data name with Some block => block + 1 | None => 0 end.

Inductive cursor_op :=
  | Save (block : Z)
  | SaveCursor (cursor : EvmIndexCursor)
  | Rewind (from : Z).

Definition run_op (name : string) (data : cursor_file) (op : cursor_op) : cursor_file :=
  match op with
  | Save block => save data name block
  | SaveCursor cursor => save_cursor data name cursor
  | Rewind from => rewind data name from
  end.

(** The same history on the abstract counter. *)
Definition spec_op (n : Z) (op : cursor_op) : Z :=
  match op with
  | Save block => Z.max n (block + 1)
  | SaveCursor cursor => Z.max n (cursor_durable cursor)
  | Rewind from => Z.min n from
  end.

Definition op_wf (op : cursor_op) : Prop :=
  match op with
  | Save block | Rewind block => 0 ≤ block
  | SaveCursor cursor => 0 ≤ block_number cursor
  end.

Definition file_wf (data : cursor_file) : Prop := map_Forall (λ _ c, 0 ≤ block_number c) data.

Lemma durable_lookup data name :
  file_wf data →
  durable data name = match data !! name with Some c => cursor_durable c | None => 0 end.
Proof.
  intros Hd. unfold durable, load, cursor_durable.
  destruct (data !! name) as [c|] eqn:E; [|done]. specialize (Hd _ _ E). cbn in Hd |- *.
  destruct (block_complete c); [done|]. destruct (Z.eqb_spec (block_number c) 0); lia.
Qed.

Lemma cursor_advances_durable c c' :
  if cursor_advances c c' then cursor_durable c ≤ cursor_durable c'
  else cursor_durable c' ≤ cursor_durable c.
Proof.
  unfold cursor_advances, cursor_durable.
  destruct (Z.eqb_spec (block_number c') (block_number c)) as [->|Hne]; cbn [negb].
  - destruct (block_complete c), (block_complete c'); try lia.
    repeat case_match; lia.
  - destruct (Z.ltb_spec (block_number c) (block_number c')), (block_complete c), (block_complete c'); lia.
Qed.

Lemma run_op_durable name data op :
  file_wf data → op_wf op →
  file_wf (run_op name data op) ∧ durable (run_op name data op) name = spec_op (durable data name) op.
Proof.
  intros Hd Hop. rewrite (durable_lookup data) by done.
  assert (∀ c, 0 ≤ block_number c → file_wf (<[name := c]> data) ∧
            durable (<[name := c]> data) name = cursor_durable c) as Hins.
  { intros c Hc. assert (file_wf (<[name := c]> data)) as Hw by (by apply map_Forall_insert_2).
    split; [done|]. by rewrite (durable_lookup _ _ Hw), lookup_insert_eq. }
  assert (file_wf data ∧ durable data name =
            match data !! name with Some c => cursor_durable c | None => 0 end) as Hsame.
  { split; [done|]. by apply durable_lookup. }
  destruct op as [b|c'|b]; cbn [run_op spec_op op_wf] in *.
  - unfold save. pose proof (Hins (MkCursor b true None) Hop) as [Hw Hi]. unfold cursor_durable in Hi at 1.
    destruct (data !! name) as [c|] eqn:E; [|split; [done|]; rewrite Hi; cbn; lia].
    destruct (Z.ltb_spec b (block_number c)); (split; [tauto|]).
    + rewrite (proj2 Hsame). unfold cursor_durable. destruct (block_complete c); lia.
    + rewrite Hi. unfold cursor_durable. cbn. destruct (block_complete c); lia.
  - unfold save_cursor. pose proof (Hins c' Hop) as [Hw Hi].
    destruct (data !! name) as [c|] eqn:E.
    + pose proof (cursor_advances_durable c c') as Ha.
      destruct (cursor_advances c c'); (split; [tauto|]); [rewrite Hi|rewrite (proj2 Hsame)]; lia.
    + split; [done|]. rewrite Hi. unfold cursor_durable. destruct (block_complete c'); lia.
  - unfold rewind. pose proof (Hins (MkCursor b false None) Hop) as [Hw Hi]. unfold cursor_durable in Hi at 1.
    destruct (data !! name) as [c|] eqn:E; [|split; [done|]; rewrite (proj2 Hsame); lia].
    destruct (Z.ltb_spec (block_number c) b); (split; [tauto|]).
    + rewrite (proj2 Hsame). unfold cursor_durable. destruct (block_complete c); lia.
    + rewrite Hi. unfold cursor_durable. cbn. destruct (block_complete c); lia.
Qed.

(** A cursor file refines a counter of durable blocks: whatever sequence of block
    saves, log checkpoints and rewinds runs on it, [load] then reports the maximum of
    what it reported before and what was saved since the last lower rewind. *)
Lemma run_ops_durable name ops data :
  Forall op_wf ops → file_wf data →
  durable (foldl (run_op name) data ops) name = foldl spec_op (durable data name) ops.
Proof.
  intros Hops. revert data. induction Hops as [|op ops Hop _ IH]; intros data Hd; [done|]. cbn [foldl].
  destruct (run_op_durable name data op Hd Hop) as [Hw <-]. by apply IH.
Qed.

(** ** Witnesses *)

Lemma block_ranges_partition_witness :
  match evm_make_block_ranges (u64_max - 5) u64_max 4 with
  | Ok ranges =>
      4 ≠ 0 ∧ flat_map range_blocks ranges = seqZ (u64_max - 5) (u64_max - (u64_max - 5) + 1) ∧
      Forall (λ r, u64_max - 5 ≤ from_block r ≤ to_block r ∧ to_block r ≤ u64_max ∧
                   to_block r - from_block r < 4) ranges
  | Throw e => 4 = 0 ∧ e = invalid_argument "batch_size must be positive"
  end.
Proof. apply (block_ranges_partition (u64_max - 5) u64_max 4); by vm_compute. Defined.
