(* ===== verification/EvmCursorIo.v ===== *)
(** * Writing the cursor file (src/evm_cursor_io.cpp)

    [write_cursor_file] replaces the file through a temporary one: create, write,
    sync, close, rename, sync the directory.  The model is a transition system whose
    events are the results of these calls, over a disk that can lose power at any
    point: a file whose data was not synced may then hold anything, and of the
    changes to the directory since it was synced any first part may be left.  The
    mutexes that keep two stores of one file apart are at the end. *)
From Stdlib Require Import Ascii String.
From S2P Require Import Prelude Text Sdk.

#[local] Open Scope nat_scope.

(** ** The disk *)

Record Inode := MkInode { content : list ascii; clean : bool }.

Record Disk := MkDisk {
  inodes : gmap nat Inode;
  names : gmap string nat;
  past : list (gmap string nat)   (** what the directory was since it was synced *) }.

Definition read_file (path : string) (d : Disk) : option (list ascii) :=
  i ← names d !! path; content <$> inodes d !! i.

(** What a file may hold when the power fails now. *)
Definition after_crash (path : string) (d : Disk) (r : option (list ascii)) : Prop :=
  ∃ ns, ns ∈ names d :: past d ∧
    match ns !! path ≫= λ i, inodes d !! i with
    | Some n => if clean n then r = Some (content n) else is_Some r
    | None => r = None
    end.

Definition change_names (ns : gmap string nat) (d : Disk) : Disk := MkDisk (inodes d) ns (names d :: past d).
Definition create_file (path : string) (i : nat) (d : Disk) : Disk :=
  change_names (<[path := i]> (names d)) (MkDisk (<[i := MkInode [] false]> (inodes d)) (names d) (past d)).
Definition set_content (i : nat) (n : Inode) (d : Disk) : Disk := MkDisk (<[i := n]> (inodes d)) (names d) (past d).
Definition append_file (i : nat) (bytes : list ascii) (d : Disk) : Disk :=
  match inodes d !! i with Some n => set_content i (MkInode (content n ++ bytes) false) d | None => d end.
Definition sync_file (i : nat) (d : Disk) : Disk :=
  match inodes d !! i with Some n => set_content i (MkInode (content n) true) d | None => d end.
Definition rename_file (from to : string) (d : Disk) : Disk :=
  match names d !! from with Some i => change_names (<[to := i]> (delete from (names d))) d | None => d end.
Definition unlink_file (path : string) (d : Disk) : Disk := change_names (delete path (names d)) d.
Definition sync_directory (d : Disk) : Disk := MkDisk (inodes d) (names d) [].

(** ** Writing *)

Inductive write_phase :=
  | at_parents | at_make | at_write | at_sync | at_close | at_rename | at_open_directory | at_sync_directory
  | at_discard | at_returned | at_threw.

Record Writer := MkWriter { phase : write_phase; disk : Disk; temporary : string; fd : nat; written : nat }.

(** [mkstemp] gives a new name and file; [write] takes at least a byte. *)
Inductive write_event :=
  | made_parents (ok : bool)
  | made_temporary (made : option (string * nat))
  | wrote (count : nat) | write_interrupted | write_failed
  | synced (ok : bool) | closed (ok : bool) | renamed (ok : bool)
  | opened_directory (ok : bool) | synced_directory (ok : bool)
  | discarded.

Section Write.
Context (path : string) (payload : list ascii).

Definition temporary_name (suffix : string) : string := path +:+ ".tmp." +:+ suffix.

Definition start (d : Disk) : Writer := MkWriter at_parents d "" 0 0.

Definition go (p : write_phase) (w : Writer) : Writer := MkWriter p (disk w) (temporary w) (fd w) (written w).
Definition set_disk (d : Disk) (w : Writer) : Writer := MkWriter (phase w) d (temporary w) (fd w) (written w).

(** [if (failed) throw], where the temporary file exists. *)
Definition proceed (ok : bool) (p : write_phase) (w : Writer) : Writer := go (if ok then p else at_discard) w.

(** The head of the loop: what is left to write. *)
Definition next_write (w : Writer) : write_phase := if bool_decide (written w < length payload) then at_write else at_sync.

Definition write_step (w : Writer) (e : write_event) : option Writer :=
  match phase w, e with
  | at_parents, made_parents ok => Some (go (if ok then at_make else at_threw) w)
  | at_make, made_temporary None => Some (go at_threw w)
  | at_make, made_temporary (Some (suffix, i)) =>
      let t := temporary_name suffix in
      if bool_decide (suffix ≠ "" ∧ names (disk w) !! t = None ∧ inodes (disk w) !! i = None) then
        let w := MkWriter at_write (create_file t i (disk w)) t i 0 in Some (go (next_write w) w)
      else None
  | at_write, wrote count =>
      if bool_decide (0 < count ∧ written w + count ≤ length payload) then
        let w := MkWriter at_write (append_file (fd w) (take count (drop (written w) payload)) (disk w)) (temporary w) (fd w)
                   (written w + count) in
        Some (go (next_write w) w)
      else None
  | at_write, write_interrupted => Some w
  | at_write, write_failed => Some (go at_discard w)
  | at_sync, synced ok => Some (proceed ok at_close (if ok then set_disk (sync_file (fd w) (disk w)) w else w))
  | at_close, closed ok => Some (proceed ok at_rename w)
  | at_rename, renamed ok =>
      Some (proceed ok at_open_directory (if ok then set_disk (rename_file (temporary w) path (disk w)) w else w))
  | at_open_directory, opened_directory ok => Some (go (if ok then at_sync_directory else at_returned) w)
  | at_sync_directory, synced_directory ok => Some (go at_returned (if ok then set_disk (sync_directory (disk w)) w else w))
  | at_discard, discarded => Some (go at_threw (set_disk (unlink_file (temporary w) (disk w)) w))
  | _, _ => None
  end.

Definition write_moves (w w' : Writer) : Prop := ∃ e, write_step w e = Some w'.
Definition write_reaches (d : Disk) : Writer → Prop := rtc write_moves (start d).

Fixpoint write_run (w : Writer) (es : list write_event) : option Writer :=
  match es with [] => Some w | e :: es => w ← write_step w e; write_run w es end.

(** ** Invariant *)

(** Where the writing starts: everything on the disk is there to stay. *)
Definition settled (d : Disk) : Prop :=
  past d = [] ∧ ∀ i, names d !! path = Some i → ∃ c, inodes d !! i = Some (MkInode c true).

Section Invariant.
Context (d0 : Disk) (Hsettled : settled d0).

(** No directory a crash may leave has the new file at [path]. *)
Definition only_old (w : Writer) : Prop := ∀ ns, ns ∈ names (disk w) :: past (disk w) → ns !! path = names d0 !! path.

Definition begun (w : Writer) : Prop :=
  temporary w ≠ path ∧ names d0 !! temporary w = None ∧ inodes d0 !! fd w = None ∧
  names (disk w) = <[temporary w := fd w]> (names d0) ∧ only_old w.

Definition file_is (c : list ascii) (w : Writer) : Prop := content <$> inodes (disk w) !! fd w = Some c.
Definition file_done (w : Writer) : Prop := inodes (disk w) !! fd w = Some (MkInode payload true).
Definition replaced (w : Writer) : Prop :=
  temporary w ≠ path ∧ names d0 !! temporary w = None ∧ names (disk w) = <[path := fd w]> (names d0) ∧ file_done w ∧
  ∀ ns, ns ∈ past (disk w) → ns !! path = names d0 !! path ∨ ns !! path = Some (fd w).

Definition phase_ok (w : Writer) : Prop :=
  match phase w with
  | at_parents | at_make => disk w = d0
  | at_write => begun w ∧ file_is (take (written w) payload) w ∧ written w ≤ length payload
  | at_sync => begun w ∧ file_is payload w
  | at_close | at_rename => begun w ∧ file_done w
  | at_open_directory | at_sync_directory | at_returned => replaced w
  | at_discard => begun w
  | at_threw => names (disk w) = names d0 ∧ only_old w
  end.

Record writer_ok (w : Writer) : Prop := {
  ok_old : ∀ i n, inodes d0 !! i = Some n → inodes (disk w) !! i = Some n;
  ok_phase : phase_ok w }.

Lemma temporary_differs suffix : temporary_name suffix ≠ path.
Proof using Type.
  unfold temporary_name. intros E. apply (f_equal (λ s, length (chars s))) in E. rewrite chars_app, length_app in E.
  rewrite chars_app, length_app in E. cbn in E. lia.
Qed.

Lemma only_old_start : only_old (start d0).
Proof using Hsettled. destruct Hsettled as [Hp _]. unfold only_old. cbn. rewrite Hp. by intros ns ->%list_elem_of_singleton. Qed.

Lemma write_start_ok : writer_ok (start d0).
Proof using Type. by constructor. Qed.

(** Changes of the new file alone. *)
Lemma begun_set_content n w p t : begun w → begun (MkWriter p (set_content (fd w) n (disk w)) (temporary w) (fd w) t).
Proof using Type. by intros (? & ? & ? & ? & ?). Qed.

Lemma old_set_content w n : begun w → (∀ i m, inodes d0 !! i = Some m → inodes (disk w) !! i = Some m) →
  ∀ i m, inodes d0 !! i = Some m → inodes (set_content (fd w) n (disk w)) !! i = Some m.
Proof using Type. intros (_ & _ & Hf & _) Ho i m Hi. cbn. rewrite lookup_insert_ne by congruence. by apply Ho. Qed.

Lemma next_write_ok w : begun w → file_is (take (written w) payload) w → written w ≤ length payload → phase_ok (go (next_write w) w).
Proof using Type.
  intros Hb Hf Hl. unfold next_write. case_bool_decide as Hlt; [by split_and!|]. split; [done|].
  unfold file_is in *. cbn. rewrite Hf. by rewrite take_ge by lia.
Qed.

Lemma made_temporary_ok suffix i w :
  writer_ok w → disk w = d0 → names (disk w) !! temporary_name suffix = None → inodes (disk w) !! i = None →
  let w' := MkWriter at_write (create_file (temporary_name suffix) i (disk w)) (temporary_name suffix) i 0 in
  writer_ok (go (next_write w') w').
Proof using Hsettled.
  intros [Ho _] Hd Ht Hi w'. rewrite Hd in *. constructor.
  - intros j m Hj. cbn. rewrite Hd, lookup_insert_ne by congruence. done.
  - apply next_write_ok.
    + split_and!; [apply temporary_differs|done|done|cbn; by rewrite Hd|]. unfold only_old. cbn. rewrite Hd.
      destruct Hsettled as [-> _]. intros ns [->|[->|[]%elem_of_nil]%elem_of_cons]%elem_of_cons; [|done].
      apply lookup_insert_ne, temporary_differs.
    + unfold file_is. cbn. by rewrite lookup_insert_eq.
    + cbn. lia.
Qed.

Lemma wrote_ok count w :
  writer_ok w → phase w = at_write → written w + count ≤ length payload →
  let w' := MkWriter at_write (append_file (fd w) (take count (drop (written w) payload)) (disk w)) (temporary w) (fd w)
              (written w + count) in
  writer_ok (go (next_write w') w').
Proof using Type.
  intros [Ho Hp] Hw Hl w'. unfold phase_ok in Hp. rewrite Hw in Hp. destruct Hp as (Hb & Hf & _).
  unfold file_is in Hf. apply fmap_Some in Hf as (n & Hn & Hc). subst w'. unfold append_file. rewrite Hn. constructor.
  - by apply old_set_content.
  - apply next_write_ok; [by apply begun_set_content| |done]. unfold file_is. cbn. rewrite lookup_insert_eq. cbn.
    by rewrite <- Hc, take_take_drop.
Qed.

Lemma write_step_ok w e w' : writer_ok w → write_step w e = Some w' → writer_ok w'.
Proof using Hsettled.
  intros Hok Hs. pose proof Hok as [Ho Hp]. unfold phase_ok in Hp.
  destruct (phase w) eqn:Ew; unfold write_step in Hs; rewrite Ew in Hs; destruct e; try done.
  - injection Hs as <-. destruct ok; constructor; try done. cbn. unfold only_old. cbn. rewrite Hp. split; [done|]. apply only_old_start.
  - destruct made as [[suffix i]|].
    + case_bool_decide as Hc; [|done]. injection Hs as <-. destruct Hc as (_ & ? & ?). by apply made_temporary_ok.
    + injection Hs as <-. constructor; [done|]. cbn. unfold only_old. cbn. rewrite Hp. split; [done|]. apply only_old_start.
  - case_bool_decide as Hc; [|done]. injection Hs as <-. by apply wrote_ok; [| |lia].
  - by injection Hs as <-.
  - injection Hs as <-. constructor; [done|]. apply Hp.
  - injection Hs as <-. destruct ok; [|by constructor; [|apply Hp]]. destruct Hp as [Hb Hf].
    unfold file_is in Hf. apply fmap_Some in Hf as (n & Hn & Hc). unfold sync_file. rewrite Hn. constructor.
    + by apply old_set_content.
    + split; [exact (begun_set_content (MkInode (content n) true) w at_close (written w) Hb)|].
      unfold file_done. cbn. by rewrite lookup_insert_eq, Hc.
  - injection Hs as <-. destruct ok; constructor; try done; apply Hp.
  - injection Hs as <-. destruct Hp as [(Ht & Hn & Hf & Hns & Hold) Hdone]. destruct ok; [|by constructor].
    unfold rename_file. rewrite Hns, lookup_insert_eq. constructor; [done|]. split_and!; try done.
    + cbn. by rewrite delete_insert_id.
    + cbn. intros ns Hin. left. by apply Hold; rewrite elem_of_cons in Hin |- *.
  - injection Hs as <-. destruct ok; constructor; done.
  - injection Hs as <-. destruct ok; constructor; try done. destruct Hp as (? & ? & ? & ? & _). split_and!; try done.
    cbn. by intros ns ?%elem_of_nil.
  - injection Hs as <-. destruct Hp as (Ht & Hn & Hf & Hns & Hold). constructor; [done|].
    assert (delete (temporary w) (names (disk w)) = names d0) as Hdel by (rewrite Hns; by apply delete_insert_id).
    split; [done|]. unfold only_old. cbn. rewrite Hdel. intros ns [->|Hin]%elem_of_cons; [done|by apply Hold].
Qed.

Lemma reached_ok w : write_reaches d0 w → writer_ok w.
Proof using Hsettled.
  intros Hr. pose proof write_start_ok as H0. unfold write_reaches in Hr. induction Hr as [|? ? ? [e He] _ IH]; [done|].
  apply IH. by eapply write_step_ok.
Qed.

(** ** What a crash leaves *)

Lemma crash_keeps_old w r :
  (∀ i n, inodes d0 !! i = Some n → inodes (disk w) !! i = Some n) →
  (∃ ns : gmap string nat, ns !! path = names d0 !! path ∧
     match ns !! path ≫= λ i, inodes (disk w) !! i with
     | Some n => if clean n then r = Some (content n) else is_Some r
     | None => r = None
     end) → r = read_file path d0.
Proof using Hsettled.
  intros Ho (ns & -> & Hr). destruct Hsettled as [_ Hd]. unfold read_file. destruct (names d0 !! path) as [i|] eqn:Ei; [|done].
  destruct (Hd i eq_refl) as (c & Hc). cbn in Hr |- *. rewrite (Ho _ _ Hc) in Hr. by rewrite Hc.
Qed.

Lemma crash_only_old w r :
  (∀ i n, inodes d0 !! i = Some n → inodes (disk w) !! i = Some n) → only_old w → after_crash path (disk w) r →
  r = read_file path d0.
Proof using Hsettled. intros Ho Hold (ns & Hns & Hr). apply (crash_keeps_old w); [done|]. exists ns. auto. Qed.

Lemma crash_replaced w r :
  (∀ i n, inodes d0 !! i = Some n → inodes (disk w) !! i = Some n) → replaced w → after_crash path (disk w) r →
  r = read_file path d0 ∨ r = Some payload.
Proof using Hsettled.
  intros Ho (_ & _ & Hn & Hd & Hp) (ns & Hns & Hr). unfold file_done in Hd.
  assert (ns !! path = Some (fd w) → r = Some payload) as Hnew by (intros E; rewrite E in Hr; cbn in Hr; by rewrite Hd in Hr).
  apply elem_of_cons in Hns as [->|Hns].
  - right. apply Hnew. rewrite Hn. apply lookup_insert_eq.
  - destruct (Hp ns Hns) as [E|E]; [left|right; by apply Hnew]. apply (crash_keeps_old w); [done|]. by exists ns.
Qed.

Lemma phase_crash w r : writer_ok w → after_crash path (disk w) r → r = read_file path d0 ∨ r = Some payload.
Proof using Hsettled.
  intros [Ho Hp] Hr. unfold phase_ok in Hp.
  destruct (phase w); try (by eapply crash_replaced); left; eapply crash_only_old; try done;
    try (rewrite Hp; exact Ho); try apply Hp; unfold only_old; rewrite Hp; apply only_old_start.
Qed.
End Invariant.

Lemma returned_content d0 w :
  settled d0 → write_reaches d0 w → phase w = at_returned →
  read_file path (disk w) = Some payload ∧ names (disk w) = <[path := fd w]> (names d0).
Proof.
  intros Hset Hr E. pose proof (reached_ok d0 Hset w Hr) as [_ Hp]. unfold phase_ok in Hp. rewrite E in Hp.
  destruct Hp as (_ & _ & Hn & Hd & _). unfold file_done in Hd. split; [|done].
  unfold read_file. rewrite Hn, lookup_insert_eq. cbn. by rewrite Hd.
Qed.


(** Once the directory is synced only the new file is left. *)
Lemma cursor_write_durable d0 w r :
  settled d0 → write_reaches d0 w → phase w = at_returned → past (disk w) = [] → after_crash path (disk w) r → r = Some payload.
Proof.
  intros Hset Hr E Hp (ns & Hns & Hr'). pose proof (reached_ok d0 Hset w Hr) as [_ Hok]. unfold phase_ok in Hok. rewrite E in Hok.
  destruct Hok as (_ & _ & Hn & Hd & _). rewrite Hp in Hns. apply list_elem_of_singleton in Hns as ->. rewrite Hn, lookup_insert_eq in Hr'.
  cbn in Hr'. unfold file_done in Hd. by rewrite Hd in Hr'.
Qed.
End Write.

(** ** Reading, and the mutex of a path *)

Section Read.
Context `{JsonLibrary} (parse_what : string → string).

(** [opens]: whether the file that is there can be opened. *)
Definition read_cursor_file (path : string) (opens : bool) (d : Disk) : res json :=
  match read_file path d with
  | None => Ok (JObject [])
  | Some bytes =>
      require opens (runtime_error ("failed to open cursor file: " +:+ path));;
      match bytes with
      | [] => Ok (JObject [])
      | _ => match json_parse (str bytes) with Some j => Ok j | None => Throw (runtime_error (parse_what (str bytes))) end
      end
  end.
End Read.

(** [registry] holds weak pointers: [alive] says which mutexes somebody still has,
    [fresh] names a new one. *)
Definition cursor_path_mutex (alive : nat → bool) (fresh : nat) (path : string) (registry : gmap string nat) : gmap string nat * nat :=
  match registry !! path with
  | Some m => if alive m then (registry, m) else (<[path := fresh]> registry, fresh)
  | None => (<[path := fresh]> registry, fresh)
  end.

(** While somebody has the mutex of a path every request for that path gets it. *)
Lemma path_mutex_shared alive fresh path other registry fresh' :
  let '(registry, m) := cursor_path_mutex alive fresh path registry in
  alive m = true →
  (cursor_path_mutex alive fresh' path registry).2 = m ∧
  (cursor_path_mutex alive fresh' path (cursor_path_mutex alive fresh' other registry).1).2 = m.
Proof.
  assert (Hget : ∀ r m, r !! path = Some m → alive m = true → cursor_path_mutex alive fresh' path r = (r, m))
    by (intros r m E Ha; unfold cursor_path_mutex; by rewrite E, Ha).
  assert (Hkeep : ∀ r m, r !! path = Some m → alive m = true → (cursor_path_mutex alive fresh' other r).1 !! path = Some m).
  { intros r m E Ha. destruct (decide (other = path)) as [->|Hne]; [by rewrite (Hget r m E Ha)|].
    unfold cursor_path_mutex. destruct (r !! other) as [o|]; [destruct (alive o)|]; cbn; [done|by rewrite lookup_insert_ne..]. }
  destruct (cursor_path_mutex alive fresh path registry) as [r m] eqn:Er. intros Ha.
  assert (E : r !! path = Some m).
  { unfold cursor_path_mutex in Er. destruct (registry !! path) as [o|] eqn:Eo; [destruct (alive o)|];
      injection Er as <- <-; [done|apply lookup_insert_eq..]. }
  split; [by rewrite (Hget r m E Ha)|]. by rewrite (Hget _ m (Hkeep r m E Ha) Ha).
Qed.

(** ** Witness *)

Definition old_disk : Disk := MkDisk {[1 := MkInode (chars "{}") true]} {["cursor.json" := 1]} [].
Definition short_writes : list write_event :=
  [made_parents true; made_temporary (Some ("aZ3k9Q", 2)); wrote 3; write_interrupted; wrote 4; synced true; closed true; renamed true;
   opened_directory true; synced_directory true].

Lemma write_run_reaches path payload es w w' : write_run path payload w es = Some w' → rtc (write_moves path payload) w w'.
Proof.
  revert w. induction es as [|e es IH]; intros w; cbn; [intros [= ->]; constructor|].
  destruct (write_step path payload w e) as [w1|] eqn:E; [|done]. intros Hr. eapply rtc_l; [by exists e|by apply IH].
Qed.

Lemma old_disk_settled : settled "cursor.json" old_disk.
Proof. split; [done|]. intros i E. vm_compute in E. injection E as <-. by exists (chars "{}"). Qed.

Definition written_disk : Writer := default (start old_disk) (write_run "cursor.json" (chars "[4,5,6]") (start old_disk) short_writes).


(** Had the file not been synced before it took the old one's place, the power
    could fail with neither content. *)
Example unsynced_rename_loses_both :
  let w := default (start old_disk) (write_run "cursor.json" (chars "[4,5,6]") (start old_disk) (take 5 short_writes)) in
  after_crash "cursor.json" (rename_file (temporary w) "cursor.json" (disk w)) (Some []).
Proof. eexists. split; [left|]. vm_compute. eauto. Qed.
