(* ===== verification/JsonRpc.v ===== *)
(** * JSON-RPC over HTTP
    (src/json_rpc_client.cpp, json_rpc_transactions.cpp, evm_utils.cpp)

    A request is a JSON object with the next number of the client as its id; an
    answer is read only if it repeats the number and holds a result and no error.
    The results of the methods the SDK calls are validated before use.  The JSON
    library's type errors are [runtime_error]s with a text of its own. *)
From Stdlib Require Import Ascii String.
From S2P Require Import Prelude Text EvmBytes EvmAbi EvmCursor Sdk RestParsing PositionCalls.

#[local] Open Scope Z_scope.

(** [what()] of [json::type_error]. *)
Class JsonTypeErrors := type_what : json → string.

Record EvmCallRequest := MkCallRequest {
  request_to : string;
  request_data : string;
  request_from : string;
  request_value : string }.

Record EvmTransactionReceipt := MkReceipt {
  receipt_transaction_hash : string;
  receipt_block_hash : string;
  receipt_block_number : string;
  gas_used : string;
  effective_gas_price : string;
  receipt_success : bool;
  receipt_logs : list EvmLog }.

Record EvmLogFilter := MkFilter {
  filter_addresses : list string;
  filter_topics : list (list string);
  filter_from_block : string;
  filter_to_block : string }.

(** ** Requests *)

Definition optional_field (key value : string) : list (string * json) :=
  if bool_decide (value = "") then [] else [(key, JString value)].

Definition call_request_json (r : EvmCallRequest) : json :=
  JObject ([("to", JString (request_to r)); ("data", JString (request_data r))] ++
           optional_field "from" (request_from r) ++ optional_field "value" (request_value r)).

Definition topic_slot_json (slot : list string) : json :=
  match slot with [] => JNull | _ => JArray (map JString slot) end.

Definition log_filter_json (f : EvmLogFilter) : json :=
  JObject (match filter_addresses f with [] => [] | a => [("address", JArray (map JString a))] end ++
           match filter_topics f with [] => [] | t => [("topics", JArray (map topic_slot_json t))] end ++
           optional_field "fromBlock" (filter_from_block f) ++
           optional_field "toBlock" (filter_to_block f)).

Definition rpc_request (request_id : Z) (method : string) (params : list json) : json :=
  JObject [("jsonrpc", JString "2.0"); ("id", JInteger request_id); ("method", JString method);
           ("params", JArray params)].

(** ** Answers *)

Definition invalid_json_rpc_response (reason : string) : exn :=
  runtime_error ("invalid JSON-RPC response: " +:+ reason).

Definition is_integer (j : option json) : bool := match j with Some (JInteger _) => true | _ => false end.
Definition is_string (j : option json) : bool := match j with Some (JString _) => true | _ => false end.

Section Answers.
Context `{JsonLibrary, T : JsonTypeErrors}.

Definition json_rpc_result (text : string) (request_id : Z) : res json :=
  body ← match json_parse text with
         | Some body => Ok body
         | None => Throw (invalid_json_rpc_response "body is not valid JSON")
         end;
  require (is_object body) (invalid_json_rpc_response "body must be an object");;
  require (match json_field body "jsonrpc" with
           | Some (JString version) => bool_decide (version = "2.0") | _ => false end)
    (invalid_json_rpc_response ("jsonrpc must be " +:+ quote +:+ "2.0" +:+ quote));;
  require (match json_field body "id" with
           | Some (JInteger id) => (0 <=? id) && (id =? request_id) | _ => false end)
    (invalid_json_rpc_response "id does not match the request");;
  match json_field body "result", json_field body "error" with
  | Some result, None => Ok result
  | None, Some error =>
      require (is_object error && is_integer (json_field error "code") &&
               is_string (json_field error "message"))
        (invalid_json_rpc_response "error must contain an integer code and string message");;
      Throw (runtime_error ("JSON-RPC error: " +:+ json_dump error))
  | _, _ => Throw (invalid_json_rpc_response "exactly one of result or error is required")
  end.

(** The end of [EvmJsonRpcHttpClient::call], from the response. *)
Definition rpc_result (response : HttpResponse) (request_id : Z) : res json :=
  require (response_ok response)
    (runtime_error ("JSON-RPC HTTP error: " +:+ error response +:+ " status=" +:+
                    to_string (status_code response)));;
  json_rpc_result (body response) request_id.

(** [value.get<std::string>()] *)
Definition get_string (j : json) : res string :=
  match j with JString s => Ok s | _ => Throw (runtime_error (type_what j)) end.

(** [raw.value(key, fallback)] *)
Definition value_string (raw : json) (key fallback : string) : res string :=
  if negb (is_object raw) then Throw (runtime_error (type_what raw))
  else match json_field raw key with Some j => get_string j | None => Ok fallback end.

Definition value_bool (raw : json) (key : string) (fallback : bool) : res bool :=
  if negb (is_object raw) then Throw (runtime_error (type_what raw))
  else match json_field raw key with
       | Some (JBool b) => Ok b
       | Some j => Throw (runtime_error (type_what j))
       | None => Ok fallback
       end.

Fixpoint topics_of (topics : list json) : res (list string) :=
  match topics with
  | [] => Ok []
  | topic :: topics =>
      text ← get_string topic;
      rest ← topics_of topics;
      Ok (evm_normalize_hex text :: rest)
  end.

Definition evm_log_from_json (raw : json) : res EvmLog :=
  address ← value_string raw "address" "";
  block_hash ← value_string raw "blockHash" "";
  block_number ← value_string raw "blockNumber" "";
  transaction_hash ← value_string raw "transactionHash" "";
  transaction_index ← value_string raw "transactionIndex" "";
  log_index ← value_string raw "logIndex" "";
  data ← value_string raw "data" "0x";
  removed ← value_bool raw "removed" false;
  topics ← match json_field raw "topics" with Some (JArray topics) => topics_of topics | _ => Ok [] end;
  Ok (MkLog (evm_normalize_hex address) topics (evm_normalize_hex data) (evm_normalize_hex block_hash)
        block_number transaction_hash transaction_index log_index removed).

Fixpoint logs_from_json (raw : list json) : res (list EvmLog) :=
  match raw with
  | [] => Ok []
  | log :: raw =>
      log ← evm_log_from_json log;
      logs ← logs_from_json raw;
      Ok (log :: logs)
  end.

(** ** Validated results (json_rpc_transactions.cpp) *)

Definition invalid_result (method reason : string) : exn :=
  runtime_error ("invalid JSON-RPC result: " +:+ method +:+ " " +:+ reason).

Definition is_hex_digits (text : list ascii) (from : nat) : bool := forallb is_xdigit (drop from text).

Definition is_quantity (value : json) : bool :=
  match value with
  | JString text =>
      let cs := chars text in
      bool_decide (2 < length cs)%nat && bool_decide (length cs ≤ 66)%nat && starts_0x cs &&
      is_hex_digits cs 2
  | _ => false
  end.

Definition is_hex_data (value : json) : bool :=
  match value with
  | JString text =>
      let cs := chars text in
      starts_0x cs && Nat.even (length cs) && is_hex_digits cs 2
  | _ => false
  end.

Definition is_hash (value : json) : bool :=
  is_hex_data value &&
  match value with JString text => bool_decide (length (chars text) = 66%nat) | _ => false end.

Definition expect_quantity (value : json) (method : string) : res string :=
  require (is_quantity value) (invalid_result method "must be a 0x-hex quantity");;
  get_string value.

Definition receipt_field (receipt : json) (key : string) (valid : json → bool) : res string :=
  match json_field receipt key with
  | Some value =>
      require (valid value)
        (invalid_result "eth_getTransactionReceipt" ("field " +:+ key +:+ " is missing or malformed"));;
      get_string value
  | None =>
      Throw (invalid_result "eth_getTransactionReceipt" ("field " +:+ key +:+ " is missing or malformed"))
  end.

(** [std::stoull(digits, nullptr, 16)] of at most sixteen significant digits. *)
Definition chain_id_of (result : json) : res Z :=
  quantity ← expect_quantity result "eth_chainId";
  let digits := drop 2 (chars quantity) in
  let significant := skip_zeros digits in
  require (negb (negb (bool_decide (significant = [])) && bool_decide (16 < length significant)%nat))
    (invalid_result "eth_chainId" "exceeds 64 bits");;
  Ok (default 0 (hex_val digits)).

Definition call_data_of (result : json) : res string :=
  require (is_hex_data result) (invalid_result "eth_call" "must be 0x-hex data");;
  get_string result.

Definition sent_hash_of (result : json) : res string :=
  require (is_hash result) (invalid_result "eth_sendRawTransaction" "must be a 32-byte transaction hash");;
  get_string result.

Definition receipt_of (result : json) : res (option EvmTransactionReceipt) :=
  match result with
  | JNull => Ok None
  | JObject _ =>
      transaction_hash ← receipt_field result "transactionHash" is_hash;
      block_hash ← receipt_field result "blockHash" is_hash;
      block_number ← receipt_field result "blockNumber" is_quantity;
      gas_used ← receipt_field result "gasUsed" is_quantity;
      effective_gas_price ←
        match json_field result "effectiveGasPrice" with
        | Some _ => receipt_field result "effectiveGasPrice" is_quantity
        | None => Ok ""
        end;
      status ← receipt_field result "status" is_quantity;
      require (bool_decide (status = "0x1") || bool_decide (status = "0x0"))
        (invalid_result "eth_getTransactionReceipt" "status must be 0x0 or 0x1");;
      logs ← match json_field result "logs" with
             | Some (JArray logs) => Ok logs
             | _ => Throw (invalid_result "eth_getTransactionReceipt" "logs must be an array")
             end;
      logs ← logs_from_json logs;
      Ok (Some (MkReceipt transaction_hash block_hash block_number gas_used effective_gas_price
                  (bool_decide (status = "0x1")) logs))
  | _ => Throw (invalid_result "eth_getTransactionReceipt" "must be an object or null")
  end.

(** [EvmJsonRpcHttpClient::get_logs] and [block_number], from the result. *)
Definition get_logs_of (result : json) : res (list EvmLog) :=
  match result with
  | JArray raw => logs_from_json raw
  | _ => Throw (runtime_error "invalid JSON-RPC result: eth_getLogs must return an array")
  end.
End Answers.
