(* ===== verification/JsonRpcWs.v ===== *)
(** * Subscriptions over a node's websocket (src/json_rpc_ws_runtime.hpp,
    json_rpc_ws_runtime.cpp, json_rpc_ws_dispatch.cpp)

    [EvmJsonRpcWsRuntime] keeps a list of subscriptions, asks for them when they
    are made and again whenever a connection opens, and hands notifications to
    callbacks.  Any number of threads subscribe, connect and disconnect while the
    transport opens and loses connections; the model is a step relation whose
    steps are the atomic operations of those threads. *)
From Stdlib Require Import Ascii String.
From stdpp Require Import relations.
From S2P Require Import Prelude Text EvmCursor Sdk JsonRpc.

#[local] Open Scope Z_scope.

(** ** Subscriptions and messages *)

Inductive SubscriptionType := Logs | PendingTransactions | NewHeads.

Record Subscription := MkSubscription { sub_type : SubscriptionType; sub_filter : EvmLogFilter }.

Definition no_filter : EvmLogFilter := MkFilter [] [] "" "".

Definition subscription_params (subscription : Subscription) : json :=
  match sub_type subscription with
  | Logs => JArray [JString "logs"; log_filter_json (sub_filter subscription)]
  | PendingTransactions => JArray [JString "newPendingTransactions"]
  | NewHeads => JArray [JString "newHeads"]
  end.

Definition subscription_request (id : Z) (subscription : Subscription) : json :=
  JObject [("jsonrpc", JString "2.0"); ("id", JInteger id); ("method", JString "eth_subscribe");
           ("params", subscription_params subscription)].

(** What a callback was called with. *)
Inductive ws_call :=
  | call_log (log : EvmLog)
  | call_pending_transaction (hash : string)
  | call_head (head : json)
  | call_error (message : string).

(** The callbacks that are set: each leaves with the text of a
    [std::exception], or returns. *)
Record EvmJsonRpcWsCallbacks := MkWsCallbacks {
  cb_log : option (EvmLog → option string);
  cb_pending_transaction : option (string → option string);
  cb_head : option (json → option string);
  cb_error : option (string → option string) }.

Section Dispatch.
Context `{JsonLibrary, JsonTypeErrors}.

(** The text of the exception [nlohmann::json::parse] throws. *)
Context (parse_what : string → string).

(** The answers of [dispatch_is_current], the next one first; when there are no
    more the stream is current. *)
Definition asked_current (answers : list bool) : bool * list bool :=
  match answers with [] => (true, []) | b :: answers => (b, answers) end.

(** What a piece of [handle_message] did: the calls, the text of the exception
    that left it, and the answers not asked for yet. *)
Definition outcome : Type := list ws_call * option string * list bool.

(** [emit_error]: an exception of the callback leaves it. *)
Definition emit_error (cb : EvmJsonRpcWsCallbacks) (answers : list bool) (message : string) : outcome :=
  let '(current, answers) := asked_current answers in
  if negb current then ([], None, answers)
  else match cb_error cb with
       | None => ([], None, answers)
       | Some f =>
           let '(current, answers) := asked_current answers in
           if current then ([call_error message], f message, answers) else ([], None, answers)
       end.

(** [if (callback && dispatch_is_current(generation)) callback(value)] *)
Definition call_if {A} (f : option (A → option string)) (answers : list bool) (value : res A) (call : A → ws_call) : outcome :=
  match f with
  | None => ([], None, answers)
  | Some f =>
      let '(current, answers) := asked_current answers in
      if negb current then ([], None, answers)
      else match value with
           | Throw (invalid_argument what | out_of_range what | logic_error what | runtime_error what) =>
               ([], Some what, answers)
           | Ok value => ([call value], f value, answers)
           end
  end.

(** The body of the [try] in [handle_message]: the calls made, and the text of
    the exception that leaves it. *)
Definition try_message (cb : EvmJsonRpcWsCallbacks) (answers : list bool) (message : string) : outcome :=
  match json_parse message with
  | None => ([], Some (parse_what message), answers)
  | Some body =>
      match json_field body "error" with
      | Some error => emit_error cb answers (json_dump error)
      | None =>
          match value_string body "method" "" with
          | Throw (invalid_argument what | out_of_range what | logic_error what | runtime_error what) =>
              ([], Some what, answers)
          | Ok method =>
              if negb (bool_decide (method = "eth_subscription")) then ([], None, answers)
              else
                match json_field body "params" with
                | None => emit_error cb answers "JSON-RPC subscription message missing params.result"
                | Some params =>
                    match json_field params "result" with
                    | None => emit_error cb answers "JSON-RPC subscription message missing params.result"
                    | Some (JString hash) => call_if (cb_pending_transaction cb) answers (Ok hash) call_pending_transaction
                    | Some (JObject _ as result) =>
                        match json_field result "topics", json_field result "address" with
                        | Some _, Some _ => call_if (cb_log cb) answers (evm_log_from_json result) call_log
                        | _, _ => call_if (cb_head cb) answers (Ok result) call_head
                        end
                    | Some _ => ([], None, answers)
                    end
                end
          end
      end
  end.

(** [handle_message]: the calls, and the exception that escapes to the
    websocket client. *)
Definition handle_message (cb : EvmJsonRpcWsCallbacks) (answers : list bool) (message : string) :
    list ws_call * option string :=
  let '(current, answers) := asked_current answers in
  if negb current then ([], None)
  else
    let '(calls, thrown, answers) := try_message cb answers message in
    match thrown with
    | None => (calls, None)
    | Some what =>
        let '(current, answers) := asked_current answers in
        if negb current then (calls, None)
        else
          let '(more, thrown, _) := emit_error cb answers ("invalid JSON-RPC WS message: " +:+ what) in
          (calls ++ more, thrown)
    end.

(** Nothing escapes a message: with an error callback that returns, an
    exception of the parser or of a callback is at most one error report, after
    at most one notification. *)
Definition is_report (call : ws_call) : Prop := match call with call_error _ => True | _ => False end.

Lemma emit_error_quiet cb answers message :
  (∀ f text, cb_error cb = Some f → f text = None) →
  ∃ calls answers', emit_error cb answers message = (calls, None, answers') ∧ (length calls ≤ 1)%nat ∧ Forall is_report calls.
Proof.
  intros Hq. unfold emit_error.
  assert (Hnone : ∀ answers, ∃ calls answers', ([], None, answers) = ((calls, None, answers') : outcome) ∧
    (length calls ≤ 1)%nat ∧ Forall is_report calls).
  { intros answers1. exists [], answers1. split_and!; [done|cbn; lia|done]. }
  destruct (asked_current answers) as [[] answers1]; cbn; [|apply Hnone].
  destruct (cb_error cb) as [f|] eqn:E; [|apply Hnone].
  destruct (asked_current answers1) as [[] answers2]; [|apply Hnone].
  exists [call_error message], answers2. rewrite (Hq f message eq_refl). split_and!; [done|cbn; lia|by repeat constructor].
Qed.

Lemma call_if_calls {A} (f : option (A → option string)) answers value (call : A → ws_call) :
  (length (call_if f answers value call).1.1 ≤ 1)%nat.
Proof.
  unfold call_if. destruct f as [f|]; [|cbn; lia]. destruct (asked_current answers) as [[] ?]; cbn; [|lia].
  destruct value as [v|[]]; cbn; lia.
Qed.

Lemma try_message_calls cb answers message :
  (∀ f text, cb_error cb = Some f → f text = None) → (length (try_message cb answers message).1.1 ≤ 1)%nat.
Proof.
  intros Hq. assert (He : ∀ text, (length (emit_error cb answers text).1.1 ≤ 1)%nat).
  { intros text. destruct (emit_error_quiet cb answers text Hq) as (calls & answers' & -> & Hl & _). done. }
  unfold try_message. destruct (json_parse message) as [body|]; [|cbn; lia].
  destruct (json_field body "error"); [apply He|]. destruct (value_string body "method" "") as [m|[]]; try (cbn; lia).
  case_if; [cbn; lia|]. destruct (json_field body "params") as [params|]; [|apply He].
  destruct (json_field params "result") as [[]|]; try apply He; try (cbn; lia); [apply call_if_calls|].
  destruct (json_field (JObject fields) "topics"), (json_field (JObject fields) "address"); apply call_if_calls.
Qed.

Lemma message_contained cb answers message :
  (∀ f text, cb_error cb = Some f → f text = None) →
  (handle_message cb answers message).2 = None ∧
  ∃ first reports, (handle_message cb answers message).1 = first ++ reports ∧ (length first ≤ 1)%nat ∧
    (length reports ≤ 1)%nat ∧ Forall is_report reports.
Proof.
  intros Hq. unfold handle_message. destruct (asked_current answers) as [[] answers1]; cbn.
  2:{ split; [done|]. exists [], []. split_and!; [done|cbn; lia|cbn; lia|done]. }
  pose proof (try_message_calls cb answers1 message Hq) as Hf.
  destruct (try_message cb answers1 message) as [[calls [what|]] answers2]; cbn in *.
  2:{ split; [done|]. exists calls, []. rewrite app_nil_r. split_and!; [done..|cbn; lia|done]. }
  destruct (asked_current answers2) as [[] answers3]; cbn.
  2:{ split; [done|]. exists calls, []. rewrite app_nil_r. split_and!; [done..|cbn; lia|done]. }
  destruct (emit_error_quiet cb answers3 ("invalid JSON-RPC WS message: " +:+ what) Hq) as (reports & answers4 & -> & Hl & Hr).
  cbn. split; [done|]. by exists calls, reports.
Qed.
End Dispatch.

(** ** The threads *)

Inductive WsState := DISCONNECTED | CONNECTING | CONNECTED | RECONNECTING | CLOSING | CLOSED.

#[export] Instance ws_state_eq_dec : EqDecision WsState.
Proof. solve_decision. Defined.

(** Where a thread is in [send_subscription]: before its first
    [dispatch_is_current], before the second, before [is_connected] of the
    websocket, before the send of the transport. *)
Inductive sending :=
  | s_check (generation : Z)
  | s_again (generation id : Z)
  | s_websocket (id : Z)
  | s_transport (id : Z).

(** The transport thread in [resubscribe], called when a connection opened. *)
Inductive replay_phase :=
  | t_idle
  | t_opened                                        (** the generation to be loaded *)
  | t_loaded (generation : Z)                       (** [dispatch_is_current] to come *)
  | t_copying (generation : Z)                      (** the subscriptions to be copied *)
  | t_sending (generation : Z) (p : sending) (i : nat) (rest : list nat).

(** A thread in one of the public operations; a subscription is known by its
    place in the list. *)
Inductive caller :=
  | c_pushed (i : nat)                              (** [subscribe_*]: the generation to be loaded *)
  | c_generation (i : nat) (generation : Z)         (** [is_connected] to come *)
  | c_sending (i : nat) (p : sending)
  | c_connecting                                    (** [connect]: [stream_active_] set *)
  | c_failed                                        (** the websocket refused: [deactivate_stream] to come *)
  | c_disconnecting.                                (** [disconnect], [stop], [shutdown]: deactivated *)

Record EvmJsonRpcWsRuntime := MkWs {
  owner_active_ : bool;
  stream_active_ : bool;
  stream_generation_ : Z;
  subscriptions_ : list Subscription;
  next_id_ : Z;
  ws_state : WsState;
  socket_open : bool;                               (** sends of the transport succeed *)
  asked : list (Z * nat);                           (** the requests this connection took: id and subscription *)
  replay : replay_phase;
  callers : list caller }.

(** [create] *)
Definition create : EvmJsonRpcWsRuntime := MkWs true false 0 [] 1 DISCONNECTED false [] t_idle [].

Definition set_stream (active : bool) (generation : Z) (s : EvmJsonRpcWsRuntime) : EvmJsonRpcWsRuntime :=
  MkWs (owner_active_ s) active generation (subscriptions_ s) (next_id_ s) (ws_state s) (socket_open s) (asked s)
    (replay s) (callers s).
Definition set_owner (b : bool) (s : EvmJsonRpcWsRuntime) : EvmJsonRpcWsRuntime :=
  MkWs b (stream_active_ s) (stream_generation_ s) (subscriptions_ s) (next_id_ s) (ws_state s) (socket_open s) (asked s)
    (replay s) (callers s).
Definition set_subscriptions (l : list Subscription) (s : EvmJsonRpcWsRuntime) : EvmJsonRpcWsRuntime :=
  MkWs (owner_active_ s) (stream_active_ s) (stream_generation_ s) l (next_id_ s) (ws_state s) (socket_open s) (asked s)
    (replay s) (callers s).
Definition set_requests (id : Z) (l : list (Z * nat)) (s : EvmJsonRpcWsRuntime) : EvmJsonRpcWsRuntime :=
  MkWs (owner_active_ s) (stream_active_ s) (stream_generation_ s) (subscriptions_ s) id (ws_state s) (socket_open s) l
    (replay s) (callers s).
Definition set_socket (state : WsState) (b : bool) (s : EvmJsonRpcWsRuntime) : EvmJsonRpcWsRuntime :=
  MkWs (owner_active_ s) (stream_active_ s) (stream_generation_ s) (subscriptions_ s) (next_id_ s) state b (asked s)
    (replay s) (callers s).
Definition set_replay (p : replay_phase) (s : EvmJsonRpcWsRuntime) : EvmJsonRpcWsRuntime :=
  MkWs (owner_active_ s) (stream_active_ s) (stream_generation_ s) (subscriptions_ s) (next_id_ s) (ws_state s)
    (socket_open s) (asked s) p (callers s).
Definition set_callers (l : list caller) (s : EvmJsonRpcWsRuntime) : EvmJsonRpcWsRuntime :=
  MkWs (owner_active_ s) (stream_active_ s) (stream_generation_ s) (subscriptions_ s) (next_id_ s) (ws_state s)
    (socket_open s) (asked s) (replay s) l.

Definition dispatch_is_current (expected_generation : Z) (s : EvmJsonRpcWsRuntime) : bool :=
  owner_active_ s && stream_active_ s && (expected_generation =? stream_generation_ s).

Definition deactivate_stream (s : EvmJsonRpcWsRuntime) : EvmJsonRpcWsRuntime :=
  if stream_active_ s then set_stream false (u64 (stream_generation_ s + 1)) s else s.

(** [websocket_.is_connected()] *)
Definition websocket_connected (s : EvmJsonRpcWsRuntime) : bool := bool_decide (ws_state s = CONNECTED).
Definition is_connected (s : EvmJsonRpcWsRuntime) : bool := owner_active_ s && websocket_connected s.

(** One step of [send_subscription]: on, or its result. *)
Definition send_step (i : nat) (p : sending) (s : EvmJsonRpcWsRuntime) : EvmJsonRpcWsRuntime * (sending + bool) :=
  match p with
  | s_check generation =>
      if dispatch_is_current generation s
      then (set_requests (u64 (next_id_ s + 1)) (asked s) s, inl (s_again generation (next_id_ s)))
      else (s, inr false)
  | s_again generation id =>
      if dispatch_is_current generation s then (s, inl (s_websocket id)) else (s, inr false)
  | s_websocket id => if websocket_connected s then (s, inl (s_transport id)) else (s, inr false)
  | s_transport id =>
      if socket_open s then (set_requests (next_id_ s) (asked s ++ [(id, i)]) s, inr true) else (s, inr false)
  end.

(** [resubscribe], from one atomic operation to the next. *)
Definition next_subscription (generation : Z) (rest : list nat) : replay_phase :=
  match rest with [] => t_idle | i :: rest => t_sending generation (s_check generation) i rest end.

Definition resubscribe_step (s : EvmJsonRpcWsRuntime) : EvmJsonRpcWsRuntime :=
  match replay s with
  | t_idle => s
  | t_opened => set_replay (t_loaded (stream_generation_ s)) s
  | t_loaded generation => set_replay (if dispatch_is_current generation s then t_copying generation else t_idle) s
  | t_copying generation => set_replay (next_subscription generation (seq 0 (length (subscriptions_ s)))) s
  | t_sending generation p i rest =>
      match send_step i p s with
      | (s, inl p) => set_replay (t_sending generation p i rest) s
      | (s, inr true) => set_replay (next_subscription generation rest) s
      | (s, inr false) => set_replay t_idle s
      end
  end.

(** How the websocket takes [connect] when it is disconnected: it starts, it
    refuses inside a callback, or it throws and closes. *)
Inductive connect_answer := starts | refuses | throws.

(** What a thread in a public operation does next, and where it is then. *)
Definition caller_step (c : caller) (answer : connect_answer) (s : EvmJsonRpcWsRuntime) : EvmJsonRpcWsRuntime * option caller :=
  match c with
  | c_pushed i => (s, Some (c_generation i (stream_generation_ s)))
  | c_generation i generation => (s, if is_connected s then Some (c_sending i (s_check generation)) else None)
  | c_sending i p =>
      match send_step i p s with
      | (s, inl p) => (s, Some (c_sending i p))
      | (s, inr _) => (s, None)
      end
  | c_connecting =>
      match ws_state s with
      | CONNECTED | CONNECTING | RECONNECTING => (s, None)
      | CLOSING => (s, Some c_failed)
      | DISCONNECTED | CLOSED =>
          match answer with
          | starts => (set_socket CONNECTING false s, None)
          | refuses => (s, Some c_failed)
          | throws => (set_socket CLOSING false s, None)
          end
      end
  | c_failed => (deactivate_stream s, None)
  | c_disconnecting => (set_socket CLOSING (socket_open s) s, None)
  end.

(** The start of a public operation. *)
Inductive operation := subscribe (subscription : Subscription) | connect | disconnect | shutdown.

Definition start (o : operation) (s : EvmJsonRpcWsRuntime) : EvmJsonRpcWsRuntime :=
  let enter c s := set_callers (callers s ++ [c]) s in
  match o with
  | subscribe subscription =>
      if owner_active_ s then
        enter (c_pushed (length (subscriptions_ s))) (set_subscriptions (subscriptions_ s ++ [subscription]) s)
      else s
  | connect => if owner_active_ s then enter c_connecting (set_stream true (stream_generation_ s) s) else s
  | disconnect => enter c_disconnecting (deactivate_stream s)
  | shutdown => if owner_active_ s then enter c_disconnecting (deactivate_stream (set_owner false s)) else s
  end.

Definition lifecycle (c : caller) : Prop :=
  match c with c_connecting | c_failed | c_disconnecting => True | _ => False end.
#[export] Instance lifecycle_dec c : Decision (lifecycle c).
Proof. destruct c; apply _. Defined.

Definition is_subscribe (o : operation) : bool := match o with subscribe _ => true | _ => false end.

(** One atomic operation of some thread.  Calls of [connect], [disconnect] and
    [stop] overlap only if [overlap]. *)
Inductive ws_step (overlap : bool) : EvmJsonRpcWsRuntime → EvmJsonRpcWsRuntime → Prop :=
  | step_start s o :
      overlap = true ∨ is_subscribe o = true ∨ Forall (λ c, ¬ lifecycle c) (callers s) → ws_step overlap s (start o s)
  | step_caller s before c after answer s' next :
      callers s = before ++ c :: after → caller_step c answer s = (s', next) →
      ws_step overlap s (set_callers (before ++ from_option (λ c, [c]) [] next ++ after) s')
  | step_resubscribe s : ws_step overlap s (resubscribe_step s)
  (** a connection opens: [handle_open] up to [on_connect] *)
  | step_open s :
      ws_state s = CONNECTING ∨ ws_state s = RECONNECTING → replay s = t_idle →
      ws_step overlap s (set_replay t_opened (set_requests (next_id_ s) [] (set_socket CONNECTED true s)))
  (** the connection is lost, which [handle_close] or [handle_error] notices later *)
  | step_lost s : ws_step overlap s (set_socket (ws_state s) false s)
  | step_closed s reconnect :
      ws_state s = CONNECTED ∨ ws_state s = CONNECTING ∨ ws_state s = RECONNECTING → replay s = t_idle →
      ws_step overlap s (set_socket (if reconnect : bool then RECONNECTING else DISCONNECTED) false s)
  (** the transport has stopped *)
  | step_stopped s : ws_state s = CLOSING → replay s = t_idle → ws_step overlap s (set_socket DISCONNECTED false s).

Definition reachable (overlap : bool) (s : EvmJsonRpcWsRuntime) : Prop := rtc (ws_step overlap) create s.

(** The stream is on, its connection open, and no thread is under way. *)
Definition settled (s : EvmJsonRpcWsRuntime) : Prop :=
  owner_active_ s = true ∧ stream_active_ s = true ∧ ws_state s = CONNECTED ∧ socket_open s = true ∧
  replay s = t_idle ∧ callers s = [].

(** How often the connection was asked for a subscription. *)
Definition times (i : nat) (requests : list (Z * nat)) : nat := length (filter (λ r, r.2 = i) requests).

#[local] Arguments times : simpl never.

(** ** Never more than twice *)

(** The requests for a subscription still to come, from each side. *)
Definition caller_due (i : nat) (c : caller) : nat :=
  match c with c_pushed j | c_generation j _ | c_sending j _ => if decide (j = i) then 1 else 0 | _ => 0 end%nat.
Definition callers_due (i : nat) (l : list caller) : nat := sum_list_with (caller_due i) l.
#[local] Arguments callers_due : simpl never.
Definition replay_due (i : nat) (p : replay_phase) : nat :=
  match p with
  | t_idle => 0
  | t_opened | t_loaded _ | t_copying _ => 1
  | t_sending _ _ j rest => length (filter (λ k, k = i) (j :: rest))
  end%nat.

Record counted (s : EvmJsonRpcWsRuntime) : Prop := {
  k_total i : (times i (asked s) + replay_due i (replay s) + callers_due i (callers s) ≤ 2)%nat;
  k_callers i : (callers_due i (callers s) ≤ 1)%nat;
  k_replay i : (replay_due i (replay s) ≤ 1)%nat;
  k_new i : (length (subscriptions_ s) ≤ i)%nat → times i (asked s) = 0%nat ∧ callers_due i (callers s) = 0%nat;
  k_copied g p j rest : replay s = t_sending g p j rest → Forall (λ k, k < length (subscriptions_ s))%nat (j :: rest) }.

Lemma times_snoc i l id j : times i (l ++ [(id, j)]) = (times i l + if decide (j = i) then 1 else 0)%nat.
Proof.
  unfold times. rewrite filter_app, length_app. f_equal. destruct (decide (j = i)).
  - by rewrite filter_cons_True.
  - by rewrite filter_cons_False.
Qed.

Lemma callers_due_app i l k : callers_due i (l ++ k) = (callers_due i l + callers_due i k)%nat.
Proof. unfold callers_due. induction l as [|c l IH]; cbn; [done|]. rewrite IH. lia. Qed.

(** All that one step of [send_subscription] changes. *)
Lemma send_step_frame i p s s' r :
  send_step i p s = (s', r) →
  ∃ id requests, s' = set_requests id requests s ∧
    (requests = asked s ∧ r ≠ inr true ∨ ∃ k, requests = asked s ++ [(k, i)] ∧ r = inr true).
Proof.
  destruct p; cbn; case_if; intros [= <- <-].
  2,3,4,5,6,8: exists (next_id_ s), (asked s); split; [by destruct s|by left].
  - eexists _, _. split; [done|by left].
  - eexists _, _. split; [done|right; by eexists].
Qed.

Lemma replay_next i generation rest :
  replay_due i (next_subscription generation rest) = length (filter (λ k, k = i) rest).
Proof. by destruct rest. Qed.

Lemma filter_seq i n : length (filter (λ k, k = i) (seq 0 n)) = if decide (i < n)%nat then 1%nat else 0%nat.
Proof.
  induction n as [|n IH]; [done|]. rewrite seq_S, Nat.add_0_l, filter_app, length_app, IH.
  destruct (decide (n = i)) as [->|Hn].
  - rewrite filter_cons_True, filter_nil by done. rewrite decide_False, decide_True by lia. done.
  - rewrite filter_cons_False, filter_nil by done. cbn. destruct (decide (i < n)%nat).
    + by rewrite decide_True by lia.
    + by rewrite decide_False by lia.
Qed.

Lemma counted_create : counted create.
Proof. split; cbn; try done; intros; unfold times, callers_due; cbn; lia. Qed.

Lemma counted_resubscribe s : counted s → counted (resubscribe_step s).
Proof.
  intros [Kt Kc Kr Kn Kp]. unfold resubscribe_step. destruct (replay s) as [| |g|g|g p j rest] eqn:Er.
  - by split; rewrite ?Er.
  - split; cbn; [apply Kt|apply Kc|lia|apply Kn|done].
  - destruct (dispatch_is_current g s); (split; cbn; [|apply Kc|lia|apply Kn|done]);
      intros i; specialize (Kt i); cbn in Kt; lia.
  - split; cbn; try done.
    + intros i. specialize (Kt i). rewrite replay_next, filter_seq. cbn in Kt. case_decide; lia.
    + intros i. rewrite replay_next, filter_seq. case_decide; lia.
    + intros g' p j rest. destruct (seq 0 _) as [|k l] eqn:E; [done|]. intros [= <- <- <- <-]. rewrite <- E.
      apply Forall_forall. intros x Hx. apply elem_of_seq in Hx. lia.
  - destruct (send_step j p s) as [s' r] eqn:Es. apply send_step_frame in Es as (id & l & -> & Hl).
    pose proof (Kp _ _ _ _ eq_refl) as Hlt. inversion_clear Hlt as [|? ? Hj Hrest].
    destruct r as [p'|[|]]; destruct Hl as [[-> ?]|(k & -> & ?)]; try done.
    + split; cbn; try done. intros g' p'' j' rest'. intros [= <- <- <- <-]. by constructor.
    + split; cbn; try done.
      * intros i. specialize (Kt i). rewrite replay_next, times_snoc. cbn [replay_due] in Kt.
        rewrite filter_cons in Kt. repeat case_decide; cbn in *; lia.
      * intros i. specialize (Kr i). rewrite replay_next. cbn [replay_due] in Kr. rewrite filter_cons in Kr.
        case_decide; cbn in *; lia.
      * intros i Hi. destruct (Kn i Hi) as [Ht Hc]. by rewrite times_snoc, Ht, decide_False by lia.
      * intros g' p'' j' rest'. destruct rest as [|k' rest]; [done|]. by intros [= <- <- <- <-].
    + split; cbn; try done; [|lia]. intros i. specialize (Kt i). lia.
Qed.

Lemma deactivate_stream_frame s : ∃ active generation, deactivate_stream s = set_stream active generation s.
Proof. unfold deactivate_stream. case_if; [by eexists _, _|]. exists (stream_active_ s), (stream_generation_ s). by destruct s. Qed.

(** A caller's step changes the requests by what it no longer owes. *)
Lemma caller_step_counts c answer s s' next :
  caller_step c answer s = (s', next) →
  replay s' = replay s ∧ subscriptions_ s' = subscriptions_ s ∧ callers s' = callers s ∧
  (∀ i, times i (asked s') + from_option (caller_due i) 0%nat next ≤ times i (asked s) + caller_due i c)%nat ∧
  (∀ i, from_option (caller_due i) 0%nat next ≤ caller_due i c)%nat ∧
  (∀ i, caller_due i c = 0 → times i (asked s') = times i (asked s))%nat.
Proof.
  destruct c as [i|i g|i p| | |]; cbn.
  - intros [= <- <-]. cbn. done.
  - intros [= <- <-]. destruct (is_connected s); cbn; split_and!; try done; intros; lia.
  - destruct (send_step i p s) as [s1 r] eqn:Es. apply send_step_frame in Es as (id & l & -> & Hl).
    destruct Hl as [[-> Hr]|(k & -> & ->)].
    + destruct r; intros [= <- <-]; cbn; split_and!; try done; intros; lia.
    + intros [= <- <-]. cbn. split_and!; try done.
      * intros j. rewrite times_snoc. lia.
      * intros. lia.
      * intros j. rewrite times_snoc. lia.
  - destruct (ws_state s), answer; intros [= <- <-]; cbn; split_and!; try done; intros; lia.
  - destruct (deactivate_stream_frame s) as (a & g & ->). intros [= <- <-]. cbn. done.
  - intros [= <- <-]. cbn. done.
Qed.

Lemma counted_caller s before c after answer s' next :
  callers s = before ++ c :: after → caller_step c answer s = (s', next) → counted s →
  counted (set_callers (before ++ from_option (λ c, [c]) [] next ++ after) s').
Proof.
  intros Hc Hs [Kt Kc Kr Kn Kp]. apply caller_step_counts in Hs as (Hr & Hl & _ & Ht & Hd & Hz).
  assert (Hdue : ∀ i, callers_due i (callers s) = (callers_due i before + caller_due i c + callers_due i after)%nat).
  { intros i. rewrite Hc, callers_due_app. unfold callers_due. cbn. lia. }
  assert (Hdue' : ∀ i, callers_due i (before ++ from_option (λ c, [c]) [] next ++ after) =
    (callers_due i before + from_option (caller_due i) 0%nat next + callers_due i after)%nat).
  { intros i. rewrite !callers_due_app. unfold callers_due. destruct next; cbn; lia. }
  split; cbn; rewrite ?Hr, ?Hl; try done.
  - intros i. rewrite Hdue'. specialize (Kt i). rewrite Hdue in Kt. specialize (Ht i). lia.
  - intros i. rewrite Hdue'. specialize (Kc i). rewrite Hdue in Kc. specialize (Hd i). lia.
  - intros i Hi. rewrite Hdue'. destruct (Kn i Hi) as [Hti Hci]. rewrite Hdue in Hci. specialize (Hd i). specialize (Hz i). lia.
Qed.

Lemma counted_start s o : counted s → counted (start o s).
Proof.
  intros [Kt Kc Kr Kn Kp].
  assert (Henter : ∀ c l, (∀ i, callers_due i l = 0%nat) → callers_due c (callers s ++ l) = callers_due c (callers s)).
  { intros c l Hl. rewrite callers_due_app, Hl. lia. }
  destruct o as [sub| | |]; cbn; repeat case_if; try done.
  all: try (destruct (deactivate_stream_frame s) as (a & g & ->)).
  all: try (destruct (deactivate_stream_frame (set_owner false s)) as (a & g & ->)).
  2,3,4: (split; cbn; [intros i; rewrite Henter by done; apply Kt|intros i; rewrite Henter by done; apply Kc|apply Kr
    |intros i Hi; rewrite Henter by done; by apply Kn|done]).
  assert (Hdue : ∀ i, callers_due i (callers s ++ [c_pushed (length (subscriptions_ s))]) =
    (callers_due i (callers s) + if decide (length (subscriptions_ s) = i) then 1 else 0)%nat).
  { intros i. rewrite callers_due_app. unfold callers_due. cbn. lia. }
  split; cbn; try done; rewrite ?length_app; cbn.
  - intros i. rewrite Hdue. specialize (Kt i). specialize (Kr i). case_decide as Hi; [|lia].
    destruct (Kn i); lia.
  - intros i. rewrite Hdue. specialize (Kc i). case_decide as Hi; [|lia]. destruct (Kn i); lia.
  - intros i Hi. rewrite Hdue. destruct (Kn i) as [-> ->]; [lia|]. rewrite decide_False by lia. done.
  - intros g p j rest Hp. eapply Forall_impl; [by eapply Kp|]. cbn. lia.
Qed.

Lemma counted_step overlap s s' : ws_step overlap s s' → counted s → counted s'.
Proof.
  destruct 1 as [s o _|s before c after answer s' next Hc Hs|s|s Hst Hr|s|s reconnect Hst Hr|s Hst Hr].
  - apply counted_start.
  - by apply (counted_caller _ _ _ _ _ _ _ Hc Hs).
  - apply counted_resubscribe.
  - intros [Kt Kc Kr Kn Kp]. split; cbn; try done.
    + intros i. specialize (Kc i). unfold times. cbn. lia.
    + intros i Hi. split; [done|by apply Kn].
  - intros []. by split.
  - intros []. by split.
  - intros []. by split.
Qed.

(** ** Never forgotten *)

Definition is_current_of (generation : Z) (p : sending) : Prop :=
  match p with s_check g | s_again g _ => g = generation | _ => True end.

(** What will ask for a subscription, unless the connection goes first. *)
Definition replay_covers (i : nat) (generation : Z) (p : replay_phase) : Prop :=
  match p with
  | t_idle => False
  | t_opened => True
  | t_loaded g | t_copying g => g = generation
  | t_sending g p j rest => g = generation ∧ is_current_of generation p ∧ i ∈ j :: rest
  end.
Definition caller_covers (i : nat) (generation : Z) (c : caller) : Prop :=
  match c with
  | c_pushed j => j = i
  | c_generation j g => j = i ∧ g = generation
  | c_sending j p => j = i ∧ is_current_of generation p
  | _ => False
  end.

Definition covered (i : nat) (s : EvmJsonRpcWsRuntime) : Prop :=
  (0 < times i (asked s))%nat ∨ replay_covers i (stream_generation_ s) (replay s) ∨
  Exists (caller_covers i (stream_generation_ s)) (callers s).

Definition active_state (w : WsState) : Prop := w = CONNECTED ∨ w = CONNECTING ∨ w = RECONNECTING.

Record kept (s : EvmJsonRpcWsRuntime) : Prop := {
  l_one : (length (filter lifecycle (callers s)) ≤ 1)%nat;
  l_connecting : c_connecting ∈ callers s → stream_active_ s = true;
  l_failed : c_failed ∈ callers s → ¬ active_state (ws_state s);
  l_active : active_state (ws_state s) → c_disconnecting ∉ callers s → stream_active_ s = true;
  l_covered i : ws_state s = CONNECTED → socket_open s = true → c_disconnecting ∉ callers s →
    (i < length (subscriptions_ s))%nat → covered i s }.

(** [send_subscription] gets on, on a connection that stays. *)
Lemma send_step_goes_on i p s s' r :
  send_step i p s = (s', r) → dispatch_is_current (stream_generation_ s) s = true → ws_state s = CONNECTED →
  socket_open s = true → is_current_of (stream_generation_ s) p →
  (∃ p', r = inl p' ∧ is_current_of (stream_generation_ s) p') ∨ r = inr true ∧ (0 < times i (asked s'))%nat.
Proof.
  intros Hs Hcur Hst Ho Hp. unfold websocket_connected in Hs. destruct p; cbn in *; subst.
  - rewrite Hcur in Hs. injection Hs as <- <-. left. by eexists.
  - rewrite Hcur in Hs. injection Hs as <- <-. left. by eexists.
  - unfold websocket_connected in Hs. rewrite Hst in Hs. injection Hs as <- <-. left. by eexists.
  - rewrite Ho in Hs. injection Hs as <- <-. right. split; [done|]. cbn. rewrite times_snoc, decide_True by done. lia.
Qed.

Lemma covered_mono i s s' :
  (∀ j, times j (asked s) ≤ times j (asked s'))%nat → stream_generation_ s' = stream_generation_ s →
  replay s' = replay s → callers s' = callers s → covered i s → covered i s'.
Proof. intros Ht Hg Hr Hc. unfold covered. rewrite Hg, Hr, Hc. specialize (Ht i). intros [H|H]; [left; lia|by right]. Qed.

Lemma kept_create : kept create.
Proof. split; cbn; try done; [lia|set_solver|set_solver|]. intros [|[|]]; done. Qed.

Lemma stream_current_now s :
  kept s → owner_active_ s = true → ws_state s = CONNECTED → c_disconnecting ∉ callers s →
  dispatch_is_current (stream_generation_ s) s = true.
Proof.
  intros K Ho Hst Hd. unfold dispatch_is_current.
  by rewrite Ho, (l_active _ K), Z.eqb_refl by (done || by left).
Qed.

Lemma set_requests_same s : set_requests (next_id_ s) (asked s) s = s.
Proof. by destruct s. Qed.

Lemma kept_resubscribe s : owner_active_ s = true → kept s → kept (resubscribe_step s).
Proof.
  intros Ho K. assert (Hframe : ∃ id requests p, resubscribe_step s = set_replay p (set_requests id requests s)).
  { unfold resubscribe_step. destruct (replay s) as [| |g|g|g p j rest] eqn:Er.
    1: exists (next_id_ s), (asked s), t_idle; rewrite set_requests_same, <- Er; by destruct s.
    1-3: eexists (next_id_ s), (asked s), _; by rewrite set_requests_same.
    destruct (send_step j p s) as [s' r] eqn:Es. apply send_step_frame in Es as (id & l & -> & _).
    destruct r as [|[|]]; by eexists _, _, _. }
  destruct Hframe as (id & requests & p & Hframe). split.
  1-4: rewrite Hframe; cbn; apply K.
  intros i. rewrite Hframe at 1 2 3 4. cbn. intros Hst Hopen Hdis Hi.
  pose proof (stream_current_now s K Ho Hst Hdis) as Hcur. pose proof (l_covered _ K i Hst Hopen Hdis Hi) as Hcov.
  clear Hframe id requests p. unfold covered in *. unfold resubscribe_step.
  destruct (replay s) as [| |g|g|g p j rest] eqn:Er; cbn.
  - by rewrite Er.
  - tauto.
  - destruct Hcov as [|[Hg|]]; [tauto| |tauto]. cbn in Hg. subst g. rewrite Hcur. right. by left.
  - destruct Hcov as [|[Hg|]]; [tauto| |tauto]. cbn in Hg. subst g. right. left.
    assert (Hin : i ∈ seq 0 (length (subscriptions_ s))) by (apply elem_of_seq; lia).
    destruct (seq 0 _) as [|k l]; [by apply elem_of_nil in Hin|]. done.
  - destruct (send_step j p s) as [s' r] eqn:Es. pose proof (send_step_frame _ _ _ _ _ Es) as (id & l & -> & Hl).
    assert (Ht : ∀ k, (times k (asked s) ≤ times k l)%nat).
    { intros k. destruct Hl as [[-> _]|(? & -> & _)]; [done|]. rewrite times_snoc. lia. }
    specialize (Ht i). destruct Hcov as [Hti|[(-> & Hp & Hin)|Hc]].
    + left. destruct r as [|[|]]; cbn; lia.
    + destruct (send_step_goes_on _ _ _ _ _ Es Hcur Hst Hopen Hp) as [(p' & -> & Hp')|[-> Hj]]; cbn in *.
      * right. by left.
      * apply elem_of_cons in Hin as [->|Hin]; [by left|]. right. left.
        destruct rest as [|k rest]; [by apply elem_of_nil in Hin|]. done.
    + right. right. by destruct r as [|[|]].
Qed.

Lemma alone before c after :
  (length (filter lifecycle (before ++ c :: after)) ≤ 1)%nat → lifecycle c → Forall (λ d, ¬ lifecycle d) (before ++ after).
Proof.
  rewrite filter_app, length_app, filter_cons. intros Hl Hc. rewrite decide_True in Hl by done. cbn in Hl.
  apply Forall_forall. intros d Hd Hld.
  assert (d ∈ filter lifecycle before ∨ d ∈ filter lifecycle after) as [Hin|Hin].
  { apply elem_of_app in Hd as [Hd|Hd]; [left|right]; by apply list_elem_of_filter. }
  - destruct (filter lifecycle before); [by apply elem_of_nil in Hin|]. cbn in Hl. lia.
  - destruct (filter lifecycle after); [by apply elem_of_nil in Hin|]. cbn in Hl. lia.
Qed.

Lemma not_alone before after d :
  Forall (λ d, ¬ lifecycle d) (before ++ after) → lifecycle d → d ∉ before ++ after.
Proof. intros Hf Hd Hin. rewrite Forall_forall in Hf. by apply (Hf d Hin). Qed.

Lemma filter_none_life l : Forall (λ d, ¬ lifecycle d) l → filter lifecycle l = [].
Proof. induction 1 as [|d l Hd _ IH]; [done|]. by rewrite filter_cons_False. Qed.

(** A thread that subscribes. *)
Lemma kept_subscriber s before c after answer s' next :
  callers s = before ++ c :: after → caller_step c answer s = (s', next) → owner_active_ s = true → kept s →
  ¬ lifecycle c → kept (set_callers (before ++ from_option (λ c, [c]) [] next ++ after) s').
Proof.
  intros Hc Hs Ho K Hnl.
  assert (Hf : ∃ id l, s' = set_requests id l s ∧ (∀ i, times i (asked s) ≤ times i l)%nat ∧ (from_option (λ d, ¬ lifecycle d) True next) ∧
    (∀ i, ws_state s = CONNECTED → socket_open s = true → c_disconnecting ∉ callers s →
       caller_covers i (stream_generation_ s) c →
       (0 < times i l)%nat ∨ from_option (caller_covers i (stream_generation_ s)) False next)).
  { destruct c as [j|j g|j p| | |]; try (by destruct Hnl); cbn in Hs.
    - injection Hs as <- <-. exists (next_id_ s), (asked s). rewrite set_requests_same. split_and!; try done. intros i _ _ _ ->. by right.
    - injection Hs as <- <-. exists (next_id_ s), (asked s). rewrite set_requests_same. split_and!; [done..| |].
      + by destruct (is_connected s).
      + intros i Hst _ _ [-> ->]. right. unfold is_connected, websocket_connected. rewrite Ho, Hst. cbn. done.
    - destruct (send_step j p s) as [s1 r] eqn:Es. pose proof (send_step_frame _ _ _ _ _ Es) as (id & l & -> & Hl).
      assert (Ht : ∀ i, (times i (asked s) ≤ times i l)%nat).
      { intros i. destruct Hl as [[-> _]|(k & -> & _)]; [done|]. rewrite times_snoc. lia. }
      exists id, l. assert (s' = set_requests id l s) as -> by (destruct r; congruence). split_and!; [done..| |].
      + by destruct r; injection Hs as <-.
      + intros i Hst Hopen Hdis [-> Hp].
        destruct (send_step_goes_on _ _ _ _ _ Es (stream_current_now s K Ho Hst Hdis) Hst Hopen Hp) as [(p' & -> & Hp')|[-> Hj]].
        * injection Hs as <-. by right.
        * by left. }
  destruct Hf as (id & l & -> & Ht & Hnext & Hcov).
  set (callers' := before ++ from_option (λ c, [c]) [] next ++ after).
  assert (Hin : ∀ d, lifecycle d → d ∈ callers' ↔ d ∈ callers s).
  { intros d Hd. rewrite Hc. subst callers'. rewrite !elem_of_app, elem_of_cons.
    assert (d ≠ c) by congruence. destruct next as [n|]; cbn in *; set_unfold; [|tauto].
    assert (d ≠ n) by congruence. tauto. }
  split; cbn; rewrite ?Hin by done; try apply K.
  - pose proof (l_one _ K) as H1. rewrite Hc in H1. subst callers'. rewrite filter_app, length_app in H1.
    rewrite filter_cons_False in H1 by done. rewrite !filter_app, !length_app.
    assert (filter lifecycle (from_option (λ c, [c]) [] next) = []) as ->; [|cbn; lia].
    destruct next; cbn [from_option] in *; [by rewrite filter_cons_False|done].
  - intros i Hst Hopen Hdis Hi. rewrite Hin in Hdis by done. specialize (Ht i).
    destruct (l_covered _ K i Hst Hopen Hdis Hi) as [Hti|[Hr|Hex]]; [left; cbn; lia|right; by left|].
    rewrite Hc, Exists_app, Exists_cons in Hex. unfold covered. cbn. subst callers'. rewrite !Exists_app.
    destruct Hex as [|[Hci|]]; [tauto| |tauto]. destruct (Hcov i Hst Hopen Hdis Hci) as [|Hn]; [by left|].
    right. right. right. left. destruct next; [by left|done].
Qed.

Lemma kept_caller s before c after answer s' next :
  callers s = before ++ c :: after → caller_step c answer s = (s', next) → owner_active_ s = true → kept s →
  kept (set_callers (before ++ from_option (λ c, [c]) [] next ++ after) s').
Proof.
  intros Hc Hs Ho K. destruct (decide (lifecycle c)) as [Hlc|Hlc]; [|by eapply kept_subscriber].
  pose proof (l_one _ K) as H1. rewrite Hc in H1. apply alone in H1; [|done].
  pose proof (not_alone _ _ c_connecting H1 I) as Nc. pose proof (not_alone _ _ c_failed H1 I) as Nf.
  pose proof (not_alone _ _ c_disconnecting H1 I) as Nd.
  pose proof (filter_none_life _ H1) as Hnone.
  assert (Hother : ∀ i g, Exists (caller_covers i g) (callers s) → Exists (caller_covers i g) (before ++ after)).
  { intros i g. rewrite Hc, !Exists_app, Exists_cons. intros [|[Hx|]]; [tauto| |tauto]. by destruct c. }
  assert (Hfailed : ∀ d, d ∈ before ++ [c_failed] ++ after ↔ d = c_failed ∨ d ∈ before ++ after) by (intros; set_unfold; tauto).
  assert (Hone : (length (filter lifecycle (before ++ [c_failed] ++ after)) ≤ 1)%nat).
  { rewrite !filter_app in *. apply app_eq_nil in Hnone as [-> ->]. done. }
  destruct c; try done; cbn in Hs.
  - pose proof (l_connecting _ K ltac:(rewrite Hc; set_solver)) as Hact.
    assert (Hin : c_disconnecting ∉ callers s) by (rewrite Hc; set_unfold; naive_solver).
    destruct (ws_state s) eqn:Est; [destruct answer| | | | |destruct answer]; injection Hs as <- <-; cbn [from_option];
      rewrite ?app_nil_l; split; cbn; rewrite ?Hfailed, ?Est, ?Hnone; try done; try (cbn; lia); try (intros [|[|]]; done); try (intros; by destruct Nf); try (intros _ [|[|]]; done).
    intros i _ Hopen _ Hi. destruct (l_covered _ K i Est Hopen Hin Hi) as [|[|Hex]]; [by left|right; by left|]. right. right. by apply Hother.
  - pose proof (l_failed _ K ltac:(rewrite Hc; set_solver)) as Hst. destruct (deactivate_stream_frame s) as (a & g & Hd).
    rewrite Hd in Hs. injection Hs as <- <-. cbn [from_option]. rewrite ?app_nil_l. split; cbn; rewrite ?Hnone; try done; try (cbn; lia).
    intros i Hx. destruct Hst. by left.
  - injection Hs as <- <-. cbn [from_option]. rewrite ?app_nil_l. split; cbn; rewrite ?Hnone; try done; try (cbn; lia). intros [|[|]]; done.
Qed.

Lemma kept_subscribe s sub : owner_active_ s = true → kept s → kept (start (subscribe sub) s).
Proof.
  intros Ho K. cbn. rewrite Ho.
  assert (Hin : ∀ d, lifecycle d → d ∈ callers s ++ [c_pushed (length (subscriptions_ s))] ↔ d ∈ callers s).
  { intros d Hd. rewrite elem_of_app, list_elem_of_singleton. split; [|tauto]. by intros [| ->]. }
  split; cbn; rewrite ?Hin by done; try apply K.
  - rewrite filter_app, filter_cons_False by tauto. rewrite filter_nil, app_nil_r. apply K.
  - intros i Hst Hopen Hdis Hi. rewrite Hin in Hdis by done. rewrite length_app in Hi. cbn in Hi. unfold covered. cbn.
    destruct (decide (i = length (subscriptions_ s))) as [->|Hne].
    + right. right. apply Exists_app. right. by left.
    + destruct (l_covered _ K i Hst Hopen Hdis) as [|[|Hex]]; [lia|by left|right; by left|].
      right. right. apply Exists_app. by left.
Qed.

Lemma kept_lifecycle s o :
  owner_active_ (start o s) = true → is_subscribe o = false → Forall (λ c, ¬ lifecycle c) (callers s) → kept s →
  kept (start o s).
Proof.
  intros Ho Hsub Hf K.
  assert (Hno : ∀ d, lifecycle d → d ∉ callers s).
  { intros d Hd Hin. rewrite Forall_forall in Hf. by apply (Hf d Hin). }
  pose proof (filter_none_life _ Hf) as Hnone.
  assert (Hone : ∀ d, lifecycle d → length (filter lifecycle (callers s ++ [d])) = 1%nat).
  { intros d Hd. by rewrite filter_app, Hnone, app_nil_l, filter_cons_True. }
  assert (Hin : ∀ d e, lifecycle d → d ∈ callers s ++ [e] → d = e).
  { intros d e Hd [Hd'|Hd']%elem_of_app; [by destruct (Hno d)|by apply list_elem_of_singleton in Hd']. }
  destruct o as [sub| | |]; [done|..]; cbn in Ho |- *.
  - destruct (owner_active_ s); [|done]. split; cbn; [by rewrite Hone|done|by intros ?%Hin|done|].
    intros i Hst Hopen _ Hi. destruct (l_covered _ K i Hst Hopen (Hno c_disconnecting I) Hi) as [|[|Hex]]; [by left|right; by left|].
    right. right. cbn. apply Exists_app. by left.
  - destruct (deactivate_stream_frame s) as (a & g & ->). split; cbn.
    + by rewrite Hone.
    + by intros ?%Hin.
    + by intros ?%Hin.
    + intros _ []. apply elem_of_app. right. by left.
    + intros i _ _ []. apply elem_of_app. right. by left.
  - destruct (owner_active_ s) eqn:E; [|congruence]. destruct (deactivate_stream_frame (set_owner false s)) as (a & g & Hd).
    by rewrite Hd in Ho.
Qed.

Lemma kept_step s s' :
  ws_step false s s' → owner_active_ s' = true → (owner_active_ s = true → kept s) → kept s'.
Proof.
  destruct 1 as [s o Hseq|s before c after answer s' next Hc Hs|s|s Hst Hr|s|s reconnect Hst Hr|s Hst Hr]; intros Ho K.
  - assert (Hos : owner_active_ s = true).
    { destruct (owner_active_ s) eqn:E; [done|]. destruct (deactivate_stream_frame s) as (a & g & Hd).
      destruct o; cbn in Ho; rewrite ?E, ?Hd in Ho; cbn in Ho; congruence. }
    destruct (is_subscribe o) eqn:Eo.
    + destruct o; try done. by apply kept_subscribe; [|apply K].
    + destruct Hseq as [|[|Hf]]; [done|done|]. by apply kept_lifecycle; [..|apply K].
  - assert (Hos : owner_active_ s = true).
    { cbn in Ho. destruct c as [i|i g|i p| | |]; cbn in Hs.
      - by injection Hs as <- <-.
      - by injection Hs as <- <-.
      - destruct (send_step i p s) as [s1 r] eqn:Es. apply send_step_frame in Es as (id & l & -> & _).
        by destruct r; injection Hs as <- <-.
      - destruct (ws_state s), answer; by injection Hs as <- <-.
      - destruct (deactivate_stream_frame s) as (a & g & Hd). rewrite Hd in Hs. by injection Hs as <- <-.
      - by injection Hs as <- <-. }
    by eapply kept_caller; [..|apply K].
  - assert (Hos : owner_active_ s = true).
    { revert Ho. unfold resubscribe_step. destruct (replay s) as [| |g|g|g p j rest]; try done.
      destruct (send_step j p s) as [s1 r] eqn:Es. apply send_step_frame in Es as (id & l & -> & _).
      by destruct r as [|[|]]. }
    by apply kept_resubscribe; [|apply K].
  - destruct (K Ho) as [L1 L2 L3 L4 L5]. split; cbn; try done.
    + intros Hf. destruct (L3 Hf). destruct Hst; [right; by left|by right; right].
    + intros _ Hd. apply L4; [|done]. destruct Hst; [right; by left|by right; right].
    + intros i _ _ _ _. right. by left.
  - destruct (K Ho) as [L1 L2 L3 L4 L5]. by split.
  - destruct (K Ho) as [L1 L2 L3 L4 L5]. split; cbn; try done.
    + intros Hf. by destruct (L3 Hf).
    + intros _. by apply L4.
  - destruct (K Ho) as [L1 L2 L3 L4 L5]. split; cbn; try done.
    + by intros Hf [|[|]].
    + by intros [|[|]].
Qed.

Lemma reachable_counted overlap s : reachable overlap s → counted s.
Proof. intros Hr. eapply rtc_ind_r with (P := counted); [apply counted_create|intros; by eapply counted_step|exact Hr]. Qed.

Lemma reachable_kept s : reachable false s → owner_active_ s = true → kept s.
Proof.
  intros Hr. eapply rtc_ind_r with (P := λ s, owner_active_ s = true → kept s); [|intros; by eapply kept_step|exact Hr].
  intros _. apply kept_create.
Qed.

(** ** Executions given as schedules *)

Inductive move := m_start (o : operation) | m_caller (answer : connect_answer) | m_resubscribe | m_open | m_stopped.

(** The last caller moves. *)
Definition play_move (overlap : bool) (m : move) (s : EvmJsonRpcWsRuntime) : option EvmJsonRpcWsRuntime :=
  match m with
  | m_start o =>
      if overlap || is_subscribe o || bool_decide (Forall (λ c, ¬ lifecycle c) (callers s)) then Some (start o s) else None
  | m_caller answer =>
      match reverse (callers s) with
      | [] => None
      | c :: before =>
          let '(s', next) := caller_step c answer s in
          Some (set_callers (reverse before ++ from_option (λ c, [c]) [] next ++ []) s')
      end
  | m_resubscribe => Some (resubscribe_step s)
  | m_open =>
      if bool_decide ((ws_state s = CONNECTING ∨ ws_state s = RECONNECTING)) &&
         match replay s with t_idle => true | _ => false end
      then Some (set_replay t_opened (set_requests (next_id_ s) [] (set_socket CONNECTED true s))) else None
  | m_stopped =>
      if bool_decide (ws_state s = CLOSING) && match replay s with t_idle => true | _ => false end
      then Some (set_socket DISCONNECTED false s) else None
  end.

Fixpoint play (overlap : bool) (ms : list move) (s : EvmJsonRpcWsRuntime) : option EvmJsonRpcWsRuntime :=
  match ms with [] => Some s | m :: ms => play_move overlap m s ≫= play overlap ms end.

Lemma ws_move_step overlap m s s' : play_move overlap m s = Some s' → ws_step overlap s s'.
Proof.
  destruct m; cbn.
  - destruct overlap; cbn; [intros [= <-]; apply step_start; by left|].
    destruct (is_subscribe o) eqn:Eo; cbn; [intros [= <-]; apply step_start; tauto|].
    case_bool_decide; [intros [= <-]; apply step_start; tauto|done].
  - destruct (reverse (callers s)) as [|c before] eqn:E; [done|].
    destruct (caller_step c answer s) as [s1 next] eqn:Ec. intros [= <-].
    eapply step_caller; [|exact Ec]. rewrite <- (reverse_involutive (callers s)), E. by rewrite reverse_cons.
  - intros [= <-]. apply step_resubscribe.
  - case_bool_decide; [|done]. destruct (replay s) eqn:E; try done. cbn. intros [= <-]. by apply step_open.
  - case_bool_decide; [|done]. destruct (replay s) eqn:E; try done. cbn. intros [= <-]. by apply step_stopped.
Qed.

Lemma play_reaches overlap ms s : play overlap ms create = Some s → reachable overlap s.
Proof.
  unfold reachable. generalize create. induction ms as [|m ms IH]; intros s0; cbn; [by intros [= ->]|].
  intros Hp. apply bind_Some in Hp as (s1 & Hm & Hp). eapply rtc_l; [by eapply ws_move_step|by apply IH].
Qed.

Definition heads : Subscription := MkSubscription NewHeads no_filter.
Definition resubscribed : list move := repeat m_resubscribe 7.

(** A subscription made while its connection opens. *)
Definition asked_twice : list move :=
  [m_start connect; m_caller starts; m_start (subscribe heads); m_open] ++ resubscribed ++ repeat (m_caller starts) 6.

(** A [disconnect] between the two halves of a [connect], and another
    [connect]. *)
Definition overlapped_connect : list move :=
  [m_start (subscribe heads); m_caller starts; m_caller starts; m_start connect; m_start disconnect; m_caller starts;
   m_stopped; m_caller starts; m_open; m_resubscribe; m_resubscribe; m_start connect; m_caller starts].

(** C13: calls of [connect] and [disconnect] that do not overlap never lose a
    subscription: whenever the stream is on, its connection open and nothing
    under way, every subscription was asked for on this connection, once or
    twice.  It is twice when it was made while the connection opened, and every
    log then arrives twice.  With an overlap the stream can come to rest on an
    open connection on which nothing was asked for. *)
Theorem subscriptions_asked :
  (∀ s i, reachable false s → settled s → (i < length (subscriptions_ s))%nat → (1 ≤ times i (asked s) ≤ 2)%nat) ∧
  (∃ s, reachable false s ∧ settled s ∧ subscriptions_ s = [heads] ∧ times 0 (asked s) = 2%nat) ∧
  (∃ s, reachable true s ∧ settled s ∧ subscriptions_ s = [heads] ∧ asked s = []).
Proof.
  split; [|split].
  - intros s i Hr (Ho & Ha & Hst & Hopen & Hrep & Hc) Hi. split.
    + destruct (l_covered _ (reachable_kept s Hr Ho) i Hst Hopen) as [|[Hcov|Hcov]]; [by rewrite Hc; apply not_elem_of_nil|done|done| |].
      * by rewrite Hrep in Hcov.
      * rewrite Hc in Hcov. by apply Exists_nil in Hcov.
    + pose proof (k_total _ (reachable_counted _ _ Hr) i). lia.
  - eexists. split; [apply (play_reaches _ asked_twice); vm_compute; reflexivity|]. by vm_compute.
  - eexists. split; [apply (play_reaches _ overlapped_connect); vm_compute; reflexivity|]. by vm_compute.
Qed.
