(* ===== verification/WebsocketLifecycle.v ===== *)
(** * Starting and stopping a websocket client
    (src/websocket_client_transport.cpp, websocket_client_teardown.cpp,
    websocket_client_resilience.cpp)

    [connect], [disconnect] and the transport worker that tears a connection down,
    as a transition system: each atomic load or store and each section under
    [transport_mutex_] is one step, [lifecycle_mutex_] is a lock that is held over
    several, and a wait for the worker is a step that is enabled once the worker is
    gone.  Thread 0 is IXWebSocket's and thread 1 the message worker: what they call
    they call from a callback; the others are the user's.  The library's [stop] and
    the joins of both threads wait until they are in no call. *)
From Stdlib Require Import String.
From S2P Require Import Prelude JsonRpcWs.

#[local] Open Scope nat_scope.

(** What [handle_open], [handle_close] and [handle_error] leave the state at. *)
Inductive handled := h_opened | h_retrying | h_down.

#[export] Instance handled_eq_dec : EqDecision handled.
Proof. solve_decision. Defined.

Definition state_after (h : handled) : WsState :=
  match h with h_opened => CONNECTED | h_retrying => RECONNECTING | h_down => DISCONNECTED end.

(** ** Threads *)

Inductive call_point :=
  | idle
  | c_entry | c_entry_again | c_wait_stop | c_state | c_active | c_request | c_wait_active | c_lock
  | c_start | c_store | c_worker | c_run                    (** these hold [lifecycle_mutex_] *)
  | c_failed | c_failed_request                  (** so do these: an exception was caught *)
  | c_failed_wait
  | d_lock | d_request (** holds it *) | d_wait
  | f_stop | f_join | f_publish                  (** [finish_disconnect] by the caller *)
  | h_check | h_store (h : handled) (** holds it *).

#[export] Instance call_point_eq_dec : EqDecision call_point.
Proof. solve_decision. Defined.

(** [transport_worker_loop], once it was started. *)
Inductive worker_point := w_waiting | w_stopping | w_joining | w_publishing | w_ending.

#[export] Instance worker_point_eq_dec : EqDecision worker_point.
Proof. solve_decision. Defined.

Record Lifecycle := MkLifecycle {
  state_ : WsState;
  transport_worker : option worker_point;    (** [transport_worker_active_] *)
  stop_requested : bool;
  stop_pending : bool;
  lifecycle_locked : bool;
  ix_running : bool;
  worker_running : bool;
  threads : list call_point;
  returned : list (nat * bool)               (** what [connect] returned, to whom *) }.

Definition new_lifecycle (users : nat) : Lifecycle :=
  MkLifecycle DISCONNECTED None false false false false false (replicate (2 + users) idle) [].

Definition set_state (w : WsState) (s : Lifecycle) : Lifecycle :=
  MkLifecycle w (transport_worker s) (stop_requested s) (stop_pending s) (lifecycle_locked s) (ix_running s) (worker_running s)
    (threads s) (returned s).
Definition set_transport (w : option worker_point) (requested pending : bool) (s : Lifecycle) : Lifecycle :=
  MkLifecycle (state_ s) w requested pending (lifecycle_locked s) (ix_running s) (worker_running s) (threads s) (returned s).
Definition set_lock (b : bool) (s : Lifecycle) : Lifecycle :=
  MkLifecycle (state_ s) (transport_worker s) (stop_requested s) (stop_pending s) b (ix_running s) (worker_running s)
    (threads s) (returned s).
Definition set_running (ix mw : bool) (s : Lifecycle) : Lifecycle :=
  MkLifecycle (state_ s) (transport_worker s) (stop_requested s) (stop_pending s) (lifecycle_locked s) ix mw
    (threads s) (returned s).
Definition at_point (i : nat) (p : call_point) (s : Lifecycle) : Lifecycle :=
  MkLifecycle (state_ s) (transport_worker s) (stop_requested s) (stop_pending s) (lifecycle_locked s) (ix_running s)
    (worker_running s) (<[i := p]> (threads s)) (returned s).
Definition return_ (i : nat) (b : bool) (s : Lifecycle) : Lifecycle :=
  MkLifecycle (state_ s) (transport_worker s) (stop_requested s) (stop_pending s) (lifecycle_locked s) (ix_running s)
    (worker_running s) (<[i := idle]> (threads s)) (returned s ++ [(i, b)]).

Definition has_worker (s : Lifecycle) : bool := match transport_worker s with Some _ => true | None => false end.
Definition internal (i : nat) : bool := bool_decide (i < 2).
Definition is_idle (i : nat) (s : Lifecycle) : bool := bool_decide (threads s !! i = Some idle).

(** ** Steps *)

Definition start_transport_worker (s : Lifecycle) : Lifecycle :=
  match transport_worker s with Some _ => s | None => set_transport (Some w_waiting) false false s end.

(** The state, and whether a worker is there to stop. *)
Definition request_transport_stop (s : Lifecycle) : Lifecycle * bool :=
  match transport_worker s with None => (s, false) | Some w => (set_transport (Some w) true true s, true) end.

(** What an idle thread begins: a call, or for IXWebSocket's thread the handling of
    an open, close or error. *)
Inductive task := do_connect | do_disconnect | do_handle.

(** A thread calls into the client only while it runs. *)
Definition may_call (i : nat) (s : Lifecycle) : bool :=
  match i with 0 => ix_running s | 1 => worker_running s | _ => true end.

Definition begin_task (i : nat) (t : task) (s : Lifecycle) : option Lifecycle :=
  if negb (may_call i s) then None
  else match t with
  | do_connect => Some (at_point i c_entry s)
  | do_disconnect => Some (at_point i d_lock s)
  | do_handle => if bool_decide (i = 0) then Some (at_point i h_check s) else None
  end.

(** The steps of [connect]; [fails]: the operation of the step throws. *)
Definition connect_step (i : nat) (p : call_point) (fails : bool) (s : Lifecycle) : option Lifecycle :=
  match p with
  | c_entry =>
      if internal i && stop_pending s then Some (return_ i false s)
      else if internal i then Some (at_point i c_entry_again s)
      else Some (at_point i (if stop_pending s then c_wait_stop else c_state) s)
  | c_entry_again => Some (at_point i (if stop_pending s then c_wait_stop else c_state) s)
  | c_wait_stop => if has_worker s then None else Some (at_point i c_state s)
  | c_state => Some (at_point i (if bool_decide (state_ s = DISCONNECTED) then c_active else c_lock) s)
  | c_active => Some (at_point i (if has_worker s then c_request else c_lock) s)
  | c_request =>
      let '(s, _) := request_transport_stop s in
      Some (if internal i then return_ i false s else at_point i c_wait_active s)
  | c_wait_active => if has_worker s then None else Some (at_point i c_lock s)
  | c_lock =>
      if lifecycle_locked s then None
      else match state_ s with
      | CONNECTED | CONNECTING | RECONNECTING => Some (return_ i true s)
      | CLOSING => Some (return_ i false s)
      | _ => Some (at_point i c_start (set_lock true s))
      end
  | c_start => Some (if fails then at_point i c_failed s else at_point i c_store (start_transport_worker s))
  | c_store => Some (at_point i c_worker (set_state CONNECTING s))
  | c_worker => Some (if fails then at_point i c_failed s else at_point i c_run (set_running (ix_running s) true s))
  | c_run =>
      Some (if fails then at_point i c_failed s else return_ i true (set_lock false (set_running true (worker_running s) s)))
  | c_failed => Some (at_point i c_failed_request (set_state CLOSING s))
  | c_failed_request =>
      let '(s, deferred) := request_transport_stop s in
      Some (at_point i (if deferred then c_failed_wait else f_stop) (set_lock false s))
  | c_failed_wait => if has_worker s then None else Some (at_point i idle s)
  | _ => None
  end.

Definition disconnect_step (i : nat) (p : call_point) (s : Lifecycle) : option Lifecycle :=
  match p with
  | d_lock => if lifecycle_locked s then None else Some (at_point i d_request (set_lock true (set_state CLOSING s)))
  | d_request =>
      let '(s, deferred) := request_transport_stop s in
      Some (at_point i (if deferred then (if internal i then idle else d_wait) else f_stop) (set_lock false s))
  | d_wait => if has_worker s then None else Some (at_point i idle s)
  | _ => None
  end.

(** [finish_disconnect] and [publish_disconnected] by the caller. *)
Definition finish_step (i : nat) (p : call_point) (s : Lifecycle) : option Lifecycle :=
  match p with
  | f_stop => if is_idle 0 s then Some (at_point i f_join (set_running false (worker_running s) s)) else None
  | f_join =>
      if is_idle 1 s && negb (lifecycle_locked s) then Some (at_point i f_publish (set_running (ix_running s) false s)) else None
  | f_publish => Some (at_point i idle (set_state DISCONNECTED s))
  | _ => None
  end.

(** The section of a handler that stores the state [h] leaves. *)
Definition handle_step (i : nat) (p : call_point) (h : handled) (s : Lifecycle) : option Lifecycle :=
  match p with
  | h_check =>
      if lifecycle_locked s then None
      else if stop_pending s then Some (at_point i idle s)
      else Some (at_point i (h_store h) (set_lock true s))
  | h_store h => Some (at_point i idle (set_lock false (set_state (state_after h) s)))
  | _ => None
  end.

Definition call_step (i : nat) (p : call_point) (fails : bool) (h : handled) (s : Lifecycle) : option Lifecycle :=
  match p with
  | idle => None
  | d_lock | d_request | d_wait => disconnect_step i p s
  | f_stop | f_join | f_publish => finish_step i p s
  | h_check | h_store _ => handle_step i p h s
  | _ => connect_step i p fails s
  end.

(** [transport_worker_loop]. *)
Definition transport_step (s : Lifecycle) : option Lifecycle :=
  match transport_worker s with
  | None => None
  | Some w_waiting =>
      if stop_requested s then Some (set_transport (Some w_stopping) (stop_requested s) (stop_pending s) s) else None
  | Some w_stopping =>
      if is_idle 0 s
      then Some (set_transport (Some w_joining) (stop_requested s) (stop_pending s) (set_running false (worker_running s) s))
      else None
  | Some w_joining =>
      if is_idle 1 s && negb (lifecycle_locked s)
      then Some (set_transport (Some w_publishing) (stop_requested s) (stop_pending s) (set_running (ix_running s) false s))
      else None
  | Some w_publishing => Some (set_transport (Some w_ending) (stop_requested s) (stop_pending s) (set_state DISCONNECTED s))
  | Some w_ending => Some (set_transport None false false s)
  end.

Inductive life_event :=
  | begins (i : nat) (t : task)
  | continues (i : nat) (fails : bool) (h : handled)
  | works.

Definition life_step (s : Lifecycle) (e : life_event) : option Lifecycle :=
  match e with
  | begins i t => if is_idle i s then begin_task i t s else None
  | continues i fails h => p ← threads s !! i; call_step i p fails h s
  | works => transport_step s
  end.

Fixpoint life_run (s : Lifecycle) (es : list life_event) : option Lifecycle :=
  match es with
  | [] => Some s
  | e :: es => s ← life_step s e; life_run s es
  end.

(** Whether a step stores CLOSING between the worker's last two steps: after it
    published DISCONNECTED, before it is gone. *)
Definition closes_late (s : Lifecycle) (e : life_event) : bool :=
  match e with
  | continues i _ _ =>
      bool_decide (transport_worker s = Some w_ending) &&
      (bool_decide (threads s !! i = Some d_lock) || bool_decide (threads s !! i = Some c_failed))
  | _ => false
  end.

Definition punctual (s s' : Lifecycle) : Prop := ∃ e, life_step s e = Some s' ∧ closes_late s e = false.
Definition reached_punctually (users : nat) : Lifecycle → Prop := rtc punctual (new_lifecycle users).

(** Nothing is under way: no call, and no worker that was asked to stop. *)
Definition at_peace (s : Lifecycle) : bool :=
  forallb (λ p, bool_decide (p = idle)) (threads s) &&
  match transport_worker s with None => true | Some w_waiting => negb (stop_requested s) | _ => false end.

(** ** Invariant *)

(** The points after a store of CLOSING, up to what answers it. *)
Definition finishes (p : call_point) : bool :=
  match p with d_request | c_failed_request | f_stop | f_join | f_publish => true | _ => false end.

Definition worker_finishes (s : Lifecycle) : bool :=
  match transport_worker s with
  | Some w_waiting => stop_requested s
  | Some w_ending | None => false
  | Some _ => true
  end.

(** Whoever stored CLOSING is still there, or has handed it to the worker. *)
Definition closing_answered (s : Lifecycle) : Prop :=
  state_ s = CLOSING →
    transport_worker s ≠ Some w_ending ∧
    (worker_finishes s = true ∨ ∃ i p, threads s !! i = Some p ∧ finishes p = true).

(** A step that neither ends an answer nor begins the need for one. *)
Lemma answered_moves i p q s s' :
  closing_answered s → threads s !! i = Some p → (finishes p = true → finishes q = true) →
  threads s' = <[i := q]> (threads s) → (worker_finishes s = true → worker_finishes s' = true) →
  (transport_worker s' = Some w_ending → transport_worker s = Some w_ending) →
  state_ s' = state_ s → closing_answered s'.
Proof.
  intros Ha Hp Hq Ht Hw Hn' Hs Hc. rewrite Hs in Hc. destruct (Ha Hc) as [Hn Hf].
  split; [tauto|].
  destruct Hf as [Hf|(j & r & Hj & Hr')]; [left; tauto|right].
  rewrite Ht. destruct (decide (j = i)) as [->|Hne].
  - exists i, q. rewrite list_lookup_insert_eq by (by eapply lookup_lt_Some). simplify_eq. auto.
  - exists j, r. by rewrite list_lookup_insert_ne.
Qed.

Lemma answered_here i q s :
  transport_worker s ≠ Some w_ending → threads s !! i = Some q → finishes q = true → closing_answered s.
Proof. intros Hw Hi Hq _. split; [done|]. right. eauto. Qed.

Lemma answered_by_worker s :
  transport_worker s ≠ None → (state_ s = CLOSING → transport_worker s ≠ Some w_ending) → stop_requested s = true → closing_answered s.
Proof.
  intros Hn He Hr Hc. specialize (He Hc). split; [done|]. left.
  unfold worker_finishes. by destruct (transport_worker s) as [[]|].
Qed.

Lemma lookup_moved i (p q : call_point) (ps : list call_point) : ps !! i = Some p → <[i := q]> ps !! i = Some q.
Proof. intros Hp. apply list_lookup_insert_eq. by eapply lookup_lt_Some. Qed.

(** A step from [p] of thread [i], when the worker may be past its publication
    ([He]) or may not ([Hl]). *)
Ltac life_step He Hl :=
  simplify_eq/=; repeat (case_match; simplify_eq/=); try done; try congruence;
  first
    [ by apply answered_by_worker; simpl; [|intros ?; try apply He|]
    | by eapply answered_moves; [eassumption|eassumption| |reflexivity
        |unfold worker_finishes; simpl; repeat case_match; intros; congruence|simpl; congruence|reflexivity]
    | by intros ?; simplify_eq/=
    | intros ?; match goal with a : handled |- _ => by destruct a end
    | by eapply answered_here; [apply Hl; auto|by eapply lookup_moved|] ].

Lemma call_step_answered i p fails h s s' :
  threads s !! i = Some p → closes_late s (continues i fails h) = false →
  closing_answered s → call_step i p fails h s = Some s' → closing_answered s'.
Proof.
  intros Hp Hl Ha. unfold closes_late in Hl. rewrite Hp in Hl.
  assert (state_ s = CLOSING → transport_worker s ≠ Some w_ending) as He by (intros Hc; apply (Ha Hc)).
  assert (p = d_lock ∨ p = c_failed → transport_worker s ≠ Some w_ending) as Hl'
    by (intros [->| ->] Hw; rewrite Hw in Hl; done).
  clear Hl. destruct p; simpl; unfold request_transport_stop, start_transport_worker, has_worker; intros Hs;
    life_step He Hl'.
Qed.

Lemma begin_task_answered i t s s' :
  threads s !! i = Some idle → closing_answered s → begin_task i t s = Some s' → closing_answered s'.
Proof.
  unfold begin_task. intros Hp Ha Hs.
  assert (∃ q, s' = at_point i q s) as [q ->] by (repeat (case_match; simplify_eq); eauto).
  by apply (answered_moves i idle q s).
Qed.

Lemma transport_step_answered s s' : closing_answered s → transport_step s = Some s' → closing_answered s'.
Proof.
  intros Ha Hs. assert (state_ s = CLOSING → transport_worker s ≠ Some w_ending) as He by (intros Hc; apply (Ha Hc)).
  unfold transport_step in Hs. repeat (case_match; simplify_eq/=); intros Hc; simpl in *; try congruence;
  try (by split; [done|left]).
  by destruct (He Hc).
Qed.

Lemma punctual_answered s s' : punctual s s' → closing_answered s → closing_answered s'.
Proof.
  intros (e & Hs & Hl) Ha. destruct e as [i t|i fails h|]; simpl in Hs.
  - unfold is_idle in Hs. case_bool_decide; [|done]. by eapply begin_task_answered.
  - destruct (threads s !! i) as [p|] eqn:Hp; [|done]. by eapply call_step_answered.
  - by eapply transport_step_answered.
Qed.

Lemma reached_answered users s : reached_punctually users s → closing_answered s.
Proof.
  intros Hr. assert (closing_answered (new_lifecycle users)) as H0 by done.
  revert H0. unfold reached_punctually in Hr. induction Hr as [|? ? ? Hs _ IH]; eauto using punctual_answered.
Qed.

(** C20: No call that closes the websocket leaves it closing: once no call is under way and no worker
    was asked to stop, the state is not CLOSING, so that the next [connect] is not refused -- whatever the
    calls, callbacks, failures and their interleaving, as long as none stores CLOSING in the window after the
    worker published DISCONNECTED and before it is gone ([late_disconnect_sticks] shows what happens then). *)
Theorem never_left_closing users s : reached_punctually users s → at_peace s = true → state_ s ≠ CLOSING.
Proof.
  intros Hr [Hi Hw]%andb_true_iff Hc. destruct (reached_answered _ _ Hr Hc) as [_ [Hf|(i & p & Hp & Hf)]].
  - unfold worker_finishes in Hf. by repeat case_match; try rewrite Hf in Hw.
  - rewrite forallb_forall in Hi. apply list_elem_of_lookup_2, list_elem_of_In, Hi in Hp.
    by apply bool_decide_eq_true in Hp; subst.
Qed.

(** ** Schedules *)

Definition steps_of (i : nat) (n : nat) : list life_event := replicate n (continues i false h_opened).

(** A connection that a callback and then a user disconnect, and the next [connect]. *)
Definition disconnected_twice : list life_event :=
  begins 2 do_connect :: steps_of 2 8 ++
  begins 0 do_disconnect :: steps_of 0 2 ++
  begins 2 do_disconnect :: steps_of 2 2 ++ replicate 5 works ++ steps_of 2 1 ++
  begins 2 do_connect :: steps_of 2 8.

Fixpoint never_late (s : Lifecycle) (es : list life_event) : bool :=
  match es with
  | [] => true
  | e :: es => negb (closes_late s e) && match life_step s e with Some s => never_late s es | None => false end
  end.

Lemma run_punctual es s s' : never_late s es = true → life_run s es = Some s' → rtc punctual s s'.
Proof.
  revert s. induction es as [|e es IH]; simpl; intros s Hl Hs; [by simplify_eq; constructor|].
  destruct (life_step s e) as [t|] eqn:He; [|done]. apply andb_true_iff in Hl as [Hl1 Hl2].
  econstructor; [|by apply IH]. exists e. split; [done|]. by apply negb_true_iff.
Qed.

Definition final_of (users : nat) (es : list life_event) : Lifecycle := default (new_lifecycle users) (life_run (new_lifecycle users) es).

Lemma never_left_closing_witness :
  state_ (final_of 1 disconnected_twice) = CONNECTING ∧ state_ (final_of 1 disconnected_twice) ≠ CLOSING.
Proof.
  split; [vm_compute; reflexivity|].
  apply (never_left_closing 1); [|vm_compute; reflexivity].
  apply (run_punctual disconnected_twice); vm_compute; reflexivity.
Defined.

(** [disconnect] of thread 2 comes between the last two steps of the worker that a
    callback asked to stop: everybody returns, the state is CLOSING with no worker
    left, and [connect] returns [false], until another [disconnect]. *)
Definition late_disconnect : list life_event :=
  begins 2 do_connect :: steps_of 2 8 ++
  begins 0 do_disconnect :: steps_of 0 2 ++ replicate 4 works ++
  begins 2 do_disconnect :: steps_of 2 2 ++ [works] ++ steps_of 2 1 ++
  begins 2 do_connect :: steps_of 2 3.

Example late_disconnect_sticks :
  (λ s, (state_ s, at_peace s, returned s)) <$> life_run (new_lifecycle 1) late_disconnect =
    Some (CLOSING, true, [(2, true); (2, false)]).
Proof. vm_compute. reflexivity. Qed.

(** [connect] in a callback reads [transport_stop_pending_] twice; between the two
    another thread disconnects, and the callback waits for the worker, which waits
    for the callback. *)
Definition connect_in_callback : list life_event :=
  begins 2 do_connect :: steps_of 2 8 ++
  begins 0 do_connect :: steps_of 0 1 ++
  begins 2 do_disconnect :: steps_of 2 2 ++ steps_of 0 1 ++ [works].

(** No call under way and no worker can take a step. *)
Definition stuck (s : Lifecycle) : Prop :=
  life_step s works = None ∧
  ∀ i fails h, life_step s (continues i fails h) = None.

Example connect_in_callback_deadlocks :
  let s := final_of 1 connect_in_callback in
  threads s = [c_wait_stop; idle; d_wait] ∧ stuck s.
Proof.
  split; [vm_compute; reflexivity|]. split; [vm_compute; reflexivity|].
  by intros [|[|[|i]]] fails h; vm_compute.
Qed.

(** [disconnect] waits until no worker is active, not until its own is gone: when
    the next [connect] starts one first, it waits for the end of that connection. *)
Definition connect_overtakes : list life_event :=
  begins 2 do_connect :: steps_of 2 8 ++
  begins 2 do_disconnect :: steps_of 2 2 ++ replicate 5 works ++
  begins 3 do_connect :: steps_of 3 8.

Example disconnect_waits_for_next_connection :
  let s := final_of 2 connect_overtakes in
  (state_ s, threads s) = (CONNECTING, [idle; idle; d_wait; idle]) ∧ life_step s (continues 2 false h_opened) = None.
Proof. split; vm_compute; reflexivity. Qed.
