(* ===== verification/WebsocketOptions.v ===== *)
(** * Options, subscriptions and typed messages of a websocket client
    (src/websocket_client_resilience.cpp, websocket_resilience.cpp,
    websocket_client.hpp)

    What a websocket client accepts as options and what it tells IXWebSocket of
    them; the messages it sends again on a new connection; the messages it parses
    for the typed callback, and the frames that subscribe to books. *)
From Stdlib Require Import Ascii String.
From S2P Require Import Prelude Text Sdk RestParsing JsonRpcWs.

#[local] Open Scope Z_scope.

(** ** Options *)

Record WebSocketOptions := MkWsOptions {
  reconnect_enabled : bool; max_reconnect_attempts : Z; min_backoff_ms : Z; max_backoff_ms : Z; ping_interval_ms : Z;
  ping_message : string; server_ping_message : string; server_ping_reply : string; idle_timeout_ms : Z;
  message_queue_limit : Z; ws_proxy_url : string; ws_interface_name : string }.

Definition default_ws_options : WebSocketOptions := MkWsOptions true 0 250 10000 10000 "PING" "" "" 0 1024 "" "".

Definition validate_options (o : WebSocketOptions) : res unit :=
  require (negb (max_reconnect_attempts o <? 0)) (invalid_argument "max reconnect attempts cannot be negative");;
  require (negb ((min_backoff_ms o =? 0) || (max_backoff_ms o =? 0) || (max_backoff_ms o <? min_backoff_ms o)))
    (invalid_argument "WebSocket reconnect backoff range is invalid");;
  require (negb (ping_interval_ms o <=? 0)) (invalid_argument "WebSocket ping interval must be positive");;
  require (negb (message_queue_limit o =? 0)) (invalid_argument "WebSocket message queue limit must be positive");;
  require (bool_decide (bool_decide (server_ping_message o = "") = bool_decide (server_ping_reply o = "")))
    (invalid_argument "WebSocket server ping message and reply must be set together").

(** What IXWebSocket was told. *)
Record IxSettings := MkIx { ix_ping_message : string; ix_ping_interval : Z; ix_min_wait : Z; ix_max_wait : Z; ix_reconnects : bool }.

Definition ping_seconds (ping_ms : Z) : Z := (ping_ms + 999) ÷ 1000.

Definition apply_options (o : WebSocketOptions) : IxSettings :=
  MkIx (ping_message o) (if bool_decide (ping_message o = "") then -1 else ping_seconds (ping_interval_ms o))
    (min_backoff_ms o) (max_backoff_ms o) (reconnect_enabled o).

Record ClientOptions := MkClientOptions { options_ : WebSocketOptions; settings : IxSettings; queue_limit : Z }.

Definition new_client_options : ClientOptions :=
  MkClientOptions default_ws_options (apply_options default_ws_options) (message_queue_limit default_ws_options).

Definition require_inactive_locked (current : WsState) : res unit :=
  match current with
  | CONNECTING | CONNECTED | RECONNECTING | CLOSING => Throw (logic_error "cannot reconfigure an active WebSocket client")
  | _ => Ok tt
  end.

Definition configure (current : WsState) (o : WebSocketOptions) (c : ClientOptions) : res ClientOptions :=
  require_inactive_locked current;; validate_options o;; Ok (MkClientOptions o (apply_options o) (message_queue_limit o)).

Definition with_ping (ms : Z) (o : WebSocketOptions) : WebSocketOptions :=
  MkWsOptions (reconnect_enabled o) (max_reconnect_attempts o) (min_backoff_ms o) (max_backoff_ms o) ms (ping_message o)
    (server_ping_message o) (server_ping_reply o) (idle_timeout_ms o) (message_queue_limit o) (ws_proxy_url o) (ws_interface_name o).
Definition with_reconnect (enabled : bool) (o : WebSocketOptions) : WebSocketOptions :=
  MkWsOptions enabled (max_reconnect_attempts o) (min_backoff_ms o) (max_backoff_ms o) (ping_interval_ms o) (ping_message o)
    (server_ping_message o) (server_ping_reply o) (idle_timeout_ms o) (message_queue_limit o) (ws_proxy_url o) (ws_interface_name o).

Definition set_ping_interval_ms (current : WsState) (ms : Z) (c : ClientOptions) : res ClientOptions :=
  require_inactive_locked current;;
  require (negb (ms <=? 0)) (invalid_argument "WebSocket ping interval must be positive");;
  let o := with_ping ms (options_ c) in Ok (MkClientOptions o (apply_options o) (queue_limit c)).

Definition set_auto_reconnect (current : WsState) (enabled : bool) (c : ClientOptions) : res ClientOptions :=
  require_inactive_locked current;;
  let o := with_reconnect enabled (options_ c) in Ok (MkClientOptions o (apply_options o) (queue_limit c)).

Definition reconnect_limit_reached (retries max_attempts : Z) : bool := (0 <? max_attempts) && (max_attempts <=? retries).

(** [check_idle], where the client is connected: whether to reconnect. *)
Definition idle_too_long (now last_activity timeout_ms : Z) : bool :=
  negb ((now <? last_activity) || (now - last_activity <? timeout_ms * 1000000)).

(** ** Subscriptions *)

Definition track_subscription (message : string) (messages : list string) : list string :=
  if bool_decide (message ∈ messages) then messages else messages ++ [message].
Definition untrack_subscription (message : string) (messages : list string) : list string :=
  filter (λ m, m ≠ message) messages.

(** [restore_subscriptions]: what is sent, and whether all of it was; [send] says
    whether a message was taken. *)
Fixpoint restore_subscriptions (send : string → bool) (messages : list string) : list string * bool :=
  match messages with
  | [] => ([], true)
  | m :: messages =>
      if send m then let '(sent, all) := restore_subscriptions send messages in (m :: sent, all) else ([m], false)
  end.

(** ** Messages *)

Record TypedWebSocketMessage := MkTyped {
  t_topic : string; t_type : string; t_event_type : string; t_asset_id : string; t_payload : string; t_raw : string }.

Section Messages.
Context `{JsonLibrary, JsonRuntime}.
(** [what()] of the library's type errors. *)
Context (type_what : json → string).

(** [object.value(key, "")] *)
Definition value_text (object : json) (key : string) : res string :=
  match object with
  | JObject _ =>
      match json_field object key with
      | None => Ok ""
      | Some (JString text) => Ok text
      | Some value => Throw (runtime_error (type_what value))
      end
  | _ => Throw (runtime_error (type_what object))
  end.

Definition is_json_blank (c : ascii) : bool := bool_decide (c ∈ [" "%char; chr 9; chr 13; chr 10]).

Fixpoint first_of (cs : list ascii) : option ascii :=
  match cs with [] => None | c :: cs => if is_json_blank c then first_of cs else Some c end.

(** The asset of a message that changes prices of one asset. *)
Definition single_change_asset (parsed : json) (asset_id : string) : res string :=
  match json_field parsed "price_changes" with
  | Some (JArray [change]) => if bool_decide (asset_id = "") then value_text change "asset_id" else Ok asset_id
  | _ => Ok asset_id
  end.

Definition payload_of (parsed : json) (asset_id : string) : res (string * string) :=
  match json_field parsed "payload" with
  | None => Ok ("", asset_id)
  | Some payload =>
      asset_id ←
        match payload, json_field payload "asset_id" with
        | JObject _, Some (JString text) => Ok text
        | JObject _, Some value => Throw (runtime_error (type_what value))
        | _, _ => Ok asset_id
        end;
      Ok (match payload with JString text => text | _ => json_dump payload end, asset_id)
  end.

Definition parse_typed_message (message : string) : res (option TypedWebSocketMessage) :=
  if negb (bool_decide (first_of (chars message) = Some "{"%char)) then
    match json_parse message with
    | None => Throw (invalid_argument "WebSocket message is not valid JSON")
    | Some _ => Ok None
    end
  else
    parsed ← parse_json message;
    if negb (is_object parsed) then Ok None
    else
      topic ← value_text parsed "topic";
      type ← value_text parsed "type";
      event_type ← value_text parsed "event_type";
      asset_id ← value_text parsed "asset_id";
      asset_id ← single_change_asset parsed asset_id;
      '(payload, asset_id) ← payload_of parsed asset_id;
      if bool_decide (topic = "") && bool_decide (type = "") && bool_decide (event_type = "") then Ok None
      else Ok (Some (MkTyped topic type event_type asset_id payload message)).

Definition market_subscription_message (asset_ids : list string) : string :=
  json_dump (JObject [("assets_ids", JArray (JString <$> asset_ids)); ("custom_feature_enabled", JBool true); ("type", JString "market")]).

Definition market_subscription_update_message (asset_ids : list string) (subscribe : bool) : string :=
  json_dump (JObject (("assets_ids", JArray (JString <$> asset_ids)) ::
    (if subscribe then [("custom_feature_enabled", JBool true)] else []) ++
    [("operation", JString (if subscribe then "subscribe" else "unsubscribe"))])).
End Messages.

(** ** What holds of them *)

Record options_ok (o : WebSocketOptions) : Prop := {
  ok_attempts : 0 ≤ max_reconnect_attempts o;
  ok_backoff : min_backoff_ms o ≤ max_backoff_ms o ∧ min_backoff_ms o ≠ 0 ∧ max_backoff_ms o ≠ 0;
  ok_ping : 0 < ping_interval_ms o;
  ok_queue : message_queue_limit o ≠ 0;
  ok_server_ping : server_ping_message o = "" ↔ server_ping_reply o = "" }.

Lemma validate_options_ok o : validate_options o = Ok tt ↔ options_ok o.
Proof.
  unfold validate_options. split.
  - intros Hv. res_inv. bools. constructor; try done; try lia.
    match goal with E : bool_decide _ = bool_decide _ |- _ => revert E end. repeat case_bool_decide; naive_solver.
  - intros [Ha (Hb & Hb1 & Hb2) Hp Hq Hs].
    assert (bool_decide (server_ping_message o = "") = bool_decide (server_ping_reply o = "")) as Es by by apply bool_decide_ext.
    rewrite Es, (bool_decide_eq_true_2 _ eq_refl).
    rewrite (proj2 (Z.ltb_ge _ 0)), (proj2 (Z.eqb_neq _ _)), (proj2 (Z.eqb_neq _ _)), (proj2 (Z.ltb_ge _ _)),
      (proj2 (Z.leb_gt _ _)), (proj2 (Z.eqb_neq _ _)) by done.
    done.
Qed.

(** The client's options are valid, and IXWebSocket was told exactly them. *)
Record client_options_ok (c : ClientOptions) : Prop := {
  ok_options : options_ok (options_ c);
  ok_settings : settings c = apply_options (options_ c);
  ok_limit : queue_limit c = message_queue_limit (options_ c) }.

Lemma new_client_options_ok : client_options_ok new_client_options.
Proof. by constructor; [apply validate_options_ok|..]. Qed.

Inductive option_op := op_configure (o : WebSocketOptions) | op_ping (ms : Z) | op_reconnect (enabled : bool).

Definition option_step (current : WsState) (op : option_op) (c : ClientOptions) : res ClientOptions :=
  match op with
  | op_configure o => configure current o c
  | op_ping ms => set_ping_interval_ms current ms c
  | op_reconnect enabled => set_auto_reconnect current enabled c
  end.

(** A setter that returns leaves valid options behind, and only does so for a
    client that is not active. *)
Lemma option_step_ok current op c c' :
  client_options_ok c → option_step current op c = Ok c' → client_options_ok c' ∧ (current = DISCONNECTED ∨ current = CLOSED).
Proof.
  intros [[Ha Hb Hp Hq Hs] Hset Hl] Hc.
  assert (Hcur : require_inactive_locked current = Ok tt → current = DISCONNECTED ∨ current = CLOSED)
    by (destruct current; cbn; auto; done).
  destruct op as [o|ms|enabled]; cbn in Hc; unfold configure, set_ping_interval_ms, set_auto_reconnect in Hc; res_inv;
    repeat match goal with u : unit |- _ => destruct u end; (split; [|by apply Hcur]).
  - by constructor; [apply validate_options_ok|..].
  - bools. constructor; [constructor|..]; cbn; auto; lia.
  - constructor; [constructor|..]; cbn; auto.
Qed.

(** A ping is never sent more often than asked, and at most a second less often. *)
Lemma ping_seconds_ceil ms : 0 < ms ≤ 2147483647 → ms ≤ 1000 * ping_seconds ms < ms + 1000 ∧ 1 ≤ ping_seconds ms ≤ 2147484.
Proof.
  intros Hm. unfold ping_seconds. rewrite Z.quot_div_nonneg by lia.
  pose proof (Z.div_mod (ms + 999) 1000 ltac:(lia)). pose proof (Z.mod_pos_bound (ms + 999) 1000 ltac:(lia)). lia.
Qed.

Lemma track_NoDup message messages : NoDup messages → NoDup (track_subscription message messages).
Proof.
  intros Hn. unfold track_subscription. case_bool_decide; [done|]. apply NoDup_app. split_and!; [done|set_solver|apply NoDup_singleton].
Qed.

Lemma untrack_NoDup message messages : NoDup messages → NoDup (untrack_subscription message messages).
Proof. apply NoDup_filter. Qed.

Lemma elem_of_track m message messages : m ∈ track_subscription message messages ↔ m = message ∨ m ∈ messages.
Proof. unfold track_subscription. case_bool_decide; set_solver. Qed.

Lemma elem_of_untrack m message messages : m ∈ untrack_subscription message messages ↔ m ≠ message ∧ m ∈ messages.
Proof. unfold untrack_subscription. by rewrite list_elem_of_filter. Qed.

(** On a new connection the tracked messages are sent in the order they were
    tracked; the callback of a connection is called only when all were taken. *)
Lemma restore_in_order send messages sent all :
  restore_subscriptions send messages = (sent, all) →
  sent `prefix_of` messages ∧ (all = true → sent = messages ∧ Forall (λ m, send m = true) messages).
Proof.
  revert sent all. induction messages as [|m messages IH]; intros sent all; cbn; [intros [= <- <-]; split; [done|by constructor]|].
  destruct (send m) eqn:Em.
  - destruct (restore_subscriptions send messages) as [rest b]. intros [= <- <-]. destruct (IH rest b eq_refl) as [Hp Ha].
    split; [by apply prefix_cons|]. intros ->. destruct (Ha eq_refl) as [-> Hf]. by split; [|constructor].
  - intros [= <- <-]. split; [|done]. apply prefix_cons, prefix_nil.
Qed.

(** A typed message names what it is, and keeps the text it was read from. *)
Lemma typed_message_named `{JsonLibrary, JsonRuntime} type_what message typed :
  parse_typed_message type_what message = Ok (Some typed) →
  t_raw typed = message ∧ (t_topic typed ≠ "" ∨ t_type typed ≠ "" ∨ t_event_type typed ≠ "").
Proof.
  unfold parse_typed_message. case_if; [by destruct (json_parse _)|]. intros Hp. apply bind_Ok in Hp as (parsed & _ & Hp).
  case_if; [done|]. do 5 apply bind_Ok in Hp as (? & _ & Hp). apply bind_Ok in Hp as ([payload asset] & _ & Hp).
  case_if; [done|]. injection Hp as <-. split; [done|]. cbn. bools.
  match goal with E : (_ ∨ _) |- _ => revert E end. naive_solver.
Qed.
