(* ===== verification/CursorJson.v ===== *)
(** * The cursor file as a JSON document (src/evm_cursor_store.cpp)

    What [FileBlockCursorStore] keeps is a JSON object with a field for each cursor:
    a number or a quantity as text, the form of older versions, or an object.  Each
    operation reads the file, works on the document and replaces the file
    ([EvmCursorIo]); on the documents it refines the map of cursors of [EvmCursor].
    The unsigned numbers of the JSON library are the non-negative [JInteger]s, its
    objects are kept in the order of their keys. *)
From Stdlib Require Import Ascii String.
From S2P Require Import Prelude Text Sdk RestParsing EvmCursor EvmCursorIo JsonRpc.

#[local] Open Scope Z_scope.

Section Document.
Context `{JsonLibrary} {runtime : JsonRuntime} {types : JsonTypeErrors}.

(** ** Cursors *)

Definition read_quantity (value : json) : res Z :=
  let as_text := get_string value ≫= evm_quantity_to_uint64 in
  match value with
  | JInteger z => if 0 <=? z then Ok (u64 z) else as_text
  | _ => as_text
  end.

Definition last_log_from_json (last : json) : res EvmLogPosition :=
  ti ← json_at last "transactionIndex" ≫= read_quantity;
  li ← json_at last "logIndex" ≫= read_quantity;
  hash ← value_string last "blockHash" "";
  Ok (MkPosition ti li hash).

Definition cursor_from_json (value : json) : res EvmIndexCursor :=
  if negb (is_object value) then n ← read_quantity value; Ok (MkCursor n true None)
  else
    number ← json_at value "blockNumber" ≫= read_quantity;
    complete ← value_bool value "blockComplete" true;
    last ← match json_field value "lastLog" with
           | Some last => position ← last_log_from_json last; Ok (Some position)
           | None => Ok None
           end;
    Ok (MkCursor number complete last).

Definition last_log_to_json (last : EvmLogPosition) : json :=
  JObject [("blockHash", JString (block_hash last)); ("logIndex", JInteger (log_index last));
           ("transactionIndex", JInteger (transaction_index last))].

Definition cursor_to_json (cursor : EvmIndexCursor) : json :=
  JObject (("blockComplete", JBool (block_complete cursor)) :: ("blockNumber", JInteger (block_number cursor)) ::
           match last_log cursor with Some last => [("lastLog", last_log_to_json last)] | None => [] end).

(** ** Operations on the document *)

(** [data[name] = value] of an object, and of any value: null becomes an object. *)
Fixpoint put_field (name : string) (value : json) (fields : list (string * json)) : list (string * json) :=
  match fields with
  | [] => [(name, value)]
  | (key, old) :: rest =>
      if bool_decide (key = name) then (key, value) :: rest
      else if String.ltb name key then (name, value) :: fields
      else (key, old) :: put_field name value rest
  end.

Definition set_field (data : json) (name : string) (value : json) : res json :=
  match data with
  | JNull => Ok (JObject (put_field name value []))
  | JObject fields => Ok (JObject (put_field name value fields))
  | _ => Throw (runtime_error (type_what data))
  end.

(** [data.contains(name)] and [cursor_from_json(data.at(name))]. *)
Definition stored (data : json) (name : string) : res (option EvmIndexCursor) :=
  match json_field data name with
  | Some value => cursor ← cursor_from_json value; Ok (Some cursor)
  | None => Ok None
  end.

Definition load_document (data : json) (name : string) : res (option Z) :=
  cursor ← stored data name;
  Ok match cursor with
     | None => None
     | Some cursor =>
         if block_complete cursor then Some (block_number cursor)
         else if block_number cursor =? 0 then None
         else Some (block_number cursor - 1)
     end.

Definition load_cursor_document (data : json) (name : string) : res (option EvmIndexCursor) := stored data name.

(** The operations that write: the document to write, or none where they return
    before writing. *)
Definition replace_cursor (data : json) (name : string) (cursor : EvmIndexCursor) : res (option json) :=
  document ← set_field data name (cursor_to_json cursor); Ok (Some document).

Definition save_document (data : json) (name : string) (block : Z) : res (option json) :=
  current ← stored data name;
  let write := replace_cursor data name (MkCursor block true None) in
  match current with
  | Some current => if block <? block_number current then Ok None else write
  | None => write
  end.

Definition save_cursor_document (data : json) (name : string) (cursor : EvmIndexCursor) : res (option json) :=
  current ← stored data name;
  match current with
  | Some current => if cursor_advances current cursor then replace_cursor data name cursor else Ok None
  | None => replace_cursor data name cursor
  end.

Definition rewind_document (data : json) (name : string) (from : Z) : res (option json) :=
  current ← stored data name;
  match current with
  | Some current =>
      if block_number current <? from then Ok None else replace_cursor data name (MkCursor from false None)
  | None => Ok None
  end.

Definition document_op (name : string) (data : json) (op : cursor_op) : res (option json) :=
  match op with
  | Save block => save_document data name block
  | SaveCursor cursor => save_cursor_document data name cursor
  | Rewind from => rewind_document data name from
  end.

(** A sequence of calls, each on the document the file then holds. *)
Fixpoint document_ops (name : string) (data : json) (ops : list cursor_op) : res json :=
  match ops with
  | [] => Ok data
  | op :: ops => written ← document_op name data op; document_ops name (default data written) ops
  end.

(** ** Operations on the file *)

(** [data.dump(2) + "\n"]. *)
Definition cursor_payload (dump_indented : json → string) (data : json) : list ascii :=
  chars (dump_indented data) ++ [chr 10].

Definition load_file (path name : string) (opens : bool) (d : Disk) : res (option Z) :=
  data ← read_cursor_file parse_what path opens d; load_document data name.
Definition load_cursor_file (path name : string) (opens : bool) (d : Disk) : res (option EvmIndexCursor) :=
  data ← read_cursor_file parse_what path opens d; load_cursor_document data name.

(** What a call goes on to write with [write_cursor_file], if anything. *)
Definition file_op (path name : string) (opens : bool) (d : Disk) (op : cursor_op) : res (option json) :=
  data ← read_cursor_file parse_what path opens d; document_op name data op.

(** ** Round trip *)

Definition position_u64 (p : EvmLogPosition) : Prop := is_u64 (transaction_index p) ∧ is_u64 (log_index p).
Definition cursor_u64 (c : EvmIndexCursor) : Prop :=
  is_u64 (block_number c) ∧ from_option position_u64 True (last_log c).

Lemma read_quantity_number n : is_u64 n → read_quantity (JInteger n) = Ok n.
Proof. intros Hn. unfold read_quantity. rewrite (proj2 (Z.leb_le 0 n)) by apply Hn. by rewrite u64_id. Qed.

Lemma read_quantity_text text : read_quantity (JString text) = evm_quantity_to_uint64 text.
Proof. done. Qed.

Lemma json_at_field j key v : json_field j key = Some v → json_at j key = Ok v.
Proof. unfold json_at. by intros ->. Qed.

Lemma last_log_roundtrip p : position_u64 p → last_log_from_json (last_log_to_json p) = Ok p.
Proof.
  destruct p as [ti li hash]. intros [Ht Hi]. unfold last_log_from_json.
  rewrite (json_at_field _ "transactionIndex" (JInteger ti)), (json_at_field _ "logIndex" (JInteger li)) by reflexivity.
  cbn [mbind res_bind]. by rewrite !read_quantity_number.
Qed.

Lemma cursor_json_roundtrip c : cursor_u64 c → cursor_from_json (cursor_to_json c) = Ok c.
Proof.
  destruct c as [n complete last]. intros [Hn Hl]. unfold cursor_from_json.
  rewrite (json_at_field _ "blockNumber" (JInteger n)) by reflexivity. cbn [is_object cursor_to_json negb mbind res_bind].
  rewrite read_quantity_number by done. cbn [mbind res_bind].
  destruct last as [p|]; [|done].
  transitivity (last ← (position ← last_log_from_json (last_log_to_json p); Ok (Some position));
                Ok (MkCursor n complete last)); [reflexivity|]. by rewrite last_log_roundtrip.
Qed.

(** The forms older versions wrote: a number, and a quantity as text. *)
Lemma cursor_legacy_forms n :
  is_u64 n →
  cursor_from_json (JInteger n) = Ok (MkCursor n true None) ∧
  cursor_from_json (JString (to_string n)) = Ok (MkCursor n true None) ∧
  cursor_from_json (JString (evm_uint64_to_quantity n)) = Ok (MkCursor n true None).
Proof.
  intros Hn. destruct (quantity_roundtrip n Hn) as [Eh Ed]. unfold cursor_from_json.
  cbn [is_object negb]. rewrite read_quantity_number, !read_quantity_text, Eh, Ed by done. done.
Qed.

(** ** Documents as maps of cursors *)

Definition is_document (data : json) : bool := match data with JNull | JObject _ => true | _ => false end.

Definition represents (data : json) (file : cursor_file) : Prop :=
  is_document data = true ∧ ∀ name, stored data name = Ok (file !! name).

Definition fields_of (data : json) : list (string * json) := match data with JObject fields => fields | _ => [] end.

Lemma document_field data name : json_field data name = json_field (JObject (fields_of data)) name.
Proof. by destruct data. Qed.

Lemma put_field_at name v fields : json_field (JObject (put_field name v fields)) name = Some v.
Proof.
  unfold json_field. induction fields as [|[k w] rest IH]; cbn [put_field].
  - cbn. by rewrite bool_decide_true.
  - destruct (bool_decide (k = name)) eqn:E; [cbn; by rewrite E|].
    destruct (String.ltb name k); cbn; [by rewrite bool_decide_true|]. by rewrite E.
Qed.

Lemma put_field_other name other v fields :
  other ≠ name → json_field (JObject (put_field name v fields)) other = json_field (JObject fields) other.
Proof.
  unfold json_field. intros Hne. induction fields as [|[k w] rest IH]; cbn [put_field].
  - cbn. by rewrite bool_decide_false.
  - case_bool_decide as E; [subst; cbn; by rewrite bool_decide_false|].
    destruct (String.ltb name k); cbn; [by rewrite (bool_decide_false (name = other))|].
    by destruct (bool_decide (k = other)).
Qed.

Lemma set_field_document data name v :
  is_document data = true → set_field data name v = Ok (JObject (put_field name v (fields_of data))).
Proof. by destruct data. Qed.

(** A document all of whose fields can be read holds some map. *)
Fixpoint cursors_of (fields : list (string * json)) : cursor_file :=
  match fields with
  | [] => ∅
  | (name, value) :: rest =>
      match cursor_from_json value with Ok c => <[name := c]> (cursors_of rest) | Throw _ => cursors_of rest end
  end.

Lemma cursors_of_stored fields name r : stored (JObject fields) name = Ok r → cursors_of fields !! name = r.
Proof.
  unfold stored, json_field. induction fields as [|[k v] rest IH]; cbn; [by intros <-%Ok_inj|].
  case_bool_decide as E; cbn.
  - subst k. intros (c & -> & <-%Ok_inj)%bind_Ok. apply lookup_insert_eq.
  - intros Hr. apply IH in Hr. destruct (cursor_from_json v); [|done]. by rewrite lookup_insert_ne.
Qed.

Definition readable (data : json) : Prop := is_document data = true ∧ ∀ name, is_ok (stored data name) = true.

Lemma readable_represents data : readable data → represents data (cursors_of (fields_of data)).
Proof.
  intros [Hd Hr]. split; [done|]. intros name. specialize (Hr name). destruct (stored data name) as [r|] eqn:E; [|done].
  f_equal. symmetry. apply cursors_of_stored. by rewrite <-E; unfold stored; rewrite (document_field data).
Qed.

(** ** Refinement *)

Definition op_u64 (op : cursor_op) : Prop :=
  match op with Save block | Rewind block => is_u64 block | SaveCursor cursor => cursor_u64 cursor end.

Lemma block_cursor_u64 b complete : is_u64 b → cursor_u64 (MkCursor b complete None).
Proof. by split. Qed.

Lemma replace_represents data file name c :
  represents data file → cursor_u64 c →
  ∃ doc, replace_cursor data name c = Ok (Some doc) ∧ represents doc (<[name := c]> file) ∧
         ∀ other, other ≠ name → json_field doc other = json_field data other.
Proof.
  intros [Hd Hs] Hc. unfold replace_cursor. rewrite set_field_document by done. cbn [mbind res_bind]. eexists. split; [done|].
  assert (∀ other, other ≠ name → json_field (JObject (put_field name (cursor_to_json c) (fields_of data))) other = json_field data other)
    as Hother by (intros other Hne; rewrite put_field_other by done; symmetry; apply document_field).
  split; [|done]. split; [done|]. intros n. unfold stored. destruct (decide (n = name)) as [->|Hne].
  - rewrite put_field_at, lookup_insert_eq, cursor_json_roundtrip by done. done.
  - rewrite Hother, lookup_insert_ne by done. apply Hs.
Qed.

(** Every operation on a document is that on the map it holds; it throws nothing and
    leaves the fields of other cursors as they were. *)
Lemma document_op_refines data file name op :
  represents data file → op_u64 op →
  ∃ written, document_op name data op = Ok written ∧ represents (default data written) (run_op name file op) ∧
    ∀ other, other ≠ name → json_field (default data written) other = json_field data other.
Proof.
  intros Hr Hop. assert (∀ c, cursor_u64 c → ∃ written, replace_cursor data name c = Ok written ∧
    represents (default data written) (<[name := c]> file) ∧
    ∀ other, other ≠ name → json_field (default data written) other = json_field data other) as Hput.
  { intros c Hc. destruct (replace_represents data file name c Hr Hc) as (doc & E & ? & ?). by exists (Some doc). }
  assert (∃ written : option json, Ok None = Ok written ∧ represents (default data written) file ∧
    ∀ other, other ≠ name → json_field (default data written) other = json_field data other) as Hkeep by by exists None.
  destruct op as [b|c|b]; cbn [document_op run_op op_u64] in *.
  - unfold save_document, save. rewrite (proj2 Hr). cbn [mbind res_bind].
    destruct (file !! name) as [c|]; [destruct (b <? _)|]; auto; by apply Hput, block_cursor_u64.
  - unfold save_cursor_document, save_cursor. rewrite (proj2 Hr). cbn [mbind res_bind].
    destruct (file !! name) as [c'|]; [destruct (cursor_advances _ _)|]; auto.
  - unfold rewind_document, rewind. rewrite (proj2 Hr). cbn [mbind res_bind].
    destruct (file !! name) as [c|]; [destruct (_ <? b)|]; auto; by apply Hput, block_cursor_u64.
Qed.

Lemma document_ops_refine name ops : Forall op_u64 ops → ∀ data file, represents data file →
  ∃ data', document_ops name data ops = Ok data' ∧ represents data' (foldl (run_op name) file ops) ∧
    ∀ other, other ≠ name → json_field data' other = json_field data other.
Proof.
  induction 1 as [|op ops Hop _ IH]; intros data file Hr; [by exists data|].
  destruct (document_op_refines data file name op Hr Hop) as (written & E & Hw & Ho).
  destruct (IH _ _ Hw) as (data' & E' & Hr' & Ho'). exists data'. cbn [document_ops foldl]. rewrite E. cbn [mbind res_bind].
  split_and!; [done..|]. intros other Hne. by rewrite Ho', Ho.
Qed.

Lemma read_quantity_u64 value n : read_quantity value = Ok n → is_u64 n.
Proof.
  assert (get_string value ≫= evm_quantity_to_uint64 = Ok n → is_u64 n) as Ht
    by (intros (t & _ & E)%bind_Ok; by eapply quantity_u64).
  unfold read_quantity. destruct value; try done. destruct (0 <=? z); [|done]. intros <-%Ok_inj. apply u64_range.
Qed.

Lemma cursor_from_json_u64 value c : cursor_from_json value = Ok c → is_u64 (block_number c).
Proof.
  unfold cursor_from_json. destruct (is_object value); cbn [negb].
  - intros (n & (v & _ & E)%bind_Ok & (b & _ & (l & _ & <-%Ok_inj)%bind_Ok)%bind_Ok)%bind_Ok. by eapply read_quantity_u64.
  - intros (n & E & <-%Ok_inj)%bind_Ok. by eapply read_quantity_u64.
Qed.

Lemma represents_wf data file : represents data file → file_wf file.
Proof.
  intros [_ Hs] name c E. specialize (Hs name). rewrite E in Hs. unfold stored in Hs.
  destruct (json_field data name) as [v|]; [|done]. apply bind_Ok in Hs as (c' & Hc & [= ->]%Ok_inj).
  by apply cursor_from_json_u64 in Hc as [? _].
Qed.

Lemma represents_readable data file : represents data file → readable data.
Proof. intros [Hd Hs]. split; [done|]. intros name. by rewrite Hs. Qed.

Lemma represents_load data file name : represents data file → load_document data name = Ok (load file name).
Proof.
  intros [_ Hs]. unfold load_document, load. rewrite Hs. cbn [mbind res_bind]. by destruct (file !! name).
Qed.

Lemma op_u64_wf op : op_u64 op → op_wf op.
Proof. destruct op as [b|c|b]; cbn; [by intros [? _]|by intros [[? _] _]|by intros [? _]]. Qed.

(** C33: the JSON file of [FileBlockCursorStore] refines a counter of durable blocks.
    Whatever sequence of block saves, log checkpoints and rewinds of a cursor runs on
    a document whose fields can be read, the fields of older versions included, no
    call throws, the document can still be read, the fields of other cursors are as
    they were, and [load] reports the maximum of what it reported at first and of
    what was saved since the last lower rewind. *)
Theorem cursor_documents_refine_counter data name ops :
  readable data → Forall op_u64 ops →
  ∃ data' before after,
    document_ops name data ops = Ok data' ∧ readable data' ∧
    load_document data name = Ok before ∧ load_document data' name = Ok after ∧
    from_option Z.succ 0 after = foldl spec_op (from_option Z.succ 0 before) ops ∧
    ∀ other, other ≠ name → json_field data' other = json_field data other.
Proof.
  intros Hd%readable_represents Hops. set (file := cursors_of (fields_of data)) in Hd.
  destruct (document_ops_refine name ops Hops data file Hd) as (data' & E & Hr & Ho).
  exists data', (load file name), (load (foldl (run_op name) file ops) name).
  split_and!; [done|by eapply represents_readable|by apply represents_load..| |done].
  apply (run_ops_durable name ops file); [|by eapply represents_wf].
  eapply Forall_impl; [exact Hops|]. apply op_u64_wf.
Qed.

(** ** Through the file *)

(** What was written can be read back: the text of [dump] is read by [parse] as the
    same document. *)
Lemma written_file_read dump_indented path d0 w doc opens :
  json_parse (str (cursor_payload dump_indented doc)) = Some doc →
  settled path d0 → write_reaches path (cursor_payload dump_indented doc) d0 w → phase w = at_returned → opens = true →
  read_cursor_file parse_what path opens (disk w) = Ok doc.
Proof.
  intros Hp Hset Hr E ->. destruct (returned_content path _ d0 w Hset Hr E) as [Ef _].
  unfold read_cursor_file. rewrite Ef. cbn [require mbind res_bind].
  destruct (cursor_payload dump_indented doc) as [|c cs] eqn:Ec; [|by rewrite Hp].
  unfold cursor_payload in Ec. by destruct (chars (dump_indented doc)).
Qed.

(** A checkpoint saved before any other of its name is the one loaded after the file
    was replaced. *)
Lemma saved_cursor_loaded dump_indented path name c d0 data doc w :
  read_cursor_file parse_what path true d0 = Ok data → json_field data name = None → cursor_u64 c →
  file_op path name true d0 (SaveCursor c) = Ok (Some doc) →
  json_parse (str (cursor_payload dump_indented doc)) = Some doc →
  settled path d0 → write_reaches path (cursor_payload dump_indented doc) d0 w → phase w = at_returned →
  load_cursor_file path name true (disk w) = Ok (Some c).
Proof.
  intros Hd Hn Hc Hop Hp Hset Hr E. unfold load_cursor_file. erewrite written_file_read by done. cbn [mbind res_bind].
  unfold file_op in Hop. rewrite Hd in Hop. cbn [mbind res_bind document_op] in Hop.
  unfold save_cursor_document, stored in Hop. rewrite Hn in Hop. cbn [mbind res_bind] in Hop.
  unfold replace_cursor in Hop. apply bind_Ok in Hop as (doc' & Hs & [= ->]%Ok_inj).
  unfold load_cursor_document, stored. unfold set_field in Hs.
  destruct data; try done; apply Ok_inj in Hs as <-; by rewrite put_field_at, cursor_json_roundtrip.
Qed.
End Document.

(** ** Witnesses *)

Definition plain_types : JsonTypeErrors := λ _, "type must be string".

(** A file of an older version, with a number and a text. *)
Definition old_document : json := JObject [("default", JInteger 10); ("oracle", JString "0x1f")].

Definition sample_ops : list cursor_op :=
  [SaveCursor (MkCursor 12 false (Some (MkPosition 3 1 "0xab"))); Save 9; Rewind 11; Save 15].

Example sample_document :
  document_ops (runtime := sample_runtime) (types := plain_types) "default" old_document sample_ops =
  Ok (JObject [("default", JObject [("blockComplete", JBool true); ("blockNumber", JInteger 15)]); ("oracle", JString "0x1f")]).
Proof. by vm_compute. Qed.

Lemma old_document_readable : @readable sample_runtime plain_types old_document.
Proof.
  split; [done|]. intros name. unfold stored, old_document, json_field. cbn [find fst].
  destruct (bool_decide ("default" = name)); [by vm_compute|]. destruct (bool_decide ("oracle" = name)); by vm_compute.
Qed.

Lemma cursor_documents_refine_counter_witness :
  ∃ data' before after,
    document_ops (runtime := sample_runtime) (types := plain_types) "default" old_document sample_ops = Ok data' ∧
    @readable sample_runtime plain_types data' ∧
    load_document (runtime := sample_runtime) (types := plain_types) old_document "default" = Ok before ∧
    load_document (runtime := sample_runtime) (types := plain_types) data' "default" = Ok after ∧
    from_option Z.succ 0 after = foldl spec_op (from_option Z.succ 0 before) sample_ops ∧
    ∀ other, other ≠ "default" → json_field data' other = json_field old_document other.
Proof.
  apply cursor_documents_refine_counter; [apply old_document_readable|]. repeat constructor; cbn; done.
Defined.
