(* ===== verification/EvmTransport.v ===== *)
(** * The live transport of the event indexer (src/evm_indexer_transport.cpp)

    One websocket carries two subscriptions, of logs and of new heads.  A message
    is an answer to one of the two requests, told by its id, or a notification,
    told by the subscription it names.  [start_logs] waits until both requests
    are answered or something failed. *)
From Stdlib Require Import Ascii String.
From S2P Require Import Prelude Text Float64 EvmAbi EvmCursor Sdk RestParsing JsonRpc JsonRpcWs.

#[local] Open Scope Z_scope.

(** ** State *)

Record JsonRpcIndexerTransport := MkTransport {
  epoch_ : EvmTransportEpoch;
  has_head_callback : bool;
  log_ready : bool;
  head_ready : bool;
  subscription_failed : bool;
  log_subscription_id : string;
  head_subscription_id : string }.

(** What reaches the callbacks of the indexer. *)
Inductive transport_call :=
  | log_call (log : EvmLog)
  | head_call (number : Z)
  | error_call (message : string).

Definition log_request_id : Z := 1.
Definition head_request_id : Z := 2.

Definition log_request (filter : EvmLogFilter) : json := subscription_request log_request_id (MkSubscription Logs filter).
Definition head_request : json := subscription_request head_request_id (MkSubscription NewHeads no_filter).

(** The state [start_logs] begins with. *)
Definition start_state (epoch : EvmTransportEpoch) (head_callback : bool) (t : JsonRpcIndexerTransport) :
    JsonRpcIndexerTransport :=
  MkTransport epoch head_callback false (negb head_callback) false (log_subscription_id t) (head_subscription_id t).
Definition new_transport : JsonRpcIndexerTransport := MkTransport (MkEpoch 0) false false false false "" "".

Definition ready (t : JsonRpcIndexerTransport) : bool := log_ready t && head_ready t.

Definition fail (error : string) (t : JsonRpcIndexerTransport) : JsonRpcIndexerTransport * list transport_call :=
  (MkTransport (epoch_ t) (has_head_callback t) (log_ready t) (head_ready t) (subscription_failed t || negb (ready t))
     (log_subscription_id t) (head_subscription_id t), [error_call error]).

Definition acknowledge (is_log : bool) (id : string) (t : JsonRpcIndexerTransport) : JsonRpcIndexerTransport :=
  if is_log
  then MkTransport (epoch_ t) (has_head_callback t) true (head_ready t) (subscription_failed t) id (head_subscription_id t)
  else MkTransport (epoch_ t) (has_head_callback t) (log_ready t) true (subscription_failed t) (log_subscription_id t) id.

(** ** Messages *)

Section Messages.
Context `{JsonLibrary, JsonTypeErrors}.
Context (parse_what : string → string).

(** [value("id", uint64_t{0})] *)
Definition value_u64 (raw : json) (key : string) : res Z :=
  if negb (is_object raw) then Throw (runtime_error (type_what raw))
  else match json_field raw key with
       | None => Ok 0
       | Some (JInteger z) => Ok (u64 z)
       | Some (JNumber x) => Ok (u64 (truncZ x))
       | Some j => Throw (runtime_error (type_what j))
       end.

(** The body of the [try]: what the message does, or the exception. *)
Definition try_message (message : string) (t : JsonRpcIndexerTransport) :
    res (JsonRpcIndexerTransport * list transport_call) :=
  body ← match json_parse message with Some body => Ok body | None => Throw (runtime_error (parse_what message)) end;
  response_id ← value_u64 body "id";
  if (response_id =? log_request_id) || (response_id =? head_request_id) then
    match json_field body "error" with
    | Some error => Ok (fail ("EVM log subscription rejected: " +:+ json_dump error) t)
    | None =>
        match json_field body "result" with
        | Some (JString id) => Ok (acknowledge (response_id =? log_request_id) id t, [])
        | _ => Ok (t, [])
        end
    end
  else
    method ← value_string body "method" "";
    if negb (bool_decide (method = "eth_subscription")) then Ok (t, [])
    else
      match json_field body "params" with
      | None => Ok (t, [])
      | Some params =>
          match json_field params "result" with
          | None => Ok (t, [])
          | Some result =>
              id ← value_string params "subscription" "";
              if bool_decide (id = log_subscription_id t) && is_object result then
                log ← evm_log_from_json result;
                Ok (t, [log_call log])
              else if bool_decide (id = head_subscription_id t) && is_object result && has_head_callback t then
                match json_field result "number" with
                | None => Ok (t, [])
                | Some number =>
                    text ← get_string number;
                    n ← evm_quantity_to_uint64 text;
                    Ok (t, [head_call n])
                end
              else Ok (t, [])
          end
      end.

Definition what_of (e : exn) : string :=
  match e with invalid_argument what | out_of_range what | logic_error what | runtime_error what => what end.

Definition handle_message (message : string) (t : JsonRpcIndexerTransport) : JsonRpcIndexerTransport * list transport_call :=
  match try_message message t with
  | Ok r => r
  | Throw e => fail ("invalid EVM subscription message: " +:+ what_of e) t
  end.

(** What the websocket reports. *)
Inductive transport_event :=
  | sequenced_message (message : string) (generation : Z)
  | stream_gap (generation : Z)
  | socket_error (error : string)
  | connected (log_sent head_sent : bool).

Definition gap_text (generation : Z) : string :=
  "EVM websocket stream gap detected at generation " +:+ to_string generation.

(** [send_subscriptions], with the results of the two sends. *)
Definition send_subscriptions (log_sent head_sent : bool) (t : JsonRpcIndexerTransport) :
    JsonRpcIndexerTransport * list transport_call :=
  let '(t, calls) := if log_sent then (t, []) else fail "failed to send EVM log subscription" t in
  if has_head_callback t && negb head_sent then
    let '(t, more) := fail "failed to send EVM head subscription" t in (t, calls ++ more)
  else (t, calls).

Definition set_epoch (epoch : EvmTransportEpoch) (t : JsonRpcIndexerTransport) : JsonRpcIndexerTransport :=
  MkTransport epoch (has_head_callback t) (log_ready t) (head_ready t) (subscription_failed t) (log_subscription_id t)
    (head_subscription_id t).

Definition on_event (e : transport_event) (t : JsonRpcIndexerTransport) : JsonRpcIndexerTransport * list transport_call :=
  match e with
  | sequenced_message message generation =>
      if admit_callback (epoch_ t) generation then handle_message message t else (t, [])
  | stream_gap generation =>
      let '(epoch, advanced) := advance (epoch_ t) generation in
      let t := set_epoch epoch t in
      if advanced && (1 <? generation) then fail (gap_text generation) t else (t, [])
  | socket_error error => fail error t
  | connected log_sent head_sent => send_subscriptions log_sent head_sent t
  end.

Fixpoint on_events (es : list transport_event) (t : JsonRpcIndexerTransport) : JsonRpcIndexerTransport * list transport_call :=
  match es with
  | [] => (t, [])
  | e :: es =>
      let '(t, calls) := on_event e t in
      let '(t, more) := on_events es t in
      (t, calls ++ more)
  end.

(** The wait of [start_logs], after the events that came before the waiting
    thread looked last: neither flag it looks at is ever cleared. *)
Definition wait_ready (es : list transport_event) (t : JsonRpcIndexerTransport) :
    JsonRpcIndexerTransport * list transport_call * bool :=
  let '(t, calls) := on_events es t in
  if ready t || subscription_failed t then (t, calls, ready t)
  else
    let '(t, more) := fail "timed out waiting for EVM log subscription acknowledgement" t in (t, calls ++ more, false).

(** [start_logs], from the answer of [ws_.connect]. *)
Definition start_logs (head_callback socket : bool) (es : list transport_event) (t : JsonRpcIndexerTransport) :
    JsonRpcIndexerTransport * list transport_call * bool :=
  let t := start_state (epoch_ t) head_callback t in
  if socket then wait_ready es t else (t, [], false).
End Messages.

(** ** Lemmas *)

Section Routing.
Context `{JsonLibrary, JsonTypeErrors}.
Context (parse_what : string → string).

(** What the node sends: the answers to the requests, then notifications. *)
Definition answer_json (request : Z) (id : string) : json :=
  JObject [("jsonrpc", JString "2.0"); ("id", JInteger request); ("result", JString id)].
Definition notification_json (id : string) (result : json) : json :=
  JObject [("jsonrpc", JString "2.0"); ("method", JString "eth_subscription");
           ("params", JObject [("subscription", JString id); ("result", result)])].

Lemma answer_acknowledges request id message t :
  json_parse message = Some (answer_json request id) → request = log_request_id ∨ request = head_request_id →
  handle_message parse_what message t = (acknowledge (request =? log_request_id) id t, []).
Proof. intros Hp Hr. unfold handle_message, try_message. rewrite Hp. by destruct Hr as [-> | ->]. Qed.

Lemma try_notification id result message t :
  json_parse message = Some (notification_json id result) →
  try_message parse_what message t =
    if bool_decide (id = log_subscription_id t) && is_object result then
      log ← evm_log_from_json result;
      Ok (t, [log_call log])
    else if bool_decide (id = head_subscription_id t) && is_object result && has_head_callback t then
      match json_field result "number" with
      | None => Ok (t, [])
      | Some number =>
          text ← get_string number;
          n ← evm_quantity_to_uint64 text;
          Ok (t, [head_call n])
      end
    else Ok (t, []).
Proof. intros Hp. unfold try_message. rewrite Hp. reflexivity. Qed.

Lemma log_notified id result log message t :
  json_parse message = Some (notification_json id result) → id = log_subscription_id t → is_object result = true →
  evm_log_from_json result = Ok log →
  handle_message parse_what message t = (t, [log_call log]).
Proof.
  intros Hp Hid Ho Hl. unfold handle_message. erewrite try_notification by done.
  by rewrite bool_decide_eq_true_2, Ho, Hl by done.
Qed.

Lemma head_notified id result text n message t :
  json_parse message = Some (notification_json id result) → id ≠ log_subscription_id t → is_object result = true →
  id = head_subscription_id t → has_head_callback t = true →
  json_field result "number" = Some (JString text) → evm_quantity_to_uint64 text = Ok n →
  handle_message parse_what message t = (t, [head_call n]).
Proof.
  intros Hp Hn Ho Hid Hh Hf Hq. unfold handle_message. erewrite try_notification by done.
  rewrite bool_decide_eq_false_2, bool_decide_eq_true_2, Ho, Hh, Hf by done. cbn. by rewrite Hq.
Qed.

(** A frame of an older or newer generation than the last gap changes nothing. *)
Lemma stale_frame_ignored message generation t :
  generation ≠ generation_ (epoch_ t) → on_event parse_what (sequenced_message message generation) t = (t, []).
Proof. intros Hg. cbn. unfold admit_callback. by rewrite (proj2 (Z.eqb_neq _ _) Hg). Qed.

(** Once ready, always ready; and no later failure is one of the start. *)
Lemma event_keeps_ready e t :
  ready t = true → ready (on_event parse_what e t).1 = true ∧
  subscription_failed (on_event parse_what e t).1 = subscription_failed t.
Proof.
  intros Hr. assert (Hf : ∀ w t, ready t = true → ready (fail w t).1 = true ∧ subscription_failed (fail w t).1 = subscription_failed t).
  { intros w u Hu. unfold fail. cbn. rewrite Hu. by rewrite orb_false_r. }
  assert (Ha : ∀ b id, ready (acknowledge b id t) = true ∧ subscription_failed (acknowledge b id t) = subscription_failed t).
  { intros b id. unfold ready in *. bools. by destruct b; cbn; rewrite ?H1, ?H2. }
  destruct e as [message g|g|error|ls hs]; cbn [on_event].
  - case_if; [|done]. unfold handle_message. destruct (try_message parse_what message t) as [[t' calls]|ex] eqn:E; [|by eapply Hf].
    assert (Ht : t' = t ∨ (∃ w, t' = (fail w t).1) ∨ ∃ b id, t' = acknowledge b id t).
    { revert E. unfold try_message. destruct (json_parse message) as [body|]; cbn; [|done].
      destruct (value_u64 body "id"); cbn; [|done]. case_if.
      - destruct (json_field body "error"); [intros [= <- _]; right; left; by eexists|].
        destruct (json_field body "result") as [[]|]; intros [= <- _]; try (by left). right. right. by eexists _, _.
      - intros E. left. destruct (value_string body "method" ""); cbn in E; [|done]. repeat (first [progress res_inv|case_match]); done. }
    destruct Ht as [-> |[(w & ->)|(b & id & ->)]]; [done|by apply (Hf w)|apply Ha].
  - destruct (advance (epoch_ t) g) as [epoch adv]. case_if; [|done]. by apply (Hf (gap_text g) (set_epoch epoch t)).
  - by apply (Hf error).
  - unfold send_subscriptions, fail. destruct ls; cbn; destruct (has_head_callback t), hs; cbn;
      unfold ready in *; cbn; rewrite ?Hr, ?orb_false_r; done.
Qed.
End Routing.
