(* ===== verification/UserEvents.v ===== *)
(** * Events of the user channel (src/websocket_user_data.cpp)

    A message of the authenticated channel is an object or an array of objects;
    the orders and trades among them are read field by field, and one malformed
    item refuses the whole message. *)
From Stdlib Require Import Ascii String.
From S2P Require Import Prelude Text Sdk TradeSettlement RestParsing JsonRpc.

#[local] Open Scope Z_scope.

Record UserOrderEvent := MkUserOrder {
  uo_id : string; uo_owner : string; uo_market : string; uo_asset_id : string; uo_side : string;
  uo_original_size : string; uo_size_matched : string; uo_price : string; uo_type : string;
  uo_status : string; uo_order_type : string; uo_maker_address : string; uo_order_owner : string;
  uo_associate_trades : list string; uo_outcome : string; uo_created_at : string;
  uo_expiration : string; uo_timestamp : string }.

Inductive UserStreamEvent :=
  | OrderEvent (order : UserOrderEvent)
  | TradeEvent (trade : UserTradeEvent).

Section Parsing.
Context `{JsonLibrary, JsonRuntime, JsonTypeErrors}.

(** ** Fields *)

Definition text_field (item : json) (field context : string) (required : bool) : res string :=
  match json_field item field with
  | None | Some JNull =>
      if required then Throw (invalid_argument (context +:+ " requires " +:+ field)) else Ok ""
  | Some (JString text) => Ok text
  | Some (JInteger _ as value) | Some (JNumber _ as value) => Ok (json_dump value)
  | Some _ => Throw (invalid_argument (context +:+ " " +:+ field +:+ " must be a string or number"))
  end.

Definition required_text (item : json) (field context : string) : res string :=
  value ← text_field item field context true;
  require (negb (bool_decide (value = "")))
    (invalid_argument (context +:+ " " +:+ field +:+ " must not be empty"));;
  Ok value.

Definition optional_text (item : json) (field context : string) : res string :=
  text_field item field context false.

Definition contains (item : json) (field : string) : bool := bool_decide (is_Some (json_field item field)).

Definition asset_id_of (item : json) (context : string) : res string :=
  if contains item "asset_id" then required_text item "asset_id" context
  else required_text item "token_id" context.

Definition uppercase (value : string) : string := str (map to_upper (chars value)).

Definition side_of (item : json) (field context : string) (required : bool) : res string :=
  text ← text_field item field context required;
  let value := uppercase text in
  require (negb (required && negb (bool_decide (value = "BUY")) && negb (bool_decide (value = "SELL"))))
    (invalid_argument (context +:+ " " +:+ field +:+ " must be BUY or SELL"));;
  Ok value.

Definition string_array (item : json) (field context : string) : res (list string) :=
  match json_field item field with
  | None | Some JNull => Ok []
  | Some (JArray entries) =>
      all_strings (invalid_argument (context +:+ " " +:+ field +:+ " entries must be strings")) entries
  | Some _ => Throw (invalid_argument (context +:+ " " +:+ field +:+ " must be an array or null"))
  end.

(** The library reads an integer that fits neither as a signed nor as an unsigned
    64-bit number as a floating one: [JInteger] is in one of the two ranges. *)
Definition bucket_index_of (item : json) : res (option Z) :=
  match json_field item "bucket_index" with
  | None | Some JNull => Ok None
  | Some (JInteger index) =>
      if (0 <=? index) && (index <=? 2 ^ 32 - 1) then Ok (Some index)
      else Throw (invalid_argument "user trade bucket_index must be a uint32 integer")
  | Some _ => Throw (invalid_argument "user trade bucket_index must be a uint32 integer")
  end.

(** ** Orders and trades *)

Definition parse_maker_order (item : json) : res MakerOrder :=
  let context := "user trade maker order" in
  require (is_object item) (invalid_argument "user trade maker order must be an object");;
  order_id ← required_text item "order_id" context;
  owner ← required_text item "owner" context;
  maker_address ← optional_text item "maker_address" context;
  matched_amount ← required_text item "matched_amount" context;
  price ← required_text item "price" context;
  fee_rate_bps ← optional_text item "fee_rate_bps" context;
  asset_id ← asset_id_of item context;
  outcome ← optional_text item "outcome" context;
  side ← side_of item "side" context true;
  Ok (MkMakerOrder order_id owner maker_address matched_amount price fee_rate_bps asset_id outcome side).

Fixpoint parse_maker_orders (orders : list json) : res (list MakerOrder) :=
  match orders with
  | [] => Ok []
  | order :: orders => o ← parse_maker_order order; rest ← parse_maker_orders orders; Ok (o :: rest)
  end.

Definition maker_orders_of (item : json) : res (list MakerOrder) :=
  match json_field item "maker_orders" with
  | None | Some JNull => Ok []
  | Some (JArray orders) => parse_maker_orders orders
  | Some _ => Throw (invalid_argument "user trade maker_orders must be an array or null")
  end.

Definition parse_order (item : json) : res UserOrderEvent :=
  let context := "user order" in
  id ← required_text item "id" context;
  owner ← required_text item "owner" context;
  market ← required_text item "market" context;
  asset_id ← asset_id_of item context;
  side ← side_of item "side" context true;
  original_size ← required_text item "original_size" context;
  size_matched ← required_text item "size_matched" context;
  price ← required_text item "price" context;
  type ← required_text item "type" context;
  status ← optional_text item "status" context;
  order_type ← optional_text item "order_type" context;
  maker_address ← optional_text item "maker_address" context;
  order_owner ← optional_text item "order_owner" context;
  associate_trades ← string_array item "associate_trades" context;
  outcome ← optional_text item "outcome" context;
  created_at ← optional_text item "created_at" context;
  expiration ← optional_text item "expiration" context;
  timestamp ← optional_text item "timestamp" context;
  Ok (MkUserOrder id owner market asset_id side original_size size_matched price (uppercase type) status
        order_type maker_address order_owner associate_trades outcome created_at expiration timestamp).

Definition parse_trade (item : json) : res UserTradeEvent :=
  let context := "user trade" in
  id ← required_text item "id" context;
  taker_order_id ← required_text item "taker_order_id" context;
  market ← required_text item "market" context;
  asset_id ← asset_id_of item context;
  side ← side_of item "side" context true;
  size ← required_text item "size" context;
  price ← required_text item "price" context;
  status ← required_text item "status" context;
  owner ← required_text item "owner" context;
  fee_rate_bps ← optional_text item "fee_rate_bps" context;
  match_time ← optional_text item (if contains item "match_time" then "match_time" else "matchtime") context;
  last_update ← optional_text item "last_update" context;
  timestamp ← optional_text item "timestamp" context;
  trade_owner ← optional_text item "trade_owner" context;
  maker_address ← optional_text item "maker_address" context;
  transaction_hash ← optional_text item "transaction_hash" context;
  bucket_index ← bucket_index_of item;
  maker_orders ← maker_orders_of item;
  trader_side ← side_of item "trader_side" context false;
  outcome ← optional_text item "outcome" context;
  Ok (MkUserTrade id taker_order_id market asset_id side size price status owner fee_rate_bps match_time
        last_update timestamp trade_owner maker_address transaction_hash bucket_index maker_orders
        trader_side outcome).

Definition parse_item (item : json) : res (option UserStreamEvent) :=
  require (is_object item) (invalid_argument "user event must be an object");;
  kind ← value_string item "event_type" "";
  if bool_decide (kind = "order") then o ← parse_order item; Ok (Some (OrderEvent o))
  else if bool_decide (kind = "trade") then t ← parse_trade item; Ok (Some (TradeEvent t))
  else Ok None.

Fixpoint parse_items (items : list json) : res (list UserStreamEvent) :=
  match items with
  | [] => Ok []
  | item :: items => e ← parse_item item; rest ← parse_items items; Ok (option_list e ++ rest)
  end.

Definition parse_user_events (message : string) : res (list UserStreamEvent) :=
  parsed ← parse_json message;
  parse_items (match parsed with JArray items => items | _ => [parsed] end).

(** ** What an event holds *)

Definition side_ok (side : string) : Prop := side = "BUY" ∨ side = "SELL".
Definition bucket_ok (index : option Z) : Prop := match index with Some i => 0 ≤ i < 2 ^ 32 | None => True end.

Record maker_order_ok (o : MakerOrder) : Prop := {
  maker_texts : Forall (λ t, t ≠ "")
    [maker_order_id o; maker_owner o; matched_amount o; maker_price o; maker_asset_id o];
  maker_side_ok : side_ok (maker_side o) }.

Record order_event_ok (o : UserOrderEvent) : Prop := {
  order_texts : Forall (λ t, t ≠ "")
    [uo_id o; uo_owner o; uo_market o; uo_asset_id o; uo_original_size o; uo_size_matched o; uo_price o; uo_type o];
  order_side_ok : side_ok (uo_side o);
  order_type_upper : uppercase (uo_type o) = uo_type o }.

Record trade_event_ok (t : UserTradeEvent) : Prop := {
  trade_texts : Forall (λ t, t ≠ "")
    [ev_id t; ev_taker_order_id t; ev_market t; ev_asset_id t; ev_size t; ev_price t; ev_status t; ev_owner t];
  trade_side_ok : side_ok (ev_side t);
  trade_trader_upper : uppercase (ev_trader_side t) = ev_trader_side t;
  trade_bucket : bucket_ok (ev_bucket_index t);
  trade_makers : Forall maker_order_ok (ev_maker_orders t) }.

Definition event_ok (e : UserStreamEvent) : Prop :=
  match e with OrderEvent o => order_event_ok o | TradeEvent t => trade_event_ok t end.

(** ** An event as the channel writes it *)

Definition text_fields (fields : list (string * string)) : list (string * json) := prod_map id JString <$> fields.

Definition maker_order_json (o : MakerOrder) : json :=
  JObject (text_fields
    [("order_id", maker_order_id o); ("owner", maker_owner o); ("maker_address", maker_order_address o);
     ("matched_amount", matched_amount o); ("price", maker_price o); ("fee_rate_bps", maker_fee_rate_bps o);
     ("asset_id", maker_asset_id o); ("outcome", maker_outcome o); ("side", maker_side o)]).

Definition order_event_json (o : UserOrderEvent) : json :=
  JObject (text_fields
    [("event_type", "order"); ("id", uo_id o); ("owner", uo_owner o); ("market", uo_market o);
     ("asset_id", uo_asset_id o); ("side", uo_side o); ("original_size", uo_original_size o);
     ("size_matched", uo_size_matched o); ("price", uo_price o); ("type", uo_type o); ("status", uo_status o);
     ("order_type", uo_order_type o); ("maker_address", uo_maker_address o); ("order_owner", uo_order_owner o);
     ("outcome", uo_outcome o); ("created_at", uo_created_at o); ("expiration", uo_expiration o);
     ("timestamp", uo_timestamp o)] ++
   [("associate_trades", JArray (JString <$> uo_associate_trades o))]).

Definition trade_event_json (t : UserTradeEvent) : json :=
  JObject (text_fields
    [("event_type", "trade"); ("id", ev_id t); ("taker_order_id", ev_taker_order_id t); ("market", ev_market t);
     ("asset_id", ev_asset_id t); ("side", ev_side t); ("size", ev_size t); ("price", ev_price t);
     ("status", ev_status t); ("owner", ev_owner t); ("fee_rate_bps", ev_fee_rate_bps t);
     ("matchtime", ev_match_time t); ("last_update", ev_last_update t); ("timestamp", ev_timestamp t);
     ("trade_owner", ev_trade_owner t); ("maker_address", ev_maker_address t);
     ("transaction_hash", ev_transaction_hash t); ("trader_side", ev_trader_side t); ("outcome", ev_outcome t)] ++
   [("bucket_index", from_option JInteger JNull (ev_bucket_index t));
    ("maker_orders", JArray (maker_order_json <$> ev_maker_orders t))]).

Definition event_json (e : UserStreamEvent) : json :=
  match e with OrderEvent o => order_event_json o | TradeEvent t => trade_event_json t end.

(** ** Lemmas *)

Lemma to_upper_idem c : to_upper (to_upper c) = to_upper c.
Proof.
  assert (Hall : all_chars (λ c, bool_decide (to_upper (to_upper c) = to_upper c)) = true) by (by vm_compute).
  pose proof (all_chars_spec _ Hall c) as E. by apply bool_decide_eq_true in E.
Qed.

Lemma uppercase_idem s : uppercase (uppercase s) = uppercase s.
Proof.
  unfold uppercase, chars, str. rewrite list_ascii_of_string_of_list_ascii, map_map. f_equal.
  apply map_ext, to_upper_idem.
Qed.

Lemma uppercase_side s : side_ok s → uppercase s = s.
Proof. by intros [->| ->]. Qed.

Lemma uppercase_nonempty s : s ≠ "" → uppercase s ≠ "".
Proof. by destruct s. Qed.

(** Reading a text field that is there. *)
Lemma required_text_string item field context s :
  json_field item field = Some (JString s) → s ≠ "" → required_text item field context = Ok s.
Proof. intros E Hs. unfold required_text, text_field. rewrite E. cbn. by rewrite bool_decide_eq_false_2. Qed.

Lemma optional_text_string item field context s :
  json_field item field = Some (JString s) → optional_text item field context = Ok s.
Proof. intros E. unfold optional_text, text_field. by rewrite E. Qed.

Lemma asset_id_string item context s :
  json_field item "asset_id" = Some (JString s) → s ≠ "" → asset_id_of item context = Ok s.
Proof.
  intros E Hs. unfold asset_id_of, contains. rewrite E, bool_decide_eq_true_2 by done. by apply required_text_string.
Qed.

Lemma side_string item field context s (required : bool) :
  json_field item field = Some (JString s) → (if required then side_ok s else uppercase s = s) →
  side_of item field context required = Ok s.
Proof.
  intros E Hs. unfold side_of, text_field. rewrite E. cbn.
  destruct required; cbn; [destruct Hs as [->| ->]; done|by rewrite Hs].
Qed.

Lemma all_strings_map bad l : all_strings bad (JString <$> l) = Ok l.
Proof. induction l as [|s l IH]; [done|]. cbn in *. by rewrite IH. Qed.

(** What reading a field guarantees. *)
Lemma required_text_nonempty item field context s : required_text item field context = Ok s → s ≠ "".
Proof. unfold required_text. intros. res_inv. by bools. Qed.

Lemma asset_id_nonempty item context s : asset_id_of item context = Ok s → s ≠ "".
Proof. unfold asset_id_of. case_if; apply required_text_nonempty. Qed.

Lemma side_of_ok item field context s : side_of item field context true = Ok s → side_ok s.
Proof. unfold side_of, side_ok. intros. res_inv. bools. naive_solver. Qed.

Lemma side_of_upper item field context (required : bool) s : side_of item field context required = Ok s → uppercase s = s.
Proof. unfold side_of. intros. res_inv. apply uppercase_idem. Qed.
Create HintDb user_fields.
#[local] Hint Resolve required_text_nonempty asset_id_nonempty side_of_ok side_of_upper
  uppercase_idem uppercase_nonempty : user_fields.

Lemma bucket_index_ok item i : bucket_index_of item = Ok i → bucket_ok i.
Proof.
  unfold bucket_index_of, bucket_ok. destruct (json_field item _) as [[]|]; intros; simplify_eq; try done.
  case_if; simplify_eq. bools. lia.
Qed.

Lemma parse_maker_order_ok item o : parse_maker_order item = Ok o → maker_order_ok o.
Proof. unfold parse_maker_order. intros. res_inv. split; [repeat constructor|]; cbn; eauto with user_fields. Qed.

Lemma parse_maker_orders_ok items os : parse_maker_orders items = Ok os → Forall maker_order_ok os.
Proof.
  revert os. induction items as [|item items IH]; intros os; cbn; intros; res_inv; constructor; [|by apply IH].
  by eapply parse_maker_order_ok.
Qed.

Lemma maker_orders_ok item os : maker_orders_of item = Ok os → Forall maker_order_ok os.
Proof.
  unfold maker_orders_of. destruct (json_field item _) as [[]|]; intros; simplify_eq; try constructor.
  by eapply parse_maker_orders_ok.
Qed.

Lemma parse_order_ok item o : parse_order item = Ok o → order_event_ok o.
Proof. unfold parse_order. intros. res_inv. split; [repeat constructor|..]; cbn; eauto with user_fields. Qed.

Lemma parse_trade_ok item t : parse_trade item = Ok t → trade_event_ok t.
Proof.
  unfold parse_trade. intros. res_inv.
  split; [repeat constructor|..]; cbn; eauto using bucket_index_ok, maker_orders_ok with user_fields.
Qed.

Lemma parse_items_ok items es : parse_items items = Ok es → Forall event_ok es.
Proof.
  revert es. induction items as [|item items IH]; intros es; cbn; intros; res_inv; [constructor|].
  apply Forall_app. split; [|by apply IH]. unfold parse_item in *. res_inv. repeat case_if; res_inv; [apply Forall_singleton..|constructor]; cbn.
  - by eapply parse_order_ok.
  - by eapply parse_trade_ok.
Qed.

(** Reading what the channel writes. *)
Ltac read_fields :=
  repeat first
    [ erewrite required_text_string by (reflexivity || done); cbn [mbind res_bind]
    | erewrite asset_id_string by (reflexivity || done); cbn [mbind res_bind]
    | erewrite side_string by (reflexivity || done); cbn [mbind res_bind]
    | erewrite optional_text_string by reflexivity; cbn [mbind res_bind] ].

Ltac split_texts :=
  repeat match goal with H : Forall _ (_ :: _) |- _ => apply Forall_cons in H as [? H] end.

Lemma parse_maker_order_json o : maker_order_ok o → parse_maker_order (maker_order_json o) = Ok o.
Proof.
  intros [Ht Hs]. split_texts. unfold parse_maker_order. change (is_object _) with true. cbn [require mbind res_bind].
  read_fields. by destruct o.
Qed.

Lemma parse_maker_orders_json os : Forall maker_order_ok os → parse_maker_orders (maker_order_json <$> os) = Ok os.
Proof.
  induction 1 as [|o os Ho Hos IH]; [done|]. cbn [fmap list_fmap parse_maker_orders].
  rewrite parse_maker_order_json by done. cbn [mbind res_bind]. by rewrite IH.
Qed.

Lemma parse_order_json o : order_event_ok o → parse_order (order_event_json o) = Ok o.
Proof.
  intros [Ht Hs Hu]. split_texts. unfold parse_order. read_fields.
  unfold string_array. change (json_field (order_event_json o) "associate_trades")
    with (Some (JArray (JString <$> uo_associate_trades o))).
  cbn iota beta. rewrite all_strings_map. cbn [mbind res_bind]. read_fields. cbn [snd]. rewrite Hu. by destruct o.
Qed.

Lemma parse_trade_json t : trade_event_ok t → parse_trade (trade_event_json t) = Ok t.
Proof.
  intros [Ht Hs Hu Hb Hm]. split_texts. unfold parse_trade. read_fields.
  change (if contains (trade_event_json t) "match_time" then "match_time" else "matchtime") with "matchtime". read_fields.
  assert (bucket_index_of (trade_event_json t) = Ok (ev_bucket_index t)) as ->.
  { unfold bucket_index_of. change (json_field (trade_event_json t) "bucket_index")
      with (Some (from_option JInteger JNull (ev_bucket_index t))).
    destruct (ev_bucket_index t) as [i|]; [|done]. cbn in Hb |- *. rewrite (proj2 (Z.leb_le _ _)), (proj2 (Z.leb_le _ _)) by lia. done. }
  cbn [mbind res_bind]. unfold maker_orders_of. change (json_field (trade_event_json t) "maker_orders")
    with (Some (JArray (maker_order_json <$> ev_maker_orders t))). cbn iota beta.
  rewrite parse_maker_orders_json by done. cbn [mbind res_bind]. read_fields. by destruct t.
Qed.

Lemma parse_items_json es : Forall event_ok es → parse_items (event_json <$> es) = Ok es.
Proof.
  induction 1 as [|e es He Hes IH]; [done|]. cbn [fmap list_fmap parse_items].
  assert (parse_item (event_json e) = Ok (Some e)) as ->.
  { destruct e as [o|t]; unfold parse_item; cbn [event_json].
    - change (value_string (order_event_json o) "event_type" "") with (Ok "order"). cbn [is_object order_event_json require mbind res_bind].
      fold (order_event_json o). cbn. by rewrite parse_order_json.
    - change (value_string (trade_event_json t) "event_type" "") with (Ok "trade"). cbn. by rewrite parse_trade_json. }
  cbn [mbind res_bind]. by rewrite IH.
Qed.

(** A message of the user channel is read whole or refused whole.  The events a text is read into name their
    order or trade, its market and its token, carry a price and the sizes, and have the side BUY or SELL, upper-case
    kinds, and a bucket number of 32 bits; and a text the library reads as the JSON of such events, in any number, is
    read back into exactly these events, in their order. *)
Lemma user_events_roundtrip :
  (∀ text events, parse_user_events text = Ok events → Forall event_ok events) ∧
  (∀ text events, json_parse text = Some (JArray (event_json <$> events)) → Forall event_ok events →
    parse_user_events text = Ok events).
Proof.
  split; unfold parse_user_events, parse_json.
  - intros text events. intros. res_inv. by eapply parse_items_ok.
  - intros text events -> He. cbn [mbind res_bind]. by apply parse_items_json.
Qed.
End Parsing.

(** A trade with one maker order, on a library that reads one text. *)
Definition sample_maker : MakerOrder := MkMakerOrder "m1" "owner" "" "5" "0.4" "" "tok" "Yes" "SELL".
Definition sample_trade : UserTradeEvent :=
  MkUserTrade "t1" "o1" "market" "tok" "BUY" "5" "0.4" "MATCHED" "owner" "" "100" "" "" "" "" "" (Some 1)
    [sample_maker] "TAKER" "Yes".
Definition one_trade_library : JsonLibrary := {|
  json_parse text := if bool_decide (text = "message") then Some (JArray [trade_event_json sample_trade]) else None;
  json_dump _ := "0" |}.
Definition no_runtime : JsonRuntime := {| parse_what _ := ""; missing_what _ := ""; strtod _ := None |}.

Lemma user_events_roundtrip_witness :
  @parse_user_events one_trade_library no_runtime (λ _, "") "message" = Ok [TradeEvent sample_trade] ∧
  Forall event_ok [TradeEvent sample_trade].
Proof.
  destruct (@user_events_roundtrip one_trade_library no_runtime (λ _, "")) as [Hsound Hback].
  assert (He : @parse_user_events one_trade_library no_runtime (λ _, "") "message" = Ok [TradeEvent sample_trade]).
  { apply Hback; [by vm_compute|]. apply Forall_singleton.
    split; [repeat constructor; done|by left|by vm_compute|cbn; lia|]. apply Forall_singleton.
    split; [repeat constructor; done|by right]. }
  split; [exact He|exact (Hsound _ _ He)].
Defined.
