(* ===== verification/UserSubscription.v ===== *)
(** * The subscription of the user stream
    (src/user_stream_subscription.cpp, user_stream_runtime.hpp, user_stream_runtime.cpp,
    websocket_client_resilience.cpp, websocket_client_transport.cpp)

    What the caller asked for, the messages that bring an open connection in line
    with it, and the transport that replays the subscription when it opens: the two
    threads as a transition system, one locked or atomic access per step. *)
From stdpp Require Import relations.
From S2P Require Import Prelude Sdk OrderAuth.

(** ** Subscriptions *)

Record UserSubscriptionState := MkSubscription { all_markets : bool; markets : list string }.

#[export] Instance subscription_eq_dec : EqDecision UserSubscriptionState.
Proof. solve_decision. Defined.

Definition active (s : UserSubscriptionState) : bool := all_markets s || negb (bool_decide (markets s = [])).

Record UserSubscriptionSync := MkSync { sync_messages : list json; sync_reconnect : bool }.

Fixpoint add_markets (markets condition_ids : list string) : list string :=
  match condition_ids with
  | [] => markets
  | id :: condition_ids =>
      add_markets (if bool_decide (id = "") || bool_decide (id ∈ markets) then markets else markets ++ [id])
        condition_ids
  end.

(** The four public updates. *)
Inductive update :=
  | subscribe_all_markets
  | subscribe (condition_ids : list string)
  | unsubscribe (condition_ids : list string)
  | unsubscribe_all.

Definition apply_update (u : update) (s : UserSubscriptionState) : UserSubscriptionState :=
  match u with
  | subscribe_all_markets => MkSubscription true (markets s)
  | subscribe ids => MkSubscription (all_markets s) (add_markets (markets s) ids)
  | unsubscribe ids => MkSubscription (all_markets s) (filter (λ m, m ∉ ids) (markets s))
  | unsubscribe_all => MkSubscription false []
  end.

(** ** Messages, before they are dumped *)

Section Messages.
Context (credentials : ApiCredentials).

Definition user_subscription_message (s : UserSubscriptionState) : json :=
  JObject
    ([("auth", JObject [("apiKey", JString (api_key credentials)); ("secret", JString (api_secret credentials));
                        ("passphrase", JString (api_passphrase credentials))]);
      ("type", JString "user")] ++
     (if all_markets s then [] else [("markets", JArray (JString <$> markets s))])).

Definition user_subscription_update_message (markets : list string) (subscribe : bool) : json :=
  JObject [("markets", JArray (JString <$> markets));
           ("operation", JString (if subscribe then "subscribe" else "unsubscribe"))].

Definition difference (left_ right_ : list string) : list string := filter (λ v, v ∉ right_) left_.

Definition plan_user_subscription_sync (before after : UserSubscriptionState) : UserSubscriptionSync :=
  if negb (active after) then MkSync [] (active before)
  else if negb (active before) then MkSync [user_subscription_message after] false
  else if all_markets after then
    MkSync (if all_markets before then [] else [user_subscription_update_message (markets before) false]) false
  else if all_markets before then MkSync [user_subscription_update_message (markets after) true] false
  else
    let added := difference (markets after) (markets before) in
    let removed := difference (markets before) (markets after) in
    MkSync ((if bool_decide (added = []) then [] else [user_subscription_update_message added true]) ++
            (if bool_decide (removed = []) then [] else [user_subscription_update_message removed false])) false.

Definition tracked_messages (s : UserSubscriptionState) : list json :=
  if active s then [user_subscription_message s] else [].
End Messages.

(** ** The server

    What a connection was told.  [covers] is [None] until the connection is
    authenticated, then the markets it lists, none of them meaning all. *)
Class UserServer (session : Type) := {
  fresh : session;
  receive : session → json → session;
  covers : session → option (gset string) }.

Definition scope (s : UserSubscriptionState) : gset string := if all_markets s then ∅ else list_to_set (markets s).
Definition wanted (s : UserSubscriptionState) : option (gset string) := if active s then Some (scope s) else None.

(** The documented answers to the two kinds of message. *)
Record server_laws (session : Type) `{UserServer session} (credentials : ApiCredentials) : Prop := {
  fresh_covers : covers fresh = None;
  subscription_covers s sub : active sub = true →
    covers (receive s (user_subscription_message credentials sub)) = Some (scope sub);
  update_covers s ms (add : bool) : ms ≠ [] →
    covers (receive s (user_subscription_update_message ms add)) =
    (λ listed, if add then listed ∪ list_to_set ms else listed ∖ list_to_set ms) <$> covers s }.

(** ** The two threads *)

(** The holder of [subscriptions_mutex_]. *)
Inductive update_phase :=
  | u_idle
  | u_replaced (before : UserSubscriptionState)        (** the tracked messages replaced, [is_connected] to come *)
  | u_sending (messages : list json) (reconnect : bool).

(** The transport in [handle_open]. *)
Inductive replay_phase :=
  | t_idle
  | t_opened                                           (** a new connection, not published yet *)
  | t_copy                                             (** [CONNECTED], the tracked messages to be copied *)
  | t_replaying (messages : list json).

Section Stream.
Context {session : Type} `{UserServer session} (credentials : ApiCredentials).

Record stream := MkStream {
  subscription : UserSubscriptionState;
  updating : update_phase;
  tracked : list json;
  connected : bool;
  replay : replay_phase;
  resnapshot_pending : bool;
  requests : nat;                                      (** threads entering [request_resnapshot] *)
  connection : session }.

Definition initial_stream : stream :=
  MkStream (MkSubscription false []) u_idle [] false t_idle false 0 fresh.

(** [update_subscription] under its lock: up to [replace_subscriptions], [is_connected], and one [send]. *)
Definition start_update (u : update) (s : stream) : stream :=
  let before := subscription s in
  let after := apply_update u before in
  if bool_decide (before = after) then s
  else MkStream after (u_replaced before) (tracked_messages credentials after) (connected s) (replay s)
         (resnapshot_pending s) (requests s) (connection s).

Definition set_updating (u : update_phase) (s : stream) : stream :=
  MkStream (subscription s) u (tracked s) (connected s) (replay s) (resnapshot_pending s) (requests s) (connection s).
Definition set_replay (t : replay_phase) (s : stream) : stream :=
  MkStream (subscription s) (updating s) (tracked s) (connected s) t (resnapshot_pending s) (requests s) (connection s).
Definition set_connected (b : bool) (s : stream) : stream :=
  MkStream (subscription s) (updating s) (tracked s) b (replay s) (resnapshot_pending s) (requests s) (connection s).
Definition set_pending (b : bool) (s : stream) : stream :=
  MkStream (subscription s) (updating s) (tracked s) (connected s) (replay s) b (requests s) (connection s).
Definition set_requests (n : nat) (s : stream) : stream :=
  MkStream (subscription s) (updating s) (tracked s) (connected s) (replay s) (resnapshot_pending s) n (connection s).
Definition set_connection (c : session) (s : stream) : stream :=
  MkStream (subscription s) (updating s) (tracked s) (connected s) (replay s) (resnapshot_pending s) (requests s) c.

Definition checked (before : UserSubscriptionState) (s : stream) : stream :=
  if connected s then
    let sync := plan_user_subscription_sync credentials before (subscription s) in
    set_updating (u_sending (sync_messages sync) (sync_reconnect sync)) s
  else set_updating u_idle s.

Definition sent (m : json) (ms : list json) (reconnect success : bool) (s : stream) : stream :=
  if connected s && success
  then set_updating (u_sending ms reconnect) (set_connection (receive (connection s) m) s)
  else set_updating u_idle (set_requests (S (requests s)) s).

Definition replayed (m : json) (ms : list json) (success : bool) (s : stream) : stream :=
  if success then set_replay (t_replaying ms) (set_connection (receive (connection s) m) s)
  else set_replay t_idle (set_requests (S (requests s)) s).

Inductive step : stream → stream → Prop :=
  (** the thread that updates *)
  | step_update s u : updating s = u_idle → step s (start_update u s)
  | step_check s before : updating s = u_replaced before → step s (checked before s)
  | step_send s m ms reconnect success :
      updating s = u_sending (m :: ms) reconnect → step s (sent m ms reconnect success s)
  | step_unlock s reconnect :
      updating s = u_sending [] reconnect →
      step s (set_updating u_idle (if reconnect : bool then set_requests (S (requests s)) s else s))
  (** the transport *)
  | step_open s :
      replay s = t_idle → connected s = false → step s (set_replay t_opened (set_connection fresh s))
  | step_opened s :
      replay s = t_opened → step s (set_replay t_copy (set_connected true (set_pending false s)))
  | step_copy s : replay s = t_copy → step s (set_replay (t_replaying (tracked s)) s)
  | step_replay s m ms success :
      replay s = t_replaying (m :: ms) → step s (replayed m ms success s)
  | step_replayed s : replay s = t_replaying [] → step s (set_replay t_idle s)
  | step_close s : replay s = t_idle → step s (set_connected false s)
  (** [request_resnapshot], which closes the connection, from any thread *)
  | step_call s : step s (set_requests (S (requests s)) s)
  | step_request s n : requests s = S n → step s (set_pending true (set_requests n s)).

Definition reachable (s : stream) : Prop := rtc step initial_stream s.

(** Executions in which no update begins between the copy of a replay and its
    sending. *)
Definition quiet (s s' : stream) : Prop :=
  step s s' ∧ (subscription s' ≠ subscription s → ∀ m ms, replay s ≠ t_replaying (m :: ms)).

(** Nothing under way, and no connection about to be closed. *)
Definition settled (s : stream) : Prop :=
  updating s = u_idle ∧ replay s = t_idle ∧ connected s = true ∧ resnapshot_pending s = false ∧ requests s = 0.

(** ** The messages of an update *)

Context (laws : server_laws session credentials).

Definition told (c : session) (messages : list json) : session := foldl receive c messages.

(** A message that a connection already in line, or one just opened, may be
    sent. *)
Definition harmless (sub : UserSubscriptionState) (m : json) : Prop := ∀ c,
  (covers c = wanted sub → covers (receive c m) = wanted sub) ∧
  (covers c = None → covers (receive c m) = None ∨ covers (receive c m) = wanted sub).

Lemma wanted_active sub : active sub = true → wanted sub = Some (scope sub).
Proof using Type. unfold wanted. by intros ->. Qed.

Lemma wanted_inactive sub : active sub = false → wanted sub = None.
Proof using Type. unfold wanted. by intros ->. Qed.

Lemma active_spec sub : active sub = true ↔ all_markets sub = true ∨ markets sub ≠ [].
Proof using Type. unfold active. rewrite orb_true_iff, negb_true_iff, bool_decide_eq_false. done. Qed.

Lemma harmless_told sub c ms :
  Forall (harmless sub) ms →
  (covers c = wanted sub → covers (told c ms) = wanted sub) ∧
  (covers c = None → covers (told c ms) = None ∨ covers (told c ms) = wanted sub).
Proof using Type.
  intros Hms. revert c. induction Hms as [|m ms Hm Hms IH]; intros c; cbn; [by auto|].
  destruct (IH (receive c m)) as [IHw IHn], (Hm c) as [Hw Hn]. split; [by auto|].
  intros [E|E]%Hn; [by apply IHn|by right; apply IHw].
Qed.

Lemma subscription_harmless sub : active sub = true → harmless sub (user_subscription_message credentials sub).
Proof using laws.
  intros Ha c. rewrite (subscription_covers _ _ laws) by done. rewrite wanted_active by done. auto.
Qed.

Lemma update_harmless sub ms add :
  active sub = true → ms ≠ [] →
  (if add : bool then scope sub ∪ list_to_set ms = scope sub else scope sub ∖ list_to_set ms = scope sub) →
  harmless sub (user_subscription_update_message ms add).
Proof using laws.
  intros Ha Hne Hs c. rewrite (update_covers _ _ laws) by done. rewrite wanted_active by done.
  split; intros ->; cbn; [|by left]. by destruct add; rewrite Hs.
Qed.

Lemma elem_of_difference_list v l r : v ∈ difference l r ↔ v ∈ l ∧ v ∉ r.
Proof using Type. unfold difference. rewrite list_elem_of_filter. tauto. Qed.

(** A message left out when it has nothing to say. *)
Definition optional_message (ms : list string) (add : bool) : list json :=
  if bool_decide (ms = []) then [] else [user_subscription_update_message ms add].

Lemma optional_message_covers c ms add listed :
  covers c = Some listed →
  covers (told c (optional_message ms add)) =
    Some (if add : bool then listed ∪ list_to_set ms else listed ∖ list_to_set ms).
Proof using laws.
  intros Hc. unfold optional_message. case_bool_decide as Hms; cbn.
  - subst ms. rewrite Hc. f_equal. destruct add; set_solver.
  - rewrite (update_covers _ _ laws), Hc by done. done.
Qed.

Lemma optional_message_harmless sub ms add :
  active sub = true →
  (if add : bool then scope sub ∪ list_to_set ms = scope sub else scope sub ∖ list_to_set ms = scope sub) →
  Forall (harmless sub) (optional_message ms add).
Proof using laws.
  intros Ha Hs. unfold optional_message. case_bool_decide; [constructor|]. by apply Forall_singleton, update_harmless.
Qed.

Lemma told_app c ms ms' : told c (ms ++ ms') = told (told c ms) ms'.
Proof using Type. apply foldl_app. Qed.

(** The messages planned for an active subscription are harmless, and bring a
    connection in line with the one before in line with the one after. *)
Lemma plan_correct before after :
  active after = true →
  let sync := plan_user_subscription_sync credentials before after in
  sync_reconnect sync = false ∧ Forall (harmless after) (sync_messages sync) ∧
  ∀ c, covers c = wanted before → covers (told c (sync_messages sync)) = wanted after.
Proof using laws.
  intros Ha. unfold plan_user_subscription_sync. rewrite Ha. cbn [negb].
  destruct (active before) eqn:Hb; cbn [negb].
  2:{ split; [done|]. split; [by apply Forall_singleton, subscription_harmless|].
      intros c _. cbn. rewrite (subscription_covers _ _ laws) by done. by rewrite wanted_active. }
  rewrite (wanted_active before) by done.
  destruct (all_markets after) eqn:Aa; [destruct (all_markets before) eqn:Ab|].
  - split; [done|]. split; [by constructor|]. intros c Hc. cbn. rewrite Hc, wanted_active by done. unfold scope. by rewrite Aa, Ab.
  - assert (markets before ≠ []) as Hne by (apply active_spec in Hb as [|]; congruence).
    split; [done|]. split.
    + apply Forall_singleton, update_harmless; [done..|]. unfold scope. rewrite Aa. set_solver.
    + intros c Hc. cbn. rewrite (update_covers _ _ laws), Hc by done. rewrite wanted_active by done. cbn. f_equal.
      unfold scope. rewrite Aa, Ab. set_solver.
  - assert (markets after ≠ []) as Hne by (apply active_spec in Ha as [|]; congruence).
    destruct (all_markets before) eqn:Ab.
    + split; [done|]. split.
      * apply Forall_singleton, update_harmless; [done..|]. unfold scope. rewrite Aa. set_solver.
      * intros c Hc. cbn. rewrite (update_covers _ _ laws), Hc by done. rewrite wanted_active by done. cbn. f_equal.
        unfold scope. rewrite Aa, Ab. set_solver.
    + split; [done|]. pose proof (elem_of_difference_list) as Hd.
      split.
      * apply Forall_app. split; apply optional_message_harmless; try done; unfold scope; rewrite Aa; set_unfold; naive_solver.
      * intros c Hc. rewrite wanted_active by done. unfold scope in *. rewrite Aa, Ab in *.
        change (sync_messages _) with (optional_message (difference (markets after) (markets before)) true ++
          optional_message (difference (markets before) (markets after)) false).
        rewrite told_app. erewrite optional_message_covers; [|by apply optional_message_covers]. f_equal. cbn.
        apply set_eq. intros v. set_unfold. rewrite !Hd. destruct (decide (v ∈ markets before)), (decide (v ∈ markets after)); naive_solver.
Qed.

Lemma inactive_empty sub : active sub = false → sub = MkSubscription false [].
Proof using Type.
  destruct sub as [a l]. unfold active. cbn. rewrite orb_false_iff, negb_false_iff, bool_decide_eq_true. by intros [-> ->].
Qed.

(** ** What holds in every state *)

(** The markets of the connection once the messages under way are sent. *)
Definition view (s : stream) : option (gset string) :=
  match updating s with
  | u_sending ms _ => covers (told (connection s) ms)
  | _ => covers (connection s)
  end.

Definition in_line (s : stream) : Prop :=
  view s = wanted (subscription s) ∨ ∃ before, updating s = u_replaced before ∧ covers (connection s) = wanted before.

Record stream_ok (s : stream) : Prop := {
  ok_tracked : tracked s = tracked_messages credentials (subscription s);
  ok_replaying m ms : replay s = t_replaying (m :: ms) → m :: ms = tracked s;
  ok_opened : replay s = t_opened → connected s = false ∧ covers (connection s) = None;
  ok_replaced before : updating s = u_replaced before → before ≠ subscription s;
  ok_sending ms reconnect : updating s = u_sending ms reconnect →
    if reconnect : bool then ms = [] else active (subscription s) = true ∧ Forall (harmless (subscription s)) ms;
  ok_in_line : connected s = true → resnapshot_pending s = false → requests s = 0 →
    (∀ ms, updating s ≠ u_sending ms true) →
    match replay s with
    | t_idle | t_replaying [] => in_line s
    | t_copy => view s = None ∨ in_line s
    | _ => True
    end }.

Lemma initial_stream_ok : stream_ok initial_stream.
Proof using Type. by split. Qed.

(** What the three threads' steps keep. *)
Lemma update_ok s u :
  stream_ok s → updating s = u_idle → (subscription (start_update u s) ≠ subscription s → ∀ m ms, replay s ≠ t_replaying (m :: ms)) →
  stream_ok (start_update u s).
Proof using Type.
  intros Hok Hu Hq. unfold start_update in *. case_bool_decide as Heq; [done|]. cbn in Hq.
  destruct Hok as [_ Hr Ho _ _ Hl]. split; cbn; try done.
  - intros m ms Hm. by destruct (Hq ltac:(congruence) m ms).
  - by intros before [= <-].
  - intros Hc Hp Hn _. specialize (Hl Hc Hp Hn ltac:(congruence)).
    assert (Hin : in_line s → in_line (start_update u s)).
    { unfold in_line, view, start_update. rewrite Hu, bool_decide_eq_false_2 by done. cbn.
      intros [E|(b & Eb & _)]; [by right; exists (subscription s)|congruence]. }
    unfold start_update in Hin. rewrite bool_decide_eq_false_2 in Hin by done.
    destruct (replay s) as [| | |[|]]; auto. destruct Hl as [Hv|]; [left|by right; apply Hin].
    unfold view in *. cbn. by rewrite Hu in Hv.
Qed.

Lemma check_ok s before : stream_ok s → updating s = u_replaced before → stream_ok (checked before s).
Proof using laws.
  intros Hok Hu. unfold checked. destruct (connected s) eqn:Ec.
  2:{ destruct Hok as [Ht Hr Ho _ _ _]. split; cbn; try done. congruence. }
  destruct Hok as [Ht Hr Ho Hne _ Hl]. specialize (Hne _ Hu).
  destruct (active (subscription s)) eqn:Ea.
  - destruct (plan_correct before (subscription s) Ea) as (Hrc & Hhl & Hplan).
    split; cbn; try done; [intros ms rc [= <- <-]; by rewrite Hrc|].
    intros Hc Hp Hn _. specialize (Hl Hc Hp Hn ltac:(congruence)).
    assert (Hin : in_line s → covers (told (connection s) (sync_messages (plan_user_subscription_sync credentials before (subscription s)))) =
                  wanted (subscription s)).
    { unfold in_line, view. rewrite Hu. intros [E|(b & [= <-] & E)]; [by apply harmless_told|by apply Hplan]. }
    unfold in_line, view in *. cbn. rewrite Hu in *.
    destruct (replay s) as [| | |[|]]; auto. destruct Hl as [Hv|Hv]; [|by auto].
    destruct (harmless_told _ (connection s) _ Hhl) as [_ Hnone]. destruct (Hnone Hv) as [|]; auto.
  - assert (active before = true) as Hb.
    { destruct (active before) eqn:Eb; [done|]. destruct Hne. by rewrite (inactive_empty _ Eb), (inactive_empty _ Ea). }
    unfold plan_user_subscription_sync. rewrite Ea, Hb. cbn.
    split; cbn; try done; [by intros ms rc [= <- <-]|]. intros _ _ _ Hno. by destruct (Hno []).
Qed.

Lemma send_ok s m ms reconnect success :
  stream_ok s → updating s = u_sending (m :: ms) reconnect → stream_ok (sent m ms reconnect success s).
Proof using Type.
  intros [Ht Hr Ho Hne Hs Hl] Hu. specialize (Hs _ _ Hu). destruct reconnect; [done|].
  destruct Hs as [Ha Hs]. apply Forall_cons in Hs as [_ Hs]. unfold sent. destruct (connected s && success) eqn:Ec; bools.
  - split; cbn; try done.
    + intros Hop. destruct (Ho Hop). congruence.
    + by intros ms' rc [= <- <-].
    + intros Hc Hp Hn _. specialize (Hl Hc Hp Hn ltac:(congruence)). unfold in_line, view in *. rewrite Hu in Hl. cbn in *.
      destruct (replay s) as [| | |[|]]; naive_solver.
  - by split.
Qed.

Lemma unlock_ok s reconnect :
  stream_ok s → updating s = u_sending [] reconnect →
  stream_ok (set_updating u_idle (if reconnect : bool then set_requests (S (requests s)) s else s)).
Proof using Type.
  intros [Ht Hr Ho Hne Hs Hl] Hu. destruct reconnect; split; cbn; try done.
  intros Hc Hp Hn _. specialize (Hl Hc Hp Hn ltac:(congruence)). unfold in_line, view in *. rewrite Hu in Hl. cbn in *.
  destruct (replay s) as [| | |[|]]; naive_solver.
Qed.

Lemma replay_opened_ok s :
  stream_ok s → replay s = t_opened → stream_ok (set_replay t_copy (set_connected true (set_pending false s))).
Proof using Type.
  intros [Ht Hr Ho Hne Hs Hl] Hre. destruct (Ho Hre) as [_ Hc]. split; cbn; try done.
  intros _ _ _ Hno. unfold in_line, view. cbn. destruct (updating s) as [| |ms [|]] eqn:Eu; auto; [by destruct (Hno ms)|].
  destruct (Hs _ _ eq_refl) as [_ Hhl]. destruct (harmless_told _ (connection s) _ Hhl) as [_ Hnone]. naive_solver.
Qed.

Lemma copy_ok s : stream_ok s → replay s = t_copy → stream_ok (set_replay (t_replaying (tracked s)) s).
Proof using Type.
  intros [Ht Hr Ho Hne Hs Hl] Hre. split; cbn; try done; [by intros m ms [= <-]|].
  intros Hc Hp Hn Hno. specialize (Hl Hc Hp Hn Hno). rewrite Hre in Hl.
  destruct (tracked s) eqn:Et; [|done]. unfold tracked_messages in Ht. destruct (active (subscription s)) eqn:Ea; [done|].
  destruct Hl as [Hv|]; [left|done]. cbn. by rewrite wanted_inactive.
Qed.

Lemma replay_ok s m ms success :
  stream_ok s → replay s = t_replaying (m :: ms) → stream_ok (replayed m ms success s).
Proof using laws.
  intros [Ht Hr Ho Hne Hs Hl] Hre. specialize (Hr _ _ Hre). rewrite Ht in Hr. unfold tracked_messages in Hr.
  assert (active (subscription s) = true) as Ea by (by destruct (active (subscription s))).
  rewrite Ea in Hr. injection Hr as -> ->.
  unfold replayed. destruct success; split; cbn; try done.
  intros _ _ _ Hno. left. unfold view. cbn.
  assert (Hc : covers (receive (connection s) (user_subscription_message credentials (subscription s))) = wanted (subscription s))
    by (rewrite (subscription_covers _ _ laws) by done; by rewrite wanted_active).
  destruct (updating s) as [| |us [|]] eqn:Eu; [done|done|by destruct (Hno us)|].
  destruct (Hs _ _ eq_refl) as [_ Hhl]. by apply (harmless_told _ _ _ Hhl).
Qed.

Lemma quiet_step_ok s s' : stream_ok s → quiet s s' → stream_ok s'.
Proof using laws.
  intros Hok [Hstep Hq]. destruct Hstep as [s u Hu|s b Hu|s m ms rc ok Hu|s rc Hu|s Hre Hc|s Hre|s Hre|s m ms ok Hre|s Hre|s Hre| |s n Hn].
  - by apply update_ok.
  - by apply check_ok.
  - by apply send_ok.
  - by apply unlock_ok.
  - destruct Hok as [Ht Hr Ho Hne Hs Hl]. split; cbn; try done. intros _. split; [done|apply laws].
  - by apply replay_opened_ok.
  - by apply copy_ok.
  - by eapply replay_ok.
  - destruct Hok as [Ht Hr Ho Hne Hs Hl]. split; cbn; try done. intros Hc Hp Hn Hno. specialize (Hl Hc Hp Hn Hno). by rewrite Hre in Hl.
  - destruct Hok as [Ht Hr Ho Hne Hs Hl]. split; cbn; try done. intros Hop. by destruct (Ho Hop).
  - destruct Hok as [Ht Hr Ho Hne Hs Hl]. by split.
  - destruct Hok as [Ht Hr Ho Hne Hs Hl]. by split.
Qed.

Lemma quiet_ok s : rtc quiet initial_stream s → stream_ok s.
Proof using laws. revert s. apply rtc_ind_r; [apply initial_stream_ok|]. intros s s' _ Hs Hok. by apply (quiet_step_ok s). Qed.

(** ** The schedule that is not quiet *)

(** A subscription to two markets, made offline, is narrowed to one while its
    replay is under way: the removal is sent first, on a connection that lists
    nothing yet, and the replay then lists both. *)
Definition both : UserSubscriptionState := MkSubscription false ["kept"; "dropped"].
Definition one : UserSubscriptionState := MkSubscription false ["kept"].
Definition overtaken : stream :=
  MkStream one u_idle (tracked_messages credentials one) true t_idle false 0
    (told fresh [user_subscription_update_message ["dropped"] false; user_subscription_message credentials both]).

Lemma overtaken_reachable : reachable overtaken.
Proof using Type.
  unfold reachable. set (empty := MkSubscription false []). set (full := user_subscription_message credentials both).
  set (removal := user_subscription_update_message ["dropped"] false). set (single := tracked_messages credentials one).
  set (s1 := MkStream both (u_replaced empty) [full] false t_idle false 0 fresh).
  set (s2 := MkStream both u_idle [full] false t_idle false 0 fresh).
  set (s3 := MkStream both u_idle [full] false t_opened false 0 fresh).
  set (s4 := MkStream both u_idle [full] true t_copy false 0 fresh).
  set (s5 := MkStream both u_idle [full] true (t_replaying [full]) false 0 fresh).
  set (s6 := MkStream one (u_replaced both) single true (t_replaying [full]) false 0 fresh).
  set (s7 := MkStream one (u_sending [removal] false) single true (t_replaying [full]) false 0 fresh).
  set (s8 := MkStream one (u_sending [] false) single true (t_replaying [full]) false 0 (receive fresh removal)).
  set (s9 := MkStream one u_idle single true (t_replaying [full]) false 0 (receive fresh removal)).
  set (s10 := MkStream one u_idle single true (t_replaying []) false 0 (receive (receive fresh removal) full)).
  apply (rtc_l _ _ s1); [exact (step_update initial_stream (subscribe ["kept"; "dropped"]) eq_refl)|].
  apply (rtc_l _ _ s2); [exact (step_check s1 empty eq_refl)|].
  apply (rtc_l _ _ s3); [exact (step_open s2 eq_refl eq_refl)|].
  apply (rtc_l _ _ s4); [exact (step_opened s3 eq_refl)|].
  apply (rtc_l _ _ s5); [exact (step_copy s4 eq_refl)|].
  apply (rtc_l _ _ s6); [exact (step_update s5 (unsubscribe ["dropped"]) eq_refl)|].
  apply (rtc_l _ _ s7); [exact (step_check s6 both eq_refl)|].
  apply (rtc_l _ _ s8); [exact (step_send s7 removal [] false true eq_refl)|].
  apply (rtc_l _ _ s9); [exact (step_unlock s8 false eq_refl)|].
  apply (rtc_l _ _ s10); [exact (step_replay s9 full [] true eq_refl)|].
  apply rtc_once. exact (step_replayed s10 eq_refl).
Qed.

(** C40: A connection is told what the caller asked for.  In every execution in which no update of the subscription
    begins between the copy of a replay and its sending, whenever nothing is under way (no update holds the lock, no
    replay is running, no reconnection was asked for) an open connection of the server lists exactly the markets of the
    subscription, or all of them, or is not authenticated when nothing is subscribed, whatever sends failed and
    connections broke on the way.  An update that begins during the sending of a replay can leave the connection, with
    nothing under way, on the old subscription: the market it removed is still listed. *)
Theorem subscription_kept_in_line :
  (∀ s, rtc quiet initial_stream s → settled s → covers (connection s) = wanted (subscription s)) ∧
  (∃ s, reachable s ∧ settled s ∧ ("dropped" ∉ markets (subscription s)) ∧
     covers (connection s) = Some {["kept"; "dropped"]}).
Proof using laws.
  split.
  - intros s [_ _ _ _ _ Hl]%quiet_ok (Hu & Hr & Hc & Hp & Hn). specialize (Hl Hc Hp Hn ltac:(congruence)).
    rewrite Hr in Hl. unfold in_line, view in Hl. rewrite Hu in Hl. naive_solver.
  - exists overtaken. split; [apply overtaken_reachable|]. split; [done|]. split; [set_solver|].
    cbn [overtaken connection told foldl]. rewrite (subscription_covers _ _ laws) by done. f_equal.
Qed.
End Stream.

(** A server that reads the messages. *)
Definition texts (j : option json) : option (list string) :=
  match j with Some (JArray items) => Some (omap (λ i, match i with JString t => Some t | _ => None end) items) | _ => None end.

Definition listing_receive (listed : option (gset string)) (m : json) : option (gset string) :=
  match json_field m "type", json_field m "operation", texts (json_field m "markets") with
  | Some _, _, ms => Some (list_to_set (default [] ms))
  | None, Some (JString op), Some ms =>
      (λ l, if bool_decide (op = "subscribe") then l ∪ list_to_set ms else l ∖ list_to_set ms) <$> listed
  | _, _, _ => listed
  end.

#[export] Instance listing_server : UserServer (option (gset string)) :=
  {| fresh := None; receive := listing_receive; covers := id |}.

Lemma texts_strings l : texts (Some (JArray (JString <$> l))) = Some l.
Proof. cbn. f_equal. induction l as [|x l IH]; [done|]. cbn. by f_equal. Qed.

Lemma listing_laws credentials : server_laws (option (gset string)) credentials.
Proof.
  split; [done|..].
  - intros s [[] l] _; [done|]. change (covers _)
      with (Some (list_to_set (default [] (texts (Some (JArray (JString <$> l)))) : list string) : gset string)).
    by rewrite texts_strings.
  - intros s ms add _. change (covers (receive s (user_subscription_update_message ms add))) with
      (listing_receive s (user_subscription_update_message ms add)).
    unfold listing_receive. change (texts (json_field _ "markets")) with (texts (Some (JArray (JString <$> ms)))).
    rewrite texts_strings. by destruct add.
Qed.

Lemma subscription_kept_in_line_witness :
  server_laws (option (gset string)) (MkCredentials "k" "s" "p") ∧
  ∀ s : stream, rtc (quiet (MkCredentials "k" "s" "p")) initial_stream s → settled s →
    connection s = wanted (subscription s).
Proof.
  split; [apply listing_laws|]. exact (proj1 (subscription_kept_in_line (MkCredentials "k" "s" "p") (listing_laws _))).
Defined.
