(* ===== verification/UserStream.v ===== *)
(** * The runtime of the user stream
    (src/user_stream_runtime.cpp, user_stream_runtime_events.cpp)

    What the threads of the WebSocket client and of the caller do to the flags and
    counters of [UserStreamRuntime], in any interleaving: the message worker that
    delivers the events of one message after the other, the threads that report a
    gap, the transport that reports an open or closed connection, and the caller
    that connects, disconnects and shuts down.  The commands given to the WebSocket
    client are recorded. *)
From stdpp Require Import relations sorting.
From S2P Require Import Prelude Text Sdk TradeSettlement RestParsing JsonRpc OrderAuth UserEvents.

#[local] Open Scope Z_scope.

(** ** State *)

(** Which callbacks are set. *)
Record UserStreamCallbacks := MkCallbacks {
  order : bool; trade : bool; gap : bool; recovered : bool; error : bool }.

Definition no_callbacks : UserStreamCallbacks := MkCallbacks false false false false false.

(** A callback that was called, with the generations it was called for. *)
Inductive call :=
  | event_call (user_generation : Z) (event : UserStreamEvent)
  | gap_call (user_generation websocket_generation : Z)
  | recovered_call (websocket_generation : Z)
  | error_call (user_generation : Z) (what : string).

Inductive command := request_resnapshot (reason : string) | websocket_stop | websocket_disconnect.

(** The message worker in [handle_message]. *)
Inductive worker_phase :=
  | w_idle
  | w_delivering (user_generation websocket_generation : Z) (events : list UserStreamEvent)
  | w_calling (user_generation websocket_generation : Z) (event : UserStreamEvent) (events : list UserStreamEvent).

(** A thread in [handle_stream_gap]: entered, or before the callback. *)
Inductive gap_phase :=
  | g_entered (websocket_generation : Z)
  | g_stored (user_generation websocket_generation : Z).

Record UserStreamRuntime := MkRuntime {
  callbacks_ : UserStreamCallbacks;
  owner_active_ : bool;
  stream_active_ : bool;
  shutdown_started_ : bool;
  authentication_failed_ : bool;
  order_events_ : Z;
  trade_events_ : Z;
  stream_generation_ : Z;
  recovery_generation_ : Z;
  websocket_generation_ : Z;          (** [websocket_.stream_generation()] *)
  worker : worker_phase;
  gaps : list gap_phase;
  calls : list call;                  (** oldest first *)
  commands : list command }.

Definition create : UserStreamRuntime :=
  MkRuntime no_callbacks true false false false 0 0 0 0 0 w_idle [] [] [].

(** [validated_config] and [validated_credentials] of the constructor. *)
Definition validated_config (url : string) (ping_interval_ms connect_timeout_ms : Z) : res unit :=
  require (negb (bool_decide (url = ""))) (invalid_argument "clob_user_ws_url must not be empty");;
  require (0 <? ping_interval_ms) (invalid_argument "ws_ping_interval_ms must be positive");;
  require (0 <? connect_timeout_ms) (invalid_argument "ws_connect_timeout_ms must be positive");;
  Ok tt.

Definition validated_credentials (c : ApiCredentials) : res unit :=
  require (negb (bool_decide (api_key c = "") || bool_decide (api_secret c = "") || bool_decide (api_passphrase c = "")))
    (invalid_argument "user stream requires API key, secret, and passphrase").

(** ** Stores *)

Definition set_callbacks (c : UserStreamCallbacks) (r : UserStreamRuntime) : UserStreamRuntime :=
  MkRuntime c (owner_active_ r) (stream_active_ r) (shutdown_started_ r) (authentication_failed_ r) (order_events_ r)
    (trade_events_ r) (stream_generation_ r) (recovery_generation_ r) (websocket_generation_ r) (worker r) (gaps r)
    (calls r) (commands r).
Definition set_flags (owner stream shutdown auth : bool) (r : UserStreamRuntime) : UserStreamRuntime :=
  MkRuntime (callbacks_ r) owner stream shutdown auth (order_events_ r)
    (trade_events_ r) (stream_generation_ r) (recovery_generation_ r) (websocket_generation_ r) (worker r) (gaps r)
    (calls r) (commands r).
Definition set_counts (orders trades : Z) (r : UserStreamRuntime) : UserStreamRuntime :=
  MkRuntime (callbacks_ r) (owner_active_ r) (stream_active_ r) (shutdown_started_ r) (authentication_failed_ r) orders
    trades (stream_generation_ r) (recovery_generation_ r) (websocket_generation_ r) (worker r) (gaps r)
    (calls r) (commands r).
Definition set_generations (user recovery websocket : Z) (r : UserStreamRuntime) : UserStreamRuntime :=
  MkRuntime (callbacks_ r) (owner_active_ r) (stream_active_ r) (shutdown_started_ r) (authentication_failed_ r)
    (order_events_ r) (trade_events_ r) user recovery websocket (worker r) (gaps r) (calls r) (commands r).
Definition set_threads (w : worker_phase) (g : list gap_phase) (r : UserStreamRuntime) : UserStreamRuntime :=
  MkRuntime (callbacks_ r) (owner_active_ r) (stream_active_ r) (shutdown_started_ r) (authentication_failed_ r)
    (order_events_ r) (trade_events_ r) (stream_generation_ r) (recovery_generation_ r) (websocket_generation_ r) w g
    (calls r) (commands r).
Definition emit (c : list call) (d : list command) (r : UserStreamRuntime) : UserStreamRuntime :=
  MkRuntime (callbacks_ r) (owner_active_ r) (stream_active_ r) (shutdown_started_ r) (authentication_failed_ r)
    (order_events_ r) (trade_events_ r) (stream_generation_ r) (recovery_generation_ r) (websocket_generation_ r)
    (worker r) (gaps r) (calls r ++ c) (commands r ++ d).

(** [update_callbacks]: nothing once the owner is gone. *)
Definition update_callbacks (f : UserStreamCallbacks → UserStreamCallbacks) (r : UserStreamRuntime) : UserStreamRuntime :=
  if owner_active_ r then set_callbacks (f (callbacks_ r)) r else r.

Definition on_order (c : UserStreamCallbacks) := MkCallbacks true (trade c) (gap c) (recovered c) (error c).
Definition on_trade (c : UserStreamCallbacks) := MkCallbacks (order c) true (gap c) (recovered c) (error c).
Definition on_stream_gap (c : UserStreamCallbacks) := MkCallbacks (order c) (trade c) true (recovered c) (error c).
Definition on_stream_recovered (c : UserStreamCallbacks) := MkCallbacks (order c) (trade c) (gap c) true (error c).
Definition on_error (c : UserStreamCallbacks) := MkCallbacks (order c) (trade c) (gap c) (recovered c) true.

(** ** Operations *)

Definition deactivate_stream (r : UserStreamRuntime) : UserStreamRuntime :=
  let r' := set_flags (owner_active_ r) false (shutdown_started_ r) (authentication_failed_ r) r in
  if stream_active_ r
  then set_generations (u64 (stream_generation_ r + 1)) (recovery_generation_ r) (websocket_generation_ r) r'
  else r'.

Definition disconnect (r : UserStreamRuntime) : UserStreamRuntime :=
  emit [] [websocket_disconnect] (deactivate_stream r).

Definition stop (r : UserStreamRuntime) : UserStreamRuntime := emit [] [websocket_stop] (deactivate_stream r).

Definition shutdown (r : UserStreamRuntime) : UserStreamRuntime :=
  if shutdown_started_ r then r
  else emit [] [websocket_stop]
         (set_callbacks no_callbacks
            (deactivate_stream (set_flags false (stream_active_ r) true (authentication_failed_ r) r))).

(** [connect] up to the call of the WebSocket client, and after its answer. *)
Definition connect (r : UserStreamRuntime) : UserStreamRuntime :=
  if owner_active_ r then set_flags (owner_active_ r) true (shutdown_started_ r) false r else r.
Definition connect_answered (connected : bool) (r : UserStreamRuntime) : UserStreamRuntime :=
  if connected then r else disconnect r.

(** ** Handlers *)

Definition live (r : UserStreamRuntime) : bool := owner_active_ r && stream_active_ r.

Definition stream_is_current (user_generation websocket_generation : Z) (r : UserStreamRuntime) : bool :=
  owner_active_ r && stream_active_ r && (user_generation =? stream_generation_ r) &&
  (websocket_generation =? websocket_generation_ r).

(** [handle_stream_gap] up to the store of the generation, and the callback. *)
Definition store_gap (i : nat) (websocket_generation : Z) (r : UserStreamRuntime) : UserStreamRuntime :=
  if live r then
    let generation := u64 (stream_generation_ r + 1) in
    set_threads (worker r) (<[i := g_stored generation websocket_generation]> (gaps r))
      (set_generations generation websocket_generation (websocket_generation_ r) r)
  else set_threads (worker r) (delete i (gaps r)) r.

Definition call_gap (i : nat) (generation websocket_generation : Z) (r : UserStreamRuntime) : UserStreamRuntime :=
  let r' := set_threads (worker r) (delete i (gaps r)) r in
  if gap (callbacks_ r) then emit [gap_call generation websocket_generation] [] r' else r'.

Definition handle_connect (r : UserStreamRuntime) : UserStreamRuntime :=
  let pending := recovery_generation_ r in
  if negb (live r) || (pending =? 0) || negb (pending =? websocket_generation_ r) then r
  else
    let r' := set_generations (stream_generation_ r) 0 (websocket_generation_ r) r in
    if recovered (callbacks_ r) then emit [recovered_call pending] [] r' else r'.

Definition policy_violation_close_code : Z := 1008.

Definition handle_close (code : Z) (reason : string) (r : UserStreamRuntime) : UserStreamRuntime :=
  if negb (code =? policy_violation_close_code) || negb (live r) then r
  else
    let r := emit [] [websocket_stop]
               (deactivate_stream (set_flags (owner_active_ r) (stream_active_ r) (shutdown_started_ r) true r)) in
    let what := "user stream rejected by server (" +:+ to_string code +:+ "): " +:+ reason in
    if error (callbacks_ r) then emit [error_call (stream_generation_ r) what] [] r else r.

Section Handlers.
Context `{JsonLibrary, JsonRuntime, JsonTypeErrors}.

Definition handle_message (message : string) (websocket_generation : Z) (r : UserStreamRuntime) : UserStreamRuntime :=
  let generation := stream_generation_ r in
  if negb (stream_is_current generation websocket_generation r) ||
     bool_decide (message = "") || bool_decide (message = "PONG") then r
  else
    match parse_user_events message with
    | Ok events => set_threads (w_delivering generation websocket_generation events) (gaps r) r
    | Throw _ =>
        if owner_active_ r then emit [] [request_resnapshot "invalid user data; reconnect required"] r else r
    end.

(** The test before an event, and the event. *)
Definition check_event (generation websocket_generation : Z) (events : list UserStreamEvent) (r : UserStreamRuntime) :
    UserStreamRuntime :=
  match events with
  | [] => set_threads w_idle (gaps r) r
  | event :: events =>
      if stream_is_current generation websocket_generation r
      then set_threads (w_calling generation websocket_generation event events) (gaps r) r
      else set_threads w_idle (gaps r) r
  end.

(** An exception of the callback ends the message; it is the WebSocket client that
    then asks for a new connection. *)
Definition call_event (generation websocket_generation : Z) (event : UserStreamEvent) (events : list UserStreamEvent)
    (threw : bool) (r : UserStreamRuntime) : UserStreamRuntime :=
  let '(counted, set_) :=
    match event with
    | OrderEvent _ => (set_counts (u64 (order_events_ r + 1)) (trade_events_ r) r, order (callbacks_ r))
    | TradeEvent _ => (set_counts (order_events_ r) (u64 (trade_events_ r + 1)) r, trade (callbacks_ r))
    end in
  let r := if set_ then emit [event_call generation event] [] counted else counted in
  if set_ && threw then set_threads w_idle (gaps r) r
  else set_threads (w_delivering generation websocket_generation events) (gaps r) r.

(** ** The threads *)

Inductive step : UserStreamRuntime → UserStreamRuntime → Prop :=
  (** the caller *)
  | step_callbacks r f : step r (update_callbacks f r)
  | step_connect r : step r (connect r)
  | step_connected r connected : step r (connect_answered connected r)
  | step_disconnect r : step r (disconnect r)
  | step_stop r : step r (stop r)
  | step_shutdown r : step r (shutdown r)
  (** [mark_stream_gap] of the WebSocket client *)
  | step_gap r :
      step r (set_threads (worker r) (gaps r ++ [g_entered (u64 (websocket_generation_ r + 1))])
                (set_generations (stream_generation_ r) (recovery_generation_ r) (u64 (websocket_generation_ r + 1)) r))
  | step_store r i g : gaps r !! i = Some (g_entered g) → step r (store_gap i g r)
  | step_call_gap r i u g : gaps r !! i = Some (g_stored u g) → step r (call_gap i u g r)
  (** the transport *)
  | step_open r : step r (handle_connect r)
  | step_close r code reason : step r (handle_close code reason r)
  (** the message worker *)
  | step_message r message g : worker r = w_idle → step r (handle_message message g r)
  | step_check r u g events : worker r = w_delivering u g events → step r (check_event u g events r)
  | step_event r u g event events threw :
      worker r = w_calling u g event events → step r (call_event u g event events threw r).

(** ** Events and gaps *)

(** The generation a message was begun in, and that a gap or a rejection began. *)
Definition begun (w : worker_phase) : option Z :=
  match w with w_idle => None | w_delivering u _ _ | w_calling u _ _ _ => Some u end.
Definition in_flight (w : worker_phase) (generation : Z) : nat :=
  match w with w_calling u _ _ _ => if decide (u < generation) then 1 else 0 | _ => 0 end.
Definition barrier (c : call) : option Z :=
  match c with gap_call u _ | error_call u _ => Some u | _ => None end.
Definition is_late (generation : Z) (c : call) : Prop :=
  match c with event_call u _ => u < generation | _ => False end.

#[local] Instance is_late_dec generation c : Decision (is_late generation c).
Proof. unfold is_late. destruct c; apply _. Defined.

(** The events called of messages begun before the generation. *)
Definition late (generation : Z) (cs : list call) : nat := length (filter (is_late generation) cs).

Record events_ok (generation : Z) (w : worker_phase) (gs : list gap_phase) (cs : list call) : Prop := {
  ok_begun u : begun w = Some u → u ≤ generation;
  ok_stored u g : g_stored u g ∈ gs → u ≤ generation;
  ok_barriers b u : b ∈ cs → barrier b = Some u → u ≤ generation;
  ok_late pre b post u : cs = pre ++ b :: post → barrier b = Some u → (late u post + in_flight w u ≤ 1)%nat }.

Lemma late_snoc generation cs c : late generation (cs ++ [c]) = (late generation cs + late generation [c])%nat.
Proof using Type. unfold late. by rewrite filter_app, length_app. Qed.

Lemma snoc_split {A} (cs pre post : list A) b c :
  cs ++ [c] = pre ++ b :: post → (post = [] ∧ b = c ∧ pre = cs) ∨ ∃ post', post = post' ++ [c] ∧ cs = pre ++ b :: post'.
Proof using Type.
  destruct post as [|x post _] using rev_ind; [intros [-> [= ->]]%app_inj_tail; by left|].
  rewrite app_comm_cons, app_assoc. intros [-> [= ->]]%app_inj_tail. right. by exists post.
Qed.

Lemma events_ok_mono generation generation' w gs gs' cs :
  generation ≤ generation' → (∀ u g, g_stored u g ∈ gs' → g_stored u g ∈ gs ∨ u ≤ generation') →
  events_ok generation w gs cs → events_ok generation' w gs' cs.
Proof using Type.
  intros Hle Hgs [Hb Hs Hc Hl]. split; [|..|done].
  - intros u Hu%Hb. lia.
  - intros u g Hin%Hgs. destruct Hin as [Hu|?]; [apply Hs in Hu|]; lia.
  - intros b u Hin Hbu. specialize (Hc _ _ Hin Hbu). lia.
Qed.

(** The worker begins, checks or leaves a message. *)
Lemma events_ok_worker generation w w' gs cs :
  (∀ u, begun w' = Some u → u ≤ generation) → (∀ u, u ≤ generation → in_flight w' u = 0%nat) →
  events_ok generation w gs cs → events_ok generation w' gs cs.
Proof using Type.
  intros Hw Hf [Hb Hs Hc Hl]. split; try done. intros pre b post u E Hbu.
  rewrite Hf; [specialize (Hl _ _ _ _ E Hbu); lia|]. apply (Hc b); [|done]. rewrite E. set_solver.
Qed.

(** A callback that is not an event of the message at hand. *)
Lemma events_ok_call generation w gs cs c :
  (∀ u, barrier c = Some u → u ≤ generation) → (∀ u, late u [c] = 0%nat) →
  events_ok generation w gs cs → events_ok generation w gs (cs ++ [c]).
Proof using Type.
  intros Hbar Hn [Hb Hs Hc Hl]. split; try done.
  - intros b u Hin. apply elem_of_app in Hin as [Hin|Heq]; [by apply Hc|apply list_elem_of_singleton in Heq as ->; apply Hbar].
  - intros pre b post u [(-> & -> & ->)|(post' & -> & ->)]%snoc_split Hbu.
    + cbn. destruct w; cbn; try lia. case_decide; lia.
    + rewrite late_snoc, Hn. specialize (Hl _ _ _ _ eq_refl Hbu). lia.
Qed.

Lemma late_event generation u event : late generation [event_call u event] = if decide (u < generation) then 1%nat else 0%nat.
Proof using Type.
  unfold late. rewrite filter_cons, filter_nil. destruct (decide (is_late _ _)), (decide (u < generation)); cbn in *; done.
Qed.

(** The event at hand. *)
Lemma events_ok_event generation u g event events gs cs w' :
  begun w' = None ∨ begun w' = Some u → (∀ v, in_flight w' v = 0%nat) →
  events_ok generation (w_calling u g event events) gs cs →
  events_ok generation w' gs (cs ++ [event_call u event]).
Proof using Type.
  intros Hw' Hf [Hb Hs Hc Hl]. split; try done.
  - intros v Hv. apply Hb. cbn. naive_solver.
  - intros b v Hin. apply elem_of_app in Hin as [Hin|Heq]; [by apply Hc|by apply list_elem_of_singleton in Heq as ->].
  - intros pre b post v [(-> & -> & ->)|(post' & -> & ->)]%snoc_split Hbu; [done|].
    rewrite late_snoc, Hf. specialize (Hl _ _ _ _ eq_refl Hbu). cbn in Hl. rewrite late_event. lia.
Qed.

Lemma events_ok_quiet generation u g event events gs cs w' :
  begun w' = None ∨ begun w' = Some u → (∀ v, in_flight w' v = 0%nat) →
  events_ok generation (w_calling u g event events) gs cs → events_ok generation w' gs cs.
Proof using Type.
  intros Hw' Hf Hok. eapply events_ok_worker; [|by intros; apply Hf|done].
  intros v Hv. apply (ok_begun _ _ _ _ Hok). cbn. naive_solver.
Qed.

(** ** Recoveries *)

Definition recoveries (cs : list call) : list Z :=
  omap (λ c, match c with recovered_call g => Some g | _ => None end) cs.
Definition entered (gs : list gap_phase) : list Z :=
  omap (λ p, match p with g_entered g => Some g | _ => None end) gs.

Lemma entered_app gs gs' : entered (gs ++ gs') = entered gs ++ entered gs'.
Proof using Type. apply omap_app. Qed.
Lemma recoveries_app cs cs' : recoveries (cs ++ cs') = recoveries cs ++ recoveries cs'.
Proof using Type. apply omap_app. Qed.

Record recovery_ok (websocket recovery : Z) (gs : list gap_phase) (cs : list call) : Prop := {
  ok_recovery : 0 ≤ recovery ≤ websocket;
  ok_entered : NoDup (entered gs) ∧ ∀ g, g ∈ entered gs → 1 ≤ g ≤ websocket ∧ g ≠ recovery ∧ g ∉ recoveries cs;
  ok_recoveries : StronglySorted Z.lt (recoveries cs) ∧
    (∀ g, g ∈ recoveries cs → 1 ≤ g ≤ websocket) ∧ recovery ∉ recoveries cs }.

Lemma recovery_ok_call websocket recovery gs cs c :
  (∀ g, c ≠ recovered_call g) → recovery_ok websocket recovery gs cs → recovery_ok websocket recovery gs (cs ++ [c]).
Proof using Type.
  intros Hc Hok. assert (E : recoveries (cs ++ [c]) = recoveries cs).
  { rewrite recoveries_app. destruct c; cbn; try by rewrite app_nil_r. by destruct (Hc websocket_generation). }
  destruct Hok. split; rewrite ?E; done.
Qed.

Lemma recovery_ok_gaps websocket recovery gs gs' cs :
  (entered gs' = entered gs ∨ ∃ g, entered gs ≡ₚ g :: entered gs') →
  recovery_ok websocket recovery gs cs → recovery_ok websocket recovery gs' cs.
Proof using Type.
  intros Hgs [Hr [Hn He] Hs]. split; try done. destruct Hgs as [->|[g Hg]]; [done|].
  rewrite Hg in Hn. apply NoDup_cons in Hn as [_ Hn]. split; [done|]. intros g' Hg'. apply He. rewrite Hg. by right.
Qed.

Lemma recovery_ok_gap websocket recovery gs cs :
  recovery_ok websocket recovery gs cs →
  recovery_ok (websocket + 1) recovery (gs ++ [g_entered (websocket + 1)]) cs.
Proof using Type.
  intros [Hr [Hn He] (Hs & Hb & Hni)]. split; [lia|..].
  - rewrite entered_app. cbn. split.
    + apply NoDup_app. split; [done|]. split; [|apply NoDup_singleton].
      intros g Hg%He Heq%list_elem_of_singleton. lia.
    + intros g Hin. apply elem_of_app in Hin as [Hg%He|Heq]; [naive_solver lia|apply list_elem_of_singleton in Heq as ->].
      split; [lia|]. split; [lia|]. intros Hg%Hb. lia.
  - split; [done|]. split; [|done]. intros g Hg%Hb. lia.
Qed.

Lemma recovery_ok_store websocket recovery gs gs' cs g :
  entered gs ≡ₚ g :: entered gs' → recovery_ok websocket recovery gs cs → recovery_ok websocket g gs' cs.
Proof using Type.
  intros Hg [Hr [Hn He] (Hs & Hb & Hni)]. rewrite Hg in Hn. apply NoDup_cons in Hn as [Hng Hn].
  assert (Hgin : g ∈ entered gs) by (rewrite Hg; by left). destruct (He _ Hgin) as (? & ? & ?).
  split; [lia|..|done]. split; [done|]. intros g' Hg'. destruct (He g') as (? & ? & ?); [rewrite Hg; by right|].
  split; [done|]. split; [|done]. by intros ->.
Qed.

Lemma recovery_ok_reset websocket recovery gs cs :
  recovery_ok websocket recovery gs cs → recovery_ok websocket 0 gs cs.
Proof using Type.
  intros [Hr [Hn He] (Hs & Hb & Hni)]. split; [lia|..].
  - split; [done|]. intros g Hg%He. destruct Hg as (? & ? & ?). split; [done|]. split; [lia|done].
  - split; [done|]. split; [done|]. intros Hg%Hb. lia.
Qed.

Lemma recovery_ok_recovered websocket gs cs :
  recovery_ok websocket websocket gs cs → websocket ≠ 0 → recovery_ok websocket 0 gs (cs ++ [recovered_call websocket]).
Proof using Type.
  intros [Hr [Hn He] (Hs & Hb & Hni)] Hne. assert (E : recoveries (cs ++ [recovered_call websocket]) = recoveries cs ++ [websocket])
    by apply recoveries_app.
  split; rewrite ?E; [lia|..].
  - split; [done|]. intros g Hg%He. destruct Hg as (? & ? & ?). split; [done|]. split; [lia|]. set_solver.
  - split_and!.
    + apply StronglySorted_app_2; [|done|repeat constructor]. intros x y Hx Heq. apply list_elem_of_singleton in Heq as ->.
      specialize (Hb _ Hx). destruct (decide (x = websocket)) as [->|]; [done|lia].
    + intros g Hin. apply elem_of_app in Hin as [Hg|Heq]; [apply Hb in Hg|apply list_elem_of_singleton in Heq]; lia.
    + intros Hin. apply elem_of_app in Hin as [Hg|Heq]; [apply Hb in Hg|apply list_elem_of_singleton in Heq]; lia.
Qed.

(** ** Every step *)

Record runtime_ok (n : nat) (r : UserStreamRuntime) : Prop := {
  ok_user_generation : 0 ≤ stream_generation_ r ≤ Z.of_nat n;
  ok_websocket_generation : 0 ≤ websocket_generation_ r ≤ Z.of_nat n;
  ok_events : events_ok (stream_generation_ r) (worker r) (gaps r) (calls r);
  ok_recovered : recovery_ok (websocket_generation_ r) (recovery_generation_ r) (gaps r) (calls r) }.

Lemma create_ok : runtime_ok 0 create.
Proof using Type.
  split; [done|done|..]; split; cbn; try done; try set_solver.
  - by intros [|].
  - split; [constructor|set_solver].
  - split_and!; [constructor|set_solver..].
Qed.

(** A step that leaves the calls, the worker and the gaps alone. *)
Lemma runtime_ok_frame n r r' :
  stream_generation_ r ≤ stream_generation_ r' ≤ Z.of_nat (S n) →
  websocket_generation_ r' = websocket_generation_ r → recovery_generation_ r' = recovery_generation_ r →
  worker r' = worker r → gaps r' = gaps r → calls r' = calls r → runtime_ok n r → runtime_ok (S n) r'.
Proof using Type.
  intros Hg Ew Er Ewk Eg Ec [Hu Hw He Hr]. split; rewrite ?Ew, ?Er, ?Ewk, ?Eg, ?Ec; [lia|lia| |done].
  apply (events_ok_mono (stream_generation_ r) _ _ (gaps r)); [lia|auto|done].
Qed.

Lemma u64_succ z n : 0 ≤ z ≤ Z.of_nat n → Z.of_nat n < 2 ^ 64 - 1 → u64 (z + 1) = z + 1.
Proof using Type. intros. unfold u64. apply Z.mod_small. lia. Qed.

Lemma deactivate_frame n r :
  Z.of_nat n < 2 ^ 64 - 1 → runtime_ok n r →
  stream_generation_ r ≤ stream_generation_ (deactivate_stream r) ≤ Z.of_nat (S n) ∧
  websocket_generation_ (deactivate_stream r) = websocket_generation_ r ∧
  recovery_generation_ (deactivate_stream r) = recovery_generation_ r ∧
  worker (deactivate_stream r) = worker r ∧ gaps (deactivate_stream r) = gaps r ∧ calls (deactivate_stream r) = calls r.
Proof using Type.
  intros Hn [Hu _ _ _]. unfold deactivate_stream. destruct (stream_active_ r); cbn; [rewrite (u64_succ _ n) by lia|]; split_and!; try lia; done.
Qed.

Lemma delete_entered gs i g : gs !! i = Some (g_entered g) → entered gs ≡ₚ g :: entered (delete i gs).
Proof using Type.
  intros Hi. rewrite <- (take_drop_middle gs i _ Hi) at 1. rewrite delete_take_drop, !entered_app. cbn. by rewrite Permutation_middle.
Qed.
Lemma insert_entered gs i g u : gs !! i = Some (g_entered g) → entered gs ≡ₚ g :: entered (<[i := g_stored u g]> gs).
Proof using Type.
  intros Hi. rewrite <- (take_drop_middle gs i _ Hi) at 1. rewrite insert_take_drop by (by eapply lookup_lt_Some).
  rewrite !entered_app. cbn. by rewrite Permutation_middle.
Qed.
Lemma delete_stored gs i g u : gs !! i = Some (g_stored u g) → entered (delete i gs) = entered gs.
Proof using Type.
  intros Hi. rewrite <- (take_drop_middle gs i _ Hi) at 2. by rewrite delete_take_drop, !entered_app.
Qed.
Lemma elem_of_delete_gap (gs : list gap_phase) i p : p ∈ delete i gs → p ∈ gs.
Proof using Type. intros Hp. eapply elem_of_submseteq; [exact Hp|]. apply sublist_submseteq, sublist_delete. Qed.

Lemma store_gap_ok n r i g :
  Z.of_nat n < 2 ^ 64 - 1 → runtime_ok n r → gaps r !! i = Some (g_entered g) → runtime_ok (S n) (store_gap i g r).
Proof using Type.
  intros Hn [Hu Hw He Hr] Hi. unfold store_gap. destruct (live r).
  - split; cbn [stream_generation_ websocket_generation_ recovery_generation_ worker gaps calls set_threads set_generations];
      rewrite ?(u64_succ _ n) by lia; [lia|lia|..].
    + apply (events_ok_mono (stream_generation_ r) _ _ (gaps r)); [lia| |done].
      intros u g' Hin. apply list_elem_of_lookup in Hin as [j Hj].
      apply list_lookup_insert_Some in Hj as [(-> & [= <- <-] & _)|[_ Hj]]; [right; lia|left].
      by eapply list_elem_of_lookup_2.
    + eapply recovery_ok_store; [by apply insert_entered|done].
  - split; cbn [stream_generation_ websocket_generation_ recovery_generation_ worker gaps calls set_threads]; [lia|lia|..].
    + apply (events_ok_mono (stream_generation_ r) _ _ (gaps r)); [lia| |done]. intros u g' Hin. left. by eapply elem_of_delete_gap.
    + eapply recovery_ok_gaps; [right; eexists; by apply delete_entered|done].
Qed.

Lemma call_gap_ok n r i u g :
  runtime_ok n r → gaps r !! i = Some (g_stored u g) → runtime_ok (S n) (call_gap i u g r).
Proof using Type.
  intros [Hu Hw He Hr] Hi. unfold call_gap.
  assert (He' : events_ok (stream_generation_ r) (worker r) (delete i (gaps r)) (calls r)).
  { apply (events_ok_mono (stream_generation_ r) _ _ (gaps r)); [lia| |done]. intros v g' Hin. left. by eapply elem_of_delete_gap. }
  assert (Hr' : recovery_ok (websocket_generation_ r) (recovery_generation_ r) (delete i (gaps r)) (calls r)).
  { eapply recovery_ok_gaps; [left; by eapply delete_stored|done]. }
  destruct (gap (callbacks_ r)); split; cbn; try done; try lia.
  - apply events_ok_call; [|done..]. intros v [= <-]. eapply (ok_stored _ _ _ _ He). by eapply list_elem_of_lookup_2.
  - by apply recovery_ok_call.
Qed.

Lemma open_ok n r : runtime_ok n r → runtime_ok (S n) (handle_connect r).
Proof using Type.
  intros Hok. unfold handle_connect. case_if; [apply (runtime_ok_frame n r); try done; destruct Hok; lia|].
  destruct Hok as [Hu Hw He Hr]. bools.
  match goal with E : recovery_generation_ r = websocket_generation_ r |- _ => rewrite E in * end.
  destruct (recovered (callbacks_ r)); split; cbn; try done; try lia.
  - by apply events_ok_call.
  - by apply recovery_ok_recovered.
  - by eapply recovery_ok_reset.
Qed.

Lemma close_ok n r code reason :
  Z.of_nat n < 2 ^ 64 - 1 → runtime_ok n r → runtime_ok (S n) (handle_close code reason r).
Proof using Type.
  intros Hn Hok. unfold handle_close. case_if; [apply (runtime_ok_frame n r); try done; destruct Hok; lia|].
  set (flagged := set_flags _ _ _ _ r).
  assert (Hf : runtime_ok n flagged) by (destruct Hok; by split).
  destruct (deactivate_frame n flagged Hn Hf) as (Hg & Ew & Er & Ek & Egp & Ec).
  assert (Hd : runtime_ok (S n) (emit [] [websocket_stop] (deactivate_stream flagged))).
  { apply (runtime_ok_frame n flagged); cbn; rewrite ?app_nil_r; done. }
  destruct (error _); [|done]. destruct Hd as [Hu Hw He Hr]. split; [done|done|..].
  - apply events_ok_call; [|done..]. by intros u [= <-].
  - by apply recovery_ok_call.
Qed.

Lemma worker_ok n r w :
  (∀ u, begun w = Some u → u ≤ stream_generation_ r) →
  (∀ u, u ≤ stream_generation_ r → in_flight w u = 0%nat) →
  runtime_ok n r → runtime_ok (S n) (set_threads w (gaps r) r).
Proof using Type.
  intros Hb Hf [Hu Hw He Hr]. split; cbn; [lia|lia| |done]. by eapply events_ok_worker.
Qed.

Lemma skip_ok n r : runtime_ok n r → runtime_ok (S n) r.
Proof using Type. intros [Hu Hw He Hr]. split; [lia|lia|done..]. Qed.

Lemma message_ok n r message g : runtime_ok n r → runtime_ok (S n) (handle_message message g r).
Proof using Type.
  intros Hok. unfold handle_message. case_if; [by apply skip_ok|]. destruct (parse_user_events message).
  - apply worker_ok; [by intros u [= <-]|done|done].
  - case_if; [|by apply skip_ok]. apply (runtime_ok_frame n r); cbn; rewrite ?app_nil_r; try done. destruct Hok. lia.
Qed.

Lemma check_event_ok n r u g events :
  runtime_ok n r → worker r = w_delivering u g events → runtime_ok (S n) (check_event u g events r).
Proof using Type.
  intros Hok Hw. unfold check_event. destruct events as [|e events]; [by apply worker_ok|].
  case_if; [|by apply worker_ok]. unfold stream_is_current in *. bools. subst u.
  apply worker_ok; [by intros v [= <-]| |done]. intros v Hv. cbn. rewrite decide_False by lia. done.
Qed.

Lemma call_event_ok n r u g event events threw :
  runtime_ok n r → worker r = w_calling u g event events → runtime_ok (S n) (call_event u g event events threw r).
Proof using Type.
  intros [Hu Hw He Hr] Hk. rewrite Hk in He. unfold call_event.
  assert (Hw' : ∀ w cs ds counted set_, (begun w = None ∨ begun w = Some u) → (∀ v, in_flight w v = 0%nat) →
    counted = set_counts cs ds r →
    runtime_ok (S n) (set_threads w (gaps r) (if set_ : bool then emit [event_call u event] [] counted else counted))).
  { intros w cs ds counted set_ Hb Hf ->. destruct set_; split; cbn; try lia; try done.
    - by eapply events_ok_event.
    - by apply recovery_ok_call.
    - by eapply events_ok_quiet. }
  assert (Hgap : ∀ (set_ : bool) cs ds, gaps (if set_ then emit [event_call u event] [] (set_counts cs ds r) else set_counts cs ds r) = gaps r)
    by (by intros []).
  destruct event; cbn -[set_threads emit set_counts]; case_if; rewrite Hgap; eapply Hw'; auto.
Qed.

Lemma runtime_step_ok n r r' : Z.of_nat n < 2 ^ 64 - 1 → runtime_ok n r → step r r' → runtime_ok (S n) r'.
Proof using Type.
  intros Hn Hok Hstep. pose proof (deactivate_frame n r Hn Hok) as (Hg & Ew & Er & Ek & Egp & Ec).
  destruct Hstep as [r f|r|r ok|r|r|r|r|r i g Hi|r i u g Hi|r|r code reason|r m g Hw|r u g es Hw|r u g e es threw Hw].
  - unfold update_callbacks. case_if; [|by apply skip_ok]. apply (runtime_ok_frame n r); try done. destruct Hok. cbn. lia.
  - unfold connect. case_if; [|by apply skip_ok]. apply (runtime_ok_frame n r); try done. destruct Hok. cbn. lia.
  - destruct ok; [by apply skip_ok|]. apply (runtime_ok_frame n r); cbn; rewrite ?app_nil_r; done.
  - apply (runtime_ok_frame n r); cbn; rewrite ?app_nil_r; done.
  - apply (runtime_ok_frame n r); cbn; rewrite ?app_nil_r; done.
  - unfold shutdown. case_if; [by apply skip_ok|]. set (flagged := set_flags _ _ _ _ r).
    assert (Hf : runtime_ok n flagged) by (destruct Hok; by split).
    destruct (deactivate_frame n flagged Hn Hf) as (? & ? & ? & ? & ? & ?).
    apply (runtime_ok_frame n flagged); cbn; rewrite ?app_nil_r; done.
  - destruct Hok as [Hu Hw He Hr]. rewrite !(u64_succ _ n) by lia. split; cbn; [lia|lia|..].
    + apply (events_ok_mono (stream_generation_ r) _ _ (gaps r)); [lia| |done].
      intros u g Hin. apply elem_of_app in Hin as [Hin|Hin]; [by left|]. by apply list_elem_of_singleton in Hin.
    + by apply recovery_ok_gap.
  - by apply store_gap_ok.
  - by apply call_gap_ok.
  - by apply open_ok.
  - by apply close_ok.
  - by apply message_ok.
  - by apply check_event_ok.
  - by apply call_event_ok.
Qed.

Lemma run_ok n r : nsteps step n create r → Z.of_nat n < 2 ^ 64 → runtime_ok n r.
Proof using Type.
  revert r. induction n as [|n IH]; intros r Hrun Hn; [inversion Hrun; apply create_ok|].
  apply nsteps_inv_r in Hrun as (r' & Hrun & Hstep). apply (runtime_step_ok n r'); [lia| |done]. apply IH; [done|lia].
Qed.

End Handlers.

(** An event in flight when a gap is reported, and the recovery after it. *)
Definition all_set : UserStreamCallbacks := MkCallbacks true true true true true.
Definition two_trades : JsonLibrary := {|
  json_parse text := Some (JArray [trade_event_json sample_trade; trade_event_json sample_trade]);
  json_dump _ := "0" |}.

Section Sample.
#[local] Existing Instance two_trades.
#[local] Existing Instance no_runtime.
#[local] Instance no_type_errors : JsonTypeErrors := λ _, "".

Definition sample_event : UserStreamEvent := TradeEvent sample_trade.
Definition run1 : UserStreamRuntime := Eval vm_compute in
  update_callbacks (λ _, all_set) create.
Definition run2 : UserStreamRuntime := Eval vm_compute in
  connect run1.
Definition run3 : UserStreamRuntime := Eval vm_compute in
  handle_message "trades" 0 run2.
Definition run4 : UserStreamRuntime := Eval vm_compute in
  check_event 0 0 [sample_event; sample_event] run3.
Definition run5 : UserStreamRuntime := Eval vm_compute in
  set_threads (UserStream.worker run4) (gaps run4 ++ [g_entered (u64 (websocket_generation_ run4 + 1))])
    (set_generations (stream_generation_ run4) (recovery_generation_ run4) (u64 (websocket_generation_ run4 + 1)) run4).
Definition run6 : UserStreamRuntime := Eval vm_compute in
  store_gap 0 1 run5.
Definition run7 : UserStreamRuntime := Eval vm_compute in
  call_gap 0 1 1 run6.
Definition run8 : UserStreamRuntime := Eval vm_compute in
  call_event 0 0 sample_event [sample_event] false run7.
Definition run9 : UserStreamRuntime := Eval vm_compute in
  handle_connect run8.

Lemma sample_run_steps : nsteps step 9 create run9.
Proof.
  assert (step create run1) as S1 by (replace run1 with (update_callbacks (λ _, all_set) create) by (by vm_compute); apply step_callbacks).
  assert (step run1 run2) as S2 by (replace run2 with (connect run1) by (by vm_compute); apply step_connect).
  assert (step run2 run3) as S3 by (replace run3 with (handle_message "trades" 0 run2) by (by vm_compute); by apply step_message).
  assert (step run3 run4) as S4 by (replace run4 with (check_event 0 0 [sample_event; sample_event] run3) by (by vm_compute); by apply step_check).
  assert (step run4 run5) as S5 by (replace run5 with (set_threads (UserStream.worker run4) (gaps run4 ++ [g_entered (u64 (websocket_generation_ run4 + 1))]) (set_generations (stream_generation_ run4) (recovery_generation_ run4) (u64 (websocket_generation_ run4 + 1)) run4)) by (by vm_compute); apply step_gap).
  assert (step run5 run6) as S6 by (replace run6 with (store_gap 0 1 run5) by (by vm_compute); by apply step_store).
  assert (step run6 run7) as S7 by (replace run7 with (call_gap 0 1 1 run6) by (by vm_compute); by apply step_call_gap).
  assert (step run7 run8) as S8 by (replace run8 with (call_event 0 0 sample_event [sample_event] false run7) by (by vm_compute); by apply step_event).
  assert (step run8 run9) as S9 by (replace run9 with (handle_connect run8) by (by vm_compute); apply step_open).
  repeat (eapply nsteps_l; [eassumption|]). apply nsteps_O.
Qed.

End Sample.
