(* ===== verification/SafeRelayer.v ===== *)
(** * Safe transactions through the relayer (src/safe_relayer.cpp)

    The address of a Safe, the single call that carries a batch (a DELEGATECALL
    into MultiSend over packed calls), the EIP-712 digest of a Safe transaction
    and its signature, the payload submitted to the relayer, which rejections are
    retried, and the reading of the relayer's answers.  [multisend_decode] is a
    reference for what the MultiSend contract executes. *)
From Stdlib Require Import Ascii String.
From S2P Require Import Prelude Text EvmBytes Crypto EvmAbi EvmTransaction Sdk RestParsing PositionCalls Positions JsonRpc.

#[local] Open Scope Z_scope.

Definition kSafeOperationCall : Z := 0.
Definition kSafeOperationDelegateCall : Z := 1.
Definition kZeroAddress : string := to_hex (replicate 20 0).

Record SafeCall := MkSafeCall { safe_call : ContractCall; operation : Z }.

Record RelayerTransaction := MkRelayerTransaction {
  relayer_id : string;
  relayer_hash : string;
  relayer_state : string;
  error_message : string }.

(** [RelayerRequestError]: the endpoint, the status and the body of the answer. *)
Record RelayerRequestError := MkRequestError {
  error_endpoint : string;
  error_status : Z;
  error_body : string }.

(** ** Building a transaction *)

Definition address_bytes (address label : string) : res (list Z) :=
  bytes ← match from_hex address with
          | Throw (invalid_argument _) => Ok []
          | r => r
          end;
  require (bool_decide (length bytes = 20%nat))
    (invalid_argument (label +:+ " must be a 20-byte address"));;
  Ok bytes.

Definition to_upper (c : ascii) : ascii := if in_range "a" "z" c then chr (code c - 32) else c.

Definition is_digits (text : string) : bool :=
  negb (bool_decide (chars text = [])) && forallb is_decimal (chars text).

(** [a < b] of [std::string]. *)
Fixpoint string_ltb (a b : list ascii) : bool :=
  match a, b with
  | _, [] => false
  | [], _ :: _ => true
  | x :: a, y :: b =>
      if code x <? code y then true else if code y <? code x then false else string_ltb a b
  end.

Definition decimal_less (a b : list ascii) : bool :=
  let a := skip_zeros a in
  let b := skip_zeros b in
  if negb (bool_decide (length a = length b)) then bool_decide (length a < length b)%nat
  else string_ltb a b.

Section Safe.
Context `{K : Keccak}.

Definition checksum_address (address : list Z) : string :=
  let lower := hex_chars address in
  let hash := keccak256 (map code lower) in
  str ("0"%char :: "x"%char ::
       imap (λ i c,
         let nibble := Z.land (Z.shiftr (nth (i / 2) hash 0) (if Nat.even i then 4 else 0)) 15 in
         if 8 <=? nibble then to_upper c else c) lower).

Definition derive_safe_address (owner : string) (contracts : PolymarketContracts) : res string :=
  owner ← address owner;
  let salt := keccak256 (evm_abi_encode [owner]) in
  factory ← address_bytes (safe_factory contracts) "safe_factory";
  init_code_hash ← from_hex (safe_init_code_hash contracts);
  Ok (checksum_address (drop 12 (keccak256 ([255] ++ factory ++ salt ++ init_code_hash)))).

Definition packed_call (call : ContractCall) : res (list Z) :=
  data ← from_hex (call_data call);
  target ← address_bytes (call_to call) "call target";
  value ← parse_uint256_word (call_value call);
  Ok ([kSafeOperationCall] ++ target ++ value ++ uint256_word (Z.of_nat (length data)) ++ data).

Fixpoint packed_calls (calls : list ContractCall) : res (list Z) :=
  match calls with
  | [] => Ok []
  | call :: calls =>
      first ← packed_call call;
      rest ← packed_calls calls;
      Ok (first ++ rest)
  end.

Definition encode_safe_multisend (calls : list ContractCall) (multisend : string) : res ContractCall :=
  require (negb (bool_decide (length calls = O)))
    (invalid_argument "MultiSend needs at least one call");;
  packed ← packed_calls calls;
  Ok (call_of multisend (evm_abi_encode_call "multiSend(bytes)" [Bytes packed])).

Definition resolve_safe_call (calls : list ContractCall) (contracts : PolymarketContracts)
    : res SafeCall :=
  match calls with
  | [] => Throw (invalid_argument "a Safe transaction needs at least one call")
  | [call] => Ok (MkSafeCall call kSafeOperationCall)
  | _ =>
      call ← encode_safe_multisend calls (safe_multisend contracts);
      Ok (MkSafeCall call kSafeOperationDelegateCall)
  end.

Definition hash_of_text (text : string) : list Z := keccak256 (bytes_of_string text).

Definition DOMAIN_TYPE : string := "EIP712Domain(uint256 chainId,address verifyingContract)".
Definition SAFE_TX_TYPE : string :=
  "SafeTx(address to,uint256 value,bytes data,uint8 operation,uint256 safeTxGas," +:+
  "uint256 baseGas,uint256 gasPrice,address gasToken,address refundReceiver,uint256 nonce)".

(** The members of the domain and of the SafeTx struct. *)
Definition safe_domain (safe : string) (chain_id : Z) : res (list EvmAbiValue) :=
  type_hash ← bytes32 (to_hex (hash_of_text DOMAIN_TYPE));
  chain ← uint256_u64 chain_id;
  contract ← address safe;
  Ok [type_hash; chain; contract].

Definition safe_struct (c : SafeCall) (nonce : string) : res (list EvmAbiValue) :=
  type_hash ← bytes32 (to_hex (hash_of_text SAFE_TX_TYPE));
  to ← address (call_to (safe_call c));
  value ← uint256 (call_value (safe_call c));
  data ← from_hex (call_data (safe_call c));
  data_hash ← bytes32 (to_hex (keccak256 data));
  op ← unsigned_integer_u64 (operation c) 8;
  safe_tx_gas ← uint256_u64 0;
  base_gas ← uint256_u64 0;
  gas_price ← uint256_u64 0;
  gas_token ← address kZeroAddress;
  refund_receiver ← address kZeroAddress;
  nonce ← uint256 nonce;
  Ok [type_hash; to; value; data_hash; op; safe_tx_gas; base_gas; gas_price; gas_token;
      refund_receiver; nonce].

Definition safe_transaction_digest (safe : string) (chain_id : Z) (c : SafeCall) (nonce : string)
    : res (list Z) :=
  domain ← safe_domain safe chain_id;
  members ← safe_struct c nonce;
  Ok (keccak256 ([25; 1] ++ keccak256 (evm_abi_encode domain) ++ keccak256 (evm_abi_encode members))).

Definition ethereum_prefix : list Z :=
  25 :: bytes_of_string "Ethereum Signed Message:" ++ [10] ++ bytes_of_string "32".

Context `{R : RecoverableSigner}.

Definition sign_safe_digest (private_key digest : list Z) : res string :=
  text ← sign_hash private_key (keccak256 (ethereum_prefix ++ digest));
  signature ← from_hex text;
  let last := nth 64 signature 0 in
  require (bool_decide (length signature = 65%nat) && ((last =? 27) || (last =? 28)))
    (runtime_error "signer returned an unexpected signature layout");;
  Ok (to_hex (take 64 signature ++ [(last + 4) mod 256])).

Definition build_safe_payload (signer_address safe : string) (c : SafeCall)
    (nonce signature metadata : string) : res json :=
  zero ← uint256_is_zero (call_value (safe_call c));
  Ok (JObject
    ([("type", JString "SAFE"); ("from", JString signer_address);
      ("to", JString (call_to (safe_call c))); ("proxyWallet", JString safe);
      ("data", JString (call_data (safe_call c))); ("nonce", JString nonce);
      ("signature", JString signature); ("metadata", JString metadata);
      ("signatureParams",
        JObject [("baseGas", JString "0"); ("gasPrice", JString "0");
                 ("gasToken", JString kZeroAddress);
                 ("operation", JString (to_string (operation c)));
                 ("refundReceiver", JString kZeroAddress); ("safeTxnGas", JString "0")])] ++
     (if (zero : bool) then [] else [("value", JString (call_value (safe_call c)))]))).
End Safe.

(** ** Rejections that are retried

    The three regular expressions, searched without regard to case. *)

Fixpoint strip_prefix_ci (prefix cs : list ascii) : option (list ascii) :=
  match prefix, cs with
  | [], _ => Some cs
  | p :: prefix, c :: cs =>
      if bool_decide (to_lower p = to_lower c) then strip_prefix_ci prefix cs else None
  | _ :: _, [] => None
  end.

(** [regex_search] of an expression given by what it matches at a position. *)
Fixpoint search {A} (matches : list ascii → option A) (cs : list ascii) : option A :=
  match matches cs with
  | Some a => Some a
  | None => match cs with [] => None | _ :: cs => search matches cs end
  end.

(** [.] matches all but line terminators. *)
Definition is_line_end (c : ascii) : bool := bool_decide (c = chr 10) || bool_decide (c = chr 13).
Fixpoint search_line {A} (matches : list ascii → option A) (cs : list ascii) : option A :=
  match matches cs with
  | Some a => Some a
  | None => match cs with
            | c :: cs => if is_line_end c then None else search_line matches cs
            | [] => None
            end
  end.

Definition busy (cs : list ascii) : option (list ascii) :=
  rest ← strip_prefix_ci (chars "wallet busy") cs;
  search_line (strip_prefix_ci (chars "active action")) rest.
Definition in_flight : list ascii → option (list ascii) :=
  strip_prefix_ci (chars "wallet has in-flight action").

(** [\s+] and [\d+]: all of the characters of the class, at least one. *)
Definition is_space (c : ascii) : bool := bool_decide (c = " "%char) || in_range (chr 9) (chr 13) c.
Fixpoint span (p : ascii → bool) (cs : list ascii) : list ascii * list ascii :=
  match cs with
  | c :: cs' => if p c then let '(a, b) := span p cs' in (c :: a, b) else ([], cs)
  | [] => ([], [])
  end.
Definition span1 (p : ascii → bool) (cs : list ascii) : option (list ascii * list ascii) :=
  match span p cs with ([], _) => None | r => Some r end.

Definition nonce_mismatch (cs : list ascii) : option (list ascii * list ascii) :=
  cs ← strip_prefix_ci (chars "batch nonce") cs;
  '(_, cs) ← span1 is_space cs;
  '(first, cs) ← span1 is_decimal cs;
  '(_, cs) ← span1 is_space cs;
  cs ← strip_prefix_ci (chars "does not match on-chain nonce") cs;
  '(_, cs) ← span1 is_space cs;
  '(second, _) ← span1 is_decimal cs;
  Some (first, second).

Definition is_retryable_submit_error (error : RelayerRequestError) : bool :=
  if error_status error =? 429 then true
  else if negb (error_status error =? 400) then false
  else
    let body := chars (error_body error) in
    bool_decide (is_Some (search busy body)) || bool_decide (is_Some (search in_flight body)) ||
    match search nonce_mismatch body with
    | Some (batch, on_chain) => decimal_less batch on_chain
    | None => false
    end.

(** ** The relayer's answers *)

Inductive relayer_error :=
  | relayer_exception (e : exn)
  | request_failed (e : RelayerRequestError).

Section Answers.
Context `{JsonLibrary}.

Definition invalid_relayer_response (endpoint reason : string) : relayer_error :=
  relayer_exception (runtime_error ("invalid relayer response from " +:+ endpoint +:+ ": " +:+ reason)).

Definition parse_relayer (response : HttpResponse) (endpoint : string) : json + relayer_error :=
  if (status_code response <? 200) || (300 <=? status_code response) then
    inr (request_failed (MkRequestError endpoint (status_code response)
           (if bool_decide (body response = "") then error response else body response)))
  else
    match json_parse (body response) with
    | None => inr (invalid_relayer_response endpoint "not JSON")
    | Some j => if is_object j then inl j else inr (invalid_relayer_response endpoint "not an object")
    end.

Definition string_field (j : json) (key endpoint : string) (required : bool) : string + relayer_error :=
  match json_field j key, required with
  | Some (JString text), _ => inl text
  | None, false | Some JNull, false => inl ""
  | _, _ => inr (invalid_relayer_response endpoint (key +:+ " is missing or not a string"))
  end.

Definition safe_nonce_endpoint : string := "/v1/account/transactions/params".
Definition submit_endpoint : string := "/submit".
Definition transaction_endpoint (id : string) : string := "/v1/account/transactions/" +:+ id.

Definition safe_nonce_of (response : HttpResponse) : string + relayer_error :=
  match parse_relayer response safe_nonce_endpoint with
  | inr e => inr e
  | inl j =>
      match string_field j "nonce" safe_nonce_endpoint true with
      | inr e => inr e
      | inl nonce =>
          if is_digits nonce then inl nonce
          else inr (invalid_relayer_response safe_nonce_endpoint "nonce is not numeric")
      end
  end.

Definition submitted_of (response : HttpResponse) : RelayerTransaction + relayer_error :=
  match parse_relayer response submit_endpoint with
  | inr e => inr e
  | inl j =>
      match string_field j "transactionID" submit_endpoint true,
            string_field j "transactionHash" submit_endpoint false,
            string_field j "state" submit_endpoint true with
      | inr e, _, _ | inl _, inr e, _ | inl _, inl _, inr e => inr e
      | inl id, inl hash, inl state =>
          if bool_decide (id = "") then inr (invalid_relayer_response submit_endpoint "empty transactionID")
          else inl (MkRelayerTransaction id hash state "")
      end
  end.

Definition transaction_of (id : string) (response : HttpResponse) : RelayerTransaction + relayer_error :=
  let endpoint := transaction_endpoint id in
  match parse_relayer response endpoint with
  | inr e => inr e
  | inl j =>
      match json_field j "transaction_hash" with
      | None => inr (invalid_relayer_response endpoint "missing transaction_hash")
      | Some _ =>
          match string_field j "transaction_id" endpoint true,
                string_field j "transaction_hash" endpoint false,
                string_field j "state" endpoint true,
                string_field j "error_msg" endpoint false with
          | inr e, _, _, _ | inl _, inr e, _, _ | inl _, inl _, inr e, _
          | inl _, inl _, inl _, inr e => inr e
          | inl id, inl hash, inl state, inl message =>
              inl (MkRelayerTransaction id hash state message)
          end
      end
  end.
End Answers.

(** ** What the MultiSend contract executes

    The packed bytes are a sequence of transactions: an operation byte, a 20-byte
    target, a value and a length of one word each, and the data. *)
Record Action := MkAction {
  action_operation : Z;
  action_target : list Z;
  action_value : Z;
  action_data : list Z }.

Fixpoint multisend_decode (fuel : nat) (packed : list Z) : option (list Action) :=
  match packed, fuel with
  | [], _ => Some []
  | _ :: _, O => None
  | op :: rest, S fuel =>
      let size := word_val (take 32 (drop 52 rest)) in
      let data := drop 84 rest in
      if bool_decide (length rest < 84)%nat || (Z.of_nat (length data) <? size) then None
      else
        actions ← multisend_decode fuel (drop (Z.to_nat size) data);
        Some (MkAction op (take 20 rest) (word_val (take 32 (drop 20 rest))) (take (Z.to_nat size) data)
              :: actions)
  end.

(** The action is the CALL the client was given. *)
Definition acts (a : Action) (call : ContractCall) : Prop :=
  action_operation a = kSafeOperationCall ∧
  names_address (call_to call) (action_target a) ∧
  denotes (call_value call) (action_value a) ∧
  from_hex (call_data call) = Ok (action_data a).

Lemma address_bytes_named text label bytes :
  address_bytes text label = Ok bytes → names_address text bytes.
Proof.
  unfold address_bytes. intros (b & Hb & (? & Hl%require_Ok & [= <-])%bind_Ok)%bind_Ok.
  apply bool_decide_eq_true in Hl. destruct (from_hex text) as [b'|[]] eqn:E; simplify_eq; try done.
  split; [done|]. split; [by eapply hex_text_bytes|done].
Qed.

Lemma packed_call_decoded call bytes rest fuel :
  packed_call call = Ok bytes → Z.of_nat (length bytes) < 2 ^ 63 →
  ∃ a, acts a call ∧ Forall is_byte bytes ∧
    multisend_decode (S fuel) (bytes ++ rest) = cons a <$> multisend_decode fuel rest.
Proof.
  unfold packed_call. intros (data & Hdata & (target & Ht%address_bytes_named & (value & Hv & Hbytes)%bind_Ok)%bind_Ok)%bind_Ok Hl.
  assert (bytes = [kSafeOperationCall] ++ target ++ value ++ uint256_word (Z.of_nat (length data)) ++ data)
    as -> by congruence. clear Hbytes.
  destruct (parse_uint256_word_wf _ _ Hv) as [Hvb Hvl]. pose proof Ht as (_ & Htb & Htl).
  rewrite !length_app, uint256_word_length, Htl, Hvl in Hl. cbn [length] in Hl.
  exists (MkAction kSafeOperationCall target (word_val value) data).
  split; [split; [done|]; split; [done|]; split; [by exists value|done]|].
  split.
  { apply Forall_cons. split; [done|]. rewrite !Forall_app. split_and!; try done.
    - apply uint256_word_bytes.
    - by eapply hex_text_bytes. }
  rewrite <- !app_assoc. cbn [multisend_decode app].
  set (tail := data ++ rest).
  assert (drop 52 (target ++ value ++ uint256_word (Z.of_nat (length data)) ++ tail) =
          uint256_word (Z.of_nat (length data)) ++ tail) as H52.
  { rewrite (app_assoc target value). apply drop_app_length'. rewrite length_app. lia. }
  assert (drop 84 (target ++ value ++ uint256_word (Z.of_nat (length data)) ++ tail) = tail) as H84.
  { rewrite (app_assoc target value), app_assoc. apply drop_app_length'.
    rewrite !length_app, uint256_word_length. lia. }
  assert (word_val (take 32 (uint256_word (Z.of_nat (length data)) ++ tail)) = Z.of_nat (length data)) as Hn.
  { rewrite (take_app_length' (uint256_word (Z.of_nat (length data)))) by (by rewrite uint256_word_length).
    rewrite uint256_word_spec, word_val_of by (unfold is_u64, u64_max; lia). done. }
  rewrite H52, H84, Hn.
  rewrite bool_decide_false by (rewrite !length_app, uint256_word_length; lia).
  subst tail. rewrite length_app. destruct (Z.ltb_spec (Z.of_nat (length data + length rest)) (Z.of_nat (length data))); [lia|].
  cbn [orb]. rewrite Nat2Z.id, drop_app_length, take_app_length by done.
  rewrite take_app_length' by done. rewrite (drop_app_length' target) by done.
  rewrite take_app_length' by done. done.
Qed.

Lemma packed_calls_decoded calls : ∀ packed fuel,
  packed_calls calls = Ok packed → Z.of_nat (length packed) < 2 ^ 63 → (length calls ≤ fuel)%nat →
  Forall is_byte packed ∧
  ∃ actions, multisend_decode fuel packed = Some actions ∧ Forall2 acts actions calls.
Proof.
  induction calls as [|call calls IH]; intros packed fuel H Hl Hf; cbn [packed_calls] in H.
  { injection H as <-. split; [constructor|]. exists []. by destruct fuel. }
  apply bind_Ok in H as (first & Hfirst & (rest & Hrest & [= <-])%bind_Ok).
  rewrite length_app in Hl. destruct fuel as [|fuel]; cbn in Hf; [lia|].
  destruct (IH rest fuel Hrest ltac:(lia) ltac:(lia)) as (Hb & actions & Hd & Ha).
  destruct (packed_call_decoded call first rest fuel Hfirst ltac:(lia)) as (a & Hact & Hb1 & E).
  split; [by apply Forall_app|]. exists (a :: actions). rewrite E, Hd. split; [done|by constructor].
Qed.

Lemma packed_calls_length calls packed :
  packed_calls calls = Ok packed → (length calls ≤ length packed)%nat.
Proof.
  revert packed. induction calls as [|call calls IH]; intros packed H; cbn [packed_calls] in H; [cbn; lia|].
  apply bind_Ok in H as (first & Hfirst & (rest & Hrest & [= <-])%bind_Ok).
  unfold packed_call in Hfirst. apply bind_Ok in Hfirst as (data & _ & (to & _ & (value & _ & Hfirst)%bind_Ok)%bind_Ok).
  assert (first = [kSafeOperationCall] ++ to ++ value ++ uint256_word (Z.of_nat (length data)) ++ data)
    as -> by congruence. rewrite !length_app. cbn [length]. pose proof (IH _ Hrest). lia.
Qed.

Lemma packed_encoding_length packed :
  Z.of_nat (length packed) < 2 ^ 63 → Z.of_nat (length (evm_abi_encode [Bytes packed])) < 2 ^ 64.
Proof.
  intros Hl. unfold evm_abi_encode. rewrite append_sequence_length.
  assert (heads_length (encode_all [Bytes packed]) = 32%nat) as -> by done.
  unfold encode_all, sequence_tails. cbn [map flat_map is_dynamic]. rewrite app_nil_r.
  enough (length (append_encoding (Bytes packed)) ≤ 64 + length packed)%nat by lia.
  cbn [append_encoding]. rewrite length_app, uint256_word_length. unfold append_padded.
  case_bool_decide; [lia|]. rewrite length_app, length_replicate. unfold kWordSize in *. lia.
Qed.

(** C28: The one call a Safe makes for a batch carries the batch: it is a
    DELEGATECALL of [multiSend(bytes)] on the MultiSend contract without value, and
    decoding its argument as MultiSend does yields one CALL per requested call, in
    order, with the same target, value and data; a batch of one is that call
    itself. *)
Theorem safe_batch_decodes `{Keccak} calls contracts target c :
  names_address (safe_multisend contracts) target →
  (∀ packed, packed_calls calls = Ok packed → Z.of_nat (length packed) < 2 ^ 63) →
  resolve_safe_call calls contracts = Ok c →
  (calls = [safe_call c] ∧ operation c = kSafeOperationCall) ∨
  (2 ≤ length calls)%nat ∧ operation c = kSafeOperationDelegateCall ∧ call_value (safe_call c) = "0" ∧
  ∃ arguments packed actions,
    calldata (safe_call c) = Some (target, selector "multiSend(bytes)", arguments) ∧
    abi_decode [TBytes] arguments = Some [Bytes packed] ∧
    multisend_decode (length packed) packed = Some actions ∧ Forall2 acts actions calls.
Proof.
  intros (Ht & _) Hsize Hc. destruct calls as [|first [|second calls]]; [done|injection Hc as <-; by left|].
  right. split; [cbn; lia|]. cbn [resolve_safe_call] in Hc.
  apply bind_Ok in Hc as (call & (? & _ & (packed & Hp & [= <-])%bind_Ok)%bind_Ok & [= <-]).
  split; [done|]. split; [done|]. cbn [safe_call].
  destruct (packed_calls_decoded _ packed (length packed) Hp (Hsize _ Hp) (packed_calls_length _ _ Hp))
    as (Hb & actions & Hd & Ha).
  exists (evm_abi_encode [Bytes packed]), packed, actions.
  split; [by apply calldata_call; [done|constructor]|].
  split; [|done]. rewrite <- (app_nil_r (evm_abi_encode _)). apply read_members.
  - constructor; [by apply read_type_reads|constructor].
  - by apply packed_encoding_length, Hsize.
Qed.

(** ** Witness *)

Definition sample_batch : list ContractCall :=
  [MkCall (collateral_token polygon_mainnet) "0x095ea7b3" "0";
   MkCall (conditional_tokens polygon_mainnet) "0x" "0x10"].

Lemma safe_batch_decodes_witness :
  let c := match resolve_safe_call sample_batch polygon_mainnet with
           | Ok c => c | Throw _ => MkSafeCall (MkCall "" "" "") 0 end in
  (sample_batch = [safe_call c] ∧ operation c = kSafeOperationCall) ∨
  (2 ≤ length sample_batch)%nat ∧ operation c = kSafeOperationDelegateCall ∧
  call_value (safe_call c) = "0" ∧
  ∃ arguments packed actions,
    calldata (safe_call c) =
      Some (hex_address (safe_multisend polygon_mainnet), selector "multiSend(bytes)", arguments) ∧
    abi_decode [TBytes] arguments = Some [Bytes packed] ∧
    multisend_decode (length packed) packed = Some actions ∧ Forall2 acts actions sample_batch.
Proof.
  intros c. apply (safe_batch_decodes sample_batch polygon_mainnet).
  - split; [by vm_compute|split; [|by vm_compute]]. repeat constructor; by vm_compute.
  - intros packed H.
    assert (packed = match packed_calls sample_batch with Ok p => p | Throw _ => [] end) as -> by by rewrite H.
    by vm_compute.
  - by vm_compute.
Defined.
