(* ===== verification/PositionClient.v ===== *)
(** * Sending position transactions
    (src/position_client.cpp, position_senders.cpp, position_gamma.cpp,
    trading_approvals.cpp, transaction_handle.cpp)

    [PositionClient]: the market a condition belongs to, the operations that turn
    it into calls, and the two ways the calls are sent: one signed transaction
    after another from an EOA, or one Safe transaction through the relayer.  One
    thread uses the client ([send_mutex] makes sending exclusive).  What the node,
    the relayer and Gamma answer, how long requests take and how much longer than
    asked a sleep lasts are the environment, indexed by the number of earlier
    requests and sleeps; the paged Gamma lookup and the retries of rate-limited
    reads are answered as a whole.  Times are nanoseconds of the steady clock,
    intervals milliseconds.  A wait has fuel for every poll its deadline allows. *)
From Stdlib Require Import Ascii String.
From S2P Require Import Prelude Text EvmBytes Crypto EvmAbi Sdk RestParsing PositionCalls JsonRpc SafeRelayer.
From S2P Require EvmTransaction OrderSigner.

#[local] Open Scope Z_scope.

(** ** State, errors and environment *)

Inductive position_request :=
  | rpc_post (method : string) (params : list json)
  | relayer_get (endpoint : string)
  | relayer_post (endpoint : string) (payload : json)
  | gamma_get (condition_id : string) (closed_only : bool)
  | pause (ms : Z).

(** The parts of [PositionClient::Impl] that do not change. *)
Record PositionImpl := MkImpl {
  contracts : PolymarketContracts;
  signer_key : list Z;
  signer_address : string;
  wallet : string;
  wallet_type : Z;
  relayer_retry_delay : Z;
  relayer_max_submit_retries : Z }.

Record PositionState := MkState {
  chain_verified : bool;
  next_id : Z;
  journal : list position_request;   (** requests and sleeps so far *)
  time : Z }.

(** The exceptions a caller sees. *)
Inductive position_error :=
  | plain (e : exn)
  | relayer_rejected (e : RelayerRequestError)
  | reverted (transaction_hash : string) (receipt : EvmTransactionReceipt)
  | failed (transaction_id state message : string)
  | timed_out (transaction_reference : string)
  | partial_batch (submitted_hashes : list string) (failed_call_index call_count : nat)
      (cause : position_error).

Inductive Waiter :=
  | receipt_waiter (transaction_hash : string)
  | relayer_waiter (transaction_id submit_hash : string).

Record TransactionHandle := MkHandle {
  transaction_hashes : list string;
  transaction_id : string;
  waiter : Waiter }.

Record TransactionOutcome := MkOutcome {
  outcome_hash : string;
  outcome_id : string;
  outcome_receipt : EvmTransactionReceipt }.

Record MergePositionRequest := MkMergeRequest { merge_condition_id : string; merge_amount : string }.

Class PositionWorld := {
  answer : nat → position_request → HttpResponse;
  gamma_markets : nat → string → bool → Result (list json);
  request_time : nat → Z;
  oversleep : nat → Z }.

(** ** The monad: [None] when a wait runs out of fuel *)

Definition pos (A : Type) : Type := PositionState → option (PositionState * (A + position_error)).

#[export] Instance pos_ret : MRet pos := λ A a s, Some (s, inl a).
#[export] Instance pos_bind : MBind pos := λ A B f m s,
  match m s with
  | Some (s, inl a) => f a s
  | Some (s, inr e) => Some (s, inr e)
  | None => None
  end.

Definition raise {A} (e : position_error) : pos A := λ s, Some (s, inr e).
Definition lift {A} (m : res A) : pos A := λ s,
  Some (s, match m with Ok a => inl a | Throw e => inr (plain e) end).
Definition gets {A} (f : PositionState → A) : pos A := λ s, Some (s, inl (f s)).
Definition try {A} (m : pos A) : pos (A + position_error) := λ s,
  match m s with Some (s, r) => Some (s, inl r) | None => None end.

Definition relayer_failure (e : relayer_error) : position_error :=
  match e with relayer_exception e => plain e | request_failed e => relayer_rejected e end.

Record PositionClientConfig := MkConfig {
  config_private_key : string;
  config_rpc_url : string;
  config_contracts : PolymarketContracts;
  config_wallet_type : Z;
  config_funder_address : string;
  config_relayer_api_key : string;
  config_relayer_retry_delay_ms : Z;
  config_relayer_max_submit_retries : Z;
  config_rate_limit_retry : option RateLimitRetry }.

(** [static_cast<int>] *)
Definition to_int (z : Z) : Z := (z + 2 ^ 31) mod 2 ^ 32 - 2 ^ 31.

(** The constructors of [PositionClient] and [PositionClient::Impl]. *)
Definition make_position_client `{Keccak, RecoverableSigner} (config : PositionClientConfig)
    : res (PositionImpl * PositionState) :=
  validate (config_contracts config);;
  require (negb (bool_decide (config_rpc_url config = "")))
    (invalid_argument "PositionClientConfig.rpc_url is required");;
  let contracts := config_contracts config in
  signer ← OrderSigner.make_signer (config_private_key config) (to_int (contracts_chain_id contracts));
  match config_rate_limit_retry config with
  | Some policy => validate_rate_limit_retry policy
  | None => Ok tt
  end;;
  let address := OrderSigner.address_ signer in
  let eoa := config_wallet_type config =? OrderSigner.EOA in
  wallet ←
    (if eoa then Ok address
     else if config_wallet_type config =? OrderSigner.POLY_GNOSIS_SAFE then
       wallet ← derive_safe_address address contracts;
       require (negb (bool_decide (config_relayer_api_key config = "")))
         (invalid_argument "POLY_GNOSIS_SAFE needs relayer_api_key");;
       Ok wallet
     else Throw (invalid_argument "PositionClient supports EOA and POLY_GNOSIS_SAFE wallets"));
  let funder := config_funder_address config in
  require (bool_decide (funder = "") ||
           bool_decide (evm_normalize_hex funder = evm_normalize_hex wallet))
    (invalid_argument ("funder_address " +:+ funder +:+ " is not the " +:+
       (if eoa then "signer address " else "Safe ") +:+ wallet +:+ " controlled by this key"));;
  Ok (MkImpl contracts (OrderSigner.private_key_ signer) address wallet (config_wallet_type config)
        (config_relayer_retry_delay_ms config) (config_relayer_max_submit_retries config),
      MkState false 1 [] 0).

Section Client.
Context `{JsonLibrary, JsonTypeErrors, Keccak, RecoverableSigner, World : PositionWorld}.

(** A request, and the time it takes. *)
Definition requested (r : position_request) (s : PositionState) : PositionState :=
  MkState (chain_verified s) (next_id s) (journal s ++ [r]) (time s + request_time (length (journal s))).
Definition ask (r : position_request) : pos HttpResponse := λ s,
  Some (requested r s, inl (answer (length (journal s)) r)).

(** [EvmJsonRpcHttpClient::call]: the id of a request is the counter's value. *)
Definition rpc_call (method : string) (params : list json) : pos json := λ s,
  let id := next_id s in
  let r := rpc_post method params in
  let s' := requested r s in
  Some (MkState (chain_verified s') (u64 (id + 1)) (journal s') (time s'),
        match rpc_result (answer (length (journal s)) r) id with
        | Ok j => inl j
        | Throw e => inr (plain e)
        end).

Definition nanoseconds (ms : Z) : Z := ms * 1000000.

Definition sleep_for (ms : Z) : pos unit := λ s,
  Some (MkState (chain_verified s) (next_id s) (journal s ++ [pause ms])
          (time s + nanoseconds (Z.max 0 ms) + oversleep (length (journal s))), inl tt).

(** ** Node calls *)

Definition get_chain_id : pos Z := j ← rpc_call "eth_chainId" []; lift (chain_id_of j).
Definition get_transaction_count (address block_tag : string) : pos string :=
  j ← rpc_call "eth_getTransactionCount" [JString address; JString block_tag];
  lift (expect_quantity j "eth_getTransactionCount").
Definition gas_price : pos string :=
  j ← rpc_call "eth_gasPrice" []; lift (expect_quantity j "eth_gasPrice").
Definition estimate_gas (r : EvmCallRequest) : pos string :=
  j ← rpc_call "eth_estimateGas" [call_request_json r]; lift (expect_quantity j "eth_estimateGas").
Definition eth_call (r : EvmCallRequest) : pos string :=
  j ← rpc_call "eth_call" [call_request_json r; JString "latest"]; lift (call_data_of j).
Definition send_raw_transaction (raw : string) : pos string :=
  j ← rpc_call "eth_sendRawTransaction" [JString raw]; lift (sent_hash_of j).
Definition get_transaction_receipt (hash : string) : pos (option EvmTransactionReceipt) :=
  j ← rpc_call "eth_getTransactionReceipt" [JString hash]; lift (receipt_of j).

(** ** Waiting (poll_deadline.hpp, transaction_handle.cpp) *)

Definition remaining (deadline : Z) (s : PositionState) : Z :=
  Z.max 0 (- ((time s - deadline) / 1000000)).

Definition sleep_before_next_poll (deadline poll_interval : Z) : pos bool := λ s,
  if deadline <=? time s then Some (s, inl false)
  else (sleep_for (Z.min poll_interval (remaining deadline s));; mret true) s.

(** Polls before a deadline: one per interval, one at the deadline and one after. *)
Definition poll_fuel (timeout poll_interval : Z) : nat :=
  S (Z.to_nat ((nanoseconds timeout + nanoseconds poll_interval - 1) / nanoseconds poll_interval)).

Fixpoint receipt_loop (fuel : nat) (hash : string) (deadline poll_interval : Z)
    : pos TransactionOutcome :=
  match fuel with
  | O => λ _, None
  | S fuel =>
      receipt ← get_transaction_receipt hash;
      match receipt with
      | Some receipt =>
          if receipt_success receipt then mret (MkOutcome hash "" receipt)
          else raise (reverted hash receipt)
      | None =>
          slept ← sleep_before_next_poll deadline poll_interval;
          if (slept : bool) then receipt_loop fuel hash deadline poll_interval
          else raise (timed_out hash)
      end
  end.

Definition wait_for_receipt (hash : string) (timeout poll_interval : Z) : pos TransactionOutcome :=
  start ← gets time;
  receipt_loop (poll_fuel timeout poll_interval) hash (start + nanoseconds timeout) poll_interval.

Definition get_relayer_transaction (id : string) : pos RelayerTransaction :=
  response ← ask (relayer_get (transaction_endpoint id));
  match transaction_of id response with
  | inl tx => mret tx
  | inr e => raise (relayer_failure e)
  end.

Fixpoint relayer_loop (fuel : nat) (id submit_hash : string) (deadline poll_interval : Z)
    : pos TransactionOutcome :=
  match fuel with
  | O => λ _, None
  | S fuel =>
      tx ← get_relayer_transaction id;
      if bool_decide (relayer_state tx = "STATE_CONFIRMED") then
        let hash := if bool_decide (relayer_hash tx = "") then submit_hash else relayer_hash tx in
        if bool_decide (hash = "") then
          raise (plain (runtime_error ("relayer transaction " +:+ id +:+
                                       " settled without a transaction hash")))
        else
          rest ← gets (remaining deadline);
          outcome ← wait_for_receipt hash rest poll_interval;
          mret (MkOutcome (outcome_hash outcome) id (outcome_receipt outcome))
      else if bool_decide (relayer_state tx = "STATE_FAILED") ||
              bool_decide (relayer_state tx = "STATE_INVALID")
      then raise (failed id (relayer_state tx) (error_message tx))
      else
        slept ← sleep_before_next_poll deadline poll_interval;
        if (slept : bool) then relayer_loop fuel id submit_hash deadline poll_interval
        else raise (timed_out (if bool_decide (relayer_hash tx = "") then id else relayer_hash tx))
  end.

Definition wait_for_relayer (id submit_hash : string) (timeout poll_interval : Z)
    : pos TransactionOutcome :=
  start ← gets time;
  relayer_loop (poll_fuel timeout poll_interval) id submit_hash (start + nanoseconds timeout)
    poll_interval.

Definition make_handle (hashes : list string) (id : string) (w : Waiter) : pos TransactionHandle :=
  if bool_decide (hashes = []) && bool_decide (id = "") then
    raise (plain (invalid_argument "TransactionHandle needs a transaction hash or id, and a waiter"))
  else mret (MkHandle hashes id w).

Definition handle_hash (h : TransactionHandle) : string := default "" (last (transaction_hashes h)).

Definition wait (h : TransactionHandle) (timeout poll_interval : Z) : pos TransactionOutcome :=
  if poll_interval <=? 0 then raise (plain (invalid_argument "poll_interval must be positive"))
  else match waiter h with
       | receipt_waiter hash => wait_for_receipt hash timeout poll_interval
       | relayer_waiter id submit_hash => wait_for_relayer id submit_hash timeout poll_interval
       end.

(** ** Sending (position_senders.cpp) *)

Definition to_quantity (value : string) : res string :=
  word ← parse_uint256_word value;
  Ok (match skip_zeros (hex_chars word) with
      | [] => "0x0"
      | digits => str ("0"%char :: "x"%char :: digits)
      end).

Definition verify_chain : pos unit := λ s,
  Some (MkState true (next_id s) (journal s) (time s), inl tt).

Variable impl : PositionImpl.

Definition ensure_chain : pos unit :=
  verified ← gets chain_verified;
  if (verified : bool) then mret tt
  else
    node_chain ← get_chain_id;
    if negb (node_chain =? contracts_chain_id (contracts impl)) then
      raise (plain (runtime_error ("RPC node is on chain " +:+ to_string node_chain +:+ ", expected " +:+
                                   to_string (contracts_chain_id (contracts impl)))))
    else verify_chain.

Definition send_from_eoa (call : ContractCall) : pos string :=
  ensure_chain;;
  let from := signer_address impl in
  value ← lift (to_quantity (call_value call));
  nonce ← get_transaction_count from "pending";
  price ← gas_price;
  limit ← estimate_gas (MkCallRequest (call_to call) (call_data call) from value);
  signed ← lift (EvmTransaction.evm_sign_legacy_transaction (signer_key impl)
    (EvmTransaction.MkTransaction nonce price limit (call_to call) value (call_data call)
       (contracts_chain_id (contracts impl))));
  node_hash ← send_raw_transaction (EvmTransaction.raw_transaction signed);
  if negb (bool_decide (evm_normalize_hex node_hash = EvmTransaction.transaction_hash signed)) then
    raise (plain (runtime_error ("RPC node reported hash " +:+ node_hash +:+ " for transaction " +:+
                                 EvmTransaction.transaction_hash signed)))
  else mret (EvmTransaction.transaction_hash signed).

(** One round of the loop of [execute_from_eoa] inside its [try]: the hashes after
    the call was sent, and the wait before the next one. *)
Definition receipt_timeout : Z := 180000.
Definition receipt_interval : Z := 2000.

(** The caught exception of call [index]. *)
Definition batch_failure (hashes : list string) (index count : nat) (e : position_error) : position_error :=
  match hashes with
  | [] => e
  | _ => partial_batch hashes index count e
  end.

Fixpoint send_calls (calls : list ContractCall) (index count : nat) (hashes : list string)
    : pos (list string) :=
  match calls with
  | [] => mret hashes
  | call :: calls =>
      sent ← try (send_from_eoa call);
      match sent with
      | inr e => raise (batch_failure hashes index count e)
      | inl hash =>
          let hashes := hashes ++ [hash] in
          waited ← match calls with
                   | [] => mret (inl tt)
                   | _ => try (wait_for_receipt hash receipt_timeout receipt_interval;; mret tt)
                   end;
          match waited with
          | inr e => raise (batch_failure hashes index count e)
          | inl tt => send_calls calls (S index) count hashes
          end
      end
  end.

Definition execute_from_eoa (calls : list ContractCall) : pos TransactionHandle :=
  hashes ← send_calls calls O (length calls) [];
  make_handle hashes "" (receipt_waiter (default "" (last hashes))).

Definition safe_nonce (address : string) : pos string :=
  response ← ask (relayer_get (safe_nonce_endpoint +:+ "?address=" +:+ address +:+ "&type=SAFE"));
  match safe_nonce_of response with inl nonce => mret nonce | inr e => raise (relayer_failure e) end.

Definition submit (payload : json) : pos RelayerTransaction :=
  response ← ask (relayer_post submit_endpoint payload);
  match submitted_of response with inl tx => mret tx | inr e => raise (relayer_failure e) end.

(** One attempt of the submission. *)
Definition submit_attempt (call : SafeCall) (metadata : string) : pos RelayerTransaction :=
  nonce ← safe_nonce (signer_address impl);
  digest ← lift (safe_transaction_digest (wallet impl) (contracts_chain_id (contracts impl)) call nonce);
  signature ← lift (sign_safe_digest (signer_key impl) digest);
  payload ← lift (build_safe_payload (signer_address impl) (wallet impl) call nonce signature metadata);
  submit payload.

(** The loop over [attempt]; [retries] is how many are left. *)
Fixpoint submit_loop (retries : nat) (call : SafeCall) (metadata : string) : pos RelayerTransaction :=
  attempt ← try (submit_attempt call metadata);
  match attempt with
  | inl tx => mret tx
  | inr (relayer_rejected e) =>
      match retries with
      | O => raise (relayer_rejected e)
      | S retries =>
          if negb (is_retryable_submit_error e) then raise (relayer_rejected e)
          else sleep_for (relayer_retry_delay impl);; submit_loop retries call metadata
      end
  | inr e => raise e
  end.

Definition execute_from_safe (calls : list ContractCall) (metadata : string) : pos TransactionHandle :=
  ensure_chain;;
  call ← lift (resolve_safe_call calls (contracts impl));
  submitted ← submit_loop (Z.to_nat (relayer_max_submit_retries impl)) call metadata;
  make_handle (if bool_decide (relayer_hash submitted = "") then [] else [relayer_hash submitted])
    (relayer_id submitted) (relayer_waiter (relayer_id submitted) (relayer_hash submitted)).

Definition execute_calls (calls : list ContractCall) (metadata : string) : pos TransactionHandle :=
  if bool_decide (length calls = O) then
    raise (plain (invalid_argument "execute_calls needs at least one call"))
  else if bool_decide (500 < length (chars metadata))%nat then
    raise (plain (invalid_argument "metadata must be at most 500 characters"))
  else if wallet_type impl =? OrderSigner.POLY_GNOSIS_SAFE then execute_from_safe calls metadata
  else execute_from_eoa calls.

(** ** Markets (position_gamma.cpp) *)

Definition unexpected_market {A} (condition_id reason : string) : res A :=
  Throw (runtime_error ("unexpected Gamma market for condition " +:+ condition_id +:+ ": " +:+ reason)).

Fixpoint string_items (key condition_id : string) (items : list json) : res (list string) :=
  match items with
  | [] => Ok []
  | JString item :: items => rest ← string_items key condition_id items; Ok (item :: rest)
  | _ :: _ => unexpected_market condition_id (key +:+ " must contain strings")
  end.

Definition string_sequence (market : json) (key condition_id : string) : res (list string) :=
  match json_field market key with
  | None | Some JNull => Ok []
  | Some value =>
      value ← match value with
              | JString text =>
                  match json_parse text with
                  | Some value => Ok value
                  | None => unexpected_market condition_id (key +:+ " is not a JSON list")
                  end
              | value => Ok value
              end;
      match value with
      | JArray items => string_items key condition_id items
      | _ => unexpected_market condition_id (key +:+ " is not a list")
      end
  end.

Fixpoint check_ids (key condition_id : string) (ids : list string) : res unit :=
  match ids with
  | [] => Ok tt
  | id :: ids =>
      match parse_uint256_word id with
      | Throw (invalid_argument _) => unexpected_market condition_id (key +:+ " holds a non-integer id")
      | Throw e => Throw e
      | Ok _ => check_ids key condition_id ids
      end
  end.

Definition binary_ids (ids : list string) (key condition_id : string) : res (string * string) :=
  match ids with
  | [yes; no] => check_ids key condition_id ids;; Ok (yes, no)
  | _ => unexpected_market condition_id (key +:+ " must hold exactly two ids")
  end.

(** The comparison of the two forms of a Protocol V2 id, inside its [try]. *)
Definition same_v2_condition (gamma_id wanted : string) : res bool :=
  match (a ← v2_condition_id_bytes31 gamma_id; b ← v2_condition_id_bytes31 wanted; Ok (bool_decide (a = b))) with
  | Throw (invalid_argument _) => Ok false
  | r => r
  end.

(** [get<long long>()] of an integer *)
Definition to_long_long (z : Z) : Z := (z + 2 ^ 63) mod 2 ^ 64 - 2 ^ 63.

Definition market_id_of (market : json) : string :=
  match json_field market "id" with
  | Some (JString id) => id
  | Some (JInteger id) =>
      let id := to_long_long id in
      if id <? 0 then "-" +:+ to_string (- id) else to_string id
  | _ => ""
  end.

Definition market_context_from_gamma (markets : list json) (condition_id : string)
    (contracts : PolymarketContracts) : res MarketPositionContext :=
  wanted ← normalize_requested_condition_id condition_id;
  let bytes31_request := bool_decide (length (chars wanted) = 64%nat) in
  market ← match markets with
           | [] => Throw (invalid_argument ("no market found for condition " +:+ wanted))
           | [market] => Ok market
           | _ => unexpected_market wanted
                    ("expected one market, got " +:+ to_string (Z.of_nat (length markets)))
           end;
  if negb (is_object market) then unexpected_market wanted "entry is not an object"
  else
    gamma_id ← match json_field market "conditionId" with
               | Some (JString id) => Ok (evm_normalize_hex id)
               | _ => unexpected_market wanted "missing conditionId"
               end;
    same ← (if bool_decide (gamma_id = wanted) then Ok true
            else if bool_decide (length (chars gamma_id) = length (chars wanted)) then Ok false
            else same_v2_condition gamma_id wanted);
    if negb same then unexpected_market wanted "conditionId does not match the request"
    else
      version ← match json_field market "version" with
                | Some (JString version) => Ok version
                | _ => unexpected_market wanted "missing market version"
                end;
      if bool_decide (version = "v2") then
        ids ← string_sequence market "positionIds" wanted;
        token_ids ← binary_ids ids "positionIds" wanted;
        v2_condition_id_bytes31 wanted;;
        Ok (MkContext V2 (market_id_of market) gamma_id false token_ids (position_manager contracts)
              (protocol_v2_router contracts))
      else if negb (bool_decide (version = "v1")) then
        unexpected_market wanted ("unknown market version " +:+ version)
      else if bytes31_request then
        Throw (invalid_argument ("condition " +:+ wanted +:+
          " is a v1 market, which needs a 32-byte condition_id"))
      else if negb (bool_decide (length (chars gamma_id) = 66%nat)) then
        unexpected_market wanted "v1 market has a conditionId that is not 32 bytes"
      else
        ids ← string_sequence market "clobTokenIds" wanted;
        token_ids ← binary_ids ids "clobTokenIds" wanted;
        neg_risk ← match json_field market "negRisk" with
                   | Some (JBool neg_risk) => Ok neg_risk
                   | _ => unexpected_market wanted "missing negRisk flag"
                   end;
        Ok (MkContext Ctf (market_id_of market) gamma_id neg_risk token_ids
              (if (neg_risk : bool) then neg_risk_adapter contracts else conditional_tokens contracts)
              (ctf_collateral_adapter contracts neg_risk)).

(** ** Operations (position_client.cpp, trading_approvals.cpp) *)

Definition gamma_lookup (condition_id : string) (closed_only : bool) : pos (Result (list json)) := λ s,
  let r := gamma_get condition_id closed_only in
  Some (requested r s, inl (gamma_markets (length (journal s)) condition_id closed_only)).

Definition resolve_market (condition_id : string) (closed_only : bool) : pos MarketPositionContext :=
  normalized ← lift (normalize_requested_condition_id condition_id);
  markets ← gamma_lookup normalized closed_only;
  match markets with
  | failure e =>
      if bool_decide (error_code e = Parse) then
        raise (plain (runtime_error ("Gamma market lookup returned invalid JSON for condition " +:+
          normalized +:+ ": " +:+ message e)))
      else
        raise (plain (runtime_error ("Gamma market lookup failed for condition " +:+ normalized +:+
          ": status " +:+ to_string (http_status e) +:+ " " +:+ message e)))
  | success [] =>
      raise (plain (invalid_argument ("no " +:+ (if closed_only then "closed" else "open") +:+
        " market found for condition " +:+ normalized +:+
        (if closed_only then "" else " (closed markets can only be redeemed)"))))
  | success markets => lift (market_context_from_gamma markets normalized (contracts impl))
  end.

(** [rpc->eth_call({call.to, call.data, "", ""})] *)
Definition read_call (call : ContractCall) : pos string :=
  eth_call (MkCallRequest (call_to call) (call_data call) "" "").

Definition position_balances (market : MarketPositionContext) : pos (string * string) :=
  call ← lift (balance_of_batch_call market (wallet impl));
  result ← read_call call;
  lift (decode_binary_balances result).

Definition split_position (condition_id amount : string) : pos TransactionHandle :=
  lift (require_positive_amount amount "split amount");;
  market ← resolve_market condition_id false;
  call ← lift (split_call market (contracts impl) amount);
  execute_calls [call] ("Split " +:+ amount +:+ " positions for condition " +:+
                        PositionCalls.condition_id market).

(** The market, the amount and the call of one merge. *)
Definition merge_of (market : MarketPositionContext) (amount : string) : pos (string * ContractCall) :=
  balances ← position_balances market;
  resolved ← lift (resolve_merge_amount (PositionCalls.condition_id market) balances amount);
  call ← lift (merge_call market (contracts impl) resolved);
  mret (resolved, call).

Definition merge_positions (condition_id amount : string) : pos TransactionHandle :=
  market ← resolve_market condition_id false;
  '(resolved, call) ← merge_of market amount;
  execute_calls [call] ("Merge " +:+ resolved +:+ " positions for condition " +:+
                        PositionCalls.condition_id market).

Fixpoint check_distinct (requests : list MergePositionRequest) (seen : gset string) : res unit :=
  match requests with
  | [] => Ok tt
  | request :: requests =>
      id ← normalize_requested_condition_id (merge_condition_id request);
      require (negb (bool_decide (id ∈ seen)))
        (invalid_argument "merge requests must reference distinct conditions");;
      check_distinct requests ({[id]} ∪ seen)
  end.

Fixpoint merge_calls (requests : list MergePositionRequest) (resolved_conditions : gset string)
    : pos (list ContractCall) :=
  match requests with
  | [] => mret []
  | request :: requests =>
      market ← resolve_market (merge_condition_id request) false;
      let id := PositionCalls.condition_id market in
      if bool_decide (id ∈ resolved_conditions) then
        raise (plain (invalid_argument "merge requests must reference distinct conditions"))
      else
        '(_, call) ← merge_of market (merge_amount request);
        calls ← merge_calls requests ({[id]} ∪ resolved_conditions);
        mret (call :: calls)
  end.

Definition merge_multiple_positions (requests : list MergePositionRequest) : pos TransactionHandle :=
  if bool_decide (length requests = O) then
    raise (plain (invalid_argument "merge_multiple_positions needs at least one request"))
  else
    lift (check_distinct requests ∅);;
    calls ← merge_calls requests ∅;
    execute_calls calls ("Merge " +:+ to_string (Z.of_nat (length calls)) +:+ " positions").

(** The loop over the outcomes of a Protocol V2 market. *)
Definition redeem_call (market : MarketPositionContext) (outcome : Z) (held : string)
    : res (list ContractCall) :=
  zero ← uint256_is_zero held;
  if (zero : bool) then Ok []
  else
    call ← router_redeem_call (operator_contract market) (PositionCalls.condition_id market) outcome held;
    Ok [call].

Definition redeem_positions (condition_id : string) : pos TransactionHandle :=
  market ← resolve_market condition_id true;
  balances ← position_balances market;
  zero ← lift (yes ← uint256_is_zero balances.1;
               if (yes : bool) then uint256_is_zero balances.2 else Ok false);
  if (zero : bool) then
    raise (plain (invalid_argument ("no position balance to redeem for condition " +:+
                                    PositionCalls.condition_id market)))
  else
    let note := "Redeem positions for condition " +:+ PositionCalls.condition_id market in
    match protocol market with
    | Ctf =>
        call ← lift (ctf_redeem_positions_call (operator_contract market)
                       (collateral_token (contracts impl)) (PositionCalls.condition_id market));
        execute_calls [call] note
    | V2 =>
        calls ← lift (yes ← redeem_call market 0 balances.1;
                      no ← redeem_call market 1 balances.2; Ok (yes ++ no));
        execute_calls calls note
    end.

Fixpoint read_calls (calls : list ContractCall) : pos (list string) :=
  match calls with
  | [] => mret []
  | call :: calls =>
      result ← read_call call;
      results ← read_calls calls;
      mret (result :: results)
  end.

Definition get_trading_approvals_state (owner : option string) : pos TradingApprovalsState :=
  let owner := default (wallet impl) owner in
  lift (require_address owner "wallet");;
  let required := required_trading_approvals (contracts impl) in
  calls ← lift (trading_approval_check_calls required owner);
  results ← read_calls calls;
  lift (trading_approvals_state_from_results required results).

Definition default_poll_interval : Z := 2000.

Definition setup_trading_approvals (timeout : Z) : pos (option TransactionOutcome) :=
  state ← get_trading_approvals_state None;
  if is_fully_approved state then mret None
  else
    calls ← lift (trading_approval_calls (missing state));
    handle ← execute_calls calls "Trading setup approvals";
    outcome ← try (wait handle timeout default_poll_interval);
    match outcome with
    | inl outcome => mret (Some outcome)
    | inr e =>
        let hashes := transaction_hashes handle in
        if bool_decide (length hashes < 2)%nat then raise e
        else raise (partial_batch hashes (length hashes - 1) (length hashes) e)
    end.

Definition approve_erc20 (token_address spender_address amount metadata : string)
    : pos TransactionHandle :=
  lift (require_address token_address "token_address");;
  lift (require_address spender_address "spender_address");;
  resolved ← lift (resolve_approval_amount amount);
  call ← lift (erc20_approve_call token_address spender_address resolved);
  execute_calls [call]
    (if bool_decide (metadata = "")
     then "Approve " +:+ amount +:+ " of " +:+ token_address +:+ " to " +:+ spender_address else metadata).

Definition approve_erc1155_for_all (token_address operator_address : string) (approved : bool)
    (metadata : string) : pos TransactionHandle :=
  lift (require_address token_address "token_address");;
  lift (require_address operator_address "operator_address");;
  call ← lift (erc1155_set_approval_for_all_call token_address operator_address approved);
  execute_calls [call]
    (if bool_decide (metadata = "")
     then (if approved then "Approve " else "Revoke ") +:+ operator_address +:+ " on " +:+ token_address
     else metadata).

Definition transfer_erc20 (token_address recipient_address amount metadata : string)
    : pos TransactionHandle :=
  lift (require_address token_address "token_address");;
  lift (require_address recipient_address "recipient_address");;
  lift (require_positive_amount amount "transfer amount");;
  call ← lift (erc20_transfer_call token_address recipient_address amount);
  execute_calls [call]
    (if bool_decide (metadata = "")
     then "Transfer " +:+ amount +:+ " of " +:+ token_address +:+ " to " +:+ recipient_address
     else metadata).
End Client.
