(* ===== verification/PositionSends.v ===== *)
(** * What sending position transactions does
    (src/position_senders.cpp, transaction_handle.cpp)

    Theorems on the two ways [PositionClient] sends calls: what an EOA batch has
    broadcast, in which order and after which receipts, and what its errors
    report; what the relayer is sent for a Safe. *)
From Stdlib Require Import Ascii String.
From S2P Require Import Prelude Text EvmBytes Crypto EvmAbi Sdk RestParsing PositionCalls Positions JsonRpc SafeRelayer PositionClient.
From S2P Require EvmTransaction.

#[local] Open Scope Z_scope.

(** The raw transactions handed to the node, in order. *)
Definition broadcast (r : position_request) : option string :=
  match r with
  | rpc_post method [JString raw] =>
      if bool_decide (method = "eth_sendRawTransaction") then Some raw else None
  | _ => None
  end.
Definition broadcasts (requests : list position_request) : list string := omap broadcast requests.

Lemma broadcasts_app a b : broadcasts (a ++ b) = broadcasts a ++ broadcasts b.
Proof. apply omap_app. Qed.

Section Sends.
Context `{J : JsonLibrary, T : JsonTypeErrors, K : Keccak, R : RecoverableSigner, World : PositionWorld}.
Context (Hrequest : ∀ n, 0 ≤ request_time n) (Hoversleep : ∀ n, 0 ≤ oversleep n).
Implicit Types (s : PositionState).

(** ** Operations that broadcast nothing *)

(** [m] comes to an end with [r], after the requests [t]. *)
Definition runs {A} (m : pos A) s s' (r : A + position_error) (t : list position_request) : Prop :=
  m s = Some (s', r) ∧ journal s' = journal s ++ t ∧ time s ≤ time s'.

Definition quiet {A} (m : pos A) : Prop := ∀ s, ∃ s' r t, runs m s s' r t ∧ broadcasts t = [].

Lemma runs_now {A} s r (m : pos A) : m s = Some (s, r) → runs m s s r [].
Proof using Type. intros H. split; [done|]. split; [by rewrite app_nil_r|lia]. Qed.

Lemma runs_bind {A B} (m : pos A) (f : A → pos B) s s1 a t1 s2 r t2 :
  runs m s s1 (inl a) t1 → runs (f a) s1 s2 r t2 → runs (m ≫= f) s s2 r (t1 ++ t2).
Proof using Type.
  intros (H1 & J1 & T1) (H2 & J2 & T2). split; [|split; [by rewrite J2, J1, app_assoc|lia]].
  unfold mbind, pos_bind. by rewrite H1.
Qed.

Lemma runs_bind_error {A B} (m : pos A) (f : A → pos B) s s1 e t1 :
  runs m s s1 (inr e) t1 → runs (m ≫= f) s s1 (inr e) t1.
Proof using Type. intros (H1 & ?). split; [|done]. unfold mbind, pos_bind. by rewrite H1. Qed.

Lemma runs_try {A} (m : pos A) s s' r t : runs m s s' r t → runs (try m) s s' (inl r) t.
Proof using Type. intros (H1 & ?). split; [|done]. unfold try. by rewrite H1. Qed.

Lemma sends_quiet_ret {A} (a : A) : quiet (mret a).
Proof using Type. intros s. exists s, (inl a), []. split; [by apply runs_now|done]. Qed.

Lemma quiet_raise {A} e : quiet (raise e : pos A).
Proof using Type. intros s. exists s, (inr e), []. split; [by apply runs_now|done]. Qed.

Lemma sends_quiet_lift {A} (m : res A) : quiet (lift m).
Proof using Type. intros s. eexists s, _, []. split; [by apply runs_now|done]. Qed.

Lemma sends_quiet_gets {A} (f : PositionState → A) : quiet (gets f).
Proof using Type. intros s. eexists s, _, []. split; [by apply runs_now|done]. Qed.

Lemma sends_quiet_bind {A B} (m : pos A) (f : A → pos B) : quiet m → (∀ a, quiet (f a)) → quiet (m ≫= f).
Proof using Type.
  intros Hm Hf s. destruct (Hm s) as (s1 & [a|e] & t1 & H1 & B1).
  - destruct (Hf a s1) as (s2 & r & t2 & H2 & B2). exists s2, r, (t1 ++ t2).
    split; [by eapply runs_bind|]. by rewrite broadcasts_app, B1, B2.
  - exists s1, (inr e), t1. split; [by apply runs_bind_error|done].
Qed.

Lemma quiet_rpc method params : method ≠ "eth_sendRawTransaction" → quiet (rpc_call method params).
Proof using Hrequest.
  intros Hm s. eexists _, _, [rpc_post method params]. split; [split; [done|]|].
  - cbn. split; [done|]. pose proof (Hrequest (length (journal s))). lia.
  - cbn. unfold broadcast. destruct params as [|[] []]; try done. by rewrite bool_decide_false.
Qed.

Lemma quiet_verify : quiet verify_chain.
Proof using Type.
  intros s. eexists _, _, []. split; [split; [done|]|done]. cbn. by rewrite app_nil_r.
Qed.

Lemma quiet_sleep ms : quiet (sleep_for ms).
Proof using Hoversleep.
  intros s. eexists _, _, [pause ms]. split; [split; [done|]|done]. cbn. split; [done|].
  pose proof (Hoversleep (length (journal s))). unfold nanoseconds. lia.
Qed.

(** ** Receipts *)

Definition receipt_request (hash : string) : position_request :=
  rpc_post "eth_getTransactionReceipt" [JString hash].

(** The [n]th request asked for the receipt of a transaction, and the answer said
    that it was mined and succeeded. *)
Definition mined (hash : string) (requests : list position_request) (n : nat) : Prop :=
  requests !! n = Some (receipt_request hash) ∧
  ∃ id receipt, (rpc_result (answer n (receipt_request hash)) id ≫= receipt_of) = Ok (Some receipt) ∧
    receipt_success receipt = true.

(** How many more sleeps there can be before a deadline. *)
Definition rounds_left (deadline poll : Z) s : nat :=
  Z.to_nat ((deadline - time s + nanoseconds poll - 1) / nanoseconds poll).

Lemma rounds_left_later deadline poll s s' :
  0 < poll → time s ≤ time s' → (rounds_left deadline poll s' ≤ rounds_left deadline poll s)%nat.
Proof using Type.
  intros Hp Hle. unfold rounds_left, nanoseconds.
  pose proof (Z.div_le_mono (deadline - time s' + poll * 1000000 - 1)
    (deadline - time s + poll * 1000000 - 1) (poll * 1000000) ltac:(lia) ltac:(lia)). lia.
Qed.

Lemma rounds_left_slept deadline poll s s' :
  0 < poll → time s < deadline → deadline ≤ time s' ∨ time s + nanoseconds poll ≤ time s' →
  (rounds_left deadline poll s' < rounds_left deadline poll s)%nat.
Proof using Type.
  intros Hp Hlt Hs. unfold rounds_left, nanoseconds in *.
  set (P := poll * 1000000) in *. assert (0 < P) by lia.
  pose proof (div_bounds (deadline - time s + P - 1) P ltac:(lia)) as B.
  pose proof (div_bounds (deadline - time s' + P - 1) P ltac:(lia)) as B'.
  assert (1 ≤ (deadline - time s + P - 1) / P) by nia.
  assert ((deadline - time s' + P - 1) / P < (deadline - time s + P - 1) / P) by nia. lia.
Qed.

Lemma sleep_poll deadline poll s :
  0 < poll →
  ∃ s' slept t, runs (sleep_before_next_poll deadline poll) s s' (inl slept) t ∧ broadcasts t = [] ∧
    (slept = true → time s < deadline ∧ (deadline ≤ time s' ∨ time s + nanoseconds poll ≤ time s')).
Proof using Hoversleep.
  intros Hp. unfold sleep_before_next_poll. destruct (Z.leb_spec deadline (time s)) as [|Hlt].
  { exists s, false, []. split; [|by split]. split; [by rewrite (proj2 (Z.leb_le _ _))|].
    split; [by rewrite app_nil_r|lia]. }
  eexists _, true, [pause (Z.min poll (remaining deadline s))].
  split; [split; [by rewrite (proj2 (Z.leb_gt _ _))|]|].
  - cbn. split; [done|]. pose proof (Hoversleep (length (journal s))). unfold nanoseconds. lia.
  - split; [done|]. intros _. split; [done|]. cbn. pose proof (Hoversleep (length (journal s))).
    unfold remaining, nanoseconds. pose proof (div_bounds (time s - deadline) 1000000 ltac:(lia)). lia.
Qed.

Lemma receipt_call hash s :
  ∃ s' r, runs (get_transaction_receipt hash) s s' r [receipt_request hash] ∧
    ∃ id, r = match rpc_result (answer (length (journal s)) (receipt_request hash)) id ≫= receipt_of with
              | Ok receipt => inl receipt | Throw e => inr (plain e) end.
Proof using Hrequest.
  unfold get_transaction_receipt. set (m := rpc_call _ _).
  assert (∃ s1 r1, runs m s s1 r1 [receipt_request hash] ∧
    r1 = match rpc_result (answer (length (journal s)) (receipt_request hash)) (next_id s) with
         | Ok j => inl j | Throw e => inr (plain e) end) as (s1 & r1 & H1 & ->).
  { eexists _, _. split; [split; [done|]|done]. cbn. split; [done|].
    pose proof (Hrequest (length (journal s))). lia. }
  destruct (rpc_result _ _) as [j|e] eqn:E.
  - eexists s1, _. split.
    + rewrite <- (app_nil_r [receipt_request hash]). eapply runs_bind; [exact H1|by apply runs_now].
    + exists (next_id s). rewrite E. cbn [mbind res_bind]. by destruct (receipt_of j).
  - exists s1, (inr (plain e)). split; [by apply runs_bind_error|]. exists (next_id s). by rewrite E.
Qed.

(** The wait for a receipt ends; if it succeeds, a receipt said so. *)
Lemma receipt_loop_spec fuel hash deadline poll s :
  0 < poll → (rounds_left deadline poll s < fuel)%nat →
  ∃ s' r t, runs (receipt_loop fuel hash deadline poll) s s' r t ∧ broadcasts t = [] ∧
    ∀ o, r = inl o → ∃ n, (length (journal s) ≤ n < length (journal s'))%nat ∧ mined hash (journal s') n.
Proof using Hrequest Hoversleep.
  intros Hp. revert s. induction fuel as [|fuel IH]; intros s Hf; [lia|]. cbn [receipt_loop].
  destruct (receipt_call hash s) as (s1 & r1 & H1 & id & Er).
  destruct (rpc_result (answer (length (journal s)) (receipt_request hash)) id ≫= receipt_of)
    as [[receipt|]|e] eqn:Ea; subst r1.
  - destruct (receipt_success receipt) eqn:Eok.
    + exists s1, (inl (MkOutcome hash "" receipt)), [receipt_request hash]. split; [|split; [done|]].
      * rewrite <- (app_nil_r [_]). eapply runs_bind; [exact H1|]. cbn. rewrite Eok. by apply runs_now.
      * intros o _. destruct H1 as (_ & J1 & _). exists (length (journal s)). rewrite J1, length_app. cbn.
        split; [lia|]. split; [by rewrite lookup_app_r, Nat.sub_diag|]. by exists id, receipt.
    + exists s1, (inr (reverted hash receipt)), [receipt_request hash]. split; [|by split].
      rewrite <- (app_nil_r [_]). eapply runs_bind; [exact H1|]. cbn. rewrite Eok. by apply runs_now.
  - destruct (sleep_poll deadline poll s1 Hp) as (s2 & slept & t2 & H2 & B2 & Hs).
    destruct slept.
    + destruct (Hs eq_refl) as [Hlt Hgain]. pose proof (rounds_left_slept _ _ _ _ Hp Hlt Hgain).
      assert (time s ≤ time s1) as Hle by apply H1. pose proof (rounds_left_later deadline poll s s1 Hp Hle).
      destruct (IH s2 ltac:(lia)) as (s3 & r & t3 & H3 & B3 & Hm).
      exists s3, r, ([receipt_request hash] ++ t2 ++ t3). split; [|split].
      * eapply runs_bind; [exact H1|]. cbn. eapply runs_bind; [exact H2|]. exact H3.
      * rewrite !broadcasts_app, B2, B3. done.
      * intros o Ho. destruct (Hm o Ho) as (n & Hn & Hmined). exists n. split; [|done].
        destruct H1 as (_ & J1 & _), H2 as (_ & J2 & _). rewrite J2, J1, !length_app in Hn. lia.
    + exists s2, (inr (timed_out hash)), ([receipt_request hash] ++ t2 ++ []). split; [|split].
      * eapply runs_bind; [exact H1|]. cbn. eapply runs_bind; [exact H2|]. by apply runs_now.
      * rewrite !broadcasts_app, B2. done.
      * done.
  - exists s1, (inr (plain e)), [receipt_request hash]. split; [by apply runs_bind_error|by split].
Qed.

Lemma wait_for_receipt_spec hash timeout poll s :
  0 < poll →
  ∃ s' r t, runs (wait_for_receipt hash timeout poll) s s' r t ∧ broadcasts t = [] ∧
    ∀ o, r = inl o → ∃ n, (length (journal s) ≤ n < length (journal s'))%nat ∧ mined hash (journal s') n.
Proof using Hrequest Hoversleep.
  intros Hp. destruct (receipt_loop_spec (poll_fuel timeout poll) hash (time s + nanoseconds timeout) poll s Hp)
    as (s' & r & t & H & B & Hm).
  { unfold rounds_left, poll_fuel. replace (time s + nanoseconds timeout - time s) with (nanoseconds timeout) by lia.
    lia. }
  exists s', r, t. split; [|done]. unfold wait_for_receipt.
  rewrite <- (app_nil_l t). eapply runs_bind; [by apply runs_now|]. exact H.
Qed.

(** ** One transaction of an EOA *)

Lemma to_quantity_same text value :
  to_quantity text = Ok value → parse_uint256_word value = parse_uint256_word text.
Proof using Type.
  unfold to_quantity. intros (w & Hw & [= <-])%bind_Ok. rewrite Hw.
  destruct (parse_uint256_word_wf _ _ Hw) as [Hb Hl].
  pose proof (word_val_bounds w Hb) as B. rewrite Hl in B. rewrite <- (word_of_val w) at 2 by done.
  pose proof (hex_chars_val w Hb) as Hv. destruct (skip_zeros_spec _ _ Hv) as [Hs _].
  destruct (skip_zeros (hex_chars w)) as [|c cs] eqn:E.
  - injection Hs as Hs. rewrite <- Hs. by vm_compute.
  - rewrite (parse_uint256_word_exact _ (word_val w)).
    + destruct (Z.ltb_spec (word_val w) (2 ^ 256)); [done|]. change (256 ^ Z.of_nat 32) with (2 ^ 256) in B. lia.
    + change (String _ _) with (str ("0"%char :: "x"%char :: c :: cs)).
      unfold numeral_value. rewrite chars_str. exact Hs.
Qed.

Context (impl : PositionImpl).

(** The raw transaction and the hash are those of a transaction of the client's
    key, on its chain, with the call's target, data and value. *)
Definition signed_for (call : ContractCall) (sent : string * string) : Prop :=
  ∃ nonce price limit value,
    parse_uint256_word value = parse_uint256_word (call_value call) ∧
    EvmTransaction.evm_sign_legacy_transaction (signer_key impl)
      (EvmTransaction.MkTransaction nonce price limit (call_to call) value (call_data call)
         (contracts_chain_id (contracts impl))) = Ok (EvmTransaction.MkSigned sent.1 sent.2).

Lemma quiet_ensure_chain : quiet (ensure_chain impl).
Proof using Hrequest.
  apply sends_quiet_bind; [apply sends_quiet_gets|]. intros [|]; [apply sends_quiet_ret|].
  apply sends_quiet_bind; [apply sends_quiet_bind; [by apply quiet_rpc|intros; apply sends_quiet_lift]|].
  intros id. destruct (negb _); [apply quiet_raise|apply quiet_verify].
Qed.

(** A bind after a quiet operation. *)
Lemma after_quiet {A B} (m : pos A) (f : A → pos B) s (P : PositionState → B + position_error →
    list position_request → Prop) :
  quiet m →
  (∀ s1 t1 e, runs m s s1 (inr e) t1 → broadcasts t1 = [] → P s1 (inr e) t1) →
  (∀ s1 t1 a, runs m s s1 (inl a) t1 → broadcasts t1 = [] →
     ∃ s' r t, runs (f a) s1 s' r t ∧ P s' r (t1 ++ t)) →
  ∃ s' r t, runs (m ≫= f) s s' r t ∧ P s' r t.
Proof using Type.
  intros Hm He Ha. destruct (Hm s) as (s1 & [a|e] & t1 & H1 & B1).
  - destruct (Ha _ _ _ H1 B1) as (s' & r & t & H2 & HP). exists s', r, (t1 ++ t).
    split; [by eapply runs_bind|done].
  - exists s1, (inr e), t1. split; [by apply runs_bind_error|by apply He].
Qed.

Lemma send_raw_spec raw s :
  ∃ s' r, runs (send_raw_transaction raw) s s' r [rpc_post "eth_sendRawTransaction" [JString raw]].
Proof using Hrequest.
  set (t := [_]). unfold send_raw_transaction. set (m := rpc_call _ _).
  assert (∃ s1 r1, runs m s s1 r1 t) as (s1 & [j|e] & H1).
  { eexists _, _. split; [done|]. cbn. split; [done|]. pose proof (Hrequest (length (journal s))). lia. }
  - eexists s1, _. rewrite <- (app_nil_r t). eapply runs_bind; [exact H1|by apply runs_now].
  - exists s1, (inr e). by apply runs_bind_error.
Qed.

(** What one send does: at most one broadcast, of a transaction signed for the
    call; the hash is returned only after it. *)
Definition send_result (call : ContractCall) (r : string + position_error)
    (t : list position_request) : Prop :=
  match r with
  | inl hash => ∃ raw, broadcasts t = [raw] ∧ signed_for call (raw, hash)
  | inr _ => broadcasts t = [] ∨ ∃ raw hash, broadcasts t = [raw] ∧ signed_for call (raw, hash)
  end.

Lemma send_result_after call r t1 t :
  broadcasts t1 = [] → send_result call r t → send_result call r (t1 ++ t).
Proof using Type. intros B1. unfold send_result. rewrite broadcasts_app, B1. done. Qed.

Lemma send_from_eoa_spec call s :
  ∃ s' r t, runs (send_from_eoa impl call) s s' r t ∧ send_result call r t.
Proof using Hrequest.
  assert (∀ {A} (m : pos A) (f : A → pos string) s, quiet m →
    (∀ s1 t1 a, runs m s s1 (inl a) t1 → ∃ s' r t, runs (f a) s1 s' r t ∧ send_result call r t) →
    ∃ s' r t, runs (m ≫= f) s s' r t ∧ send_result call r t) as Hstep.
  { intros A m f s0 Hm Hf. apply (after_quiet m f s0 (λ _, send_result call)); [done| |].
    - intros s1 t1 e _ B1. by left.
    - intros s1 t1 a H1 B1. destruct (Hf s1 t1 a H1) as (s' & r & t & H & Hr). exists s', r, t.
      split; [done|]. by apply send_result_after. }
  unfold send_from_eoa. apply Hstep; [apply quiet_ensure_chain|]. intros s1 t1 [] _. cbv zeta.
  apply Hstep; [apply sends_quiet_lift|]. intros s2 t2 value H2.
  assert (to_quantity (call_value call) = Ok value) as Hvalue.
  { destruct H2 as (H2 & _). unfold lift in H2. by destruct (to_quantity _); simplify_eq. }
  unfold get_transaction_count, gas_price, estimate_gas.
  do 3 (apply Hstep; [apply sends_quiet_bind; [by apply quiet_rpc|intros; apply sends_quiet_lift]|intros ??? _]).
  apply Hstep; [apply sends_quiet_lift|]. intros s6 t6 [raw hash] H6.
  destruct (EvmTransaction.evm_sign_legacy_transaction _ _) as [signed|] eqn:Esign;
    [|by destruct H6 as (H6 & _)].
  assert (signed = EvmTransaction.MkSigned raw hash) as -> by (destruct H6 as (H6 & _); unfold lift in H6; congruence).
  cbn [EvmTransaction.raw_transaction EvmTransaction.transaction_hash].
  assert (signed_for call (raw, hash)) as Hsigned.
  { eexists _, _, _, _. split; [by apply to_quantity_same|exact Esign]. }
  destruct (send_raw_spec raw s6) as (s7 & [node|e] & H7).
  - destruct (bool_decide (evm_normalize_hex node = hash)) eqn:Enode.
    + exists s7, (inl hash), ([rpc_post "eth_sendRawTransaction" [JString raw]] ++ []). split; [|by exists raw].
      eapply runs_bind; [exact H7|]. rewrite Enode. by apply runs_now.
    + eexists s7, (inr _), ([rpc_post "eth_sendRawTransaction" [JString raw]] ++ []).
      split; [|right; by exists raw, hash].
      eapply runs_bind; [exact H7|]. rewrite Enode. by apply runs_now.
  - eexists s7, _, _. split; [by apply runs_bind_error|]. right. by exists raw, hash.
Qed.
(** ** A batch of an EOA *)

(** After [calls] or some first of them were sent between the requests [before]
    and [after]: the transactions [sent] are all that was broadcast, each is
    signed for its call, and every one but the last was seen mined before the
    next was broadcast. *)
Definition sent_in_order (calls : list ContractCall) (before after : list position_request)
    (sent : list (string * string)) : Prop :=
  broadcasts after = broadcasts before ++ sent.*1 ∧
  Forall2 signed_for (take (length sent) calls) sent ∧
  ∀ i hash, (S i < length sent)%nat → sent.*2 !! i = Some hash →
    ∃ n, mined hash after n ∧ broadcasts (take n after) = broadcasts before ++ take (S i) sent.*1.

(** What the batch says of it: all hashes, or the call it stopped at and the
    hashes the node had acknowledged by then. *)
Definition batch_result (calls : list ContractCall) (hashes : list string) (index count : nat)
    (sent : list (string * string)) (r : list string + position_error) : Prop :=
  match r with
  | inl all => length sent = length calls ∧ all = hashes ++ sent.*2
  | inr e => ∃ j k cause, (j < length calls)%nat ∧ (j ≤ k ≤ length sent)%nat ∧ (length sent ≤ S j)%nat ∧
      e = batch_failure (hashes ++ take k sent.*2) (index + j) count cause
  end.

Lemma mined_app hash a b n : mined hash a n → mined hash (a ++ b) n.
Proof using Type. intros [H1 H2]. split; [by apply lookup_app_l_Some|done]. Qed.

Lemma broadcasts_take n t : broadcasts t = [] → broadcasts (take n t) = [].
Proof using Type.
  rewrite <- (take_drop n t) at 1. rewrite broadcasts_app. by intros [? _]%app_nil.
Qed.

Lemma sent_nothing calls before t : broadcasts t = [] → sent_in_order calls before (before ++ t) [].
Proof using Type.
  intros B. split; [by rewrite broadcasts_app, B|]. split; [by constructor|]. cbn. lia.
Qed.

Lemma sent_one call calls before t raw hash :
  broadcasts t = [raw] → signed_for call (raw, hash) →
  sent_in_order (call :: calls) before (before ++ t) [(raw, hash)].
Proof using Type.
  intros B Hs. split; [by rewrite broadcasts_app, B|]. split; [cbn; by repeat constructor|]. cbn. lia.
Qed.

(** A send, the wait for its receipt, and the rest. *)
Lemma sent_more call calls before t1 t2 after raw hash n sent :
  broadcasts t1 = [raw] → signed_for call (raw, hash) → broadcasts t2 = [] →
  (length (before ++ t1) ≤ n < length (before ++ t1 ++ t2))%nat → mined hash (before ++ t1 ++ t2) n →
  (∃ t3, after = (before ++ t1 ++ t2) ++ t3) →
  sent_in_order calls (before ++ t1 ++ t2) after sent →
  sent_in_order (call :: calls) before after ((raw, hash) :: sent).
Proof using Type.
  intros B1 Hs B2 Hn Hm [t3 Ea] (B & Hf & Hrest).
  assert (broadcasts (before ++ t1 ++ t2) = broadcasts before ++ [raw]) as B12.
  { by rewrite !broadcasts_app, B1, B2. }
  rewrite B12 in B, Hrest.
  split; [by rewrite B, <- app_assoc|]. split; [by constructor|].
  intros [|i] h Hi Hh.
  - injection Hh as <-. exists n. split; [rewrite Ea; by apply mined_app|].
    rewrite Ea, take_app_le by lia. rewrite app_assoc, take_app, broadcasts_app.
    rewrite take_ge, broadcasts_app, B1 by lia. cbn. by rewrite (broadcasts_take _ _ B2), app_nil_r.
  - destruct (Hrest i h) as (m & Hm' & Bm); [cbn in Hi; lia|done|]. exists m. split; [done|].
    by rewrite Bm, <- app_assoc.
Qed.

Lemma send_calls_spec calls index count hashes s :
  ∃ s' r sent, send_calls impl calls index count hashes s = Some (s', r) ∧
    (∃ t, journal s' = journal s ++ t) ∧
    sent_in_order calls (journal s) (journal s') sent ∧ batch_result calls hashes index count sent r.
Proof using Hrequest Hoversleep.
  revert index hashes s. induction calls as [|call calls IH]; intros index hashes s.
  { exists s, (inl hashes), []. split; [done|]. split; [exists []; by rewrite app_nil_r|].
    rewrite <- (app_nil_r (journal s)) at 2. split; [by apply sent_nothing|].
    cbn. by rewrite app_nil_r. }
  destruct (send_from_eoa_spec call s) as (s1 & r1 & t1 & (H1 & J1 & _) & Hr1).
  cbn [send_calls]. unfold mbind, pos_bind at 1, try at 1. rewrite H1. destruct r1 as [hash|e].
  - destruct Hr1 as (raw & B1 & Hsigned). destruct calls as [|next calls].
    + exists s1, (inl (hashes ++ [hash])), [(raw, hash)]. cbn. split; [done|]. split; [by exists t1|].
      split; [rewrite J1; by apply sent_one|done].
    + destruct (wait_for_receipt_spec hash receipt_timeout receipt_interval s1 ltac:(done))
        as (s2 & r2 & t2 & (H2 & J2 & _) & B2 & Hm).
      unfold try, pos_bind. rewrite H2. destruct r2 as [o|e].
      * destruct (IH (S index) (hashes ++ [hash]) s2) as (s' & r & sent & H & Ht & Hsent & Hr).
        destruct (Hm o eq_refl) as (n & Hn & Hmined).
        exists s', r, ((raw, hash) :: sent). split; [exact H|].
        rewrite J2, J1, <- app_assoc in *.
        split; [destruct Ht as [t ->]; exists (t1 ++ t2 ++ t); by rewrite <- !app_assoc|].
        split; [by eapply sent_more|]. destruct r as [all|e].
        -- destruct Hr as [Hl ->]. cbn. rewrite <- app_assoc. split; [by f_equal|done].
        -- destruct Hr as (j & k & cause & Hj & Hk & Hl & ->). exists (S j), (S k), cause. cbn in Hj |- *.
           split; [lia|]. split; [lia|]. split; [lia|]. rewrite <- app_assoc. by rewrite Nat.add_succ_r.
      * exists s2, (inr (batch_failure (hashes ++ [hash]) index count e)), [(raw, hash)].
        split; [done|]. rewrite J2, J1, <- app_assoc. split; [by eexists|].
        split; [apply sent_one; [by rewrite broadcasts_app, B1, B2|done]|].
        exists O, 1%nat, e. cbn. rewrite Nat.add_0_r. repeat split; lia.
  - exists s1, (inr (batch_failure hashes index count e)).
    assert (∃ sent, sent_in_order (call :: calls) (journal s) (journal s1) sent ∧ (length sent ≤ 1)%nat)
      as (sent & Hsent & Hl).
    { rewrite J1. destruct Hr1 as [B1|(raw & hash & B1 & Hs)].
      - exists []. split; [by apply sent_nothing|cbn; lia].
      - exists [(raw, hash)]. split; [by apply sent_one|cbn; lia]. }
    exists sent. split; [done|]. split; [by exists t1|]. split; [done|].
    exists O, O, e. cbn. rewrite Nat.add_0_r, app_nil_r. repeat split; lia.
Qed.

(** ** Submissions to the relayer *)

Definition submission (r : position_request) : option json :=
  match r with relayer_post _ payload => Some payload | _ => None end.
Definition submissions (requests : list position_request) : list json := omap submission requests.

Definition nonce_request : position_request :=
  relayer_get (safe_nonce_endpoint +:+ "?address=" +:+ signer_address impl +:+ "&type=SAFE").

(** The payload is for the call, and carries a signature by the client's key of
    the SafeTx digest of the call, the Safe, the chain and the nonce that the
    relayer answered. *)
Definition signed_payload (call : SafeCall) (metadata : string) (nonce_answer : HttpResponse)
    (payload : json) : Prop :=
  ∃ nonce digest signature, safe_nonce_of nonce_answer = inl nonce ∧
    safe_transaction_digest (wallet impl) (contracts_chain_id (contracts impl)) call nonce = Ok digest ∧
    sign_safe_digest (signer_key impl) digest = Ok signature ∧
    build_safe_payload (signer_address impl) (wallet impl) call nonce signature metadata = Ok payload.

(** The relayer rejected the submission in a way that is retried. *)
Definition rejected_for_now (submitted : HttpResponse) : Prop :=
  ∃ e, submitted_of submitted = inr (request_failed e) ∧ is_retryable_submit_error e = true.

(** What the requests [t], the first of them the [k]th, submit: each submission is
    signed for the nonce fetched by the request just before it; all but the last
    were rejected for now; there are at most [most]; the result of a success is
    the relayer's answer to one of them. *)
Record submitted_safely (call : SafeCall) (metadata : string) (k : nat) (t : list position_request)
    (most : nat) (r : RelayerTransaction + position_error) : Prop := {
  submitted_signed n endpoint payload :
    t !! n = Some (relayer_post endpoint payload) → endpoint = submit_endpoint ∧
    ∃ m, n = S m ∧ t !! m = Some nonce_request ∧
      signed_payload call metadata (answer (k + m) nonce_request) payload;
  submitted_once n m endpoint payload later :
    (n < m)%nat → t !! n = Some (relayer_post endpoint payload) → t !! m ≫= submission = Some later →
    rejected_for_now (answer (k + n) (relayer_post endpoint payload));
  submitted_count : (length (submissions t) ≤ most)%nat;
  submitted_accepted tx :
    r = inl tx → ∃ n payload, t !! n = Some (relayer_post submit_endpoint payload) ∧
      submitted_of (answer (k + n) (relayer_post submit_endpoint payload)) = inl tx }.

Lemma ask_runs request s :
  ∃ s', runs (ask request) s s' (inl (answer (length (journal s)) request)) [request].
Proof using Hrequest.
  eexists. split; [done|]. cbn. split; [done|]. pose proof (Hrequest (length (journal s))). lia.
Qed.

(** One attempt: a nonce, and a submission signed for it. *)
Lemma submit_attempt_spec call metadata s :
  ∃ s' r t, runs (submit_attempt impl call metadata) s s' r t ∧
    ((t = [nonce_request] ∧ (∀ tx, r ≠ inl tx)) ∨
     ∃ payload, t = [nonce_request; relayer_post submit_endpoint payload] ∧
       signed_payload call metadata (answer (length (journal s)) nonce_request) payload ∧
       r = match submitted_of (answer (S (length (journal s))) (relayer_post submit_endpoint payload)) with
           | inl tx => inl tx | inr e => inr (relayer_failure e) end).
Proof using Hrequest.
  destruct (ask_runs nonce_request s) as (s1 & H1). set (a := answer _ _) in *.
  assert (∀ r, r = match safe_nonce_of a with inl nonce => inl nonce | inr e => inr (relayer_failure e) end →
    runs (safe_nonce (signer_address impl)) s s1 r [nonce_request]) as Hnonce.
  { intros r ->. unfold safe_nonce. rewrite <- (app_nil_r [nonce_request]).
    eapply runs_bind; [exact H1|]. cbv beta. destruct (safe_nonce_of a); by apply runs_now. }
  unfold submit_attempt. destruct (safe_nonce_of a) as [nonce|e] eqn:En.
  2:{ eexists s1, _, _. split; [apply runs_bind_error; by apply Hnonce|left; by split]. }
  assert (∀ {A} (m : res A) (f : A → pos RelayerTransaction) e, m = Throw e →
    runs (lift m ≫= f) s1 s1 (inr (plain e)) []) as Hthrow.
  { intros A m f e ->. apply runs_bind_error. by apply runs_now. }
  assert (∀ {A} (m : res A) (f : A → pos RelayerTransaction) a s' r t, m = Ok a →
    runs (f a) s1 s' r t → runs (lift m ≫= f) s1 s' r t) as Hok.
  { intros A m f a' s' r t -> H. rewrite <- (app_nil_l t). eapply runs_bind; [by apply runs_now|exact H]. }
  assert (∀ (f : string → pos RelayerTransaction) s' r t, runs (f nonce) s1 s' r t →
    runs (safe_nonce (signer_address impl) ≫= f) s s' r (nonce_request :: t)) as Hfirst.
  { intros f s' r t H. apply (runs_bind _ _ _ _ _ [nonce_request] _ _ _ (Hnonce _ eq_refl) H). }
  destruct (safe_transaction_digest (wallet impl) (contracts_chain_id (contracts impl)) call nonce)
    as [digest|e] eqn:Ed.
  2:{ eexists s1, _, _. split; [apply Hfirst; by apply Hthrow|left; by split]. }
  destruct (sign_safe_digest (signer_key impl) digest) as [signature|e] eqn:Es.
  2:{ eexists s1, _, _. split; [apply Hfirst; eapply Hok; [done|]; by apply Hthrow|left; by split]. }
  destruct (build_safe_payload (signer_address impl) (wallet impl) call nonce signature metadata)
    as [payload|e] eqn:Ep.
  2:{ eexists s1, _, _. split; [apply Hfirst; eapply Hok; [done|]; eapply Hok; [done|]; by apply Hthrow|left; by split]. }
  destruct (ask_runs (relayer_post submit_endpoint payload) s1) as (s2 & H2).
  assert (length (journal s1) = S (length (journal s))) as Hl.
  { destruct H1 as (_ & J1 & _). rewrite J1, length_app. cbn. lia. }
  rewrite Hl in H2. eexists s2, _, [nonce_request; relayer_post submit_endpoint payload]. split.
  - apply Hfirst. do 3 (eapply Hok; [done|]). unfold submit.
    rewrite <- (app_nil_r [relayer_post _ _]). eapply runs_bind; [exact H2|]. cbv beta.
    instantiate (1 := match submitted_of (answer (S (length (journal s)))
      (relayer_post submit_endpoint payload)) with inl tx => inl tx | inr e => inr (relayer_failure e) end).
    destruct (submitted_of _); by apply runs_now.
  - right. exists payload. split; [done|]. split; [|done]. by exists nonce, digest, signature.
Qed.

(** A round that made no submission, or one that was rejected for now, before
    the rest; the client sleeps in between. *)
Lemma submitted_unsent call metadata k ms t most r :
  submitted_safely call metadata (k + 2) t most r →
  submitted_safely call metadata k ([nonce_request; pause ms] ++ t) (S most) r.
Proof using Type.
  intros [Hs Ho Hc Ha]. split.
  - intros [|[|n]] endpoint payload H; try done. destruct (Hs n endpoint payload H) as (-> & m & -> & Hm & Hp).
    split; [done|]. exists (S (S m)). split_and!; [done|done|]. by replace (k + S (S m))%nat with (k + 2 + m)%nat by lia.
  - intros [|[|n]] [|[|m]] endpoint payload later Hlt H1 H2; try done; try lia.
    replace (k + S (S n))%nat with (k + 2 + n)%nat by lia. apply (Ho n m _ _ later); [lia|done|done].
  - cbn. fold (submissions t). lia.
  - intros tx Hr. destruct (Ha tx Hr) as (n & payload & H & Htx). exists (S (S n)), payload.
    split; [done|]. by replace (k + S (S n))%nat with (k + 2 + n)%nat by lia.
Qed.

Lemma submitted_rejected call metadata k payload ms t most r :
  signed_payload call metadata (answer k nonce_request) payload →
  rejected_for_now (answer (S k) (relayer_post submit_endpoint payload)) →
  submitted_safely call metadata (k + 3) t most r →
  submitted_safely call metadata k
    ([nonce_request; relayer_post submit_endpoint payload; pause ms] ++ t) (S most) r.
Proof using Type.
  intros Hsigned Hrej [Hs Ho Hc Ha]. split.
  - intros [|[|[|n]]] endpoint p H; try done.
    + cbn in H. simplify_eq. split; [done|]. exists O. by rewrite Nat.add_0_r.
    + destruct (Hs n endpoint p H) as (-> & m & -> & Hm & Hp). split; [done|]. exists (S (S (S m))).
      split_and!; [done|done|]. by replace (k + S (S (S m)))%nat with (k + 3 + m)%nat by lia.
  - intros [|[|[|n]]] m endpoint p later Hlt H1 H2; try done.
    + cbn in H1. simplify_eq. by rewrite Nat.add_1_r.
    + destruct m as [|[|[|m]]]; try lia.
      replace (k + S (S (S n)))%nat with (k + 3 + n)%nat by lia. apply (Ho n m _ _ later); [lia|done|done].
  - cbn. fold (submissions t). lia.
  - intros tx Hr. destruct (Ha tx Hr) as (n & p & H & Htx). exists (S (S (S n))), p.
    split; [done|]. by replace (k + S (S (S n)))%nat with (k + 3 + n)%nat by lia.
Qed.

(** The last round. *)
Lemma submitted_last call metadata k t r :
  (t = [nonce_request] ∧ (∀ tx, r ≠ inl tx)) ∨
  (∃ payload, t = [nonce_request; relayer_post submit_endpoint payload] ∧
     signed_payload call metadata (answer k nonce_request) payload ∧
     r = match submitted_of (answer (S k) (relayer_post submit_endpoint payload)) with
         | inl tx => inl tx | inr e => inr (relayer_failure e) end) →
  submitted_safely call metadata k t 1 r.
Proof using Type.
  intros [[-> Hr]|(payload & -> & Hp & ->)]; split.
  - by intros [|n] endpoint p H.
  - by intros [|n] m endpoint p later _ H.
  - cbn. lia.
  - intros tx Htx. by destruct (Hr tx).
  - intros [|[|n]] endpoint p H; try done. cbn in H. simplify_eq. split; [done|]. exists O.
    by rewrite Nat.add_0_r.
  - intros [|[|n]] [|[|m]] endpoint p later Hlt H1 H2; try done; lia.
  - cbn. lia.
  - intros tx Htx. exists 1%nat, payload. split; [done|]. rewrite Nat.add_1_r.
    by destruct (submitted_of _); simplify_eq.
Qed.

Lemma submitted_more call metadata k t most most' r :
  (most ≤ most')%nat → submitted_safely call metadata k t most r →
  submitted_safely call metadata k t most' r.
Proof using Type. intros Hle [Hs Ho Hc Ha]. split; [done|done|lia|done]. Qed.

Lemma submit_loop_spec retries call metadata s :
  ∃ s' r t, runs (submit_loop impl retries call metadata) s s' r t ∧
    submitted_safely call metadata (length (journal s)) t (S retries) r.
Proof using Hrequest Hoversleep.
  revert s. induction retries as [|retries IH]; intros s;
    destruct (submit_attempt_spec call metadata s) as (s1 & r1 & t1 & H1 & C1);
    pose proof (submitted_last _ _ _ _ _ C1) as S1; cbn [submit_loop].
  - exists s1, r1, t1. split; [|done]. rewrite <- (app_nil_r t1).
    eapply runs_bind; [by apply runs_try|]. cbv beta. destruct r1 as [tx|[]]; by apply runs_now.
  - assert ((∃ e, r1 = inr (relayer_rejected e) ∧ is_retryable_submit_error e = true) ∨
            ∀ e, r1 = inr (relayer_rejected e) → is_retryable_submit_error e = false) as [(e & -> & He)|Hlast].
    { destruct r1 as [|[| e | | | | ]]; try by right. destruct (is_retryable_submit_error e) eqn:E.
      - left. by exists e.
      - right. intros ? [= <-]. done. }
    + destruct (quiet_sleep (relayer_retry_delay impl) s1) as (s2 & r2 & t2 & H2 & _).
      assert (r2 = inl tt ∧ t2 = [pause (relayer_retry_delay impl)]) as [-> ->].
      { destruct H2 as (E2 & J2 & _). unfold sleep_for in E2. simplify_eq. split; [done|].
        cbn in J2. by apply app_inv_head in J2. }
      destruct (IH s2) as (s3 & r3 & t3 & H3 & S3). exists s3, r3, (t1 ++ [pause (relayer_retry_delay impl)] ++ t3).
      split.
      { eapply runs_bind; [by apply runs_try|]. cbv beta iota. rewrite He. cbn [negb].
        by eapply runs_bind. }
      assert (length (journal s2) = length (journal s) + length t1 + 1)%nat as Hl.
      { destruct H1 as (_ & J1 & _), H2 as (_ & J2 & _). rewrite J2, J1, !length_app. cbn. lia. }
      destruct C1 as [[-> _]|(payload & -> & Hp & Hr)].
      * apply submitted_unsent. by replace (length (journal s) + 2)%nat with (length (journal s2)) by (cbn in Hl; lia).
      * apply submitted_rejected; [done| |].
        -- destruct (submitted_of _) as [tx|[e'|e']] eqn:Es; cbn in Hr; simplify_eq. by eexists.
        -- by replace (length (journal s) + 3)%nat with (length (journal s2)) by (cbn in Hl; lia).
    + exists s1, r1, t1. split; [|by eapply submitted_more, S1; lia]. rewrite <- (app_nil_r t1).
      eapply runs_bind; [by apply runs_try|]. cbv beta. destruct r1 as [tx|[| e | | | | ]]; try by apply runs_now.
      rewrite (Hlast e eq_refl). by apply runs_now.
Qed.

Lemma submitted_id response tx : submitted_of response = inl tx → relayer_id tx ≠ "".
Proof using Type.
  unfold submitted_of. repeat case_match; intros; simplify_eq. cbn.
  by match goal with H : bool_decide _ = false |- _ => apply bool_decide_eq_false in H end.
Qed.

Lemma ensure_chain_requests s :
  ∃ s' r t, runs (ensure_chain impl) s s' r t ∧ submissions t = [].
Proof using Hrequest.
  unfold ensure_chain. destruct (chain_verified s) eqn:Ev.
  { exists s, (inl tt), []. split; [|done]. rewrite <- (app_nil_r []).
    eapply runs_bind; [by apply runs_now|]. rewrite Ev. by apply runs_now. }
  set (q := rpc_post "eth_chainId" []).
  assert (∃ s1 r1, runs (rpc_call "eth_chainId" []) s s1 r1 [q]) as (s1 & r1 & H1).
  { eexists _, _. split; [done|]. cbn. split; [done|]. pose proof (Hrequest (length (journal s))). lia. }
  assert (∃ r2, runs get_chain_id s s1 r2 [q]) as (r2 & H2).
  { unfold get_chain_id. destruct r1 as [j|e]; [|exists (inr e); by apply runs_bind_error].
    eexists. rewrite <- (app_nil_r [q]). eapply runs_bind; [exact H1|by apply runs_now]. }
  assert (∃ s' r, runs (node_chain ← get_chain_id;
    if negb (node_chain =? contracts_chain_id (contracts impl)) then
      raise (plain (runtime_error ("RPC node is on chain " +:+ to_string node_chain +:+ ", expected " +:+
                                   to_string (contracts_chain_id (contracts impl)))))
    else verify_chain) s s' r [q]) as (s' & r & H).
  { destruct r2 as [id|e]; [|exists s1, (inr e); by apply runs_bind_error].
    destruct (negb (id =? contracts_chain_id (contracts impl))) eqn:En.
    - eexists s1, _. rewrite <- (app_nil_r [q]). eapply runs_bind; [exact H2|]. rewrite En. by apply runs_now.
    - destruct (quiet_verify s1) as (s2 & r & t & H3 & _). assert (t = []) as ->.
      { destruct H3 as (E & J3 & _). unfold verify_chain in E. simplify_eq. cbn in J3.
        rewrite <- (app_nil_r (journal s1)) in J3 at 1. by apply app_inv_head in J3. }
      exists s2, r. rewrite <- (app_nil_r [q]). eapply runs_bind; [exact H2|]. by rewrite En. }
  exists s', r, [q]. split; [|done]. rewrite <- (app_nil_l [q]).
  eapply runs_bind; [by apply runs_now|]. by rewrite Ev.
Qed.

(** C27: Sending a batch from a Safe comes to an end.  Every submission carries a
    signature by the client's key of the SafeTx digest of that very call, with the
    nonce the relayer gave in the request just before; nothing is submitted again
    unless the relayer rejected the submission before with an answer that is
    retried (so never after an accepted, a lost or an unreadable one); there are at
    most [relayer_max_submit_retries + 1] submissions; and the handle is for the
    transaction of an accepted submission. *)
Theorem safe_submissions_signed calls metadata s :
  ∃ s' r before t, execute_from_safe impl calls metadata s = Some (s', r) ∧
    journal s' = before ++ t ∧ submissions before = submissions (journal s) ∧
    ((t = [] ∧ ∃ e, r = inr e) ∨
     ∃ call submitted, resolve_safe_call calls (contracts impl) = Ok call ∧
       submitted_safely call metadata (length before) t
         (S (Z.to_nat (relayer_max_submit_retries impl))) submitted ∧
       match submitted with
       | inl tx => r = inl (MkHandle (if bool_decide (relayer_hash tx = "") then [] else [relayer_hash tx])
                              (relayer_id tx) (relayer_waiter (relayer_id tx) (relayer_hash tx)))
       | inr e => r = inr e
       end).
Proof using Hrequest Hoversleep.
  destruct (ensure_chain_requests s) as (s1 & r1 & t1 & H1 & B1). pose proof H1 as (E1 & J1 & _).
  assert (submissions (journal s ++ t1) = submissions (journal s)) as Bs.
  { unfold submissions in *. by rewrite omap_app, B1, app_nil_r. }
  unfold execute_from_safe, mbind, pos_bind, lift. rewrite E1. destruct r1 as [[]|e].
  2:{ exists s1, (inr e), (journal s ++ t1), []. rewrite app_nil_r. split; [done|]. split; [done|].
      split; [done|]. left. by eauto. }
  destruct (resolve_safe_call calls (contracts impl)) as [call|e] eqn:Ec.
  2:{ eexists s1, _, (journal s ++ t1), []. rewrite app_nil_r. split; [done|]. split; [done|].
      split; [done|]. left. by eauto. }
  destruct (submit_loop_spec (Z.to_nat (relayer_max_submit_retries impl)) call metadata s1)
    as (s2 & submitted & t & (E2 & J2 & _) & S2). rewrite E2.
  rewrite J1 in J2, S2. destruct submitted as [tx|e].
  - destruct (submitted_accepted _ _ _ _ _ _ S2 tx eq_refl) as (n & p & _ & Hid%submitted_id).
    eexists s2, _, (journal s ++ t1), t. split.
    { unfold make_handle. rewrite (bool_decide_false (relayer_id tx = "")), andb_false_r by done. done. }
    split; [done|]. split; [done|]. right. by exists call, (inl tx).
  - exists s2, (inr e), (journal s ++ t1), t. split; [done|]. split; [done|]. split; [done|].
    right. by exists call, (inr e).
Qed.
End Sends.

(** ** Witnesses *)

(** A node that answers the requests of two transactions in turn. *)
Definition sample_impl : PositionImpl :=
  MkImpl polygon_mainnet (word_of 7) sample_wallet sample_wallet 0 1000 2.
Definition sample_call (data : string) : ContractCall :=
  MkCall (collateral_token polygon_mainnet) data "0".
Definition sample_signed (nonce data : string) : EvmTransaction.EvmSignedTransaction :=
  match EvmTransaction.evm_sign_legacy_transaction (signer_key sample_impl)
    (EvmTransaction.MkTransaction nonce "0x5" "0x5208" (collateral_token polygon_mainnet) "0x0" data
       (contracts_chain_id polygon_mainnet)) with
  | Ok signed => signed
  | Throw _ => EvmTransaction.MkSigned "" ""
  end.
Definition sample_hash (nonce data : string) : json :=
  JString (EvmTransaction.transaction_hash (sample_signed nonce data)).
Definition sample_receipt : json :=
  JObject [("transactionHash", sample_hash "0x0" "0xaa"); ("blockHash", sample_hash "0x0" "0xaa");
           ("blockNumber", JString "0x10"); ("gasUsed", JString "0x5208"); ("status", JString "0x1");
           ("logs", JArray [])].
Definition sample_results : list json :=
  [JString "0x89"; JString "0x0"; JString "0x5"; JString "0x5208"; sample_hash "0x0" "0xaa"; sample_receipt;
   JString "0x1"; JString "0x5"; JString "0x5208"; sample_hash "0x1" "0xbb"].
Definition sample_rpc : JsonLibrary := {|
  json_parse text :=
    n ← find (λ n, bool_decide (text = to_string (Z.of_nat n))) (seq 0 (length sample_results));
    result ← sample_results !! n;
    Some (JObject [("jsonrpc", JString "2.0"); ("id", JInteger (Z.of_nat n + 1)); ("result", result)]);
  json_dump _ := "" |}.
Definition sample_world : PositionWorld := {|
  answer n _ := MkResponse 200 (to_string (Z.of_nat n)) "" ∅;
  gamma_markets _ _ _ := success [];
  request_time _ := 1000;
  oversleep _ := 0 |}.


(** A relayer that is busy once. *)
Definition relayer_json : JsonLibrary := {|
  json_parse text :=
    snd <$> find (λ entry, bool_decide (text = entry.1))
      [("chain", JObject [("jsonrpc", JString "2.0"); ("id", JInteger 1); ("result", JString "0x89")]);
       ("nonce", JObject [("nonce", JString "5")]);
       ("accepted", JObject [("transactionID", JString "tx1"); ("state", JString "STATE_NEW")])];
  json_dump _ := "" |}.
Definition relayer_world : PositionWorld := {|
  answer n _ :=
    default (MkResponse 0 "" "" ∅)
      ([MkResponse 200 "chain" "" ∅; MkResponse 200 "nonce" "" ∅; MkResponse 429 "slow down" "" ∅;
        MkResponse 0 "" "" ∅; MkResponse 200 "nonce" "" ∅; MkResponse 200 "accepted" "" ∅] !! n);
  gamma_markets _ _ _ := success [];
  request_time _ := 1000;
  oversleep _ := 0 |}.

Lemma safe_submissions_signed_witness :
  let J := relayer_json in let T : JsonTypeErrors := λ _, "" in let W := relayer_world in
  let call := sample_call "0xaa" in
  (∃ s', execute_from_safe sample_impl [call] "note" (MkState false 1 [] 0) =
     Some (s', inl (MkHandle [] "tx1" (relayer_waiter "tx1" ""))) ∧
     length (submissions (journal s')) = 2%nat) ∧
  ∃ s' r before t, execute_from_safe sample_impl [call] "note" (MkState false 1 [] 0) = Some (s', r) ∧
    journal s' = before ++ t ∧ submissions before = submissions [] ∧
    ((t = [] ∧ ∃ e, r = inr e) ∨
     ∃ safe submitted, resolve_safe_call [call] (contracts sample_impl) = Ok safe ∧
       submitted_safely sample_impl safe "note" (length before) t
         (S (Z.to_nat (relayer_max_submit_retries sample_impl))) submitted ∧
       match submitted with
       | inl tx => r = inl (MkHandle (if bool_decide (relayer_hash tx = "") then [] else [relayer_hash tx])
                              (relayer_id tx) (relayer_waiter (relayer_id tx) (relayer_hash tx)))
       | inr e => r = inr e
       end).
Proof.
  intros J T W call. split; [eexists; split; by vm_compute|].
  exact (safe_submissions_signed (World := W) (λ _, ltac:(by vm_compute)) (λ _, ltac:(by vm_compute)) sample_impl
           [call] "note" (MkState false 1 [] 0)).
Defined.
