(* ===== verification/EvmIndexer.v ===== *)
(** * The event indexer: delivery and catch-up
    (src/evm_indexer_transport.hpp, evm_event_indexer.cpp, evm_event_dispatch.cpp,
    evm_live_handoff.cpp)

    The state of [EvmEventIndexerImpl], the delivery of one log to the user's
    callback, and the scan of block ranges that brings the cursor up to a block.
    A scan hands each log to the delivery worker and waits for it, so its effect
    is [emit_log] followed by the scan's own checkpoint; the state changes other
    threads make in between are the subject of [EvmLive].

    The node is a parameter: [block_number] and [get_logs] answer the calls of
    [EvmEventIndexerTransport].  So is the user's log callback, which may throw
    and may decide from the logs it has seen.  The checkpoint callback is taken
    not to throw, and the cursor store to succeed. *)
From stdpp Require Import sorting.
From S2P Require Import Prelude Text EvmBytes Orderbook EvmCursor.

#[local] Open Scope Z_scope.

(** ** Data *)

Record EvmEventIndexerConfig := MkIndexerConfig {
  cursor_name : string;
  start_block : Z;
  confirmations : Z;
  batch_size : Z;
  reorg_lookback_blocks : Z }.

Record EvmDeliveryJob := MkJob {
  job_log : EvmLog;
  job_live : bool;
  job_generation : Z;
  job_waited : bool  (** somebody waits for its completion *) }.

Record EvmDeliveryError := MkDeliveryError {
  error_generation : Z;
  error_message : string;
  occurrences : Z }.

Record EvmDeliveredLog := MkDelivered { delivered_log : EvmLog; delivered_block : Z }.

Record LiveState := MkLiveState {
  buffering : bool;
  started : bool;
  accepting_live : bool;
  has_buffered_head : bool;
  has_pending_head : bool;
  refresh_head_pending : bool;
  overlap_recovery_pending : bool;
  handoff_gap_pending : bool;
  worker_shutdown : bool;
  delivery_shutdown : bool;
  reconciliation_active : bool;
  generation : Z;
  durable_through : Z;
  buffered_head : Z;
  pending_head : Z;
  pending_generation : Z;
  buffered_logs : list EvmLog;
  historical_deliveries : list EvmDeliveryJob;
  live_deliveries : list EvmDeliveryJob;
  delivery_errors : list EvmDeliveryError;
  coalesced_delivery_errors : Z;
  delivery_error_generation : Z }.

Definition initial_live : LiveState :=
  MkLiveState false false false false false false false false false false false
    0 0 0 0 0 [] [] [] [] 0 0.

Record EvmIndexedLog := MkIndexed { indexed_log : EvmLog; indexed_live : bool }.

(** [delivered_logs] of the live state, the cursor store, and what the callbacks
    have been called with, oldest first. *)
Record EvmEventIndexer := MkIndexer {
  live_state : LiveState;
  delivered_logs : gmap string EvmDeliveredLog;
  cursors : cursor_file;
  emitted : list EvmIndexedLog;
  checkpoints : list Z }.

Definition new_indexer (file : cursor_file) : EvmEventIndexer :=
  MkIndexer initial_live ∅ file [] [].

Record EvmCatchUpReport := MkReport {
  report_from : Z;
  report_to : Z;
  ranges_scanned : Z;
  logs_seen : Z }.

Definition set_delivered (d : gmap string EvmDeliveredLog) (s : EvmEventIndexer) : EvmEventIndexer :=
  MkIndexer (live_state s) d (cursors s) (emitted s) (checkpoints s).
Definition set_cursors (f : cursor_file) (s : EvmEventIndexer) : EvmEventIndexer :=
  MkIndexer (live_state s) (delivered_logs s) f (emitted s) (checkpoints s).
Definition add_emitted (l : EvmIndexedLog) (s : EvmEventIndexer) : EvmEventIndexer :=
  MkIndexer (live_state s) (delivered_logs s) (cursors s) (emitted s ++ [l]) (checkpoints s).
Definition add_checkpoint (b : Z) (s : EvmEventIndexer) : EvmEventIndexer :=
  MkIndexer (live_state s) (delivered_logs s) (cursors s) (emitted s) (checkpoints s ++ [b]).

(** [EvmEventIndexerImpl(...)]: the guards of the constructor. *)
Definition checked_config (c : EvmEventIndexerConfig) : res EvmEventIndexerConfig :=
  if reorg_lookback_blocks c =? 0
  then Throw (invalid_argument "EVM reorg lookback must be positive") else Ok c.

(** The node, and the user's log callback: the logs it has seen, the log, and
    whether it throws. *)
Class EvmNode := {
  block_number_text : res string;
  get_logs : string → string → res (list EvmLog) }.
Class LogCallback := log_callback : list EvmIndexedLog → EvmIndexedLog → res unit.

(** An operation of the indexer: its new state, and what it returns or throws. *)
Definition M (A : Type) : Type := EvmEventIndexer → EvmEventIndexer * res A.

#[export] Instance M_ret : MRet M := λ A a s, (s, Ok a).
#[export] Instance M_bind : MBind M := λ A B f m s,
  match m s with
  | (s', Ok a) => f a s'
  | (s', Throw e) => (s', Throw e)
  end.

Definition lift {A} (r : res A) : M A := λ s, (s, r).
Definition update (f : EvmEventIndexer → EvmEventIndexer) : M unit := λ s, (f s, Ok tt).
Definition gets {A} (f : EvmEventIndexer → A) : M A := λ s, (s, Ok (f s)).

Section Indexer.
Context `{EvmNode, LogCallback, StdSort} (config_ : EvmEventIndexerConfig).

Definition generation_current (generation_ : Z) : M bool :=
  gets (λ s, generation_ =? generation (live_state s)).

Definition cursor_of (s : EvmEventIndexer) : option EvmIndexCursor :=
  load_cursor (cursors s) (cursor_name config_).

(** ** Delivery of one log *)

(** A live removal at or below the cursor rewinds it. *)
Definition rewind_for_removal (log : EvmLog) (live : bool) : M unit :=
  if live && l_removed log && negb (bool_decide (l_block_number log = "")) then
    block ← lift (evm_quantity_to_uint64 (l_block_number log));
    saved ← gets cursor_of;
    match saved with
    | Some c =>
        if block <=? block_number c then
          update (λ s, add_checkpoint block
                         (set_cursors (rewind (cursors s) (cursor_name config_) block) s))
        else mret tt
    | None => mret tt
    end
  else mret tt.

(** The callback, and the undoing of the delivered set when it throws. *)
Definition run_log_callback (id : string) (log : EvmLog) (live : bool)
    (removed_delivery : option EvmDeliveredLog) : M bool := λ s,
  match log_callback (emitted s) (MkIndexed log live) with
  | Ok _ => (add_emitted (MkIndexed log live) s, Ok true)
  | Throw e =>
      (match removed_delivery with
       | Some d => set_delivered (<[id := d]> (delivered_logs s)) s
       | None =>
           if negb (l_removed log) && negb (bool_decide (id = ""))
           then set_delivered (delete id (delivered_logs s)) s else s
       end, Throw e)
  end.

Definition emit_log (log : EvmLog) (live : bool) : M bool :=
  _ ← rewind_for_removal log live;
  shutdown ← gets (λ s, delivery_shutdown (live_state s));
  if (shutdown : bool) then mret false else
  let id := evm_log_identity log in
  block ← lift (evm_log_block log);
  delivered ← gets delivered_logs;
  if l_removed log then
    _ ← update (set_delivered (delete id delivered));
    run_log_callback id log live (delivered !! id)
  else if bool_decide (id = "") then run_log_callback id log live None
  else
    match delivered !! id with
    | Some _ => mret false
    | None =>
        _ ← update (set_delivered (<[id := MkDelivered log block]> delivered));
        run_log_callback id log live None
    end.

(** [dispatch_log(..., wait = true)]: the delivery worker emits the log while
    the caller waits, and its exception is thrown again to the caller. *)
Definition dispatch_log_wait (log : EvmLog) (live : bool) (generation_ : Z) : M bool :=
  stale ← gets (λ s, delivery_shutdown (live_state s) || negb (generation_ =? generation (live_state s)));
  if (stale : bool) then mret false else emit_log log live.

(** ** Checkpoints *)

Definition prune_delivered (durable_block : Z) : M unit :=
  if durable_block <=? reorg_lookback_blocks config_ then mret tt
  else
    let cutoff := durable_block - reorg_lookback_blocks config_ in
    update (λ s, set_delivered
      (filter (λ p : string * EvmDeliveredLog, cutoff < delivered_block p.2) (delivered_logs s)) s).

Definition save_checkpoint (block : Z) : M unit :=
  _ ← update (λ s, add_checkpoint block
        (set_cursors (save_cursor (cursors s) (cursor_name config_) (MkCursor block true None)) s));
  prune_delivered block.

Definition save_log_checkpoint (log : EvmLog) : M unit :=
  block ← lift (evm_quantity_to_uint64 (l_block_number log));
  position ← lift (evm_log_position log);
  update (λ s, set_cursors
    (save_cursor (cursors s) (cursor_name config_) (MkCursor block false (Some position))) s).

(** ** Scanning *)

(** The comparison of [scan_ranges]. *)
Definition scan_before (left right : EvmLog) : res bool :=
  left_block ← evm_quantity_to_uint64 (l_block_number left);
  right_block ← evm_quantity_to_uint64 (l_block_number right);
  if negb (left_block =? right_block) then Ok (left_block <? right_block)
  else
    left_position ← evm_log_position left;
    right_position ← evm_log_position right;
    Ok (negb (evm_position_at_or_before right_position left_position)).

Definition before_value (r : res bool) : bool := match r with Ok b => b | Throw _ => false end.

(** The first exception a comparison of two of the logs throws. *)
Fixpoint first_failure (rs : list (res bool)) : res unit :=
  match rs with
  | [] => Ok tt
  | r :: rs' => _ ← r; first_failure rs'
  end.

(** [std::stable_sort]: it throws when a comparison does. *)
Definition sort_logs_by (log_before : EvmLog → EvmLog → res bool) (logs : list EvmLog) : res (list EvmLog) :=
  match logs with
  | [] | [_] => Ok logs
  | _ =>
      _ ← first_failure (flat_map (λ l, map (log_before l) logs) logs);
      Ok (std_sort (λ l r, before_value (log_before l r)) logs)
  end.
Definition sort_logs : list EvmLog → res (list EvmLog) := sort_logs_by scan_before.

(** A log the saved cursor already covers. *)
Definition already_indexed (resume : option EvmIndexCursor) (block : Z) (log : EvmLog) : res bool :=
  match resume with
  | Some c =>
      match last_log c with
      | Some last =>
          if negb (block_complete c) && (block =? block_number c) &&
             bool_decide (block_hash last = l_block_hash log)
          then position ← evm_log_position log; Ok (evm_position_at_or_before position last)
          else Ok false
      | None => Ok false
      end
  | None => Ok false
  end.

(** [false] when the generation has moved on, with the report so far. *)
Fixpoint scan_logs (logs : list EvmLog) (persist : bool) (resume : option EvmIndexCursor)
    (report : EvmCatchUpReport) (generation_ : Z) : M (bool * EvmCatchUpReport) :=
  match logs with
  | [] => mret (true, report)
  | log :: logs' =>
      current ← generation_current generation_;
      if negb current then mret (false, report) else
      block ← lift (evm_quantity_to_uint64 (l_block_number log));
      skip ← lift (already_indexed resume block log);
      if (skip : bool) then scan_logs logs' persist resume report generation_ else
      let report := MkReport (report_from report) (report_to report) (ranges_scanned report)
                      (u64 (logs_seen report + 1)) in
      _ ← dispatch_log_wait log false generation_;
      current ← generation_current generation_;
      if negb current then mret (false, report) else
      _ ← (if persist && negb (l_removed log) then save_log_checkpoint log else mret tt);
      scan_logs logs' persist resume report generation_
  end.

Fixpoint scan_each (ranges : list EvmBlockRange) (persist : bool) (resume : option EvmIndexCursor)
    (report : EvmCatchUpReport) (generation_ : Z) : M (bool * EvmCatchUpReport) :=
  match ranges with
  | [] => mret (true, report)
  | range :: ranges' =>
      current ← generation_current generation_;
      if negb current then mret (false, report) else
      logs ← lift (get_logs (evm_uint64_to_quantity (from_block range))
                            (evm_uint64_to_quantity (to_block range)));
      current ← generation_current generation_;
      if negb current then mret (false, report) else
      logs ← lift (sort_logs logs);
      scanned ← scan_logs logs persist resume report generation_;
      if negb scanned.1 then mret (false, scanned.2) else
      let report := MkReport (report_from scanned.2) (report_to scanned.2)
                      (u64 (ranges_scanned scanned.2 + 1)) (logs_seen scanned.2) in
      current ← generation_current generation_;
      if negb current then mret (false, report) else
      _ ← (if persist then save_checkpoint (to_block range) else mret tt);
      scan_each ranges' persist resume report generation_
  end.

Definition scan_ranges (from to : Z) (persist : bool) (resume : option EvmIndexCursor)
    (report : EvmCatchUpReport) (generation_ : Z) : M (bool * EvmCatchUpReport) :=
  ranges ← lift (evm_make_block_ranges from to (batch_size config_));
  scan_each ranges persist resume report generation_.

(** The scan from the block after the saved cursor. *)
Definition catch_up_from (from : Z) (saved : option EvmIndexCursor) (target durable generation_ : Z) :
    M EvmCatchUpReport :=
  scanned ← scan_ranges from (Z.min target durable) true saved (MkReport from target 0 0) generation_;
  if negb scanned.1 then mret scanned.2 else
  if durable <? target then
    scanned ← scan_ranges (Z.max from (u64 (durable + 1))) target false saved scanned.2 generation_;
    mret scanned.2
  else mret scanned.2.

Definition catch_up_to (target durable generation_ : Z) : M EvmCatchUpReport :=
  saved ← gets cursor_of;
  match saved with
  | Some c =>
      if block_complete c && (block_number c =? u64_max)
      then mret (MkReport (block_number c) target 0 0)
      else catch_up_from (block_number c + (if block_complete c then 1 else 0)) saved target durable generation_
  | None => catch_up_from (start_block config_) None target durable generation_
  end.

Definition catch_up : M EvmCatchUpReport :=
  text ← lift block_number_text;
  latest ← lift (evm_quantity_to_uint64 text);
  let target := if confirmations config_ <? latest then latest - confirmations config_ else 0 in
  generation_ ← gets (λ s, generation (live_state s));
  catch_up_to target target generation_.
End Indexer.

(** ** Every log once

    The successful runs of the log callback and the prunings, as events, and what
    a list of events leaves delivered; [None] when a log is delivered while it
    is already. *)

Inductive delivery_event :=
  | log_event (log : EvmLog)
  | prune_event (cutoff : Z).

Definition event_block (log : EvmLog) : Z :=
  match evm_log_block log with Ok b => b | Throw _ => 0 end.

Definition deliver (m : gmap string Z) (e : delivery_event) : option (gmap string Z) :=
  match e with
  | log_event log =>
      let id := evm_log_identity log in
      if bool_decide (id = "") then Some m
      else if l_removed log then Some (delete id m)
      else match m !! id with
           | Some _ => None
           | None => Some (<[id := event_block log]> m)
           end
  | prune_event cutoff => Some (filter (λ p : string * Z, cutoff < p.2) m)
  end.

Fixpoint deliver_all (m : gmap string Z) (es : list delivery_event) : option (gmap string Z) :=
  match es with
  | [] => Some m
  | e :: es' => match deliver m e with Some m' => deliver_all m' es' | None => None end
  end.

#[export] Instance log_eq_dec : EqDecision EvmLog.
Proof. solve_decision. Defined.
#[export] Instance indexed_log_eq_dec : EqDecision EvmIndexedLog.
Proof. solve_decision. Defined.

(** What the indexer is asked to deliver and to checkpoint, in any order. *)
Inductive delivery_op :=
  | op_emit (log : EvmLog) (live : bool)
  | op_checkpoint (block : Z).

Section Deliveries.
Context `{LogCallback} (config_ : EvmEventIndexerConfig).

Definition run_op (o : delivery_op) (s : EvmEventIndexer) : EvmEventIndexer :=
  match o with
  | op_emit log live => (emit_log config_ log live s).1
  | op_checkpoint block => (save_checkpoint config_ block s).1
  end.

Definition op_events (o : delivery_op) (s : EvmEventIndexer) : list delivery_event :=
  match o with
  | op_emit log live =>
      if bool_decide (emitted (run_op o s) = emitted s) then [] else [log_event log]
  | op_checkpoint block =>
      if block <=? reorg_lookback_blocks config_ then []
      else [prune_event (block - reorg_lookback_blocks config_)]
  end.

Fixpoint run_ops (os : list delivery_op) (s : EvmEventIndexer) : EvmEventIndexer * list delivery_event :=
  match os with
  | [] => (s, [])
  | o :: os' =>
      let '(s', es) := run_ops os' (run_op o s) in (s', op_events o s ++ es)
  end.

(** The blocks of the delivered logs. *)
Definition delivered_blocks (s : EvmEventIndexer) : gmap string Z :=
  delivered_block <$> delivered_logs s.
End Deliveries.

Section DeliveryFacts.
Context `{LogCallback} (config_ : EvmEventIndexerConfig).

Lemma bind_M {A B} (m : M A) (f : A → M B) s :
  (m ≫= f) s = match m s with (s', Ok a) => f a s' | (s', Throw e) => (s', Throw e) end.
Proof. done. Qed.

(** Everything of the state but cursors and checkpoints. *)
Definition same_deliveries (s s' : EvmEventIndexer) : Prop :=
  live_state s' = live_state s ∧ delivered_logs s' = delivered_logs s ∧ emitted s' = emitted s.

Lemma rewind_same log live s : same_deliveries s (rewind_for_removal config_ log live s).1.
Proof.
  unfold rewind_for_removal. case_if; [|done]. rewrite bind_M. unfold lift at 1.
  destruct (evm_quantity_to_uint64 _); [|done]. rewrite bind_M. unfold gets.
  destruct (cursor_of config_ s); [|done]. case_if; done.
Qed.

(** What emitting a log does to the deliveries: nothing, or one run of the
    callback and the change of the delivered set that goes with it. *)
Definition emit_post (log : EvmLog) (live : bool) (s s' : EvmEventIndexer) : Prop :=
  live_state s' = live_state s ∧
  (emitted s' = emitted s ∧ delivered_logs s' = delivered_logs s ∨
   emitted s' = emitted s ++ [MkIndexed log live] ∧
   let id := evm_log_identity log in
   if l_removed log then delivered_logs s' = delete id (delivered_logs s)
   else if bool_decide (id = "") then delivered_logs s' = delivered_logs s
   else delivered_logs s !! id = None ∧
        delivered_logs s' = <[id := MkDelivered log (event_block log)]> (delivered_logs s)).

Lemma emit_unchanged log live s s' :
  same_deliveries s s' → emit_post log live s s'.
Proof. intros (? & ? & ?). split; [done|by left]. Qed.

Lemma emit_log_effect log live s :
  delivered_logs s !! "" = None → emit_post log live s (emit_log config_ log live s).1.
Proof.
  intros Hempty. unfold emit_log. rewrite bind_M.
  pose proof (rewind_same log live s) as Hsame.
  destruct (rewind_for_removal config_ log live s) as [s1 [u|e]]; cbn [fst] in Hsame;
    [|by apply emit_unchanged].
  rewrite bind_M. unfold gets at 1.
  destruct (delivery_shutdown (live_state s1)); [by apply emit_unchanged|].
  rewrite bind_M. unfold lift.
  destruct (evm_log_block log) as [block|e] eqn:Eb; [|by apply emit_unchanged].
  rewrite bind_M. unfold gets. set (id := evm_log_identity log).
  destruct Hsame as (Hl & Hd & He). unfold emit_post, event_block. fold id.
  rewrite Eb, <- Hl, <- He, <- Hd. rewrite <- Hd in Hempty. clear Hl Hd He.
  destruct (l_removed log) eqn:Er; [|destruct (bool_decide (id = "")) eqn:Eid].
  - rewrite bind_M. unfold run_log_callback. cbn.
    destruct (log_callback _ _) as [?|?]; cbn; [by auto|].
    destruct (delivered_logs s1 !! id) as [d|] eqn:Ed; rewrite ?Er; cbn;
      (split; [done|left; split; [done|]]).
    + by rewrite insert_delete_id.
    + by rewrite delete_id.
  - unfold run_log_callback. destruct (log_callback _ _) as [?|?]; cbn; [by auto|].
    rewrite Eid, andb_false_r. by auto.
  - destruct (delivered_logs s1 !! id) as [d|] eqn:Ed; [by auto|].
    rewrite bind_M. unfold run_log_callback. cbn.
    destruct (log_callback _ _) as [?|?]; cbn; [by auto 10|].
    rewrite Er, Eid. cbn. split; [done|left; split; [done|]].
    by rewrite delete_insert_id.
Qed.

(** ** The delivered set is the fold of the events *)

Lemma run_op_deliver o s :
  delivered_logs s !! "" = None →
  deliver_all (delivered_blocks s) (op_events config_ o s) = Some (delivered_blocks (run_op config_ o s)) ∧
  delivered_logs (run_op config_ o s) !! "" = None.
Proof.
  intros Hempty. unfold delivered_blocks. destruct o as [log live|block].
  - cbn [run_op op_events]. pose proof (emit_log_effect log live s Hempty) as [_ Hpost].
    destruct Hpost as [[He Hd]|[He Hd]].
    + rewrite bool_decide_eq_true_2 by done. by rewrite Hd.
    + rewrite bool_decide_eq_false_2.
      2:{ rewrite He. intros Heq. apply (f_equal length) in Heq. rewrite length_app in Heq. cbn in Heq. lia. }
      cbn [deliver_all deliver]. cbv zeta in Hd. set (id := evm_log_identity log) in *.
      destruct (bool_decide (id = "")) eqn:Eid.
      * bools. rewrite Eid in Hd. destruct (l_removed log); rewrite Hd; [|done].
        by rewrite delete_id by done.
      * bools. destruct (l_removed log); [rewrite Hd|destruct Hd as [Hn ->]].
        -- rewrite fmap_delete. split; [done|]. by rewrite lookup_delete_ne.
        -- rewrite lookup_fmap, Hn. cbn. rewrite fmap_insert. split; [done|].
           by rewrite lookup_insert_ne.
  - cbn [run_op op_events]. unfold save_checkpoint. rewrite bind_M. unfold update at 1, prune_delivered.
    case_if; [done|]. unfold update. cbn. split.
    + f_equal. by rewrite map_filter_fmap.
    + apply map_lookup_filter_None. by left.
Qed.

Lemma run_ops_deliver os s :
  delivered_logs s !! "" = None →
  deliver_all (delivered_blocks s) (run_ops config_ os s).2 =
    Some (delivered_blocks (run_ops config_ os s).1).
Proof.
  revert s. induction os as [|o os IH]; intros s Hs; [done|]. cbn.
  destruct (run_op_deliver o s Hs) as [Hd Hs']. specialize (IH _ Hs').
  destruct (run_ops config_ os (run_op config_ o s)) as [s' es]. cbn in *.
  assert (Happ : ∀ es1 es2 m m', deliver_all m es1 = Some m' →
            deliver_all m (es1 ++ es2) = deliver_all m' es2).
  { induction es1 as [|e es1 IHe]; intros es2 m m' Hm; cbn in *; [by injection Hm as <-|].
    destruct (deliver m e); [by apply IHe|done]. }
  by rewrite (Happ _ _ _ _ Hd).
Qed.

(** C11: whatever logs, live and removed ones among them, are emitted in whatever
    order between checkpoints, and whenever the callback throws, the callback
    never completes for a log that is already delivered: it must have been
    removed or pruned by a checkpoint since.  The set of delivered logs is
    exactly what the completed calls and the checkpoints leave. *)
Theorem logs_delivered_once os file :
  let '(s, events) := run_ops config_ os (new_indexer file) in
  deliver_all ∅ events = Some (delivered_blocks s).
Proof.
  pose proof (run_ops_deliver os (new_indexer file) (lookup_empty _)) as Hd.
  destruct (run_ops config_ os (new_indexer file)) as [s events]. unfold delivered_blocks in Hd at 1.
  cbn in Hd. by rewrite fmap_empty in Hd.
Qed.
End DeliveryFacts.

(** ** Catching up with a chain *)

Definition chain_block (l : EvmLog) : Z :=
  match evm_quantity_to_uint64 (l_block_number l) with Ok b => b | Throw _ => 0 end.

Definition chain_position (l : EvmLog) : EvmLogPosition :=
  match evm_log_position l with Ok p => p | Throw _ => MkPosition 0 0 "" end.

Definition before (l r : EvmLog) : bool := before_value (scan_before l r).

(** A log as a node reports it: all its numbers are there. *)
Definition log_wf (l : EvmLog) : bool :=
  is_ok (evm_quantity_to_uint64 (l_block_number l)) && is_ok (evm_log_position l) &&
  negb (l_removed l) && negb (bool_decide (evm_log_identity l = "")).

(** The logs of a chain that does not reorganise, in order. *)
Record canonical_chain (chain : list EvmLog) : Prop := {
  chain_wf : Forall (λ l, log_wf l = true) chain;
  chain_sorted : StronglySorted (λ l r, before l r = true) chain;
  chain_ids : NoDup (evm_log_identity <$> chain);
  chain_hashes l r : l ∈ chain → r ∈ chain → chain_block l = chain_block r →
    l_block_hash l = l_block_hash r }.

(** The node answers a range with the logs of the chain in it, in any order. *)
Definition node_serves `{EvmNode} (chain : list EvmLog) : Prop :=
  ∀ a b, is_u64 a → is_u64 b →
    ∃ logs, get_logs (evm_uint64_to_quantity a) (evm_uint64_to_quantity b) = Ok logs ∧
      logs ≡ₚ filter (λ l, a ≤ chain_block l ≤ b) chain.

(** What a cursor says was indexed. *)
Definition covered (start : Z) (c : option EvmIndexCursor) (l : EvmLog) : bool :=
  match c with
  | None => chain_block l <? start
  | Some c =>
      (chain_block l <? block_number c) ||
      ((chain_block l =? block_number c) &&
       (block_complete c ||
        match last_log c with
        | Some p => bool_decide (block_hash p = l_block_hash l) &&
                    evm_position_at_or_before (chain_position l) p
        | None => false
        end))
  end.

(** What is left to index up to a block. *)
Definition todo (chain : list EvmLog) (start target : Z) (c : option EvmIndexCursor) : list EvmLog :=
  filter (λ l, covered start c l = false ∧ chain_block l ≤ target) chain.

(** A cursor a scan of this chain can have saved. *)
Definition cursor_on_chain (chain : list EvmLog) (c : option EvmIndexCursor) : Prop :=
  match c with
  | None => True
  | Some c =>
      is_u64 (block_number c) ∧
      (block_complete c = false → ∀ p, last_log c = Some p →
       ∃ l, l ∈ chain ∧ chain_block l = block_number c ∧ p = chain_position l)
  end.

Definition log_cursor (l : EvmLog) : EvmIndexCursor :=
  MkCursor (chain_block l) false (Some (chain_position l)).

Definition history (ls : list EvmLog) : list EvmIndexedLog := (λ l, MkIndexed l false) <$> ls.

(** ** The order of logs *)

Lemma log_wf_parses l :
  log_wf l = true →
  evm_quantity_to_uint64 (l_block_number l) = Ok (chain_block l) ∧
  evm_log_position l = Ok (chain_position l) ∧ l_removed l = false ∧ evm_log_identity l ≠ "".
Proof.
  unfold log_wf, chain_block, chain_position. intros Hw. bools.
  by destruct (evm_quantity_to_uint64 _), (evm_log_position l).
Qed.

Lemma chain_position_hash l : log_wf l = true → block_hash (chain_position l) = l_block_hash l.
Proof.
  intros (_ & Hp & _)%log_wf_parses. unfold evm_log_position in Hp.
  apply bind_Ok in Hp as (ti & _ & Hp). apply bind_Ok in Hp as (li & _ & Hp).
  by apply Ok_inj in Hp as <-.
Qed.

Definition log_key (l : EvmLog) : Z * (Z * Z) :=
  (chain_block l, (transaction_index (chain_position l), log_index (chain_position l))).

Lemma before_key l r :
  log_wf l = true → log_wf r = true → before l r = true ↔ key_lt (log_key l) (log_key r).
Proof.
  intros (Hbl & Hpl & _)%log_wf_parses (Hbr & Hpr & _)%log_wf_parses.
  unfold before, scan_before, key_lt, log_key. rewrite Hbl, Hbr. cbn [mbind res_bind].
  destruct (Z.eqb_spec (chain_block l) (chain_block r)) as [E|E]; cbn.
  - rewrite Hpl, Hpr. cbn. unfold evm_position_at_or_before.
    rewrite negb_true_iff, orb_false_iff, andb_false_iff, Z.ltb_ge, Z.eqb_neq, Z.leb_gt. lia.
  - rewrite Z.ltb_lt. lia.
Qed.

Lemma scan_before_Ok l r :
  log_wf l = true → log_wf r = true → scan_before l r = Ok (before l r).
Proof.
  intros (Hbl & Hpl & _)%log_wf_parses (Hbr & Hpr & _)%log_wf_parses.
  unfold before, scan_before. rewrite Hbl, Hbr. cbn [mbind res_bind].
  case_if; [done|]. by rewrite Hpl, Hpr.
Qed.

Lemma first_failure_Ok rs : Forall (λ r, is_ok r = true) rs → first_failure rs = Ok tt.
Proof. induction 1 as [|r rs Hr _ IH]; [done|]. cbn. by destruct r. Qed.

Lemma strongly_sorted_total {A} (R : A → A → Prop) l a b :
  StronglySorted R l → a ∈ l → b ∈ l → a = b ∨ R a b ∨ R b a.
Proof.
  induction 1 as [|x l _ IH Hx]; [set_solver|]. rewrite Forall_forall in Hx.
  rewrite !elem_of_cons. intros [->|Ha] [->|Hb]; auto.
Qed.

(** Sorting any arrangement of a slice of the chain gives the slice. *)
Lemma sort_logs_chain `{StdSort} logs l :
  Forall (λ x, log_wf x = true) l → StronglySorted (λ x y, before x y = true) l →
  logs ≡ₚ l → sort_logs logs = Ok l.
Proof.
  intros Hw Hs Hp. destruct logs as [|x [|y logs]].
  - by apply Permutation_nil_l in Hp as <-.
  - by apply Permutation_singleton_l in Hp as <-.
  - assert (Hwl : Forall (λ z, log_wf z = true) (x :: y :: logs)) by (by rewrite Hp).
    unfold sort_logs, sort_logs_by. set (ls := x :: y :: logs) in *. rewrite Forall_forall in Hwl.
    rewrite first_failure_Ok.
    2:{ rewrite Forall_forall. intros r Hr. apply list_elem_of_In, in_flat_map in Hr as (a & Ha & Hr).
        apply in_map_iff in Hr as (b & <- & Hb). apply list_elem_of_In in Ha, Hb.
        by rewrite scan_before_Ok by auto. }
    cbn [mbind res_bind]. f_equal. change (λ a b, before_value (scan_before a b)) with before.
    assert (Hkey : ∀ a b, a ∈ ls → b ∈ ls → before a b = true ↔ key_lt (log_key a) (log_key b))
      by (intros; apply before_key; auto).
    assert (Htr : ∀ a b d, a ∈ ls → b ∈ ls → d ∈ ls →
              before a b = false → before b d = false → before a d = false).
    { intros a b d Ha Hb Hd. rewrite <- !not_true_iff_false, !Hkey by done. unfold key_lt. lia. }
    assert (Has : ∀ a b, a ∈ ls → b ∈ ls → before a b = true → before b a = false).
    { intros a b Ha Hb. rewrite <- not_true_iff_false, !Hkey by done. unfold key_lt. lia. }
    assert (Hin : ∀ a, a ∈ std_sort before ls → a ∈ ls) by (intros a; by rewrite std_sort_perm).
    apply (StronglySorted_unique_strong (λ a b, before b a = false)); [| | |by rewrite std_sort_perm].
    + intros a b Ha%Hin Hb Hab Hba. rewrite Hp in Ha.
      destruct (strongly_sorted_total _ l a b Hs Ha Hb) as [?|[?|?]]; [done|congruence..].
    + apply is_sorted_strongly; [|by apply std_sort_sorted].
      intros a b d Ha%Hin Hb%Hin Hd%Hin. by apply Htr.
    + assert (Hl : ∀ a, a ∈ l → a ∈ ls) by (intros a; by rewrite Hp).
      clear -Hs Has Hl. induction Hs as [|a l Hs IH Ha]; constructor; [apply IH; set_solver|].
      rewrite Forall_forall in Ha |- *. intros b Hb. apply Has; [set_solver..|by apply Ha].
Qed.

Lemma filter_ext_in {A} (P Q : A → Prop) `{∀ x, Decision (P x), ∀ x, Decision (Q x)} (l : list A) :
  (∀ x, x ∈ l → P x ↔ Q x) → filter P l = filter Q l.
Proof.
  induction l as [|x l IH]; intros Hl; [done|]. rewrite !filter_cons, IH by set_solver.
  pose proof (Hl x (list_elem_of_here _ _)). by repeat case_decide; try tauto.
Qed.

Lemma strongly_sorted_filter {A} (R : A → A → Prop) (P : A → Prop) `{∀ x, Decision (P x)} (l : list A) :
  StronglySorted R l → StronglySorted R (filter P l).
Proof.
  induction 1 as [|x l _ IH Hx]; [constructor|]. rewrite filter_cons. case_decide; [|done].
  constructor; [done|]. rewrite Forall_forall in Hx |- *. intros y [_ Hy]%list_elem_of_filter. by apply Hx.
Qed.

(** A sorted list splits at any value of what it is sorted by. *)
Lemma filter_split_sorted {A} (f : A → Z) (P : A → Prop) `{∀ x, Decision (P x)} (l : list A) b :
  StronglySorted (λ x y, f x ≤ f y) l →
  filter P l = filter (λ x, P x ∧ f x ≤ b) l ++ filter (λ x, P x ∧ b < f x) l.
Proof.
  induction 1 as [|x l _ IH Hx]; [done|]. rewrite !filter_cons.
  destruct (decide (P x)); [|rewrite !decide_False by tauto; done].
  destruct (decide (f x ≤ b)).
  - rewrite (decide_True (P := _ ∧ _ ≤ b)) by done.
    rewrite (decide_False (P := _ ∧ b < _)) by (intros [_ ?]; lia). by rewrite IH.
  - rewrite (decide_False (P := _ ∧ _ ≤ b)) by (intros [_ ?]; lia).
    rewrite (decide_True (P := _ ∧ b < _)) by (split; [done|lia]).
    assert (filter (λ y, P y ∧ f y ≤ b) l = []) as Hnil.
    { rewrite Forall_forall in Hx. clear -Hx n. induction l as [|y l IH]; [done|].
      rewrite filter_cons, decide_False; [apply IH; set_solver|].
      specialize (Hx y (list_elem_of_here _ _)). lia. }
    rewrite IH, Hnil. done.
Qed.

Section Chain.
Context (chain : list EvmLog) (Hchain : canonical_chain chain) (start : Z).

Lemma chain_log_wf l : l ∈ chain → log_wf l = true.
Proof using Hchain. pose proof (chain_wf _ Hchain) as Hw. rewrite Forall_forall in Hw. auto. Qed.

Lemma chain_before l r : l ∈ chain → r ∈ chain → before l r = true ↔ key_lt (log_key l) (log_key r).
Proof using Hchain. intros. apply before_key; by apply chain_log_wf. Qed.

Lemma chain_blocks_sorted : StronglySorted (λ l r, chain_block l ≤ chain_block r) chain.
Proof using Hchain.
  pose proof (chain_sorted _ Hchain) as Hs. pose proof chain_before as Hb.
  assert (Hin : ∀ l, l ∈ chain → l ∈ chain) by done. revert Hin Hs. generalize chain at 1 3 4 as ls.
  intros ls Hin. induction 1 as [|l ls _ IH Hl]; constructor; [apply IH; set_solver|].
  rewrite Forall_forall in Hl |- *. intros r Hr. specialize (Hl r Hr).
  apply Hb in Hl; [|set_solver..]. unfold key_lt, log_key in Hl. cbn in Hl. lia.
Qed.

(** A log the cursor does not cover is ahead of it. *)
Lemma uncovered_advances c l :
  cursor_on_chain chain (Some c) → l ∈ chain → covered start (Some c) l = false →
  cursor_advances c (log_cursor l) = true.
Proof using Hchain.
  intros [_ Hc] Hl Hcov. unfold covered in Hcov. apply orb_false_iff in Hcov as [Hb Hcov].
  unfold cursor_advances, log_cursor. cbn. apply Z.ltb_ge in Hb.
  destruct (Z.eqb_spec (chain_block l) (block_number c)) as [E|E]; cbn; [|lia].
  cbn in Hcov. apply orb_false_iff in Hcov as [Hcomp Hlast]. rewrite Hcomp.
  destruct (last_log c) as [p|] eqn:Ep; [|done].
  destruct (Hc Hcomp p eq_refl) as (l' & Hl' & Hb' & ->).
  rewrite !chain_position_hash in * by (by apply chain_log_wf).
  rewrite (chain_hashes _ Hchain l' l) in * by (done || congruence).
  rewrite bool_decide_eq_true_2 in * by done. cbn in Hlast. unfold evm_position_at_or_before in Hlast.
  rewrite orb_false_iff, andb_false_iff, Z.ltb_ge, Z.eqb_neq, Z.leb_gt in Hlast.
  rewrite orb_true_iff, andb_true_iff, Z.ltb_lt, Z.eqb_eq, Z.leb_le. lia.
Qed.

(** What is covered is an initial part of the chain. *)
Lemma covered_down c l x :
  cursor_on_chain chain c → l ∈ chain → x ∈ chain → before x l = true →
  covered start c l = true → covered start c x = true.
Proof using Hchain.
  intros Hc Hl Hx Hbf%chain_before; [|done..]. unfold key_lt, log_key in Hbf. cbn in Hbf.
  destruct c as [c|]; cbn; [|rewrite !Z.ltb_lt; lia].
  rewrite !orb_true_iff, !andb_true_iff, !orb_true_iff, !Z.ltb_lt, !Z.eqb_eq.
  intros [Hlt|[Heq Hrest]]; [left; lia|].
  destruct (Z.eq_dec (chain_block x) (chain_block l)) as [E|E]; [right|left; lia].
  split; [lia|]. destruct Hrest as [?|Hrest]; [by left|right].
  destruct (last_log c) as [p|]; [|done]. apply andb_true_iff in Hrest as [Hh Hp].
  rewrite (chain_hashes _ Hchain x l) by done. rewrite Hh. cbn.
  unfold evm_position_at_or_before in *.
  rewrite orb_true_iff, andb_true_iff, Z.ltb_lt, Z.eqb_eq, Z.leb_le in *. lia.
Qed.

Lemma covered_log_cursor l x :
  l ∈ chain → x ∈ chain → covered start (Some (log_cursor l)) x = negb (before l x).
Proof using Hchain.
  intros Hl Hx. apply eq_true_iff_eq. rewrite negb_true_iff, <- not_true_iff_false, chain_before by done.
  unfold covered, log_cursor, key_lt, log_key. cbn.
  rewrite orb_true_iff, andb_true_iff, Z.ltb_lt, Z.eqb_eq, andb_true_iff, bool_decide_eq_true.
  rewrite chain_position_hash by (by apply chain_log_wf).
  unfold evm_position_at_or_before. rewrite orb_true_iff, andb_true_iff, Z.ltb_lt, Z.eqb_eq, Z.leb_le.
  pose proof (chain_hashes _ Hchain l x Hl Hx) as Hh. split; [lia|]. intros Hn.
  destruct (Z.lt_trichotomy (chain_block x) (chain_block l)) as [?|[E|?]]; [lia| |lia].
  right. split; [done|]. split; [by apply Hh|]. lia.
Qed.

(** Saving the first log that is left removes it from what is left. *)
Lemma todo_step c target l rest :
  cursor_on_chain chain c → todo chain start target c = l :: rest →
  l ∈ chain ∧ covered start c l = false ∧ todo chain start target (Some (log_cursor l)) = rest.
Proof using Hchain.
  intros Hc Ht. assert (Hl : l ∈ todo chain start target c) by (rewrite Ht; left).
  unfold todo in Hl. apply list_elem_of_filter in Hl as [[Hcov Htgt] Hl]. split_and!; [done..|].
  assert (Hs : StronglySorted (λ x y, before x y = true) (l :: rest)).
  { rewrite <- Ht. apply strongly_sorted_filter, Hchain. }
  assert (Hnl : before l l = false).
  { apply not_true_iff_false. rewrite chain_before by done. unfold key_lt. lia. }
  transitivity (filter (λ x, before l x = true) (todo chain start target c)).
  - unfold todo. rewrite list_filter_filter. apply filter_ext_in. intros x Hx.
    rewrite covered_log_cursor, negb_false_iff by done. split; [|tauto]. intros [Hb ?].
    split_and!; [done| |done]. apply not_true_iff_false. intros Hcx.
    rewrite (covered_down c x l) in Hcov by done. done.
  - rewrite Ht, filter_cons, decide_False by congruence.
    apply StronglySorted_cons in Hs as [Hf _]. rewrite Forall_forall in Hf.
    clear -Hf. induction rest as [|x rest IH]; [done|].
    rewrite filter_cons, decide_True by (apply Hf; left). f_equal. apply IH. set_solver.
Qed.
End Chain.

(** ** Progress of a scan *)

Section Scan.
Context `{EvmNode, LogCallback, StdSort} (config_ : EvmEventIndexerConfig).
Context (chain : list EvmLog) (Hchain : canonical_chain chain) (Hnode : node_serves chain).
Context (target gen : Z).

#[local] Abbreviation start := (start_block config_).
#[local] Abbreviation id_of := evm_log_identity.

Definition left_to_do (s : EvmEventIndexer) : list EvmLog :=
  todo chain start target (cursor_of config_ s).

(** Logs move one by one from what is left to what was emitted. *)
Definition progress (s s' : EvmEventIndexer) : Prop :=
  ∃ done, emitted s' = emitted s ++ history done ∧ left_to_do s = done ++ left_to_do s'.

Record scan_ok (s : EvmEventIndexer) : Prop := {
  scan_generation : generation (live_state s) = gen;
  scan_running : delivery_shutdown (live_state s) = false;
  scan_cursor : cursor_on_chain chain (cursor_of config_ s) }.

Definition fresh_ids (s : EvmEventIndexer) (ls : list EvmLog) : Prop :=
  ∀ l, l ∈ ls → delivered_logs s !! id_of l = None.

Definition cursor_at_most (s : EvmEventIndexer) (b : Z) : Prop :=
  match cursor_of config_ s with Some c => block_number c ≤ b | None => True end.

Lemma progress_refl s s' :
  emitted s' = emitted s → left_to_do s' = left_to_do s → progress s s'.
Proof. intros He Hl. exists []. by rewrite He, Hl, app_nil_r. Qed.

Lemma progress_trans s1 s2 s3 : progress s1 s2 → progress s2 s3 → progress s1 s3.
Proof.
  intros (d1 & E1 & L1) (d2 & E2 & L2). exists (d1 ++ d2). unfold history in *.
  by rewrite fmap_app, E2, E1, L1, L2, !app_assoc.
Qed.

Lemma block_of_wf l : log_wf l = true → evm_log_block l = Ok (chain_block l).
Proof.
  intros (Hb & _)%log_wf_parses. unfold evm_log_block, quantity_or_zero. case_if; [|done].
  bools. by rewrite Heqb in Hb.
Qed.

Definition with_delivered (l : EvmLog) (s : EvmEventIndexer) : EvmEventIndexer :=
  set_delivered (<[id_of l := MkDelivered l (chain_block l)]> (delivered_logs s)) s.

(** A log that is not delivered yet reaches the callback. *)
Lemma emit_fresh l s :
  log_wf l = true → delivered_logs s !! id_of l = None → delivery_shutdown (live_state s) = false →
  emit_log config_ l false s =
    match log_callback (emitted s) (MkIndexed l false) with
    | Ok _ => (add_emitted (MkIndexed l false) (with_delivered l s), Ok true)
    | Throw e => (set_delivered (delete (id_of l) (delivered_logs (with_delivered l s)))
                    (with_delivered l s), Throw e)
    end.
Proof.
  intros Hw Hn Hs. pose proof (block_of_wf l Hw) as Hb.
  apply log_wf_parses in Hw as (_ & _ & Hr & Hid).
  unfold emit_log, rewind_for_removal. cbn [andb]. rewrite !bind_M. cbn [mret M_ret].
  unfold gets at 1. rewrite bind_M. unfold gets at 1. rewrite Hs, bind_M. unfold lift. rewrite Hb.
  rewrite bind_M. unfold gets. rewrite Hr, bool_decide_eq_false_2 by done. rewrite Hn.
  rewrite bind_M. unfold update, run_log_callback. cbn [emitted set_delivered].
  rewrite Hr, bool_decide_eq_false_2 by done. done.
Qed.

(** The saved cursor of a scan covers exactly the logs it skips. *)
Definition scans_from (resume : option EvmIndexCursor) (from : Z) : Prop :=
  match resume with
  | Some c => block_number c + (if block_complete c then 1 else 0) ≤ from
  | None => start ≤ from
  end.

Lemma already_indexed_covered resume from l :
  log_wf l = true → scans_from resume from → from ≤ chain_block l →
  already_indexed resume (chain_block l) l = Ok (covered start resume l).
Proof.
  intros (_ & Hp & _)%log_wf_parses Hfrom Hle. unfold already_indexed, covered.
  destruct resume as [c|]; cbn in Hfrom.
  2:{ f_equal. symmetry. apply Z.ltb_ge. lia. }
  rewrite (proj2 (Z.ltb_ge _ _)) by (destruct (block_complete c); lia). cbn [orb].
  destruct (block_complete c); cbn [negb andb orb].
  - rewrite (proj2 (Z.eqb_neq _ _)) by lia. by destruct (last_log c).
  - destruct (last_log c) as [p|]; [|by rewrite andb_false_r].
    destruct (Z.eqb_spec (chain_block l) (block_number c)); [|done]. cbn [andb].
    destruct (bool_decide _); [|done]. by rewrite Hp.
Qed.

(** Saving the cursor at the first log that is left. *)
Lemma save_log_cursor s l rest :
  scan_ok s → left_to_do s = l :: rest →
  save_log_checkpoint config_ l s =
    (set_cursors (<[cursor_name config_ := log_cursor l]> (cursors s)) s, Ok tt) ∧
  l ∈ chain ∧ left_to_do (set_cursors (<[cursor_name config_ := log_cursor l]> (cursors s)) s) = rest.
Proof using Hchain.
  intros Hs Hl. unfold left_to_do in *.
  destruct (todo_step chain Hchain start _ _ _ _ (scan_cursor _ Hs) Hl) as (Hin & Hcov & Hrest).
  pose proof (chain_log_wf _ Hchain _ Hin) as Hw. apply log_wf_parses in Hw as (Hb & Hp & _).
  split_and!; [|done|].
  - unfold save_log_checkpoint. rewrite bind_M. unfold lift. rewrite Hb, bind_M, Hp.
    unfold update. fold (log_cursor l). unfold save_cursor.
    pose proof (scan_cursor _ Hs) as Hc. unfold cursor_of, load_cursor in Hc, Hcov.
    destruct (cursors s !! cursor_name config_) as [c|] eqn:Ec; [|done].
    by rewrite (uncovered_advances chain Hchain start c l Hc Hin Hcov).
  - unfold cursor_of, load_cursor. cbn. by rewrite lookup_insert_eq.
Qed.

(** Every exception of a scan is one of the log callback. *)
Definition callback_throws (e : exn) : Prop := ∃ h l, log_callback h l = Throw e.

(** The state a scan step may leave: the same live state and deliveries of the
    listed logs only. *)
Definition scanned (ls : list EvmLog) (s s' : EvmEventIndexer) : Prop :=
  progress s s' ∧ scan_ok s' ∧
  (∀ id, id ∉ id_of <$> ls → delivered_logs s !! id = None → delivered_logs s' !! id = None).

Lemma scanned_trans l1 l2 s1 s2 s3 :
  scanned l1 s1 s2 → scanned l2 s2 s3 → scanned (l1 ++ l2) s1 s3.
Proof.
  intros (P1 & _ & F1) (P2 & O2 & F2). split_and!; [by eapply progress_trans|done|].
  intros id. rewrite fmap_app, not_elem_of_app. intros [? ?] ?. auto.
Qed.

Lemma scanned_skip l ls s s' : scanned ls s s' → scanned (l :: ls) s s'.
Proof.
  intros (P & O & F). split_and!; [done..|]. intros id. cbn. rewrite not_elem_of_cons. intros [? ?]. auto.
Qed.

Lemma scan_current s : scan_ok s → (gen =? generation (live_state s)) = true.
Proof. intros [-> _ _]. apply Z.eqb_refl. Qed.

(** One log of a persistent scan: delivered and checkpointed, or neither. *)
Lemma scan_one l rest s :
  scan_ok s → left_to_do s = l :: rest → delivered_logs s !! id_of l = None →
  (∃ e s', dispatch_log_wait config_ l false gen s = (s', Throw e) ∧ callback_throws e ∧ scanned [l] s s') ∨
  (∃ s1 s', dispatch_log_wait config_ l false gen s = (s1, Ok true) ∧
     generation (live_state s1) = gen ∧ save_log_checkpoint config_ l s1 = (s', Ok tt) ∧
     scanned [l] s s' ∧ left_to_do s' = rest ∧ cursor_of config_ s' = Some (log_cursor l)).
Proof using Hchain.
  clear Hnode. intros Hs Hl Hn.
  assert (Hin : l ∈ chain)
    by (apply (todo_step chain Hchain start _ target l rest (scan_cursor _ Hs) Hl)).
  pose proof (chain_log_wf _ Hchain _ Hin) as Hw.
  assert (Hd : dispatch_log_wait config_ l false gen s = emit_log config_ l false s).
  { unfold dispatch_log_wait. rewrite bind_M. unfold gets.
    by rewrite (scan_running _ Hs), (scan_current _ Hs). }
  rewrite (emit_fresh l s Hw Hn (scan_running _ Hs)) in Hd. rewrite Hd. clear Hd.
  destruct (log_callback _ _) as [u|e] eqn:Ecb; [right|left].
  - set (s1 := add_emitted (MkIndexed l false) (with_delivered l s)).
    assert (Hs1 : scan_ok s1) by (destruct Hs; by constructor).
    assert (Hl1 : left_to_do s1 = l :: rest) by done.
    destruct (save_log_cursor s1 l rest Hs1 Hl1) as (Hsave & _ & Hrest).
    eexists s1, _. split_and!; [done|apply Hs1|exact Hsave| |exact Hrest|].
    + split_and!.
      * exists [l]. split; [done|]. by rewrite Hl, Hrest.
      * destruct Hs1 as [? ? _]. constructor; [done|done|]. unfold cursor_of, load_cursor. cbn.
        rewrite lookup_insert_eq. pose proof (log_wf_parses _ Hw) as (Hb & _). split; cbn.
        { by eapply quantity_u64. }
        intros _ p [= <-]. by exists l.
      * intros id Hid Hnone. subst s1. cbn in *. rewrite lookup_insert_ne; [done|set_solver].
    + unfold cursor_of, load_cursor. cbn. by rewrite lookup_insert_eq.
  - eexists e, _. split; [done|]. split; [by eexists _, _|]. split_and!.
    + by apply progress_refl.
    + destruct Hs. by constructor.
    + intros id Hid Hnone. cbn. rewrite lookup_delete_ne by set_solver.
      rewrite lookup_insert_ne; [done|set_solver].
Qed.

(** Scanning the logs of one range. *)
Lemma scan_logs_progress ls from b resume report s rest :
  scan_ok s → scans_from resume from → Forall (λ l, log_wf l = true ∧ from ≤ chain_block l ≤ b) ls →
  NoDup (id_of <$> ls) → fresh_ids s ls → cursor_at_most s b →
  left_to_do s = filter (λ l, covered start resume l = false) ls ++ rest →
  let '(s', r) := scan_logs config_ ls true resume report gen s in
  scanned ls s s' ∧
  match r with
  | Ok (complete, _) => complete = true ∧ left_to_do s' = rest ∧ cursor_at_most s' b
  | Throw e => callback_throws e
  end.
Proof using Hchain.
  clear Hnode. intros Hs Hfrom. revert s report Hs.
  induction ls as [|l ls IH]; intros s report Hs Hls Hnd Hfr Hcb Hl.
  { cbn. split; [|done]. by split_and!; [apply progress_refl| |]. }
  apply Forall_cons in Hls as [[Hw Hb] Hls]. cbn in Hnd. apply NoDup_cons in Hnd as [Hid Hnd].
  cbn [scan_logs]. rewrite bind_M. unfold generation_current, gets at 1.
  rewrite (scan_current _ Hs). cbn [negb].
  pose proof (log_wf_parses _ Hw) as (Hpb & _ & Hr & _).
  rewrite bind_M. unfold lift at 1. rewrite Hpb, bind_M. unfold lift at 1.
  rewrite (already_indexed_covered resume from l Hw Hfrom (proj1 Hb)).
  rewrite filter_cons in Hl. destruct (covered start resume l) eqn:Hcov.
  { rewrite decide_False in Hl by done.
    assert (Hfr' : fresh_ids s ls) by (intros x Hx; apply Hfr; by right).
    specialize (IH s report Hs Hls Hnd Hfr' Hcb Hl).
    destruct (scan_logs _ _ _ _ _ _ _) as [s' r]. destruct IH as [Hsc Hr']. split; [|done].
    by apply scanned_skip. }
  rewrite decide_True in Hl by done. cbn in Hl. rewrite bind_M.
  destruct (scan_one l _ s Hs Hl (Hfr l (list_elem_of_here _ _)))
    as [(e & s' & -> & He & Hsc)|(s1 & s' & -> & Hg & Hsave & Hsc & Hrest & Hcur)].
  { split; [|done]. apply (scanned_trans [l] ls s s' s'); [done|]. destruct Hsc as (_ & Hok & _).
    by split_and!; [apply progress_refl| |]. }
  rewrite bind_M. unfold gets at 1. rewrite Hg, Z.eqb_refl. cbn [negb]. rewrite Hr. cbn [andb negb].
  rewrite bind_M, Hsave. pose proof Hsc as (_ & Hs' & Hfresh).
  assert (Hfr' : fresh_ids s' ls).
  { intros x Hx. apply Hfresh; [|apply Hfr; by right]. cbn. rewrite list_elem_of_singleton.
    intros Heq. apply Hid. rewrite <- Heq. by apply list_elem_of_fmap_2. }
  assert (Hcb' : cursor_at_most s' b) by (unfold cursor_at_most; rewrite Hcur; cbn; lia).
  match goal with |- context [scan_logs _ ls true resume ?rep gen s'] =>
    specialize (IH s' rep Hs' Hls Hnd Hfr' Hcb' Hrest) end.
  destruct (scan_logs _ _ _ _ _ _ _) as [s'' r]. destruct IH as [Hsc' Hr']. split; [|done].
  by apply (scanned_trans [l] ls s s' s'').
Qed.

(** ** Scanning consecutive ranges *)

Fixpoint contiguous (from : Z) (rs : list EvmBlockRange) (to : Z) : Prop :=
  match rs with
  | [] => from = to + 1
  | r :: rs' => from_block r = from ∧ from ≤ to_block r ≤ to ∧ contiguous (to_block r + 1) rs' to
  end.

(** The logs of the chain between two blocks that the saved cursor left. *)
Definition uncovered_slice (resume : option EvmIndexCursor) (a b : Z) : list EvmLog :=
  filter (λ l, covered start resume l = false ∧ a ≤ chain_block l ≤ b) chain.

Lemma uncovered_split resume a b :
  a ≤ b + 1 → b ≤ target →
  uncovered_slice resume a target =
    filter (λ l, covered start resume l = false) (filter (λ l, a ≤ chain_block l ≤ b) chain) ++
    uncovered_slice resume (b + 1) target.
Proof using Hchain.
  clear Hnode. intros Hab Hbt. unfold uncovered_slice.
  rewrite (filter_split_sorted chain_block _ _ b (chain_blocks_sorted chain Hchain)).
  f_equal; [rewrite list_filter_filter|]; apply filter_ext_in; intros; intuition lia.
Qed.

Lemma past_uncovered resume from l :
  scans_from resume from → from < chain_block l → covered start resume l = false.
Proof.
  unfold scans_from, covered. destruct resume as [c|]; intros Hf Hl; [|by apply Z.ltb_ge; lia].
  rewrite (proj2 (Z.ltb_ge _ _)), (proj2 (Z.eqb_neq _ _)) by (destruct (block_complete c); lia). done.
Qed.

(** The checkpoint at the end of a range. *)
Lemma save_range_checkpoint s resume from b :
  scan_ok s → is_u64 b → cursor_at_most s b → scans_from resume from → from ≤ b →
  left_to_do s = uncovered_slice resume (b + 1) target →
  let '(s', r) := save_checkpoint config_ b s in
  r = Ok tt ∧ progress s s' ∧ scan_ok s' ∧ cursor_at_most s' b ∧
  left_to_do s' = uncovered_slice resume (b + 1) target ∧
  (∀ id, delivered_logs s !! id = None → delivered_logs s' !! id = None).
Proof.
  intros Hs Hub Hcb Hfrom Hfb Hl.
  assert (Hsave : save_cursor (cursors s) (cursor_name config_) (MkCursor b true None) =
            <[cursor_name config_ := MkCursor b true None]> (cursors s)).
  { unfold save_cursor. unfold cursor_at_most, cursor_of, load_cursor in Hcb.
    destruct (cursors s !! cursor_name config_) as [c|]; [|done]. unfold cursor_advances. cbn.
    destruct (Z.eqb_spec b (block_number c)); cbn; [by destruct (block_complete c)|].
    by rewrite (proj2 (Z.ltb_lt _ _)) by lia. }
  unfold save_checkpoint. rewrite bind_M. unfold update at 1. rewrite Hsave.
  set (s1 := add_checkpoint _ _).
  assert (Hcur : cursor_of config_ s1 = Some (MkCursor b true None)).
  { unfold cursor_of, load_cursor. cbn. by rewrite lookup_insert_eq. }
  assert (Hleft : todo chain start target (Some (MkCursor b true None)) =
            uncovered_slice resume (b + 1) target).
  { unfold todo, uncovered_slice. apply filter_ext_in. intros l _. cbn. rewrite andb_true_r.
    rewrite orb_false_iff, Z.ltb_ge, Z.eqb_neq. split; [|lia]. intros [? ?].
    split; [|lia]. apply (past_uncovered resume from); [done|lia]. }
  assert (Hpost : ∀ s', live_state s' = live_state s → emitted s' = emitted s →
            cursor_of config_ s' = Some (MkCursor b true None) →
            progress s s' ∧ scan_ok s' ∧ cursor_at_most s' b ∧
            left_to_do s' = uncovered_slice resume (b + 1) target).
  { intros s' Hlive Hem Hc. unfold cursor_at_most, left_to_do at 1. rewrite Hc, Hleft.
    destruct Hs as [Hg Hr _]. split_and!; [|constructor|cbn; lia|done].
    - apply progress_refl; [done|]. unfold left_to_do at 1. by rewrite Hc, Hleft, Hl.
    - by rewrite Hlive.
    - by rewrite Hlive.
    - rewrite Hc. by split. }
  unfold prune_delivered. case_if.
  - cbn. split; [done|]. destruct (Hpost s1) as (? & ? & ? & ?); [done..|]. by split_and!.
  - unfold update. split; [done|].
    destruct (Hpost (set_delivered (filter (λ p : string * EvmDeliveredLog,
      b - reorg_lookback_blocks config_ < delivered_block p.2) (delivered_logs s1)) s1))
      as (? & ? & ? & ?); [done..|].
    split_and!; [done..|]. intros id Hid. cbn. apply map_lookup_filter_None. by left.
Qed.

Lemma slice_wf a b :
  Forall (λ l, log_wf l = true ∧ a ≤ chain_block l ≤ b) (filter (λ l, a ≤ chain_block l ≤ b) chain).
Proof using Hchain.
  rewrite Forall_forall. intros l [Hb Hl]%list_elem_of_filter. split; [by apply (chain_log_wf chain)|done].
Qed.

Lemma slice_nodup a b : NoDup (id_of <$> filter (λ l, a ≤ chain_block l ≤ b) chain).
Proof using Hchain.
  pose proof (chain_ids _ Hchain) as Hnd. clear -Hnd. induction chain as [|l ls IH]; [constructor|].
  cbn in Hnd. apply NoDup_cons in Hnd as [Hl Hnd]. rewrite filter_cons. case_decide; [|auto].
  cbn. constructor; [|auto]. intros (x & Hx & Hin)%list_elem_of_fmap. apply Hl. rewrite Hx.
  apply list_elem_of_fmap_2. by apply list_elem_of_filter in Hin as [_ ?].
Qed.

Lemma chain_ids_inj l x : l ∈ chain → x ∈ chain → id_of l = id_of x → l = x.
Proof using Hchain.
  pose proof (chain_ids _ Hchain) as Hnd. clear -Hnd. induction chain as [|y ls IH]; [set_solver|].
  cbn in Hnd. apply NoDup_cons in Hnd as [Hy Hnd]. rewrite !elem_of_cons.
  intros [->|Hl] [->|Hx] Hid; [done| | |by apply IH].
  - exfalso. apply Hy. rewrite Hid. by apply list_elem_of_fmap_2.
  - exfalso. apply Hy. rewrite <- Hid. by apply list_elem_of_fmap_2.
Qed.

Lemma scan_each_progress ranges a from resume report s :
  scan_ok s → scans_from resume from → from ≤ a → 0 ≤ a → is_u64 target →
  contiguous a ranges target → cursor_at_most s a →
  fresh_ids s (filter (λ l, a ≤ chain_block l) chain) →
  left_to_do s = uncovered_slice resume a target →
  let '(s', r) := scan_each config_ ranges true resume report gen s in
  progress s s' ∧ scan_ok s' ∧
  match r with Ok _ => left_to_do s' = [] | Throw e => callback_throws e end.
Proof using Hchain Hnode.
  intros Hs Hfrom. revert a s report Hs.
  induction ranges as [|[ra rb] ranges IH]; intros a s report Hs Hfa Hua Hut Hcont Hcb Hfr Hl.
  { cbn in Hcont |- *. split; [by apply progress_refl|]. split; [done|]. rewrite Hl. unfold uncovered_slice.
    clear -Hcont. induction chain as [|l ls IHl]; [done|].
    rewrite filter_cons, decide_False; [done|]. intros [_ ?]. lia. }
  cbn in Hcont. destruct Hcont as (-> & Hrb & Hcont).
  assert (Hub : is_u64 rb) by (unfold is_u64 in *; lia).
  assert (Hau : is_u64 a) by (unfold is_u64 in *; lia).
  cbn [scan_each]. rewrite bind_M. unfold generation_current, gets at 1.
  rewrite (scan_current _ Hs). cbn [negb]. rewrite bind_M. unfold lift at 1. cbn [from_block to_block].
  destruct (Hnode a rb Hau Hub) as (logs & -> & Hperm). rewrite bind_M. unfold gets at 1.
  rewrite (scan_current _ Hs). cbn [negb]. rewrite bind_M. unfold lift at 1.
  set (slice := filter (λ l, a ≤ chain_block l ≤ rb) chain) in *.
  rewrite (sort_logs_chain logs slice); [| |apply strongly_sorted_filter, Hchain|done].
  2:{ eapply Forall_impl; [apply (slice_wf a rb)|]. by intros ? []. }
  rewrite bind_M.
  rewrite (uncovered_split resume a rb) in Hl by lia. fold slice in Hl.
  assert (Hfs : fresh_ids s slice).
  { intros l [[? ?] Hin]%list_elem_of_filter. apply Hfr, list_elem_of_filter. done. }
  assert (Hcb' : cursor_at_most s rb).
  { unfold cursor_at_most in *. destruct (cursor_of config_ s); [lia|done]. }
  assert (Hfrom' : scans_from resume a).
  { unfold scans_from in *. destruct resume as [c|]; lia. }
  pose proof (scan_logs_progress slice a rb resume report s (uncovered_slice resume (rb + 1) target)
    Hs Hfrom' (slice_wf a rb) (slice_nodup a rb) Hfs Hcb' Hl) as Hscan.
  destruct (scan_logs _ _ _ _ _ _ s) as [s1 r]. destruct Hscan as [(Hp1 & Hs1 & Hf1) Hr1].
  destruct r as [[complete rep]|e]; [|done]. destruct Hr1 as (-> & Hl1 & Hcb1). cbn [fst snd negb].
  rewrite bind_M. unfold gets at 1. rewrite (scan_current _ Hs1). cbn [negb]. rewrite bind_M.
  pose proof (save_range_checkpoint s1 resume a rb Hs1 Hub Hcb1 Hfrom' ltac:(lia) Hl1) as Hck.
  destruct (save_checkpoint config_ rb s1) as [s2 r2].
  destruct Hck as (-> & Hp2 & Hs2 & Hcb2 & Hl2 & Hf2).
  match goal with |- context [scan_each _ ranges true resume ?rp gen s2] =>
    specialize (IH (rb + 1) s2 rp Hs2) end.
  assert (Hfr2 : fresh_ids s2 (filter (λ l, rb + 1 ≤ chain_block l) chain)).
  { intros l [Hlb Hin]%list_elem_of_filter. apply Hf2, Hf1.
    - intros (x & Hx & [Hxb Hxin]%list_elem_of_filter)%list_elem_of_fmap.
      apply chain_ids_inj in Hx; [subst; lia|done..].
    - apply Hfr, list_elem_of_filter. split; [lia|done]. }
  assert (Hcb3 : cursor_at_most s2 (rb + 1)).
  { unfold cursor_at_most in *. destruct (cursor_of config_ s2); [lia|done]. }
  specialize (IH ltac:(lia) ltac:(lia) Hut Hcont Hcb3 Hfr2 Hl2).
  destruct (scan_each _ _ _ _ _ _ s2) as [s3 r3]. destruct IH as (Hp3 & Hs3 & Hr3).
  split; [|done]. by eapply progress_trans; [|eapply progress_trans].
Qed.

Lemma ranges_contiguous from to rs :
  is_u64 from → is_u64 to → from ≤ to → 0 < batch_size config_ ≤ u64_max →
  evm_make_block_ranges from to (batch_size config_) = Ok rs → contiguous from rs to.
Proof.
  intros Hf Ht Hle Hb. unfold evm_make_block_ranges.
  rewrite (proj2 (Z.eqb_neq _ _)), (proj2 (Z.ltb_ge _ _)) by lia. cbn. intros <-%Ok_inj.
  assert (Hfuel : to - from < Z.of_nat (Z.to_nat (to - from + 1))) by lia. revert Hfuel.
  generalize (Z.to_nat (to - from + 1)) as fuel. intros fuel. revert from Hf Hle.
  induction fuel as [|fuel IH]; intros from Hf Hle Hfuel; [lia|].
  unfold is_u64, u64_max in *. cbn [ranges_loop].
  rewrite (u64_id (_ - 1)), (u64_id (to - from)) by (unfold is_u64, u64_max; lia).
  rewrite (u64_id (from + _)) by (unfold is_u64, u64_max; lia).
  cbn [contiguous from_block to_block]. split_and!; [done|lia..|].
  case_if; bools; [cbn; lia|]. rewrite u64_id by (unfold is_u64, u64_max; lia). apply IH; lia.
Qed.

(** Where a scan that resumes from a cursor starts. *)
Definition first_block (c : option EvmIndexCursor) : Z :=
  match c with
  | Some c => block_number c + (if block_complete c then 1 else 0)
  | None => start
  end.

Lemma first_block_covers c l :
  covered start c l = false → first_block c ≤ chain_block l.
Proof.
  unfold first_block, covered. destruct c as [c|]; [|by rewrite Z.ltb_ge].
  rewrite orb_false_iff, Z.ltb_ge. intros [Hle Heq]. destruct (block_complete c); [|lia].
  rewrite andb_true_r, Z.eqb_neq in Heq. lia.
Qed.

Lemma catch_up_to_progress s :
  scan_ok s → is_u64 target → 0 ≤ start → 0 < batch_size config_ ≤ u64_max →
  delivered_logs s = ∅ →
  let '(s', r) := catch_up_to config_ target target gen s in
  progress s s' ∧ scan_ok s' ∧ match r with Ok _ => left_to_do s' = [] | Throw e => callback_throws e end.
Proof using Hchain Hnode.
  intros Hs Hut Hst Hb Hd. set (c := cursor_of config_ s).
  assert (Hleft : left_to_do s = uncovered_slice c (first_block c) target).
  { unfold left_to_do, todo, uncovered_slice. fold c. apply filter_ext_in. intros l _.
    pose proof (first_block_covers c l). intuition lia. }
  assert (Hempty : target < first_block c → left_to_do s = []).
  { intros Hlt. rewrite Hleft. unfold uncovered_slice. clear -Hlt. induction chain as [|l ls IH]; [done|].
    rewrite filter_cons, decide_False; [done|]. intros [_ ?]. lia. }
  assert (Hfb : 0 ≤ first_block c).
  { pose proof (scan_cursor _ Hs) as Hc. fold c in Hc. unfold first_block.
    destruct c as [c'|]; [|done]. destruct Hc as [[Hc _] _]. destruct (block_complete c'); lia. }
  assert (Hmain : let '(s', r) := catch_up_from config_ (first_block c) c target target gen s in
            progress s s' ∧ scan_ok s' ∧ match r with Ok _ => left_to_do s' = [] | Throw e => callback_throws e end).
  { unfold catch_up_from. rewrite Z.min_id, Z.ltb_irrefl. rewrite bind_M. unfold scan_ranges.
    rewrite bind_M. unfold lift at 1.
    destruct (Z_lt_le_dec target (first_block c)) as [Hlt|Hle].
    - unfold evm_make_block_ranges. rewrite (proj2 (Z.eqb_neq _ _)), (proj2 (Z.ltb_lt _ _)) by lia.
      cbn. split_and!; [by apply progress_refl|done|auto].
    - destruct (evm_make_block_ranges _ _ _) as [rs|e] eqn:Er.
      2:{ unfold evm_make_block_ranges in Er. rewrite (proj2 (Z.eqb_neq _ _)), (proj2 (Z.ltb_ge _ _)) in Er by lia.
          done. }
      assert (is_u64 (first_block c)) by (unfold is_u64 in *; lia).
      apply ranges_contiguous in Er; [|done..].
      assert (Hsf : scans_from c (first_block c)) by (unfold scans_from, first_block; by destruct c).
      assert (Hcm : cursor_at_most s (first_block c)).
      { unfold cursor_at_most, first_block. fold c. destruct c as [c'|]; [destruct (block_complete c'); lia|done]. }
      assert (Hfi : fresh_ids s (filter (λ l, first_block c ≤ chain_block l) chain)).
      { intros l _. by rewrite Hd, lookup_empty. }
      pose proof (scan_each_progress rs (first_block c) (first_block c) c
        (MkReport (first_block c) target 0 0) s Hs Hsf (Z.le_refl _) Hfb Hut Er Hcm Hfi Hleft) as Hsc.
      destruct (scan_each _ _ _ _ _ _ _) as [s' [[complete rep]|e]]; [|done].
      destruct complete; cbn; done. }
  unfold catch_up_to. rewrite bind_M. unfold gets at 1. fold c.
  unfold first_block in Hmain, Hempty. destruct c as [c'|] eqn:Ec; [|done].
  destruct (block_complete c' && (block_number c' =? u64_max)) eqn:E; [|done].
  apply andb_true_iff in E as [Hcomp Hmax%Z.eqb_eq].
  cbn. split_and!; [by apply progress_refl|done|]. apply Hempty.
  rewrite Hcomp. unfold is_u64 in Hut. lia.
Qed.
End Scan.

(** ** Restarts

    Runs of the indexer one after the other, each a new process that knows only
    the cursor file, and each with its own behaviour of the log callback; a run
    ends when the callback throws or when it has caught up. *)

Section Restarts.
Context `{EvmNode, StdSort} (config_ : EvmEventIndexerConfig) (target : Z).

Definition run_once (cb : LogCallback) (file : cursor_file) : EvmEventIndexer * res EvmCatchUpReport :=
  catch_up_to config_ target target 0 (new_indexer file).

Fixpoint run_restarts (cbs : list LogCallback) (file : cursor_file) :
    list EvmIndexedLog * cursor_file :=
  match cbs with
  | [] => ([], file)
  | cb :: cbs' =>
      let s := (run_once cb file).1 in
      let '(more, file') := run_restarts cbs' (cursors s) in (emitted s ++ more, file')
  end.

Context (chain : list EvmLog) (Hchain : canonical_chain chain) (Hnode : node_serves chain).
Context (Htarget : is_u64 target) (Hstart : 0 ≤ start_block config_).
Context (Hbatch : 0 < batch_size config_ ≤ u64_max).

#[local] Abbreviation todo_of file :=
  (todo chain (start_block config_) target (load_cursor file (cursor_name config_))).

Lemma run_once_progress cb file :
  cursor_on_chain chain (load_cursor file (cursor_name config_)) →
  let '(s, r) := run_once cb file in
  cursor_on_chain chain (load_cursor (cursors s) (cursor_name config_)) ∧
  (∃ done, emitted s = history done ∧ todo_of file = done ++ todo_of (cursors s)) ∧
  match r with Ok _ => todo_of (cursors s) = [] | Throw e => ∃ h l, cb h l = Throw e end.
Proof using Hchain Hnode Htarget Hstart Hbatch.
  intros Hc. unfold run_once.
  assert (Hs : scan_ok config_ chain 0 (new_indexer file)) by (by constructor).
  pose proof (catch_up_to_progress (H0 := cb) config_ chain Hchain Hnode target 0 _ Hs
    Htarget Hstart Hbatch eq_refl) as Hp.
  destruct (catch_up_to _ _ _ _ _) as [s r]. destruct Hp as ((done & He & Hl) & [_ _ Hcur] & Hr).
  split; [exact Hcur|]. split; [by exists done|exact Hr].
Qed.

Lemma run_restarts_progress cbs file :
  cursor_on_chain chain (load_cursor file (cursor_name config_)) →
  let '(delivered, file') := run_restarts cbs file in
  cursor_on_chain chain (load_cursor file' (cursor_name config_)) ∧
  ∃ done, delivered = history done ∧ todo_of file = done ++ todo_of file'.
Proof using Hchain Hnode Htarget Hstart Hbatch.
  revert file. induction cbs as [|cb cbs IH]; intros file Hc; [split; [done|by exists []]|].
  cbn. pose proof (run_once_progress cb file Hc) as Hp.
  destruct (run_once cb file) as [s r]. destruct Hp as (Hc1 & (d1 & He1 & Ht1) & _). cbn [fst].
  specialize (IH _ Hc1). destruct (run_restarts cbs (cursors s)) as [more file'].
  destruct IH as (Hc2 & d2 & -> & Ht2). split; [done|]. exists (d1 ++ d2).
  split; [by rewrite He1; unfold history; rewrite fmap_app|]. by rewrite Ht1, Ht2, app_assoc.
Qed.

(** C14: catching up survives restarts.  On a chain that does not reorganise, take
    any number of runs, each cut short wherever its callback throws, then one
    whose callback does not throw: that run returns, and all runs together have
    delivered every log the saved cursor left up to the target, each once and in
    chain order. *)
Theorem catch_up_survives_restarts cbs cb file :
  cursor_on_chain chain (load_cursor file (cursor_name config_)) →
  (∀ h l, cb h l = Ok tt) →
  let '(delivered, file') := run_restarts cbs file in
  ∃ report, (run_once cb file').2 = Ok report ∧
    delivered ++ emitted (run_once cb file').1 = history (todo_of file).
Proof using Hchain Hnode Htarget Hstart Hbatch.
  intros Hc Hcb. pose proof (run_restarts_progress cbs file Hc) as Hp.
  destruct (run_restarts cbs file) as [delivered file']. destruct Hp as (Hc' & d & -> & Ht).
  pose proof (run_once_progress cb file' Hc') as Hp.
  destruct (run_once cb file') as [s [report|e]]; destruct Hp as (_ & (d' & He & Ht') & Hr).
  - exists report. split; [done|]. cbn. rewrite He, Ht, Ht', Hr, app_nil_r.
    unfold history. by rewrite fmap_app.
  - exfalso. destruct Hr as (h & l & Hr). by rewrite Hcb in Hr.
Qed.
End Restarts.

(** ** Witnesses

    Three logs in two blocks; the node lists them in the wrong order, and the
    callback of the first run throws at the second log. *)

Definition sample_chain : list EvmLog :=
  [MkLog "0xc0" [] "0x" "0xaa" "0xa" "0xt1" "0x0" "0x0" false;
   MkLog "0xc0" [] "0x" "0xaa" "0xa" "0xt2" "0x1" "0x3" false;
   MkLog "0xc0" [] "0x" "0xbb" "0xc" "0xt3" "0x0" "0x0" false].

Definition sample_node : EvmNode := {|
  block_number_text := Ok "0xc";
  get_logs from to :=
    a ← evm_quantity_to_uint64 from;
    b ← evm_quantity_to_uint64 to;
    Ok (rev (filter (λ l, a ≤ chain_block l ≤ b) sample_chain)) |}.

Definition throws_at (n : nat) : LogCallback := λ h _,
  if decide (length h = n) then Throw (runtime_error "callback") else Ok tt.
Definition never_throws : LogCallback := λ _ _, Ok tt.

Lemma sample_canonical : canonical_chain sample_chain.
Proof.
  split.
  - repeat constructor.
  - repeat constructor.
  - apply (bool_decide_unpack _). by vm_compute.
  - intros l r Hl Hr. unfold sample_chain in *. set_unfold.
    destruct Hl as [->|[->|[->|[]]]], Hr as [->|[->|[->|[]]]]; vm_compute; congruence.
Qed.

Lemma sample_serves : @node_serves sample_node sample_chain.
Proof.
  intros a b Ha Hb. eexists. split.
  - cbn [get_logs sample_node]. rewrite (proj1 (quantity_roundtrip a Ha)), (proj1 (quantity_roundtrip b Hb)).
    reflexivity.
  - apply Permutation_sym, Permutation_rev.
Qed.

Lemma catch_up_survives_restarts_witness :
  let c := MkIndexerConfig "logs" 0 0 2 5 in
  let '(delivered, file') := @run_restarts sample_node insertion_std_sort c 12 [throws_at 1] ∅ in
  (∃ report, (@run_once sample_node insertion_std_sort c 12 never_throws file').2 = Ok report ∧
   delivered ++ emitted (@run_once sample_node insertion_std_sort c 12 never_throws file').1 =
   history (todo sample_chain 0 12 None)) ∧
  length delivered = 1%nat.
Proof.
  intros c.
  pose proof (@catch_up_survives_restarts sample_node insertion_std_sort c 12 sample_chain
    sample_canonical sample_serves ltac:(by vm_compute) ltac:(by vm_compute) ltac:(by vm_compute)
    [throws_at 1] never_throws ∅ I (λ _ _, eq_refl)) as Hw.
  assert (Hl : length (@run_restarts sample_node insertion_std_sort c 12 [throws_at 1] ∅).1 = 1%nat)
    by (by vm_compute).
  destruct (@run_restarts sample_node insertion_std_sort c 12 [throws_at 1] ∅) as [delivered file'].
  split; [exact Hw|exact Hl].
Defined.
