(* ===== verification/EvmLive.v ===== *)
(** * The live half of the event indexer
    (src/evm_indexer_transport.hpp, evm_event_dispatch.cpp, evm_live_handoff.cpp,
    evm_reorg_reconciliation.cpp, evm_event_indexer.cpp, evm_indexer_lifecycle.cpp)

    Every critical section of [LiveState::mutex] is one function on [LiveState]:
    the handlers of the stream, the queue of the delivery worker, what the two
    workers take, the handoff from catch-up to the stream, stop and shutdown.
    [live_system] runs them as threads do, one section at a time in any order:
    the stream's threads hold a log between testing [buffering] and queueing it,
    the workers hold what they took, and one thread at a time is in
    [start_live].  Scanning and delivery themselves are in [EvmIndexer] and
    [EvmReorg]; here they end well or throw. *)
From S2P Require Import Prelude Text EvmBytes EvmCursor EvmIndexer.

#[local] Open Scope Z_scope.

Definition evm_live_log_queue_limit : nat := 1024.
Definition evm_delivery_error_limit : nat := 64.

(** ** Field updates *)

Definition eta_live (l : LiveState) : LiveState :=
  MkLiveState (buffering l) (started l) (accepting_live l) (has_buffered_head l)
    (has_pending_head l) (refresh_head_pending l) (overlap_recovery_pending l)
    (handoff_gap_pending l) (worker_shutdown l) (delivery_shutdown l) (reconciliation_active l)
    (generation l) (durable_through l) (buffered_head l) (pending_head l) (pending_generation l)
    (buffered_logs l) (historical_deliveries l) (live_deliveries l) (delivery_errors l)
    (coalesced_delivery_errors l) (delivery_error_generation l).

(** The update of one field, from the eta expansion of the record. *)
Ltac field_update eta proj :=
  let e := eval cbv delta [eta] in eta in
  match eval pattern proj in e with
  | ?s _ => let t := eval cbv beta in (λ v r, s (λ _, v) r) in exact t
  end.

Definition set_buffering : bool → LiveState → LiveState := ltac:(field_update eta_live buffering).
Definition set_started : bool → LiveState → LiveState := ltac:(field_update eta_live started).
Definition set_accepting_live : bool → LiveState → LiveState := ltac:(field_update eta_live accepting_live).
Definition set_has_buffered_head : bool → LiveState → LiveState := ltac:(field_update eta_live has_buffered_head).
Definition set_has_pending_head : bool → LiveState → LiveState := ltac:(field_update eta_live has_pending_head).
Definition set_refresh_head_pending : bool → LiveState → LiveState := ltac:(field_update eta_live refresh_head_pending).
Definition set_overlap_recovery_pending : bool → LiveState → LiveState := ltac:(field_update eta_live overlap_recovery_pending).
Definition set_handoff_gap_pending : bool → LiveState → LiveState := ltac:(field_update eta_live handoff_gap_pending).
Definition set_worker_shutdown : bool → LiveState → LiveState := ltac:(field_update eta_live worker_shutdown).
Definition set_delivery_shutdown : bool → LiveState → LiveState := ltac:(field_update eta_live delivery_shutdown).
Definition set_reconciliation_active : bool → LiveState → LiveState := ltac:(field_update eta_live reconciliation_active).
Definition set_generation : Z → LiveState → LiveState := ltac:(field_update eta_live generation).
Definition set_durable_through : Z → LiveState → LiveState := ltac:(field_update eta_live durable_through).
Definition set_buffered_head : Z → LiveState → LiveState := ltac:(field_update eta_live buffered_head).
Definition set_pending_head : Z → LiveState → LiveState := ltac:(field_update eta_live pending_head).
Definition set_pending_generation : Z → LiveState → LiveState := ltac:(field_update eta_live pending_generation).
Definition set_buffered_logs : list EvmLog → LiveState → LiveState := ltac:(field_update eta_live buffered_logs).
Definition set_historical_deliveries : list EvmDeliveryJob → LiveState → LiveState := ltac:(field_update eta_live historical_deliveries).
Definition set_live_deliveries : list EvmDeliveryJob → LiveState → LiveState := ltac:(field_update eta_live live_deliveries).
Definition set_delivery_errors : list EvmDeliveryError → LiveState → LiveState := ltac:(field_update eta_live delivery_errors).
Definition set_coalesced_delivery_errors : Z → LiveState → LiveState := ltac:(field_update eta_live coalesced_delivery_errors).
Definition set_delivery_error_generation : Z → LiveState → LiveState := ltac:(field_update eta_live delivery_error_generation).

(** ** Reported errors *)

Definition add_occurrence (e : EvmDeliveryError) : EvmDeliveryError :=
  MkDeliveryError (error_generation e) (error_message e) (u64 (occurrences e + 1)).

Definition queue_delivery_error_locked (error_generation : Z) (message : string) (l : LiveState) : LiveState :=
  let l :=
    if delivery_error_generation l =? error_generation then l
    else set_delivery_error_generation error_generation
           (set_coalesced_delivery_errors 0 (set_delivery_errors [] l)) in
  match last (delivery_errors l) with
  | Some back =>
      if bool_decide (error_message back = message) then
        set_delivery_errors (removelast (delivery_errors l) ++ [add_occurrence back]) l
      else
        let l :=
          if bool_decide (evm_delivery_error_limit ≤ length (delivery_errors l))%nat then
            match delivery_errors l with
            | front :: errors =>
                set_delivery_errors errors
                  (set_coalesced_delivery_errors (u64 (coalesced_delivery_errors l + occurrences front)) l)
            | [] => l
            end
          else l in
        set_delivery_errors (delivery_errors l ++ [MkDeliveryError error_generation message 1]) l
  | None => set_delivery_errors (delivery_errors l ++ [MkDeliveryError error_generation message 1]) l
  end.

(** ** The delivery queue *)

Inductive enqueue_result := rejected | overflowed (dropped : list EvmDeliveryJob) | queued.

(** [dispatch_log], up to the wait. *)
Definition enqueue (log : EvmLog) (live : bool) (generation_ : Z) (wait : bool) (l : LiveState) :
    LiveState * enqueue_result :=
  if delivery_shutdown l || negb (generation_ =? generation l) then (l, rejected)
  else if live && bool_decide (evm_live_log_queue_limit ≤ length (live_deliveries l))%nat then
    let dropped := live_deliveries l in
    let l := queue_delivery_error_locked generation_
               "EVM event delivery queue overflow; HTTP reconciliation scheduled" (set_live_deliveries [] l) in
    (set_pending_generation generation_
       (set_overlap_recovery_pending true (set_refresh_head_pending true l)), overflowed dropped)
  else
    let job := MkJob log live generation_ wait in
    (if live then set_live_deliveries (live_deliveries l ++ [job]) l
     else set_historical_deliveries (historical_deliveries l ++ [job]) l, queued).

Inductive taken :=
  | taken_shutdown
  | taken_job (job : EvmDeliveryJob) (current : bool)
  | taken_error (error : EvmDeliveryError) (current : bool).

(** What [delivery_loop] takes; [None] while its condition makes it wait. *)
Definition delivery_take (l : LiveState) : option (LiveState * taken) :=
  if delivery_shutdown l then Some (l, taken_shutdown)
  else match historical_deliveries l with
  | job :: jobs =>
      Some (set_historical_deliveries jobs l, taken_job job (job_generation job =? generation l))
  | [] =>
      match delivery_errors l with
      | error :: errors =>
          Some (set_delivery_errors errors l, taken_error error (error_generation error =? generation l))
      | [] =>
          if 0 <? coalesced_delivery_errors l then
            let error := MkDeliveryError (delivery_error_generation l)
              ("EVM delivery errors coalesced: " +:+ to_string (coalesced_delivery_errors l)) 1 in
            Some (set_coalesced_delivery_errors 0 l,
                  taken_error error (error_generation error =? generation l))
          else
            if negb (reconciliation_active l) && negb (refresh_head_pending l) then
              match live_deliveries l with
              | job :: jobs =>
                  Some (set_live_deliveries jobs l, taken_job job (job_generation job =? generation l))
              | [] => None
              end
            else None
      end
  end.

(** The text of an error that [delivery_loop] reports. *)
Definition error_text (e : EvmDeliveryError) : string :=
  if 1 <? occurrences e
  then error_message e +:+ " (occurrences: " +:+ to_string (occurrences e) +:+ ")"
  else error_message e.

Definition shutdown_delivery_worker (l : LiveState) : LiveState :=
  set_coalesced_delivery_errors 0 (set_delivery_errors []
    (set_live_deliveries [] (set_historical_deliveries [] (set_delivery_shutdown true l)))).

(** ** Recovery *)

Definition report_reconciliation_failure (generation_ : Z) (recover_overlap : bool) (l : LiveState) : LiveState :=
  let active := accepting_live l && (generation_ =? generation l) in
  if active && recover_overlap then set_overlap_recovery_pending true l else l.

Definition inactive (generation_ : Z) (l : LiveState) : bool :=
  negb (accepting_live l) || negb (generation_ =? generation l).

Definition schedule_overlap_recovery (generation_ : Z) (l : LiveState) : LiveState :=
  if inactive generation_ l then l
  else if buffering l then set_handoff_gap_pending true (set_buffered_logs [] l)
  else set_pending_generation generation_
         (set_overlap_recovery_pending true (set_refresh_head_pending true l)).

Record reconciliation := MkReconciliation {
  work_head : Z;
  work_generation : Z;
  refresh_head : bool;
  recover_overlap : bool }.

(** What [reconciliation_loop] takes; [None] while its condition makes it wait. *)
Definition reconcile_take (l : LiveState) : option (LiveState * option reconciliation) :=
  if worker_shutdown l then Some (l, None)
  else if has_pending_head l || (refresh_head_pending l && negb (buffering l)) then
    Some (set_reconciliation_active true (set_pending_head 0 (set_overlap_recovery_pending false
            (set_refresh_head_pending false (set_has_pending_head false l)))),
          Some (MkReconciliation (pending_head l) (pending_generation l) (refresh_head_pending l)
                  (overlap_recovery_pending l)))
  else None.

(** The end of [reconcile_confirmed] after a scan. *)
Definition reconcile_confirmed_done (durable generation_ : Z) (l : LiveState) : LiveState :=
  if accepting_live l && (generation_ =? generation l) then set_durable_through durable l else l.

(** The end of one round of [reconciliation_loop]. *)
Definition reconcile_release (l : LiveState) : LiveState :=
  if worker_shutdown l then set_reconciliation_active false l
  else if negb (has_pending_head l) && negb (refresh_head_pending l) && negb (overlap_recovery_pending l)
  then set_reconciliation_active false l
  else l.

Definition shutdown_reconciliation_worker (l : LiveState) : LiveState :=
  set_overlap_recovery_pending false (set_refresh_head_pending false
    (set_has_pending_head false (set_worker_shutdown true l))).

(** ** The stream's handlers *)

Inductive log_verdict := ignored | buffered | dispatch.

(** [handle_live_log], up to [process_live_log]. *)
Definition handle_live_log (log : EvmLog) (generation_ : Z) (l : LiveState) : LiveState * log_verdict :=
  if inactive generation_ l then (l, ignored)
  else if buffering l then
    (if negb (handoff_gap_pending l) && bool_decide (length (buffered_logs l) < evm_live_log_queue_limit)%nat
     then set_buffered_logs (buffered_logs l ++ [log]) l
     else if negb (handoff_gap_pending l) then
       queue_delivery_error_locked generation_
         "EVM handoff buffer overflow; full HTTP reconciliation scheduled"
         (set_handoff_gap_pending true (set_buffered_logs [] l))
     else l, buffered)
  else (l, dispatch).

Definition handle_live_head (block : Z) (generation_ : Z) (l : LiveState) : LiveState :=
  if inactive generation_ l then l
  else if buffering l then
    set_buffered_head (Z.max (buffered_head l) block) (set_has_buffered_head true l)
  else
    set_pending_generation generation_
      (set_pending_head (Z.max (pending_head l) block) (set_has_pending_head true l)).

Definition mentions_gap (error : string) : bool :=
  match String.index 0 "stream gap" error with Some _ => true | None => false end.

Definition handle_live_error (error : string) (generation_ : Z) (l : LiveState) : LiveState :=
  if inactive generation_ l then l
  else
    let l :=
      if buffering l then set_handoff_gap_pending true (set_buffered_logs [] l)
      else
        let l := set_refresh_head_pending true l in
        if mentions_gap error then set_overlap_recovery_pending true l else l in
    queue_delivery_error_locked generation_ error (set_pending_generation generation_ l).

(** ** Starting and stopping *)

(** The first section of [start_live]; [None] when it is started already. *)
Definition start_begin (l : LiveState) : option LiveState :=
  if started l then None
  else Some (set_buffered_head 0 (set_handoff_gap_pending false (set_overlap_recovery_pending false
         (set_refresh_head_pending false (set_has_buffered_head false (set_buffered_logs []
         (set_buffering true (set_accepting_live true
         (set_generation (u64 (generation l + 1)) l))))))))).

(** What a failed start leaves, and [stop] but for the generation. *)
Definition clear_live (l : LiveState) : LiveState :=
  set_pending_head 0 (set_buffered_head 0 (set_handoff_gap_pending false
    (set_overlap_recovery_pending false (set_refresh_head_pending false (set_has_pending_head false
    (set_has_buffered_head false (set_buffered_logs [] (set_started false (set_buffering false
    (set_accepting_live false l)))))))))).

Definition stop (l : LiveState) : LiveState :=
  set_generation (u64 (generation l + 1)) (clear_live l).

Inductive drain_result :=
  | drain_gap                       (** reconcile the gap, then drain again *)
  | drain_wait                      (** wait for the buffered logs, then drain again *)
  | drained (head : option Z).

(** The buffered logs as deliveries; the last one is waited for. *)
Fixpoint buffered_jobs (generation_ : Z) (logs : list EvmLog) : list EvmDeliveryJob :=
  match logs with
  | [] => []
  | [log] => [MkJob log true generation_ true]
  | log :: logs' => MkJob log true generation_ false :: buffered_jobs generation_ logs'
  end.

Definition drain_section (generation_ : Z) (l : LiveState) : LiveState * drain_result :=
  if handoff_gap_pending l then (set_buffered_logs [] (set_handoff_gap_pending false l), drain_gap)
  else match buffered_logs l with
  | _ :: _ =>
      (set_buffered_logs [] (set_historical_deliveries
         (historical_deliveries l ++ buffered_jobs generation_ (buffered_logs l)) l), drain_wait)
  | [] =>
      let l := set_buffering false l in
      if has_buffered_head l then (set_has_buffered_head false l, drained (Some (buffered_head l)))
      else (l, drained None)
  end.

(** After the reconciliation of a gap. *)
Definition drain_durable (durable generation_ : Z) (l : LiveState) : LiveState :=
  if generation_ =? generation l then set_durable_through durable l else l.

(** The last section of [start_live]. *)
Definition start_finish (generation_ : Z) (l : LiveState) : LiveState * bool :=
  if inactive generation_ l then (l, false) else (set_started true l, true).

(** ** The threads

    What each thread holds between two sections, and, for the theorems, what has
    become of the logs the stream handed over in the current generation. *)

Inductive start_phase :=
  | scanning                     (** catching up with the chain *)
  | draining
  | in_gap                       (** reconciling a gap of the handoff *)
  | handing_over (head : option Z)
  | finishing.

Record live_system := MkLiveSystem {
  shared : LiveState;
  handling : list (EvmLog * Z);             (** in [handle_live_log], not queued yet *)
  delivering : option EvmDeliveryJob;       (** in the delivery worker *)
  working : option reconciliation;          (** in the reconciliation worker *)
  starting : option (Z * start_phase);      (** the thread in [start_live] *)
  accepted : list EvmLog;                   (** logs of this generation *)
  delivered : list EvmLog;                  (** given to the callback, which returned *)
  missed : list EvmLog;                     (** discarded since the last recovery began *)
  covered_by_worker : list EvmLog;          (** discarded before the worker's recovery *)
  covered_by_start : list EvmLog;           (** discarded before the handoff's *)
  recovered : list EvmLog                   (** discarded before a finished recovery *) }.

Definition initial_system : live_system :=
  MkLiveSystem initial_live [] None None None [] [] [] [] [] [].

Definition set_shared (l : LiveState) (s : live_system) : live_system :=
  MkLiveSystem l (handling s) (delivering s) (working s) (starting s) (accepted s) (delivered s)
    (missed s) (covered_by_worker s) (covered_by_start s) (recovered s).

Definition miss (logs : list EvmLog) (s : live_system) : live_system :=
  MkLiveSystem (shared s) (handling s) (delivering s) (working s) (starting s) (accepted s)
    (delivered s) (missed s ++ logs) (covered_by_worker s) (covered_by_start s) (recovered s).

Definition set_threads (h : list (EvmLog * Z)) (d : option EvmDeliveryJob) (w : option reconciliation)
    (st : option (Z * start_phase)) (s : live_system) : live_system :=
  MkLiveSystem (shared s) h d w st (accepted s) (delivered s) (missed s) (covered_by_worker s)
    (covered_by_start s) (recovered s).

Definition set_starting (st : option (Z * start_phase)) (s : live_system) : live_system :=
  set_threads (handling s) (delivering s) (working s) st s.

(** No log of a new generation has been seen. *)
Definition forget (s : live_system) : live_system :=
  MkLiveSystem (shared s) (handling s) (delivering s) (working s) (starting s) [] [] [] [] [] [].

(** The buffered logs a section discards. *)
Definition lost_buffer (l l' : LiveState) : list EvmLog :=
  if bool_decide (buffered_logs l' = []) then buffered_logs l else [].

Definition live_jobs (g : Z) (js : list EvmDeliveryJob) : list EvmLog :=
  job_log <$> filter (λ j, job_live j = true ∧ job_generation j = g) js.

Inductive live_op :=
  | op_log (log : EvmLog) (g : Z)
  | op_process (i : nat)
  | op_head (head g : Z)
  | op_error (error : string) (g : Z)
  | op_dispatch (log : EvmLog) (g : Z)
  | op_deliver
  | op_delivered
  | op_delivery_failed
  | op_reconcile
  | op_reconciled (durable : Z)
  | op_reconcile_failed
  | op_release
  | op_start
  | op_durable (durable : Z)
  | op_caught_up
  | op_drain
  | op_gap_closed (durable : Z)
  | op_hand_over
  | op_start_finish
  | op_start_failed
  | op_stop
  | op_shutdown_reconciliation
  | op_shutdown_delivery.

Definition accept (log : EvmLog) (s : live_system) : live_system :=
  MkLiveSystem (shared s) (handling s) (delivering s) (working s) (starting s) (accepted s ++ [log])
    (delivered s) (missed s) (covered_by_worker s) (covered_by_start s) (recovered s).

(** A log of the stream. *)
Definition run_log (log : EvmLog) (g : Z) (s : live_system) : live_system :=
  match handle_live_log log g (shared s) with
  | (_, ignored) => s
  | (_, dispatch) =>
      set_threads (handling s ++ [(log, g)]) (delivering s) (working s) (starting s) (accept log s)
  | (l, buffered) =>
      if bool_decide (buffered_logs l = buffered_logs (shared s) ++ [log])
      then set_shared l (accept log s)
      else set_shared l (miss (buffered_logs (shared s) ++ [log]) (accept log s))
  end.

(** [process_live_log] of a log a stream thread holds. *)
Definition run_process (i : nat) (s : live_system) : live_system :=
  match handling s !! i with
  | None => s
  | Some (log, g) =>
      let s' := set_threads (delete i (handling s)) (delivering s) (working s) (starting s) s in
      match enqueue log true g false (shared s) with
      | (l, overflowed dropped) =>
          set_shared l (miss (if inactive g (shared s) then [] else live_jobs g dropped ++ [log]) s')
      | (l, _) => set_shared l s'
      end
  end.

Definition run_deliver (s : live_system) : live_system :=
  match delivering s, delivery_take (shared s) with
  | None, Some (l, taken_job job _) =>
      set_shared l (set_threads (handling s) (Some job) (working s) (starting s) s)
  | None, Some (l, _) => set_shared l s
  | _, _ => s
  end.

(** The callback returned, or the job was of another generation. *)
Definition run_delivered (s : live_system) : live_system :=
  match delivering s with
  | Some job =>
      let s := set_threads (handling s) None (working s) (starting s) s in
      MkLiveSystem (shared s) (handling s) (delivering s) (working s) (starting s) (accepted s)
        (delivered s ++ live_jobs (generation (shared s)) [job]) (missed s) (covered_by_worker s)
        (covered_by_start s) (recovered s)
  | None => s
  end.

Definition run_delivery_failed (s : live_system) : live_system :=
  match delivering s with
  | Some job =>
      let l := schedule_overlap_recovery (job_generation job) (shared s) in
      set_shared l (miss (lost_buffer (shared s) l ++
                          (if inactive (job_generation job) (shared s) then []
                           else live_jobs (generation (shared s)) [job]))
                         (set_threads (handling s) None (working s) (starting s) s))
  | None => s
  end.

Definition run_reconcile (s : live_system) : live_system :=
  match working s, reconcile_take (shared s) with
  | None, Some (l, Some w) =>
      let s := set_shared l (set_threads (handling s) (delivering s) (Some w) (starting s) s) in
      if recover_overlap w then
        MkLiveSystem (shared s) (handling s) (delivering s) (working s) (starting s) (accepted s)
          (delivered s) [] (missed s) (covered_by_start s) (recovered s)
      else s
  | _, _ => s
  end.

(** The worker's scan came to its end, or found another generation. *)
Definition run_reconciled (durable : Z) (s : live_system) : live_system :=
  match working s with
  | Some w =>
      MkLiveSystem (reconcile_confirmed_done durable (work_generation w) (shared s)) (handling s)
        (delivering s) None (starting s) (accepted s) (delivered s) (missed s) []
        (covered_by_start s) (recovered s ++ covered_by_worker s)
  | None => s
  end.

Definition run_reconcile_failed (s : live_system) : live_system :=
  match working s with
  | Some w =>
      MkLiveSystem (report_reconciliation_failure (work_generation w) (recover_overlap w) (shared s))
        (handling s) (delivering s) None (starting s) (accepted s) (delivered s)
        (missed s ++ covered_by_worker s) [] (covered_by_start s) (recovered s)
  | None => s
  end.

Definition run_start (s : live_system) : live_system :=
  match starting s, start_begin (shared s) with
  | None, Some l => forget (set_shared l (set_starting (Some (generation l, scanning)) s))
  | _, _ => s
  end.

Definition run_drain (g : Z) (s : live_system) : live_system :=
  match drain_section g (shared s) with
  | (l, drain_gap) =>
      let s := set_shared l (set_starting (Some (g, in_gap)) (miss (lost_buffer (shared s) l) s)) in
      MkLiveSystem (shared s) (handling s) (delivering s) (working s) (starting s) (accepted s)
        (delivered s) [] (covered_by_worker s) (missed s) (recovered s)
  | (l, drain_wait) => set_shared l s
  | (l, drained head) => set_shared l (set_starting (Some (g, handing_over head)) s)
  end.

Definition live_step (o : live_op) (s : live_system) : live_system :=
  let l := shared s in
  match o with
  | op_log log g => run_log log g s
  | op_process i => run_process i s
  | op_head head g => set_shared (handle_live_head head g l) s
  | op_error error g =>
      let l' := handle_live_error error g l in set_shared l' (miss (lost_buffer l l') s)
  | op_dispatch log g => set_shared (enqueue log false g true l).1 s
  | op_deliver => run_deliver s
  | op_delivered => run_delivered s
  | op_delivery_failed => run_delivery_failed s
  | op_reconcile => run_reconcile s
  | op_reconciled durable => run_reconciled durable s
  | op_reconcile_failed => run_reconcile_failed s
  | op_release => match working s with None => set_shared (reconcile_release l) s | _ => s end
  | op_start => run_start s
  | op_durable durable => match starting s with Some _ => set_shared (set_durable_through durable l) s | _ => s end
  | op_caught_up =>
      match starting s with
      | Some (g, scanning) => set_starting (if g =? generation l then Some (g, draining) else None) s
      | _ => s
      end
  | op_drain => match starting s with Some (g, draining) => run_drain g s | _ => s end
  | op_gap_closed durable =>
      match starting s with
      | Some (g, in_gap) =>
          let s := set_shared (drain_durable durable g l) (set_starting (Some (g, draining)) s) in
          MkLiveSystem (shared s) (handling s) (delivering s) (working s) (starting s) (accepted s)
            (delivered s) (missed s) (covered_by_worker s) [] (recovered s ++ covered_by_start s)
      | _ => s
      end
  | op_hand_over =>
      match starting s with
      | Some (g, handing_over head) =>
          set_shared (match head with Some h => handle_live_head h g l | None => l end)
            (set_starting (Some (g, finishing)) s)
      | _ => s
      end
  | op_start_finish =>
      match starting s with
      | Some (g, finishing) => set_shared (start_finish g l).1 (set_starting None s)
      | _ => s
      end
  | op_start_failed =>
      match starting s with
      | Some _ => forget (set_shared (clear_live l) (set_starting None s))
      | None => s
      end
  | op_stop => forget (set_shared (stop l) s)
  | op_shutdown_reconciliation => set_shared (shutdown_reconciliation_worker l) s
  | op_shutdown_delivery => set_shared (shutdown_delivery_worker l) s
  end.

Definition live_run (os : list live_op) : live_system := foldl (λ s o, live_step o s) initial_system os.

(** ** Bounds

    The queues of live logs, of buffered logs and of errors are bounded, and the
    queued errors are all of one generation. *)

Record queues_ok (l : LiveState) : Prop := {
  live_bound : (length (live_deliveries l) ≤ evm_live_log_queue_limit)%nat;
  buffer_bound : (length (buffered_logs l) ≤ evm_live_log_queue_limit)%nat;
  error_bound : (length (delivery_errors l) ≤ evm_delivery_error_limit)%nat;
  error_current : Forall (λ e, error_generation e = delivery_error_generation l) (delivery_errors l) }.

(** Queueing an error changes the three fields of errors only. *)
Lemma queue_error_shape g m l :
  ∃ es c dg, queue_delivery_error_locked g m l =
    set_delivery_errors es (set_coalesced_delivery_errors c (set_delivery_error_generation dg l)) ∧
    ((length (delivery_errors l) ≤ evm_delivery_error_limit)%nat →
     Forall (λ e, error_generation e = delivery_error_generation l) (delivery_errors l) →
     (length es ≤ evm_delivery_error_limit)%nat ∧ Forall (λ e, error_generation e = dg) es).
Proof.
  unfold queue_delivery_error_locked. set (l' := if _ =? _ then l else _).
  assert (∃ es c, l' = set_delivery_errors es (set_coalesced_delivery_errors c
            (set_delivery_error_generation g l)) ∧
          ((length (delivery_errors l) ≤ evm_delivery_error_limit)%nat →
           Forall (λ e, error_generation e = delivery_error_generation l) (delivery_errors l) →
           (length es ≤ evm_delivery_error_limit)%nat ∧ Forall (λ e, error_generation e = g) es))
    as (es & c & -> & Hes).
  { unfold l'. destruct (Z.eqb_spec (delivery_error_generation l) g) as [<-|]; destruct l.
    - by eexists _, _.
    - eexists [], 0. cbn. split; [done|]. unfold evm_delivery_error_limit. split; [lia|constructor]. }
  cbn [delivery_errors set_delivery_errors]. destruct l; cbn in *.
  destruct es as [|e es _] using rev_ind.
  { eexists [_], _, g. split; [reflexivity|]. intros. unfold evm_delivery_error_limit. cbn. split; [lia|by repeat constructor]. }
  rewrite last_snoc. case_bool_decide.
  - rewrite removelast_last. eexists _, _, g. split; [reflexivity|]. intros Hl Hf.
    destruct (Hes Hl Hf) as [H1 H2]. rewrite !length_app in *. split; [done|].
    apply Forall_snoc in H2 as [? ?]. by apply Forall_snoc.
  - case_bool_decide as Hfull.
    + destruct (es ++ [e]) as [|front errors] eqn:E; [by destruct es|]. cbn.
      eexists _, _, g. split; [reflexivity|]. intros Hl Hf. destruct (Hes Hl Hf) as [H1 H2].
      cbn in H1. rewrite length_app. cbn. apply Forall_cons in H2 as [_ H2]. split; [lia|].
      by apply Forall_snoc.
    + eexists _, _, g. split; [reflexivity|]. intros Hl Hf. destruct (Hes Hl Hf) as [H1 H2].
      clear Hes. cbn. rewrite !length_app in *. cbn in *. split; [lia|]. by apply Forall_snoc.
Qed.

Lemma queue_error_ok g m l : queues_ok l → queues_ok (queue_delivery_error_locked g m l).
Proof.
  intros [H1 H2 H3 H4]. destruct (queue_error_shape g m l) as (es & c & dg & -> & He).
  destruct (He H3 H4). by constructor.
Qed.

Lemma clear_queues_ok l : queues_ok l → queues_ok (clear_live l).
Proof. intros [H1 H2 H3 H4]. destruct l. constructor; cbn in *; auto using Nat.le_0_l. Qed.

(** Solves [queues_ok] of a section that does not lengthen a queue. *)
Ltac queues :=
  match goal with
  | |- queues_ok (queue_delivery_error_locked _ _ _) => apply queue_error_ok; queues
  | H : queues_ok ?l |- queues_ok _ => destruct H; destruct l; constructor; cbn in *; auto using Nat.le_0_l, Forall_nil_2; lia
  end.

Lemma enqueue_ok log live g wait l : queues_ok l → queues_ok (enqueue log live g wait l).1.
Proof.
  intros Hq. unfold enqueue. case_if; [done|]. destruct live; cbn [andb].
  - case_bool_decide as Hfull; cbn [fst].
    + assert (Hq' : queues_ok (set_live_deliveries [] l)) by queues.
      apply (queue_error_ok g "EVM event delivery queue overflow; HTTP reconciliation scheduled") in Hq'.
      queues.
    + destruct Hq, l. constructor; cbn in *; auto. rewrite length_app. cbn. lia.
  - cbn [fst]. queues.
Qed.

Lemma handle_log_ok log g l : queues_ok l → queues_ok (handle_live_log log g l).1.
Proof.
  intros Hq. unfold handle_live_log. case_if; [done|]. case_if; [|done]. cbn [fst].
  destruct (handoff_gap_pending l) eqn:E; cbn [negb andb]; [done|]. case_bool_decide as Hroom; [|queues].
  destruct Hq, l. constructor; cbn in *; auto. rewrite length_app. cbn. lia.
Qed.

Lemma delivery_take_ok l l' t : queues_ok l → delivery_take l = Some (l', t) → queues_ok l'.
Proof.
  intros [H1 H2 H3 H4] Ht. unfold delivery_take in Ht. destruct l; cbn in *.
  repeat (case_match; cbn in * ); simplify_eq; constructor; cbn in *; auto; try lia.
  by apply Forall_cons in H4 as [_ ?].
Qed.

Lemma drain_ok g l : queues_ok l → queues_ok (drain_section g l).1.
Proof.
  intros Hq. unfold drain_section. destruct (handoff_gap_pending l); [cbn; queues|].
  destruct (buffered_logs l); [|cbn; queues]. cbv zeta. case_if; cbn; queues.
Qed.

Lemma live_step_queues o s : queues_ok (shared s) → queues_ok (shared (live_step o s)).
Proof.
  intros Hq. destruct o; cbn [live_step]; try (cbn [shared set_shared forget]; queues).
  - unfold run_log. pose proof (handle_log_ok log g _ Hq) as Hl.
    destruct (handle_live_log log g (shared s)) as [l []]; [done| |done]. by case_bool_decide.
  - unfold run_process. case_match; [|done]. case_match. pose proof (enqueue_ok e true z false _ Hq) as He.
    destruct (enqueue e true z false (shared s)) as [l []]; exact He.
  - cbn. unfold handle_live_head. case_if; [done|]. case_if; queues.
  - cbn. unfold handle_live_error. case_if; [done|]. cbv zeta. case_if; [queues|]. case_if; queues.
  - cbn. by apply enqueue_ok.
  - unfold run_deliver. case_match; [done|].
    destruct (delivery_take (shared s)) as [[l []]|] eqn:E; try done; by eapply delivery_take_ok.
  - unfold run_delivered. by case_match.
  - unfold run_delivery_failed. case_match; [|done]. cbn. unfold schedule_overlap_recovery.
    case_if; [done|]. case_if; queues.
  - unfold run_reconcile, reconcile_take. case_match; [done|].
    destruct (worker_shutdown _); [done|]. destruct (_ || _); [|done]. cbv zeta. case_if; cbn; queues.
  - unfold run_reconciled, reconcile_confirmed_done. case_match; [|done]. cbn. case_if; [queues|done].
  - unfold run_reconcile_failed, report_reconciliation_failure. case_match; [|done]. cbn. case_if; [queues|done].
  - case_match; [done|]. cbn. unfold reconcile_release. case_if; [queues|]. case_if; [queues|done].
  - unfold run_start, start_begin. case_match; [done|]. case_if; [done|]. cbn; queues.
  - case_match; [|done]. cbn. queues.
  - case_match; [|done]. case_match. by case_match.
  - case_match; [|done]. case_match. case_match; try done. unfold run_drain.
    pose proof (drain_ok z _ Hq). by destruct (drain_section z (shared s)) as [l []].
  - case_match; [|done]. case_match. case_match; try done. cbn. unfold drain_durable. case_if; [queues|done].
  - case_match; [|done]. case_match. case_match; try done. cbn. case_match; [|done].
    unfold handle_live_head. case_if; [done|]. case_if; queues.
  - case_match; [|done]. case_match. case_match; try done. cbn. unfold start_finish. case_if; [done|]. cbn; queues.
  - case_match; [|done]. cbn. queues.
Qed.

(** C36: the live queues are bounded: whatever the stream, the workers and the
    callers do, in any order, at most 1024 live logs are queued, at most 1024 are
    buffered, and at most 64 errors wait, all of one generation. *)
Theorem live_queues_bounded os :
  let l := shared (live_run os) in
  (length (live_deliveries l) ≤ 1024)%nat ∧ (length (buffered_logs l) ≤ 1024)%nat ∧
  (length (delivery_errors l) ≤ 64)%nat ∧
  Forall (λ e, error_generation e = delivery_error_generation l) (delivery_errors l).
Proof.
  assert (Hq : queues_ok (shared (live_run os))).
  { unfold live_run. apply (foldl_inv (λ s, queues_ok (shared s))).
    - constructor; cbn; auto using Nat.le_0_l, Forall_nil_2.
    - intros s o _. apply live_step_queues. }
  destruct Hq as [H1 H2 H3 H4]. by split_and!.
Qed.

(** ** No accepted log is forgotten *)

(** The logs some thread or queue of the current generation still holds. *)
Definition waiting (s : live_system) : list EvmLog :=
  let l := shared s in
  (filter (λ p, p.2 = generation l) (handling s)).*1 ++ buffered_logs l ++
  live_jobs (generation l) (historical_deliveries l) ++ live_jobs (generation l) (live_deliveries l) ++
  live_jobs (generation l) (option_list (delivering s)).

Definition shut (s : live_system) : bool :=
  worker_shutdown (shared s) || delivery_shutdown (shared s).

Definition accounted (s : live_system) : list EvmLog :=
  delivered s ++ recovered s ++ waiting s ++ missed s ++ covered_by_worker s ++ covered_by_start s.

Record live_ok (n : Z) (s : live_system) : Prop := {
  ok_generation : 0 ≤ generation (shared s) ≤ n;
  ok_handling log g : (log, g) ∈ handling s → g ≤ generation (shared s) ∧
    (g = generation (shared s) → accepting_live (shared s) = true → buffering (shared s) = false);
  ok_working w : working s = Some w → work_generation w ≤ generation (shared s) ∧
    (work_generation w = generation (shared s) → accepting_live (shared s) = true →
     buffering (shared s) = false ∧ pending_generation (shared s) = generation (shared s));
  ok_started : started (shared s) = true → accepting_live (shared s) = true;
  ok_starter : accepting_live (shared s) = true →
    (started (shared s) = true ∧ buffering (shared s) = false ∧
     ∀ g p, starting s = Some (g, p) → False) ∨
    (started (shared s) = false ∧ ∃ p, starting s = Some (generation (shared s), p) ∧
     (buffering (shared s) = false ↔ p = finishing ∨ ∃ h, p = handing_over h));
  ok_starting g p : starting s = Some (g, p) → g ≤ generation (shared s);
  ok_quiet : accepting_live (shared s) = false →
    buffering (shared s) = false ∧ buffered_logs (shared s) = [] ∧
    has_pending_head (shared s) = false ∧ accepted s = [] ∧ missed s = [] ∧
    covered_by_worker s = [] ∧ covered_by_start s = [];
  ok_buffering : buffering (shared s) = true →
    has_pending_head (shared s) = false ∧ refresh_head_pending (shared s) = false ∧
    overlap_recovery_pending (shared s) = false;
  ok_pending : accepting_live (shared s) = true →
    has_pending_head (shared s) || refresh_head_pending (shared s) || overlap_recovery_pending (shared s) = true →
    pending_generation (shared s) = generation (shared s);
  ok_pending_generation : pending_generation (shared s) ≤ generation (shared s);
  ok_gap : handoff_gap_pending (shared s) = true →
    buffered_logs (shared s) = [] ∧ buffering (shared s) = true;
  ok_missed : missed s ≠ [] →
    handoff_gap_pending (shared s) || overlap_recovery_pending (shared s) = true;
  ok_worker : covered_by_worker s ≠ [] → ∃ w, working s = Some w ∧ recover_overlap w = true ∧
    work_generation w = generation (shared s);
  ok_start : covered_by_start s ≠ [] → starting s = Some (generation (shared s), in_gap);
  ok_accounted : accepted s ⊆ accounted s }.

Lemma live_jobs_app g js ks : live_jobs g (js ++ ks) = live_jobs g js ++ live_jobs g ks.
Proof. unfold live_jobs. by rewrite filter_app, fmap_app. Qed.

Lemma live_jobs_cons g j js : live_jobs g (j :: js) = live_jobs g [j] ++ live_jobs g js.
Proof. apply (live_jobs_app g [j] js). Qed.

Lemma live_jobs_one g log live g' w :
  live_jobs g [MkJob log live g' w] = if live && (g' =? g) then [log] else [].
Proof.
  unfold live_jobs. rewrite filter_cons, filter_nil.
  destruct (decide _) as [Hd|Hd]; cbn [job_live job_generation] in Hd; destruct live, (Z.eqb_spec g' g); naive_solver.
Qed.

Lemma inactive_false g l : inactive g l = false ↔ accepting_live l = true ∧ g = generation l.
Proof. unfold inactive. rewrite orb_false_iff, !negb_false_iff, Z.eqb_eq. done. Qed.

#[local] Arguments accounted : simpl never.
#[local] Arguments live_jobs : simpl never.
#[local] Arguments buffered_jobs : simpl never.

Lemma accounted_spec s x :
  x ∈ accounted s ↔
  x ∈ delivered s ∨ x ∈ recovered s ∨ (x, generation (shared s)) ∈ handling s ∨
  x ∈ buffered_logs (shared s) ∨
  x ∈ live_jobs (generation (shared s)) (historical_deliveries (shared s)) ∨
  x ∈ live_jobs (generation (shared s)) (live_deliveries (shared s)) ∨
  x ∈ live_jobs (generation (shared s)) (option_list (delivering s)) ∨
  x ∈ missed s ∨ x ∈ covered_by_worker s ∨ x ∈ covered_by_start s.
Proof.
  unfold accounted, waiting. rewrite !elem_of_app, list_elem_of_fmap.
  assert ((∃ y, x = y.1 ∧ y ∈ filter (λ p : EvmLog * Z, p.2 = generation (shared s)) (handling s)) ↔
          (x, generation (shared s)) ∈ handling s) as ->; [|tauto].
  setoid_rewrite list_elem_of_filter. split; [intros ([y g] & -> & <- & ?); done|by exists (x, generation (shared s))].
Qed.

(** Logs a section moves stay accounted for. *)
Ltac accounted Ha :=
  let x := fresh "x" in
  intros x; generalize (Ha x); rewrite !accounted_spec; cbn;
  rewrite ?live_jobs_app, ?live_jobs_one, ?elem_of_app, ?list_elem_of_singleton, ?elem_of_nil, ?pair_equal_spec;
  try (clear; tauto).

Lemma errors_ok n g m l s :
  live_ok n (set_shared l s) → live_ok n (set_shared (queue_delivery_error_locked g m l) s).
Proof.
  destruct (queue_error_shape g m l) as (es & c & dg & -> & _).
  intros []; constructor; cbn in *; assumption.
Qed.

(** Errors queued below other updates. *)
Lemma errors_shared n (f : LiveState → LiveState) g m l s :
  (∀ es c dg, f (set_delivery_errors es (set_coalesced_delivery_errors c (set_delivery_error_generation dg l))) =
     set_delivery_errors es (set_coalesced_delivery_errors c (set_delivery_error_generation dg (f l)))) →
  live_ok n (set_shared (f l) s) → live_ok n (set_shared (f (queue_delivery_error_locked g m l)) s).
Proof.
  destruct (queue_error_shape g m l) as (es & c & dg & -> & _). intros ->.
  intros []; constructor; cbn in *; assumption.
Qed.

Lemma queue_error_buffer g m l : buffered_logs (queue_delivery_error_locked g m l) = buffered_logs l.
Proof. by destruct (queue_error_shape g m l) as (? & ? & ? & -> & _). Qed.

(** Opens the invariant and closes what the section leaves as it was. *)
Ltac open_ok Hok :=
  destruct Hok as [Hg Hh Hw Hst Hsr Hsg Hq Hb Hp Hpg Hgap Hm Hcw Hcs Ha];
  constructor; cbn in *; try assumption; try (intros; congruence); try apply Z.le_refl.

Lemma run_log_ok n log g s : live_ok n s → live_ok n (run_log log g s).
Proof.
  intros Hok. unfold run_log, handle_live_log.
  destruct (inactive g (shared s)) eqn:Hi; [done|].
  apply inactive_false in Hi as [Hacc ->]. destruct (buffering (shared s)) eqn:Hbuf.
  - destruct (handoff_gap_pending (shared s)) eqn:Hgp; cbn [negb andb].
    + rewrite bool_decide_eq_false_2.
      2:{ intros E%(f_equal length). rewrite length_app in E. cbn in E. lia. }
      open_ok Hok; [by rewrite Hgp|accounted Ha].
    + destruct (bool_decide (length _ < _)%nat).
      * rewrite bool_decide_eq_true_2 by done. open_ok Hok. accounted Ha.
      * rewrite queue_error_buffer, bool_decide_eq_false_2.
        2:{ cbn. intros E%(f_equal length). rewrite length_app in E. cbn in E. lia. }
        apply errors_ok. open_ok Hok; [done|accounted Ha].
  - open_ok Hok.
    + intros x g. rewrite elem_of_app, list_elem_of_singleton. intros [?|[= -> ->]]; [by apply (Hh x)|done].
    + accounted Ha.
Qed.

Lemma handle_head_ok n h g s : live_ok n s → live_ok n (set_shared (handle_live_head h g (shared s)) s).
Proof.
  intros Hok. unfold handle_live_head. destruct (inactive g (shared s)) eqn:Hi; [by destruct s|].
  apply inactive_false in Hi as [Hacc ->]. destruct (buffering (shared s)) eqn:Hbuf; open_ok Hok.
  intros w Hw'. destruct (Hw w Hw') as [? Hww]. split; [done|]. intros E Hac. by destruct (Hww E Hac).
Qed.

Lemma elem_of_delete_lookup {A} (l : list A) i x y :
  l !! i = Some x → y ∈ l ↔ y = x ∨ y ∈ delete i l.
Proof. intros Hl. rewrite (delete_Permutation l i x Hl) at 1. by rewrite elem_of_cons. Qed.

Lemma inactive_here l : inactive (generation l) l = negb (accepting_live l).
Proof. unfold inactive. rewrite Z.eqb_refl. apply orb_false_r. Qed.

(** What [Hw] says when the pending generation becomes the current one. *)
Ltac by_work Hw := let w := fresh in let Hs := fresh in intros w Hs;
  destruct (Hw w Hs) as [? Hww]; split; [done|]; intros; by destruct Hww.

Lemma run_process_ok n i s :
  live_ok n s → delivery_shutdown (shared s) = false → live_ok n (run_process i s).
Proof.
  intros Hok Hns. unfold run_process. destruct (handling s !! i) as [[log g]|] eqn:Hi; [|done].
  pose proof (λ y, elem_of_delete_lookup _ i _ y Hi) as Hd. unfold enqueue. rewrite Hns. cbn [orb andb].
  destruct (Z.eqb_spec g (generation (shared s))) as [->|Hne]; cbn [negb].
  - assert (Hnb : buffering (shared s) = false).
    { destruct (accepting_live (shared s)) eqn:Hacc; [|by apply (ok_quiet _ _ Hok)].
      apply (ok_handling _ _ Hok log (generation (shared s))); [apply Hd; by left|done..]. }
    rewrite inactive_here. case_bool_decide.
    + apply (errors_shared n (λ l, set_pending_generation _ (set_overlap_recovery_pending true
        (set_refresh_head_pending true l)))); [done|]. open_ok Hok.
      * intros x g' Hx. apply (Hh x), Hd. by right.
      * by_work Hw.
      * intros Hna. destruct (Hq Hna) as (? & ? & ? & ? & -> & ? & ?). by rewrite Hna.
      * by rewrite orb_true_r.
      * destruct (accepting_live (shared s)) eqn:Hacc; cbn.
        -- accounted Ha. rewrite Hd. rewrite pair_equal_spec. clear; tauto.
        -- destruct (Hq eq_refl) as (_ & _ & _ & -> & _). apply list_subseteq_nil.
    + open_ok Hok.
      * intros x g' Hx. apply (Hh x), Hd. by right.
      * accounted Ha. rewrite Hd, pair_equal_spec, Z.eqb_refl. cbn [andb]. rewrite list_elem_of_singleton. clear; tauto.
  - open_ok Hok.
    + intros x g' Hx. apply (Hh x), Hd. by right.
    + accounted Ha. rewrite Hd, pair_equal_spec. intros HH Hx. specialize (HH Hx). revert HH Hne. clear. intros. intuition congruence.
Qed.

Lemma lost_buffer_same l l' : buffered_logs l' = buffered_logs l → lost_buffer l l' = [].
Proof. intros E. unfold lost_buffer. rewrite E. by case_bool_decide. Qed.

Lemma miss_nil s : miss [] s = s.
Proof. destruct s. unfold miss. cbn. by rewrite app_nil_r. Qed.

Lemma set_shared_id s : set_shared (shared s) s = s.
Proof. by destruct s. Qed.

Lemma run_error_ok n error g s :
  live_ok n s → let l' := handle_live_error error g (shared s) in
  live_ok n (set_shared l' (miss (lost_buffer (shared s) l') s)).
Proof.
  intros Hok. cbv zeta. unfold handle_live_error. destruct (inactive g (shared s)) eqn:Hi.
  { by rewrite lost_buffer_same, miss_nil, set_shared_id by done. }
  apply inactive_false in Hi as [Hacc ->]. destruct (buffering (shared s)) eqn:Hbuf.
  - unfold lost_buffer. rewrite queue_error_buffer. apply errors_ok.
    open_ok Hok; [by_work Hw|done|accounted Ha].
  - rewrite lost_buffer_same, miss_nil by (rewrite queue_error_buffer; by destruct (mentions_gap error)).
    apply errors_ok. destruct (mentions_gap error); open_ok Hok; try by_work Hw. by rewrite orb_true_r.
Qed.

Lemma enqueue_historical_ok n log g s :
  live_ok n s → live_ok n (set_shared (enqueue log false g true (shared s)).1 s).
Proof.
  intros Hok. unfold enqueue. destruct (_ || _); cbn [andb fst]; [by rewrite set_shared_id|].
  open_ok Hok. accounted Ha.
Qed.

Lemma run_deliver_ok n s : live_ok n s → live_ok n (run_deliver s).
Proof.
  intros Hok. unfold run_deliver. destruct (delivering s) eqn:Hd; [done|].
  unfold delivery_take. destruct (delivery_shutdown (shared s)); [by rewrite set_shared_id|].
  destruct (historical_deliveries (shared s)) as [|job jobs] eqn:Eh.
  - destruct (delivery_errors (shared s)); [|open_ok Hok; accounted Ha].
    destruct (0 <? _); [open_ok Hok; accounted Ha|]. destruct (_ && _); [|done].
    destruct (live_deliveries (shared s)) as [|job jobs] eqn:El; [done|]. open_ok Hok.
    accounted Ha. rewrite Eh, El, Hd, (live_jobs_cons _ job jobs), elem_of_app. cbn.
    rewrite ?elem_of_nil. clear; tauto.
  - open_ok Hok. accounted Ha. rewrite Eh, Hd, (live_jobs_cons _ job jobs), elem_of_app. cbn.
    rewrite ?elem_of_nil. clear; tauto.
Qed.

Lemma run_delivered_ok n s : live_ok n s → live_ok n (run_delivered s).
Proof.
  intros Hok. unfold run_delivered. destruct (delivering s) eqn:Hd; [|done].
  open_ok Hok. accounted Ha. rewrite Hd. cbn. rewrite ?elem_of_nil. clear; tauto.
Qed.

Lemma run_delivery_failed_ok n s : live_ok n s → live_ok n (run_delivery_failed s).
Proof.
  intros Hok. unfold run_delivery_failed. destruct (delivering s) as [job|] eqn:Hd; [|done].
  unfold schedule_overlap_recovery. destruct (inactive (job_generation job) (shared s)) eqn:Hi.
  - rewrite lost_buffer_same by done. cbn [app]. rewrite miss_nil.
    open_ok Hok. destruct (accepting_live (shared s)) eqn:Hacc.
    + accounted Ha. rewrite Hd. cbn.
      assert (live_jobs (generation (shared s)) [job] = []) as ->.
      { unfold live_jobs. rewrite filter_cons, filter_nil. destruct (decide _) as [[_ E]|]; [|done].
        unfold inactive in Hi. by rewrite E, Hacc, Z.eqb_refl in Hi. }
      rewrite elem_of_nil. clear; tauto.
    + destruct (Hq eq_refl) as (_ & _ & _ & -> & _). apply list_subseteq_nil.
  - apply inactive_false in Hi as [Hacc Hjob]. destruct (buffering (shared s)) eqn:Hbuf.
    + unfold lost_buffer. cbn [buffered_logs set_handoff_gap_pending set_buffered_logs].
      rewrite bool_decide_eq_true_2 by done.
      open_ok Hok; [done|]. accounted Ha. rewrite Hd. cbn. rewrite ?elem_of_nil. clear; tauto.
    + rewrite lost_buffer_same by done. rewrite Hjob.
      open_ok Hok; [by_work Hw|by rewrite orb_true_r|]. accounted Ha. rewrite Hd. cbn.
      rewrite ?elem_of_nil. clear; tauto.
Qed.

Lemma run_reconcile_ok n s : live_ok n s → worker_shutdown (shared s) = false → live_ok n (run_reconcile s).
Proof.
  intros Hok Hns. unfold run_reconcile, reconcile_take. destruct (working s) eqn:Ew; [done|].
  rewrite Hns. destruct (has_pending_head (shared s) || _) eqn:Ewake; [|done]. cbn [recover_overlap].
  assert (Hcw0 : covered_by_worker s = []).
  { destruct (covered_by_worker s) eqn:E; [done|].
    destruct (ok_worker _ _ Hok) as (w & ? & _); [by rewrite E|congruence]. }
  assert (Hwork : accepting_live (shared s) = true →
    buffering (shared s) = false ∧ pending_generation (shared s) = generation (shared s)).
  { intros Hacc. assert (Hnb : buffering (shared s) = false).
    { destruct (buffering (shared s)) eqn:Hbuf; [|done].
      destruct (ok_buffering _ _ Hok Hbuf) as (Eh & Er & _). by rewrite Eh, Er in Ewake. }
    split; [done|]. apply (ok_pending _ _ Hok Hacc). rewrite Hnb in Ewake. cbn in Ewake.
    rewrite andb_true_r in Ewake. by rewrite Ewake. }
  destruct (overlap_recovery_pending (shared s)) eqn:Eo.
  - open_ok Hok.
    + intros w [= <-]. cbn. auto.
    + intros Hna. by destruct (Hq Hna) as (? & ? & ? & ? & -> & ? & ->).
    + done.
    + intros Hmis. eexists. split; [done|]. cbn. split; [done|]. apply Hwork.
      destruct (accepting_live (shared s)); [done|]. by destruct (Hq eq_refl) as (_ & _ & _ & _ & ? & _).
    + accounted Ha. rewrite Hcw0, elem_of_nil. clear; tauto.
  - open_ok Hok.
    + intros w [= <-]. cbn. auto.
    + intros Hna. by destruct (Hq Hna) as (? & ? & ? & ? & ? & ? & ?).
    + done.
    + intros Hmis. specialize (Hm Hmis). by rewrite <- Eo.
Qed.

Lemma run_reconciled_ok n durable s : live_ok n s → live_ok n (run_reconciled durable s).
Proof.
  intros Hok. unfold run_reconciled, reconcile_confirmed_done. destruct (working s) as [w|]; [|done].
  destruct (_ && _).
  all: open_ok Hok; [|accounted Ha].
  all: intros Hna; by destruct (Hq Hna) as (? & ? & ? & ? & ? & ? & ->).
Qed.

Lemma run_reconcile_failed_ok n s : live_ok n s → live_ok n (run_reconcile_failed s).
Proof.
  intros Hok. unfold run_reconcile_failed, report_reconciliation_failure.
  destruct (working s) as [w|] eqn:Ew; [|done].
  destruct (covered_by_worker s) as [|x cw] eqn:Ec.
  - assert (Hact : accepting_live (shared s) && (work_generation w =? generation (shared s)) = true →
      buffering (shared s) = false ∧ pending_generation (shared s) = generation (shared s)).
    { intros [Hacc Hcur%Z.eqb_eq]%andb_true_iff. by apply (ok_working _ _ Hok w Ew). }
    destruct (_ && _) eqn:Eact; cbn [andb]; [destruct (recover_overlap w)|].
    all: open_ok Hok; rewrite ?app_nil_r.
    all: try (accounted Ha; rewrite ?Ec, ?elem_of_nil; clear; tauto).
    all: try (intros Hna; by destruct (Hq Hna) as (? & ? & ? & ? & -> & ? & ?)).
    all: try assumption; try done.
    + intros Hb'. destruct (Hact eq_refl) as [? _]. congruence.
    + intros. by apply Hact.
    + by rewrite orb_true_r.
  - destruct (ok_worker _ _ Hok) as (w' & Ew' & Hrec & Hcur); [by rewrite Ec|].
    rewrite Ew in Ew'. injection Ew' as <-.
    assert (Hacc : accepting_live (shared s) = true).
    { destruct (accepting_live (shared s)) eqn:Hacc; [done|].
      destruct (ok_quiet _ _ Hok Hacc) as (_ & _ & _ & _ & _ & ? & _). congruence. }
    destruct (ok_working _ _ Hok w Ew) as [_ Hww]. destruct (Hww Hcur Hacc) as [Hnb Hpgen].
    rewrite Hacc, Hrec, Hcur, Z.eqb_refl. cbn [andb].
    open_ok Hok; [by rewrite orb_true_r|]. accounted Ha. rewrite Ec. clear; tauto.
Qed.

Lemma run_release_ok n s :
  live_ok n s → live_ok n (set_shared (reconcile_release (shared s)) s).
Proof.
  intros Hok. unfold reconcile_release. destruct (worker_shutdown _); [|destruct (_ && _)];
    open_ok Hok; accounted Ha.
Qed.

Lemma live_ok_mono n m s : n ≤ m → live_ok n s → live_ok m s.
Proof. intros Hnm Hok. open_ok Hok. lia. Qed.

Lemma forget_ok n s :
  0 ≤ generation (shared s) ≤ n → started (shared s) = false → accepting_live (shared s) = false →
  buffering (shared s) = false → buffered_logs (shared s) = [] → has_pending_head (shared s) = false →
  handoff_gap_pending (shared s) = false → pending_generation (shared s) ≤ generation (shared s) →
  (∀ log g, (log, g) ∈ handling s → g ≤ generation (shared s)) →
  (∀ w, working s = Some w → work_generation w ≤ generation (shared s)) →
  (∀ g p, starting s = Some (g, p) → g ≤ generation (shared s)) →
  live_ok n (forget s).
Proof.
  intros Hg Hst Hacc Hb Hbl Hp Hgap Hpg Hh Hw Hs. constructor; cbn; try congruence; try done.
  - intros log g Hin. split; [by apply (Hh log)|congruence].
  - intros w Ew. split; [by apply Hw|congruence].
  - apply list_subseteq_nil.
Qed.

Lemma run_start_ok n s : live_ok n s → n + 1 ≤ u64_max → live_ok (n + 1) (run_start s).
Proof.
  intros Hok Hn. unfold run_start, start_begin. destruct (starting s) eqn:Es.
  { by apply (live_ok_mono n); [lia|]. }
  destruct (started (shared s)) eqn:Est. { by apply (live_ok_mono n); [lia|]. }
  assert (Hacc : accepting_live (shared s) = false).
  { destruct (accepting_live (shared s)) eqn:Hacc; [|done].
    destruct (ok_starter _ _ Hok Hacc) as [[? _]|(_ & p & ? & _)]; congruence. }
  assert (Hu : u64 (generation (shared s) + 1) = generation (shared s) + 1).
  { apply u64_id. pose proof (ok_generation _ _ Hok). unfold is_u64. lia. }
  destruct Hok as [Hg Hh Hw Hst Hsr Hsg Hq Hb Hp Hpg Hgap Hm Hcw Hcs Ha].
  destruct (Hq Hacc) as (? & ? & Hnp & ? & ? & ? & ?).
  constructor; cbn; rewrite ?Hu; try done; try lia; try congruence.
  - intros log g Hin. destruct (Hh log g Hin). split; [lia|]. intros ->. lia.
  - intros w Hw'. destruct (Hw w Hw'). split; [lia|]. lia.
  - intros _. right. split; [done|]. eexists. split; [done|]. split; [done|]. by intros [?|[? ?]].
  - intros g p [= <- <-]. lia.
  - rewrite Hnp. done.
  - apply list_subseteq_nil.
Qed.

Lemma run_stop_ok n s : live_ok n s → n + 1 ≤ u64_max → live_ok (n + 1) (forget (set_shared (stop (shared s)) s)).
Proof.
  intros Hok Hn. assert (Hu : u64 (generation (shared s) + 1) = generation (shared s) + 1).
  { apply u64_id. pose proof (ok_generation _ _ Hok). unfold is_u64. lia. }
  destruct Hok as [Hg Hh Hw Hst Hsr Hsg Hq Hb Hp Hpg Hgap Hm Hcw Hcs Ha].
  apply forget_ok; cbn; rewrite ?Hu; try done; try lia.
  - intros log g Hin. destruct (Hh log g Hin). lia.
  - intros w Hw'. destruct (Hw w Hw'). lia.
  - intros g p Hs. specialize (Hsg g p Hs). lia.
Qed.

Lemma start_failed_ok n s :
  live_ok n s → live_ok n (forget (set_shared (clear_live (shared s)) (set_starting None s))).
Proof.
  intros [Hg Hh Hw Hst Hsr Hsg Hq Hb Hp Hpg Hgap Hm Hcw Hcs Ha].
  apply forget_ok; cbn; try done.
  - intros log g Hin. by apply (Hh log g).
  - intros w Hw'. by apply (Hw w).
Qed.

Lemma live_buffered_jobs g logs : live_jobs g (buffered_jobs g logs) = logs.
Proof.
  induction logs as [|log [|log' logs] IH]; [done|by unfold buffered_jobs; rewrite live_jobs_one, Z.eqb_refl|].
  change (buffered_jobs g (log :: log' :: logs)) with (MkJob log true g false :: buffered_jobs g (log' :: logs)).
  by rewrite live_jobs_cons, live_jobs_one, Z.eqb_refl, IH.
Qed.

(** The thread in [start_live] is of the current generation while it matters. *)
Lemma starter_current n g p s :
  live_ok n s → starting s = Some (g, p) → accepting_live (shared s) = true →
  g = generation (shared s) ∧ started (shared s) = false ∧
  (buffering (shared s) = false ↔ p = finishing ∨ ∃ h, p = handing_over h).
Proof.
  intros Hok Hs Hacc. destruct (ok_starter _ _ Hok Hacc) as [(_ & _ & Hn)|(? & p' & Hp & Hb)].
  - by destruct (Hn g p Hs).
  - rewrite Hs in Hp. by injection Hp as -> ->.
Qed.

Lemma set_starting_ok n st s :
  live_ok n s →
  (∀ g p, st = Some (g, p) → g ≤ generation (shared s)) →
  (accepting_live (shared s) = true → started (shared s) = false ∧
   ∃ p, st = Some (generation (shared s), p) ∧ (buffering (shared s) = false ↔ p = finishing ∨ ∃ h, p = handing_over h)) →
  covered_by_start s = [] → live_ok n (set_starting st s).
Proof.
  intros Hok Hle Hp1 Hc. open_ok Hok.
  intros Hacc. right. by apply Hp1.
Qed.

Lemma no_gap_no_cover n g p s :
  live_ok n s → starting s = Some (g, p) → p ≠ in_gap → covered_by_start s = [].
Proof.
  intros Hok Hs Hp. destruct (covered_by_start s) eqn:E; [done|].
  pose proof (ok_start _ _ Hok ltac:(by rewrite E)). congruence.
Qed.

Lemma caught_up_ok n g s :
  live_ok n s → starting s = Some (g, scanning) →
  live_ok n (set_starting (if g =? generation (shared s) then Some (g, draining) else None) s).
Proof.
  intros Hok Hs. pose proof (no_gap_no_cover _ _ _ _ Hok Hs ltac:(done)).
  apply set_starting_ok; [done| | |done].
  - intros g' p. destruct (_ =? _); intros [=]. subst. by apply (ok_starting _ _ Hok g' scanning).
  - intros Hacc. destruct (starter_current _ _ _ _ Hok Hs Hacc) as (-> & ? & Hb).
    rewrite Z.eqb_refl. split; [done|]. eexists. split; [done|]. rewrite Hb. naive_solver.
Qed.

Lemma run_drain_ok n g s : live_ok n s → starting s = Some (g, draining) → live_ok n (run_drain g s).
Proof.
  intros Hok Hs. pose proof (no_gap_no_cover _ _ _ _ Hok Hs ltac:(done)) as Hc.
  pose proof (ok_starting _ _ Hok _ _ Hs) as Hgle.
  assert (Hacc : accepting_live (shared s) = true → g = generation (shared s) ∧
    started (shared s) = false ∧ buffering (shared s) = true).
  { intros Hacc. destruct (starter_current _ _ _ _ Hok Hs Hacc) as (? & ? & Hb). split_and!; [done..|].
    destruct (buffering (shared s)); [done|]. by destruct (proj1 Hb eq_refl) as [|[? ?]]. }
  assert (Hb0 : buffering (shared s) = true → accepting_live (shared s) = true).
  { intros Hb. destruct (accepting_live (shared s)) eqn:E; [done|].
    destruct (ok_quiet _ _ Hok E). congruence. }
  unfold run_drain, drain_section. destruct (handoff_gap_pending (shared s)) eqn:Hgp.
  - destruct (ok_gap _ _ Hok Hgp) as [Hbl Hbuf]. destruct (Hacc (Hb0 Hbuf)) as (-> & Hns & _).
    rewrite lost_buffer_same, miss_nil by done. open_ok Hok.
    + intros _. right. split; [done|]. eexists. split; [done|]. rewrite Hbuf. split; [done|].
      by intros [?|[? ?]].
    + intros Hna. by rewrite (Hb0 Hbuf) in Hna.
    + accounted Ha. rewrite Hc, Hbl, elem_of_nil. clear; tauto.
  - destruct (buffered_logs (shared s)) as [|log logs] eqn:Hbl.
    + cbn [has_buffered_head set_buffering]. destruct (has_buffered_head (shared s)); open_ok Hok.
      all: first
        [ by_work Hw
        | intros log g' Hin; split; [by apply (Hh log)|done]
        | intros Ha'; destruct (Hacc Ha') as (-> & ? & _); right; split; [done|]; eexists;
          split; [done|]; clear; naive_solver
        | intros Hna; destruct (Hq Hna) as (? & ? & ? & ? & ? & ? & ?); by repeat split ].
    + assert (Ha' : accepting_live (shared s) = true).
      { destruct (accepting_live (shared s)) eqn:E; [done|].
        destruct (ok_quiet _ _ Hok E) as (_ & ? & _). congruence. }
      destruct (Hacc Ha') as (-> & _ & _). open_ok Hok. accounted Ha.
      rewrite live_buffered_jobs, Hbl. clear; tauto.
Qed.

Lemma gap_closed_ok n durable g s :
  live_ok n s → starting s = Some (g, in_gap) →
  live_ok n (live_step (op_gap_closed durable) s).
Proof.
  intros Hok Hs. cbn. rewrite Hs. unfold drain_durable.
  assert (Hd : accepting_live (shared s) = true → started (shared s) = false ∧
    ∃ p, Some (g, draining) = Some (generation (shared s), p) ∧
      (buffering (shared s) = false ↔ p = finishing ∨ ∃ h, p = handing_over h)).
  { intros Hacc. destruct (starter_current _ _ _ _ Hok Hs Hacc) as (-> & ? & Hb). split; [done|].
    eexists. split; [done|]. rewrite Hb. naive_solver. }
  pose proof (ok_starting _ _ Hok _ _ Hs) as Hgle.
  destruct (g =? generation (shared s)); open_ok Hok.
  all: try (intros; by right; apply Hd).
  all: try (intros ?? [= <- <-]; done).
  all: try (intros Hna; destruct (Hq Hna) as (? & ? & ? & ? & ? & ? & ?); by repeat split).
  all: accounted Ha.
Qed.

Lemma hand_over_ok n g head s :
  live_ok n s → starting s = Some (g, handing_over head) → live_ok n (live_step op_hand_over s).
Proof.
  intros Hok Hs. cbn. rewrite Hs.
  assert (Hf : live_ok n (set_starting (Some (g, finishing)) s)).
  { apply set_starting_ok; [done| | |by eapply no_gap_no_cover].
    - intros ?? [= <- <-]. by apply (ok_starting _ _ Hok _ _ Hs).
    - intros Hacc. destruct (starter_current _ _ _ _ Hok Hs Hacc) as (-> & ? & Hb). split; [done|].
      eexists. split; [done|]. rewrite Hb. naive_solver. }
  destruct head as [h|]; [by apply (handle_head_ok n h g) in Hf|].
  by rewrite set_shared_id in * || exact Hf.
Qed.

Lemma start_finish_ok n g s :
  live_ok n s → starting s = Some (g, finishing) → live_ok n (live_step op_start_finish s).
Proof.
  intros Hok Hs. pose proof (no_gap_no_cover _ _ _ _ Hok Hs ltac:(done)) as Hc.
  cbn. rewrite Hs. unfold start_finish. destruct (inactive g (shared s)) eqn:Hi; cbn [fst].
  - assert (Hna : accepting_live (shared s) = false).
    { destruct (accepting_live (shared s)) eqn:Hacc; [|done].
      destruct (starter_current _ _ _ _ Hok Hs Hacc) as (-> & _ & _). by rewrite inactive_here, Hacc in Hi. }
    open_ok Hok.
  - apply inactive_false in Hi as [Hacc ->].
    destruct (starter_current _ _ _ _ Hok Hs Hacc) as (_ & _ & Hbuf).
    assert (Hnb : buffering (shared s) = false) by (apply Hbuf; by left).
    open_ok Hok. intros _. by left.
Qed.

Lemma live_step_ok n o s :
  live_ok n s → shut s = false → n + 1 ≤ u64_max →
  shut (live_step o s) = true ∨ live_ok (n + 1) (live_step o s).
Proof.
  intros Hok [Hnw Hnd]%orb_false_iff Hn.
  assert (Hmono : ∀ s', live_ok n s' → live_ok (n + 1) s').
  { intros s'. apply live_ok_mono. lia. }
  destruct o; cbn [live_step].
  22, 23: left; unfold shut; cbn; by rewrite ?orb_true_r.
  all: right.
  - apply Hmono. by apply run_log_ok.
  - apply Hmono. by apply run_process_ok.
  - apply Hmono. by apply handle_head_ok.
  - apply Hmono. by apply run_error_ok.
  - apply Hmono. by apply enqueue_historical_ok.
  - apply Hmono. by apply run_deliver_ok.
  - apply Hmono. by apply run_delivered_ok.
  - apply Hmono. by apply run_delivery_failed_ok.
  - apply Hmono. by apply run_reconcile_ok.
  - apply Hmono. by apply run_reconciled_ok.
  - apply Hmono. by apply run_reconcile_failed_ok.
  - apply Hmono. destruct (working s); [done|]. by apply run_release_ok.
  - by apply run_start_ok.
  - apply Hmono. destruct (starting s); [|done]. open_ok Hok.
  - apply Hmono. destruct (starting s) as [[g []]|] eqn:E; try done. by apply caught_up_ok.
  - apply Hmono. destruct (starting s) as [[g []]|] eqn:E; try done. by apply run_drain_ok.
  - apply Hmono. destruct (starting s) as [[g []]|] eqn:E; try done.
    pose proof (gap_closed_ok n durable g s Hok E) as Hgc. cbn in Hgc. by rewrite E in Hgc.
  - apply Hmono. destruct (starting s) as [[g []]|] eqn:E; try done.
    pose proof (hand_over_ok n g head s Hok E) as Hho. cbn in Hho. by rewrite E in Hho.
  - apply Hmono. destruct (starting s) as [[g []]|] eqn:E; try done.
    pose proof (start_finish_ok n g s Hok E) as Hsf. cbn in Hsf. by rewrite E in Hsf.
  - apply Hmono. destruct (starting s); [|done]. by apply start_failed_ok.
  - by apply run_stop_ok.
Qed.

Definition shut_live (l : LiveState) : bool := worker_shutdown l || delivery_shutdown l.

Lemma queue_error_shut g m l : shut_live (queue_delivery_error_locked g m l) = shut_live l.
Proof. by destruct (queue_error_shape g m l) as (? & ? & ? & -> & _). Qed.

Lemma enqueue_shut log live g wait l : shut_live (enqueue log live g wait l).1 = shut_live l.
Proof.
  unfold enqueue. destruct (_ || _); [done|]. destruct (_ && _); [|by destruct live].
  exact (queue_error_shut g _ (set_live_deliveries [] l)).
Qed.

Lemma handle_log_shut log g l : shut_live (handle_live_log log g l).1 = shut_live l.
Proof.
  unfold handle_live_log. destruct (inactive g l), (buffering l); try done. cbn [fst].
  destruct (_ && _); [done|]. destruct (negb _); [|done]. by rewrite queue_error_shut.
Qed.

Lemma handle_head_shut h g l : shut_live (handle_live_head h g l) = shut_live l.
Proof. unfold handle_live_head. by destruct (inactive g l), (buffering l). Qed.

Lemma handle_error_shut e g l : shut_live (handle_live_error e g l) = shut_live l.
Proof.
  unfold handle_live_error. destruct (inactive g l); [done|]. rewrite queue_error_shut.
  by destruct (buffering l), (mentions_gap e).
Qed.

Lemma delivery_take_shut l l' t : delivery_take l = Some (l', t) → shut_live l' = shut_live l.
Proof.
  unfold delivery_take. destruct (delivery_shutdown l) eqn:E; [by intros [= <- _]|].
  destruct (historical_deliveries l); [|by intros [= <- _]].
  destruct (delivery_errors l); [|by intros [= <- _]]. destruct (0 <? _); [by intros [= <- _]|].
  destruct (_ && _); [|done]. destruct (live_deliveries l); [done|]. by intros [= <- _].
Qed.

Lemma drain_shut g l : shut_live (drain_section g l).1 = shut_live l.
Proof.
  unfold drain_section. destruct (handoff_gap_pending l), (buffered_logs l); try done. cbv zeta.
  by destruct (has_buffered_head _).
Qed.

(** Once a worker is shut down it stays so. *)
Lemma shut_stays o s : shut s = true → shut (live_step o s) = true.
Proof.
  change (shut_live (shared s) = true → shut_live (shared (live_step o s)) = true). intros Hs.
  destruct o; cbn [live_step].
  - unfold run_log. pose proof (handle_log_shut log g (shared s)) as E.
    destruct (handle_live_log _ _ _) as [l []]; [done| |done]. destruct (bool_decide _); cbn in *; congruence.
  - unfold run_process. destruct (handling s !! i) as [[log g]|]; [|done].
    pose proof (enqueue_shut log true g false (shared s)) as E.
    destruct (enqueue _ _ _ _ _) as [l []]; cbn in *; congruence.
  - cbn. by rewrite handle_head_shut.
  - cbn. by rewrite handle_error_shut.
  - cbn. by rewrite enqueue_shut.
  - unfold run_deliver. destruct (delivering s); [done|].
    destruct (delivery_take _) as [[l t]|] eqn:E; [|done]. apply delivery_take_shut in E.
    destruct t; cbn in *; congruence.
  - unfold run_delivered. by destruct (delivering s).
  - unfold run_delivery_failed, schedule_overlap_recovery. destruct (delivering s); [|done]. cbn.
    by destruct (inactive _ (shared s)), (buffering (shared s)).
  - unfold run_reconcile, reconcile_take. destruct (working s); [done|].
    destruct (worker_shutdown (shared s)) eqn:Ew; [done|]. destruct (_ || _); [|done]. cbn [recover_overlap].
    by destruct (overlap_recovery_pending _).
  - unfold run_reconciled, reconcile_confirmed_done. destruct (working s); [|done]. cbn. by destruct (_ && _).
  - unfold run_reconcile_failed, report_reconciliation_failure. destruct (working s); [|done]. cbn.
    by destruct (_ && _).
  - destruct (working s); [done|]. cbn. unfold reconcile_release.
    destruct (worker_shutdown _) eqn:Ew; [unfold shut_live; cbn; by rewrite Ew|]. by destruct (_ && _).
  - unfold run_start, start_begin. destruct (starting s); [done|]. by destruct (started _).
  - by destruct (starting s).
  - by destruct (starting s) as [[g []]|].
  - destruct (starting s) as [[g []]|]; try done. unfold run_drain.
    pose proof (drain_shut g (shared s)) as E. destruct (drain_section _ _) as [l []]; cbn in *; congruence.
  - destruct (starting s) as [[g []]|]; try done. cbn. unfold drain_durable. by destruct (_ =? _).
  - destruct (starting s) as [[g [| | |[h|]|]]|]; try done. cbn. by rewrite handle_head_shut.
  - destruct (starting s) as [[g []]|]; try done. cbn. unfold start_finish. by destruct (inactive _ _).
  - by destruct (starting s).
  - done.
  - done.
  - unfold shut_live. cbn. by rewrite orb_true_r.
Qed.

Lemma live_run_ok os :
  Z.of_nat (length os) ≤ u64_max → shut (live_run os) = true ∨ live_ok (Z.of_nat (length os)) (live_run os).
Proof.
  unfold live_run. induction os as [|o os IH] using rev_ind; intros Hn.
  { right. constructor; cbn; try done; try congruence; try lia; try (intros; set_solver). }
  rewrite length_app in *. cbn [length] in *. rewrite foldl_app. cbn [foldl].
  destruct IH as [Hs|Hok]; [lia|left; by apply shut_stays|].
  destruct (shut (foldl (λ s o, live_step o s) initial_system os)) eqn:Hs; [left; by apply shut_stays|].
  rewrite Nat2Z.inj_add. by apply live_step_ok; [| |lia].
Qed.


(** A handoff of an older start discards the logs of a newer one.
    [drain_live_buffer] does not test the generation: what it finds buffered for a
    newer [start_live] is queued under the old generation, so the delivery worker
    will drop it, and no recovery is flagged. *)
Lemma stale_handoff_drops_logs g l :
  g ≠ generation l → handoff_gap_pending l = false → buffered_logs l ≠ [] →
  let l' := (drain_section g l).1 in
  buffered_logs l' = [] ∧
  live_jobs (generation l') (historical_deliveries l') = live_jobs (generation l) (historical_deliveries l) ∧
  live_deliveries l' = live_deliveries l ∧
  handoff_gap_pending l' = false ∧ overlap_recovery_pending l' = overlap_recovery_pending l.
Proof.
  intros Hg Hgp Hb. unfold drain_section. rewrite Hgp.
  destruct (buffered_logs l) as [|log logs]; [done|]. cbn [fst]. split_and!; try done. cbn.
  rewrite live_jobs_app. clear Hb.
  enough (∀ ls, live_jobs (generation l) (buffered_jobs g ls) = []) as -> by apply app_nil_r.
  assert (Hone : ∀ x w, live_jobs (generation l) [MkJob x true g w] = []).
  { intros. rewrite live_jobs_one. by destruct (Z.eqb_spec g (generation l)). }
  intros ls. induction ls as [|x [|y ls] IH]; [done|apply Hone|].
  change (buffered_jobs g (x :: y :: ls)) with (MkJob x true g false :: buffered_jobs g (y :: ls)).
  by rewrite live_jobs_cons, Hone, IH.
Qed.

(** ** Witnesses *)

Definition sample_log (tx : string) : EvmLog := MkLog "0xc0" [] "0x" "0xaa" "0xa" tx "0x0" "0x0" false.

(** A start, a log in the buffer, an error that clears it, and another log. *)
Definition sample_ops : list live_op :=
  [op_start; op_log (sample_log "0x1") 1; op_error "evm stream gap" 1; op_log (sample_log "0x2") 1].


(** Start, stop and start again, and a log for the second start. *)
Definition second_start : option LiveState :=
  l ← start_begin initial_live; l ← start_begin (stop l);
  Some (handle_live_log (sample_log "0x1") 3 l).1.
Definition buffered_for_second : LiveState := default initial_live second_start.

Lemma stale_handoff_drops_logs_witness :
  let l := buffered_for_second in
  let l' := (drain_section 1 l).1 in
  buffered_logs l = [sample_log "0x1"] ∧ buffered_logs l' = [] ∧
  live_jobs (generation l') (historical_deliveries l') = live_jobs (generation l) (historical_deliveries l).
Proof.
  destruct (stale_handoff_drops_logs 1 buffered_for_second ltac:(by vm_compute) ltac:(by vm_compute)
    ltac:(by vm_compute)) as (Hb & Hj & _).
  split; [by vm_compute|]. split; [exact Hb|exact Hj].
Defined.
