(* ===== verification/EvmReorg.v ===== *)
(** * Reconciling a window of blocks after a reorganisation
    (src/evm_reorg_reconciliation.cpp, evm_live_handoff.cpp)

    After a gap of the stream the indexer scans the last [reorg_lookback_blocks]
    blocks again: logs it has delivered that the chain no longer has are
    delivered once more, marked as removed, and logs it has not delivered are
    delivered.  A round of the reconciliation worker and the gap branch of the
    handoff are built from it.  The state, the node and the callback are those of
    [EvmIndexer]; the order in which an [unordered_map] is iterated is a
    parameter. *)
From stdpp Require Import sorting.
From S2P Require Import Prelude Text EvmBytes Orderbook EvmCursor EvmIndexer EvmLive.

#[local] Open Scope Z_scope.

(** ** The scan *)

Class HashOrder := {
  hash_order : gmap string EvmDeliveredLog → list (string * EvmDeliveredLog);
  hash_order_perm : ∀ m, hash_order m ≡ₚ map_to_list m }.

Definition as_removed (log : EvmLog) : EvmLog :=
  MkLog (l_address log) (l_topics log) (l_data log) (l_block_hash log) (l_block_number log)
    (l_transaction_hash log) (l_transaction_index log) (l_log_index log) true.

Definition canonical_ids (logs : list EvmLog) : gset string :=
  list_to_set (evm_log_identity <$> filter (λ l, l_removed l = false) logs).

Section Reconcile.
Context `{EvmNode, LogCallback, StdSort, HashOrder} (config_ : EvmEventIndexerConfig).

(** The delivered logs of a range that the chain does not have. *)
Definition orphans_of (range : EvmBlockRange) (canonical : list EvmLog)
    (delivered : gmap string EvmDeliveredLog) : list EvmLog :=
  as_removed ∘ delivered_log ∘ snd <$>
    filter (λ p : string * EvmDeliveredLog,
      from_block range ≤ delivered_block p.2 ≤ to_block range ∧ p.1 ∉ canonical_ids canonical)
    (hash_order delivered).

Fixpoint dispatch_orphans (orphans : list EvmLog) (generation_ : Z) : M bool :=
  match orphans with
  | [] => mret true
  | orphan :: orphans =>
      delivered ← dispatch_log_wait config_ orphan false generation_;
      if (delivered : bool) then dispatch_orphans orphans generation_ else mret false
  end.

Fixpoint dispatch_canonical (logs : list EvmLog) (persist : bool) (generation_ : Z) : M bool :=
  match logs with
  | [] => mret true
  | log :: logs =>
      current ← generation_current generation_;
      if negb current then mret false else
      _ ← dispatch_log_wait config_ log false generation_;
      current ← generation_current generation_;
      if negb current then mret false else
      _ ← (if persist && negb (l_removed log) then save_log_checkpoint config_ log else mret tt);
      dispatch_canonical logs persist generation_
  end.

Fixpoint scan_gap_each (ranges : list EvmBlockRange) (persist : bool) (generation_ : Z) : M bool :=
  match ranges with
  | [] => mret true
  | range :: ranges =>
      current ← generation_current generation_;
      if negb current then mret false else
      canonical ← lift (get_logs (evm_uint64_to_quantity (from_block range))
                                 (evm_uint64_to_quantity (to_block range)));
      current ← generation_current generation_;
      if negb current then mret false else
      canonical ← lift (sort_logs_by evm_log_before canonical);
      delivered ← gets delivered_logs;
      orphans ← lift (sort_logs_by evm_log_before (orphans_of range canonical delivered));
      dispatched ← dispatch_orphans orphans generation_;
      if negb dispatched then mret false else
      dispatched ← dispatch_canonical canonical persist generation_;
      if negb dispatched then mret false else
      current ← generation_current generation_;
      if negb current then mret false else
      _ ← (if persist then save_checkpoint config_ (to_block range) else mret tt);
      scan_gap_each ranges persist generation_
  end.

Definition scan_gap_ranges (from to : Z) (persist : bool) (generation_ : Z) : M bool :=
  ranges ← lift (evm_make_block_ranges from to (batch_size config_));
  scan_gap_each ranges persist generation_.

Definition gap_start (target : Z) : Z :=
  let overlap := u64 (reorg_lookback_blocks config_ - 1) in
  let window_start := if overlap <? target then target - overlap else 0 in
  Z.max (start_block config_) window_start.

Definition reconcile_gap (target durable generation_ : Z) : M unit :=
  let from := gap_start target in
  if target <? from then mret tt else
  _ ← update (λ s, set_cursors (rewind (cursors s) (cursor_name config_) from) s);
  scanned ← scan_gap_ranges from (Z.min target durable) true generation_;
  if negb scanned then mret tt else
  if durable <? target then
    _ ← scan_gap_ranges (Z.max from (u64 (durable + 1))) target false generation_; mret tt
  else mret tt.

(** ** Rounds of the workers *)

Definition update_live (f : LiveState → LiveState) : M unit :=
  update (λ s, MkIndexer (f (live_state s)) (delivered_logs s) (cursors s) (emitted s) (checkpoints s)).

Definition durable_of (head : Z) : Z :=
  if confirmations config_ <? head then head - confirmations config_ else 0.

Definition reconcile_confirmed (head generation_ : Z) (include_unconfirmed recover : bool) : M unit :=
  stale ← gets (λ s, inactive generation_ (live_state s));
  if (stale : bool) then mret tt else
  let durable := durable_of head in
  let target := if include_unconfirmed then head else durable in
  _ ← (if recover then reconcile_gap target durable generation_
       else _ ← catch_up_to config_ target durable generation_; mret tt);
  update_live (reconcile_confirmed_done durable generation_).

(** One round of [reconciliation_loop] with what it took, and its [catch]. *)
Definition reconcile_scan (w : reconciliation) : M unit :=
  head ← (if refresh_head w then
            text ← lift block_number_text;
            latest ← lift (evm_quantity_to_uint64 text);
            mret (Z.max (work_head w) latest)
          else mret (work_head w));
  reconcile_confirmed head (work_generation w) (refresh_head w) (recover_overlap w).

Definition reconcile_round (w : reconciliation) : M unit := λ s,
  match reconcile_scan w s with
  | (s', Throw _) =>
      update_live (report_reconciliation_failure (work_generation w) (recover_overlap w)) s'
  | r => r
  end.

(** The branch of [drain_live_buffer] for a gap. *)
Definition drain_recover (generation_ : Z) : M unit :=
  text ← lift block_number_text;
  head ← lift (evm_quantity_to_uint64 text);
  let durable := durable_of head in
  _ ← reconcile_gap head durable generation_;
  update_live (drain_durable durable generation_).
End Reconcile.

(** ** Specification

    After the reconciliation of the blocks [lo..hi] of a chain, what is delivered
    there is what the chain has, nothing else has changed but for prunings below
    [from], and the callback was called for exactly the difference. *)

(** The delivered logs of the blocks that the chain does not have. *)
Definition orphans_in (chain : list EvmLog) (lo hi : Z) (D : gmap string EvmDeliveredLog) : list EvmLog :=
  as_removed ∘ delivered_log ∘ snd <$>
    filter (λ p : string * EvmDeliveredLog,
      lo ≤ delivered_block p.2 ≤ hi ∧ p.1 ∉ evm_log_identity <$> chain) (map_to_list D).

(** The logs of the chain in the blocks that are not delivered. *)
Definition missing_in (chain : list EvmLog) (lo hi : Z) (D : gmap string EvmDeliveredLog) : list EvmLog :=
  filter (λ l, lo ≤ chain_block l ≤ hi ∧ D !! evm_log_identity l = None) chain.

Record reconciled_window (chain : list EvmLog) (from lo hi : Z) (D D' : gmap string EvmDeliveredLog)
    (calls : list EvmLog) : Prop := {
  window_sound id d : D' !! id = Some d → lo ≤ delivered_block d ≤ hi →
    ∃ l, l ∈ chain ∧ lo ≤ chain_block l ≤ hi ∧ evm_log_identity l = id;
  window_complete l : l ∈ chain → lo ≤ chain_block l ≤ hi →
    ∃ d, D' !! evm_log_identity l = Some d ∧ delivered_block d = chain_block l;
  window_outside id d : ¬ lo ≤ delivered_block d ≤ hi → D' !! id = Some d → D !! id = Some d;
  window_kept id d : ¬ lo ≤ delivered_block d ≤ hi → from ≤ delivered_block d →
    D !! id = Some d → D' !! id = Some d;
  window_calls : calls ≡ₚ orphans_in chain lo hi D ++ missing_in chain lo hi D }.

(** What the delivered set holds are logs of some block; a log that the chain has
    too is in the same block there. *)
Definition tracked (chain : list EvmLog) (D : gmap string EvmDeliveredLog) : Prop :=
  map_Forall (λ id d,
    id ≠ "" ∧ evm_log_identity (delivered_log d) = id ∧
    evm_log_block (delivered_log d) = Ok (delivered_block d) ∧
    is_ok (evm_log_position (delivered_log d)) = true ∧
    ∀ l, l ∈ chain → evm_log_identity l = id → chain_block l = delivered_block d) D.

(** ** Windows one after the other *)

Section Windows.
Context (chain : list EvmLog) (Hchain : canonical_chain chain) (from : Z).
Implicit Types (D : gmap string EvmDeliveredLog).

Lemma chain_identity l l' :
  l ∈ chain → l' ∈ chain → evm_log_identity l = evm_log_identity l' → l = l'.
Proof using Hchain.
  intros Hl Hl' E. pose proof (chain_ids _ Hchain) as Hn.
  apply list_elem_of_lookup in Hl as [i Hi], Hl' as [j Hj].
  assert (i = j) as ->; [|by rewrite Hi in Hj; injection Hj].
  eapply NoDup_lookup; [exact Hn|by rewrite list_lookup_fmap, Hi|rewrite list_lookup_fmap, Hj; cbn; by f_equal].
Qed.

Lemma filter_exclusive {A} (P Q R : A → Prop) `{∀ x, Decision (P x), ∀ x, Decision (Q x), ∀ x, Decision (R x)} l :
  (∀ x, x ∈ l → (P x ↔ Q x ∨ R x) ∧ ¬ (Q x ∧ R x)) → filter P l ≡ₚ filter Q l ++ filter R l.
Proof.
  induction l as [|x l IH]; intros Hl; [done|]. rewrite !filter_cons.
  destruct (Hl x (list_elem_of_here _ _)) as [Hor Hnot].
  assert (∀ y, y ∈ l → (P y ↔ Q y ∨ R y) ∧ ¬ (Q y ∧ R y)) as Hl' by (intros; apply Hl; by right).
  specialize (IH Hl'). destruct (decide (P x)), (decide (Q x)), (decide (R x)); try tauto; rewrite IH; [done|].
  by rewrite Permutation_middle.
Qed.

Lemma orphans_split D lo m hi :
  lo ≤ m + 1 → m ≤ hi → orphans_in chain lo hi D ≡ₚ orphans_in chain lo m D ++ orphans_in chain (m + 1) hi D.
Proof using Type.
  intros H1 H2. unfold orphans_in. rewrite <- fmap_app. apply fmap_Permutation, filter_exclusive.
  intros [id d] _. cbn. split; [|lia]. split.
  - intros [Hb Hn]. destruct (decide (delivered_block d ≤ m)); [left|right]; (split; [lia|done]).
  - intros [[Hb Hn]|[Hb Hn]]; (split; [lia|done]).
Qed.

Lemma missing_split D lo m hi :
  lo ≤ m + 1 → m ≤ hi → missing_in chain lo hi D ≡ₚ missing_in chain lo m D ++ missing_in chain (m + 1) hi D.
Proof using Type.
  intros H1 H2. apply filter_exclusive. intros l _. split; [|lia]. split.
  - intros [Hb Hn]. destruct (decide (chain_block l ≤ m)); [left|right]; (split; [lia|done]).
  - intros [[Hb Hn]|[Hb Hn]]; (split; [lia|done]).
Qed.

(** The windows that follow see the same orphans and the same missing logs. *)
Lemma orphans_same D D1 lo hi :
  (∀ id d, lo ≤ delivered_block d ≤ hi → D !! id = Some d ↔ D1 !! id = Some d) →
  orphans_in chain lo hi D ≡ₚ orphans_in chain lo hi D1.
Proof using Type.
  intros Hsame. apply fmap_Permutation, NoDup_Permutation; [apply NoDup_filter, NoDup_map_to_list..|].
  intros [id d]. rewrite !list_elem_of_filter, !elem_of_map_to_list. cbn. split.
  - intros [[Hb Hn] HD]. split; [done|]. by apply Hsame.
  - intros [[Hb Hn] HD]. split; [done|]. by apply Hsame.
Qed.

Lemma missing_same D D1 lo m hi calls :
  from ≤ lo → lo ≤ m + 1 → tracked chain D → reconciled_window chain from lo m D D1 calls →
  missing_in chain (m + 1) hi D = missing_in chain (m + 1) hi D1.
Proof using Hchain.
  intros Hfrom Hlo Ht Hw. apply filter_ext_in. intros l Hl. split; intros [Hb Hn]; (split; [done|]).
  - destruct (D1 !! evm_log_identity l) as [d|] eqn:Ed; [|done]. exfalso.
    destruct (decide (lo ≤ delivered_block d ≤ m)) as [Hin|Hout].
    + destruct (window_sound _ _ _ _ _ _ _ Hw _ _ Ed Hin) as (l' & Hl' & Hb' & E).
      rewrite (chain_identity l' l) in Hb' by done. lia.
    + by rewrite (window_outside _ _ _ _ _ _ _ Hw _ _ Hout Ed) in Hn.
  - destruct (D !! evm_log_identity l) as [d|] eqn:Ed; [|done]. exfalso.
    destruct (Ht _ _ Ed) as (_ & _ & _ & _ & Hblock). specialize (Hblock l Hl eq_refl).
    by rewrite (window_kept _ _ _ _ _ _ _ Hw _ d ltac:(lia) ltac:(lia) Ed) in Hn.
Qed.

Lemma window_app D D1 D2 lo m hi calls1 calls2 :
  from ≤ lo → lo ≤ m + 1 → m ≤ hi → tracked chain D →
  reconciled_window chain from lo m D D1 calls1 → reconciled_window chain from (m + 1) hi D1 D2 calls2 →
  reconciled_window chain from lo hi D D2 (calls1 ++ calls2).
Proof using Hchain.
  intros Hfrom Hlo Hm Ht W1 W2. pose proof (missing_same D D1 lo m hi calls1 Hfrom Hlo Ht W1) as Hmissing.
  destruct W1 as [S1 C1 O1 K1 E1], W2 as [S2 C2 O2 K2 E2]. split.
  - intros id d Hd Hb. destruct (decide (delivered_block d ≤ m)).
    + destruct (S1 id d) as (x & Hx & Hbx & Ex); [apply O2; [lia|done]|lia|]. exists x. split_and!; [done|lia..|done].
    + destruct (S2 id d Hd) as (x & Hx & Hbx & Ex); [lia|]. exists x. split_and!; [done|lia..|done].
  - intros l' Hl Hb. destruct (decide (chain_block l' ≤ m)).
    + destruct (C1 l' Hl) as (d & Hd & E); [lia|]. exists d. split; [|done]. apply K2; [lia..|done].
    + apply C2; [done|lia].
  - intros id d Hn Hd. apply O1; [lia|]. apply O2; [lia|done].
  - intros id d Hn Hf Hd. apply K2; [lia|done|]. apply K1; [lia|done..].
  - rewrite (orphans_split D lo m hi), (missing_split D lo m hi), E1, E2 by done.
    rewrite Hmissing, (orphans_same D D1 (m + 1) hi).
    + solve_Permutation.
    + intros id d Hb. split; intros Hd; [apply K1|apply O1]; (done || lia).
Qed.

Lemma window_empty D lo hi : hi < lo → reconciled_window chain from lo hi D D [].
Proof using Type.
  intros Hlt. split; [lia..|done|done|]. symmetry. unfold orphans_in, missing_in.
  assert (∀ {A} (P : A → Prop) `{∀ x, Decision (P x)} l, (∀ x, ¬ P x) → filter P l = []) as Hnil.
  { intros A P ? l Hn. induction l as [|x l IH]; [done|]. rewrite filter_cons, decide_False; auto. }
  rewrite !Hnil; [done|lia..].
Qed.

Lemma window_pruned D D' lo hi calls cutoff :
  from ≤ lo → cutoff < from → reconciled_window chain from lo hi D D' calls →
  reconciled_window chain from lo hi D
    (filter (λ p : string * EvmDeliveredLog, cutoff < delivered_block p.2) D') calls.
Proof using Type.
  intros Hfrom Hc [S C O K E]. split; [| | | |done].
  - intros id d [Hd _]%map_lookup_filter_Some. by apply S.
  - intros l Hl Hb. destruct (C l Hl Hb) as (d & Hd & Eb). exists d. split; [|done].
    apply map_lookup_filter_Some. split; [done|]. cbn. lia.
  - intros id d Hn [Hd _]%map_lookup_filter_Some. by apply O.
  - intros id d Hn Hf Hd. apply map_lookup_filter_Some. split; [by apply K|]. cbn. lia.
Qed.

Lemma tracked_filter (P : string * EvmDeliveredLog → Prop) `{∀ x, Decision (P x)} D :
  tracked chain D → tracked chain (filter P D).
Proof using Type. intros Ht id d [Hd _]%map_lookup_filter_Some. by apply Ht. Qed.
End Windows.

(** ** One range *)

Lemma sort_by_perm `{StdSort} cmp logs :
  (∀ l r, l ∈ logs → r ∈ logs → is_ok (cmp l r) = true) →
  ∃ sorted, sort_logs_by cmp logs = Ok sorted ∧ sorted ≡ₚ logs.
Proof.
  intros Hok. destruct logs as [|x [|y logs]]; [by eexists..|]. unfold sort_logs_by.
  rewrite first_failure_Ok.
  - eexists. split; [done|]. apply std_sort_perm.
  - rewrite Forall_forall. intros r Hr. apply list_elem_of_In, in_flat_map in Hr as (a & Ha & Hr).
    apply in_map_iff in Hr as (b & <- & Hb). apply list_elem_of_In in Ha, Hb. by apply Hok.
Qed.

Lemma log_before_ok l r :
  is_ok (evm_log_block l) = true → is_ok (evm_log_position l) = true →
  is_ok (evm_log_block r) = true → is_ok (evm_log_position r) = true → is_ok (evm_log_before l r) = true.
Proof.
  unfold evm_log_before. destruct (evm_log_block l), (evm_log_block r); try done. cbn.
  destruct (evm_log_position l), (evm_log_position r); try done. intros. by case_if.
Qed.

Section Range.
Context `{EvmNode, Callback : LogCallback, StdSort, HashOrder} (config_ : EvmEventIndexerConfig).
Context (chain : list EvmLog) (Hchain : canonical_chain chain) (Hnode : node_serves chain).
Context (Hcallback : ∀ h l, log_callback h l = Ok tt) (gen : Z).
Implicit Types (s : EvmEventIndexer) (D : gmap string EvmDeliveredLog).

(** [s'] follows [s] by the calls alone; cursors and checkpoints may differ. *)
Definition follows s s' D' (calls : list EvmLog) : Prop :=
  live_state s' = live_state s ∧ delivered_logs s' = D' ∧ emitted s' = emitted s ++ history calls.

Definition running s : Prop :=
  generation (live_state s) = gen ∧ delivery_shutdown (live_state s) = false.

Lemma follows_app s s1 s2 D1 D2 calls1 calls2 :
  follows s s1 D1 calls1 → follows s1 s2 D2 calls2 → follows s s2 D2 (calls1 ++ calls2).
Proof using Type.
  intros (L1 & _ & E1) (L2 & H2 & E2). split_and!; [congruence|done|].
  unfold history in *. by rewrite E2, E1, fmap_app, app_assoc.
Qed.

Lemma follows_running s s' D' calls : follows s s' D' calls → running s → running s'.
Proof using Type. intros (L & _) [Hg Hs]. split; by rewrite L. Qed.

Lemma current_now s : running s → generation_current gen s = (s, Ok true).
Proof using Type. intros [<- _]. unfold generation_current, gets. by rewrite Z.eqb_refl. Qed.

Lemma dispatch_running log live s :
  running s → dispatch_log_wait config_ log live gen s = emit_log config_ log live s.
Proof using Type.
  intros [<- Hs]. unfold dispatch_log_wait. rewrite bind_M. unfold gets. by rewrite Hs, Z.eqb_refl.
Qed.

Lemma emit_removed log b s :
  running s → l_removed log = true → evm_log_block log = Ok b →
  emit_log config_ log false s =
    (add_emitted (MkIndexed log false) (set_delivered (delete (evm_log_identity log) (delivered_logs s)) s), Ok true).
Proof using Hcallback.
  intros [_ Hs] Hr Hb. unfold emit_log, rewind_for_removal. cbn [andb]. rewrite bind_M. cbn [mret M_ret].
  rewrite bind_M. unfold gets at 1. rewrite Hs. rewrite bind_M. unfold lift. rewrite Hb, bind_M. unfold gets.
  rewrite Hr, bind_M. unfold update, run_log_callback. by rewrite Hcallback.
Qed.

(** The orphans are delivered as removed, one after the other. *)
Lemma dispatch_orphans_runs orphans s :
  running s → Forall (λ o, l_removed o = true ∧ is_ok (evm_log_block o) = true) orphans →
  ∃ s' D', dispatch_orphans config_ orphans gen s = (s', Ok true) ∧ follows s s' D' orphans ∧
    ∀ id, D' !! id = if decide (id ∈ evm_log_identity <$> orphans) then None else delivered_logs s !! id.
Proof using Hcallback.
  intros Hs Ho. revert s Hs. induction Ho as [|o orphans [Hr Hb] _ IH]; intros s Hs; cbn [dispatch_orphans].
  { exists s, (delivered_logs s). split; [done|]. split; [|done]. split_and!; [done..|].
    unfold history. by rewrite fmap_nil, app_nil_r. }
  destruct (evm_log_block o) as [b|] eqn:Eb; [|done].
  rewrite bind_M, dispatch_running, (emit_removed o b) by done.
  set (s1 := add_emitted _ _).
  assert (follows s s1 (delete (evm_log_identity o) (delivered_logs s)) [o]) as F1 by done.
  destruct (IH s1 (follows_running _ _ _ _ F1 Hs)) as (s' & D' & E & F & HD).
  exists s', D'. split; [done|]. split; [exact (follows_app _ _ _ _ _ _ _ F1 F)|].
  intros id. rewrite HD. cbn. destruct (decide (id ∈ evm_log_identity <$> orphans)) as [Hi|Hi].
  - by rewrite decide_True by (by right).
  - destruct (decide (id = evm_log_identity o)) as [->|Hne].
    + rewrite decide_True by left. apply lookup_delete_eq.
    + rewrite decide_False by (rewrite elem_of_cons; tauto). by rewrite lookup_delete_ne.
Qed.

Lemma save_log_follows log s :
  log_wf log = true →
  ∃ s', save_log_checkpoint config_ log s = (s', Ok tt) ∧ follows s s' (delivered_logs s) [].
Proof using Type.
  intros (Hb & Hp & _)%log_wf_parses. unfold save_log_checkpoint. rewrite bind_M. unfold lift.
  rewrite Hb, bind_M, Hp. unfold update. eexists. split; [done|]. split_and!; [done..|].
  cbn. by rewrite app_nil_r.
Qed.

(** The delivered set after the logs of the chain were handed over. *)
Definition delivers D D' (logs : list EvmLog) : Prop :=
  ∀ id d, D' !! id = Some d ↔
    D !! id = Some d ∨ D !! id = None ∧ ∃ l, l ∈ logs ∧ evm_log_identity l = id ∧ d = MkDelivered l (chain_block l).

Lemma delivers_cons D D1 D' log logs :
  evm_log_identity log ∉ evm_log_identity <$> logs →
  delivers D D1 [log] → delivers D1 D' logs → delivers D D' (log :: logs).
Proof using Type.
  intros Hnot HA HB id d. unfold delivers in HA, HB.
  assert (D1 !! id = None → D !! id = None) as Hnone.
  { intros E. destruct (D !! id) as [d'|] eqn:Ed; [|done].
    assert (D1 !! id = Some d') as E' by (apply HA; by left). congruence. }
  rewrite HB, HA. split.
  - intros [[Hd|[Hn (l & Hl & Hrest)]]|[Hn (l & Hl & Hrest)]]; [by left|right..].
    + split; [done|]. exists l. split; [by apply list_elem_of_singleton in Hl as ->; left|done].
    + split; [by apply Hnone|]. exists l. split; [by right|done].
  - intros [Hd|[Hn (l & [->|Hl]%elem_of_cons & Hid & ->)]]; [by left; left|left; right|right].
    + split; [done|]. exists log. by rewrite list_elem_of_singleton.
    + split; [|by exists l]. destruct (D1 !! id) as [d'|] eqn:Ed; [|done].
      apply HA in Ed as [Hd|[_ (x & ->%list_elem_of_singleton & Hx & _)]]; [congruence|].
      destruct Hnot. rewrite Hx, <- Hid. by apply list_elem_of_fmap_2.
Qed.

Lemma dispatch_canonical_runs logs persist s :
  running s → Forall (λ l, log_wf l = true) logs → NoDup (evm_log_identity <$> logs) →
  ∃ s' D', dispatch_canonical config_ logs persist gen s = (s', Ok true) ∧
    follows s s' D' (filter (λ l, delivered_logs s !! evm_log_identity l = None) logs) ∧
    delivers (delivered_logs s) D' logs.
Proof using Hcallback.
  clear Hnode Hchain. revert s. induction logs as [|log logs IH]; intros s Hs Hw Hn; cbn [dispatch_canonical].
  { exists s, (delivered_logs s). split; [done|]. split; [split_and!; [done..|cbn; by rewrite app_nil_r]|].
    intros id d. set_solver. }
  apply Forall_cons in Hw as [Hlog Hw]. cbn in Hn. apply NoDup_cons in Hn as [Hnotin Hn].
  pose proof (log_wf_parses _ Hlog) as (_ & _ & Hr & Hid).
  rewrite bind_M, current_now by done. cbn [negb]. rewrite bind_M, dispatch_running by done.
  assert (∃ s1 b, emit_log config_ log false s = (s1, Ok b) ∧
    follows s s1 (delivered_logs s1) (filter (λ l, delivered_logs s !! evm_log_identity l = None) [log]) ∧
    delivers (delivered_logs s) (delivered_logs s1) [log]) as (s1 & b & -> & F1 & D1).
  { destruct (delivered_logs s !! evm_log_identity log) as [d|] eqn:Ed.
    - exists s, false. split; [|split].
      + unfold emit_log, rewind_for_removal. cbn [andb]. rewrite bind_M. cbn [mret M_ret]. rewrite bind_M.
        unfold gets at 1. rewrite (proj2 Hs), bind_M. unfold lift. rewrite (block_of_wf _ Hlog), bind_M.
        unfold gets. by rewrite Hr, bool_decide_eq_false_2, Ed by done.
      + cbn. rewrite decide_False by (by rewrite Ed). split_and!; [done..|cbn; by rewrite app_nil_r].
      + intros id d'. split; [by left|]. intros [?|[Hnone (x & Hx & Ex & _)]]; [done|].
        apply list_elem_of_singleton in Hx. congruence.
    - exists (add_emitted (MkIndexed log false) (with_delivered log s)), true. split; [|split].
      + rewrite emit_fresh by (done || apply Hs). by rewrite Hcallback.
      + rewrite filter_cons, decide_True by done. done.
      + intros id d'. cbn. rewrite lookup_insert_Some. split.
        * intros [[<- <-]|[Hne Hd]]; [right|by left]. split; [done|]. exists log.
          by rewrite list_elem_of_singleton.
        * intros [Hd|[Hnone (x & Hx & <- & ->)]]; [right; split; [congruence|done]|left].
          by apply list_elem_of_singleton in Hx as ->. }
  rewrite bind_M, current_now by (by eapply follows_running). cbn [negb]. rewrite Hr. cbn [negb].
  rewrite andb_true_r, bind_M.
  assert (∃ s2, (if persist then save_log_checkpoint config_ log else mret tt) s1 = (s2, Ok tt) ∧
    follows s1 s2 (delivered_logs s1) []) as (s2 & -> & F2).
  { destruct persist; [by apply save_log_follows|]. exists s1. split; [done|].
    split_and!; [done..|cbn; by rewrite app_nil_r]. }
  pose proof (follows_app _ _ _ _ _ _ _ F1 F2) as F12. rewrite app_nil_r in F12.
  destruct (IH s2 (follows_running _ _ _ _ F12 Hs) Hw Hn) as (s' & D' & E & F & HD).
  destruct F2 as (_ & E2 & _). rewrite E2 in F, HD.
  exists s', D'. split; [done|]. split.
  - change (log :: logs) with ([log] ++ logs). rewrite filter_app.
    replace (filter (λ l, delivered_logs s !! evm_log_identity l = None) logs)
      with (filter (λ l, delivered_logs s1 !! evm_log_identity l = None) logs).
    + exact (follows_app _ _ _ _ _ _ _ F12 F).
    + apply filter_ext_in. intros l Hl. rewrite !eq_None_not_Some. apply not_iff_compat.
      split; intros [d Hd].
      * apply D1 in Hd as [?|[_ (l' & ->%list_elem_of_singleton & E' & _)]]; [done|].
        destruct Hnotin. rewrite E'. by apply list_elem_of_fmap_2.
      * exists d. apply D1. by left.
  - by apply (delivers_cons _ (delivered_logs s1)).
Qed.
Lemma canonical_ids_chain logs lo hi id :
  logs ≡ₚ filter (λ l, lo ≤ chain_block l ≤ hi) chain →
  id ∈ canonical_ids logs ↔ ∃ l, l ∈ chain ∧ lo ≤ chain_block l ≤ hi ∧ evm_log_identity l = id.
Proof using Hchain.
  intros Hp. unfold canonical_ids. rewrite elem_of_list_to_set, list_elem_of_fmap. split.
  - intros (l & -> & [_ Hl]%list_elem_of_filter). rewrite Hp in Hl. apply list_elem_of_filter in Hl as [Hb Hl].
    by exists l.
  - intros (l & Hl & Hb & <-). exists l. split; [done|]. apply list_elem_of_filter. rewrite Hp.
    split; [|by apply list_elem_of_filter].
    by destruct (log_wf_parses l (chain_log_wf _ Hchain _ Hl)) as (_ & _ & ? & _).
Qed.

(** What the code calls the orphans of a range are the orphans of the window. *)
Lemma orphans_of_window range logs D :
  tracked chain D →
  logs ≡ₚ filter (λ l, from_block range ≤ chain_block l ≤ to_block range) chain →
  orphans_of range logs D ≡ₚ orphans_in chain (from_block range) (to_block range) D.
Proof using Hchain.
  intros Ht Hp. unfold orphans_of, orphans_in. apply fmap_Permutation. rewrite hash_order_perm.
  erewrite filter_ext_in; [done|]. intros [id d] Hd%elem_of_map_to_list. cbn.
  destruct (Ht _ _ Hd) as (_ & _ & _ & _ & Hblock).
  rewrite (canonical_ids_chain logs _ _ id Hp). split; intros [Hb Hn]; (split; [done|]); intros Hin; apply Hn.
  - apply list_elem_of_fmap in Hin as (l & -> & Hl). exists l. rewrite (Hblock l) by done. done.
  - destruct Hin as (l & Hl & _ & <-). by apply list_elem_of_fmap_2.
Qed.

Lemma orphan_id D lo hi id :
  tracked chain D →
  id ∈ evm_log_identity <$> orphans_in chain lo hi D ↔
  ∃ d, D !! id = Some d ∧ lo ≤ delivered_block d ≤ hi ∧ id ∉ evm_log_identity <$> chain.
Proof using Type.
  intros Ht. unfold orphans_in. rewrite list_elem_of_fmap. split.
  - intros (o & -> & ([id' d] & -> & [[Hb Hn] Hd%elem_of_map_to_list]%list_elem_of_filter)%list_elem_of_fmap).
    destruct (Ht _ _ Hd) as (_ & Hid & _). cbn in *.
    change (evm_log_identity (as_removed (delivered_log d))) with (evm_log_identity (delivered_log d)).
    rewrite Hid. by exists d.
  - intros (d & Hd & Hb & Hn). destruct (Ht _ _ Hd) as (_ & Hid & _).
    exists (as_removed (delivered_log d)). split; [done|]. apply list_elem_of_fmap. exists (id, d). split; [done|].
    apply list_elem_of_filter. split; [done|]. by apply elem_of_map_to_list.
Qed.

(** Removing the orphans and handing over the chain's logs reconciles the range. *)
Lemma range_reconciled from lo hi D D1 D2 orphans logs :
  tracked chain D → orphans ≡ₚ orphans_in chain lo hi D →
  logs ≡ₚ filter (λ l, lo ≤ chain_block l ≤ hi) chain →
  (∀ id, D1 !! id = if decide (id ∈ evm_log_identity <$> orphans) then None else D !! id) →
  delivers D1 D2 logs →
  tracked chain D2 ∧
  reconciled_window chain from lo hi D D2
    (orphans ++ filter (λ l, D1 !! evm_log_identity l = None) logs).
Proof using Hchain.
  intros Ht Ho Hp HA HB.
  assert (∀ l, l ∈ logs ↔ l ∈ chain ∧ lo ≤ chain_block l ≤ hi) as Hlogs.
  { intros l. rewrite Hp, list_elem_of_filter. tauto. }
  assert (∀ id d, D1 !! id = Some d ↔ D !! id = Some d ∧
    (lo ≤ delivered_block d ≤ hi → id ∈ evm_log_identity <$> chain)) as HD1.
  { intros id d. rewrite HA. assert (id ∈ evm_log_identity <$> orphans ↔
      id ∈ evm_log_identity <$> orphans_in chain lo hi D) as Hiff by (by rewrite Ho).
    destruct (decide _) as [Hi|Hi]; rewrite Hiff, orphan_id in Hi by done.
    - destruct Hi as (d' & Hd' & Hb & Hn). split; [done|]. intros [Hd Hin]. simplify_eq. tauto.
    - split; [|by intros [? _]]. intros Hd. split; [done|]. intros Hb.
      destruct (decide (id ∈ evm_log_identity <$> chain)); [done|]. destruct Hi. by exists d. }
  assert (∀ l, l ∈ chain → D1 !! evm_log_identity l = None ↔ D !! evm_log_identity l = None) as Hnone.
  { intros l Hl. rewrite !eq_None_not_Some. apply not_iff_compat. split; intros [d Hd]; exists d.
    - by apply HD1 in Hd as [? _].
    - apply HD1. split; [done|]. intros _. by apply list_elem_of_fmap_2. }
  unfold delivers in HB. split; [|split].
  - intros id d [Hd|[_ (l & Hl & Hid & ->)]]%HB.
    + apply Ht. by apply HD1 in Hd as [? _].
    + apply Hlogs in Hl as [Hl _]. pose proof (chain_log_wf _ Hchain _ Hl) as Hw.
      destruct (log_wf_parses _ Hw) as (_ & Hpos & _ & Hne). subst id. cbn.
      split_and!; [done|done|by apply block_of_wf|by rewrite Hpos|].
      intros l' Hl' E. by rewrite (chain_identity chain Hchain l' l).
  - intros id d [Hd|[_ (l & [Hl Hb']%Hlogs & Hid & ->)]]%HB Hb; [|by exists l].
    apply HD1 in Hd as [Hd Hin]. specialize (Hin Hb). apply list_elem_of_fmap in Hin as (l & -> & Hl).
    destruct (Ht _ _ Hd) as (_ & _ & _ & _ & Hblock). exists l. by rewrite (Hblock l).
  - intros l Hl Hb. destruct (D1 !! evm_log_identity l) as [d|] eqn:Ed.
    + exists d. split; [apply HB; by left|]. apply HD1 in Ed as [Hd _].
      destruct (Ht _ _ Hd) as (_ & _ & _ & _ & Hblock). by rewrite (Hblock l).
    + exists (MkDelivered l (chain_block l)). split; [|done]. apply HB. right. split; [done|].
      exists l. by rewrite Hlogs.
  - intros id d Hn [Hd|[_ (l & [Hl Hb']%Hlogs & Hid & ->)]]%HB; [|by cbn in Hn]. by apply HD1 in Hd as [? _].
  - intros id d Hn _ Hd. apply HB. left. apply HD1. split; [done|]. by intros.
  - rewrite Ho. f_equiv. unfold missing_in. rewrite Hp, list_filter_filter.
    erewrite filter_ext_in; [done|]. intros l Hl. rewrite Hnone by done. tauto.
Qed.
(** ** All ranges *)

Fixpoint tiles (lo hi : Z) (ranges : list EvmBlockRange) : Prop :=
  match ranges with
  | [] => hi < lo
  | r :: ranges => from_block r = lo ∧ lo ≤ to_block r ≤ hi ∧ tiles (to_block r + 1) hi ranges
  end.

Lemma ranges_tile fuel lo hi batch :
  is_u64 lo → is_u64 hi → lo ≤ hi → 0 < batch ≤ u64_max → hi - lo < Z.of_nat fuel →
  tiles lo hi (ranges_loop fuel lo hi batch).
Proof using Type.
  revert lo. induction fuel as [|fuel IH]; intros lo Hf Ht Hle Hb Hfuel; [lia|].
  unfold is_u64, u64_max in *. cbn [ranges_loop].
  rewrite (u64_id (batch - 1)), (u64_id (hi - lo)) by (unfold is_u64, u64_max; lia).
  set (m := Z.min (batch - 1) (hi - lo)). assert (0 ≤ m ≤ hi - lo ∧ m < batch) as Hm by lia.
  rewrite (u64_id (lo + m)) by (unfold is_u64, u64_max; lia). cbv zeta.
  destruct (Z.eqb_spec (lo + m) hi) as [E|Hne].
  - cbn. lia.
  - rewrite u64_id by (unfold is_u64, u64_max; lia). cbn [tiles]. cbn [from_block to_block].
    split; [done|]. split; [lia|]. apply IH; lia.
Qed.

Lemma save_checkpoint_follows block s :
  ∃ s', save_checkpoint config_ block s = (s', Ok tt) ∧
    follows s s' (if block <=? reorg_lookback_blocks config_ then delivered_logs s
                  else filter (λ p : string * EvmDeliveredLog,
                    block - reorg_lookback_blocks config_ < delivered_block p.2) (delivered_logs s)) [].
Proof using Type.
  unfold save_checkpoint. rewrite bind_M. unfold update, prune_delivered. destruct (_ <=? _).
  all: eexists; split; [done|]; split_and!; [done..|by rewrite app_nil_r].
Qed.

(** What a scan of a window does. *)
Definition window_scanned from lo hi s s' : Prop :=
  ∃ calls, follows s s' (delivered_logs s') calls ∧ tracked chain (delivered_logs s') ∧
    reconciled_window chain from lo hi (delivered_logs s) (delivered_logs s') calls.

Lemma scan_one_range range ranges persist from s :
  running s → tracked chain (delivered_logs s) →
  is_u64 (from_block range) → is_u64 (to_block range) → from ≤ from_block range →
  (persist = true → to_block range - reorg_lookback_blocks config_ < from) →
  ∃ s', scan_gap_each config_ (range :: ranges) persist gen s = scan_gap_each config_ ranges persist gen s' ∧
    window_scanned from (from_block range) (to_block range) s s'.
Proof using Hchain Hnode Hcallback.
  intros Hs Ht Hf Hto Hfrom Hprune. cbn [scan_gap_each].
  rewrite bind_M, current_now by done. cbn [negb]. rewrite bind_M. unfold lift at 1.
  destruct (Hnode _ _ Hf Hto) as (logs & -> & Hp).
  rewrite bind_M, current_now by done. cbn [negb]. rewrite bind_M. unfold lift at 1.
  assert (∀ l, l ∈ logs → log_wf l = true) as Hwf.
  { intros l Hl. rewrite Hp in Hl. apply list_elem_of_filter in Hl as [_ Hl]. by apply (chain_log_wf _ Hchain). }
  destruct (sort_by_perm evm_log_before logs) as (sorted & -> & Hsorted).
  { intros l r Hl%Hwf Hr%Hwf. apply log_before_ok; rewrite ?block_of_wf by done; try done.
    - by destruct (log_wf_parses l Hl) as (_ & -> & _).
    - by destruct (log_wf_parses r Hr) as (_ & -> & _). }
  rewrite bind_M. unfold gets. rewrite bind_M. unfold lift at 1.
  pose proof Hsorted as Hsp. rewrite Hp in Hsp.
  pose proof (orphans_of_window range sorted (delivered_logs s) Ht Hsp) as Horphans.
  assert (∀ o, o ∈ orphans_of range sorted (delivered_logs s) →
    l_removed o = true ∧ is_ok (evm_log_block o) = true ∧ is_ok (evm_log_position o) = true) as Ho.
  { intros o Hin. rewrite Horphans in Hin. apply list_elem_of_fmap in Hin as ([id d] & -> & Hin).
    apply list_elem_of_filter in Hin as [_ Hd%elem_of_map_to_list].
    destruct (Ht _ _ Hd) as (_ & _ & Hb & Hpos & _).
    split; [done|]. split; [|exact Hpos].
    by change (is_ok (evm_log_block (delivered_log d)) = true); rewrite Hb. }
  destruct (sort_by_perm evm_log_before (orphans_of range sorted (delivered_logs s))) as (orphans & -> & Hos).
  { intros l r (_ & ? & ?)%Ho (_ & ? & ?)%Ho. by apply log_before_ok. }
  rewrite bind_M. destruct (dispatch_orphans_runs orphans s Hs) as (s1 & D1 & -> & F1 & HD1).
  { apply Forall_forall. intros o Hin. rewrite Hos in Hin. destruct (Ho o Hin) as (? & ? & _). done. }
  cbn [negb]. rewrite bind_M. pose proof (follows_running _ _ _ _ F1 Hs) as Hs1.
  destruct (dispatch_canonical_runs sorted persist s1 Hs1) as (s2 & D2 & -> & F2 & HD2).
  { apply Forall_forall. intros l Hl. rewrite Hsorted in Hl. by apply Hwf. }
  { rewrite Hsp. pose proof (chain_ids chain Hchain) as Hn.
    apply NoDup_fmap_1 in Hn. apply NoDup_fmap_2_strong; [|by apply NoDup_filter].
    intros x y [_ Hx]%list_elem_of_filter [_ Hy]%list_elem_of_filter. by apply (chain_identity chain Hchain). }
  cbn [negb]. rewrite bind_M, current_now by (by eapply follows_running). cbn [negb]. rewrite bind_M.
  pose proof F1 as (_ & E1 & _). pose proof F2 as (_ & E2 & _). rewrite E1 in F2, HD2.
  destruct (range_reconciled from (from_block range) (to_block range) _ D1 D2 orphans sorted Ht) as (Ht2 & Hw2); [by rewrite Hos|done..|].
  pose proof (follows_app _ _ _ _ _ _ _ F1 F2) as F12.
  destruct persist.
  - destruct (save_checkpoint_follows (to_block range) s2) as (s3 & -> & F3).
    exists s3. split; [done|]. pose proof (follows_app _ _ _ _ _ _ _ F12 F3) as F. rewrite app_nil_r in F.
    pose proof F as (_ & E3 & _). rewrite E2 in E3. eexists. rewrite E3 in *.
    split; [rewrite E2 in F; exact F|]. destruct (_ <=? _); [done|].
    split; [by apply tracked_filter|]. apply window_pruned; [done|by apply Hprune|done].
  - exists s2. split; [done|]. eexists. rewrite E2. by split_and!.
Qed.

Lemma scanned_app from lo m hi s s1 s2 :
  from ≤ lo → lo ≤ m + 1 → m ≤ hi → tracked chain (delivered_logs s) →
  window_scanned from lo m s s1 → window_scanned from (m + 1) hi s1 s2 → window_scanned from lo hi s s2.
Proof using Hchain.
  intros Hf Hlo Hm Ht (c1 & F1 & T1 & W1) (c2 & F2 & T2 & W2). exists (c1 ++ c2).
  split; [by eapply follows_app|]. split; [done|]. by eapply window_app.
Qed.

Lemma scan_gap_each_runs ranges lo hi persist from s :
  running s → tracked chain (delivered_logs s) → tiles lo hi ranges → 0 ≤ lo → hi ≤ u64_max → from ≤ lo →
  (persist = true → hi - reorg_lookback_blocks config_ < from) →
  ∃ s', scan_gap_each config_ ranges persist gen s = (s', Ok true) ∧ window_scanned from lo hi s s'.
Proof using Hchain Hnode Hcallback.
  intros Hs Ht Htiles Hlo Hhi Hfrom Hprune. revert lo s Hs Ht Htiles Hlo Hfrom.
  induction ranges as [|r ranges IH]; intros lo s Hs Ht Htiles Hlo Hfrom; cbn in Htiles.
  - exists s. split; [done|]. exists []. split; [|split; [done|by apply window_empty]].
    split_and!; [done..|by rewrite app_nil_r].
  - destruct Htiles as (Hr & Hb & Htiles). subst lo.
    destruct (scan_one_range r ranges persist from s) as (s1 & -> & W1); [done|done|split; lia..|done| |].
    { intros Hp. specialize (Hprune Hp). lia. }
    pose proof W1 as (c1 & F1 & T1 & _). pose proof (follows_running _ _ _ _ F1 Hs) as Hs1.
    destruct (IH (to_block r + 1) s1) as (s' & E & W2); [done|done|done|lia..|].
    exists s'. split; [done|]. eapply scanned_app; [done| |  |done|exact W1|exact W2]; lia.
Qed.

Lemma scan_gap_ranges_runs lo hi persist from s :
  running s → tracked chain (delivered_logs s) → is_u64 lo → is_u64 hi → 0 < batch_size config_ ≤ u64_max →
  from ≤ lo → (persist = true → hi - reorg_lookback_blocks config_ < from) →
  ∃ s', scan_gap_ranges config_ lo hi persist gen s = (s', Ok true) ∧ window_scanned from lo hi s s'.
Proof using Hchain Hnode Hcallback.
  intros Hs Ht Hlo Hhi Hb Hfrom Hprune. unfold scan_gap_ranges, evm_make_block_ranges.
  rewrite bind_M. unfold lift. destruct (Z.eqb_spec (batch_size config_) 0); [lia|]. cbn [negb require mbind res_bind].
  unfold is_u64 in *. destruct (Z.ltb_spec hi lo).
  - apply scan_gap_each_runs; [done|done|done|lia..|done].
  - apply scan_gap_each_runs; [done|done| |lia..|done]. apply ranges_tile; unfold is_u64; lia.
Qed.
Lemma scan_gap_ranges_empty lo hi persist s :
  0 < batch_size config_ → hi < lo → scan_gap_ranges config_ lo hi persist gen s = (s, Ok true).
Proof using Type.
  intros Hb Hlt. unfold scan_gap_ranges, evm_make_block_ranges. rewrite bind_M. unfold lift.
  destruct (Z.eqb_spec (batch_size config_) 0); [lia|]. cbn [negb require mbind res_bind].
  by rewrite (proj2 (Z.ltb_lt hi lo)).
Qed.

End Range.

(** ** Witness

    A log of an older fork in block 11, and the sample chain's three logs, of
    which the first was delivered. *)

#[export] Instance list_hash_order : HashOrder := {|
  hash_order := map_to_list; hash_order_perm _ := reflexivity _ |}.

Definition orphan_log : EvmLog := MkLog "0xc0" [] "0x" "0xff" "0xb" "0xt9" "0x0" "0x0" false.
Definition kept_log : EvmLog := MkLog "0xc0" [] "0x" "0xaa" "0xa" "0xt1" "0x0" "0x0" false.
Definition forked : EvmEventIndexer :=
  set_delivered (<[evm_log_identity orphan_log := MkDelivered orphan_log 11]>
    {[evm_log_identity kept_log := MkDelivered kept_log 10]}) (new_indexer ∅).
Definition reorg_config : EvmEventIndexerConfig := MkIndexerConfig "logs" 0 1 2 5.

Lemma forked_tracked : tracked sample_chain (delivered_logs forked).
Proof.
  intros id d Hd. unfold forked in Hd. cbn [delivered_logs set_delivered] in Hd.
  apply lookup_insert_Some in Hd as [[<- <-]|[_ [<- <-]%lookup_singleton_Some]].
  all: split; [by vm_compute|split; [done|split; [by vm_compute|split; [by vm_compute|]]]].
  all: intros l Hl; unfold sample_chain in Hl; set_unfold; destruct Hl as [->|[->|[->|[]]]];
    vm_compute; congruence.
Defined.

