(* ===== verification/PolymarketEvents.v ===== *)
(** * Events of the oracle and the conditional tokens
    (src/polymarket_events.cpp, include/polymarket/polymarket_events.hpp)

    The log topics of the UMA adapter and of the conditional tokens contract,
    the filters that ask for them, and the decoder of a log.  Keccak is a
    parameter.  What a contract emits by the Solidity ABI is read back at the
    end. *)
From Stdlib Require Import Ascii String.
From S2P Require Import Prelude Text EvmBytes Crypto EvmAbi EvmCursor JsonRpc.

#[local] Open Scope Z_scope.

(** ** Kinds and topics *)

Inductive UmaEventKind :=
  | UmaQuestionInitialized | UmaQuestionPaused | UmaQuestionUnpaused | UmaQuestionFlagged | UmaQuestionUnflagged
  | UmaQuestionReset | UmaQuestionResolved | UmaQuestionManuallyResolved.

Inductive ConditionalTokensEventKind := CtfConditionResolution | CtfPayoutRedemption.

Inductive PolymarketEventKind :=
  | UnknownEvent | QuestionInitialized | QuestionPaused | QuestionUnpaused | QuestionFlagged | QuestionUnflagged
  | QuestionReset | QuestionResolved | QuestionManuallyResolved | ConditionResolution | PayoutRedemption.

#[export] Instance event_kind_eq_dec : EqDecision PolymarketEventKind.
Proof. solve_decision. Defined.

Record EventSpec := MkSpec { spec_kind : PolymarketEventKind; spec_name : string; signature : string }.

Definition uma_specs : list EventSpec :=
  [MkSpec QuestionInitialized "QuestionInitialized"
     "QuestionInitialized(bytes32,uint256,address,bytes,address,uint256,uint256)";
   MkSpec QuestionPaused "QuestionPaused" "QuestionPaused(bytes32)";
   MkSpec QuestionUnpaused "QuestionUnpaused" "QuestionUnpaused(bytes32)";
   MkSpec QuestionFlagged "QuestionFlagged" "QuestionFlagged(bytes32)";
   MkSpec QuestionUnflagged "QuestionUnflagged" "QuestionUnflagged(bytes32)";
   MkSpec QuestionReset "QuestionReset" "QuestionReset(bytes32)";
   MkSpec QuestionResolved "QuestionResolved" "QuestionResolved(bytes32,int256,uint256[])";
   MkSpec QuestionManuallyResolved "QuestionManuallyResolved" "QuestionManuallyResolved(bytes32,uint256[])"].

Definition ctf_specs : list EventSpec :=
  [MkSpec ConditionResolution "ConditionResolution" "ConditionResolution(bytes32,address,bytes32,uint256,uint256[])";
   MkSpec PayoutRedemption "PayoutRedemption" "PayoutRedemption(address,address,bytes32,bytes32,uint256[],uint256)"].

Record PolymarketDecodedEvent := MkEvent {
  event_kind : PolymarketEventKind;
  event_name : string;
  raw_log : EvmLog;
  question_id : string;
  condition_id : string;
  request_timestamp : string;
  creator : string;
  reward_token : string;
  reward : string;
  proposal_bond : string;
  oracle : string;
  settled_price : string;
  outcome_slot_count : string;
  redeemer : string;
  collateral_token : string;
  parent_collection_id : string;
  payout : string;
  payouts : list string;
  index_sets : list string }.

(** The event of a kind with no field read yet. *)
Definition empty_event (kind : PolymarketEventKind) (name : string) (log : EvmLog) : PolymarketDecodedEvent :=
  MkEvent kind name log "" "" "" "" "" "" "" "" "" "" "" "" "" "" [] [].

Section Decoding.
Context `{Keccak}.

Definition build_topics (specs : list EventSpec) : list string := (λ s, evm_event_topic (signature s)) <$> specs.

Definition uma_event_topics : list string := build_topics uma_specs.
Definition conditional_tokens_event_topics : list string := build_topics ctf_specs.

Definition uma_index (kind : UmaEventKind) : nat :=
  match kind with
  | UmaQuestionInitialized => 0 | UmaQuestionPaused => 1 | UmaQuestionUnpaused => 2 | UmaQuestionFlagged => 3
  | UmaQuestionUnflagged => 4 | UmaQuestionReset => 5 | UmaQuestionResolved => 6 | UmaQuestionManuallyResolved => 7
  end.
Definition ctf_index (kind : ConditionalTokensEventKind) : nat :=
  match kind with CtfConditionResolution => 0 | CtfPayoutRedemption => 1 end.

Definition uma_event_topic (kind : UmaEventKind) : string := default "" (uma_event_topics !! uma_index kind).
Definition conditional_tokens_event_topic (kind : ConditionalTokensEventKind) : string :=
  default "" (conditional_tokens_event_topics !! ctf_index kind).

Definition uma_adapter_log_filter (adapter_address : string) : EvmLogFilter :=
  MkFilter [evm_normalize_hex adapter_address] [uma_event_topics] "" "".
Definition conditional_tokens_log_filter (ctf_address : string) : EvmLogFilter :=
  MkFilter [evm_normalize_hex ctf_address] [conditional_tokens_event_topics] "" "".

(** The lookup of [specs_by_topic]: the first to take a topic keeps it. *)
Definition find_spec (topic : string) : option EventSpec :=
  find (λ s, bool_decide (evm_event_topic (signature s) = topic)) (uma_specs ++ ctf_specs).

(** [topics[i]] when there are more than [i] of them. *)
Definition topic_text (log : EvmLog) (i : nat) : string := default "" (l_topics log !! i).
Definition topic_with (read : list ascii → res string) (log : EvmLog) (i : nat) : res string :=
  match l_topics log !! i with Some topic => read (chars topic) | None => Ok "" end.

Definition numeral (m : res (list ascii)) : res string := str <$> m.
Definition numerals (m : res (list (list ascii))) : res (list string) := map str <$> m.

Definition decode_initialized (e : PolymarketDecodedEvent) (log : EvmLog) : res PolymarketDecodedEvent :=
  timestamp ← topic_with (λ w, numeral (evm_uint_word_to_decimal w)) log 2;
  creator ← topic_with evm_word_to_address log 3;
  words ← evm_data_words (l_data log);
  '(token, amount, bond) ←
    match words with
    | _ :: token :: amount :: bond :: _ =>
        token ← evm_word_to_address token;
        amount ← numeral (evm_uint_word_to_decimal amount);
        bond ← numeral (evm_uint_word_to_decimal bond);
        Ok (token, amount, bond)
    | _ => Ok ("", "", "")
    end;
  Ok (MkEvent (event_kind e) (event_name e) log (topic_text log 1) "" timestamp creator token amount bond "" "" "" "" ""
        "" "" [] []).

Definition decode_resolved (e : PolymarketDecodedEvent) (log : EvmLog) : res PolymarketDecodedEvent :=
  price ← topic_with (λ w, numeral (evm_int_word_to_decimal w)) log 2;
  payouts ← numerals (evm_decode_uint_array_head (l_data log) 0 1);
  Ok (MkEvent (event_kind e) (event_name e) log (topic_text log 1) "" "" "" "" "" "" "" price "" "" "" "" "" payouts []).

Definition decode_manually_resolved (e : PolymarketDecodedEvent) (log : EvmLog) : res PolymarketDecodedEvent :=
  payouts ← numerals (evm_decode_uint_array_head (l_data log) 0 1);
  Ok (MkEvent (event_kind e) (event_name e) log (topic_text log 1) "" "" "" "" "" "" "" "" "" "" "" "" "" payouts []).

Definition decode_condition_resolution (e : PolymarketDecodedEvent) (log : EvmLog) : res PolymarketDecodedEvent :=
  oracle ← topic_with evm_word_to_address log 2;
  words ← evm_data_words (l_data log);
  slots ← match words with w :: _ => numeral (evm_uint_word_to_decimal w) | [] => Ok "" end;
  payouts ← numerals (evm_decode_uint_array_head (l_data log) 1 2);
  Ok (MkEvent (event_kind e) (event_name e) log (topic_text log 3) (topic_text log 1) "" "" "" "" "" oracle "" slots ""
        "" "" "" payouts []).

Definition decode_payout_redemption (e : PolymarketDecodedEvent) (log : EvmLog) : res PolymarketDecodedEvent :=
  redeemer ← topic_with evm_word_to_address log 1;
  token ← topic_with evm_word_to_address log 2;
  words ← evm_data_words (l_data log);
  '(condition, payout) ←
    match words with
    | condition :: _ :: payout :: _ => payout ← numeral (evm_uint_word_to_decimal payout); Ok (str condition, payout)
    | _ => Ok ("", "")
    end;
  index_sets ← numerals (evm_decode_uint_array_head (l_data log) 1 3);
  Ok (MkEvent (event_kind e) (event_name e) log "" condition "" "" "" "" "" "" "" "" redeemer token (topic_text log 3)
        payout [] index_sets).

Definition decode_question_id_event (e : PolymarketDecodedEvent) (log : EvmLog) : PolymarketDecodedEvent :=
  MkEvent (event_kind e) (event_name e) log (topic_text log 1) "" "" "" "" "" "" "" "" "" "" "" "" "" [] [].

Definition decode_polymarket_event (log : EvmLog) : res PolymarketDecodedEvent :=
  match l_topics log with
  | [] => Ok (empty_event UnknownEvent "Unknown" log)
  | topic :: _ =>
      match find_spec topic with
      | None => Ok (empty_event UnknownEvent "Unknown" log)
      | Some spec =>
          let e := empty_event (spec_kind spec) (spec_name spec) log in
          match spec_kind spec with
          | QuestionInitialized => decode_initialized e log
          | QuestionResolved => decode_resolved e log
          | QuestionManuallyResolved => decode_manually_resolved e log
          | ConditionResolution => decode_condition_resolution e log
          | PayoutRedemption => decode_payout_redemption e log
          | _ => Ok (decode_question_id_event e log)
          end
      end
  end.
End Decoding.

(** ** What the contracts emit

    The logs of the two contracts, by the Solidity ABI: indexed arguments are
    topics, the others are encoded in the data. *)
Definition word_hex (v : Z) : string := to_hex (word_of v).
Definition signed_word_hex (z : Z) : string := word_hex (z mod 2 ^ 256).

Inductive contract_event :=
  | EmitFlagged (question : Z)
  | EmitResolved (question price : Z) (payouts : list Z)
  | EmitManuallyResolved (question : Z) (payouts : list Z)
  | EmitCondition (condition : Z) (oracle : list Z) (question slots : Z) (payouts : list Z).

Definition emitted_spec (e : contract_event) : EventSpec :=
  match e with
  | EmitFlagged _ => MkSpec QuestionFlagged "QuestionFlagged" "QuestionFlagged(bytes32)"
  | EmitResolved _ _ _ => MkSpec QuestionResolved "QuestionResolved" "QuestionResolved(bytes32,int256,uint256[])"
  | EmitManuallyResolved _ _ =>
      MkSpec QuestionManuallyResolved "QuestionManuallyResolved" "QuestionManuallyResolved(bytes32,uint256[])"
  | EmitCondition _ _ _ _ _ =>
      MkSpec ConditionResolution "ConditionResolution" "ConditionResolution(bytes32,address,bytes32,uint256,uint256[])"
  end.

Definition emitted_topics (e : contract_event) : list string :=
  match e with
  | EmitFlagged question => [word_hex question]
  | EmitResolved question price _ => [word_hex question; signed_word_hex price]
  | EmitManuallyResolved question _ => [word_hex question]
  | EmitCondition condition oracle question _ _ => [word_hex condition; to_hex (replicate 12 0 ++ oracle); word_hex question]
  end.

Definition emitted_data (e : contract_event) : string :=
  match e with
  | EmitFlagged _ => to_hex []
  | EmitResolved _ _ payouts | EmitManuallyResolved _ payouts => to_hex (evm_abi_encode [uint_array payouts])
  | EmitCondition _ _ _ slots payouts => to_hex (evm_abi_encode [Word (word_of slots); uint_array payouts])
  end.

Definition payouts_ok (payouts : list Z) : Prop :=
  Forall (λ n, 0 ≤ n < 2 ^ 256) payouts ∧ Z.of_nat (length payouts) < 2 ^ 58.
Definition emitted_ok (e : contract_event) : Prop :=
  match e with
  | EmitFlagged _ => True
  | EmitResolved _ price payouts => - 2 ^ 255 ≤ price < 2 ^ 255 ∧ payouts_ok payouts
  | EmitManuallyResolved _ payouts => payouts_ok payouts
  | EmitCondition _ oracle _ slots payouts => length oracle = 20%nat ∧ Forall is_byte oracle ∧ 0 ≤ slots < 2 ^ 256 ∧ payouts_ok payouts
  end.

(** The event a reader of the contracts expects. *)
Definition emitted_event (e : contract_event) (log : EvmLog) : PolymarketDecodedEvent :=
  let event := MkEvent (spec_kind (emitted_spec e)) (spec_name (emitted_spec e)) log in
  let decimals ns := str <$> (decimal_chars <$> ns) in
  match e with
  | EmitFlagged question => event (word_hex question) "" "" "" "" "" "" "" "" "" "" "" "" "" [] []
  | EmitResolved question price payouts =>
      event (word_hex question) "" "" "" "" "" "" "" (str (signed_decimal price)) "" "" "" "" "" (decimals payouts) []
  | EmitManuallyResolved question payouts =>
      event (word_hex question) "" "" "" "" "" "" "" "" "" "" "" "" "" (decimals payouts) []
  | EmitCondition condition oracle question slots payouts =>
      event (word_hex question) (word_hex condition) "" "" "" "" "" (to_hex oracle) ""
        (str (decimal_chars slots)) "" "" "" "" (decimals payouts) []
  end.

Definition emit `{Keccak} (e : contract_event) (log : EvmLog) : EvmLog :=
  MkLog (l_address log) (evm_event_topic (signature (emitted_spec e)) :: emitted_topics e) (emitted_data e)
    (l_block_hash log) (l_block_number log) (l_transaction_hash log) (l_transaction_index log) (l_log_index log)
    (l_removed log).

Section RoundTrip.
Context `{Keccak}.

(** The ten signatures hash to ten topics. *)
Definition distinct_topics : Prop := NoDup ((λ s, evm_event_topic (signature s)) <$> (uma_specs ++ ctf_specs)).

Lemma find_by {A} (f : A → string) (l : list A) a :
  NoDup (f <$> l) → a ∈ l → find (λ b, bool_decide (f b = f a)) l = Some a.
Proof.
  induction l as [|b l IH]; intros Hd Ha; [by apply not_elem_of_nil in Ha|].
  rewrite fmap_cons, NoDup_cons in Hd. destruct Hd as [Hb Hd]. cbn. case_bool_decide as Heq.
  - apply elem_of_cons in Ha as [->|Ha]; [done|]. exfalso. apply Hb. rewrite Heq. by apply list_elem_of_fmap_2.
  - apply elem_of_cons in Ha as [->|Ha]; [done|by apply IH].
Qed.

Lemma emitted_found e : distinct_topics → find_spec (evm_event_topic (signature (emitted_spec e))) = Some (emitted_spec e).
Proof. intros Hd. apply (find_by (λ s, evm_event_topic (signature s))); [done|]. destruct e; cbn; set_solver. Qed.

Lemma lower_hex bytes : Forall is_byte bytes → map tolower (hex_chars bytes) = hex_chars bytes.
Proof.
  assert (Hd : ∀ d, 0 ≤ d < 16 → tolower (digit_char d) = digit_char d).
  { intros d Hd. apply (forall_below_spec 16 (λ d, bool_decide (tolower (digit_char d) = digit_char d))) in Hd; [|done].
    by bools. }
  induction 1 as [|b bytes Hb _ IH]; [done|]. cbn [hex_chars flat_map app map]. fold (hex_chars bytes).
  unfold is_byte in Hb. rewrite IH, !Hd; [done|..].
  - change 15 with (Z.ones 4). rewrite Z.land_ones by lia. apply Z.mod_pos_bound. lia.
  - rewrite Z.shiftr_div_pow2 by lia. change (2 ^ 4) with 16. pose proof (div_bounds b 16 ltac:(lia)). lia.
Qed.

Lemma address_word_read address :
  length address = 20%nat → Forall is_byte address →
  evm_word_to_address (chars (to_hex (replicate 12 0 ++ address))) = Ok (to_hex address).
Proof.
  intros Hl Hb. unfold evm_word_to_address. unfold to_hex at 1. rewrite chars_str.
  assert (Hb' : Forall is_byte (replicate 12 0 ++ address)).
  { apply Forall_app. split; [|done]. apply Forall_replicate. unfold is_byte. lia. }
  erewrite canonical_word; [|by apply hex_chars_val|by rewrite hex_chars_length, length_app, Hl].
  cbn [mbind res_bind]. rewrite hex_chars_app, take_app_length', drop_app_length' by done.
  assert (Hz : skip_zeros (hex_chars (replicate 12 0)) = []) by done. rewrite Hz. cbn [mbind res_bind require].
  rewrite bool_decide_eq_true_2 by done. cbn [mbind res_bind require]. unfold evm_normalize_hex, to_hex. rewrite chars_str.
  by rewrite (hex_val_no_prefix _ _ (hex_chars_val _ Hb)), lower_hex.
Qed.

Lemma payouts_data_length payouts : length (evm_abi_encode [uint_array payouts]) = (32 * (2 + length payouts))%nat.
Proof.
  unfold evm_abi_encode. rewrite append_sequence_length. cbn [map heads_length is_dynamic uint_array].
  rewrite sequence_tails_cons, length_app. change (append_encoding (Array _)) with (append_encoding (uint_array payouts)).
  rewrite uint_array_length. unfold kWordSize. cbn. lia.
Qed.

Lemma condition_data_length slots payouts :
  length (evm_abi_encode [Word (word_of slots); uint_array payouts]) = (32 * (3 + length payouts))%nat.
Proof.
  unfold evm_abi_encode. rewrite append_sequence_length. cbn [map heads_length is_dynamic uint_array].
  rewrite !sequence_tails_cons, !length_app. change (append_encoding (Array _)) with (append_encoding (uint_array payouts)).
  rewrite uint_array_length. unfold kWordSize. cbn [append_encoding]. rewrite word_of_length. cbn. lia.
Qed.

(** The payouts after no other argument, and after one word. *)
Lemma payouts_read payouts :
  payouts_ok payouts →
  numerals (evm_decode_uint_array_head (to_hex (evm_abi_encode [uint_array payouts])) 0 1) =
    Ok (str <$> (decimal_chars <$> payouts)).
Proof.
  intros [Hn Hl]. pose proof (decode_encoded_uint_array [TArray TWord] [] payouts []) as Hd. cbv zeta in Hd. cbn [app] in Hd.
  change (Z.of_nat (heads_length (encode_all []) / 32)) with 0 in Hd.
  change (Z.of_nat (heads_length (encode_all [uint_array payouts]) / 32)) with 1 in Hd.
  rewrite Hd; [done| |done|rewrite payouts_data_length; lia]. constructor; [apply uint_array_typed; lia|constructor].
Qed.

Lemma condition_payouts_read slots payouts :
  payouts_ok payouts →
  numerals (evm_decode_uint_array_head (to_hex (evm_abi_encode [Word (word_of slots); uint_array payouts])) 1 2) =
    Ok (str <$> (decimal_chars <$> payouts)).
Proof.
  intros [Hn Hl]. pose proof (decode_encoded_uint_array [TWord; TArray TWord] [Word (word_of slots)] payouts []) as Hd.
  cbv zeta in Hd. cbn [app] in Hd.
  change (Z.of_nat (heads_length (encode_all [Word (word_of slots)]) / 32)) with 1 in Hd.
  change (Z.of_nat (heads_length (encode_all [Word (word_of slots); uint_array payouts]) / 32)) with 2 in Hd.
  rewrite Hd; [done| |done|rewrite condition_data_length; lia].
  constructor; [apply word_of_length|]. constructor; [apply uint_array_typed; lia|constructor].
Qed.

Lemma first_word_read slots payouts :
  ∃ words, evm_data_words (to_hex (evm_abi_encode [Word (word_of slots); uint_array payouts])) =
    Ok (word_text slots :: words).
Proof.
  erewrite data_words_text by apply condition_data_length.
  assert (Hfirst : ∃ rest, evm_abi_encode [Word (word_of slots); uint_array payouts] = word_of slots ++ rest).
  { unfold evm_abi_encode, append_sequence. cbn [map sequence_heads is_dynamic append_encoding]. rewrite <- app_assoc. by eexists. }
  destruct Hfirst as [rest ->]. rewrite hex_chars_app. cbn [Nat.add]. rewrite chunks_word. by eexists.
Qed.

(** What the contracts emit is read back. *)
Lemma emitted_decodes e log :
  distinct_topics → emitted_ok e → decode_polymarket_event (emit e log) = Ok (emitted_event e (emit e log)).
Proof.
  intros Hd He. unfold decode_polymarket_event. cbn [emit l_topics]. rewrite (emitted_found e Hd).
  destruct e as [question|question price payouts|question payouts|condition oracle question slots payouts];
    cbn [emitted_spec spec_kind spec_name event_kind event_name empty_event].
  - done.
  - destruct He as [Hprice Hp]. unfold decode_resolved, topic_with, topic_text. cbn [emit l_topics l_data emitted_topics lookup list_lookup default emitted_data].
    unfold signed_word_hex, word_hex. rewrite (proj1 (word_to_decimal_exact price) Hprice). cbn [mbind res_bind numeral fmap res_fmap].
    by rewrite payouts_read.
  - unfold decode_manually_resolved. cbn [emit l_data emitted_data]. by rewrite payouts_read.
  - destruct He as (Ho & Hb & Hs & Hp). unfold decode_condition_resolution, topic_with, topic_text.
    cbn [emit l_topics l_data emitted_topics lookup list_lookup default emitted_data].
    rewrite address_word_read by done. cbn [mbind res_bind].
    destruct (first_word_read slots payouts) as [words ->]. cbn [mbind res_bind].
    destruct (word_text_val slots Hs) as [Hv Hl]. destruct (word_decimals _ _ Hv Hl) as [Hu _].
    unfold word_text. rewrite Hu. cbn [numeral fmap res_fmap mbind res_bind]. by rewrite condition_payouts_read.
Qed.

End RoundTrip.
