(* ===== verification/OracleWatcher.v ===== *)
(** * The resolution dashboard (src/oracle_event_history.cpp, oracle_watcher.cpp,
    include/polymarket/oracle_watcher.hpp)

    [OracleResolutionDashboard] keeps the newest events of every question in the
    order of the chain, drops an event again when a reorganisation removes its
    log, and folds the oldest events into a summary.  The state it shows is
    proved to be that of the logs on the chain, in whatever order they came. *)
From Stdlib Require Import Ascii String.
From stdpp Require Import lexico sorting.
From S2P Require Import Prelude Text EvmAbi EvmCursor Sdk JsonRpc PolymarketEvents.

#[local] Open Scope Z_scope.

(** ** State *)

Inductive OracleResolutionPhase := Unknown | Pending | Proposed | Disputed | Resolved | ManuallyResolved.

#[export] Instance phase_eq_dec : EqDecision OracleResolutionPhase.
Proof. solve_decision. Defined.

Definition oracle_resolution_phase_to_string (phase : OracleResolutionPhase) : string :=
  match phase with
  | Pending => "PENDING"
  | Proposed => "PROPOSED"
  | Disputed => "DISPUTED"
  | Resolved => "RESOLVED"
  | ManuallyResolved => "MANUALLY_RESOLVED"
  | Unknown => "UNKNOWN"
  end.

Record OracleResolutionEvent := MkTimelineEvent {
  oe_phase_name : string; oe_event_name : string; oe_live : bool; oe_received_at_ms : Z; oe_block_number : string;
  oe_transaction_hash : string; oe_question_id : string; oe_condition_id : string; oe_settled_price : string;
  oe_payouts : list string; oe_payout : string; oe_removed : bool }.

Record OracleResolutionState := MkState {
  os_key : string; os_question_id : string; os_condition_id : string; os_phase : OracleResolutionPhase;
  os_events_seen : Z; os_dispute_count : Z; os_last_seen_ms : Z; os_last_block : Z; os_last_tx_hash : string;
  os_last_event_name : string; os_settled_price : string; os_payouts : list string;
  os_timeline : list OracleResolutionEvent }.

Definition empty_state : OracleResolutionState := MkState "" "" "" Unknown 0 0 0 0 "" "" "" [] [].

Record StoredEvent := MkStored { stored_event : PolymarketDecodedEvent; stored_live : bool; stored_received_at_ms : Z }.

Record OracleResolutionDashboard := MkDashboard {
  states_ : gmap string OracleResolutionState;
  histories_ : gmap string (list StoredEvent);
  compacted_states_ : gmap string OracleResolutionState;
  compacted_through_ : gmap string StoredEvent }.

Definition empty_dashboard : OracleResolutionDashboard := MkDashboard ∅ ∅ ∅ ∅.

Definition retained_history_events_per_key : nat := 1024.

(** ** Order and identity of logs *)

(** Any exception reads as zero. *)
Definition quantity_or_zero (value : string) : Z :=
  if bool_decide (value = "") then 0
  else match evm_quantity_to_uint64 value with Ok n => n | Throw _ => 0 end.

Definition bytes (text : string) : list Z := code <$> chars text.

(** The tuple the code compares. *)
Definition log_rank (log : EvmLog) : Z * (Z * (Z * (list Z * list Z))) :=
  (quantity_or_zero (l_block_number log),
   (quantity_or_zero (l_transaction_index log),
    (quantity_or_zero (l_log_index log), (bytes (l_block_hash log), bytes (l_transaction_hash log))))).

Definition canonical_before (left right : EvmLog) : bool := bool_decide (lexico (log_rank left) (log_rank right)).

Definition same_log (left right : EvmLog) : bool :=
  negb (bool_decide (l_transaction_hash left = "")) && negb (bool_decide (l_log_index left = "")) &&
  bool_decide (l_block_hash left = l_block_hash right) &&
  bool_decide (l_transaction_hash left = l_transaction_hash right) &&
  bool_decide (l_log_index left = l_log_index right).

Definition log_of (s : StoredEvent) : EvmLog := raw_log (stored_event s).

(** ** Events into states *)

Definition state_key (event : PolymarketDecodedEvent) : string :=
  if bool_decide (question_id event = "") then condition_id event else question_id event.

Definition next_phase (kind : PolymarketEventKind) : OracleResolutionPhase :=
  match kind with
  | QuestionInitialized | QuestionFlagged | QuestionReset => Pending
  | QuestionResolved | ConditionResolution => Resolved
  | QuestionManuallyResolved => ManuallyResolved
  | _ => Unknown
  end.

Definition touch_ids (state : OracleResolutionState) (event : PolymarketDecodedEvent) : OracleResolutionState :=
  let either old new := if bool_decide (old = "") then new else old in
  MkState (os_key state) (either (os_question_id state) (question_id event))
    (either (os_condition_id state) (condition_id event)) (os_phase state) (os_events_seen state)
    (os_dispute_count state) (os_last_seen_ms state) (os_last_block state) (os_last_tx_hash state)
    (os_last_event_name state) (os_settled_price state) (os_payouts state) (os_timeline state).

Definition parse_block_number (raw : string) : string :=
  if bool_decide (raw = "") then ""
  else match evm_quantity_to_uint64 raw with Ok n => to_string n | Throw _ => raw end.

Definition u32 (z : Z) : Z := z mod 2 ^ 32.

Definition timeline_entry (phase : OracleResolutionPhase) (s : StoredEvent) : OracleResolutionEvent :=
  let event := stored_event s in
  MkTimelineEvent (oracle_resolution_phase_to_string phase) (event_name event) (stored_live s) (stored_received_at_ms s)
    (parse_block_number (l_block_number (raw_log event))) (l_transaction_hash (raw_log event)) (question_id event)
    (condition_id event) (settled_price event) (payouts event) (payout event) (l_removed (raw_log event)).

Definition append_event (state : OracleResolutionState) (s : StoredEvent) : OracleResolutionState :=
  let event := stored_event s in
  let next := next_phase (event_kind event) in
  let phase := if bool_decide (next = Unknown) then os_phase state else next in
  let price := if bool_decide (settled_price event = "") then os_settled_price state else settled_price event in
  let paid := if bool_decide (payout event = "") then os_payouts state else [payout event] in
  let paid := if bool_decide (payouts event = []) then paid else payouts event in
  let key := if bool_decide (os_key state = "") then state_key event else os_key state in
  MkState key (os_question_id state) (os_condition_id state) phase (u32 (os_events_seen state + 1))
    (os_dispute_count state) (stored_received_at_ms s) (quantity_or_zero (l_block_number (raw_log event)))
    (l_transaction_hash (raw_log event)) (event_name event) price paid
    (os_timeline state ++ [timeline_entry phase s]).

Definition absorb (state : OracleResolutionState) (s : StoredEvent) : OracleResolutionState :=
  append_event (touch_ids state (stored_event s)) s.

Definition set_key (key : string) (state : OracleResolutionState) : OracleResolutionState :=
  MkState key (os_question_id state) (os_condition_id state) (os_phase state) (os_events_seen state)
    (os_dispute_count state) (os_last_seen_ms state) (os_last_block state) (os_last_tx_hash state)
    (os_last_event_name state) (os_settled_price state) (os_payouts state) (os_timeline state).
Definition clear_timeline (state : OracleResolutionState) : OracleResolutionState :=
  MkState (os_key state) (os_question_id state) (os_condition_id state) (os_phase state) (os_events_seen state)
    (os_dispute_count state) (os_last_seen_ms state) (os_last_block state) (os_last_tx_hash state)
    (os_last_event_name state) (os_settled_price state) (os_payouts state) [].

(** ** The dashboard *)

Definition set_states (m : gmap string OracleResolutionState) (d : OracleResolutionDashboard) : OracleResolutionDashboard :=
  MkDashboard m (histories_ d) (compacted_states_ d) (compacted_through_ d).
Definition set_history (key : string) (history : list StoredEvent) (d : OracleResolutionDashboard) : OracleResolutionDashboard :=
  MkDashboard (states_ d) (<[key := history]> (histories_ d)) (compacted_states_ d) (compacted_through_ d).
Definition set_compacted (key : string) (base : OracleResolutionState) (through : option StoredEvent)
    (d : OracleResolutionDashboard) : OracleResolutionDashboard :=
  MkDashboard (states_ d) (histories_ d) (<[key := base]> (compacted_states_ d))
    (match through with Some s => <[key := s]> (compacted_through_ d) | None => compacted_through_ d end).

(** Removes the oldest events until few enough are left: the history, the base
    and the last event folded into it. *)
Fixpoint compact_loop (n : nat) (history : list StoredEvent) (base : OracleResolutionState) (through : option StoredEvent) :
    list StoredEvent * OracleResolutionState * option StoredEvent :=
  match n, history with
  | S n, oldest :: history => compact_loop n history (clear_timeline (absorb base oldest)) (Some oldest)
  | _, _ => (history, base, through)
  end.

Definition compact_history (key : string) (d : OracleResolutionDashboard) : OracleResolutionDashboard :=
  let history := default [] (histories_ d !! key) in
  let base := set_key key (default empty_state (compacted_states_ d !! key)) in
  let '(history, base, through) :=
    compact_loop (length history - retained_history_events_per_key) history base None in
  set_compacted key base through (set_history key history d).

Definition rebuild_state (key : string) (d : OracleResolutionDashboard) : OracleResolutionDashboard :=
  let history := default [] (histories_ d !! key) in
  let base :=
    match compacted_states_ d !! key with
    | Some base => if os_events_seen base =? 0 then None else Some base
    | None => None
    end in
  if bool_decide (history = []) && bool_decide (base = None) then set_states (delete key (states_ d)) d
  else set_states (<[key := foldl absorb (set_key key (default empty_state base)) history]> (states_ d)) d.

(** [std::find_if] and [erase] of what it found. *)
Fixpoint erase_log (log : EvmLog) (history : list StoredEvent) : option (list StoredEvent) :=
  match history with
  | [] => None
  | s :: history => if same_log (log_of s) log then Some history else cons s <$> erase_log log history
  end.

(** [std::lower_bound] in a history in canonical order, and the insertion
    there. *)
Fixpoint insert_log (s : StoredEvent) (history : list StoredEvent) : list StoredEvent :=
  match history with
  | [] => [s]
  | t :: rest => if canonical_before (log_of t) (log_of s) then t :: insert_log s rest else s :: history
  end.

Definition ingest_event (event : PolymarketDecodedEvent) (live : bool) (received_at_ms : Z)
    (d : OracleResolutionDashboard) : OracleResolutionDashboard :=
  let key := state_key event in
  if bool_decide (key = "") then d
  else
    let history := default [] (histories_ d !! key) in
    let d := set_history key history d in
    if l_removed (raw_log event) then
      match erase_log (raw_log event) history with
      | None => d
      | Some history => rebuild_state key (set_history key history d)
      end
    else if existsb (λ s, same_log (log_of s) (raw_log event)) history then d
    else if match compacted_through_ d !! key with
            | Some s => negb (canonical_before (log_of s) (raw_log event))
            | None => false
            end then d
    else
      let history := insert_log (MkStored event live received_at_ms) history in
      rebuild_state key (compact_history key (set_history key history d)).

Definition get (key : string) (d : OracleResolutionDashboard) : option OracleResolutionState := states_ d !! key.
Definition keys (d : OracleResolutionDashboard) : gset string := dom (states_ d).
Definition snapshots (d : OracleResolutionDashboard) : list OracleResolutionState := (map_to_list (states_ d)).*2.

(** ** JSON *)

(** A field that is left out when it is empty. *)
Definition texts_field (name : string) (values : list string) : list (string * json) :=
  if bool_decide (values = []) then [] else [(name, JArray (map JString values))].

Definition oracle_resolution_event_to_json (event : OracleResolutionEvent) : json :=
  JObject ([("phase", JString (oe_phase_name event)); ("event", JString (oe_event_name event));
            ("live", JBool (oe_live event)); ("receivedAtMs", JInteger (oe_received_at_ms event));
            ("blockNumber", JString (oe_block_number event)); ("transactionHash", JString (oe_transaction_hash event));
            ("removed", JBool (oe_removed event)); ("questionId", JString (oe_question_id event));
            ("conditionId", JString (oe_condition_id event))] ++
           optional_field "settledPrice" (oe_settled_price event) ++ optional_field "payout" (oe_payout event) ++
           texts_field "payouts" (oe_payouts event)).

Definition oracle_resolution_state_to_json (state : OracleResolutionState) : json :=
  JObject ([("key", JString (os_key state)); ("questionId", JString (os_question_id state));
            ("conditionId", JString (os_condition_id state));
            ("phase", JString (oracle_resolution_phase_to_string (os_phase state)));
            ("eventsSeen", JInteger (os_events_seen state)); ("disputeCount", JInteger (os_dispute_count state));
            ("lastSeenMs", JInteger (os_last_seen_ms state)); ("lastEvent", JString (os_last_event_name state));
            ("lastTx", JString (os_last_tx_hash state)); ("lastBlock", JInteger (os_last_block state));
            ("timeline", JArray (map oracle_resolution_event_to_json (os_timeline state)))] ++
           optional_field "settledPrice" (os_settled_price state) ++ texts_field "payouts" (os_payouts state)).

Definition as_json (key : string) (d : OracleResolutionDashboard) : json :=
  match get key d with Some state => oracle_resolution_state_to_json state | None => JObject [] end.
Definition all_as_json (d : OracleResolutionDashboard) : json := JArray (map oracle_resolution_state_to_json (snapshots d)).

(** ** What the dashboard should show

    A run is a list of deliveries, in the order they arrive. *)
Record delivery := MkDelivery { d_event : PolymarketDecodedEvent; d_live : bool; d_at : Z }.

Definition stored (o : delivery) : StoredEvent := MkStored (d_event o) (d_live o) (d_at o).
Definition deliver (d : OracleResolutionDashboard) (o : delivery) : OracleResolutionDashboard :=
  ingest_event (d_event o) (d_live o) (d_at o) d.
Definition run (os : list delivery) : OracleResolutionDashboard := foldl deliver empty_dashboard os.

(** The events of a key that are on the chain after the deliveries, as first
    received. *)
Definition survive (key : string) (l : list StoredEvent) (o : delivery) : list StoredEvent :=
  let log := raw_log (d_event o) in
  if negb (bool_decide (state_key (d_event o) = key)) then l
  else if l_removed log then filter (λ s, same_log (log_of s) log = false) l
  else if existsb (λ s, same_log (log_of s) log) l then l
  else l ++ [stored o].
Definition surviving (key : string) (os : list delivery) : list StoredEvent := foldl (survive key) [] os.

(** Never more events at a time than the dashboard keeps. *)
Definition within_window (key : string) (os : list delivery) : Prop :=
  ∀ os', os' `prefix_of` os → (length (surviving key os') ≤ retained_history_events_per_key)%nat.

(** The order of the chain: no later event is before an earlier one. *)
Definition in_order (s t : StoredEvent) : Prop := canonical_before (log_of t) (log_of s) = false.

(** The state that events in the order of the chain make: the oldest are folded
    in, the rest are on the timeline. *)
Definition phase_after (l : list StoredEvent) : OracleResolutionPhase :=
  default Unknown (last (filter (λ p, p ≠ Unknown) ((λ s, next_phase (event_kind (stored_event s))) <$> l))).
Definition first_text (f : PolymarketDecodedEvent → string) (l : list StoredEvent) : string :=
  default "" (head (filter (λ t, t ≠ "") ((λ s, f (stored_event s)) <$> l))).
Definition last_text (f : PolymarketDecodedEvent → string) (l : list StoredEvent) : string :=
  default "" (last (filter (λ t, t ≠ "") ((λ s, f (stored_event s)) <$> l))).
Definition paid (s : StoredEvent) : option (list string) :=
  let event := stored_event s in
  if bool_decide (payouts event = []) then if bool_decide (payout event = "") then None else Some [payout event]
  else Some (payouts event).
Definition last_paid (l : list StoredEvent) : list string := default [] (last (omap paid l)).
Definition of_last {A} (f : StoredEvent → A) (a : A) (l : list StoredEvent) : A :=
  match last l with Some s => f s | None => a end.

Definition timeline (settled retained : list StoredEvent) : list OracleResolutionEvent :=
  imap (λ i s, timeline_entry (phase_after (settled ++ take (S i) retained)) s) retained.

Definition summary (key : string) (settled retained : list StoredEvent) : OracleResolutionState :=
  let all := settled ++ retained in
  MkState key (first_text question_id all) (first_text condition_id all) (phase_after all)
    (u32 (Z.of_nat (length all))) 0 (of_last stored_received_at_ms 0 all)
    (of_last (λ s, quantity_or_zero (l_block_number (log_of s))) 0 all)
    (of_last (λ s, l_transaction_hash (log_of s)) "" all) (of_last (λ s, event_name (stored_event s)) "" all)
    (last_text settled_price all) (last_paid all) (timeline settled retained).

(** ** Lemmas: events into states *)

Lemma phase_after_snoc l s :
  phase_after (l ++ [s]) =
    if bool_decide (next_phase (event_kind (stored_event s)) = Unknown) then phase_after l
    else next_phase (event_kind (stored_event s)).
Proof.
  unfold phase_after. rewrite fmap_app, filter_app. cbn [fmap list_fmap]. case_bool_decide as Hn.
  - by rewrite filter_cons_False, filter_nil, app_nil_r by tauto.
  - by rewrite filter_cons_True, filter_nil, last_snoc by done.
Qed.

Lemma first_text_snoc f l s :
  first_text f (l ++ [s]) = if bool_decide (first_text f l = "") then f (stored_event s) else first_text f l.
Proof.
  unfold first_text. rewrite fmap_app, filter_app. cbn [fmap list_fmap]. set (ts := (λ s, f (stored_event s)) <$> l).
  destruct (filter (λ t, t ≠ "") ts) as [|t rest] eqn:E; cbn.
  - rewrite bool_decide_eq_true_2 by done. destruct (decide (f (stored_event s) = "")) as [Hs|Hs].
    + by rewrite decide_False by tauto.
    + by rewrite decide_True.
  - assert (Ht : t ∈ filter (λ t, t ≠ "") ts) by (rewrite E; by left).
    apply list_elem_of_filter in Ht as [Ht _]. by rewrite bool_decide_eq_false_2.
Qed.

Lemma last_text_snoc f l s :
  last_text f (l ++ [s]) = if bool_decide (f (stored_event s) = "") then last_text f l else f (stored_event s).
Proof.
  unfold last_text. rewrite fmap_app, filter_app. cbn [fmap list_fmap]. case_bool_decide as Hs.
  - by rewrite filter_cons_False, filter_nil, app_nil_r by tauto.
  - by rewrite filter_cons_True, filter_nil, last_snoc by done.
Qed.

Lemma last_paid_snoc l s :
  last_paid (l ++ [s]) = match paid s with Some paid => paid | None => last_paid l end.
Proof.
  unfold last_paid. rewrite omap_app. cbn. destruct (paid s); [by rewrite last_snoc|by rewrite app_nil_r].
Qed.

Lemma timeline_snoc settled retained s :
  timeline settled (retained ++ [s]) =
    timeline settled retained ++ [timeline_entry (phase_after (settled ++ retained ++ [s])) s].
Proof.
  unfold timeline. rewrite imap_app. f_equal.
  - apply imap_ext. intros i x Hx. apply lookup_lt_Some in Hx. by rewrite take_app_le by lia.
  - cbn. by rewrite Nat.add_0_r, take_ge by (rewrite length_app; cbn; lia).
Qed.

Lemma u32_succ n : u32 (u32 (Z.of_nat n) + 1) = u32 (Z.of_nat (S n)).
Proof. unfold u32. rewrite Zplus_mod_idemp_l. f_equal. lia. Qed.

Lemma absorb_summary key settled retained s :
  key ≠ "" → absorb (summary key settled retained) s = summary key settled (retained ++ [s]).
Proof.
  intros Hk. unfold absorb, append_event, touch_ids, summary. cbn.
  rewrite timeline_snoc, !app_assoc, !first_text_snoc, phase_after_snoc, last_text_snoc, last_paid_snoc.
  unfold of_last. rewrite !last_snoc, (length_app (_ ++ _)), Nat.add_comm, <- u32_succ.
  rewrite (bool_decide_eq_false_2 (key = "")) by done. unfold paid.
  repeat case_bool_decide; done.
Qed.

Lemma settle_summary key settled s :
  key ≠ "" → clear_timeline (absorb (summary key settled []) s) = summary key (settled ++ [s]) [].
Proof.
  intros Hk. rewrite absorb_summary by done. unfold summary, clear_timeline. cbn. by rewrite !app_nil_r.
Qed.

Lemma set_key_summary key settled retained : set_key key (summary key settled retained) = summary key settled retained.
Proof. done. Qed.

Lemma set_key_empty key : set_key key empty_state = summary key [] [].
Proof. done. Qed.

Lemma fold_summary key settled retained :
  key ≠ "" → foldl absorb (summary key settled []) retained = summary key settled retained.
Proof.
  intros Hk. induction retained as [|s retained IH] using rev_ind; [done|].
  by rewrite foldl_app, IH; cbn; apply absorb_summary.
Qed.

(** ** Lemmas: order *)

Lemma before_rank l r : canonical_before l r = true ↔ lexico (log_rank l) (log_rank r).
Proof. unfold canonical_before. by rewrite bool_decide_eq_true. Qed.

Lemma before_asym l r : canonical_before l r = true → canonical_before r l = false.
Proof.
  intros Hlr%before_rank. apply bool_decide_eq_false. intros Hrl.
  exact (irreflexivity lexico _ (transitivity Hlr Hrl)).
Qed.

Lemma before_trans a b c : canonical_before a b = true → canonical_before b c = true → canonical_before a c = true.
Proof. rewrite !before_rank. apply transitivity. Qed.

(** Not being before is transitive as well: the ranks are totally ordered. *)
Lemma in_order_trans a b c : in_order a b → in_order b c → in_order a c.
Proof.
  unfold in_order. intros Hab Hbc. destruct (canonical_before (log_of c) (log_of a)) eqn:Hca; [|done].
  apply before_rank in Hca. apply bool_decide_eq_false in Hab, Hbc.
  destruct (trichotomyT lexico (log_rank (log_of a)) (log_rank (log_of b))) as [[Hlt|Heq]|Hgt]; [| |done].
  - exfalso. apply Hbc. exact (transitivity Hca Hlt).
  - exfalso. apply Hbc. by rewrite <- Heq.
Qed.

Lemma in_order_rank a b : in_order a b → in_order b a → log_rank (log_of a) = log_rank (log_of b).
Proof.
  unfold in_order. intros Hab%bool_decide_eq_false Hba%bool_decide_eq_false.
  by destruct (trichotomyT lexico (log_rank (log_of a)) (log_rank (log_of b))) as [[|]|].
Qed.

Lemma insert_log_perm s l : insert_log s l ≡ₚ s :: l.
Proof.
  induction l as [|t l IH]; [done|]. cbn. destruct (canonical_before _ _); [|done]. rewrite IH. apply Permutation_swap.
Qed.

Lemma insert_log_sorted s l : StronglySorted in_order l → StronglySorted in_order (insert_log s l).
Proof.
  induction 1 as [|t l Hl IH Hf]; cbn; [repeat constructor|].
  destruct (canonical_before (log_of t) (log_of s)) eqn:Hts.
  - constructor; [done|]. eapply Permutation_Forall; [symmetry; apply insert_log_perm|].
    constructor; [by apply before_asym|done].
  - constructor; [by constructor|]. constructor; [done|].
    eapply Forall_impl; [exact Hf|]. intros x Hx. eapply in_order_trans; [exact Hts|done].
Qed.

(** ** Lemmas: identity *)

Lemma same_log_spec a b :
  same_log a b = true ↔ l_transaction_hash a ≠ "" ∧ l_log_index a ≠ "" ∧ l_block_hash a = l_block_hash b ∧
    l_transaction_hash a = l_transaction_hash b ∧ l_log_index a = l_log_index b.
Proof. unfold same_log. rewrite !andb_true_iff, !negb_true_iff, !bool_decide_eq_true, !bool_decide_eq_false. tauto. Qed.

Lemma same_log_sym a b : same_log a b = same_log b a.
Proof.
  apply eq_true_iff_eq. rewrite !same_log_spec.
  split; intros (Ht & Hi & Hb & Htx & Hix); repeat split; congruence.
Qed.

Lemma same_log_trans a b c : same_log a b = true → same_log b c = true → same_log a c = true.
Proof.
  rewrite !same_log_spec. intros (Ht & Hi & Hb & Htx & Hix) (_ & _ & Hb' & Htx' & Hix'). repeat split; congruence.
Qed.

(** Events with different logs. *)
Definition distinct_logs : list StoredEvent → Prop := ForallOrdPairs (λ a b, same_log (log_of a) (log_of b) = false).

Lemma distinct_perm l l' : l ≡ₚ l' → distinct_logs l → distinct_logs l'.
Proof.
  unfold distinct_logs. induction 1 as [|x l l' Hp IH|x y l|l l' l'' _ IH _ IH']; intros Hd; [done| | |by auto].
  - inversion_clear Hd as [|? ? Hx Hl]. constructor; [by eapply Permutation_Forall|by apply IH].
  - inversion_clear Hd as [|? ? Hy Hl]. inversion_clear Hl as [|? ? Hx Hl']. inversion_clear Hy as [|? ? Hyx Hy'].
    constructor; [|by constructor]. constructor; [by rewrite same_log_sym|done].
Qed.

Lemma filter_id {A} (P : A → Prop) `{∀ x, Decision (P x)} (l : list A) : (∀ x, x ∈ l → P x) → filter P l = l.
Proof.
  induction l as [|x l IH]; intros HP; [done|]. rewrite filter_cons_True by (apply HP; left).
  by rewrite IH by (intros; apply HP; by right).
Qed.

Lemma erase_log_filter log l :
  distinct_logs l →
  match erase_log log l with
  | Some l' => l' = filter (λ s, same_log (log_of s) log = false) l
  | None => filter (λ s, same_log (log_of s) log = false) l = l
  end.
Proof.
  induction 1 as [|s l Hs Hl IH]; [done|]. cbn [erase_log]. destruct (same_log (log_of s) log) eqn:Esame.
  - rewrite filter_cons_False by congruence. symmetry. apply filter_id. intros t Ht.
    destruct (same_log (log_of t) log) eqn:Et; [|done]. rewrite same_log_sym in Et.
    pose proof (same_log_trans _ _ _ Esame Et) as Hst. rewrite Forall_forall in Hs.
    specialize (Hs t Ht). cbn in Hs. congruence.
  - rewrite filter_cons_True by done. destruct (erase_log log l); cbn; by rewrite IH.
Qed.

Lemma erase_log_sorted log l l' : erase_log log l = Some l' → l' `sublist_of` l.
Proof.
  revert l'. induction l as [|s l IH]; intros l'; [done|]. cbn. destruct (same_log _ _).
  - intros [= <-]. by constructor.
  - destruct (erase_log log l) as [r|]; [|done]. intros [= <-]. constructor. by apply IH.
Qed.

Lemma distinct_insert s l :
  existsb (λ t, same_log (log_of t) (log_of s)) l = false → distinct_logs l → distinct_logs (insert_log s l).
Proof.
  intros Hs Hl. eapply distinct_perm; [symmetry; apply insert_log_perm|]. constructor; [|done].
  apply Forall_forall. intros t Ht. rewrite same_log_sym. apply not_true_iff_false. intros Hst.
  apply not_true_iff_false in Hs. apply Hs, existsb_exists. exists t. split; [by apply list_elem_of_In|done].
Qed.

Lemma sublist_forall {A} (P : A → Prop) l l' : l' `sublist_of` l → Forall P l → Forall P l'.
Proof. induction 1; intros Hl; [done|..]; inversion_clear Hl; auto. Qed.

Lemma distinct_sublist l l' : l' `sublist_of` l → distinct_logs l → distinct_logs l'.
Proof.
  unfold distinct_logs. induction 1 as [|x l' l Hs IH|x l' l Hs IH]; intros Hd; [done| |].
  - inversion_clear Hd as [|? ? Hx Hl]. constructor; [by eapply sublist_forall|by apply IH].
  - inversion_clear Hd. by apply IH.
Qed.

Lemma sorted_sublist l l' : l' `sublist_of` l → StronglySorted in_order l → StronglySorted in_order l'.
Proof.
  induction 1 as [|x l' l Hs IH|x l' l Hs IH]; intros Hd; [done| |].
  - inversion_clear Hd as [|? ? Hl Hx]. constructor; [by apply IH|by eapply sublist_forall].
  - inversion_clear Hd. by apply IH.
Qed.

(** ** Lemmas: one delivery *)

Lemma compact_loop_spec key n history settled through :
  key ≠ "" → (n ≤ length history)%nat →
  compact_loop n history (summary key settled []) through =
    (drop n history, summary key (settled ++ take n history) [],
     match last (take n history) with Some s => Some s | None => through end).
Proof.
  intros Hk. revert history settled through. induction n as [|n IH]; intros history settled through Hn.
  - by rewrite take_0, app_nil_r.
  - destruct history as [|s history]; [cbn in Hn; lia|]. cbn [compact_loop take drop].
    rewrite settle_summary, IH by (done || (cbn in Hn; lia)). rewrite <- app_assoc. do 2 f_equal.
    rewrite last_cons. by destruct (last (take n history)).
Qed.

(** What the maps hold of a key after its oldest events were folded in and the
    rest kept. *)
Record projected (key : string) (d : OracleResolutionDashboard) (settled retained : list StoredEvent) : Prop := {
  p_history : default [] (histories_ d !! key) = retained;
  p_base : compacted_states_ d !! key = None ∧ settled = [] ∨
           compacted_states_ d !! key = Some (summary key settled []);
  p_through : compacted_through_ d !! key = last settled;
  p_sorted : StronglySorted in_order (settled ++ retained);
  p_window : (length retained ≤ retained_history_events_per_key)%nat;
  p_distinct : distinct_logs retained;
  p_shown : states_ d !! key = if decide (settled ++ retained = []) then None else Some (summary key settled retained) }.

Lemma projected_empty key : projected key empty_dashboard [] [].
Proof. split; try done; [by left|constructor|cbn; lia|constructor]. Qed.

(** Rebuilding makes the shown state right when the rest is. *)
Lemma rebuild_projected key d settled retained :
  key ≠ "" → Z.of_nat (length settled) < 2 ^ 32 →
  default [] (histories_ d !! key) = retained →
  (compacted_states_ d !! key = None ∧ settled = [] ∨ compacted_states_ d !! key = Some (summary key settled [])) →
  compacted_through_ d !! key = last settled → StronglySorted in_order (settled ++ retained) →
  (length retained ≤ retained_history_events_per_key)%nat → distinct_logs retained →
  projected key (rebuild_state key d) settled retained.
Proof.
  intros Hk Hlen Hh Hb Ht Hs Hw Hd. unfold rebuild_state. rewrite Hh.
  set (base := match compacted_states_ d !! key with Some base => _ | None => None end).
  assert (Hbase : base = if decide (settled = []) then None else Some (summary key settled [])).
  { subst base. destruct Hb as [[-> ->]| ->]; [done|]. cbn. rewrite app_nil_r. unfold u32.
    rewrite Z.mod_small by lia. destruct settled; [done|]. rewrite decide_False by done. cbn.
    by destruct (Z.eqb_spec (Z.of_nat (S (length settled))) 0); [lia|]. }
  rewrite Hbase. clear base Hbase.
  destruct (decide (settled = [])) as [->|Hne].
  - rewrite (bool_decide_eq_true_2 (None = None)), andb_true_r by done. cbn [default].
    case_bool_decide as Hr; (split; [done..|]); cbn [states_ set_states app].
    + subst. by rewrite lookup_delete_eq, decide_True.
    + by rewrite lookup_insert_eq, decide_False, set_key_empty, fold_summary.
  - rewrite (bool_decide_eq_false_2 (_ = None)), andb_false_r by done. cbn [default id].
    split; [done..|]. cbn [states_ set_states]. rewrite lookup_insert_eq, set_key_summary, fold_summary by done.
    rewrite decide_False; [done|]. intros Happ. apply app_eq_nil in Happ. tauto.
Qed.

(** All the dashboard holds of a key. *)
Definition at_key (key : string) (d : OracleResolutionDashboard) :
    option OracleResolutionState * option (list StoredEvent) * option OracleResolutionState * option StoredEvent :=
  (states_ d !! key, histories_ d !! key, compacted_states_ d !! key, compacted_through_ d !! key).

Lemma projected_at key d d' settled retained :
  at_key key d' = at_key key d → projected key d settled retained → projected key d' settled retained.
Proof.
  intros [= Hs Hh Hb Ht] [Ph Pb Pt Ps Pw Pd Psh]. split; rewrite ?Hs, ?Hh, ?Hb, ?Ht; done.
Qed.

Lemma at_set_history key key' history d : key' ≠ key → at_key key (set_history key' history d) = at_key key d.
Proof. intros. unfold at_key. cbn. by rewrite lookup_insert_ne. Qed.

Lemma at_rebuild key key' d : key' ≠ key → at_key key (rebuild_state key' d) = at_key key d.
Proof.
  intros. unfold rebuild_state. case_match; unfold at_key; cbn [states_ histories_ compacted_states_ compacted_through_ set_states].
  - by rewrite lookup_delete_ne.
  - by rewrite lookup_insert_ne.
Qed.

Lemma at_compact key key' d : key' ≠ key → at_key key (compact_history key' d) = at_key key d.
Proof.
  intros. unfold compact_history. destruct (compact_loop _ _ _ _) as [[history base] through].
  unfold at_key. cbn. rewrite !lookup_insert_ne by done. destruct through; [by rewrite lookup_insert_ne|done].
Qed.

(** A delivery under a key touches nothing of the others. *)
Lemma ingest_other key event live at_ms d :
  state_key event ≠ key → at_key key (ingest_event event live at_ms d) = at_key key d.
Proof.
  intros Hk. unfold ingest_event. case_bool_decide; [done|]. cbv zeta.
  repeat case_match; by rewrite ?at_rebuild, ?at_compact, ?at_set_history.
Qed.

(** A new event after all settled ones may go anywhere into the rest. *)
Lemma insert_after_settled s settled retained :
  match last settled with Some t => canonical_before (log_of t) (log_of s) = true | None => True end →
  StronglySorted in_order (settled ++ retained) → StronglySorted in_order (settled ++ insert_log s retained).
Proof.
  intros Hs Hl. induction settled as [|t settled IH]; [by apply insert_log_sorted|].
  cbn in Hl |- *. inversion_clear Hl as [|? ? Hl' Ht]. apply Forall_app in Ht as [Ht Ht'].
  assert (Hts : in_order t s).
  { destruct (last settled) as [u|] eqn:E.
    - rewrite last_cons, E in Hs. apply (in_order_trans t u s); [|by apply before_asym].
      rewrite Forall_forall in Ht. apply Ht, last_Some_elem_of, E.
    - rewrite last_cons, E in Hs. by apply before_asym. }
  constructor.
  - apply IH; [|done]. rewrite last_cons in Hs. by destruct (last settled).
  - apply Forall_app. split; [done|]. eapply Permutation_Forall; [symmetry; apply insert_log_perm|]. by constructor.
Qed.

Lemma known_perm log l l' :
  l ≡ₚ l' → existsb (λ t, same_log (log_of t) log) l = existsb (λ t, same_log (log_of t) log) l'.
Proof.
  intros Hp. apply eq_true_iff_eq. rewrite !existsb_exists.
  split; intros (t & Ht & Hs); exists t; (split; [|done]); eapply Permutation_in; try done; by symmetry.
Qed.

Lemma survive_perm key l l' o : l ≡ₚ l' → survive key l o ≡ₚ survive key l' o.
Proof.
  intros Hp. unfold survive. rewrite (known_perm _ _ _ Hp). repeat case_if; by rewrite ?Hp.
Qed.

Lemma survive_length key l o : (length (survive key l o) ≤ S (length l))%nat.
Proof.
  unfold survive. repeat case_if; rewrite ?length_app; cbn; try lia.
  pose proof (length_filter (λ s, same_log (log_of s) (raw_log (d_event o)) = false) l). lia.
Qed.

Lemma compact_spec key d settled all :
  key ≠ "" → histories_ d !! key = Some all →
  (compacted_states_ d !! key = None ∧ settled = [] ∨ compacted_states_ d !! key = Some (summary key settled [])) →
  compacted_through_ d !! key = last settled →
  let n := (length all - retained_history_events_per_key)%nat in
  histories_ (compact_history key d) !! key = Some (drop n all) ∧
  compacted_states_ (compact_history key d) !! key = Some (summary key (settled ++ take n all) []) ∧
  compacted_through_ (compact_history key d) !! key = last (settled ++ take n all).
Proof.
  intros Hk Hh Hb Ht n. unfold compact_history. rewrite Hh. cbn [default id].
  assert (Hbase : set_key key (default empty_state (compacted_states_ d !! key)) = summary key settled []).
  { by destruct Hb as [[-> ->]| ->]. }
  rewrite Hbase, compact_loop_spec by (done || lia). fold n. cbn. rewrite !lookup_insert_eq. split_and!; [done..|].
  rewrite last_app. destruct (last (take n all)); [by rewrite lookup_insert_eq|done].
Qed.

(** A delivery under the key. *)
Lemma ingest_projected key o d settled retained :
  key ≠ "" → state_key (d_event o) = key → Z.of_nat (S (length (settled ++ retained))) < 2 ^ 32 →
  projected key d settled retained →
  ∃ settled' retained', projected key (deliver d o) settled' retained' ∧
    (length (settled' ++ retained') ≤ S (length (settled ++ retained)))%nat ∧
    (settled = [] → (length (survive key retained o) ≤ retained_history_events_per_key)%nat →
     settled' = [] ∧ retained' ≡ₚ survive key retained o).
Proof.
  intros Hk Hev Hlen [Ph Pb Pt Ps Pw Pd Psh]. unfold deliver, ingest_event, survive. rewrite Hev.
  rewrite (bool_decide_eq_false_2 (key = "")), (bool_decide_eq_true_2 (key = key)) by done. cbv zeta. rewrite Ph.
  cbn [negb]. set (log := raw_log (d_event o)). set (s := MkStored _ _ _). rewrite length_app in Hlen.
  assert (Hsame : projected key (set_history key retained d) settled retained).
  { split; try done. unfold set_history. cbn. by rewrite lookup_insert_eq. }
  destruct (l_removed log).
  - pose proof (erase_log_filter log retained Pd) as Hf. destruct (erase_log log retained) as [retained'|] eqn:E.
    + apply erase_log_sorted in E. exists settled, retained'. split; [|split].
      * pose proof (sublist_length _ _ E).
        apply rebuild_projected; unfold set_history; cbn; rewrite ?lookup_insert_eq; try done; [lia| |lia|].
        -- eapply sorted_sublist; [|done]. by apply sublist_skips_l || apply sublist_app.
        -- by eapply distinct_sublist.
      * pose proof (sublist_length _ _ E). rewrite !length_app. lia.
      * intros -> _. by rewrite Hf.
    + exists settled, retained. rewrite Hf. by split_and!; [|lia|].
  - destruct (existsb _ retained) eqn:Eknown; [exists settled, retained; by split_and!; [|lia|]|].
    cbn [set_history histories_ compacted_through_]. rewrite Pt.
    destruct (match last settled with Some _ => _ | None => false end) eqn:Elate.
    + exists settled, retained. split_and!; [done|lia|]. intros -> _. done.
    + set (all := insert_log s retained). 
      pose proof (Permutation_length (insert_log_perm s retained)) as Hall. fold all in Hall. cbn in Hall.
      set (n := (length all - retained_history_events_per_key)%nat).
      exists (settled ++ take n all), (drop n all). split; [|split].
      * destruct (compact_spec key (set_history key all (set_history key retained d)) settled all)
          as (Ch & Cb & Ct); [done|apply lookup_insert_eq|done..|]. fold n in Ch, Cb, Ct.
        apply rebuild_projected; rewrite ?Ch, ?Cb, ?Ct; try done.
        -- rewrite length_app, length_take. lia.
        -- by right.
        -- rewrite <- app_assoc, take_drop. apply insert_after_settled; [|done].
           destruct (last settled); [by apply negb_false_iff in Elate|done].
        -- rewrite length_drop. lia.
        -- eapply distinct_sublist; [apply sublist_drop|]. by apply distinct_insert.
      * rewrite <- app_assoc, take_drop, !length_app. lia.
      * intros -> Hw. rewrite length_app in Hw. cbn in Hw. assert (Hn : n = 0%nat) by (subst n; lia).
        rewrite Hn. split; [done|]. cbn. subst all. rewrite insert_log_perm. by rewrite Permutation_app_comm.
Qed.

Lemma run_projected key os :
  key ≠ "" → Z.of_nat (length os) < 2 ^ 32 →
  ∃ settled retained, projected key (run os) settled retained ∧ (length (settled ++ retained) ≤ length os)%nat ∧
    (within_window key os → settled = [] ∧ retained ≡ₚ surviving key os).
Proof.
  intros Hk. induction os as [|o os IH] using rev_ind; intros Hlen.
  { exists [], []. split_and!; [apply projected_empty|done|done]. }
  rewrite length_app in Hlen. cbn in Hlen. destruct IH as (settled & retained & Hp & Hl & Hw); [lia|].
  unfold run, surviving in *. rewrite !foldl_app, length_app. cbn [foldl length].
  assert (Hprefix : within_window key (os ++ [o]) → within_window key os).
  { intros Hwin os' Hpre. apply Hwin. by apply prefix_app_r. }
  destruct (decide (state_key (d_event o) = key)) as [Hev|Hev].
  - destruct (ingest_projected key o (foldl deliver empty_dashboard os) settled retained)
      as (settled' & retained' & Hp' & Hl' & Hw'); [done|done|lia|done|].
    exists settled', retained'. split_and!; [done|lia|]. intros Hwin.
    destruct (Hw (Hprefix Hwin)) as [-> Hperm]. specialize (Hwin _ (reflexivity _)).
    unfold surviving in Hwin. rewrite foldl_app in Hwin. cbn in Hwin.
    pose proof (survive_perm key _ _ o Hperm) as Hs.
    destruct Hw' as [-> Hw']; [done|by rewrite Hs|]. by rewrite Hw'.
  - exists settled, retained. split_and!; [|lia|].
    + eapply projected_at; [by apply ingest_other|done].
    + intros Hwin. unfold survive. rewrite bool_decide_eq_false_2 by done. by apply Hw, Hprefix.
Qed.

(** Few deliveries never leave the window. *)
Lemma few_within_window key os : (length os ≤ retained_history_events_per_key)%nat → within_window key os.
Proof.
  intros Hlen os' Hpre%prefix_length.
  assert (Hs : (length (surviving key os') ≤ length os')%nat); [|lia]. clear Hpre Hlen.
  unfold surviving. induction os' as [|o os' IH] using rev_ind; [done|].
  rewrite foldl_app, length_app. cbn. pose proof (survive_length key (foldl (survive key) [] os') o). lia.
Qed.

(** ** The dashboard and the chain *)


(** A question flagged in block 10 and resolved in block 11, or in block 11 of
    another branch that is dropped again. *)
Definition example_delivery (kind : PolymarketEventKind) (name block hash price : string) (removed : bool) (at_ms : Z) :
    delivery :=
  let log := MkLog "0xa" [] "0x" hash block "0x7" "0x0" "0x2" removed in
  let e := empty_event kind name log in
  MkDelivery (MkEvent kind name log "0x5" "" "" "" "" "" "" "" price "" "" "" "" "" [] []) true at_ms.

Definition example_flagged := example_delivery QuestionFlagged "QuestionFlagged" "0xa" "0xb1" "" false 1.
Definition example_resolved := example_delivery QuestionResolved "QuestionResolved" "0xb" "0xb2" "1" false 2.
Definition example_dropped := example_delivery QuestionResolved "QuestionResolved" "0xb" "0xb3" "0" false 3.
Definition example_removal := example_delivery QuestionResolved "QuestionResolved" "0xb" "0xb3" "0" true 4.

Definition example_run : list delivery := [example_flagged; example_resolved].
Definition example_shuffled : list delivery :=
  [example_dropped; example_resolved; example_removal; example_flagged; example_resolved].

