(* ===== verification/BookEvents.v ===== *)
(** * Market data events and the book they maintain
    (src/websocket_market_data.cpp)

    Snapshots and price changes of the market stream, their validation, and
    their effect on a cached order book.  The JSON text is decoded by a library:
    an item of a message is given here by the fields the code reads from it,
    with numbers already converted to [double].

    A side of a book refines a finite map from price to size, keyed by the
    position of the price on the number line. *)
From Stdlib Require Import Floats.SpecFloat.
From stdpp Require Import sorting.
From S2P Require Import Prelude Float64 Orderbook.

#[local] Open Scope Z_scope.

(** ** Data *)

Record MarketPriceChange := MkMarketPriceChange { bid : bool; level : PriceLevel }.

Record MarketBookEvent := MkMarketBookEvent {
  event_asset_id : string;
  snapshot : bool;
  event_bids : list PriceLevel;
  event_asks : list PriceLevel;
  changes : list MarketPriceChange }.

Record MarketTickSizeChange := MkMarketTickSizeChange {
  tick_asset_id : string;
  new_tick_size : string }.

(** The fields the code reads of a [book] item, of one entry of a
    [price_change] item ([None] for an absent field), and of other items. *)
Record PriceChangeFields := MkPriceChangeFields {
  change_asset_id : option string;
  change_side : option string;
  change_level : PriceLevel }.

Inductive MarketItem :=
  | book_item (asset_id : option string) (bids asks : option (list PriceLevel))
  | price_change_item (price_changes : list PriceChangeFields)
  | other_item.

(** ** Validation *)

(** The test at the end of [json_number]. *)
Definition json_number (number : double) : res double :=
  if negb (is_finite number)
  then Throw (invalid_argument "orderbook number must be finite")
  else Ok number.

(** [level.price <= 0.0 || level.price >= 1.0 || level.size < 0.0] *)
Definition outside_market_range (l : PriceLevel) : bool :=
  fle (price l) fzero || fle fone (price l) || flt (size l) fzero.

Definition parse_level (fields : PriceLevel) : res PriceLevel :=
  p ← json_number (price fields);
  s ← json_number (size fields);
  let parsed := MkPriceLevel p s in
  if outside_market_range parsed
  then Throw (invalid_argument "orderbook level is outside the market range")
  else Ok parsed.

Definition validate_level (l : PriceLevel) : res unit :=
  if negb (is_finite (price l)) || negb (is_finite (size l)) || outside_market_range l
  then Throw (invalid_argument "orderbook level is invalid")
  else Ok tt.

(** ** Snapshots *)

(** Book order of a side: bids descend, asks ascend. *)
Definition ordered (bids : bool) (left right : PriceLevel) : bool :=
  if bids then flt (price right) (price left) else flt (price left) (price right).

(** [std::adjacent_find] of equal prices found something. *)
Fixpoint adjacent_equal (l : list PriceLevel) : bool :=
  match l with
  | x :: ((y :: _) as l') => feq (price x) (price y) || adjacent_equal l'
  | _ => false
  end.

Fixpoint parse_levels (fields : list PriceLevel) : res (list PriceLevel) :=
  match fields with
  | [] => Ok []
  | f :: fields' =>
      l ← parse_level f;
      ls ← parse_levels fields';
      Ok (l :: ls)
  end.

Section Events.
Context `{StdSort}.

(** [if (!std::is_sorted(..., order)) std::sort(..., order);] *)
Definition sort_side (bids : bool) (l : list PriceLevel) : list PriceLevel :=
  if is_sorted (ordered bids) l then l else std_sort (ordered bids) l.

Definition parse_side (fields : list PriceLevel) (bids : bool) : res (list PriceLevel) :=
  output ← parse_levels fields;
  let output := sort_side bids output in
  if adjacent_equal output
  then Throw (invalid_argument "book snapshot contains a duplicate price")
  else Ok output.

Definition parse_snapshot (bids asks : option (list PriceLevel)) (event : MarketBookEvent) :
    res MarketBookEvent :=
  match bids, asks with
  | Some bids, Some asks =>
      b ← parse_side bids true;
      a ← parse_side asks false;
      Ok (MkMarketBookEvent (event_asset_id event) (snapshot event) b a (changes event))
  | _, _ => Throw (invalid_argument "book snapshot requires bids and asks arrays")
  end.

(** ** Messages *)

Definition push_change (c : MarketPriceChange) (e : MarketBookEvent) : MarketBookEvent :=
  MkMarketBookEvent (event_asset_id e) (snapshot e) (event_bids e) (event_asks e)
    (changes e ++ [c]).

(** [std::find_if] by asset, a new event at the end when there is none, and
    [push_back] of the change on the event found. *)
Fixpoint add_change (asset_id : string) (c : MarketPriceChange) (events : list MarketBookEvent) :
    list MarketBookEvent :=
  match events with
  | [] => [MkMarketBookEvent asset_id false [] [] [c]]
  | e :: events' =>
      if bool_decide (event_asset_id e = asset_id) then push_change c e :: events'
      else e :: add_change asset_id c events'
  end.

Definition handle_change (events : list MarketBookEvent) (change : PriceChangeFields) :
    res (list MarketBookEvent) :=
  match change_asset_id change with
  | None | Some "" => Ok events
  | Some asset_id =>
      let buy := bool_decide (change_side change = Some "BUY") in
      if negb buy && negb (bool_decide (change_side change = Some "SELL"))
      then Throw (invalid_argument "price change side must be BUY or SELL")
      else
        l ← parse_level (change_level change);
        Ok (add_change asset_id (MkMarketPriceChange buy l) events)
  end.

Fixpoint handle_changes (events : list MarketBookEvent) (price_changes : list PriceChangeFields) :
    res (list MarketBookEvent) :=
  match price_changes with
  | [] => Ok events
  | c :: price_changes' =>
      events' ← handle_change events c;
      handle_changes events' price_changes'
  end.

Definition handle_item (events : list MarketBookEvent) (item : MarketItem) :
    res (list MarketBookEvent) :=
  match item with
  | book_item None _ _ => Throw (invalid_argument "book snapshot requires a string asset_id")
  | book_item (Some "") _ _ =>
      Throw (invalid_argument "book snapshot asset_id must not be empty")
  | book_item (Some asset_id) bids asks =>
      event ← parse_snapshot bids asks (MkMarketBookEvent asset_id true [] [] []);
      Ok (events ++ [event])
  | price_change_item price_changes => handle_changes events price_changes
  | other_item => Ok events
  end.

Fixpoint handle_items (events : list MarketBookEvent) (items : list MarketItem) :
    res (list MarketBookEvent) :=
  match items with
  | [] => Ok events
  | item :: items' =>
      events' ← handle_item events item;
      handle_items events' items'
  end.

(** A message is one item or an array of them. *)
Definition parse_market_book_events (items : list MarketItem) : res (list MarketBookEvent) :=
  handle_items [] items.

Definition supported_tick_size (tick_size : string) : bool :=
  bool_decide (tick_size ∈ ["0.1"; "0.01"; "0.005"; "0.0025"; "0.001"; "0.0001"]).

(** The string fields of a [tick_size_change] object. *)
Definition parse_market_tick_size_change (asset_id new_tick : option string) :
    option MarketTickSizeChange :=
  match asset_id, new_tick with
  | Some asset_id, Some new_tick =>
      if bool_decide (asset_id = "") || negb (supported_tick_size new_tick) then None
      else Some (MkMarketTickSizeChange asset_id new_tick)
  | _, _ => None
  end.

(** ** Applying an event *)

(** [std::lower_bound] on a partitioned range: the first element that is not
    [before]. *)
Fixpoint lower_bound {A} (before : A → bool) (l : list A) : nat :=
  match l with
  | x :: l' => if before x then S (lower_bound before l') else 0%nat
  | [] => 0%nat
  end.

Definition before (bids : bool) (p : double) (l : PriceLevel) : bool :=
  if bids then flt p (price l) else flt (price l) p.

(** [1e-12] *)
Definition price_tolerance : double := of_ratio binary64 1 1000000000000.

(** [std::abs(existing->price - change.price) < 1e-12] *)
Definition close (p q : double) : bool :=
  flt (fabs (fsub binary64 p q)) price_tolerance.

Definition apply_change (levels : list PriceLevel) (change : PriceLevel) (bids : bool) :
    list PriceLevel :=
  let existing := lower_bound (before bids (price change)) levels in
  let same_price :=
    match levels !! existing with
    | Some e => close (price e) (price change)
    | None => false
    end in
  if fle (size change) fzero then
    if same_price then delete existing levels else levels
  else if same_price then <[existing := change]> levels
  else take existing levels ++ change :: drop existing levels.

Definition set_asset (a : string) (b : Orderbook) : Orderbook :=
  MkOrderbook a (bids b) (asks b) (timestamp_ns b).
Definition set_sides (bs as_ : list PriceLevel) (b : Orderbook) : Orderbook :=
  MkOrderbook (asset_id b) bs as_ (timestamp_ns b).
Definition set_timestamp (t : Z) (b : Orderbook) : Orderbook :=
  MkOrderbook (asset_id b) (bids b) (asks b) t.

Fixpoint validate_levels (ls : list PriceLevel) : res unit :=
  match ls with
  | [] => Ok tt
  | l :: ls' => _ ← validate_level l; validate_levels ls'
  end.

Definition apply_side_change (book : Orderbook) (c : MarketPriceChange) : Orderbook :=
  if bid c
  then set_sides (apply_change (bids book) (level c) true) (asks book) book
  else set_sides (bids book) (apply_change (asks book) (level c) false) book.

(** The book is changed in place: a level that does not validate leaves the
    changes before it applied. *)
Fixpoint apply_changes (book : Orderbook) (cs : list MarketPriceChange) : Orderbook * res unit :=
  match cs with
  | [] => (book, Ok tt)
  | c :: cs' =>
      match validate_level (level c) with
      | Throw e => (book, Throw e)
      | Ok _ => apply_changes (apply_side_change book c) cs'
      end
  end.

Definition apply_market_book_event (book : Orderbook) (event : MarketBookEvent)
    (received_ns : Z) : Orderbook * res unit :=
  let book := set_asset (event_asset_id event) book in
  let '(book, result) :=
    if snapshot event then
      match (_ ← validate_levels (event_bids event); validate_levels (event_asks event)) with
      | Throw e => (book, Throw e)
      | Ok _ =>
          (set_sides (sort_side true (event_bids event)) (sort_side false (event_asks event)) book,
           Ok tt)
      end
    else apply_changes book (changes event) in
  match result with
  | Throw e => (book, Throw e)
  | Ok _ => (set_timestamp received_ns book, Ok tt)
  end.
End Events.

(** ** Sound levels and sides *)

Definition good_level (l : PriceLevel) : bool :=
  is_finite (price l) && is_finite (size l) && negb (outside_market_range l).

Definition strict_side (bids : bool) : list PriceLevel → Prop :=
  StronglySorted (λ x y, ordered bids x y = true).

Definition side_ok (bids : bool) (l : list PriceLevel) : Prop :=
  Forall (λ x, good_level x = true) l ∧ strict_side bids l.

Definition book_ok (b : Orderbook) : Prop := side_ok true (bids b) ∧ side_ok false (asks b).

Definition event_ok (e : MarketBookEvent) : Prop :=
  side_ok true (event_bids e) ∧ side_ok false (event_asks e) ∧
  Forall (λ c, good_level (level c) = true) (changes e).

Lemma good_level_finite l : good_level l = true → is_finite (price l) = true.
Proof. unfold good_level. intros. bools. done. Qed.

Lemma validate_level_good l : validate_level l = Ok tt ↔ good_level l = true.
Proof.
  unfold validate_level, good_level.
  by destruct (is_finite (price l)), (is_finite (size l)), (outside_market_range l).
Qed.

Lemma parse_level_Ok f l : parse_level f = Ok l → l = f ∧ good_level l = true.
Proof.
  unfold parse_level, json_number, good_level. destruct f as [p s]; cbn [price size].
  destruct (is_finite p) eqn:Ep, (is_finite s) eqn:Es; cbn; try done.
  destruct (outside_market_range _) eqn:Eo; [done|]. intros <-%Ok_inj. cbn [price size].
  by rewrite Ep, Es, Eo.
Qed.

Lemma parse_levels_Ok fs ls :
  parse_levels fs = Ok ls → ls = fs ∧ Forall (λ x, good_level x = true) ls.
Proof.
  revert ls. induction fs as [|f fs IH]; intros ls Hp; cbn in Hp; res_inv; [done|].
  apply parse_level_Ok in H as [-> Hg]. apply IH in H1 as [-> ?]. by split; [|constructor].
Qed.

Lemma validate_levels_good ls :
  Forall (λ x, good_level x = true) ls → validate_levels ls = Ok tt.
Proof.
  induction 1 as [|l ls Hl _ IH]; [done|]. cbn.
  by rewrite (proj2 (validate_level_good l) Hl).
Qed.

Section SideOrder.
Context (s : bool) (x y z : PriceLevel).
Context (Hx : is_finite (price x) = true) (Hy : is_finite (price y) = true)
  (Hz : is_finite (price z) = true).

Lemma ordered_asym : ordered s x y = true → ordered s y x = false.
Proof using Hx Hy. unfold ordered. destruct s; apply flt_asym; done. Qed.

Lemma ordered_trans : ordered s x y = true → ordered s y z = true → ordered s x z = true.
Proof using Hx Hy Hz.
  unfold ordered. destruct s; [intros H1 H2; apply (flt_trans _ (price y)); done|].
  intros H1 H2; apply (flt_trans _ (price y)); done.
Qed.

Lemma not_ordered_trans : ordered s x y = false → ordered s y z = false → ordered s x z = false.
Proof using Hx Hy Hz.
  unfold ordered. destruct s; [intros H1 H2; apply (nlt_trans _ (price y)); done|].
  intros H1 H2; apply (nlt_trans _ (price y)); done.
Qed.

Lemma not_ordered_key :
  ordered s y x = false → float_key (price x) ≠ float_key (price y) → ordered s x y = true.
Proof using Hx Hy.
  intros H Hne. apply not_false_iff_true. intros Ho. apply Hne, feq_key; [done| done|].
  unfold ordered in *. destruct s; apply flt_total; done.
Qed.

Lemma ordered_key : ordered s x y = true → float_key (price x) ≠ float_key (price y).
Proof using Hx Hy.
  unfold ordered. intros H Hk.
  destruct s; rewrite flt_key, Hk in H by done; unfold key_lt in H; lia.
Qed.
End SideOrder.

(** A sorted side without adjacent equal prices is strictly sorted. *)
Lemma strict_of_sorted s l :
  Forall (λ x, good_level x = true) l → is_sorted (ordered s) l = true →
  adjacent_equal l = false → strict_side s l.
Proof.
  induction l as [|x l IH]; intros Hg Hs Ha; [constructor|].
  inversion_clear Hg as [|?? Hx Hl]. apply good_level_finite in Hx.
  destruct l as [|y l]; [repeat constructor|]. cbn in Hs, Ha. bools.
  assert (Hyl : strict_side s (y :: l)) by (by apply IH).
  assert (Hf : ∀ z, z ∈ y :: l → is_finite (price z) = true).
  { intros z Hz. rewrite Forall_forall in Hl. by apply good_level_finite, Hl. }
  assert (ordered s x y = true) as Hxy.
  { apply not_ordered_key; [done|apply Hf; set_solver|done|].
    intros Hk%feq_key; [congruence|done|apply Hf; set_solver]. }
  constructor; [done|]. constructor; [done|].
  inversion_clear Hyl as [|?? _ Hys]. rewrite Forall_forall in Hys |- *. intros z Hz.
  apply (ordered_trans s x y z); [done|apply Hf; set_solver..|done|by apply Hys].
Qed.

Lemma strict_is_sorted s l :
  Forall (λ x, good_level x = true) l → strict_side s l → is_sorted (ordered s) l = true.
Proof.
  induction l as [|x [|y l] IH]; intros Hg Hs; [done..|].
  inversion_clear Hs as [|?? Hl Hx]. inversion_clear Hx as [|?? Hxy _].
  inversion_clear Hg as [|?? Hgx Hgl]. inversion_clear Hgl as [|?? Hgy Hgl'].
  change (negb (ordered s y x) && is_sorted (ordered s) (y :: l) = true).
  rewrite IH by (done || by constructor).
  by rewrite (ordered_asym s x y) by (done || by apply good_level_finite).
Qed.

Section Parsing.
Context `{StdSort}.

Lemma sort_side_perm s l : sort_side s l ≡ₚ l.
Proof. unfold sort_side. case_if; [done|apply std_sort_perm]. Qed.

Lemma sort_side_sorted s l :
  Forall (λ x, good_level x = true) l → is_sorted (ordered s) (sort_side s l) = true.
Proof.
  intros Hg. rewrite Forall_forall in Hg.
  assert (Hf : ∀ x, x ∈ l → is_finite (price x) = true)
    by (intros; by apply good_level_finite, Hg).
  unfold sort_side. case_if; [done|]. apply std_sort_sorted.
  - intros. apply (not_ordered_trans s x y z); auto.
  - intros. apply ordered_asym; auto.
Qed.

Lemma sort_side_id s l : side_ok s l → sort_side s l = l.
Proof. intros [Hg Hs]. unfold sort_side. by rewrite strict_is_sorted. Qed.

Lemma parse_side_Ok fs s l : parse_side fs s = Ok l → side_ok s l ∧ l ≡ₚ fs.
Proof.
  unfold parse_side. intros. res_inv. apply parse_levels_Ok in H1 as [-> Hg].
  case_if; res_inv. split; [|apply sort_side_perm].
  assert (Hg' : Forall (λ x, good_level x = true) (sort_side s fs)) by (by rewrite sort_side_perm).
  split; [done|]. apply strict_of_sorted; [done|by apply sort_side_sorted|done].
Qed.

Lemma add_change_ok a c es :
  good_level (level c) = true → Forall event_ok es → Forall event_ok (add_change a c es).
Proof.
  intros Hc. induction 1 as [|e es (Hb & Ha & Hg) Hes IH]; cbn.
  - repeat constructor. done.
  - case_if; constructor; try done. split_and!; try done. cbn. apply Forall_app. auto.
Qed.

Lemma handle_changes_ok cs es es' :
  Forall event_ok es → handle_changes es cs = Ok es' → Forall event_ok es'.
Proof.
  revert es. induction cs as [|c cs IH]; intros es Hes Hh; cbn in Hh; res_inv; [done|].
  eapply IH; [|done]. clear IH. unfold handle_change in *.
  destruct (change_asset_id c) as [[|ch str]|]; res_inv; [done| |done].
  case_if; res_inv. apply add_change_ok; [|done].
  by match goal with Hp : parse_level _ = Ok _ |- _ => apply parse_level_Ok in Hp as [-> ?] end.
Qed.

Lemma parsed_events_ok items es :
  parse_market_book_events items = Ok es → Forall event_ok es.
Proof.
  unfold parse_market_book_events. assert (Forall event_ok []) as Hes by done. revert Hes.
  generalize (@nil MarketBookEvent) as es0.
  induction items as [|i items IH]; intros es0 Hes Hh; cbn in Hh; res_inv; [done|].
  eapply IH; [|done]. destruct i as [[[|ch str]|] bs as_|cs|]; cbn in H0; res_inv; try done.
  - apply Forall_app. split; [done|]. apply Forall_singleton.
    destruct bs, as_; cbn in H2; res_inv.
    repeat match goal with Hp : parse_side _ _ = Ok _ |- _ => apply parse_side_Ok in Hp as [? _] end.
    by split_and!.
  - by eapply handle_changes_ok.
Qed.
End Parsing.

(** ** One change of a side *)

(** What is left of the change after the levels before it. *)
Definition change_tail (c : PriceLevel) (post : list PriceLevel) : list PriceLevel :=
  let rest :=
    match post with
    | e :: post' => if close (price e) (price c) then post' else post
    | [] => []
    end in
  if fle (size c) fzero then rest else c :: rest.

Definition not_before_head (s : bool) (c : PriceLevel) (post : list PriceLevel) : Prop :=
  match post with e :: _ => ordered s e c = false | [] => True end.

Lemma lower_bound_split {A} (b : A → bool) l :
  ∃ pre post, l = pre ++ post ∧ lower_bound b l = length pre ∧
    Forall (λ x, b x = true) pre ∧ (match post with x :: _ => b x = false | [] => True end).
Proof.
  induction l as [|x l (pre & post & -> & Hlb & Hpre & Hpost)]; [by exists [], []|]. cbn.
  destruct (b x) eqn:E; [|by exists [], (x :: pre ++ post)].
  exists (x :: pre), post. cbn. rewrite Hlb. split_and!; try done. by constructor.
Qed.

Lemma apply_change_split l c s :
  ∃ pre post, l = pre ++ post ∧ Forall (λ x, ordered s x c = true) pre ∧
    not_before_head s c post ∧ apply_change l c s = pre ++ change_tail c post.
Proof.
  destruct (lower_bound_split (before s (price c)) l) as (pre & post & -> & Hlb & Hpre & Hpost).
  exists pre, post. split_and!; [done|by destruct s|by destruct post, s|].
  unfold apply_change, change_tail. rewrite Hlb. destruct post as [|e post].
  - rewrite lookup_ge_None_2 by (rewrite length_app; cbn; lia).
    rewrite !take_app_length, !drop_app_length. case_if; by rewrite ?app_nil_r.
  - rewrite list_lookup_middle by done. destruct (close _ _), (fle _ _).
    + by rewrite delete_middle.
    + rewrite insert_app_r_alt, Nat.sub_diag by lia. done.
    + done.
    + by rewrite take_app_length, drop_app_length.
Qed.

(** Equal prices are close. *)
Lemma close_refl p q :
  is_finite p = true → is_finite q = true → float_key p = float_key q → close p q = true.
Proof.
  destruct p as [|?| |[] mp ep], q as [|?| |[] mq eq]; intros Hp Hq Hk; try discriminate; cbn in Hk.
  { by destruct s, s0. }
  all: injection Hk as He Hm; assert (eq = ep) as -> by lia; assert (mq = mp) as -> by lia; unfold close, fsub, SFsub;
    rewrite Z.min_id; unfold shl_align; rewrite Z.sub_diag; cbn [fst]; rewrite ?Z.sub_diag, ?Z.add_opp_diag_l; done.
Qed.

Lemma ordered_weak_trans s x y z :
  is_finite (price x) = true → is_finite (price y) = true → is_finite (price z) = true →
  ordered s y x = false → ordered s y z = true → ordered s x z = true.
Proof.
  intros Hx Hy Hz. unfold ordered.
  destruct s; rewrite <- !not_true_iff_false, !flt_key by done; unfold key_lt; lia.
Qed.

Section OneChange.
Context (s : bool) (c : PriceLevel) (Hc : good_level c = true).

#[local] Abbreviation behind l := (Forall (λ y, ordered s c y = true) l).

(** The levels that stay behind the change, once an equal price is replaced. *)
Lemma rest_after post :
  side_ok s post → not_before_head s c post →
  behind (match post with
         | e :: post' => if close (price e) (price c) then post' else post
         | [] => [] end).
Proof using Hc.
  intros [Hg Hs] Hh. destruct post as [|e post]; [constructor|].
  inversion_clear Hg as [|?? He Hg']. inversion_clear Hs as [|?? Hs' Hes]. cbn in Hh.
  apply good_level_finite in He as Hfe, Hc as Hfc.
  assert (Hrest : behind post).
  { rewrite Forall_forall in Hes, Hg' |- *. intros y Hy.
    apply (ordered_weak_trans s c e y); auto using good_level_finite. }
  destruct (close (price e) (price c)) eqn:Ecl; [done|]. constructor; [|done].
  apply not_ordered_key; [done..|]. intros Hk. apply diff_false_true.
  by rewrite <- Ecl, close_refl.
Qed.

Lemma change_tail_ok post :
  side_ok s post → not_before_head s c post →
  side_ok s (change_tail c post) ∧ (∀ y, y ∈ change_tail c post → y = c ∨ y ∈ post).
Proof using Hc.
  intros Hp Hh. pose proof (rest_after post Hp Hh) as Haf. unfold change_tail.
  set (rest := match post with [] => _ | _ => _ end) in *.
  assert (side_ok s rest ∧ (∀ y, y ∈ rest → y ∈ post)) as [[Hg Hs] Hin].
  { subst rest. destruct post as [|e post]; [done|]. destruct Hp as [Hg Hs].
    inversion_clear Hg as [|?? He Hg']. inversion_clear Hs as [|?? Hs' Hes].
    case_if; (split; [split|set_solver]); try done; by constructor. }
  case_if; [split; [by split|auto]|]. split; [|set_solver].
  split; [by constructor|by constructor].
Qed.

Lemma apply_change_side_ok l : side_ok s l → side_ok s (apply_change l c s).
Proof using Hc.
  intros [Hg Hs].
  destruct (apply_change_split l c s) as (pre & post & -> & Hpre & Hh & ->).
  apply Forall_app in Hg as [Hgpre Hgpost]. apply StronglySorted_app in Hs as (Hcross & Hspre & Hspost).
  destruct (change_tail_ok post) as [[Hgt Hst] Hin]; [done..|].
  split; [by apply Forall_app|]. apply StronglySorted_app. split_and!; [|done..].
  intros x y Hx [->|Hy]%Hin; [|by apply Hcross]. rewrite Forall_forall in Hpre. by apply Hpre.
Qed.
End OneChange.

(** ** A side as a map from price to size *)

Definition price_key (l : PriceLevel) : Z * (Z * Z) := float_key (price l).

Definition side_map (l : list PriceLevel) : gmap (Z * (Z * Z)) double :=
  list_to_map ((λ x, (price_key x, size x)) <$> l).

(** What a change means: no size removes the price, a size replaces it. *)
Definition map_change (c : PriceLevel) (m : gmap (Z * (Z * Z)) double) :
    gmap (Z * (Z * Z)) double :=
  if fle (size c) fzero then delete (price_key c) m else <[price_key c := size c]> m.

(** Prices that are not equal are further apart than the tolerance of the
    code; on a tick grid they are. *)
Definition separated (ps : list double) : Prop :=
  ∀ p q, p ∈ ps → q ∈ ps → close p q = true → float_key p = float_key q.

Lemma side_ok_keys s l : side_ok s l → NoDup (price_key <$> l).
Proof.
  intros [Hg Hs]. induction Hs as [|x l Hl IH Hx]; cbn; [constructor|].
  inversion_clear Hg as [|?? Hgx Hgl]. constructor; [|auto].
  intros (y & Hk & Hy)%list_elem_of_fmap. rewrite Forall_forall in Hx, Hgl.
  apply (ordered_key s x y); auto using good_level_finite.
Qed.

Lemma side_map_keys (l : list PriceLevel) :
  ((λ x, (price_key x, size x)) <$> l).*1 = price_key <$> l.
Proof. by rewrite <- list_fmap_compose. Qed.

Lemma side_map_absent l k : k ∉ price_key <$> l → side_map l !! k = None.
Proof. intros. apply not_elem_of_list_to_map_1. by rewrite side_map_keys. Qed.

Lemma side_map_middle pre x post :
  NoDup (price_key <$> pre ++ x :: post) →
  side_map (pre ++ x :: post) = <[price_key x := size x]> (side_map (pre ++ post)) ∧
  price_key x ∉ price_key <$> (pre ++ post).
Proof.
  intros Hnd. split.
  - unfold side_map. rewrite (list_to_map_proper _ ((λ x, (price_key x, size x)) <$> x :: pre ++ post));
      [done|by rewrite side_map_keys|]. by rewrite Permutation_middle.
  - rewrite <- Permutation_middle in Hnd. cbn in Hnd. by apply NoDup_cons in Hnd as [? _].
Qed.

(** A price between two parts of a side is none of theirs. *)
Lemma between_absent s c pre post :
  good_level c = true → Forall (λ x, good_level x = true) (pre ++ post) →
  Forall (λ x, ordered s x c = true) pre → Forall (λ y, ordered s c y = true) post →
  side_map (pre ++ post) !! price_key c = None.
Proof.
  intros Hc Hg Hpre Hpost. apply side_map_absent. rewrite Forall_forall in *.
  intros (y & Hk & Hy)%list_elem_of_fmap.
  assert (is_finite (price y) = true) by (by apply good_level_finite, Hg).
  apply good_level_finite in Hc. apply elem_of_app in Hy as [Hy|Hy].
  - by apply (ordered_key s y c); [..|apply Hpre|].
  - by apply (ordered_key s c y); [..|apply Hpost|].
Qed.

(** A change of a side is the change of the map. *)
Lemma apply_change_map s l c :
  good_level c = true → side_ok s l → separated (price c :: (price <$> l)) →
  side_map (apply_change l c s) = map_change c (side_map l).
Proof.
  intros Hc Hl Hsep. pose proof (side_ok_keys _ _ (apply_change_side_ok s c Hc l Hl)) as Hnd'.
  pose proof (side_ok_keys _ _ Hl) as Hnd. destruct Hl as [Hg Hs].
  destruct (apply_change_split l c s) as (pre & post & -> & Hpre & Hh & E). rewrite E in *.
  assert (Hpost : side_ok s post).
  { apply Forall_app in Hg as [_ Hg]. apply StronglySorted_app in Hs as (_ & _ & Hs). by split. }
  pose proof (rest_after s c Hc post Hpost Hh) as Hrest.
  unfold change_tail, map_change in *.
  destruct post as [|e post']; [|destruct (close (price e) (price c)) eqn:Ecl].
  - case_if; [|by apply side_map_middle]. by rewrite delete_id by (by apply (between_absent s)).
  - assert (price_key e = price_key c) as Hk.
    { apply Hsep; [|left|done]. right. rewrite fmap_app. apply elem_of_app. right. left. }
    destruct (side_map_middle _ _ _ Hnd) as [-> Hne]. rewrite <- Hk. case_if.
    + by rewrite delete_insert_id by (by apply side_map_absent).
    + destruct (side_map_middle _ _ _ Hnd') as [-> _]. by rewrite Hk, insert_insert_eq.
  - case_if; [|by apply side_map_middle]. by rewrite delete_id by (by apply (between_absent s)).
Qed.

(** ** Whole events *)

Lemma apply_change_elem l c s y : y ∈ apply_change l c s → y = c ∨ y ∈ l.
Proof.
  destruct (apply_change_split l c s) as (pre & post & -> & _ & _ & ->).
  unfold change_tail. rewrite !elem_of_app. intros [?|Hy]; [tauto|].
  destruct post as [|e post]; repeat case_if; set_solver.
Qed.

Lemma apply_side_change_ok b c :
  good_level (level c) = true → book_ok b → book_ok (apply_side_change b c).
Proof.
  intros Hc [Hb Ha]. unfold apply_side_change. case_if; split; cbn; try done;
    by apply apply_change_side_ok.
Qed.

Lemma apply_side_change_meta b c :
  asset_id (apply_side_change b c) = asset_id b ∧
  timestamp_ns (apply_side_change b c) = timestamp_ns b.
Proof. unfold apply_side_change. by case_if. Qed.

Lemma apply_changes_good b cs :
  Forall (λ c, good_level (level c) = true) cs →
  apply_changes b cs = (foldl apply_side_change b cs, Ok tt).
Proof.
  intros Hcs. revert b. induction Hcs as [|c cs Hc _ IH]; intros b; [done|]. cbn.
  by rewrite (proj2 (validate_level_good _) Hc), IH.
Qed.

Lemma foldl_side_change_ok cs b :
  Forall (λ c, good_level (level c) = true) cs → book_ok b →
  book_ok (foldl apply_side_change b cs) ∧
  asset_id (foldl apply_side_change b cs) = asset_id b.
Proof.
  intros Hcs. revert b. induction Hcs as [|c cs Hc _ IH]; intros b Hb; [done|]. cbn.
  destruct (IH (apply_side_change b c)) as [? ->]; [by apply apply_side_change_ok|].
  split; [done|apply apply_side_change_meta].
Qed.

(** The front of a strictly sorted side is its best level. *)
Lemma best_of_front b :
  book_ok b →
  match asks b with
  | [] => True
  | a :: _ => best_ask b = price a ∧ best_ask_size b = size a
  end ∧
  match bids b with
  | [] => True
  | a :: _ => best_bid b = price a ∧ best_bid_size b = size a
  end.
Proof.
  assert (Hid : ∀ {A B} (f : A → B → A) (a : A) l, (∀ x, x ∈ l → f a x = a) → foldl f a l = a).
  { intros A B f a l. induction l as [|x l IH]; intros Hf; [done|]. cbn.
    rewrite Hf by left. apply IH. intros. apply Hf. by right. }
  assert (Hmin : ∀ s x l, side_ok s (x :: l) → ∀ y, y ∈ x :: l → ordered s y x = false).
  { intros s x l [Hg Hs] y Hy. rewrite Forall_forall in Hg.
    apply elem_of_cons in Hy as [->|Hy].
    - apply not_true_iff_false. intros Ho.
      by apply (ordered_key s x x) in Ho; [| |]; [|apply good_level_finite, Hg; left..].
    - apply StronglySorted_cons in Hs as [Hx _]. rewrite Forall_forall in Hx.
      apply ordered_asym; [apply good_level_finite, Hg; set_solver..|by apply Hx]. }
  intros [Hb Ha]. unfold best_ask, best_ask_size, best_bid, best_bid_size.
  destruct (asks b) as [|a as_], (bids b) as [|d ds]; (split; [try done|try done]).
  all: split; [rewrite Hid; [done|]|rewrite (Hid PriceLevel); [done|]]; intros y Hy.
  all: first [apply (Hmin _ _ _ Ha) in Hy|apply (Hmin _ _ _ Hb) in Hy]; cbn in Hy; by rewrite Hy.
Qed.

Section EventEffects.
Context `{StdSort}.

Lemma apply_event_ok b e t :
  event_ok e → book_ok b →
  ∃ b', apply_market_book_event b e t = (b', Ok tt) ∧ book_ok b' ∧
    asset_id b' = event_asset_id e ∧ timestamp_ns b' = t ∧
    (if snapshot e then bids b' = event_bids e ∧ asks b' = event_asks e
     else bids b' = bids (foldl apply_side_change (set_asset (event_asset_id e) b) (changes e)) ∧
          asks b' = asks (foldl apply_side_change (set_asset (event_asset_id e) b) (changes e))).
Proof.
  intros (Heb & Hea & Hc) Hb. unfold apply_market_book_event. destruct (snapshot e).
  - rewrite !validate_levels_good by (apply Heb || apply Hea). cbn.
    rewrite !sort_side_id by done. eexists. split; [done|]. by split_and!.
  - rewrite apply_changes_good by done. eexists. split; [done|].
    destruct (foldl_side_change_ok (changes e) (set_asset (event_asset_id e) b)) as [[? ?] ?];
      [done..|]. by split_and!.
Qed.
End EventEffects.

Section Properties.
Context `{StdSort}.

(** C31: an event the parser accepted always applies: on a book whose sides are
    strictly sorted and hold valid levels only it does not throw, the resulting
    book is again such a book, carries the event's asset and arrival time, and
    its front levels are its best prices, which is what the stream reports as
    the top of the book. *)
Theorem parsed_events_keep_books_sorted items es e b t :
  parse_market_book_events items = Ok es → e ∈ es → book_ok b →
  ∃ b', apply_market_book_event b e t = (b', Ok tt) ∧ book_ok b' ∧
    asset_id b' = event_asset_id e ∧ timestamp_ns b' = t ∧
    (∀ a as_, asks b' = a :: as_ → best_ask b' = price a ∧ best_ask_size b' = size a) ∧
    (∀ a as_, bids b' = a :: as_ → best_bid b' = price a ∧ best_bid_size b' = size a).
Proof.
  intros Hes He Hb. apply parsed_events_ok in Hes. rewrite Forall_forall in Hes.
  destruct (apply_event_ok b e t (Hes _ He) Hb) as (b' & -> & Hb' & ? & ? & _).
  exists b'. destruct (best_of_front b' Hb') as [Hask Hbid].
  split_and!; try done; intros a l E; rewrite E in Hask || rewrite E in Hbid; done.
Qed.

Lemma side_changes_map cs b ps :
  separated ps →
  (∀ c, c ∈ cs → price (level c) ∈ ps) →
  (∀ l, l ∈ bids b ++ asks b → price l ∈ ps) →
  Forall (λ c, good_level (level c) = true) cs → book_ok b →
  side_map (bids (foldl apply_side_change b cs)) =
    foldl (λ m c, if bid c then map_change (level c) m else m) (side_map (bids b)) cs ∧
  side_map (asks (foldl apply_side_change b cs)) =
    foldl (λ m c, if bid c then m else map_change (level c) m) (side_map (asks b)) cs.
Proof.
  intros Hsep Hcs. revert b. induction cs as [|c cs IH]; intros b Hps Hg Hb; [done|].
  inversion_clear Hg as [|?? Hc Hg']. cbn [foldl].
  edestruct (IH ltac:(set_solver) (apply_side_change b c)) as [-> ->]; [|done| |].
  - intros l Hl. apply elem_of_app in Hl. unfold apply_side_change in Hl.
    destruct (bid c); cbn in Hl; destruct Hl as [Hl|Hl].
    all: try (apply Hps, elem_of_app; tauto).
    all: apply apply_change_elem in Hl as [->|Hl]; [apply Hcs; left|apply Hps, elem_of_app; tauto].
  - by apply apply_side_change_ok.
  - destruct Hb as [Hbid Hask]. unfold apply_side_change. destruct (bid c); cbn [bids asks set_sides].
    all: rewrite apply_change_map; [done..|]; intros p q Hp Hq; apply Hsep.
    all: revert Hp Hq; rewrite !elem_of_cons, !list_elem_of_fmap.
    all: intros [->|(x & -> & Hx)] [->|(y & -> & Hy)].
    all: try (apply Hcs; left).
    all: apply Hps, elem_of_app; tauto.
Qed.

(** C6: on prices further apart than the tolerance of the code, a delta event
    refines the updates of two finite maps from price to size: each change
    overwrites its price, or removes it when the size is zero, and touches no
    other price and not the other side. *)
Theorem delta_refines_price_map b e t :
  book_ok b → event_ok e → snapshot e = false →
  separated ((price <$> bids b) ++ (price <$> asks b) ++ ((λ c, price (level c)) <$> changes e)) →
  ∃ b', apply_market_book_event b e t = (b', Ok tt) ∧
    side_map (bids b') =
      foldl (λ m c, if bid c then map_change (level c) m else m) (side_map (bids b)) (changes e) ∧
    side_map (asks b') =
      foldl (λ m c, if bid c then m else map_change (level c) m) (side_map (asks b)) (changes e).
Proof.
  intros Hb He Hsn Hsep. destruct (apply_event_ok b e t He Hb) as (b' & Hap & _ & _ & _ & Hs).
  rewrite Hsn in Hs. destruct Hs as [Hbids Hasks]. exists b'. split; [done|]. rewrite Hbids, Hasks.
  edestruct (side_changes_map (changes e) (set_asset (event_asset_id e) b)) as [-> ->];
    [done| | |apply He|done|done].
  - intros c Hc. rewrite !elem_of_app, !list_elem_of_fmap. eauto.
  - intros l Hl. cbn in Hl. rewrite !elem_of_app, !list_elem_of_fmap. apply elem_of_app in Hl.
    destruct Hl; eauto.
Qed.

Lemma handle_changes_merge a cs e es :
  a ≠ "" → event_asset_id e = a → Forall (λ c, change_asset_id c = Some a) cs →
  handle_changes [e] cs = Ok es →
  ∃ l, length l = length cs ∧
    es = [MkMarketBookEvent a (snapshot e) (event_bids e) (event_asks e) (changes e ++ l)].
Proof.
  intros Ha He Hcs. revert e He. induction Hcs as [|c cs Hc _ IH]; intros e He Hh; cbn in Hh.
  { injection Hh as <-. exists []. rewrite app_nil_r. destruct e. cbn in *. by subst. }
  res_inv. unfold handle_change in *. rewrite Hc in *. destruct a as [|ch str]; [done|].
  case_if; res_inv. cbn [add_change] in *. rewrite bool_decide_eq_true_2 in * by done.
  destruct (IH (push_change (MkMarketPriceChange _ _) e) He H1) as (l & Hl & ->).
  eexists (_ :: l). cbn. rewrite <- app_assoc, Hl. done.
Qed.

(** Price changes that follow a snapshot of the same asset inside one
    message are attached to the snapshot event and are never applied: the
    event has exactly the effect of the snapshot alone. *)
Lemma change_after_snapshot_lost a bs as_ cs es b t :
  a ≠ "" → Forall (λ c, change_asset_id c = Some a) cs →
  parse_market_book_events [book_item (Some a) bs as_; price_change_item cs] = Ok es →
  ∃ e snapshot_only, es = [e] ∧ length (changes e) = length cs ∧
    parse_market_book_events [book_item (Some a) bs as_] = Ok [snapshot_only] ∧
    apply_market_book_event b e t = apply_market_book_event b snapshot_only t.
Proof.
  intros Ha Hcs Hp. destruct a as [|ch str]; [done|]. unfold parse_market_book_events in *.
  cbn [handle_items handle_item] in *. res_inv. cbn [app] in *.
  assert (Ha1 : event_asset_id a1 = String ch str ∧ snapshot a1 = true ∧ changes a1 = []).
  { destruct bs, as_; cbn in *; res_inv; done. }
  destruct Ha1 as (Hid & Hsn & Hch).
  destruct (handle_changes_merge _ _ _ _ Ha Hid Hcs H2) as (l & Hl & ->). rewrite Hch in *.
  eexists _, a1. split_and!; [done|by cbn| |].
  - by rewrite H1.
  - unfold apply_market_book_event. cbn. by rewrite Hid, Hsn.
Qed.
End Properties.

(** ** Concrete events *)

Definition cents (n : positive) : double := of_ratio binary64 n 100.
Definition shares (n : Z) : double := of_Z binary64 n.

Definition sample_bids : list PriceLevel :=
  [MkPriceLevel (cents 47) (shares 10); MkPriceLevel (cents 48) (shares 5)].
Definition sample_asks : list PriceLevel :=
  [MkPriceLevel (cents 52) (shares 7); MkPriceLevel (cents 50) (shares 3)].
Definition sample_snapshot : MarketItem :=
  book_item (Some "token") (Some sample_bids) (Some sample_asks).

Definition sample_change : PriceChangeFields :=
  MkPriceChangeFields (Some "token") (Some "SELL") (MkPriceLevel (cents 50) (shares 0)).

Definition sample_event : MarketBookEvent :=
  MkMarketBookEvent "token" true
    [MkPriceLevel (cents 48) (shares 5); MkPriceLevel (cents 47) (shares 10)]
    [MkPriceLevel (cents 50) (shares 3); MkPriceLevel (cents 52) (shares 7)] [].

Definition sample_book : Orderbook :=
  MkOrderbook "token" (event_bids sample_event) (event_asks sample_event) 1.

Definition sample_delta : MarketBookEvent :=
  MkMarketBookEvent "token" false [] []
    [MkMarketPriceChange false (MkPriceLevel (cents 50) (shares 0));
     MkMarketPriceChange true (MkPriceLevel (cents 49) (shares 2))].

Lemma sample_parses :
  parse_market_book_events [sample_snapshot] = Ok [sample_event].
Proof. vm_compute. reflexivity. Qed.

Lemma sample_book_ok : book_ok sample_book.
Proof. split; (split; [repeat constructor|]); repeat constructor. Qed.

Lemma parsed_events_keep_books_sorted_witness :
  ∃ b', apply_market_book_event empty_orderbook sample_event 5 = (b', Ok tt) ∧ book_ok b'.
Proof.
  assert (Hb : book_ok empty_orderbook) by (repeat constructor).
  destruct (parsed_events_keep_books_sorted [sample_snapshot] [sample_event] sample_event
              empty_orderbook 5 sample_parses (list_elem_of_here _ _) Hb) as (b' & Hap & Hok & _).
  exists b'. split; [exact Hap|exact Hok].
Defined.

Definition close_only_if_equal (ps : list double) : bool :=
  forallb (λ p, forallb (λ q, negb (close p q) || bool_decide (float_key p = float_key q)) ps) ps.

Lemma separated_of_check ps : close_only_if_equal ps = true → separated ps.
Proof.
  unfold close_only_if_equal, separated. intros Hf p q Hp Hq Hc. rewrite forallb_forall in Hf.
  specialize (Hf p ltac:(by apply list_elem_of_In)). rewrite forallb_forall in Hf.
  specialize (Hf q ltac:(by apply list_elem_of_In)). rewrite Hc in Hf. cbn in Hf. by apply bool_decide_eq_true in Hf.
Qed.

Lemma delta_refines_price_map_witness :
  ∃ b', apply_market_book_event sample_book sample_delta 9 = (b', Ok tt) ∧
    side_map (asks b') = side_map [MkPriceLevel (cents 52) (shares 7)].
Proof.
  assert (He : event_ok sample_delta) by (repeat constructor).
  assert (Hs : close_only_if_equal ((price <$> bids sample_book) ++ (price <$> asks sample_book) ++
             ((λ c, price (level c)) <$> changes sample_delta)) = true) by (vm_compute; reflexivity).
  destruct (delta_refines_price_map sample_book sample_delta 9 sample_book_ok He eq_refl
              (separated_of_check _ Hs)) as (b' & Hap & _ & Hasks).
  exists b'. split; [exact Hap|]. rewrite Hasks. vm_compute. reflexivity.
Defined.

(** The change that empties the best ask is lost inside the snapshot message,
    and applied when it is a message of its own. *)
Lemma change_after_snapshot_lost_witness :
  (∃ e snapshot_only,
     parse_market_book_events [sample_snapshot; price_change_item [sample_change]] = Ok [e] ∧
     apply_market_book_event empty_orderbook e 5 =
       apply_market_book_event empty_orderbook snapshot_only 5) ∧
  (∃ e, parse_market_book_events [price_change_item [sample_change]] = Ok [e] ∧
     length (asks (apply_market_book_event sample_book e 5).1) = 1%nat) ∧
  length (asks sample_book) = 2%nat.
Proof.
  split; [|split; [|reflexivity]].
  2:{ exists (MkMarketBookEvent "token" false [] []
                [MkMarketPriceChange false (change_level sample_change)]).
      split; vm_compute; reflexivity. }
  assert (Hok : is_ok (parse_market_book_events
            [sample_snapshot; price_change_item [sample_change]]) = true) by (vm_compute; reflexivity).
  destruct (parse_market_book_events [sample_snapshot; price_change_item [sample_change]])
    as [es|ex] eqn:E; [|discriminate Hok].
  assert (Hne : "token"%string ≠ "") by discriminate.
  assert (Hcs : Forall (λ c, change_asset_id c = Some "token"%string) [sample_change])
    by (repeat constructor).
  destruct (change_after_snapshot_lost "token" (Some sample_bids) (Some sample_asks) [sample_change]
              es empty_orderbook 5 Hne Hcs E) as (e & s & Hes & _ & _ & Hap).
  exists e, s. split; [exact (f_equal Ok Hes)|exact Hap].
Defined.

(** The tolerance of [apply_change] looks one way only: a price just above a
    level of the asks is inserted next to it, one just below replaces it. *)
Example near_price_duplicated :
  let p := cents 50 in
  let l := [MkPriceLevel p (shares 3)] in
  close (next_up binary64 p) p = true ∧
  length (apply_change l (MkPriceLevel (next_up binary64 p) (shares 4)) false) = 2%nat ∧
  length (apply_change l (MkPriceLevel (next_down binary64 p) (shares 4)) false) = 1%nat.
Proof. vm_compute. auto. Qed.
