(* ===== verification/OrderbookStream.v ===== *)
(** * Live markets and stream books
    (include/polymarket/types.hpp, src/orderbook_stream.cpp, src/arb_sizing.cpp)

    The state kept per market, how a stream event reaches the cached books, and
    the freshness test of the arbitrage trigger. *)
From Stdlib Require Import Floats.SpecFloat.
From stdpp Require Import sorting.
From S2P Require Import Prelude Float64 Orderbook BookEvents.

#[local] Open Scope Z_scope.

(** ** Market state

    [MarketState] and [LiveMarketState] hold the same values, the latter in
    atomics. *)

Record MarketState := MkMarketState {
  slug : string;
  title : string;
  symbol : string;
  condition_id : string;
  token_yes : string;
  token_no : string;
  best_ask_yes : double;
  best_ask_no : double;
  best_ask_yes_size : double;
  best_ask_no_size : double;
  minimum_order_size : double;
  minimum_tick_size : string;
  end_time_ms : Z;
  neg_risk : bool;
  fees_enabled : bool;
  fee_rate : double;
  fee_exponent : Z;
  last_update_ns : Z;
  last_update_yes_ns : Z;
  last_update_no_ns : Z;
  update_count : Z }.

(** [MarketState{}] *)
Definition no_market : MarketState :=
  MkMarketState "" "" "" "" "" "" fzero fzero fzero fzero fzero "" 0 false false fzero 1 0 0 0 0.

Definition combined (m : MarketState) : double :=
  fadd binary64 (best_ask_yes m) (best_ask_no m).

(** ** Stores to the fields the stream writes *)

Definition store_yes (ask sz : double) (ns : Z) (m : MarketState) : MarketState :=
  MkMarketState (slug m) (title m) (symbol m) (condition_id m) (token_yes m) (token_no m)
    ask (best_ask_no m) sz (best_ask_no_size m) (minimum_order_size m) (minimum_tick_size m)
    (end_time_ms m) (neg_risk m) (fees_enabled m) (fee_rate m) (fee_exponent m)
    (last_update_ns m) ns (last_update_no_ns m) (update_count m).

Definition store_no (ask sz : double) (ns : Z) (m : MarketState) : MarketState :=
  MkMarketState (slug m) (title m) (symbol m) (condition_id m) (token_yes m) (token_no m)
    (best_ask_yes m) ask (best_ask_yes_size m) sz (minimum_order_size m) (minimum_tick_size m)
    (end_time_ms m) (neg_risk m) (fees_enabled m) (fee_rate m) (fee_exponent m)
    (last_update_ns m) (last_update_yes_ns m) ns (update_count m).

Definition store_update (ns count : Z) (m : MarketState) : MarketState :=
  MkMarketState (slug m) (title m) (symbol m) (condition_id m) (token_yes m) (token_no m)
    (best_ask_yes m) (best_ask_no m) (best_ask_yes_size m) (best_ask_no_size m)
    (minimum_order_size m) (minimum_tick_size m)
    (end_time_ms m) (neg_risk m) (fees_enabled m) (fee_rate m) (fee_exponent m)
    ns (last_update_yes_ns m) (last_update_no_ns m) count.

Definition store_tick (tick : string) (m : MarketState) : MarketState :=
  MkMarketState (slug m) (title m) (symbol m) (condition_id m) (token_yes m) (token_no m)
    (best_ask_yes m) (best_ask_no m) (best_ask_yes_size m) (best_ask_no_size m)
    (minimum_order_size m) tick
    (end_time_ms m) (neg_risk m) (fees_enabled m) (fee_rate m) (fee_exponent m)
    (last_update_ns m) (last_update_yes_ns m) (last_update_no_ns m) (update_count m).

(** [LiveMarketState(const MarketState &m)]: the latest of the three update
    times, and no updates counted yet. *)
Definition LiveMarketState (m : MarketState) : MarketState :=
  let latest := last_update_ns m in
  let latest := if latest <? last_update_yes_ns m then last_update_yes_ns m else latest in
  let latest := if latest <? last_update_no_ns m then last_update_no_ns m else latest in
  store_update latest 0 m.

(** ** Legs *)

Definition reset_market_leg (m : MarketState) (token_id : string) : MarketState :=
  let m :=
    if bool_decide (token_id = token_yes m) then store_yes fzero fzero 0 m
    else if bool_decide (token_id = token_no m) then store_no fzero fzero 0 m
    else m in
  store_update (Z.max (last_update_yes_ns m) (last_update_no_ns m)) (update_count m) m.

Definition reset_market (m : MarketState) : MarketState :=
  reset_market_leg (reset_market_leg m (token_yes m)) (token_no m).

(** [snapshot_market] copies every field: the prices first, the identity next. *)
Definition snapshot_market_identity (live state : MarketState) : MarketState :=
  MkMarketState (slug live) (title live) (symbol live) (condition_id live) (token_yes live)
    (token_no live) (best_ask_yes state) (best_ask_no state) (best_ask_yes_size state)
    (best_ask_no_size state) (minimum_order_size state) (minimum_tick_size live)
    (end_time_ms state) (neg_risk state) (fees_enabled state) (fee_rate state)
    (fee_exponent state) (last_update_ns state) (last_update_yes_ns state)
    (last_update_no_ns state) (update_count state).

Definition snapshot_market_prices (live state : MarketState) : MarketState :=
  MkMarketState (slug state) (title state) (symbol state) (condition_id state) (token_yes state)
    (token_no state) (best_ask_yes live) (best_ask_no live) (best_ask_yes_size live)
    (best_ask_no_size live) (minimum_order_size live) (minimum_tick_size state)
    (end_time_ms live) (neg_risk live) (fees_enabled live) (fee_rate live)
    (fee_exponent live) (last_update_ns live) (last_update_yes_ns live)
    (last_update_no_ns live) (update_count live).

Definition snapshot_market (live : MarketState) : MarketState :=
  snapshot_market_identity live (snapshot_market_prices live no_market).

Lemma snapshot_market_copies live : snapshot_market live = live.
Proof. by destruct live. Qed.

(** ** The arbitrage test *)

Definition fresh (now max_age timestamp : Z) : bool :=
  (timestamp <=? now) && (now - timestamp <=? max_age).

Definition has_fresh_arb_depth (m : MarketState) (now max_age : Z) (required_shares : double) : bool :=
  if negb (is_finite (best_ask_yes m)) || negb (is_finite (best_ask_no m)) ||
     negb (is_finite (best_ask_yes_size m)) || negb (is_finite (best_ask_no_size m)) ||
     negb (is_finite required_shares) || flt required_shares fzero ||
     fle (best_ask_yes m) fzero || fle fone (best_ask_yes m) ||
     fle (best_ask_no m) fzero || fle fone (best_ask_no m) ||
     (last_update_yes_ns m =? 0) || (last_update_no_ns m =? 0) ||
     flt (best_ask_yes_size m) required_shares || flt (best_ask_no_size m) required_shares
  then false
  else fresh now max_age (last_update_yes_ns m) && fresh now max_age (last_update_no_ns m).

(** ** Stream books *)

Record StreamBookTop := MkStreamBookTop { ask : double; ask_size : double }.

(** The front of the asks, zeros when there is none. *)
Definition top_of (b : Orderbook) : StreamBookTop :=
  match asks b with
  | [] => MkStreamBookTop fzero fzero
  | a :: _ => MkStreamBookTop (price a) (size a)
  end.

Section Stream.
Context `{StdSort}.

(** The cached books, the assets with a snapshot, and the top of the book; a
    throwing event leaves what it changed. *)
Definition apply_stream_book_event (books : gmap string Orderbook) (ready : gset string)
    (event : MarketBookEvent) (received_ns : Z) :
    gmap string Orderbook * gset string * res (option StreamBookTop) :=
  if negb (snapshot event) && negb (bool_decide (event_asset_id event ∈ ready))
  then (books, ready, Ok None)
  else
    let book := default empty_orderbook (books !! event_asset_id event) in
    let '(book, result) := apply_market_book_event book event received_ns in
    let books := <[event_asset_id event := book]> books in
    match result with
    | Throw e => (books, ready, Throw e)
    | Ok _ =>
        (books, if snapshot event then {[event_asset_id event]} ∪ ready else ready,
         Ok (Some (top_of book)))
    end.
End Stream.

(** ** What an event does to the cached books *)

Definition books_ok (books : gmap string Orderbook) (ready : gset string) : Prop :=
  map_Forall (λ token b, book_ok b ∧ asset_id b = token) books ∧
  (∀ token, token ∈ ready → is_Some (books !! token)).

Section StreamFacts.
Context `{StdSort}.

Lemma book_of_ok books ready token :
  books_ok books ready → book_ok (default empty_orderbook (books !! token)).
Proof.
  intros [Hb _]. destruct (books !! token) eqn:E; cbn; [by apply (Hb _ _ E)|].
  split; split; constructor.
Qed.

(** A sound event that needs no snapshot never throws, and its top is the top of
    the stored book. *)
Lemma stream_event_effect books ready e t :
  books_ok books ready → event_ok e →
  apply_stream_book_event books ready e t = (books, ready, Ok None) ∧
    snapshot e = false ∧ event_asset_id e ∉ ready ∨
  ∃ b ready', apply_stream_book_event books ready e t =
      (<[event_asset_id e := b]> books, ready', Ok (Some (top_of b))) ∧
    (snapshot e = true ∧ ready' = {[event_asset_id e]} ∪ ready ∨
     snapshot e = false ∧ ready' = ready ∧ event_asset_id e ∈ ready) ∧
    books_ok (<[event_asset_id e := b]> books) ready'.
Proof.
  intros Hok He. unfold apply_stream_book_event.
  destruct (negb (snapshot e) && _) eqn:Eg; [left; bools; by split_and!|right].
  destruct (apply_event_ok (default empty_orderbook (books !! event_asset_id e)) e t He)
    as (b & -> & Hb & Hid & _); [by eapply book_of_ok|].
  assert (Hin : snapshot e = false → event_asset_id e ∈ ready)
    by (intros Hs; rewrite Hs in Eg; cbn in Eg; bools; done).
  eexists b, _. split; [done|]. split; [destruct (snapshot e); auto|].
  destruct Hok as [Hbs Hrd]. split; [by apply map_Forall_insert_2|].
  intros tok Htok. destruct (decide (tok = event_asset_id e)) as [->|Hne];
    [by rewrite lookup_insert_eq|]. rewrite lookup_insert_ne by done. apply Hrd.
  destruct (snapshot e); set_solver.
Qed.
End StreamFacts.
