(* ===== verification/MarketDiscovery.v ===== *)
(** * Market discovery
    (src/market_fetcher.cpp, market_discovery.cpp, gamma_market_fetcher.cpp,
    arb_runtime.cpp)

    How the arbitrage program finds the markets it watches: the pages of the CLOB
    listing, the events of the Gamma API looked up by slug, the state a listed
    market becomes, the refresh of its metadata, and the choice among the markets
    found.  The server is a parameter; each request of the CLOB is retried by
    [retry_rate_limited]. *)
From Stdlib Require Import Ascii String Floats.SpecFloat.
From S2P Require Import Prelude Text Float64 MarketTime Sdk TradeSettlement Orderbook RestParsing Query Pagination ClobClient ClobRows JsonRpc OrderbookStream.

#[local] Open Scope Z_scope.

(** ** The fields of a market that discovery sets *)

Definition set_order_terms (size : double) (tick : string) (m : MarketState) : MarketState :=
  MkMarketState (slug m) (title m) (symbol m) (condition_id m) (token_yes m) (token_no m)
    (best_ask_yes m) (best_ask_no m) (best_ask_yes_size m) (best_ask_no_size m) size tick (end_time_ms m)
    (neg_risk m) (fees_enabled m) (fee_rate m) (fee_exponent m) (last_update_ns m) (last_update_yes_ns m)
    (last_update_no_ns m) (update_count m).
Definition set_fees (enabled : bool) (rate : double) (exponent : Z) (m : MarketState) : MarketState :=
  MkMarketState (slug m) (title m) (symbol m) (condition_id m) (token_yes m) (token_no m)
    (best_ask_yes m) (best_ask_no m) (best_ask_yes_size m) (best_ask_no_size m) (minimum_order_size m)
    (minimum_tick_size m) (end_time_ms m) (neg_risk m) enabled rate exponent (last_update_ns m) (last_update_yes_ns m)
    (last_update_no_ns m) (update_count m).
Definition set_neg_risk (flag : bool) (m : MarketState) : MarketState :=
  MkMarketState (slug m) (title m) (symbol m) (condition_id m) (token_yes m) (token_no m)
    (best_ask_yes m) (best_ask_no m) (best_ask_yes_size m) (best_ask_no_size m) (minimum_order_size m)
    (minimum_tick_size m) (end_time_ms m) flag (fees_enabled m) (fee_rate m) (fee_exponent m) (last_update_ns m)
    (last_update_yes_ns m) (last_update_no_ns m) (update_count m).

(** A market that was found and has no quotes yet. *)
Definition found_market (slug title symbol condition yes no : string) (size : double) (tick : string) (end_ms : Z)
    (neg : bool) (fees : MarketFeeFields) : MarketState :=
  MkMarketState slug title symbol condition yes no fzero fzero fzero fzero size tick end_ms neg
    (fees_on fees) (curve_rate fees) (curve_exponent fees) 0 0 0 0.

(** ** Listed markets *)

Definition outcome_token (outcome : string) (m : ClobMarket) : string :=
  match list_find (λ t, token_outcome t = outcome) (m_tokens m) with Some (_, t) => token_id t | None => "" end.
Definition m_token_yes : ClobMarket → string := outcome_token "Yes".
Definition m_token_no : ClobMarket → string := outcome_token "No".

(** [MarketFetcher::to_market_state] *)
Definition to_market_state (m : ClobMarket) : MarketState :=
  let slug := if bool_decide (m_market_slug m = "") then m_condition_id m else m_market_slug m in
  let title := if bool_decide (m_question m = "") then m_market_slug m else m_question m in
  let symbol := match split_at "-" (chars slug) with (before, Some _) => str before | (_, None) => "unknown" end in
  found_market slug title symbol (m_condition_id m) (m_token_yes m) (m_token_no m) (m_minimum_order_size m)
    (m_minimum_tick_size m) (m_end_time_ms m) (m_neg_risk m) (m_fees m).

(** Negative risk, open, and with an id and both tokens. *)
Definition tradable_neg_risk (m : ClobMarket) : bool :=
  m_neg_risk m && m_active m && negb (m_closed m) && negb (bool_decide (m_condition_id m = "")) &&
  negb (bool_decide (m_token_yes m = "")) && negb (bool_decide (m_token_no m = "")).

(** The markets kept so far and those of the rest; a [limit] of zero is never
    reached, as in the code. *)
Fixpoint filter_loop (markets filtered : list ClobMarket) (limit : nat) : list ClobMarket :=
  match markets with
  | [] => filtered
  | m :: markets =>
      if negb (tradable_neg_risk m) then filter_loop markets filtered limit
      else
        let filtered := filtered ++ [m] in
        if bool_decide (length filtered = limit) then filtered else filter_loop markets filtered limit
  end.

Definition filter_neg_risk_markets (markets : list ClobMarket) (limit : nat) : list ClobMarket :=
  filter_loop markets [] limit.

Section Parsing.
Context `{JsonLibrary, JsonRuntime, JsonTypeErrors, UndefinedCast}.

(** ** Values with a default

    [value.value(key, fallback)] of a double and of an int; the latter is cast
    from what the number is, a flag included. *)
Definition value_double (raw : json) (key : string) (fallback : double) : res double :=
  if negb (is_object raw) then Throw (runtime_error (type_what raw))
  else match json_field raw key with
       | Some (JInteger z) => Ok (of_Z binary64 z)
       | Some (JNumber x) => Ok x
       | Some j => Throw (runtime_error (type_what j))
       | None => Ok fallback
       end.

Definition to_int (x : double) : Z :=
  if is_finite x && (- 2 ^ 31 <=? truncZ x) && (truncZ x <? 2 ^ 31) then truncZ x else i32 (undefined_cast x).

Definition value_int (raw : json) (key : string) (fallback : Z) : res Z :=
  if negb (is_object raw) then Throw (runtime_error (type_what raw))
  else match json_field raw key with
       | Some (JInteger z) => Ok (i32 z)
       | Some (JNumber x) => Ok (to_int x)
       | Some (JBool b) => Ok (if b then 1 else 0)
       | Some j => Throw (runtime_error (type_what j))
       | None => Ok fallback
       end.

(** [a || b] and [a && b] whose operands may throw. *)
Definition or_else (a b : res bool) : res bool := v ← a; if (v : bool) then Ok true else b.
Definition not_value (a : res bool) : res bool := v ← a; Ok (negb v).

(** ** A Gamma event *)

Definition json_array_field (value : json) : res json :=
  match value with JString text => parse_json text | _ => Ok value end.

(** [value.size()]; an object has each key once. *)
Definition json_size (value : json) : nat :=
  match value with
  | JNull => 0
  | JArray items => length items
  | JObject fields => length fields
  | _ => 1
  end.

(** [value[index]] of a constant array, within its bounds. *)
Definition element (value : json) (index : nat) : res json :=
  match value with
  | JArray items => Ok (default JNull (items !! index))
  | _ => Throw (runtime_error (type_what value))
  end.

(** The loop over the outcomes, from [index]: the tokens of both sides. *)
Fixpoint outcome_loop (count index : nat) (tokens outcomes : json) (sides : string * string) : res (string * string) :=
  match count with
  | O => Ok sides
  | S count =>
      outcome ← element outcomes index ≫= get_string;
      let outcome := lower outcome in
      sides ←
        (if bool_decide (outcome = "yes") || bool_decide (outcome = "up") then
           token ← element tokens index ≫= get_string; Ok (token, sides.2)
         else if bool_decide (outcome = "no") || bool_decide (outcome = "down") then
           token ← element tokens index ≫= get_string; Ok (sides.1, token)
         else Ok sides);
      outcome_loop count (S index) tokens outcomes sides
  end.

Definition closed_to_orders (market : json) : res bool :=
  or_else (not_value (value_bool market "active" false))
    (or_else (value_bool market "closed" false) (not_value (value_bool market "acceptingOrders" false))).

Definition gamma_tick (market : json) : res string :=
  match json_field market "orderPriceMinTickSize" with
  | Some tick => json_orderbook_price tick;; Ok (decimal_string tick)
  | None => Ok ""
  end.

(** The body of the loop: [None] is [continue]. *)
Definition gamma_market (event market : json) (ticker : string) : res (option MarketState) :=
  skip ← closed_to_orders market;
  match json_field market "clobTokenIds", json_field market "outcomes" with
  | Some token_field, Some outcome_field =>
      if (skip : bool) then Ok None
      else
        tokens ← json_array_field token_field;
        outcomes ← json_array_field outcome_field;
        match tokens with
        | JArray items =>
            if negb (bool_decide (length items = json_size outcomes)) then Ok None
            else
              slug ← (event_slug ← value_string event "slug" ""; value_string market "slug" event_slug);
              title ← value_string market "question" ticker;
              condition ← value_string market "conditionId" "";
              '(yes, no) ← outcome_loop (json_size outcomes) 0 tokens outcomes ("", "");
              if bool_decide (condition = "") || bool_decide (yes = "") || bool_decide (no = "") then Ok None
              else
                size ← value_double market "orderMinSize" fzero;
                tick ← gamma_tick market;
                end_date ← (event_end ← value_string event "endDate" ""; value_string market "endDate" event_end);
                neg ← (event_neg ← value_bool event "negRisk" false; value_bool market "negRisk" event_neg);
                fees ← parse_market_fee_fields market;
                Ok (Some (found_market slug title ticker condition yes no size tick (parse_iso8601_ms end_date) neg fees))
        | _ => Ok None
        end
  | _, _ => Ok None
  end.

Fixpoint first_gamma_market (event : json) (markets : list json) (ticker : string) : res (option MarketState) :=
  match markets with
  | [] => Ok None
  | market :: markets =>
      state ← gamma_market event market ticker;
      match state with Some state => Ok (Some state) | None => first_gamma_market event markets ticker end
  end.

Definition parse_gamma_market_json (json_text ticker : string) : res (option MarketState) :=
  events ← parse_json json_text;
  match events with
  | JArray (event :: _) =>
      ended ← or_else (not_value (value_bool event "active" false)) (value_bool event "closed" false);
      match json_field event "markets" with
      | Some (JArray markets) => if (ended : bool) then Ok None else first_gamma_market event markets ticker
      | _ => Ok None
      end
  | _ => Ok None
  end.

(** [MarketFetcher::parse_gamma_event] *)
Definition parse_gamma_event (json_text ticker : string) : option MarketState :=
  match parse_gamma_market_json json_text ticker with Ok state => state | Throw _ => None end.

(** ** The metadata of a market

    The market is changed in place, so what an exception leaves of it is part of
    the result. *)
Definition apply_fee_details (fee : json) (m : MarketState) : MarketState * res bool :=
  let answered m : MarketState * res bool :=
    (m, Ok (negb (bool_decide (minimum_tick_size m = "")) && flt fzero (minimum_order_size m))) in
  match value_double fee "r" fzero with
  | Throw e => (m, Throw e)
  | Ok rate =>
      let m := set_fees false rate 1 m in
      match value_int fee "e" 1 with
      | Throw e => (m, Throw e)
      | Ok exponent => answered (set_fees (flt fzero rate) rate exponent m)
      end
  end.

Definition apply_clob_market_info_json (m : MarketState) (json_text : string) : MarketState * res bool :=
  match parse_json json_text with
  | Throw e => (m, Throw e)
  | Ok info =>
      match json_field info "mos", json_field info "mts" with
      | Some mos, Some mts =>
          match strict_json_number mos with
          | Throw e => (m, Throw e)
          | Ok size =>
              let m := set_order_terms size (minimum_tick_size m) m in
              match json_orderbook_price mts with
              | Throw e => (m, Throw e)
              | Ok _ =>
                  let m := set_fees false fzero 1 (set_order_terms size (decimal_string mts) m) in
                  match json_field info "fd" with
                  | Some ((JObject _) as fee) => apply_fee_details fee m
                  | _ => (m, Ok (negb (bool_decide (minimum_tick_size m = "")) && flt fzero (minimum_order_size m)))
                  end
              end
          end
      | _, _ => (m, Ok false)
      end
  end.
End Parsing.

(** ** The fetcher *)

(** The members of [Config] the fetcher reads besides the addresses. *)
Record FetcherConfig := MkFetcherConfig { rate_limit_retry : option RateLimitRetry; crypto_tickers : list string }.

(** [MarketFetcher(config)]: what the constructor refuses. *)
Definition new_fetcher (config : FetcherConfig) : res FetcherConfig :=
  match rate_limit_retry config with Some policy => validate_rate_limit_retry policy | None => Ok tt end;;
  Ok config.

(** What each request of the CLOB meets, after the paths requested before it, the
    answer to each request of a batch to the Gamma API, and the clocks. *)
Class MarketServer := {
  clob_attempts : list string → string → attempts;
  gamma_answer : nat → string → HttpResponse;
  now_sec : Z;
  now_ns : Z }.

(** The response the retries end with; the default is never used with a
    configuration the constructor accepts ([final_response_last]). *)
Definition final_response `{JsonLibrary, DateReader, UndefinedCast} (policy : option RateLimitRetry) (env : attempts) :
    HttpResponse :=
  let fuel := S (match policy with Some p => Z.to_nat (retries p) | None => 0 end) in
  match retry_rate_limited fuel policy env None with Some (last, _) => last | None => attempt env 0 end.

Section Fetcher.
Context `{JsonLibrary, JsonRuntime, JsonTypeErrors, DateReader, UndefinedCast, StdSort, Server : MarketServer}.
Context (config : FetcherConfig).

Definition clob_get (sent : list string) (path : string) : HttpResponse :=
  final_response (rate_limit_retry config) (clob_attempts sent path).

(** ** Pages of the CLOB listing *)

Definition market_cursor (parsed : json) : string :=
  match json_field parsed "next_cursor" with Some (JString cursor) => cursor | _ => "" end.

(** A body that does not parse is an empty last page; a cursor that is no string
    makes the page the last. *)
Definition read_market_page (text : string) : Page ClobMarket :=
  match parse_clob_markets_json text with
  | Throw _ => MkPage [] "" None false
  | Ok items => MkPage items (match parse_json text with Ok parsed => market_cursor parsed | Throw _ => "" end) None false
  end.

Definition market_page_path (endpoint : string) (request : PageRequest) : string :=
  if bool_decide (r_cursor request = "MA==") then endpoint
  else endpoint +:+ "?next_cursor=" +:+ percent_encode_query_value (r_cursor request).

Definition market_pages (endpoint : string) : Fetch ClobMarket := λ sent request,
  let response := clob_get (market_page_path endpoint <$> sent) (market_page_path endpoint request) in
  if negb (response_ok response) then failure (make_sdk_error response endpoint now_sec)
  else success (read_market_page (body response)).

(** The loop over the items of a page. *)
Fixpoint keep_markets (neg_risk_only : bool) (current_time_ms : Z) (limit : nat) (items markets : list ClobMarket) :
    list ClobMarket :=
  match items with
  | [] => markets
  | m :: items =>
      if neg_risk_only && negb (tradable_neg_risk m && (current_time_ms <? m_end_time_ms m))
      then keep_markets neg_risk_only current_time_ms limit items markets
      else if bool_decide (length markets = limit) then markets
      else keep_markets neg_risk_only current_time_ms limit items (markets ++ [m])
  end.

Fixpoint market_pages_loop (fuel : nat) (neg_risk_only : bool) (current_time_ms : Z) (limit : nat) (endpoint : string)
    (markets : list ClobMarket) (paginator : Paginator ClobMarket) : option (list ClobMarket) :=
  match fuel with
  | O => None
  | S fuel =>
      if bool_decide (length markets < limit)%nat then
        match @next_page _ (market_pages endpoint) paginator with
        | (paginator, success (Some items)) =>
            market_pages_loop fuel neg_risk_only current_time_ms limit endpoint
              (keep_markets neg_risk_only current_time_ms limit items markets) paginator
        | _ => Some markets
        end
      else Some markets
  end.

(** At most 1000 pages, and the call that ends the loop. *)
Definition market_pages_fuel : nat := 1001.

Definition fetch_market_pages (limit : nat) (neg_risk_only : bool) : res (option (list ClobMarket)) :=
  let endpoint := if neg_risk_only then "/sampling-markets" else "/markets" in
  paginator ← cursor_pages endpoint "MA==" "LTE=";
  Ok (market_pages_loop market_pages_fuel neg_risk_only (u64 (now_sec * 1000)) limit endpoint [] paginator).

Definition fetch_all_markets (max_markets : Z) : res (option (list ClobMarket)) :=
  if max_markets <=? 0 then Ok (Some []) else fetch_market_pages (Z.to_nat max_markets) false.

Definition fetch_neg_risk_markets (max_markets : Z) : res (option (list ClobMarket)) :=
  if max_markets <=? 0 then Ok (Some []) else fetch_market_pages (Z.to_nat max_markets) true.

(** ** One market, one book

    Each after the paths [sent] before it. *)
Definition fetch_market (sent : list string) (wanted : string) : option ClobMarket :=
  if bool_decide (wanted = "") then None
  else
    let response := clob_get sent ("/markets/" +:+ wanted) in
    if negb (response_ok response) then None
    else match parse_clob_markets_json ("[" +:+ body response +:+ "]") with
         | Ok [m] => if bool_decide (m_condition_id m = wanted) then Some m else None
         | _ => None
         end.

(** [MarketFetcher::parse_orderbook_response] *)
Definition parse_orderbook_response (text expected : string) : option Orderbook :=
  match (parsed ← parse_json text; parse_rest_orderbook now_ns parsed expected) with Ok book => Some book | Throw _ => None end.

Definition fetch_orderbook (sent : list string) (token : string) : option Orderbook :=
  let response := clob_get sent ("/book?token_id=" +:+ percent_encode_query_value token) in
  if response_ok response then parse_orderbook_response (body response) token else None.

Definition refresh_market_metadata (sent : list string) (m : MarketState) : MarketState * bool :=
  let response := clob_get sent ("/clob-markets/" +:+ condition_id m) in
  if negb (response_ok response) then (m, false)
  else match apply_clob_market_info_json m (body response) with
       | (m, Ok applied) => (m, applied)
       | (m, Throw _) => (m, false)
       end.

(** ** Crypto markets of the Gamma API *)

Definition get_15m_timestamps (count : Z) : list Z := aligned_market_timestamps now_sec (15 * 60) count.
Definition get_4h_timestamps (count : Z) : list Z := aligned_market_timestamps now_sec (4 * 60 * 60) count.

Definition hour_names : list (string * string) :=
  [("btc", "bitcoin"); ("eth", "ethereum"); ("xrp", "xrp"); ("sol", "solana")].

(** Three slugs take at most 24 steps of the loop over hours. *)
Definition generate_1h_slugs (count : Z) : option (list string) :=
  (@concat string) <$> mapM (λ name, generate_new_york_hour_slugs 24 name now_sec count)
    (snd <$> filter (λ n, n.1 ∈ crypto_tickers config) hour_names).

(** Each request is run once by the pool of [BoundedWorkers]: none throws, and the
    answers are read in the order of the requests. *)
Definition fetch_gamma_markets (requests : list (string * string)) : list MarketState :=
  omap id (imap (λ index request,
    let response := gamma_answer index ("/events?slug=" +:+ request.1) in
    if response_ok response then parse_gamma_event (body response) request.2 else None) requests).

Definition timestamp_requests (timeframe : string) (timestamps : list Z) : list (string * string) :=
  mbind (λ ticker, (λ timestamp, (ticker +:+ "-updown-" +:+ timeframe +:+ "-" +:+ to_string timestamp, ticker)) <$> timestamps)
    (crypto_tickers config).

Definition fetch_timestamp_markets (timeframe : string) (timestamps : list Z) : list MarketState :=
  fetch_gamma_markets (timestamp_requests timeframe timestamps).

Definition fetch_crypto_15m_markets : list MarketState := fetch_timestamp_markets "15m" (get_15m_timestamps 3).
Definition fetch_crypto_4h_markets : list MarketState := fetch_timestamp_markets "4h" (get_4h_timestamps 3).

Definition hour_request (slug : string) : option (string * string) :=
  let ticker := ticker_from_hour_slug slug in if bool_decide (ticker = "") then None else Some (slug, ticker).

Definition fetch_crypto_1h_markets : option (list MarketState) :=
  (λ slugs, fetch_gamma_markets (omap hour_request slugs)) <$> generate_1h_slugs 3.
End Fetcher.

(** ** The choice of a market *)

(** [append_unique]: the ids met so far are those of [destination] and of the
    markets taken. *)
Fixpoint append_loop (destination source : list MarketState) (existing : gset string) : list MarketState :=
  match source with
  | [] => destination
  | m :: source =>
      if bool_decide (condition_id m = "") || bool_decide (condition_id m ∈ existing)
      then append_loop destination source existing
      else append_loop (destination ++ [m]) source ({[condition_id m]} ∪ existing)
  end.

Definition append_unique (destination source : list MarketState) : list MarketState :=
  append_loop destination source (list_to_set (condition_id <$> destination)).

Record Options := MkOptions {
  fetch_15m : bool; fetch_1h : bool; fetch_4h : bool; fetch_neg_risk : bool; max_markets : Z }.

Definition append_if (wanted : bool) (found : list MarketState) (markets : list MarketState) : list MarketState :=
  if wanted then append_unique markets found else markets.

(** The markets of the four sources the options ask for, where each fetch returned. *)
Definition selected_markets (options : Options) (found_15m found_1h found_4h : list MarketState)
    (found_neg_risk : list ClobMarket) : list MarketState :=
  let markets := append_if (fetch_15m options) found_15m [] in
  let markets := append_if (fetch_1h options) found_1h markets in
  let markets := append_if (fetch_4h options) found_4h markets in
  let markets :=
    if fetch_neg_risk options then foldl (λ ms m, append_unique ms [to_market_state m]) markets found_neg_risk else markets in
  take (Z.to_nat (max_markets options)) markets.

Definition eligible (now : Z) (wanted : string) (m : MarketState) : bool :=
  negb (negb (bool_decide (wanted = "")) && negb (bool_decide (symbol m = wanted))) &&
  (u64 (now * 1000 + 2 * 60 * 1000) <? end_time_ms m).

(** The index of the best market so far, and the rest from [index]. *)
Fixpoint select_loop (now : Z) (wanted : string) (index : nat) (markets : list MarketState)
    (best : option (nat * MarketState)) : option (nat * MarketState) :=
  match markets with
  | [] => best
  | m :: markets =>
      let best :=
        if negb (eligible now wanted m) then best
        else match best with
             | Some (_, b) => if end_time_ms m <? end_time_ms b then Some (index, m) else best
             | None => Some (index, m)
             end in
      select_loop now wanted (S index) markets best
  end.

Definition select_market (now : Z) (markets : list MarketState) (wanted : string) : option (nat * MarketState) :=
  select_loop now wanted 0 markets None.

Definition seconds_until (end_time_ms now_ms : Z) : Z :=
  if now_ms <=? end_time_ms then (end_time_ms - now_ms) / 1000 else - (u64 (now_ms - end_time_ms + 999) / 1000).

(** ** The outcome of a pair of orders *)

Inductive BatchOutcome := BothFilled | BothRejected | Unsafe.

Definition filled (response : OrderResponse) : bool :=
  order_success response && bool_decide (order_error_msg response = "") && bool_decide (order_status response = "matched").

Definition assess_batch (responses : list OrderResponse) : BatchOutcome :=
  match responses with
  | [yes; no] =>
      if filled yes && filled no then BothFilled
      else if negb (order_success yes) && negb (order_success no) then BothRejected
      else Unsafe
  | _ => Unsafe
  end.

Definition reconcile_order_metadata (m : MarketState) (yes_tick no_tick : TickSizeInfo) (yes_neg no_neg : NegRiskInfo) :
    MarketState * bool :=
  let tick := ClobClient.minimum_tick_size yes_tick in
  if bool_decide (tick = "") || negb (bool_decide (tick = ClobClient.minimum_tick_size no_tick)) ||
     negb (Bool.eqb (ClobClient.neg_risk yes_neg) (ClobClient.neg_risk no_neg))
  then (m, false)
  else (set_neg_risk (ClobClient.neg_risk yes_neg) (set_order_terms (minimum_order_size m) tick m), true).

(** ** Lemmas *)

(** The markets the negative-risk filter returns: the first [limit] that pass. *)
Lemma filter_neg_risk_first markets limit :
  (0 < limit)%nat → filter_neg_risk_markets markets limit = take limit (filter tradable_neg_risk markets).
Proof.
  intros Hl. unfold filter_neg_risk_markets.
  enough (∀ kept, (length kept < limit)%nat →
    filter_loop markets kept limit = kept ++ take (limit - length kept) (filter tradable_neg_risk markets)) as Hk.
  { rewrite (Hk []) by (cbn; lia). cbn [app length]. by rewrite Nat.sub_0_r. }
  induction markets as [|m markets IH]; intros kept Hlt; cbn [filter_loop].
  { cbn. by rewrite take_nil, app_nil_r. }
  rewrite filter_cons. destruct (tradable_neg_risk m) eqn:Hm; cbn [negb Is_true].
  - rewrite decide_True by done. case_bool_decide as Hlen; rewrite length_app in Hlen; cbn [length] in Hlen.
    + by replace (limit - length kept)%nat with 1%nat by lia.
    + rewrite IH by (rewrite length_app; cbn [length]; lia).
      rewrite <- app_assoc, length_app. cbn [app length].
      by replace (limit - length kept)%nat with (S (limit - (length kept + 1)))%nat by lia.
  - rewrite decide_False by (cbn; tauto). by apply IH.
Qed.

Section Facts.
Context `{JsonLibrary, JsonRuntime, JsonTypeErrors, DateReader, UndefinedCast, StdSort, Server : MarketServer}.

Lemma final_response_last config env :
  new_fetcher config = Ok config →
  ∃ delays, retry_rate_limited (S (match rate_limit_retry config with Some p => Z.to_nat (retries p) | None => 0 end))
    (rate_limit_retry config) env None = Some (final_response (rate_limit_retry config) env, delays).
Proof.
  unfold new_fetcher, final_response, retry_rate_limited. destruct (rate_limit_retry config) as [policy|]; intros Hn.
  - unfold validate_rate_limit_retry in Hn. res_inv. bools.
    destruct (retry_loop_spec (S (Z.to_nat (retries policy))) policy env None 0 0) as (last & delays & E & _); [lia|lia|].
    rewrite E. by exists delays.
  - by eexists.
Qed.

(** What the loop over a page keeps. *)
Definition kept (neg_risk_only : bool) (now_ms : Z) (m : ClobMarket) : Prop :=
  neg_risk_only = true → tradable_neg_risk m = true ∧ now_ms < m_end_time_ms m.

Lemma keep_markets_kept neg now_ms limit items markets :
  (length markets ≤ limit)%nat → Forall (kept neg now_ms) markets →
  (length (keep_markets neg now_ms limit items markets) ≤ limit)%nat ∧
  Forall (kept neg now_ms) (keep_markets neg now_ms limit items markets).
Proof.
  revert markets. induction items as [|m items IH]; intros markets Hl Hk; [done|]. cbn [keep_markets].
  destruct (neg && _) eqn:Hn; [by apply IH|]. case_bool_decide as Hlen; [done|].
  apply IH; [rewrite length_app; cbn [length]; lia|].
  apply Forall_app. split; [done|]. apply Forall_singleton. intros ->. cbn [andb] in Hn.
  apply negb_false_iff, andb_true_iff in Hn as [? ?%Z.ltb_lt]. done.
Qed.

Lemma market_pages_end config neg now_ms limit endpoint fuel markets (p : Paginator ClobMarket) :
  @pages_ok _ p → (pages_left p < fuel)%nat → (length markets ≤ limit)%nat → Forall (kept neg now_ms) markets →
  ∃ found, market_pages_loop config fuel neg now_ms limit endpoint markets p = Some found ∧
    (length found ≤ limit)%nat ∧ Forall (kept neg now_ms) found.
Proof.
  revert markets p. induction fuel as [|fuel IH]; intros markets p Hok Hleft Hl Hk; [lia|]. cbn [market_pages_loop].
  case_bool_decide; [|by exists markets].
  pose proof (@next_page_progress _ (market_pages config endpoint) p Hok) as Hp.
  destruct (@next_page _ (market_pages config endpoint) p) as [p' [[items|]|e]]; [|by exists markets..].
  destruct Hp as (Hok' & _ & sent & _ & Hle & Hone).
  destruct (keep_markets_kept neg now_ms limit items markets Hl Hk). apply IH; [done|lia|done|done].
Qed.

(** A listing returns, whatever the server answers: at most [limit] markets, and
    for negative risk only open ones that end later than now. *)
Lemma market_listing_ends config limit neg :
  ∃ found, fetch_market_pages config limit neg = Ok (Some found) ∧
    (length found ≤ limit)%nat ∧ Forall (kept neg (u64 (now_sec * 1000))) found.
Proof.
  unfold fetch_market_pages. set (endpoint := if neg then _ else _).
  destruct (cursor_pages (T := ClobMarket) endpoint "MA==" "LTE=") as [p|] eqn:Ep; [|done].
  assert (@made ClobMarket p) as (Hok & Hleft & _)%made_ok by (left; by eexists _, _, _).
  assert (page_bound p = 1000%nat) as Hb by (cbv in Ep; by injection Ep as <-).
  destruct (market_pages_end config neg (u64 (now_sec * 1000)) limit endpoint market_pages_fuel [] p)
    as (found & E & Hf); [done|unfold market_pages_fuel; lia|cbn; lia|done|].
  exists found. split; [|done]. cbn [mbind res_bind]. by rewrite E.
Qed.

(** ** Gamma markets *)

Definition tradable (m : MarketState) : Prop := condition_id m ≠ "" ∧ token_yes m ≠ "" ∧ token_no m ≠ "".

Lemma gamma_market_tradable event market ticker m :
  gamma_market event market ticker = Ok (Some m) → tradable m ∧ symbol m = ticker.
Proof.
  unfold gamma_market. intros Hm. res_inv. repeat (case_match; simplify_eq; res_inv).
  bools. done.
Qed.

(** A market read from an event can be traded: it has an id and both tokens. *)
Lemma parse_gamma_event_tradable text ticker m :
  parse_gamma_event text ticker = Some m → tradable m ∧ symbol m = ticker.
Proof.
  unfold parse_gamma_event, parse_gamma_market_json. intros Hm.
  destruct (parse_json text ≫= _) as [state|] eqn:E; [subst state|done]. res_inv.
  destruct a as [| | | | |[|event ?]|]; try done. res_inv.
  destruct (json_field event "markets") as [[| | | | |markets|]|]; try by (res_inv; simplify_eq).
  match goal with b : bool |- _ => destruct b; [by res_inv; simplify_eq|] end.
  match goal with H : first_gamma_market _ _ _ = _ |- _ => revert H end.
  induction markets as [|market markets IH]; cbn [first_gamma_market]; intros E; res_inv; [done|].
  match goal with s : option MarketState |- _ => destruct s end; res_inv; [|by apply IH].
  simplify_eq. by eapply gamma_market_tradable.
Qed.

Lemma fetched_tradable requests : Forall tradable (fetch_gamma_markets requests).
Proof.
  apply Forall_forall. unfold fetch_gamma_markets. intros m (o & Ho & E)%list_elem_of_omap.
  apply elem_of_lookup_imap in Ho as (i & request & -> & _). destruct (response_ok _); [|done].
  by apply parse_gamma_event_tradable in E as [].
Qed.

(** ** The metadata of a market *)

(** What a refresh may change; it reports success only for a tick and a size. *)
Lemma refresh_keeps_identity config sent m :
  let '(m', applied) := refresh_market_metadata config sent m in
  (∃ size tick enabled rate exponent, m' = set_fees enabled rate exponent (set_order_terms size tick m)) ∧
  (applied = true → minimum_tick_size m' ≠ "" ∧ flt fzero (minimum_order_size m') = true).
Proof.
  unfold refresh_market_metadata. assert (m = set_fees (fees_enabled m) (fee_rate m) (fee_exponent m)
    (set_order_terms (minimum_order_size m) (minimum_tick_size m) m)) as Hm by (by destruct m).
  destruct (response_ok _); cbn [negb]; [|split; [by eexists _, _, _, _, _|done]].
  unfold apply_clob_market_info_json, apply_fee_details.
  repeat (case_match; simplify_eq); (split;
    [first [by eexists _, _, _, _, _ | eexists _, _, (fees_enabled m), (fee_rate m), (fee_exponent m); by destruct m]
    |try done; intros ?; bools; done]).
Qed.
End Facts.

(** ** The choice of a market *)

Definition distinct_markets (markets : list MarketState) : Prop :=
  NoDup (condition_id <$> markets) ∧ Forall (λ m, condition_id m ≠ "") markets.

Lemma append_loop_distinct destination source existing :
  existing = list_to_set (condition_id <$> destination) → distinct_markets destination →
  distinct_markets (append_loop destination source existing).
Proof.
  revert destination existing. induction source as [|m source IH]; intros destination existing Hex [Hnd Hne]; [done|].
  cbn [append_loop]. destruct (_ || _) eqn:Hc; [by apply IH|]. apply orb_false_iff in Hc as [Hid Hnew].
  apply bool_decide_eq_false in Hid, Hnew. apply IH.
  - rewrite fmap_app, list_to_set_app_L, Hex. cbn. set_solver.
  - split; [|by apply Forall_app; split; [done|apply Forall_singleton]].
    rewrite fmap_app. apply NoDup_app. split; [done|]. split; [|apply NoDup_singleton].
    intros x Hx ->%list_elem_of_singleton. apply Hnew. subst existing. by apply elem_of_list_to_set.
Qed.

Lemma append_unique_distinct destination source :
  distinct_markets destination → distinct_markets (append_unique destination source).
Proof. intros. by apply append_loop_distinct. Qed.

(** The markets of all sources are distinct, and no more than asked for. *)
Lemma selected_markets_distinct options found_15m found_1h found_4h found_neg_risk :
  let markets := selected_markets options found_15m found_1h found_4h found_neg_risk in
  distinct_markets markets ∧ (length markets ≤ Z.to_nat (max_markets options))%nat.
Proof.
  unfold selected_markets. cbv zeta. split; [|rewrite length_take; lia].
  assert (∀ b found ms, distinct_markets ms → distinct_markets (append_if b found ms)) as Hif.
  { intros [] ? ? ?; [by apply append_unique_distinct|done]. }
  set (ms := append_if (fetch_4h options) _ _).
  assert (distinct_markets ms) as Hms by (do 3 apply Hif; split; [constructor|done]). clearbody ms.
  assert (distinct_markets (if fetch_neg_risk options
    then foldl (λ ms m, append_unique ms [to_market_state m]) ms found_neg_risk else ms)) as [Hnd Hne].
  { destruct (fetch_neg_risk options); [|done]. revert ms Hms.
    induction found_neg_risk as [|m found IH]; intros ms Hms; [done|]. cbn [foldl]. by apply IH, append_unique_distinct. }
  split; [|by apply Forall_take]. rewrite fmap_take. eapply sublist_NoDup; [done|apply sublist_take].
Qed.

(** The best market of those before [n]: eligible, and the first to end. *)
Definition best_before (now : Z) (wanted : string) (markets : list MarketState) (n : nat)
    (best : option (nat * MarketState)) : Prop :=
  match best with
  | Some (i, m) => (i < n)%nat ∧ markets !! i = Some m ∧ eligible now wanted m = true ∧
      ∀ j m', (j < n)%nat → markets !! j = Some m' → eligible now wanted m' = true →
        end_time_ms m ≤ end_time_ms m' ∧ (end_time_ms m = end_time_ms m' → (i ≤ j)%nat)
  | None => ∀ j m', (j < n)%nat → markets !! j = Some m' → eligible now wanted m' = false
  end.

Lemma select_loop_best now wanted before after best :
  best_before now wanted (before ++ after) (length before) best →
  best_before now wanted (before ++ after) (length (before ++ after))
    (select_loop now wanted (length before) after best).
Proof.
  revert before best. induction after as [|m after IH]; intros before best Hb; [by rewrite app_nil_r in *|].
  cbn [select_loop]. specialize (IH (before ++ [m])). rewrite <- app_assoc, (length_app before), Nat.add_1_r in IH.
  cbn [app] in IH. apply IH. clear IH.
  assert ((before ++ m :: after) !! length before = Some m) as Hat by (by apply list_lookup_middle).
  assert (∀ j m', (j < S (length before))%nat → (before ++ m :: after) !! j = Some m' →
    ((j < length before)%nat ∨ m' = m ∧ j = length before)) as Hcase.
  { intros j m' Hj Hl. destruct (decide (j = length before)) as [->|]; [right; by simplify_eq|left; lia]. }
  destruct (eligible now wanted m) eqn:Hel; cbn [negb].
  - destruct best as [[i b]|]; cbn [best_before] in *.
    + destruct Hb as (Hi & Hl & He & Hmin). destruct (Z.ltb_spec (end_time_ms m) (end_time_ms b)); cbn [best_before].
      * split; [lia|]. split; [done|]. split; [done|]. intros j m' Hj Hlj Hej.
        destruct (Hcase j m' Hj Hlj) as [Hlt|[-> ->]]; [|lia]. destruct (Hmin j m' Hlt Hlj Hej). lia.
      * split; [lia|]. split; [done|]. split; [done|]. intros j m' Hj Hlj Hej.
        destruct (Hcase j m' Hj Hlj) as [Hlt|[-> ->]]; [by apply Hmin|lia].
    + split; [lia|]. split; [done|]. split; [done|]. intros j m' Hj Hlj Hej.
      destruct (Hcase j m' Hj Hlj) as [Hlt|[-> ->]]; [by rewrite (Hb j m') in Hej|lia].
  - destruct best as [[i b]|]; cbn [best_before] in *.
    + destruct Hb as (Hi & Hl & He & Hmin). split; [lia|]. split; [done|]. split; [done|]. intros j m' Hj Hlj Hej.
      destruct (Hcase j m' Hj Hlj) as [Hlt|[-> ->]]; [by apply Hmin|by rewrite Hel in Hej].
    + intros j m' Hj Hlj. destruct (Hcase j m' Hj Hlj) as [Hlt|[-> ->]]; [by eapply Hb|done].
Qed.

(** The market chosen is the first of those that end soonest, more than two
    minutes from now; there is none only when no market qualifies. *)
Lemma selected_market_ends_first now markets wanted :
  best_before now wanted markets (length markets) (select_market now markets wanted).
Proof. apply (select_loop_best now wanted [] markets None). cbn. intros. lia. Qed.

(** Whole seconds, rounded towards now while the market is open and away from it
    once it has ended. *)
Lemma seconds_until_rounds end_ms now_ms :
  is_u64 end_ms → 0 ≤ now_ms < 2 ^ 63 →
  let s := seconds_until end_ms now_ms in
  if now_ms <=? end_ms then 1000 * s ≤ end_ms - now_ms < 1000 * s + 1000
  else 1000 * s ≤ end_ms - now_ms < 1000 * s + 1000 ∧ s < 0.
Proof.
  intros He Hn. unfold seconds_until, is_u64, u64_max in *. cbv zeta. destruct (Z.leb_spec now_ms end_ms).
  - pose proof (Z.div_mod (end_ms - now_ms) 1000). pose proof (Z.mod_pos_bound (end_ms - now_ms) 1000). lia.
  - rewrite u64_id by (unfold is_u64, u64_max; lia).
    pose proof (Z.div_mod (now_ms - end_ms + 999) 1000). pose proof (Z.mod_pos_bound (now_ms - end_ms + 999) 1000). lia.
Qed.

(** Two orders that are not both matched and not both refused leave a position
    with one leg, or nothing known. *)
Lemma assess_batch_unsafe yes no :
  assess_batch [yes; no] = Unsafe ↔
    ¬ (filled yes = true ∧ filled no = true) ∧ (order_success yes = true ∨ order_success no = true).
Proof.
  cbn. destruct (filled yes) eqn:Fy, (filled no) eqn:Fn, (order_success yes) eqn:Sy, (order_success no) eqn:Sn; cbn;
    unfold filled in Fy, Fn; rewrite ?Sy, ?Sn in Fy, Fn; cbn in Fy, Fn; try done; intuition congruence.
Qed.
