(* ===== verification/OrderbookRuntime.v ===== *)
(** * The market data runtime (src/orderbook_runtime.hpp, orderbook_runtime.cpp,
    orderbook_runtime_stream.cpp, orderbook_runtime_lifecycle.cpp)

    The state behind [OrderbookManager] and every operation on it.  Operations
    run on several threads, so an operation is a [thread]: a sequence of atomic
    sections, one per critical section or per read-modify-write of an atomic.
    The [subscriptions_mutex_] spans several sections of an update and is kept
    between them; the other mutexes cover one section each.  Any interleaving of
    threads is a run of [step]; [run_thread] is the run without interleaving.

    The websocket client is the part of its state the runtime uses: its stream
    generation, its connection and its tracked subscriptions.  What its calls
    send is an effect of the section that makes them; whether a send or a
    connect succeeds is a parameter of the operation. *)
From Stdlib Require Import Floats.SpecFloat.
From stdpp Require Import sorting.
From S2P Require Import Prelude Float64 Orderbook BookEvents OrderbookStream.

#[local] Open Scope Z_scope.

(** ** Configuration *)

Record Config := MkConfig {
  trigger_combined : double;
  ws_ping_interval_ms : Z;
  ws_connect_timeout_ms : Z;
  max_book_age_ms : Z }.

Definition nanoseconds_per_millisecond : Z := 1000000.

Definition validated_config (c : Config) : res Config :=
  if negb (is_finite (trigger_combined c)) || fle (trigger_combined c) fzero ||
     flt fone (trigger_combined c)
  then Throw (invalid_argument "trigger_combined must be finite and in (0, 1]")
  else if ws_ping_interval_ms c <=? 0
  then Throw (invalid_argument "ws_ping_interval_ms must be positive")
  else if ws_connect_timeout_ms c <=? 0
  then Throw (invalid_argument "ws_connect_timeout_ms must be positive")
  else if (max_book_age_ms c =? 0) ||
          (u64_max / nanoseconds_per_millisecond <? max_book_age_ms c)
  then Throw (invalid_argument "max_book_age_ms is outside the supported range")
  else Ok c.

(** [config_.max_book_age_ms * 1'000'000ULL] *)
Definition max_book_age_ns (c : Config) : Z := u64 (max_book_age_ms c * 1000000).

(** ** State *)

(** Which callbacks are set. *)
Record OrderbookCallbacks := MkOrderbookCallbacks {
  on_update : bool;
  on_arb : bool;
  on_arb_snapshot : bool;
  on_arb_permit : bool }.

Definition no_callbacks : OrderbookCallbacks := MkOrderbookCallbacks false false false false.

Record Websocket := MkWebsocket {
  ws_generation : Z;
  ws_connected : bool;
  ws_subscriptions : list (list string) }.

Record OrderbookRuntime := MkRuntime {
  config : Config;
  websocket : Websocket;
  orderbooks : gmap string Orderbook;
  snapshot_ready : gset string;
  markets : gmap string MarketState;
  token_to_condition : gmap string string;
  subscribed_tokens : list string;
  callbacks : OrderbookCallbacks;
  owner_active : bool;
  stream_active : bool;
  shutdown_started : bool;
  total_updates : Z;
  arb_opportunities : Z;
  stream_generation : Z;
  clock : Z;
  (** Deactivations that have not reset the markets yet; read by no operation. *)
  resets_pending : Z }.

Definition initial_runtime (c : Config) : OrderbookRuntime :=
  MkRuntime c (MkWebsocket 0 false []) ∅ ∅ ∅ ∅ [] no_callbacks true false false 0 0 0 0 0.

(** Stores, one per group of members a section writes together. *)
Definition set_websocket (w : Websocket) (r : OrderbookRuntime) : OrderbookRuntime :=
  MkRuntime (config r) w (orderbooks r) (snapshot_ready r) (markets r) (token_to_condition r)
    (subscribed_tokens r) (callbacks r) (owner_active r) (stream_active r) (shutdown_started r)
    (total_updates r) (arb_opportunities r) (stream_generation r) (clock r) (resets_pending r).
Definition set_books (b : gmap string Orderbook) (s : gset string) (r : OrderbookRuntime) : OrderbookRuntime :=
  MkRuntime (config r) (websocket r) b s (markets r) (token_to_condition r)
    (subscribed_tokens r) (callbacks r) (owner_active r) (stream_active r) (shutdown_started r)
    (total_updates r) (arb_opportunities r) (stream_generation r) (clock r) (resets_pending r).
Definition set_markets (m : gmap string MarketState) (r : OrderbookRuntime) : OrderbookRuntime :=
  MkRuntime (config r) (websocket r) (orderbooks r) (snapshot_ready r) m (token_to_condition r)
    (subscribed_tokens r) (callbacks r) (owner_active r) (stream_active r) (shutdown_started r)
    (total_updates r) (arb_opportunities r) (stream_generation r) (clock r) (resets_pending r).
Definition set_subscriptions (t : gmap string string) (l : list string) (r : OrderbookRuntime) : OrderbookRuntime :=
  MkRuntime (config r) (websocket r) (orderbooks r) (snapshot_ready r) (markets r) t
    l (callbacks r) (owner_active r) (stream_active r) (shutdown_started r)
    (total_updates r) (arb_opportunities r) (stream_generation r) (clock r) (resets_pending r).
Definition set_callbacks (c : OrderbookCallbacks) (r : OrderbookRuntime) : OrderbookRuntime :=
  MkRuntime (config r) (websocket r) (orderbooks r) (snapshot_ready r) (markets r) (token_to_condition r)
    (subscribed_tokens r) c (owner_active r) (stream_active r) (shutdown_started r)
    (total_updates r) (arb_opportunities r) (stream_generation r) (clock r) (resets_pending r).
Definition set_owner (o s : bool) (r : OrderbookRuntime) : OrderbookRuntime :=
  MkRuntime (config r) (websocket r) (orderbooks r) (snapshot_ready r) (markets r) (token_to_condition r)
    (subscribed_tokens r) (callbacks r) o (stream_active r) s
    (total_updates r) (arb_opportunities r) (stream_generation r) (clock r) (resets_pending r).
Definition set_stream (a : bool) (g p : Z) (r : OrderbookRuntime) : OrderbookRuntime :=
  MkRuntime (config r) (websocket r) (orderbooks r) (snapshot_ready r) (markets r) (token_to_condition r)
    (subscribed_tokens r) (callbacks r) (owner_active r) a (shutdown_started r)
    (total_updates r) (arb_opportunities r) g (clock r) p.
Definition set_counts (t a : Z) (r : OrderbookRuntime) : OrderbookRuntime :=
  MkRuntime (config r) (websocket r) (orderbooks r) (snapshot_ready r) (markets r) (token_to_condition r)
    (subscribed_tokens r) (callbacks r) (owner_active r) (stream_active r) (shutdown_started r)
    t a (stream_generation r) (clock r) (resets_pending r).
Definition set_clock (c : Z) (r : OrderbookRuntime) : OrderbookRuntime :=
  MkRuntime (config r) (websocket r) (orderbooks r) (snapshot_ready r) (markets r) (token_to_condition r)
    (subscribed_tokens r) (callbacks r) (owner_active r) (stream_active r) (shutdown_started r)
    (total_updates r) (arb_opportunities r) (stream_generation r) c (resets_pending r).

(** ** Threads *)

Record StreamGenerationPermit := MkPermit {
  orderbook_generation : Z;
  websocket_generation : Z }.

(** What a section does outside the runtime's own state. *)
Inductive effect :=
  | send_update (tokens : list string) (subscribe : bool)
  | request_resnapshot (reason : string)
  | update_callback (asset_id : string) (book : Orderbook)
  | arb_callback (condition_id : string) (combined : double)
  | arb_snapshot_callback (market : MarketState) (combined : double)
  | arb_permit_callback (market : MarketState) (combined : double) (permit : StreamGenerationPermit).

(** How a section uses [subscriptions_mutex_]: not at all, taking it, or running
    on while the thread still holds it. *)
Inductive lock_use := no_lock | lock_subscriptions | keep_lock.

Inductive thread :=
  | finished
  | section (l : lock_use) (body : OrderbookRuntime → OrderbookRuntime * list effect * thread).

Fixpoint run_thread (t : thread) (r : OrderbookRuntime) : OrderbookRuntime * list effect :=
  match t with
  | finished => (r, [])
  | section _ body =>
      let '(r, effects, rest) := body r in
      let '(r, more) := run_thread rest r in
      (r, effects ++ more)
  end.

(** ** Operations *)

Definition stream_is_current (r : OrderbookRuntime) (orderbook_gen websocket_gen : Z) : bool :=
  owner_active r && stream_active r && (orderbook_gen =? stream_generation r) &&
  (websocket_gen =? ws_generation (websocket r)).

Definition is_stream_current (r : OrderbookRuntime) (permit : StreamGenerationPermit) : bool :=
  stream_is_current r (orderbook_generation permit) (websocket_generation permit).

(** The one subscription message for all tokens, when there are any. *)
Definition tracked_message (tokens : list string) : list (list string) :=
  match tokens with [] => [] | _ => [tokens] end.

Definition replace_subscriptions (messages : list (list string)) (r : OrderbookRuntime) :
    OrderbookRuntime :=
  set_websocket (MkWebsocket (ws_generation (websocket r)) (ws_connected (websocket r)) messages) r.

Definition set_connected (b : bool) (r : OrderbookRuntime) : OrderbookRuntime :=
  set_websocket (MkWebsocket (ws_generation (websocket r)) b (ws_subscriptions (websocket r))) r.

Definition send_failed : string := "subscription update send failed; resnapshot required".

(** [if (websocket_.is_connected() && !tokens.empty() && !websocket_.send(...))
    recover_failed_subscription_send(websocket_);] *)
Definition send_subscriptions (tokens : list string) (subscribe sent : bool)
    (r : OrderbookRuntime) : list effect :=
  if ws_connected (websocket r) && negb (bool_decide (tokens = [])) then
    send_update tokens subscribe :: (if sent then [] else [request_resnapshot send_failed])
  else [].

(** One token of the subscribe loop: the members and the added tokens. *)
Definition track_token (condition : string)
    (s : gmap string string * list string * list string) (token : string) :
    gmap string string * list string * list string :=
  let '(conditions, subscribed, added) := s in
  if bool_decide (token = "") || bool_decide (token ∈ subscribed) then s
  else (<[token := condition]> conditions, subscribed ++ [token], added ++ [token]).

Definition subscribe (market : MarketState) (sent : bool) (rest : thread) : thread :=
  section no_lock (λ r,
    if negb (owner_active r) then (r, [], rest) else
    (r, [], section no_lock (λ r,
      let live := LiveMarketState market in
      let live := reset_market_leg live (token_yes live) in
      let live := reset_market_leg live (token_no live) in
      (set_markets (<[condition_id market := live]> (markets r)) r, [],
       section lock_subscriptions (λ r,
         let '(conditions, subscribed, added) :=
           foldl (track_token (condition_id market))
             (token_to_condition r, subscribed_tokens r, [])
             [token_yes market; token_no market] in
         (replace_subscriptions (tracked_message subscribed)
            (set_subscriptions conditions subscribed r), [],
          section no_lock (λ r, (r, send_subscriptions added true sent r, rest)))))))).

Fixpoint subscribe_all (ms : list MarketState) (sent : bool) : thread :=
  match ms with
  | [] => finished
  | m :: ms' => subscribe m sent (subscribe_all ms' sent)
  end.

(** [subscribed_tokens_.erase(token)] of the first occurrence. *)
Fixpoint erase_token (token : string) (l : list string) : list string :=
  match l with
  | [] => []
  | x :: l' => if bool_decide (x = token) then l' else x :: erase_token token l'
  end.

Definition unsubscribe_market (condition token : string) : thread :=
  section no_lock (λ r,
    (set_markets (alter (λ m, reset_market_leg m token) condition (markets r)) r, [], finished)).

Definition unsubscribe (token : string) (sent : bool) : thread :=
  section no_lock (λ r,
    if negb (owner_active r) then (r, [], finished) else
    (r, [], section lock_subscriptions (λ r,
      let removed := bool_decide (token ∈ subscribed_tokens r) in
      let condition := default "" (token_to_condition r !! token) in
      let r' :=
        if removed
        then set_subscriptions (delete token (token_to_condition r))
               (erase_token token (subscribed_tokens r)) r
        else r in
      (replace_subscriptions (tracked_message (subscribed_tokens r')) r', [],
       section no_lock (λ r,
         (r, if removed then send_subscriptions [token] false sent r else [],
          section no_lock (λ r,
            (set_books (delete token (orderbooks r)) (snapshot_ready r ∖ {[token]}) r, [],
             if removed then unsubscribe_market condition token else finished)))))))).

Definition unsubscribe_all (sent : bool) : thread :=
  section no_lock (λ r,
    if negb (owner_active r) then (r, [], finished) else
    (r, [], section lock_subscriptions (λ r,
      let removed := subscribed_tokens r in
      (replace_subscriptions [] (set_subscriptions ∅ [] r), [],
       section no_lock (λ r,
         (r, send_subscriptions removed false sent r,
          section no_lock (λ r,
            (set_books ∅ ∅ r, [],
             section no_lock (λ r, (set_markets ∅ r, [], finished)))))))))).

(** [invalidate_cached_state]: the books, then the markets. *)
Definition invalidate_cached_state (p : Z) (rest : thread) : thread :=
  section no_lock (λ r,
    (set_books ∅ ∅ r, [],
     section no_lock (λ r,
       (set_markets (reset_market <$> markets r)
          (set_stream (stream_active r) (stream_generation r) (resets_pending r - p) r), [], rest)))).

Definition deactivate_stream (rest : thread) : thread :=
  section no_lock (λ r,
    let was_active := stream_active r in
    (set_stream false (stream_generation r) (resets_pending r + 1) r, [],
     if was_active then
       section no_lock (λ r,
         (set_stream (stream_active r) (u64 (stream_generation r + 1)) (resets_pending r) r, [],
          invalidate_cached_state 1 rest))
     else invalidate_cached_state 1 rest)).

Definition invalidate_stream_state : thread :=
  section no_lock (λ r,
    if negb (owner_active r) || negb (stream_active r) then (r, [], finished) else
    (r, [], section no_lock (λ r,
      (set_stream (stream_active r) (u64 (stream_generation r + 1)) (resets_pending r) r, [],
       invalidate_cached_state 0 finished)))).

(** [opened] is the answer of [websocket_.connect()] and the wait for it. *)
Definition connect (opened : bool) : thread :=
  section no_lock (λ r,
    if negb (owner_active r) then (r, [], finished) else
    (r, [], section no_lock (λ r,
      (set_stream true (stream_generation r) (resets_pending r) r, [],
       section no_lock (λ r,
         (set_connected opened r, [],
          if opened then finished else deactivate_stream finished)))))).

Definition disconnect : thread :=
  deactivate_stream (section no_lock (λ r, (set_connected false r, [], finished))).

Definition stop : thread := disconnect.

Definition shutdown : thread :=
  section no_lock (λ r,
    if shutdown_started r then (r, [], finished) else
    (set_owner (owner_active r) true r, [], section no_lock (λ r,
      (set_owner false (shutdown_started r) r, [],
       deactivate_stream
         (section no_lock (λ r,
            (set_callbacks no_callbacks r, [],
             section no_lock (λ r, (set_connected false r, [], finished))))))))).

Definition update_callbacks (update : OrderbookCallbacks → OrderbookCallbacks) : thread :=
  section no_lock (λ r,
    if negb (owner_active r) then (r, [], finished)
    else (set_callbacks (update (callbacks r)) r, [], finished)).

Definition on_orderbook_update (set : bool) : thread :=
  update_callbacks (λ c, MkOrderbookCallbacks set (on_arb c) (on_arb_snapshot c) (on_arb_permit c)).
Definition on_arb_opportunity (set : bool) : thread :=
  update_callbacks (λ c, MkOrderbookCallbacks (on_update c) set (on_arb_snapshot c) (on_arb_permit c)).
Definition on_arb_opportunity_snapshot (set : bool) : thread :=
  update_callbacks (λ c, MkOrderbookCallbacks (on_update c) (on_arb c) set (on_arb_permit c)).
Definition on_arb_opportunity_with_permit (set : bool) : thread :=
  update_callbacks (λ c, MkOrderbookCallbacks (on_update c) (on_arb c) (on_arb_snapshot c) set).

(** Reads. *)
Definition get_orderbook (r : OrderbookRuntime) (token : string) : option Orderbook :=
  orderbooks r !! token.
Definition get_market (r : OrderbookRuntime) (condition : string) : MarketState :=
  match markets r !! condition with
  | None => no_market
  | Some m => snapshot_market m
  end.
Definition is_connected (r : OrderbookRuntime) : bool :=
  owner_active r && ws_connected (websocket r).

(** ** Market messages *)

(** A message of the stream: empty or [PONG], one that mentions a tick size
    change, one the decoder rejects, or the items of a book message. *)
Inductive message :=
  | keep_alive
  | tick_message (asset_id new_tick : option string)
  | malformed (e : exn)
  | book_message (items : list MarketItem).

(** The market an update writes, by which of its tokens the event is for. *)
Definition quote_market (asset : string) (top : StreamBookTop) (received_ns : Z)
    (m : MarketState) : MarketState :=
  let m :=
    if bool_decide (asset = token_yes m) then store_yes (ask top) (ask_size top) received_ns m
    else if bool_decide (asset = token_no m) then store_no (ask top) (ask_size top) received_ns m
    else m in
  store_update received_ns ((update_count m + 1) mod 2 ^ 32) m.

(** The conditions under which an opportunity is reported. *)
Definition arb_test (c : Config) (now : Z) (m : MarketState) : bool :=
  negb (fle (best_ask_yes m) fzero || fle (best_ask_no m) fzero ||
        negb (has_fresh_arb_depth m now (max_book_age_ns c) (minimum_order_size m)) ||
        fle (trigger_combined c) (combined m)).

(** [dispatch_arb_callbacks]: each callback that is set, admitted again just
    before it runs. *)
Definition dispatch_arb_callbacks (condition : string) (snapshot : MarketState)
    (permit : StreamGenerationPermit) (cbs : OrderbookCallbacks) (rest : thread) : thread :=
  section no_lock (λ r,
    (r, if on_arb cbs && is_stream_current r permit
        then [arb_callback condition (combined snapshot)] else [],
     section no_lock (λ r,
       (r, if on_arb_snapshot cbs && is_stream_current r permit
           then [arb_snapshot_callback snapshot (combined snapshot)] else [],
        section no_lock (λ r,
          (r, if on_arb_permit cbs && is_stream_current r permit
              then [arb_permit_callback snapshot (combined snapshot) permit] else [],
           rest)))))).

Definition check_arb_opportunity (condition : string) (permit : StreamGenerationPermit)
    (rest : thread) : thread :=
  section no_lock (λ r,
    if negb (is_stream_current r permit) then (r, [], rest) else
    (r, [], section no_lock (λ r,
      match markets r !! condition with
      | None => (r, [], rest)
      | Some live =>
          let market := snapshot_market_prices live no_market in
          if negb (arb_test (config r) (clock r) market) then (r, [], rest) else
          let market := snapshot_market_identity live market in
          (r, [], section no_lock (λ r,
            if negb (is_stream_current r permit) then (r, [], rest) else
            (set_counts (total_updates r) (u64 (arb_opportunities r + 1)) r, [],
             section no_lock (λ r,
               (r, [], dispatch_arb_callbacks condition market permit (callbacks r) rest)))))
      end))).

Definition resnapshot_reason : string := "invalid market data; resnapshot required".

(** The [catch] of [handle_message]. *)
Definition invalid_message : thread :=
  section no_lock (λ r,
    (r, if owner_active r then [request_resnapshot resnapshot_reason] else [], finished)).

Section Updates.
Context `{StdSort}.

(** The last part of an update, outside the locks. *)
Definition publish_update (asset condition : string) (callback_book : option Orderbook)
    (permit : StreamGenerationPermit) (rest : thread) : thread :=
  section no_lock (λ r,
    (set_counts (u64 (total_updates r + 1)) (arb_opportunities r) r, [],
     section no_lock (λ r,
       (r, match callback_book with
           | Some book => if is_stream_current r permit then [update_callback asset book] else []
           | None => []
           end,
        section no_lock (λ r,
          (r, [], if is_stream_current r permit
                  then check_arb_opportunity condition permit rest else rest)))))).

(** The market section, still under [subscriptions_mutex_]. *)
Definition update_market (asset condition : string) (top : StreamBookTop)
    (callback_book : option Orderbook) (received_ns : Z) (permit : StreamGenerationPermit)
    (rest : thread) : thread :=
  section keep_lock (λ r,
    if negb (is_stream_current r permit) then (r, [], rest) else
    match markets r !! condition with
    | None => (r, [], rest)
    | Some m =>
        (set_markets (<[condition := quote_market asset top received_ns m]> (markets r)) r, [],
         publish_update asset condition callback_book permit rest)
    end).

(** The book section, under [subscriptions_mutex_] and [orderbooks_mutex_]. *)
Definition update_book (event : MarketBookEvent) (condition : string) (wants_book : bool)
    (received_ns : Z) (permit : StreamGenerationPermit) (rest : thread) : thread :=
  section keep_lock (λ r,
    let '(books, ready, applied) :=
      apply_stream_book_event (orderbooks r) (snapshot_ready r) event received_ns in
    let r := set_books books ready r in
    match applied with
    | Throw _ => (r, [], invalid_message)
    | Ok None => (r, [], rest)
    | Ok (Some top) =>
        if negb (is_stream_current r permit) then (r, [], rest) else
        (r, [], update_market (event_asset_id event) condition top
                  (if wants_book then books !! event_asset_id event else None)
                  received_ns permit rest)
    end).

Definition handle_orderbook_update (event : MarketBookEvent) (received_ns : Z)
    (permit : StreamGenerationPermit) (rest : thread) : thread :=
  section no_lock (λ r,
    if negb (is_stream_current r permit) then (r, [], rest) else
    let cbs := callbacks r in
    (r, [], section lock_subscriptions (λ r,
      if negb (is_stream_current r permit) then (r, [], rest) else
      match token_to_condition r !! event_asset_id event with
      | None => (r, [], rest)
      | Some condition =>
          (r, [], update_book event condition (on_update cbs) received_ns permit rest)
      end))).

Fixpoint handle_events (events : list MarketBookEvent) (received_ns : Z)
    (permit : StreamGenerationPermit) : thread :=
  match events with
  | [] => finished
  | event :: events' =>
      handle_orderbook_update event received_ns permit (handle_events events' received_ns permit)
  end.

Definition handle_tick (tick : MarketTickSizeChange) (permit : StreamGenerationPermit) : thread :=
  section lock_subscriptions (λ r,
    match token_to_condition r !! tick_asset_id tick with
    | None => (r, [], finished)
    | Some condition =>
        (r, [], section no_lock (λ r,
          if negb (is_stream_current r permit) then (r, [], finished) else
          (set_markets (alter (store_tick (new_tick_size tick)) condition (markets r)) r, [],
           finished)))
    end).

Definition handle_message (m : message) (websocket_gen : Z) : thread :=
  section no_lock (λ r,
    let permit := MkPermit (stream_generation r) websocket_gen in
    if negb (is_stream_current r permit) then (r, [], finished) else
    match m with
    | keep_alive => (r, [], finished)
    | malformed _ => (r, [], invalid_message)
    | tick_message asset_id new_tick =>
        (r, [], match parse_market_tick_size_change asset_id new_tick with
                | None => finished
                | Some tick => handle_tick tick permit
                end)
    | book_message items =>
        (r, [], match parse_market_book_events items with
                | Throw _ => invalid_message
                | Ok events => handle_events events (clock r) permit
                end)
    end).
End Updates.

(** ** Calls and interleavings *)

Inductive call :=
  | call_subscribe (ms : list MarketState) (sent : bool)
  | call_unsubscribe (token : string) (sent : bool)
  | call_unsubscribe_all (sent : bool)
  | call_on_update (set : bool)
  | call_on_arb (set : bool)
  | call_on_arb_snapshot (set : bool)
  | call_on_arb_permit (set : bool)
  | call_connect (opened : bool)
  | call_disconnect
  | call_stop
  | call_shutdown
  | stream_gap
  | stream_message (m : message) (websocket_gen : Z).

Record system := MkSystem {
  runtime : OrderbookRuntime;
  holder : option nat;  (** the thread that holds [subscriptions_mutex_] *)
  threads : list thread }.

Definition initial_system (c : Config) : system := MkSystem (initial_runtime c) None [].

Definition can_run (l : lock_use) (i : nat) (h : option nat) : Prop :=
  match l with
  | no_lock => True
  | lock_subscriptions => h = None
  | keep_lock => h = Some i
  end.

(** A thread that has the mutex keeps it while its next section needs it. *)
Definition holder_after (l : lock_use) (i : nat) (rest : thread) (h : option nat) : option nat :=
  match l with
  | no_lock => h
  | _ => match rest with section keep_lock _ => Some i | _ => None end
  end.

Section Steps.
Context `{StdSort}.

Definition call_thread (c : call) : thread :=
  match c with
  | call_subscribe ms sent => subscribe_all ms sent
  | call_unsubscribe token sent => unsubscribe token sent
  | call_unsubscribe_all sent => unsubscribe_all sent
  | call_on_update set => on_orderbook_update set
  | call_on_arb set => on_arb_opportunity set
  | call_on_arb_snapshot set => on_arb_opportunity_snapshot set
  | call_on_arb_permit set => on_arb_opportunity_with_permit set
  | call_connect opened => connect opened
  | call_disconnect => disconnect
  | call_stop => stop
  | call_shutdown => shutdown
  | stream_gap => invalidate_stream_state
  | stream_message m websocket_gen => handle_message m websocket_gen
  end.

Inductive step : system → list effect → system → Prop :=
  | step_call s c :
      step s [] (MkSystem (runtime s) (holder s) (threads s ++ [call_thread c]))
  | step_section s i l body r effects rest :
      threads s !! i = Some (section l body) →
      can_run l i (holder s) →
      body (runtime s) = (r, effects, rest) →
      step s effects (MkSystem r (holder_after l i rest (holder s)) (<[i := rest]> (threads s)))
  | step_clock s now :
      clock (runtime s) ≤ now →
      step s [] (MkSystem (set_clock now (runtime s)) (holder s) (threads s))
  | step_websocket s gen connected :
      step s [] (MkSystem
        (set_websocket (MkWebsocket gen connected (ws_subscriptions (websocket (runtime s))))
           (runtime s)) (holder s) (threads s)).

Inductive reachable (c : Config) : system → Prop :=
  | reachable_initial : reachable c (initial_system c)
  | reachable_step s effects s' :
      reachable c s → step s effects s' → reachable c s'.
End Steps.

(** ** The invariant of every interleaving *)

(** A market with two different tokens quotes nothing. *)
Definition quiet (m : MarketState) : Prop :=
  token_yes m ≠ token_no m →
  best_ask_yes m = fzero ∧ best_ask_yes_size m = fzero ∧ last_update_yes_ns m = 0 ∧
  best_ask_no m = fzero ∧ best_ask_no_size m = fzero ∧ last_update_no_ns m = 0.

Definition all_quiet (ms : gmap string MarketState) : Prop := map_Forall (λ _ m, quiet m) ms.

Record subscriptions_ok (r : OrderbookRuntime) : Prop := {
  subscribed_nodup : NoDup (subscribed_tokens r);
  subscribed_nonempty : "" ∉ subscribed_tokens r;
  subscribed_mapped t : (t ∈ subscribed_tokens r) ↔ is_Some (token_to_condition r !! t);
  subscribed_tracked : ws_subscriptions (websocket r) = tracked_message (subscribed_tokens r) }.

Record runtime_ok (c : Config) (r : OrderbookRuntime) : Prop := {
  ok_config : config r = c;
  ok_books : books_ok (orderbooks r) (snapshot_ready r);
  ok_subscriptions : subscriptions_ok r;
  ok_pending : 0 ≤ resets_pending r;
  ok_quiet : stream_active r = false → resets_pending r = 0 → all_quiet (markets r) }.

(** What an effect may be, in the state it happens in. *)
Definition effect_ok (c : Config) (r : OrderbookRuntime) (e : effect) : Prop :=
  match e with
  | update_callback asset book =>
      owner_active r = true ∧ stream_active r = true ∧ book_ok book ∧ asset_id book = asset
  | arb_callback _ _ => owner_active r = true ∧ stream_active r = true
  | arb_snapshot_callback m v =>
      owner_active r = true ∧ stream_active r = true ∧ v = combined m ∧
      ∃ now, arb_test c now m = true
  | arb_permit_callback m v permit =>
      is_stream_current r permit = true ∧ v = combined m ∧ ∃ now, arb_test c now m = true
  | _ => True
  end.

Lemma reset_market_leg_tokens m t :
  token_yes (reset_market_leg m t) = token_yes m ∧ token_no (reset_market_leg m t) = token_no m.
Proof. unfold reset_market_leg. by repeat case_if. Qed.

Lemma reset_market_quiet m : quiet (reset_market m).
Proof.
  unfold quiet, reset_market, reset_market_leg. destruct m; cbn. repeat case_if; cbn; bools; done.
Qed.

Lemma reset_leg_quiet m t : quiet m → quiet (reset_market_leg m t).
Proof.
  unfold quiet. intros Hq Hne. destruct (reset_market_leg_tokens m t) as [Hy Hn].
  rewrite Hy, Hn in Hne. specialize (Hq Hne). unfold reset_market_leg.
  repeat case_if; cbn; tauto.
Qed.

Lemma quiet_markets_insert k m ms : quiet m → all_quiet ms → all_quiet (<[k := m]> ms).
Proof. intros. by apply map_Forall_insert_2. Qed.

Lemma quiet_markets_alter f k ms :
  (∀ m, quiet m → quiet (f m)) → all_quiet ms → all_quiet (alter f k ms).
Proof.
  intros Hf Hms i m Hi. apply lookup_alter_Some in Hi as [(-> & m' & Hm' & ->)|[_ Hi]].
  - by apply Hf, (Hms _ _ Hm').
  - by apply (Hms _ _ Hi).
Qed.

Section Invariant.
Context `{StdSort} (c : Config).

(** [t], with [n] resets of the markets outstanding, keeps the invariant in any
    state it may meet and ends with none outstanding. *)
Fixpoint thread_ok (n : Z) (t : thread) : Prop :=
  0 ≤ n ∧
  match t with
  | finished => n = 0
  | section _ body => ∀ r, runtime_ok c r → n ≤ resets_pending r →
      let '(r', effects, rest) := body r in
      runtime_ok c r' ∧ Forall (effect_ok c r) effects ∧
      thread_ok (n + (resets_pending r' - resets_pending r)) rest
  end.

Definition section_post (n : Z) (r : OrderbookRuntime)
    (out : OrderbookRuntime * list effect * thread) : Prop :=
  let '(r', effects, rest) := out in
  runtime_ok c r' ∧ resets_pending r' = resets_pending r ∧
  Forall (effect_ok c r) effects ∧ thread_ok n rest.

(** The rule for sections that leave the number of outstanding resets alone. *)
Lemma section_ok n l body :
  0 ≤ n → (∀ r, runtime_ok c r → section_post n r (body r)) → thread_ok n (section l body).
Proof.
  intros Hn Hb. split; [done|]. intros r Hr _. specialize (Hb r Hr).
  destruct (body r) as [[r' effects] rest]. destruct Hb as (? & -> & ? & ?).
  split_and!; [done..|]. by replace (_ + _) with n by lia.
Qed.

Lemma post_same n r effects rest :
  runtime_ok c r → Forall (effect_ok c r) effects → thread_ok n rest →
  section_post n r (r, effects, rest).
Proof. intros. unfold section_post. by split_and!. Qed.

Lemma post_silent n r r' rest :
  runtime_ok c r' → resets_pending r' = resets_pending r → thread_ok n rest →
  section_post n r (r', [], rest).
Proof. intros. unfold section_post. by split_and!. Qed.

Lemma thread_ok_nonneg n t : thread_ok n t → 0 ≤ n.
Proof. destruct t; by intros []. Qed.

Lemma finished_ok : thread_ok 0 finished.
Proof. by split. Qed.

(** Stores that touch no part of the invariant. *)
Ltac keep_ok :=
  intros [? ? [] ? ?]; constructor; cbn; [done|done|constructor; cbn; done|done|done].

Lemma ok_set_callbacks cbs r : runtime_ok c r → runtime_ok c (set_callbacks cbs r).
Proof. keep_ok. Qed.
Lemma ok_set_owner o s r : runtime_ok c r → runtime_ok c (set_owner o s r).
Proof. keep_ok. Qed.
Lemma ok_set_counts t a r : runtime_ok c r → runtime_ok c (set_counts t a r).
Proof. keep_ok. Qed.
Lemma ok_set_clock t r : runtime_ok c r → runtime_ok c (set_clock t r).
Proof. keep_ok. Qed.
Lemma ok_set_generation g r :
  runtime_ok c r → runtime_ok c (set_stream (stream_active r) g (resets_pending r) r).
Proof. keep_ok. Qed.
Lemma ok_set_websocket g b r :
  runtime_ok c r →
  runtime_ok c (set_websocket (MkWebsocket g b (ws_subscriptions (websocket r))) r).
Proof. keep_ok. Qed.
Lemma ok_activate r :
  runtime_ok c r → runtime_ok c (set_stream true (stream_generation r) (resets_pending r) r).
Proof. keep_ok. Qed.

Lemma ok_set_books b s r :
  books_ok b s → runtime_ok c r → runtime_ok c (set_books b s r).
Proof. intros ?. keep_ok. Qed.

Lemma ok_set_markets ms r :
  (stream_active r = false → resets_pending r = 0 → all_quiet ms) →
  runtime_ok c r → runtime_ok c (set_markets ms r).
Proof. intros ?. keep_ok. Qed.

Lemma books_ok_empty : books_ok ∅ ∅.
Proof. split; [by apply map_Forall_empty|set_solver]. Qed.

(** ** Lifecycle *)

Lemma invalidate_ok n p rest :
  0 ≤ n → 0 ≤ p → thread_ok n rest → thread_ok (n + p) (invalidate_cached_state p rest).
Proof.
  intros Hn Hp Hrest. apply section_ok; [lia|]. intros r Hr.
  apply post_silent; [by apply ok_set_books; [apply books_ok_empty|]|done|].
  split; [lia|]. intros r2 [? ? [] ? ?] Hle. cbn. split_and!; [|done|].
  - constructor; cbn; [done|done|by constructor|lia|].
    intros _ _ k m Hm. apply lookup_fmap_Some in Hm as (m' & <- & _). apply reset_market_quiet.
  - by replace (_ + _) with n by lia.
Qed.

Lemma deactivate_ok n rest : thread_ok n rest → thread_ok n (deactivate_stream rest).
Proof.
  intros Hrest. pose proof (thread_ok_nonneg _ _ Hrest) as Hn. split; [done|].
  intros r [? ? [] ? ?] _. cbn. split_and!; [|done|].
  { constructor; cbn; [done|done|by constructor|lia|lia]. }
  replace (n + _) with (n + 1) by lia. case_if; [|by apply invalidate_ok].
  apply section_ok; [lia|]. intros r2 Hr2.
  apply post_silent; [by apply ok_set_generation|done|by apply invalidate_ok].
Qed.

Lemma gap_ok : thread_ok 0 invalidate_stream_state.
Proof.
  apply section_ok; [done|]. intros r Hr. case_if; [by apply post_same|].
  apply post_same; [done..|]. apply section_ok; [done|]. intros r2 Hr2.
  apply post_silent; [by apply ok_set_generation|done|].
  by apply (invalidate_ok 0 0); [..|apply finished_ok].
Qed.

(** A section that only changes the connection. *)
Lemma connected_ok n b rest :
  thread_ok n rest → thread_ok n (section no_lock (λ r, (set_connected b r, [], rest))).
Proof.
  intros Hrest. apply section_ok; [by eapply thread_ok_nonneg|]. intros r Hr.
  by apply post_silent; [apply ok_set_websocket| |].
Qed.

Lemma disconnect_ok : thread_ok 0 disconnect.
Proof. apply deactivate_ok, connected_ok, finished_ok. Qed.

Lemma connect_ok opened : thread_ok 0 (connect opened).
Proof.
  apply section_ok; [done|]. intros r Hr. case_if; [by apply post_same|].
  apply post_same; [done..|]. apply section_ok; [done|]. intros r2 Hr2.
  apply post_silent; [by apply ok_activate|done|]. apply connected_ok.
  case_if; [apply finished_ok|apply deactivate_ok, finished_ok].
Qed.

Lemma shutdown_ok : thread_ok 0 shutdown.
Proof.
  apply section_ok; [done|]. intros r Hr. case_if; [by apply post_same|].
  apply post_silent; [by apply ok_set_owner|done|]. apply section_ok; [done|]. intros r2 Hr2.
  apply post_silent; [by apply ok_set_owner|done|]. apply deactivate_ok, section_ok; [done|].
  intros r3 Hr3. apply post_silent; [by apply ok_set_callbacks|done|].
  apply connected_ok, finished_ok.
Qed.

Lemma update_callbacks_ok f : thread_ok 0 (update_callbacks f).
Proof.
  apply section_ok; [done|]. intros r Hr.
  case_if; [by apply post_same|by apply post_silent; [apply ok_set_callbacks| |]].
Qed.

(** ** Subscriptions *)

Definition tracked_ok (conditions : gmap string string) (subscribed : list string) : Prop :=
  NoDup subscribed ∧ ("" ∉ subscribed) ∧
  (∀ t, (t ∈ subscribed) ↔ is_Some (conditions !! t)).

Lemma ok_set_subscriptions conditions subscribed r :
  tracked_ok conditions subscribed → runtime_ok c r →
  runtime_ok c (replace_subscriptions (tracked_message subscribed)
                  (set_subscriptions conditions subscribed r)).
Proof. intros (? & ? & ?) [? ? [] ? ?]. by constructor; cbn. Qed.

Lemma track_token_ok cond s tok :
  tracked_ok s.1.1 s.1.2 → tracked_ok (track_token cond s tok).1.1 (track_token cond s tok).1.2.
Proof.
  destruct s as [[conds subs] added]. intros (Hnd & Hne & Hmap). cbn. case_if; [done|]. bools.
  split_and!; cbn; [apply NoDup_app; split_and!; [done|set_solver|apply NoDup_singleton]|set_solver|].
  intros t. rewrite elem_of_app, Hmap, list_elem_of_singleton.
  destruct (decide (t = tok)) as [->|]; [rewrite lookup_insert_eq|rewrite lookup_insert_ne by done];
    naive_solver.
Qed.

Lemma erase_token_elem tok l t :
  NoDup l → (t ∈ erase_token tok l) ↔ (t ∈ l ∧ t ≠ tok).
Proof.
  induction 1 as [|x l Hx _ IH]; cbn; [set_solver|]. case_if; bools; [subst|]; set_solver.
Qed.

Lemma erase_token_nodup tok l : NoDup l → NoDup (erase_token tok l).
Proof.
  induction 1 as [|x l Hx Hl IH]; cbn; [constructor|]. case_if; [done|].
  constructor; [|done]. rewrite erase_token_elem by done. tauto.
Qed.

Lemma tracked_erase conds l tok :
  tracked_ok conds l → tracked_ok (delete tok conds) (erase_token tok l).
Proof.
  intros (Hnd & Hne & Hmap). split_and!; [by apply erase_token_nodup| |].
  - rewrite erase_token_elem by done. tauto.
  - intros t. rewrite erase_token_elem, lookup_delete_is_Some, Hmap by done. naive_solver.
Qed.

Lemma runtime_tracked r : runtime_ok c r → tracked_ok (token_to_condition r) (subscribed_tokens r).
Proof. by intros [? ? [] ? ?]. Qed.

Lemma send_subscriptions_ok tokens subscribe sent r :
  Forall (effect_ok c r) (send_subscriptions tokens subscribe sent r).
Proof. unfold send_subscriptions. case_if; repeat constructor. case_if; repeat constructor. Qed.

Lemma subscribe_ok n m sent rest : thread_ok n rest → thread_ok n (subscribe m sent rest).
Proof.
  intros Hrest. pose proof (thread_ok_nonneg _ _ Hrest) as Hn.
  apply section_ok; [done|]. intros r Hr. case_if; [by apply post_same|].
  apply post_same; [done..|]. apply section_ok; [done|]. intros r2 Hr2.
  apply post_silent; [|done|].
  { apply ok_set_markets; [|done]. intros Ha Hp.
    apply quiet_markets_insert; [|by apply (ok_quiet _ _ Hr2)].
    rewrite (proj2 (reset_market_leg_tokens _ _)). apply reset_market_quiet. }
  apply section_ok; [done|]. intros r3 Hr3.
  assert (Ht : tracked_ok (token_to_condition r3, subscribed_tokens r3, @nil string).1.1
             (token_to_condition r3, subscribed_tokens r3, @nil string).1.2)
    by (by apply runtime_tracked).
  apply (track_token_ok (condition_id m) _ (token_yes m)) in Ht.
  apply (track_token_ok (condition_id m) _ (token_no m)) in Ht. cbn [foldl].
  destruct (track_token _ _ (token_no m)) as [[conds subs] added].
  apply post_silent; [by apply ok_set_subscriptions|done|].
  apply section_ok; [done|]. intros r4 Hr4.
  apply post_same; [done|apply send_subscriptions_ok|done].
Qed.

Lemma subscribe_all_ok ms sent : thread_ok 0 (subscribe_all ms sent).
Proof. induction ms; [apply finished_ok|by apply subscribe_ok]. Qed.

Lemma books_ok_delete b s tok : books_ok b s → books_ok (delete tok b) (s ∖ {[tok]}).
Proof.
  intros [Hb Hs]. split; [by apply map_Forall_delete|]. intros t Ht.
  apply lookup_delete_is_Some. split; [set_solver|]. apply Hs. set_solver.
Qed.

Lemma unsubscribe_ok tok sent : thread_ok 0 (unsubscribe tok sent).
Proof.
  apply section_ok; [done|]. intros r Hr. case_if; [by apply post_same|].
  apply post_same; [done..|]. apply section_ok; [done|]. intros r2 Hr2.
  pose proof (runtime_tracked _ Hr2) as Ht2.
  apply post_silent; [|by case_if|].
  { case_if; [by apply ok_set_subscriptions; [apply tracked_erase|]|].
    destruct Hr2 as [? ? [] ? ?]. by constructor; cbn. }
  apply section_ok; [done|]. intros r3 Hr3.
  apply post_same; [done|case_if; [apply send_subscriptions_ok|constructor]|].
  apply section_ok; [done|]. intros r4 Hr4.
  apply post_silent; [apply ok_set_books; [apply books_ok_delete, Hr4|done]|done|].
  case_if; [|apply finished_ok]. apply section_ok; [done|]. intros r5 Hr5.
  apply post_silent; [|done|apply finished_ok]. apply ok_set_markets; [|done]. intros Ha Hp.
  apply quiet_markets_alter; [intros; by apply reset_leg_quiet|by apply (ok_quiet _ _ Hr5)].
Qed.

Lemma unsubscribe_all_ok sent : thread_ok 0 (unsubscribe_all sent).
Proof.
  apply section_ok; [done|]. intros r Hr. case_if; [by apply post_same|].
  apply post_same; [done..|]. apply section_ok; [done|]. intros r2 Hr2.
  apply post_silent; [|done|].
  { apply (ok_set_subscriptions ∅ []); [|done]. split_and!; [constructor|set_solver|].
    intros t. rewrite lookup_empty. split; [set_solver|]. by intros []. }
  apply section_ok; [done|]. intros r3 Hr3.
  apply post_same; [done|apply send_subscriptions_ok|].
  apply section_ok; [done|]. intros r4 Hr4.
  apply post_silent; [apply ok_set_books; [apply books_ok_empty|done]|done|].
  apply section_ok; [done|]. intros r5 Hr5.
  apply post_silent; [|done|apply finished_ok]. apply ok_set_markets; [|done]. intros _ _ k m Hm.
  by rewrite lookup_empty in Hm.
Qed.

(** ** Updates *)

Lemma is_current_active r permit :
  is_stream_current r permit = true → owner_active r = true ∧ stream_active r = true.
Proof. unfold is_stream_current, stream_is_current. intros. by bools. Qed.

Lemma store_tick_quiet tick m : quiet m → quiet (store_tick tick m).
Proof. done. Qed.

Lemma invalid_message_ok : thread_ok 0 invalid_message.
Proof.
  apply section_ok; [done|]. intros r Hr. apply post_same; [done| |apply finished_ok].
  case_if; repeat constructor.
Qed.

Lemma dispatch_ok n condition m now permit cbs rest :
  arb_test c now m = true → thread_ok n rest →
  thread_ok n (dispatch_arb_callbacks condition m permit cbs rest).
Proof.
  intros Hm Hrest. pose proof (thread_ok_nonneg _ _ Hrest) as Hn.
  assert (Hc : ∀ r, is_stream_current r permit = true →
            owner_active r = true ∧ stream_active r = true) by (intros r; apply is_current_active).
  do 3 (apply section_ok; [done|]; intros ? ?; apply post_same; [done| |];
    [case_if; [bools; apply Forall_singleton; cbn; naive_solver|constructor]|]).
  done.
Qed.

Lemma check_arb_ok n condition permit rest :
  thread_ok n rest → thread_ok n (check_arb_opportunity condition permit rest).
Proof.
  intros Hrest. pose proof (thread_ok_nonneg _ _ Hrest) as Hn.
  apply section_ok; [done|]. intros r Hr. case_if; [by apply post_same|].
  apply post_same; [done..|]. apply section_ok; [done|]. intros r2 Hr2.
  destruct (markets r2 !! condition) as [live|]; [|by apply post_same]. cbv zeta.
  case_if; [by apply post_same|]. rewrite (ok_config _ _ Hr2) in *. bools.
  apply post_same; [done..|]. apply section_ok; [done|]. intros r3 Hr3.
  case_if; [by apply post_same|].
  apply post_silent; [by apply ok_set_counts|done|]. apply section_ok; [done|]. intros r4 Hr4.
  apply post_same; [done..|]. by apply (dispatch_ok _ _ _ (clock r2)).
Qed.

Lemma publish_ok n asset condition book permit rest :
  (∀ b, book = Some b → book_ok b ∧ asset_id b = asset) → thread_ok n rest →
  thread_ok n (publish_update asset condition book permit rest).
Proof.
  intros Hb Hrest. pose proof (thread_ok_nonneg _ _ Hrest) as Hn.
  apply section_ok; [done|]. intros r Hr.
  apply post_silent; [by apply ok_set_counts|done|]. apply section_ok; [done|]. intros r2 Hr2.
  apply post_same; [done| |].
  { destruct book as [b|]; [|constructor]. destruct (is_stream_current r2 permit) eqn:E; [|constructor].
    apply Forall_singleton. cbn. apply is_current_active in E as [? ?]. destruct (Hb b eq_refl). auto. }
  apply section_ok; [done|]. intros r3 Hr3. apply post_same; [done..|].
  case_if; [by apply check_arb_ok|done].
Qed.

Lemma update_market_ok n asset condition top book t permit rest :
  (∀ b, book = Some b → book_ok b ∧ asset_id b = asset) → thread_ok n rest →
  thread_ok n (update_market asset condition top book t permit rest).
Proof.
  intros Hb Hrest. pose proof (thread_ok_nonneg _ _ Hrest) as Hn.
  apply section_ok; [done|]. intros r Hr. case_if; [by apply post_same|]. bools.
  destruct (markets r !! condition) as [m|]; [|by apply post_same].
  apply post_silent; [|done|by apply publish_ok]. apply ok_set_markets; [|done].
  intros Ha. apply is_current_active in Heqb as [_ ?]. congruence.
Qed.

Lemma update_book_ok n e condition wants t permit rest :
  n = 0 → event_ok e → thread_ok n rest →
  thread_ok n (update_book e condition wants t permit rest).
Proof.
  intros -> He Hrest. apply section_ok; [done|]. intros r Hr.
  destruct (stream_event_effect _ _ e t (ok_books _ _ Hr) He)
    as [(-> & _ & _)|(b & ready & -> & _ & Hok)].
  { apply post_silent; [|done..]. apply ok_set_books; [apply Hr|done]. }
  assert (Hr' : runtime_ok c (set_books (<[event_asset_id e := b]> (orderbooks r)) ready r))
    by (by apply ok_set_books).
  cbv beta iota zeta.
  destruct (is_stream_current (set_books (<[event_asset_id e := b]> (orderbooks r)) ready r) permit);
    [|by apply post_silent]. apply post_silent; [done..|].
  apply update_market_ok; [|done]. intros b' Hb'. destruct wants; [|done].
  rewrite lookup_insert_eq in Hb'. injection Hb' as <-.
  destruct Hok as [Hbs _]. apply (Hbs _ _ (lookup_insert_eq _ _ _)).
Qed.

Lemma handle_events_ok es t permit :
  Forall event_ok es → thread_ok 0 (handle_events es t permit).
Proof.
  induction 1 as [|e es He _ IH]; [apply finished_ok|].
  apply section_ok; [done|]. intros r Hr. case_if; [by apply post_same|].
  apply post_same; [done..|]. apply section_ok; [done|]. intros r2 Hr2.
  case_if; [by apply post_same|].
  destruct (_ !! _); apply post_same; try done. by apply update_book_ok.
Qed.

Lemma handle_message_ok m g : thread_ok 0 (handle_message m g).
Proof.
  apply section_ok; [done|]. intros r Hr. cbv zeta. case_if; [by apply post_same|].
  destruct m as [|a k|e|items]; apply post_same; try done.
  - destruct (parse_market_tick_size_change a k) as [tick|]; [|apply finished_ok].
    apply section_ok; [done|]. intros r2 Hr2. destruct (_ !! _); [|by apply post_same].
    apply post_same; [done..|]. apply section_ok; [done|]. intros r3 Hr3.
    case_if; [by apply post_same|]. apply post_silent; [|done|apply finished_ok].
    apply ok_set_markets; [|done]. intros Ha Hp.
    apply quiet_markets_alter; [intros; by apply store_tick_quiet|by apply (ok_quiet _ _ Hr3)].
  - apply invalid_message_ok.
  - destruct (parse_market_book_events items) eqn:E; [|apply invalid_message_ok].
    apply handle_events_ok. by eapply parsed_events_ok.
Qed.

Lemma call_thread_ok k : thread_ok 0 (call_thread k).
Proof.
  destruct k; first [apply subscribe_all_ok|apply unsubscribe_ok|apply unsubscribe_all_ok
    |apply update_callbacks_ok|apply connect_ok|apply disconnect_ok|apply shutdown_ok|apply gap_ok
    |apply handle_message_ok].
Qed.

(** ** Interleavings *)

(** The outstanding resets are those the threads account for. *)
Definition system_ok (s : system) : Prop :=
  runtime_ok c (runtime s) ∧
  ∃ ns, Forall2 thread_ok ns (threads s) ∧ foldr Z.add 0 ns = resets_pending (runtime s).

Lemma total_nonneg ns ts : Forall2 thread_ok ns ts → 0 ≤ foldr Z.add 0 ns.
Proof. induction 1 as [|n t ns ts Ht _ IH]; cbn; [lia|]. apply thread_ok_nonneg in Ht. lia. Qed.

Lemma run_pool ns ts i l body r :
  Forall2 thread_ok ns ts → ts !! i = Some (section l body) → runtime_ok c r →
  foldr Z.add 0 ns ≤ resets_pending r →
  let '(r', effects, rest) := body r in
  runtime_ok c r' ∧ Forall (effect_ok c r) effects ∧
  ∃ ns', Forall2 thread_ok ns' (<[i := rest]> ts) ∧
    foldr Z.add 0 ns' = foldr Z.add 0 ns + (resets_pending r' - resets_pending r).
Proof.
  intros Hts. revert i. induction Hts as [|n t ns ts Ht Hts IH]; intros i Hi Hr Hle; [done|].
  pose proof (total_nonneg _ _ Hts) as Hns. pose proof (thread_ok_nonneg _ _ Ht) as Hn.
  cbn in Hle. destruct i as [|i]; cbn in Hi.
  - injection Hi as ->. destruct Ht as [_ Ht]. specialize (Ht r Hr ltac:(lia)).
    destruct (body r) as [[r' effects] rest]. destruct Ht as (? & ? & ?). split_and!; [done..|].
    eexists. split; [by constructor|]. cbn. lia.
  - specialize (IH i Hi Hr ltac:(lia)). destruct (body r) as [[r' effects] rest].
    destruct IH as (? & ? & ns' & ? & Hsum). split_and!; [done..|].
    exists (n :: ns'). split; [by constructor|]. cbn. lia.
Qed.

Lemma step_ok s effects s' :
  system_ok s → step s effects s' → system_ok s' ∧ Forall (effect_ok c (runtime s)) effects.
Proof.
  intros (Hr & ns & Hts & Hsum) Hstep.
  inversion Hstep as [? k|? i l body r ef rest Hi Hrun Hb|? now|? gen conn]; subst; cbn in *.
  - split; [|constructor]. split; [done|]. exists (ns ++ [0]). cbn. split.
    + apply Forall2_app; [done|]. constructor; [apply call_thread_ok|constructor].
    + rewrite foldr_app. cbn. done.
  - pose proof (run_pool ns (threads s) i l body _ Hts Hi Hr ltac:(lia)) as Hp. rewrite Hb in Hp.
    destruct Hp as (? & ? & ns' & ? & ?). split; [|done]. split; [done|]. exists ns'.
    split; [done|]. cbn. lia.
  - split; [|constructor]. split; [by apply ok_set_clock|]. by exists ns.
  - split; [|constructor]. split; [by apply ok_set_websocket|]. by exists ns.
Qed.

Lemma initial_ok : system_ok (initial_system c).
Proof.
  split; [|by exists []]. constructor; cbn; [done|apply books_ok_empty| |done|done].
  constructor; cbn; [constructor|set_solver| |done].
  intros t. rewrite lookup_empty. split; [set_solver|]. by intros [].
Qed.

Lemma reachable_ok s : reachable c s → system_ok s.
Proof. induction 1; [apply initial_ok|by eapply step_ok]. Qed.

(** C9: in every interleaving of calls, stream messages, gaps and lifecycle
    operations, every cached book is strictly sorted with valid levels and filed
    under its own asset, an asset counts as having a snapshot only if its book is
    cached, and the token index, the list of subscribed tokens and the
    subscription message tracked for reconnects agree with one another. *)
Theorem runtime_invariant s :
  reachable c s →
  books_ok (orderbooks (runtime s)) (snapshot_ready (runtime s)) ∧
  subscriptions_ok (runtime s).
Proof. by intros [[] _]%reachable_ok. Qed.

Lemma arb_test_spec now m :
  arb_test c now m = true →
  flt fzero (best_ask_yes m) = true ∧ flt (best_ask_yes m) fone = true ∧
  flt fzero (best_ask_no m) = true ∧ flt (best_ask_no m) fone = true ∧
  fle (trigger_combined c) (combined m) = false ∧
  flt (best_ask_yes_size m) (minimum_order_size m) = false ∧
  flt (best_ask_no_size m) (minimum_order_size m) = false ∧
  last_update_yes_ns m ≤ now ≤ last_update_yes_ns m + max_book_age_ns c ∧
  last_update_no_ns m ≤ now ≤ last_update_no_ns m + max_book_age_ns c.
Proof.
  unfold arb_test. rewrite negb_true_iff, !orb_false_iff, negb_false_iff.
  intros [[[Hy Hn] Hd] Hc]. unfold has_fresh_arb_depth in Hd. case_if; [done|].
  unfold fresh in Hd. bools.
  split_and!; try done; try lia; apply nle_flt; done.
Qed.


Lemma finished_pending ns ts :
  Forall2 thread_ok ns ts → Forall (λ t, t = finished) ts → foldr Z.add 0 ns = 0.
Proof.
  induction 1 as [|n t ns ts Ht _ IH]; intros Hf; [done|]. apply Forall_cons in Hf as [-> Hf'].
  destruct Ht as [_ ->]. cbn. rewrite IH by done. done.
Qed.

(** C8: after the stream has been deactivated, by [disconnect], [stop],
    [shutdown] or a failed [connect], and whatever updates were in flight
    meanwhile, no tracked market quotes anything once the calls have returned:
    both legs of every market are zero, with no update time. *)
Theorem deactivation_clears_quotes s condition m :
  reachable c s → stream_active (runtime s) = false →
  Forall (λ t, t = finished) (threads s) →
  markets (runtime s) !! condition = Some m → token_yes m ≠ token_no m →
  best_ask_yes (get_market (runtime s) condition) = fzero ∧
  best_ask_no (get_market (runtime s) condition) = fzero ∧
  best_ask_yes_size (get_market (runtime s) condition) = fzero ∧
  best_ask_no_size (get_market (runtime s) condition) = fzero ∧
  last_update_yes_ns (get_market (runtime s) condition) = 0 ∧
  last_update_no_ns (get_market (runtime s) condition) = 0.
Proof.
  intros (Hr & ns & Hts & Hsum)%reachable_ok Ha Hf Hm Hne.
  rewrite (finished_pending _ _ Hts Hf) in Hsum. unfold get_market. rewrite Hm, snapshot_market_copies.
  destruct (ok_quiet _ _ Hr Ha ltac:(lia) _ _ Hm Hne) as (? & ? & ? & ? & ? & ?). done.
Qed.
End Invariant.

(** ** Calls that run alone *)

Section Sequential.
Context `{StdSort}.

(** The state a thread leaves behind when nothing interleaves. *)
Definition seq (t : thread) (r : OrderbookRuntime) : OrderbookRuntime := (run_thread t r).1.

Lemma seq_section l body r : seq (section l body) r = seq (body r).2 (body r).1.1.
Proof.
  unfold seq. cbn. destruct (body r) as [[r' ef] rest]. cbn. by destruct (run_thread rest r').
Qed.

(** The leg of a market a token stands for. *)
Definition leg (m : MarketState) (token : string) : StreamBookTop :=
  if bool_decide (token = token_yes m) then MkStreamBookTop (best_ask_yes m) (best_ask_yes_size m)
  else if bool_decide (token = token_no m) then MkStreamBookTop (best_ask_no m) (best_ask_no_size m)
  else MkStreamBookTop fzero fzero.

Definition no_quote : StreamBookTop := MkStreamBookTop fzero fzero.

(** Every quoted leg is the top of the book cached for its token. *)
Definition quotes_match (r : OrderbookRuntime) : Prop :=
  ∀ token condition m,
    token_to_condition r !! token = Some condition → markets r !! condition = Some m →
    leg m token = no_quote ∨ (∃ b, orderbooks r !! token = Some b ∧ leg m token = top_of b).

Definition sequential_ok (r : OrderbookRuntime) : Prop :=
  books_ok (orderbooks r) (snapshot_ready r) ∧ quotes_match r.

Lemma leg_reset m t token :
  leg (reset_market_leg m t) token = if bool_decide (token = t) then no_quote else leg m token.
Proof. unfold leg, reset_market_leg. destruct m; cbn.
  repeat (case_if; cbn in * ); bools; first [done|congruence].
Qed.

Lemma leg_reset_market m token : leg (reset_market m) token = no_quote.
Proof.
  unfold reset_market. rewrite !leg_reset. unfold leg. repeat case_if; bools; first [done|congruence].
Qed.

Lemma leg_quote m asset top t token :
  leg (quote_market asset top t m) token =
    if bool_decide (token = asset) then
      if bool_decide (asset = token_yes m) || bool_decide (asset = token_no m) then top else no_quote
    else leg m token.
Proof.
  unfold leg, quote_market. destruct m, top; cbn.
  repeat (case_if; cbn in * ); bools; first [done|congruence].
Qed.

(** ** Each call keeps quotes and books together *)

Lemma track_token_mapped cond s tok t k :
  (track_token cond s tok).1.1 !! t = Some k → k = cond ∨ s.1.1 !! t = Some k.
Proof.
  destruct s as [[conds subs] added]. cbn. case_if; cbn; [by right|].
  rewrite lookup_insert_Some. naive_solver.
Qed.

Lemma subscribe_quotes m sent rest r :
  sequential_ok r → ∃ r', sequential_ok r' ∧ seq (subscribe m sent rest) r = seq rest r'.
Proof.
  intros [Hb Hq]. unfold subscribe. rewrite seq_section. cbn beta.
  destruct (negb (owner_active r)); cbn [fst snd]; [by exists r|].
  rewrite !seq_section. cbn [fst snd foldl].
  set (live := reset_market_leg _ (token_no _)).
  assert (Hlive : ∀ tok, leg live tok = no_quote).
  { intros tok. subst live. rewrite (proj2 (reset_market_leg_tokens _ _)). apply leg_reset_market. }
  rewrite seq_section. cbn beta.
  match goal with |- context [track_token ?c (track_token ?c ?s ?y) ?n] =>
    destruct (track_token c (track_token c s y) n) as [[conds subs] added] eqn:E;
    assert (Hcs : ∀ t k, conds !! t = Some k → k = c ∨ token_to_condition r !! t = Some k)
  end.
  { intros t k Hk. change conds with (conds, subs, added).1.1 in Hk. rewrite <- E in Hk.
    apply track_token_mapped in Hk as [|Hk]; [by left|]. by apply track_token_mapped in Hk. }
  cbn [fst snd]. rewrite seq_section. cbn [fst snd]. eexists. split; [|done].
  split; [done|]. intros tok cond m' Hc Hm. cbn in Hc, Hm |- *.
  destruct (decide (condition_id m = cond)) as [<-|Hne].
  { rewrite lookup_insert_eq in Hm. injection Hm as <-. left. apply Hlive. }
  rewrite lookup_insert_ne in Hm by done. apply Hcs in Hc as [->|Hc]; [done|].
  by apply (Hq tok cond).
Qed.

Lemma subscribe_all_quotes ms sent r :
  sequential_ok r → sequential_ok (seq (subscribe_all ms sent) r).
Proof.
  revert r. induction ms as [|m ms IH]; intros r Hr; [done|].
  destruct (subscribe_quotes m sent (subscribe_all ms sent) r Hr) as (r' & Hr' & Heq).
  cbn [subscribe_all]. rewrite Heq. by apply IH.
Qed.

Lemma unsubscribe_quotes tok sent r :
  subscriptions_ok r → sequential_ok r → sequential_ok (seq (unsubscribe tok sent) r).
Proof.
  intros Hs [Hb Hq]. unfold unsubscribe. rewrite seq_section. cbn beta.
  destruct (negb (owner_active r)); cbn [fst snd]; [done|].
  do 3 (rewrite seq_section; cbn [fst snd]).
  destruct (bool_decide (tok ∈ subscribed_tokens r)) eqn:Er.
  - unfold unsubscribe_market. rewrite seq_section. cbn [fst snd].
    split; [by apply books_ok_delete|].
    intros t cond m Hc Hm. cbn in Hc, Hm |- *. apply lookup_delete_Some in Hc as [Hne Hc].
    rewrite lookup_delete_ne by done.
    apply lookup_alter_Some in Hm as [(<- & m' & Hm & ->)|[_ Hm]]; [|by apply (Hq t cond)].
    rewrite leg_reset, bool_decide_eq_false_2 by done. by apply (Hq t _ _ Hc Hm).
  - split; [by apply books_ok_delete|]. intros t cond m Hc Hm. cbn in Hc, Hm |- *.
    assert (tok ≠ t) as Hne.
    { intros ->. bools. apply Er, (subscribed_mapped _ Hs). by exists cond. }
    rewrite lookup_delete_ne by done. by apply (Hq t cond).
Qed.

Lemma unsubscribe_all_quotes sent r :
  sequential_ok r → sequential_ok (seq (unsubscribe_all sent) r).
Proof.
  intros Hr. unfold unsubscribe_all. rewrite seq_section. cbn beta.
  destruct (negb (owner_active r)); cbn [fst snd]; [done|].
  do 4 (rewrite seq_section; cbn [fst snd]).
  split; [apply books_ok_empty|]. intros t cond m Hc. cbn in Hc. by rewrite lookup_empty in Hc.
Qed.

Lemma invalidate_quotes p rest r :
  ∃ r', sequential_ok r' ∧ seq (invalidate_cached_state p rest) r = seq rest r'.
Proof.
  unfold invalidate_cached_state. do 2 (rewrite seq_section; cbn [fst snd]).
  eexists. split; [|done]. split; [apply books_ok_empty|].
  intros t cond m _ Hm. cbn in Hm. apply lookup_fmap_Some in Hm as (m' & <- & _).
  left. apply leg_reset_market.
Qed.

Lemma deactivate_quotes rest r :
  ∃ r', sequential_ok r' ∧ seq (deactivate_stream rest) r = seq rest r'.
Proof.
  unfold deactivate_stream. rewrite seq_section. cbn [fst snd].
  destruct (stream_active r); [rewrite seq_section; cbn [fst snd]|]; apply invalidate_quotes.
Qed.

Lemma disconnect_quotes r : sequential_ok (seq disconnect r).
Proof.
  unfold disconnect. destruct (deactivate_quotes
    (section no_lock (λ r, (set_connected false r, [], finished))) r) as (r' & Hr' & ->).
  rewrite seq_section. done.
Qed.

Lemma connect_quotes opened r : sequential_ok r → sequential_ok (seq (connect opened) r).
Proof.
  intros Hr. unfold connect. rewrite seq_section. cbn beta.
  destruct (negb (owner_active r)); cbn [fst snd]; [done|].
  do 2 (rewrite seq_section; cbn [fst snd]). destruct opened; [done|].
  by destruct (deactivate_quotes finished (set_connected false (set_stream true (stream_generation r)
    (resets_pending r) r))) as (r' & Hr' & ->).
Qed.

Lemma gap_quotes r : sequential_ok r → sequential_ok (seq invalidate_stream_state r).
Proof.
  intros Hr. unfold invalidate_stream_state. rewrite seq_section. cbn beta.
  destruct (_ || _); cbn [fst snd]; [done|]. rewrite seq_section. cbn [fst snd].
  by destruct (invalidate_quotes 0 finished (set_stream (stream_active r)
    (u64 (stream_generation r + 1)) (resets_pending r) r)) as (r' & Hr' & ->).
Qed.

Lemma shutdown_quotes r : sequential_ok r → sequential_ok (seq shutdown r).
Proof.
  intros Hr. unfold shutdown. rewrite seq_section. cbn beta.
  destruct (shutdown_started r); cbn [fst snd]; [done|]. rewrite seq_section. cbn [fst snd].
  match goal with |- sequential_ok (seq (deactivate_stream ?k) ?r0) =>
    destruct (deactivate_quotes k r0) as (r' & Hr' & ->) end.
  by do 2 (rewrite seq_section; cbn [fst snd]).
Qed.

Lemma update_callbacks_quotes f r : sequential_ok r → sequential_ok (seq (update_callbacks f) r).
Proof.
  intros Hr. unfold update_callbacks. rewrite seq_section. cbn beta.
  by destruct (negb (owner_active r)).
Qed.

(** The parts of an update after the market section write counters only. *)
Lemma check_arb_quotes condition permit rest r :
  sequential_ok r →
  ∃ r', sequential_ok r' ∧ seq (check_arb_opportunity condition permit rest) r = seq rest r'.
Proof.
  intros Hr. unfold check_arb_opportunity. rewrite seq_section. cbn beta.
  destruct (is_stream_current r permit) eqn:E; cbn [negb fst snd]; [|by exists r].
  rewrite seq_section. cbn beta. destruct (markets r !! condition); [|by exists r].
  cbv zeta. case_if; cbn [fst snd]; [by exists r|].
  rewrite seq_section. cbn beta. rewrite E. cbn [negb fst snd]. unfold dispatch_arb_callbacks.
  do 4 (rewrite seq_section; cbn [fst snd]). eexists. by split; [|reflexivity].
Qed.

Lemma publish_quotes asset condition book permit rest r :
  sequential_ok r →
  ∃ r', sequential_ok r' ∧ seq (publish_update asset condition book permit rest) r = seq rest r'.
Proof.
  intros Hr. unfold publish_update. do 3 (rewrite seq_section; cbn [fst snd]).
  case_if; [by apply check_arb_quotes|eexists; by split; [|reflexivity]].
Qed.

(** The two critical sections of an update, one after the other. *)
Lemma update_quotes e condition wants t permit rest r :
  event_ok e → is_stream_current r permit = true →
  token_to_condition r !! event_asset_id e = Some condition → sequential_ok r →
  ∃ r', sequential_ok r' ∧ seq (update_book e condition wants t permit rest) r = seq rest r'.
Proof.
  intros He Hcur Hcond [Hb Hq]. unfold update_book. rewrite seq_section. cbn beta.
  destruct (stream_event_effect _ _ e t Hb He) as [(-> & _ & _)|(b & ready & -> & _ & Hok)].
  { exists (set_books (orderbooks r) (snapshot_ready r) r). by split; [split|]. }
  cbv beta iota zeta. set (r1 := set_books _ ready r).
  change (is_stream_current r1 permit) with (is_stream_current r permit). rewrite Hcur.
  cbn [negb fst snd]. unfold update_market. rewrite seq_section. cbn beta.
  change (is_stream_current r1 permit) with (is_stream_current r permit). rewrite Hcur.
  cbn [negb]. change (markets r1) with (markets r).
  destruct (markets r !! condition) as [m|] eqn:Em; cbn [fst snd].
  - apply publish_quotes. split; [done|]. intros tok cond m' Hc Hm. cbn in Hc, Hm |- *.
    destruct (decide (tok = event_asset_id e)) as [->|Hne].
    + simplify_eq. rewrite lookup_insert_eq in Hm. injection Hm as <-. rewrite leg_quote.
      rewrite bool_decide_eq_true_2 by done. case_if; [right|by left].
      exists b. by rewrite lookup_insert_eq.
    + rewrite (lookup_insert_ne (orderbooks r)) by done.
      apply lookup_insert_Some in Hm as [[<- <-]|[? Hm]]; [|by apply (Hq tok cond)].
      rewrite leg_quote, bool_decide_eq_false_2 by done. by apply (Hq tok condition).
  - exists r1. split; [|done]. split; [done|]. intros tok cond m' Hc Hm. cbn in Hc, Hm |- *.
    rewrite lookup_insert_ne by congruence. by apply (Hq tok cond).
Qed.

Lemma handle_events_quotes es t permit r :
  Forall event_ok es → sequential_ok r → sequential_ok (seq (handle_events es t permit) r).
Proof.
  intros Hes. revert r. induction Hes as [|e es He _ IH]; intros r Hr; [done|].
  cbn [handle_events]. unfold handle_orderbook_update. rewrite seq_section. cbn beta.
  destruct (is_stream_current r permit) eqn:E; cbn [negb fst snd]; [|by apply IH].
  rewrite seq_section. cbn beta. rewrite E. cbn [negb].
  destruct (token_to_condition r !! event_asset_id e) as [cond|] eqn:Ec; cbn [fst snd]; [|by apply IH].
  destruct (update_quotes e cond (on_update (callbacks r)) t permit (handle_events es t permit) r
              He E Ec Hr) as (r' & Hr' & ->). by apply IH.
Qed.

Lemma leg_store_tick tick m token : leg (store_tick tick m) token = leg m token.
Proof. done. Qed.

Lemma handle_message_quotes m g r : sequential_ok r → sequential_ok (seq (handle_message m g) r).
Proof.
  intros Hr. unfold handle_message. rewrite seq_section. cbv zeta beta.
  destruct (is_stream_current r _) eqn:E; cbn [negb fst snd]; [|done].
  destruct m as [|a k|e|items]; cbn [fst snd]; [done| |by unfold invalid_message; rewrite seq_section|].
  - destruct (parse_market_tick_size_change a k) as [tick|]; [|done].
    unfold handle_tick. rewrite seq_section. cbn beta.
    destruct (token_to_condition r !! _) as [cond|]; cbn [fst snd]; [|done].
    rewrite seq_section. cbn beta. rewrite E. cbn [negb fst snd].
    destruct Hr as [Hb Hq]. split; [done|]. intros tok cnd m Hc Hm. cbn in Hc, Hm |- *.
    apply lookup_alter_Some in Hm as [(<- & m' & Hm & ->)|[_ Hm]]; [|by apply (Hq tok cnd)].
    rewrite leg_store_tick. by apply (Hq tok cond).
  - destruct (parse_market_book_events items) eqn:Ep.
    + apply handle_events_quotes; [by eapply parsed_events_ok|done].
    + unfold invalid_message. by rewrite seq_section.
Qed.

(** C32: a call or message that runs without interleaving keeps quotes and books
    together: whenever a token is tracked for a market, the ask and size the
    market quotes for it are either none or the best ask of the book cached for
    that token. *)
Theorem calls_keep_quotes_matching c k r :
  runtime_ok c r → quotes_match r → quotes_match (run_thread (call_thread k) r).1.
Proof.
  intros Hr Hq. assert (Hs : sequential_ok r) by (split; [apply Hr|done]).
  change (quotes_match (seq (call_thread k) r)).
  destruct k; first [by apply subscribe_all_quotes|by apply unsubscribe_quotes; [apply Hr|]
    |by apply unsubscribe_all_quotes|by apply update_callbacks_quotes|by apply connect_quotes
    |by apply disconnect_quotes|by apply shutdown_quotes|by apply gap_quotes
    |by apply handle_message_quotes].
Qed.
End Sequential.

(** ** Schedules *)

(** A schedule names the thread that runs next, or the call that starts. *)
Inductive move := start (k : call) | run (i : nat) | set_time (now : Z).

Definition may_run (l : lock_use) (i : nat) (h : option nat) : bool :=
  match l with
  | no_lock => true
  | lock_subscriptions => bool_decide (h = None)
  | keep_lock => bool_decide (h = Some i)
  end.

Section Schedules.
Context `{StdSort}.

Definition play_move (m : move) (s : system) : option (system * list effect) :=
  match m with
  | start k => Some (MkSystem (runtime s) (holder s) (threads s ++ [call_thread k]), [])
  | set_time now =>
      if clock (runtime s) <=? now
      then Some (MkSystem (set_clock now (runtime s)) (holder s) (threads s), []) else None
  | run i =>
      match threads s !! i with
      | Some (section l body) =>
          if may_run l i (holder s) then
            let '(r, effects, rest) := body (runtime s) in
            Some (MkSystem r (holder_after l i rest (holder s)) (<[i := rest]> (threads s)), effects)
          else None
      | _ => None
      end
  end.

Fixpoint play (ms : list move) (s : system) : option system :=
  match ms with
  | [] => Some s
  | m :: ms' => match play_move m s with Some (s', _) => play ms' s' | None => None end
  end.

Lemma play_move_step m s s' ef : play_move m s = Some (s', ef) → step s ef s'.
Proof.
  destruct m as [k|i|now]; cbn.
  - intros [= <- <-]. apply step_call.
  - destruct (threads s !! i) as [[|l body]|] eqn:Ei; [done| |done].
    destruct (may_run l i (holder s)) eqn:Em; [|done].
    destruct (body (runtime s)) as [[r effects] rest] eqn:Eb. intros [= <- <-].
    eapply step_section; [done| |done]. destruct l; cbn in *; by bools.
  - case_if; [|done]. intros [= <- <-]. bools. by apply step_clock.
Qed.

Lemma play_reachable c ms s s' : reachable c s → play ms s = Some s' → reachable c s'.
Proof.
  revert s. induction ms as [|m ms IH]; cbn; intros s Hs Hp; [by injection Hp as <-|].
  destruct (play_move m s) as [[s1 ef]|] eqn:E; [|done].
  eapply IH; [|done]. eapply reachable_step; [done|by eapply play_move_step].
Qed.
End Schedules.

Definition is_finished (t : thread) : bool := match t with finished => true | _ => false end.

Lemma all_finished ts : forallb is_finished ts = true → Forall (λ t, t = finished) ts.
Proof. induction ts as [|[] ts IH]; cbn; [constructor| |done]. intros. constructor; auto. Qed.

(** ** A market, its snapshot and a delta *)

Definition sample_config : Config := MkConfig (cents 98) 10000 5000 2000.

Definition sample_market : MarketState :=
  MkMarketState "slug" "title" "btc" "cond" "token" "other" fzero fzero fzero fzero
    (shares 1) "0.01" 0 false false fzero 1 0 0 0 0.

Definition sample_delta_item : MarketItem :=
  price_change_item [MkPriceChangeFields (Some "token") (Some "BUY") (MkPriceLevel (cents 49) (shares 4))].

(** A subscribed and connected runtime, and a snapshot on its way: the message
    has been admitted and holds the subscriptions, and its book section is next
    when [disconnect] runs from start to end. *)
Definition in_flight : list move :=
  [start (call_subscribe [sample_market] true); run 0; run 0; run 0; run 0;
   start (call_connect true); run 1; run 1; run 1;
   start (stream_message (book_message [sample_snapshot]) 0); run 2; run 2; run 2;
   start call_disconnect; run 3; run 3; run 3; run 3; run 3;
   run 2].

(** A reconnect whose first message is a delta. *)
Definition reconnect_delta : list move :=
  [start (call_connect true); run 4; run 4; run 4;
   start (stream_message (book_message [sample_delta_item]) 0);
   run 5; run 5; run 5; run 5; run 5; run 5; run 5; run 5; run 5; run 5].

Definition played (ms : list move) : system :=
  default (initial_system sample_config) (play ms (initial_system sample_config)).

Lemma played_reachable ms : reachable sample_config (played ms).
Proof.
  unfold played. destruct (play ms _) eqn:E; [|apply reachable_initial].
  by eapply play_reachable; [apply reachable_initial|].
Qed.

(** Deactivation does not clear the books the way it clears the quotes.  A
    snapshot in flight across [disconnect] is cached after the books were
    cleared: with every call returned and the stream inactive, its book is still
    served, and its asset counts as having a snapshot; a delta after the next
    [connect] is then applied to it, and its ask is quoted although the new
    connection sent no snapshot. *)
Lemma stale_book_survives_disconnect :
  (∃ s, reachable sample_config s ∧ stream_active (runtime s) = false ∧
     Forall (λ t, t = finished) (threads s) ∧ stream_generation (runtime s) = 1 ∧
     get_orderbook (runtime s) "token" = Some (set_timestamp 0 sample_book) ∧
     "token" ∈ snapshot_ready (runtime s) ∧
     best_ask_yes (get_market (runtime s) "cond") = fzero) ∧
  (∃ s, reachable sample_config s ∧ Forall (λ t, t = finished) (threads s) ∧
     stream_generation (runtime s) = 1 ∧
     best_ask_yes (get_market (runtime s) "cond") = cents 50).
Proof.
  split; [exists (played in_flight)|exists (played (in_flight ++ reconnect_delta))].
  all: split; [apply played_reachable|].
  - split; [vm_compute; reflexivity|].
    split; [apply all_finished; vm_compute; reflexivity|].
    split_and!; try (vm_compute; reflexivity).
  - split; [apply all_finished; vm_compute; reflexivity|].
    split; vm_compute; reflexivity.
Qed.

Definition other_snapshot : MarketItem :=
  book_item (Some "other") (Some []) (Some [MkPriceLevel (cents 40) (shares 9)]).

(** Both legs quoted, 90 cents together, up to the permit callback. *)
Definition quoted : list move :=
  [set_time 5; start (call_on_arb_permit true); run 0;
   start (call_subscribe [sample_market] true); run 1; run 1; run 1; run 1;
   start (call_connect true); run 2; run 2; run 2;
   start (stream_message (book_message [sample_snapshot; other_snapshot]) 0)] ++ replicate 23 (run 3).

Definition quoted_market : MarketState := get_market (runtime (played quoted)) "cond".

Lemma runtime_invariant_witness :
  books_ok (orderbooks (runtime (played quoted))) (snapshot_ready (runtime (played quoted))) ∧
  base.size (orderbooks (runtime (played quoted))) = 2%nat.
Proof.
  destruct (runtime_invariant sample_config (played quoted) (played_reachable quoted)) as [Hb _].
  split; [exact Hb|vm_compute; reflexivity].
Defined.


Definition closed : list move :=
  quoted ++ [run 3; start call_disconnect; run 4; run 4; run 4; run 4; run 4].

Lemma deactivation_clears_quotes_witness :
  best_ask_yes (get_market (runtime (played closed)) "cond") = fzero ∧
  best_ask_yes (get_market (runtime (played quoted)) "cond") = cents 50.
Proof.
  assert (Ha : stream_active (runtime (played closed)) = false) by (vm_compute; reflexivity).
  assert (Hf : forallb is_finished (threads (played closed)) = true) by (vm_compute; reflexivity).
  assert (Hm : match markets (runtime (played closed)) !! "cond" with
               | Some m => bool_decide (token_yes m ≠ token_no m)
               | None => false
               end = true) by (vm_compute; reflexivity).
  destruct (markets (runtime (played closed)) !! "cond") as [m|] eqn:E; [|discriminate Hm].
  apply bool_decide_eq_true in Hm.
  destruct (deactivation_clears_quotes sample_config (played closed) "cond" m (played_reachable closed)
              Ha (all_finished _ Hf) E Hm) as (Hy & _).
  split; [exact Hy|vm_compute; reflexivity].
Defined.

Lemma calls_keep_quotes_matching_witness :
  quotes_match (run_thread (call_thread (call_subscribe [sample_market] true))
                  (initial_runtime sample_config)).1.
Proof.
  apply (calls_keep_quotes_matching sample_config).
  - exact (proj1 (initial_ok sample_config)).
  - intros token condition m Hc. discriminate Hc.
Defined.
